(* ===== verification/_CoqProject ===== *)
-Q . S2P
Prelude.v
Float64.v
Crypto.v
RustStrings.v
RustBytes.v
Messages.v
Validators.v
ValidatorProps.v
Merkle.v
P2PState.v
P2PStateProps.v
Consensus.v
ConsensusInv.v
ConsensusProps.v
ConsensusSpec.v
ConsensusRuns.v
Network.v
NetworkProps.v
Node.v
Epoch.v
CommitReveal.v
MechanismWeights.v
Aggregator.v
CoreTypes.v
CoreState.v
CoreStateProps.v
CoreMessages.v
StateVersioning.v
ContainerPolicy.v
ContainerBroker.v
ContainerBrokerProps.v
SubnetConfig.v
SubnetManager.v
SubnetCommands.v
SubnetProps.v
SubnetCommandProps.v
DStore.v
LocalStore.v
LocalStoreProps.v
LocalQueryProps.v
LocalListProps.v
StorageExamples.v
Replication.v
Dht.v
DhtProps.v
FloatOrder.v
Submission.v
StoredWeights.v
ChallengeStore.v
ChallengeStoreProps.v
ChallengeStoreLocal.v
Bittensor.v
WeightSubmission.v
WeightSubmissionProps.v
BittensorExamples.v
WeightCollector.v
ChainSync.v
DynamicStore.v
DynamicStoreProps.v
DynamicStoreExamples.v
Migrations.v
MigrationProps.v
ConsensusStore.v
ConsensusStoreProps.v
ConsensusStoreVotes.v
ConsensusStoreExamples.v
OptimizedStore.v
ChainStorage.v
ChainStorageExamples.v
ChallengeRoutes.v
RpcHandlers.v
JsonRpc.v
RpcServer.v
RpcProps.v
Orchestrator.v
DockerClient.v
OrchestratorProps.v
SecureClient.v
ChallengeSdk.v
ChallengeSdkProps.v
