(* ===== verification/Prelude.v ===== *)
(** * Verification of the Platform validator network

    A shallow embedding of Platform, a network of validators that evaluate
    challenge submissions, agree on the results with a PBFT protocol over a
    gossip network, run the challenges in confined containers, and set weights
    on the Bittensor chain once per epoch.  The Rust code of the repository is
    translated function by function into executable definitions; the theorems
    state what each part promises and what the parts promise together.

    ** The program and the files that model it

    Foundations:
    - [Prelude.v]: results, the state-and-error monad [SE] of methods that
      mutate [self] and may fail, its weakest-precondition rules, 64-bit and
      16-bit integers with wrap-around, hash maps with an arbitrary iteration
      order ([HashOrder]), the stable sort, shared lemmas and tactics.
    - [Float64.v], [FloatOrder.v]: Rust's [f64] as executable IEEE-754
      arithmetic, with the saturating casts and the rounding the code uses, and
      its order.
    - [RustStrings.v], [RustBytes.v]: strings, bytes, UTF-8, and ordered trees
      of byte strings, which is what a sled tree is.
    - [Crypto.v]: hotkeys, key pairs, signed messages, hashes and the error
      type ([crates/core/src/types.rs], [crypto.rs], [error.rs]).  sr25519,
      SHA-256, bincode and hex are the operations of the class [External],
      their documented behaviour the class [ExternalLaws]; [Toy] is a concrete
      instance for evaluation.

    Consensus ([crates/p2p-consensus/src], [bins/validator-node/src/main.rs]):
    - [Messages.v]: the messages of [messages.rs] and the payloads signed.
    - [Validators.v], [ValidatorProps.v]: [validator.rs]; registration,
      heartbeats, staleness, quorum, leader election, stake-weighted voting.
    - [Merkle.v]: the Merkle trees of [state.rs].
    - [P2PState.v], [P2PStateProps.v]: the replicated [ChainState] of
      [state.rs]; evaluations, weight votes, epochs and synchronisation.
    - [Consensus.v]: the engine of [consensus.rs], every method with its
      guards, early returns and state changes.  [ConsensusInv.v] makes it a
      transition system with an invariant, [ConsensusProps.v] holds its
      theorems, [ConsensusSpec.v] the abstract replica it refines and
      [ConsensusRuns.v] evaluated runs, witnesses and attacks.
    - [Network.v], [NetworkProps.v]: the stateful part of [network.rs]; peer
      mapping, message envelopes, replay protection and rate limits.
    - [Node.v]: the event loop of the node, which drives engine, validator set
      and chain state by the events of the network and of the chain.

    Epochs and weights ([crates/epoch/src]):
    - [Epoch.v]: [manager.rs] and the types of [lib.rs]; [CommitReveal.v]:
      [commit_reveal.rs] with the weight utilities of the challenge SDK;
      [MechanismWeights.v]: [mechanism_weights.rs]; [Aggregator.v]:
      [aggregator.rs].

    The core crate ([crates/core/src]):
    - [CoreTypes.v], [CoreState.v], [CoreStateProps.v]: types, constants,
      challenges and the single-node chain state; [CoreMessages.v]:
      [message.rs]; [StateVersioning.v]: [state_versioning.rs] and
      [schema_guard.rs].

    Containers ([crates/secure-container-runtime/src],
    [crates/challenge-orchestrator/src]):
    - [ContainerPolicy.v]: [types.rs] and [policy.rs]; [ContainerBroker.v],
      [ContainerBrokerProps.v]: [protocol.rs], [broker.rs] and the request path
      of [ws_transport.rs].
    - [Orchestrator.v], [DockerClient.v], [OrchestratorProps.v]: the
      orchestrator, the lifecycle manager, the health monitor, the evaluator,
      the backend selection and the Docker client.  The trait of a container
      runtime is a class; what is proved for any runtime that starts only
      allowed images ([StartsOnly]) is discharged by the Docker client.
    - [SecureClient.v]: [client.rs], the environment of [ws_client.rs], and the
      secure backend, over the broker itself where the two are composed.

    The subnet manager ([crates/subnet-manager/src]):
    - [SubnetConfig.v]: [config.rs] and [health.rs]; [SubnetManager.v]:
      [update.rs] and [snapshot.rs]; [SubnetCommands.v]: [recovery.rs] and
      [commands.rs]; [SubnetProps.v], [SubnetCommandProps.v]: their theorems.

    Distributed storage ([crates/distributed-storage/src]):
    - [DStore.v]: [store.rs], [query.rs], [error.rs] and the class
      [DistributedStore] of the trait; [LocalStore.v] with
      [LocalStoreProps.v], [LocalQueryProps.v], [LocalListProps.v] and
      [StorageExamples.v]: [local.rs]; [Replication.v]: [replication.rs];
      [Dht.v], [DhtProps.v]: [dht.rs]; [Submission.v]: [submission.rs];
      [StoredWeights.v]: [weights.rs]; [ChallengeStore.v],
      [ChallengeStoreProps.v], [ChallengeStoreLocal.v]: [challenge_store.rs],
      proved against a storage that behaves as a map and then put on the local
      storage, which does.

    Storage of a node ([crates/storage/src]):
    - [DynamicStore.v], [DynamicStoreProps.v], [DynamicStoreExamples.v]:
      [types.rs] and [dynamic.rs]; [Migrations.v], [MigrationProps.v]:
      [migration.rs]; [ConsensusStore.v], [ConsensusStoreProps.v],
      [ConsensusStoreVotes.v], [ConsensusStoreExamples.v]: [distributed.rs];
      [OptimizedStore.v]: [optimized.rs]; [ChainStorage.v],
      [ChainStorageExamples.v]: [lib.rs].

    The Bittensor chain ([crates/bittensor-integration/src]):
    - [Bittensor.v]: [config.rs] and [client.rs] over the chain as the class
      [Subtensor]; [WeightSubmission.v], [WeightSubmissionProps.v],
      [BittensorExamples.v]: [weights.rs]; [WeightCollector.v]:
      [challenge_weight_collector.rs]; [ChainSync.v]: [validator_sync.rs] and
      [block_sync.rs].

    The RPC server ([crates/rpc-server/src]):
    - [RpcHandlers.v]: [auth.rs], [types.rs], [handlers.rs]; [JsonRpc.v]:
      [jsonrpc.rs]; [RpcServer.v]: [server.rs]; [RpcProps.v]: their theorems.

    The challenge SDK ([crates/challenge-sdk/src]):
    - [ChallengeRoutes.v]: [routes.rs]; [ChallengeSdk.v],
      [ChallengeSdkProps.v]: [submission_types.rs], [database.rs], [server.rs],
      [p2p_client.rs], [decentralized.rs].

    A struct is a [Record] with a prefix on its fields, an enum an
    [Inductive], a method that takes [&mut self] or writes through a lock an
    [SE] program; locks are not modelled where an object is called under one
    write lock at a time, and calls that interleave are step relations.  Clock
    readings, fresh identifiers and measured times are arguments.  Logging is
    dropped.

    ** What the theorems show

    - Consensus: every call refines steps of an abstract replica; decisions
      are final, without gaps and certified by valid signatures of distinct
      hotkeys, each the engine's own or a registered validator's; two decisions
      of different data for one slot expose f + 1 double voters when n = 3f + 1;
      the vote handlers are specified on every branch;
      a round whose votes arrive in order is decided.  Quorums intersect,
      leaders rotate fairly and independently of map order; replays are refused
      for five minutes unless younger nonces are cleaned, the rate limit holds over every window, honest messages
      are delivered; the node keeps all invariants whatever events it handles.
    - Epochs and weights: phases follow the chain, reveals open commitments,
      converted weights are well formed and conserve the total; committed
      batches survive a restart with salts that open them.
    - Storage: the local storage, the challenge stores, the dynamic storage, the
      consensus storage and the chain storage each refine a finite map or a
      table, through caches, indexes and encodings; ascending queries without
      offset return exactly what a search would; proofs of the challenge store
      verify; migrations run once and in order; the database of a challenge
      finds what was saved last under hashes without a colon.
    - Containers: the daemon is only asked for confined containers, the limits
      are exceeded by at most the other creations under way, only allowed images
      run outside development mode, a synchronisation brings the running
      containers to its target on a runtime that does what it is asked, waiting
      loops terminate.
    - Servers: every JSON-RPC body gets one well-formed response, only messages
      under the sudo key change the shared state, the runner of a challenge
      answers every submission once.
    - Counterexamples: theorems that evaluate runs or give general conditions
      in which the code does not do what it means to, such as a fork by one
      faulty leader, prepares replayed as commits, forged stakes, sudo
      signatures that are not bound to a message, commits lost in a restart,
      approvals of conflicting writes, or containers nobody knows of any more.

    ** Bounds

    Functions are total.  The loops over Merkle levels and the binary search of
    the weight history are defined by well-founded recursion.  The loops that
    wait for a container ([oneshot_loop], [wait_healthy_loop]) take fuel, and
    theorems give the fuel that is always enough: ten rounds, or two, per second
    of the timeout.  Hexadecimal text of a [u64] is produced with fuel 16, the
    number of its digits.  All other recursion is structural.  Sequence numbers
    wrap at 2^64 as in the release build; theorems about runs of the engine and
    of the node assume fewer than 2^64 - 2 calls.  Strings are byte strings whose
    case mapping and white space are those of ASCII.  A sled tree is an ordered
    map without I/O errors; the disk of the subnet manager and of the weight
    submitter may refuse any path.  The threshold of half of the validators,
    computed in floating point, is shown equal to the exact one for up to 1024
    validators.

    ** What is not modelled

    libp2p, the sockets of the broker and its clients, the HTTP and WebSocket
    libraries, the Docker library, the sled database itself and the client
    library of the Bittensor chain are classes of operations or arguments, since
    their code is not part of the repository.  Argument parsing, key files,
    mnemonics and the start of the processes
    ([bins/validator-node/src/main.rs] outside the event loop,
    [bin/container-broker.rs]) are input and output.  [p2p-consensus/src/config.rs],
    [challenge-sdk/src/data.rs] and [weight_types.rs] are records that no code of
    the repository computes with; [mock.rs], [test_challenge.rs], examples and
    tests are not part of the program. *)

From Stdlib Require Export ZArith Lia.
From stdpp Require Export sorting strings numbers gmap sets.
From stdpp Require Export base tactics option list.

(** ** Results and the state-and-error monad

    [result E A] is Rust's [Result<A, E>].  [SE S E A] is a method that takes
    [&mut self] (or writes through the object's locks) and returns a
    [Result]: the state after an early return is the state at that point, as
    in the source, where a mutation done before a [?] is kept. *)

Inductive result (E A : Type) : Type :=
| Ok (a : A)
| Err (e : E).
Arguments Ok {E A} a.
Arguments Err {E A} e.

#[global] Instance result_eq_dec {E A} `{EqDecision E} `{EqDecision A} :
  EqDecision (result E A).
Proof. solve_decision. Defined.

Definition result_map_err {E F A} (f : E -> F) (r : result E A) : result F A :=
  match r with Ok a => Ok a | Err e => Err (f e) end.

Definition is_ok {E A} (r : result E A) : bool :=
  match r with Ok _ => true | Err _ => false end.

Definition ok_or {E A} (o : option A) (e : E) : result E A :=
  match o with Some a => Ok a | None => Err e end.

#[global] Instance result_ret {E} : MRet (result E) := fun A a => Ok a.
#[global] Instance result_bind {E} : MBind (result E) := fun A B f r =>
  match r with Ok a => f a | Err e => Err e end.

Definition SE (S E A : Type) : Type := S -> result E A * S.

#[global] Instance SE_ret {S E} : MRet (SE S E) := fun A a s => (Ok a, s).
#[global] Instance SE_bind {S E} : MBind (SE S E) := fun A B f m s =>
  match m s with
  | (Ok a, s') => f a s'
  | (Err e, s') => (Err e, s')
  end.

Definition throw {S E A} (e : E) : SE S E A := fun s => (Err e, s).
Definition get_state {S E} : SE S E S := fun s => (Ok s, s).
Definition modify {S E} (f : S -> S) : SE S E unit := fun s => (Ok tt, f s).
Definition lift {S E A} (r : result E A) : SE S E A := fun s => (r, s).

(** [require b e] is the guard [if !b { return Err(e) }]. *)
Definition require {S E} (b : bool) (e : E) : SE S E unit :=
  fun s => if b then (Ok tt, s) else (Err e, s).

(** ** Weakest preconditions for [SE]

    [wp m Q s] holds when running [m] from [s] ends with an outcome and a
    state related by [Q].  The rules below let a handler be verified along its
    own control flow. *)

Definition wp {S E A} (m : SE S E A) (Q : result E A -> S -> Prop) (s : S) : Prop :=
  Q (m s).1 (m s).2.

Section wp_rules.
Context {S E : Type}.

Lemma wp_ret {A} (a : A) (Q : result E A -> S -> Prop) s :
  Q (Ok a) s -> wp (mret a) Q s.
Proof. done. Qed.

Lemma wp_throw {A} (e : E) (Q : result E A -> S -> Prop) s :
  Q (Err e) s -> wp (throw e) Q s.
Proof. done. Qed.

Lemma wp_get (Q : result E S -> S -> Prop) s :
  Q (Ok s) s -> wp get_state Q s.
Proof. done. Qed.

Lemma wp_modify (f : S -> S) (Q : result E unit -> S -> Prop) s :
  Q (Ok tt) (f s) -> wp (modify f) Q s.
Proof. done. Qed.

Lemma wp_lift {A} (r : result E A) (Q : result E A -> S -> Prop) s :
  Q r s -> wp (lift r) Q s.
Proof. done. Qed.

Lemma wp_require (b : bool) (e : E) (Q : result E unit -> S -> Prop) s :
  (b = true -> Q (Ok tt) s) -> (b = false -> Q (Err e) s) ->
  wp (require b e) Q s.
Proof. unfold wp, require. destruct b; auto. Qed.

Lemma wp_bind {A B} (m : SE S E A) (f : A -> SE S E B)
    (Q : result E B -> S -> Prop) s :
  wp m (fun r s' => match r with Ok a => wp (f a) Q s' | Err e => Q (Err e) s' end) s ->
  wp (mbind f m) Q s.
Proof.
  unfold wp, mbind, SE_bind. destruct (m s) as [[a|e] s']; auto.
Qed.

Lemma wp_consequence {A} (m : SE S E A) (Q Q' : result E A -> S -> Prop) s :
  wp m Q s -> (forall r s', Q r s' -> Q' r s') -> wp m Q' s.
Proof. unfold wp; auto. Qed.

Lemma wp_elim {A} (m : SE S E A) (Q : result E A -> S -> Prop) s r s' :
  wp m Q s -> m s = (r, s') -> Q r s'.
Proof. unfold wp. intros H Heq. by rewrite Heq in H. Qed.

(** What a successful run establishes, by symbolic execution. *)
Lemma wp_Ok_elim {A} (m : SE S E A) (a : A) (P : S -> Prop) s s' :
  m s = (Ok a, s') -> wp m (fun r s' => r = Ok a -> P s') s -> P s'.
Proof. unfold wp. intros -> Hwp. by apply Hwp. Qed.

(** A run given its outcome. *)
Lemma run_result {A} (m : SE S E A) s a : (m s).1 = Ok a -> m s = (Ok a, (m s).2).
Proof. intros <-. apply surjective_pairing. Qed.
End wp_rules.

(** One step of symbolic execution of an [SE] program. *)
Ltac wp_step :=
  match goal with
  | |- wp (mbind _ _) _ _ => apply wp_bind
  | |- wp (mret _) _ _ => apply wp_ret
  | |- wp (throw _) _ _ => apply wp_throw
  | |- wp get_state _ _ => apply wp_get
  | |- wp (modify _) _ _ => apply wp_modify
  | |- wp (lift _) _ _ => apply wp_lift
  | |- wp (require _ _) _ _ => apply wp_require; intros ?
  | |- wp (match ?x with _ => _ end) _ _ => destruct x eqn:?
  | |- match ?x with Ok _ => _ | Err _ => _ end => destruct x eqn:?
  end; simpl.

Ltac wp_run := repeat wp_step.

(** ** Machine integers

    Unsigned machine integers are [Z] values in range; the operators wrap as
    the release profile's do.  [usize] is 64 bits wide. *)

Open Scope Z_scope.

Definition u64_max : Z := 2 ^ 64 - 1.
Definition u16_max : Z := 65535.
Definition u64_wrap (x : Z) : Z := x mod 2 ^ 64.
Definition u64_add (x y : Z) : Z := u64_wrap (x + y).
Definition u64_sub (x y : Z) : Z := u64_wrap (x - y).
Definition u64_mul (x y : Z) : Z := u64_wrap (x * y).
Definition u64_saturating_sub (x y : Z) : Z := Z.max 0 (x - y).
Definition u16_saturating_sub (x y : Z) : Z := Z.max 0 (x - y).
Definition u64_as_u16 (x : Z) : Z := x mod 2 ^ 16.
Definition is_u64 (x : Z) : Prop := 0 <= x < 2 ^ 64.
Definition is_u16 (x : Z) : Prop := 0 <= x < 2 ^ 16.

Lemma u64_wrap_small x : is_u64 x -> u64_wrap x = x.
Proof. unfold is_u64, u64_wrap. intros. by apply Z.mod_small. Qed.

Lemma u64_wrap_range x : is_u64 (u64_wrap x).
Proof. unfold is_u64, u64_wrap. apply Z.mod_pos_bound. lia. Qed.

Lemma u64_add_small x y : 0 <= x + y < 2 ^ 64 -> u64_add x y = x + y.
Proof. intros. by apply u64_wrap_small. Qed.

Lemma u64_sub_small x y : 0 <= x - y < 2 ^ 64 -> u64_sub x y = x - y.
Proof. intros. by apply u64_wrap_small. Qed.

Lemma u64_mul_small x y : 0 <= x * y < 2 ^ 64 -> u64_mul x y = x * y.
Proof. intros. by apply u64_wrap_small. Qed.

(** [sum] over [u64] values: a left fold of wrapping additions. *)
Definition u64_sum (l : list Z) : Z := fold_left u64_add l 0.

Create HintDb platform.
Create Rewrite HintDb platform.
#[export] Hint Resolve u64_wrap_range : platform.
#[export] Hint Rewrite u64_add_small u64_sub_small u64_mul_small using lia : platform.

(** ** Hash maps and their iteration order

    A [HashMap] is a [gmap]; what the standard library leaves open is the
    order in which it is iterated.  [HashOrder K] is that order, as an
    arbitrary enumeration of the key set; every result that depends on it
    takes it as an argument, and theorems hold for all of them. *)

Class HashOrder (K : Type) `{Countable K} : Type := {
  key_order : gset K -> list K;
  key_order_perm : forall s, key_order s ≡ₚ elements s
}.

#[global] Instance elements_order K `{Countable K} : HashOrder K | 100 :=
  {| key_order := elements; key_order_perm := fun s => reflexivity _ |}.

Definition reverse_order K `{Countable K} : HashOrder K :=
  {| key_order := fun s => reverse (elements s);
     key_order_perm := fun s => reverse_Permutation (elements s) |}.

Section hash_map_iteration.
Context {K : Type} `{Countable K} {HO : HashOrder K} {V : Type}.
Implicit Types m : gmap K V.

(** [iter], [keys] and [values] of a map. *)
Definition hm_iter m : list (K * V) :=
  omap (fun k => (fun v => (k, v)) <$> m !! k) (key_order (dom m)).
Definition hm_keys m : list K := key_order (dom m).
Definition hm_values m : list V := (hm_iter m).*2.

Lemma hm_keys_NoDup m : NoDup (hm_keys m).
Proof. unfold hm_keys. rewrite key_order_perm. apply NoDup_elements. Qed.

Lemma elem_of_hm_keys m k : k ∈ hm_keys m <-> is_Some (m !! k).
Proof.
  unfold hm_keys. rewrite key_order_perm, elem_of_elements. apply elem_of_dom.
Qed.

Lemma elem_of_hm_iter m k v : (k, v) ∈ hm_iter m <-> m !! k = Some v.
Proof.
  unfold hm_iter. rewrite list_elem_of_omap. split.
  - intros (k' & Hk' & Heq). destruct (m !! k') eqn:Hl; simplify_eq/=. done.
  - intros Hl. exists k. rewrite Hl. split; [|done].
    apply elem_of_hm_keys. eauto.
Qed.

Lemma fst_hm_iter m : (hm_iter m).*1 = hm_keys m.
Proof.
  unfold hm_iter, hm_keys.
  assert (Hall : Forall (fun k => is_Some (m !! k)) (key_order (dom m))).
  { apply list.Forall_forall. intros k Hk. by apply elem_of_hm_keys. }
  induction Hall as [|k l [v Hv] _ IH]; simpl; [done|].
  rewrite Hv. csimpl. by f_equal.
Qed.

Lemma hm_iter_NoDup m : NoDup (hm_iter m).
Proof. apply (NoDup_fmap_1 fst). rewrite fst_hm_iter. apply hm_keys_NoDup. Qed.

Lemma hm_iter_perm m : hm_iter m ≡ₚ map_to_list m.
Proof.
  apply NoDup_Permutation; [apply hm_iter_NoDup | apply NoDup_map_to_list |].
  intros [k v]. by rewrite elem_of_hm_iter, elem_of_map_to_list.
Qed.

Lemma length_hm_iter m : length (hm_iter m) = size m.
Proof. by rewrite hm_iter_perm, length_map_to_list. Qed.

Lemma length_hm_values m : length (hm_values m) = size m.
Proof. unfold hm_values. by rewrite length_fmap, length_hm_iter. Qed.

Lemma length_hm_keys m : length (hm_keys m) = size m.
Proof. by rewrite <- fst_hm_iter, length_fmap, length_hm_iter. Qed.

Lemma elem_of_hm_values m v : v ∈ hm_values m <-> exists k, m !! k = Some v.
Proof.
  unfold hm_values. rewrite list_elem_of_fmap. split.
  - intros ([k v'] & -> & Hin). exists k. by apply elem_of_hm_iter.
  - intros [k Hk]. exists (k, v). split; [done|]. by apply elem_of_hm_iter.
Qed.
End hash_map_iteration.

Lemma hm_iter_fmap {K} `{Countable K} {HO : HashOrder K} {A B} (f : A -> B) (m : gmap K A) :
  hm_iter (f <$> m) = prod_map id f <$> hm_iter m.
Proof.
  unfold hm_iter. rewrite dom_fmap_L.
  induction (key_order (dom m)) as [|k l IH]; [done|]. csimpl.
  rewrite lookup_fmap. destruct (m !! k); csimpl; [by f_equal|done].
Qed.

Lemma hm_values_fmap {K} `{Countable K} {HO : HashOrder K} {A B} (f : A -> B) (m : gmap K A) :
  hm_values (f <$> m) = f <$> hm_values m.
Proof.
  unfold hm_values. rewrite hm_iter_fmap, <- !list_fmap_compose. done.
Qed.

(** ** Lists and sets *)

(** A filter does not see a map that leaves kept elements alone and keeps the
    dropped ones dropped. *)
Lemma filter_fmap_same {A} (P : A -> Prop) `{forall x, Decision (P x)} (f : A -> A) (l : list A) :
  (forall x, P x -> f x = x) -> (forall x, ~ P x -> ~ P (f x)) ->
  filter P (f <$> l) = filter P l.
Proof.
  intros Hkeep Hdrop. induction l as [|x l IH]; csimpl; [done|].
  rewrite !filter_cons. destruct (decide (P x)) as [Hx|Hx].
  - rewrite (Hkeep x Hx). case_decide; [by f_equal|done].
  - case_decide as Hfx; [by apply Hdrop in Hfx|done].
Qed.

(** Two subsets of a set of [n] elements overlap in what their sizes exceed
    [n] by. *)
Lemma size_intersection_ge {A} `{Countable A} (X Y U : gset A) :
  X ⊆ U -> Y ⊆ U -> (size X + size Y <= size (X ∩ Y) + size U)%nat.
Proof.
  intros HX HY.
  assert (Hu : (size (X ∪ Y) <= size U)%nat) by (apply subseteq_size; set_solver).
  assert (Hd : X ∪ Y = X ∪ (Y ∖ (X ∩ Y))).
  { apply set_eq. intros x. destruct (decide (x ∈ X)); set_solver. }
  rewrite Hd, size_union in Hu by set_solver.
  assert (Hs : (size (Y ∖ (X ∩ Y)) + size (X ∩ Y) = size Y)%nat).
  { rewrite <- size_union by set_solver. f_equal. apply set_eq. intros x.
    destruct (decide (x ∈ X)); set_solver. }
  lia.
Qed.

Lemma map_size_insert_le {K} `{Countable K} {V} (m : gmap K V) k v :
  (size (<[k := v]> m) <= S (size m))%nat.
Proof. rewrite map_size_insert. destruct (m !! k); simpl; lia. Qed.

Lemma map_size_delete_le {K} `{Countable K} {V} (m : gmap K V) k :
  (size (delete k m) <= size m)%nat.
Proof. rewrite map_size_delete. destruct (m !! k); simpl; [apply Nat.le_pred_l|done]. Qed.

(** A list up to the first element that a filter keeps. *)
Lemma filter_cons_split {A} (P : A -> Prop) `{forall x, Decision (P x)} (l : list A) x xs :
  filter P l = x :: xs ->
  exists pre post, l = pre ++ x :: post /\ Forall (fun y => ~ P y) pre /\ P x /\
    filter P post = xs.
Proof.
  induction l as [|y l IH]; [done|]. rewrite filter_cons. case_decide as Hy; intros Heq.
  - simplify_eq. by exists [], l.
  - destruct (IH Heq) as (pre & post & -> & ? & ? & ?).
    exists (y :: pre), post. split; [done|]. split; [by constructor|done].
Qed.

Lemma filter_all {A} (P : A -> Prop) `{forall x, Decision (P x)} (l : list A) :
  Forall P l -> filter P l = l.
Proof. induction 1 as [|y l Hy _ IH]; [done|]. by rewrite filter_cons, decide_True, IH. Qed.

Lemma filter_none {A} (P : A -> Prop) `{forall x, Decision (P x)} (l : list A) :
  Forall (fun y => ~ P y) l -> filter P l = [].
Proof. induction 1 as [|y l Hy _ IH]; [done|]. by rewrite filter_cons, decide_False. Qed.

Lemma filter_nil_none {A} (P : A -> Prop) `{forall x, Decision (P x)} (l : list A) :
  filter P l = [] -> Forall (fun y => ~ P y) l.
Proof.
  intros Hnil. apply list.Forall_forall. intros y Hy HP.
  assert (Hin : y ∈ filter P l) by (by apply list_elem_of_filter).
  rewrite Hnil in Hin. by apply not_elem_of_nil in Hin.
Qed.

(** [slice::sort_by]: the stable sort, as an insertion sort. *)
Section stable_sort.
Context {A : Type} (R : A -> A -> Prop) `{!RelDecision R}.

Fixpoint insert_sorted (x : A) (l : list A) : list A :=
  match l with
  | [] => [x]
  | y :: l' => if decide (R x y) then x :: l else y :: insert_sorted x l'
  end.

Definition stable_sort (l : list A) : list A := foldr insert_sorted [] l.

Lemma insert_sorted_perm x l : insert_sorted x l ≡ₚ x :: l.
Proof.
  induction l as [|y l IH]; simpl; [done|]. case_decide; [done|].
  rewrite IH. constructor.
Qed.

Lemma stable_sort_perm l : stable_sort l ≡ₚ l.
Proof.
  induction l as [|x l IH]; simpl; [done|]. by rewrite insert_sorted_perm, IH.
Qed.

(** Sorting a list that is in order does nothing. *)
Lemma stable_sort_sorted l : StronglySorted R l -> stable_sort l = l.
Proof.
  induction 1 as [|x l _ IH Hx]; simpl; [done|]. rewrite IH.
  destruct Hx as [|y l Hxy]; simpl; [done|]. by rewrite decide_True.
Qed.

(** The result is in order. *)
Lemma StronglySorted_stable_sort `{!Total R} `{!Transitive R} l : StronglySorted R (stable_sort l).
Proof.
  induction l as [|x l IH]; simpl; [constructor|]. induction IH as [|y l' Hs IH' Hall]; simpl.
  - repeat constructor.
  - case_decide as Hxy.
    + constructor; [by constructor|]. constructor; [done|].
      eapply List.Forall_impl; [|exact Hall]. intros z Hz. by transitivity y.
    + constructor; [done|]. rewrite insert_sorted_perm. constructor; [|done].
      by destruct (total R x y).
Qed.
End stable_sort.

(** ** Ordered maps

    A [BTreeMap] with integer keys is a [gmap] iterated in the order of its
    keys. *)

Definition number_le {V} (x y : Z * V) : Prop := x.1 <= y.1.
#[global] Instance number_le_dec {V} : RelDecision (@number_le V) := fun x y => Z_le_dec x.1 y.1.
#[global] Instance number_le_total {V} : Total (@number_le V).
Proof. intros x y. unfold number_le. lia. Qed.
#[global] Instance number_le_trans {V} : Transitive (@number_le V).
Proof. intros x y z. unfold number_le. lia. Qed.

Definition number_iter {V} (m : gmap Z V) : list (Z * V) := stable_sort number_le (map_to_list m).

Lemma number_iter_perm {V} (m : gmap Z V) : number_iter m ≡ₚ map_to_list m.
Proof. apply stable_sort_perm. Qed.

Lemma number_iter_NoDup {V} (m : gmap Z V) : NoDup (number_iter m).*1.
Proof. rewrite number_iter_perm. apply NoDup_fst_map_to_list. Qed.

Lemma number_iter_sorted {V} (m : gmap Z V) : StronglySorted Z.lt (number_iter m).*1.
Proof.
  pose proof (StronglySorted_stable_sort number_le (map_to_list m)) as Hs.
  pose proof (number_iter_NoDup m) as Hnd. fold (number_iter m) in Hs.
  induction Hs as [|x l Hs IH Hall]; [constructor|]. cbn [fmap list_fmap] in *.
  apply NoDup_cons in Hnd as [Hx Hnd]. constructor; [by apply IH|].
  apply list.Forall_forall. intros k Hk.
  assert (x.1 <> k) by congruence. apply list_elem_of_fmap in Hk as (y & -> & Hy).
  eapply list.Forall_forall in Hall; [|exact Hy]. unfold number_le in Hall. lia.
Qed.

Lemma elem_of_number_iter {V} (m : gmap Z V) k v : (k, v) ∈ number_iter m <-> m !! k = Some v.
Proof. rewrite number_iter_perm. apply elem_of_map_to_list. Qed.

(** ** Evaluation

    Closes a decidable goal about closed terms by running its decision
    procedure. *)
Ltac by_compute :=
  match goal with
  | |- ?P => refine (bool_decide_eq_true_1 P _); vm_compute; reflexivity
  end.
