(* ===== verification/Float64.v ===== *)
(** * IEEE-754 double precision, as Rust's [f64] uses it

    [f64] is the Standard Library's executable [spec_float] at precision 53
    and exponent bound 1024, with round-to-nearest-even.  This file adds the
    operations of the Rust core library the sources call: casts from and to
    integers (saturating, NaN to zero), [round] (half away from zero), [ceil],
    [clamp], [max], [abs] and iterator sums. *)

From Stdlib Require Import SpecFloat.
From S2P Require Import Prelude.

Abbreviation f64 := spec_float (only parsing).

#[global] Instance f64_eq_dec : EqDecision f64.
Proof. solve_decision. Defined.

Definition f64_zero : f64 := S754_zero false.
Definition f64_neg_zero : f64 := S754_zero true.

Definition f64_add : f64 -> f64 -> f64 := SFadd 53 1024.
Definition f64_sub : f64 -> f64 -> f64 := SFsub 53 1024.
Definition f64_mul : f64 -> f64 -> f64 := SFmul 53 1024.
Definition f64_div : f64 -> f64 -> f64 := SFdiv 53 1024.
Definition f64_abs : f64 -> f64 := SFabs.

(** [a < b], [a <= b] and [a == b]: all false when an operand is NaN. *)
Definition f64_ltb : f64 -> f64 -> bool := SFltb.
Definition f64_leb : f64 -> f64 -> bool := SFleb.
Definition f64_eqb : f64 -> f64 -> bool := SFeqb.

(** [n as f64] for an integer [n]: the nearest double. *)
Definition f64_of_Z (n : Z) : f64 := binary_normalize 53 1024 n 0 false.

Definition f64_one : f64 := f64_of_Z 1.

(** A decimal literal [n / d]: the correctly rounded quotient. *)
Definition f64_lit (n d : Z) : f64 := f64_div (f64_of_Z n) (f64_of_Z d).

(** The integer part of the magnitude of a finite number. *)
Definition trunc_magnitude (m : positive) (e : Z) : Z :=
  if 0 <=? e then Zpos m * 2 ^ e else Zpos m / 2 ^ (- e).

(** [x as uN] with [max] the largest value of [uN]: truncation, saturating at
    both ends, NaN to zero. *)
Definition f64_as_uint (max : Z) (x : f64) : Z :=
  match x with
  | S754_nan | S754_zero _ => 0
  | S754_infinity s => if s then 0 else max
  | S754_finite s m e => if s then 0 else Z.min (trunc_magnitude m e) max
  end.

Definition f64_as_u16 : f64 -> Z := f64_as_uint u16_max.
Definition f64_as_u64 : f64 -> Z := f64_as_uint u64_max.

(** [x.round()]: to the nearest integer, half way cases away from zero. *)
Definition f64_round (x : f64) : f64 :=
  match x with
  | S754_finite s m e =>
      if 0 <=? e then x
      else binary_normalize 53 1024
             (cond_Zopp s ((Zpos m + 2 ^ (- e - 1)) / 2 ^ (- e))) 0 s
  | _ => x
  end.

(** [x.ceil()]: the smallest integer not below [x]. *)
Definition f64_ceil (x : f64) : f64 :=
  match x with
  | S754_finite s m e =>
      if 0 <=? e then x
      else binary_normalize 53 1024
             (- ((cond_Zopp (negb s) (Zpos m)) / 2 ^ (- e))) 0 s
  | _ => x
  end.

(** [x.clamp(lo, hi)]: a NaN stays a NaN. *)
Definition f64_clamp (lo hi x : f64) : f64 :=
  let x := if f64_ltb x lo then lo else x in
  if f64_ltb hi x then hi else x.

(** [f64::max]: the other operand when one is NaN. *)
Definition f64_max (a b : f64) : f64 :=
  match a, b with
  | S754_nan, _ => b
  | _, S754_nan => a
  | _, _ => if f64_ltb a b then b else a
  end.

(** [iter().sum::<f64>()]: a left fold from [-0.0]. *)
Definition f64_sum (l : list f64) : f64 := fold_left f64_add l f64_neg_zero.

(** ** Facts about the casts and the comparisons *)

Lemma trunc_magnitude_nonneg m e : 0 <= trunc_magnitude m e.
Proof.
  unfold trunc_magnitude. case_match.
  - apply Z.mul_nonneg_nonneg; [lia|]. apply Z.pow_nonneg. lia.
  - apply Z.div_pos; [lia|]. apply Z.pow_pos_nonneg; lia.
Qed.

Lemma f64_as_uint_range max x : 0 <= max -> 0 <= f64_as_uint max x <= max.
Proof.
  intros Hmax. unfold f64_as_uint.
  destruct x as [s|s| |s m e]; try lia; destruct s; try lia.
  pose proof (trunc_magnitude_nonneg m e). lia.
Qed.

Lemma f64_as_u16_range x : is_u16 (f64_as_u16 x).
Proof.
  unfold is_u16, f64_as_u16. pose proof (f64_as_uint_range u16_max x).
  unfold u16_max in *. lia.
Qed.

Lemma f64_as_u64_range x : is_u64 (f64_as_u64 x).
Proof.
  unfold is_u64, f64_as_u64. pose proof (f64_as_uint_range u64_max x).
  unfold u64_max in *. lia.
Qed.

#[export] Hint Resolve f64_as_u16_range f64_as_u64_range : platform.

(** Half of a small count, rounded up, in floating point. *)
Lemma half_rounded_up n :
  (n <= 1024)%nat ->
  f64_as_u64 (f64_ceil (f64_mul (f64_of_Z (Z.of_nat n)) (f64_lit 1 2))) =
  Z.of_nat (Nat.div2 (S n)).
Proof.
  intros Hn.
  assert (Hall : Forall (fun n => f64_as_u64 (f64_ceil (f64_mul (f64_of_Z (Z.of_nat n))
      (f64_lit 1 2))) = Z.of_nat (Nat.div2 (S n))) (seq 0 1025)) by by_compute.
  rewrite list.Forall_forall in Hall. apply Hall, elem_of_seq. lia.
Qed.

(** [x as i64]: truncation, saturating at both ends, NaN to zero. *)
Definition f64_as_i64 (x : f64) : Z :=
  match x with
  | S754_nan | S754_zero _ => 0
  | S754_infinity s => if s then - 2 ^ 63 else 2 ^ 63 - 1
  | S754_finite s m e =>
      if s then Z.max (- trunc_magnitude m e) (- 2 ^ 63)
      else Z.min (trunc_magnitude m e) (2 ^ 63 - 1)
  end.

(** ** [f32]

    Single precision: the comparisons are those of [f64]. *)
Abbreviation f32 := spec_float (only parsing).
Definition f32_of_Z (n : Z) : f32 := binary_normalize 24 128 n 0 false.
Definition f32_div : f32 -> f32 -> f32 := SFdiv 24 128.
Definition f32_mul : f32 -> f32 -> f32 := SFmul 24 128.
Definition f32_ltb : f32 -> f32 -> bool := SFltb.
