(* ===== verification/Crypto.v ===== *)
(** * Keys, signatures and hashing

    Models [crates/core/src/types.rs] (hotkeys), [crates/core/src/crypto.rs]
    and [crates/core/src/error.rs].  The third-party primitives (sr25519 of
    sp_core, SHA-256, bincode, hex) are the class [External]; what the code
    relies on is the class [ExternalLaws]. *)

From Stdlib Require Import SpecFloat.
From S2P Require Import Prelude Float64.

(** Byte strings: lists of values in [0, 255]. *)
Abbreviation bytes := (list Z).

(** ** Hotkeys *)

Record Hotkey : Type := mk_Hotkey { hk_bytes : bytes }.

#[global] Instance Hotkey_eq_dec : EqDecision Hotkey.
Proof. solve_decision. Defined.

#[global] Instance Hotkey_countable : Countable Hotkey.
Proof.
  refine (inj_countable' hk_bytes mk_Hotkey _). by intros [].
Defined.

Definition Hotkey_from_bytes (b : bytes) : option Hotkey :=
  if (length b =? 32)%nat then Some (mk_Hotkey b) else None.

(** [[u8; 32]]'s [Ord]: lexicographic. *)
Fixpoint bytes_compare (a b : bytes) : comparison :=
  match a, b with
  | [], [] => Eq
  | [], _ :: _ => Lt
  | _ :: _, [] => Gt
  | x :: a', y :: b' =>
      match Z.compare x y with Eq => bytes_compare a' b' | c => c end
  end.

Lemma bytes_compare_eq a b : bytes_compare a b = Eq <-> a = b.
Proof.
  revert b. induction a as [|x a IH]; intros [|y b]; simpl; try done.
  destruct (Z.compare_spec x y) as [->|Hlt|Hgt].
  - rewrite IH. split; [by intros ->| by intros [= ->]].
  - split; [done|]. intros [= -> ->]. lia.
  - split; [done|]. intros [= -> ->]. lia.
Qed.

Lemma bytes_compare_antisym a b : bytes_compare b a = CompOpp (bytes_compare a b).
Proof.
  revert b. induction a as [|x a IH]; intros [|y b]; simpl; try done.
  rewrite (Z.compare_antisym x y). destruct (Z.compare x y); simpl; auto.
Qed.

Lemma bytes_compare_lt_trans a b c :
  bytes_compare a b = Lt -> bytes_compare b c = Lt -> bytes_compare a c = Lt.
Proof.
  revert b c. induction a as [|x a IH]; intros [|y b] [|z c]; simpl; try done.
  destruct (Z.compare_spec x y), (Z.compare_spec y z), (Z.compare_spec x z);
    intros; subst; try done; try lia; eauto.
Qed.

(** ** Serialised values

    The value tree that serde's derive hands to bincode: positional fields,
    since bincode writes no field names. *)

Inductive serde : Type :=
| SU64 (n : Z)
| SU16 (n : Z)
| SF64 (x : f64)
| SStr (s : string)
| SArray32 (b : bytes)
| SNone
| SSome (v : serde)
| SSeq (l : list serde)
| STuple (l : list serde)
| SStruct (l : list serde).

Definition SOption (o : option serde) : serde :=
  match o with Some v => SSome v | None => SNone end.

(** ** Third-party primitives

    Signing with sr25519 is randomised: [sr25519_sign] is the signature one run
    of the signer gives.  Nothing is assumed of it but its length and that it
    verifies. *)

Class External : Type := {
  Pair : Type;
  sr25519_public : Pair -> bytes;
  sr25519_sign : Pair -> bytes -> bytes;
  sr25519_verify : bytes -> bytes -> bytes -> bool;
  sha256 : bytes -> bytes;
  bincode_serialize : serde -> result string bytes;
  hex_encode : bytes -> string
}.

(** Documented behaviour of the primitives: the sizes of keys, signatures and
    digests, and that a key pair's own signatures verify. *)
Class ExternalLaws `{External} : Prop := {
  sr25519_public_length : forall p, length (sr25519_public p) = 32%nat;
  sr25519_sign_length : forall p m, length (sr25519_sign p m) = 64%nat;
  sr25519_sign_verify : forall p m,
    sr25519_verify (sr25519_sign p m) m (sr25519_public p) = true;
  sha256_length : forall b, length (sha256 b) = 32%nat
}.

(** ** Errors of the core crate *)

Inductive MiniChainError : Type :=
| Crypto (msg : string)
| Serialization (msg : string)
| Network (msg : string)
| Consensus (msg : string)
| Wasm (msg : string)
| Storage (msg : string)
| InvalidSignatureError
| Unauthorized (msg : string)
| NotFound (msg : string)
| InvalidState (msg : string)
| Timeout (msg : string)
| Internal (msg : string)
| RateLimited (msg : string)
| TypeMismatch (msg : string).

#[global] Instance MiniChainError_eq_dec : EqDecision MiniChainError.
Proof. solve_decision. Defined.

(** [Display] of an error, from its [#[error]] attribute. *)
Definition MiniChainError_to_string (e : MiniChainError) : string :=
  match e with
  | Crypto m => "Cryptographic error: " +:+ m
  | Serialization m => "Serialization error: " +:+ m
  | Network m => "Network error: " +:+ m
  | Consensus m => "Consensus error: " +:+ m
  | Wasm m => "WASM runtime error: " +:+ m
  | Storage m => "Storage error: " +:+ m
  | InvalidSignatureError => "Invalid signature"
  | Unauthorized m => "Unauthorized: " +:+ m
  | NotFound m => "Not found: " +:+ m
  | InvalidState m => "Invalid state: " +:+ m
  | Timeout m => "Timeout: " +:+ m
  | Internal m => "Internal error: " +:+ m
  | RateLimited m => "Rate limited: " +:+ m
  | TypeMismatch m => "Type mismatch: " +:+ m
  end.

Section crypto.
Context `{External}.

Definition Hotkey_to_hex (h : Hotkey) : string := hex_encode (hk_bytes h).

(** [Debug] of a hotkey. *)
Definition Hotkey_debug (h : Hotkey) : string :=
  "Hotkey(" +:+ String.substring 0 8 (Hotkey_to_hex h) +:+ "...)".

(** ** Key pairs and signed messages *)

Record Keypair : Type := mk_Keypair {
  kp_pair : Pair;
  kp_mini_seed : option bytes
}.

Definition Keypair_hotkey (k : Keypair) : Hotkey :=
  mk_Hotkey (sr25519_public (kp_pair k)).

Record SignedMessage : Type := mk_SignedMessage {
  sm_message : bytes;
  sm_signature : bytes;
  sm_signer : Hotkey
}.

Definition Keypair_sign (k : Keypair) (message : bytes) : SignedMessage :=
  {| sm_message := message;
     sm_signature := sr25519_sign (kp_pair k) message;
     sm_signer := Keypair_hotkey k |}.

Definition Keypair_sign_bytes (k : Keypair) (data : bytes) : result MiniChainError bytes :=
  Ok (sr25519_sign (kp_pair k) data).

Definition SignedMessage_verify (s : SignedMessage) : result MiniChainError bool :=
  if negb (length (sm_signature s) =? 64)%nat then
    Err (Crypto "Invalid signature length (expected 64 bytes)")
  else
    Ok (sr25519_verify (sm_signature s) (sm_message s) (hk_bytes (sm_signer s))).

(** ** Hashing *)

Definition hash (data : bytes) : bytes := sha256 data.
Definition hash_hex (data : bytes) : string := hex_encode (hash data).

Definition hash_data (v : serde) : result MiniChainError bytes :=
  match bincode_serialize v with
  | Err e => Err (Serialization e)
  | Ok b => Ok (hash b)
  end.

(** A signature of [h] over [m] that [SignedMessage::verify] accepts. *)
Definition sig_valid (h : Hotkey) (m sig : bytes) : Prop :=
  SignedMessage_verify (mk_SignedMessage m sig h) = Ok true.

Lemma sig_valid_iff h m sig :
  sig_valid h m sig <->
  length sig = 64%nat /\ sr25519_verify sig m (hk_bytes h) = true.
Proof.
  unfold sig_valid, SignedMessage_verify. simpl.
  destruct (Nat.eqb_spec (length sig) 64) as [->|Hne]; simpl.
  - split; [intros [= ->]; done | by intros [_ ->]].
  - split; [done | by intros [? _]].
Qed.

Lemma sign_bytes_valid `{!ExternalLaws} k m :
  sig_valid (Keypair_hotkey k) m (sr25519_sign (kp_pair k) m).
Proof.
  apply sig_valid_iff. split; [apply sr25519_sign_length|]. apply sr25519_sign_verify.
Qed.
End crypto.

#[export] Hint Resolve sign_bytes_valid : platform.

(** ** A concrete instance

    Toy primitives that satisfy the laws, so that statements with [External]
    in their context can be evaluated: the public key of pair [p] repeats its
    number, a signature is the signer's number followed by a check sum, the
    digest is a polynomial check sum and serialisation writes the numbers of
    the tree.  They have none of the security of the real ones. *)

Module Toy.
Definition toy_fit (n : nat) (l : bytes) : bytes := resize n 0 l.

Fixpoint toy_serialize (v : serde) : bytes :=
  match v with
  | SU64 n | SU16 n => [1; n]
  | SF64 (S754_finite s m e) => [2; if s then 1 else 0; Zpos m; e]
  | SF64 _ => [3]
  | SStr s => 4 :: map (fun a => Z.of_nat (Ascii.nat_of_ascii a)) (String.list_ascii_of_string s)
  | SArray32 b => 5 :: b
  | SNone => [6]
  | SSome v => 7 :: toy_serialize v
  | SSeq l => 8 :: Z.of_nat (length l) :: concat (map toy_serialize l)
  | STuple l => concat (map toy_serialize l)
  | SStruct l => concat (map toy_serialize l)
  end.

Definition toy_sum (b : bytes) : Z := fold_left (fun a x => (a * 257 + x + 1) mod (2 ^ 61 - 1)) b 7.

Definition toy_hash (b : bytes) : bytes := toy_fit 32 [toy_sum b].

Definition toy_sign (p : Z) (m : bytes) : bytes := toy_fit 64 (p :: toy_hash m).

Definition toy_key (p : Z) : bytes := replicate 32 p.

#[export] Instance toy_external : External := {|
  Pair := Z;
  sr25519_public := toy_key;
  sr25519_sign := toy_sign;
  sr25519_verify := fun sig m pub => bool_decide (sig = toy_sign (hd 0 pub) m);
  sha256 := toy_hash;
  bincode_serialize := fun v => Ok (toy_serialize v);
  hex_encode := fun b => pretty.pretty (toy_sum b)
|}.

#[export] Instance toy_external_laws : ExternalLaws.
Proof.
  split; intros.
  - apply (length_replicate 32).
  - apply length_resize.
  - by apply bool_decide_eq_true_2.
  - apply length_resize.
Qed.
End Toy.
