(* ===== verification/RustStrings.v ===== *)
(** * Strings as the Rust standard library treats them

    The string operations the sources call, on strings of bytes in which the
    case mapping and the white space are those of ASCII: identifiers, image
    references and paths of the system are ASCII.  Also decimal and FNV-style
    views of bytes. *)

From Stdlib Require Import Ascii.
From stdpp Require Import pretty.
From S2P Require Import Prelude.

Abbreviation chars := String.list_ascii_of_string (only parsing).
Abbreviation of_chars := String.string_of_list_ascii (only parsing).

Lemma of_chars_chars s : of_chars (chars s) = s.
Proof. apply String.string_of_list_ascii_of_string. Qed.

Lemma chars_of_chars l : chars (of_chars l) = l.
Proof. apply String.list_ascii_of_string_of_list_ascii. Qed.

Lemma chars_app s t : chars (s +:+ t) = chars s ++ chars t.
Proof. induction s as [|a s IH]; simpl; [done|]. by rewrite IH. Qed.

Lemma chars_inj s t : chars s = chars t -> s = t.
Proof. intros H. by rewrite <- (of_chars_chars s), H, of_chars_chars. Qed.

Lemma string_app_assoc s t u : (s +:+ t) +:+ u = s +:+ (t +:+ u).
Proof. apply chars_inj. by rewrite !chars_app, (assoc_L (++)). Qed.

Lemma string_app_nil_r s : s +:+ "" = s.
Proof. apply chars_inj. rewrite chars_app. apply app_nil_r. Qed.

(** ** Case and white space *)

Definition char_to_lower (a : ascii) : ascii :=
  let n := nat_of_ascii a in
  if (65 <=? n)%nat && (n <=? 90)%nat then ascii_of_nat (n + 32) else a.

(** [str::to_lowercase] on ASCII text: image references, account names and the
    other strings the program lowers are ASCII.  The mapping of other letters is
    not modelled; their bytes are kept. *)
Definition to_lowercase (s : string) : string := of_chars (char_to_lower <$> chars s).

Definition is_whitespace (a : ascii) : bool :=
  let n := nat_of_ascii a in ((9 <=? n)%nat && (n <=? 13)%nat) || (n =? 32)%nat.

Fixpoint drop_spaces (l : list ascii) : list ascii :=
  match l with
  | a :: l' => if is_whitespace a then drop_spaces l' else l
  | [] => []
  end.

(** [str::trim] and [str::is_empty]. *)
Definition trim (s : string) : string :=
  of_chars (reverse (drop_spaces (reverse (drop_spaces (chars s))))).
Definition is_empty (s : string) : bool := bool_decide (s = EmptyString).

(** A character class, as a test on the whole string. *)
Definition all_chars (p : ascii -> bool) (s : string) : bool := forallb p (chars s).

(** ** Searching *)

(** [s.starts_with(p)], [s.contains(p)] and [s.ends_with(p)]. *)
Definition starts_with (p s : string) : bool := String.prefix p s.
Definition ends_with (p s : string) : bool :=
  bool_decide (drop (String.length s - String.length p) (chars s) = chars p).

Fixpoint contains (p s : string) : bool :=
  starts_with p s ||
  match s with
  | EmptyString => false
  | String _ s' => contains p s'
  end.

(** [s.split(c)]: always at least one piece. *)
Fixpoint split_on (c : ascii) (l : list ascii) : list (list ascii) :=
  match l with
  | [] => [[]]
  | a :: l' =>
      match split_on c l' with
      | w :: ws => if decide (a = c) then [] :: w :: ws else (a :: w) :: ws
      | [] => [[a]]
      end
  end.
Definition split (c : ascii) (s : string) : list string := of_chars <$> split_on c (chars s).

(** [join] with a separator. *)
Fixpoint join (sep : string) (l : list string) : string :=
  match l with
  | [] => EmptyString
  | [s] => s
  | s :: l' => s +:+ sep +:+ join sep l'
  end.

(** [s.replace(a, b)] for one character. *)
Definition replace_char (a b : ascii) (s : string) : string :=
  of_chars ((fun c => if decide (c = a) then b else c) <$> chars s).

(** [to_string] of an integer. *)
Definition Z_to_string (n : Z) : string := pretty n.

(** ** Facts *)

Lemma starts_with_spec p s : starts_with p s = true <-> exists t, s = p +:+ t.
Proof.
  unfold starts_with. revert s. induction p as [|a p IH]; intros s; simpl.
  - split; [intros _; by exists s|intros _; by destruct s].
  - destruct s as [|b s]; simpl; [split; [done|by intros [t Ht]]|].
    destruct (ascii_dec a b) as [->|Hne].
    + rewrite IH. split; intros [t Ht]; exists t; [by rewrite Ht|by injection Ht].
    + split; [done|]. intros [t Ht]. by injection Ht.
Qed.

Lemma starts_with_app p s t : starts_with p s = true -> starts_with p (s +:+ t) = true.
Proof.
  rewrite !starts_with_spec. intros [u ->]. exists (u +:+ t). by rewrite string_app_assoc.
Qed.

Lemma starts_with_trans p q s :
  starts_with p q = true -> starts_with q s = true -> starts_with p s = true.
Proof.
  rewrite !starts_with_spec. intros [u ->] [v ->]. exists (u +:+ v). by rewrite string_app_assoc.
Qed.

Lemma starts_with_refl s : starts_with s s = true.
Proof. apply starts_with_spec. exists EmptyString. by rewrite string_app_nil_r. Qed.

Lemma contains_spec p s : contains p s = true <-> exists u v, s = u +:+ p +:+ v.
Proof.
  induction s as [|a s IH]; cbn [contains].
  - rewrite orb_false_r, starts_with_spec. split.
    + intros [t ->]. by exists EmptyString, t.
    + intros (u & v & Heq). destruct u; [by exists v|done].
  - rewrite orb_true_iff, starts_with_spec, IH. split.
    + intros [[t ->]|(u & v & ->)]; [by exists EmptyString, t|by exists (String a u), v].
    + intros (u & v & Heq). destruct u as [|b u]; [left; by exists v|].
      right. simpl in Heq. injection Heq as -> ->. by exists u, v.
Qed.

Lemma contains_app_l p s t : contains p s = true -> contains p (s +:+ t) = true.
Proof.
  rewrite !contains_spec. intros (u & v & ->). exists u, (v +:+ t).
  by rewrite !string_app_assoc.
Qed.

Lemma contains_app_r p s t : contains p t = true -> contains p (s +:+ t) = true.
Proof.
  rewrite !contains_spec. intros (u & v & ->). exists (s +:+ u), v.
  by rewrite !string_app_assoc.
Qed.

Lemma char_to_lower_idem a : char_to_lower (char_to_lower a) = char_to_lower a.
Proof. by destruct a as [[] [] [] [] [] [] [] []]. Qed.

Lemma to_lowercase_idem s : to_lowercase (to_lowercase s) = to_lowercase s.
Proof.
  unfold to_lowercase. rewrite chars_of_chars, <- list_fmap_compose.
  f_equal. apply list_fmap_ext. intros _ a _. apply char_to_lower_idem.
Qed.

(** A string is blank when nothing is left of it. *)
Lemma trim_empty s : is_empty (trim s) = true <-> all_chars is_whitespace s = true.
Proof.
  unfold is_empty, all_chars, trim. rewrite bool_decide_eq_true, forallb_forall.
  assert (Hdrop : forall l, drop_spaces l = [] <-> forall a, a ∈ l -> is_whitespace a = true).
  { induction l as [|a l IH]; simpl; [split; [by intros _ a Ha%not_elem_of_nil|done]|].
    destruct (is_whitespace a) eqn:Ha.
    - rewrite IH. split; [intros H b [->|]%elem_of_cons; auto|intros H b Hb; apply H; by right].
    - split; [done|]. intros H. by rewrite (H a ltac:(left)) in Ha. }
  assert (Hhead : forall l a l', drop_spaces l = a :: l' -> is_whitespace a = false).
  { induction l as [|b l IH]; intros a l' Heq; simpl in Heq; [done|].
    destruct (is_whitespace b) eqn:Hb; [by eapply IH|by simplify_eq]. }
  split.
  - intros Htrim a Ha. apply list_elem_of_In in Ha.
    apply (f_equal chars) in Htrim. rewrite chars_of_chars in Htrim. simpl in Htrim.
    apply (f_equal reverse) in Htrim. rewrite reverse_involutive, reverse_nil in Htrim.
    destruct (drop_spaces (chars s)) as [|b l'] eqn:Hd; [by apply (proj1 (Hdrop _) Hd)|].
    apply (proj1 (Hdrop _)) with (a := b) in Htrim; [|rewrite elem_of_reverse; left].
    by rewrite (Hhead _ _ _ Hd) in Htrim.
  - intros Hall. rewrite (proj2 (Hdrop (chars s))); [done|].
    intros a Ha. apply Hall. by apply list_elem_of_In.
Qed.

(** ** Numbers *)

Definition digit_value (a : ascii) : option Z :=
  let n := Z.of_nat (nat_of_ascii a) in
  if (48 <=? n) && (n <=? 57) then Some (n - 48) else None.

Fixpoint digits_value (acc : Z) (l : list ascii) : option Z :=
  match l with
  | [] => Some acc
  | a :: l' => d ← digit_value a; digits_value (10 * acc + d) l'
  end.

(** [s.parse::<uN>()] with [max] the largest value of [uN]: decimal digits
    after an optional plus sign. *)
Definition parse_uint (max : Z) (s : string) : option Z :=
  let l := chars s in
  let l := match l with a :: l' => if decide (a = "+"%char) then l' else l | [] => l end in
  match l with
  | [] => None
  | _ => n ← digits_value 0 l; if n <=? max then Some n else None
  end.
