(* ===== verification/RustBytes.v ===== *)
(** * Byte strings

    What the sources use of bytes: the bytes of a string and of an integer in
    both orders, the bit pattern of a float, UTF-8 validation, [split_once],
    and an ordered map from byte strings - the documented behaviour of a sled
    [Tree], whose iterators run in lexicographic order of the keys. *)

From Stdlib Require Import SpecFloat Ascii.
From S2P Require Import Prelude Float64 Crypto RustStrings.

(** ** Strings *)

(** [as_bytes] of a string, and a string of given bytes. *)
Definition str_bytes (s : string) : bytes :=
  (fun a => Z.of_nat (nat_of_ascii a)) <$> chars s.
Definition bytes_str (b : bytes) : string := of_chars ((fun x => ascii_of_nat (Z.to_nat x)) <$> b).

Lemma bytes_str_bytes s : bytes_str (str_bytes s) = s.
Proof.
  unfold bytes_str, str_bytes. rewrite <- list_fmap_compose. rewrite <- (of_chars_chars s) at 2. f_equal.
  rewrite <- (list_fmap_id (chars s)) at 2. apply list_fmap_ext. intros i a _. simpl.
  by rewrite Nat2Z.id, ascii_nat_embedding.
Qed.

Lemma str_bytes_inj s t : str_bytes s = str_bytes t -> s = t.
Proof. intros Heq. by rewrite <- (bytes_str_bytes s), Heq, bytes_str_bytes. Qed.

Lemma str_bytes_app s t : str_bytes (s +:+ t) = str_bytes s ++ str_bytes t.
Proof. unfold str_bytes. by rewrite chars_app, fmap_app. Qed.

Lemma str_bytes_range s : Forall (fun x => 0 <= x < 256) (str_bytes s).
Proof.
  apply list.Forall_forall. intros x Hx. apply list_elem_of_fmap in Hx as (a & -> & _).
  pose proof (nat_ascii_bounded a). lia.
Qed.

(** ** Integers *)

(** [n.to_le_bytes()] of an integer of [len] bytes. *)
Fixpoint to_le_bytes (len : nat) (n : Z) : bytes :=
  match len with
  | O => []
  | S len => n mod 256 :: to_le_bytes len (n / 256)
  end.

(** [n.to_be_bytes()] and [from_be_bytes]. *)
Fixpoint to_be_bytes (len : nat) (n : Z) : bytes :=
  match len with
  | O => []
  | S len => (n / 256 ^ Z.of_nat len) mod 256 :: to_be_bytes len n
  end.

Definition from_be_bytes (b : bytes) : Z := fold_left (fun a x => a * 256 + x) b 0.

Lemma length_to_le_bytes k n : length (to_le_bytes k n) = k.
Proof. revert n. induction k as [|k IH]; intros n; simpl; [done|]. by rewrite IH. Qed.

Lemma length_to_be_bytes k n : length (to_be_bytes k n) = k.
Proof. induction k as [|k IH]; simpl; [done|]. by rewrite IH. Qed.

Lemma from_be_bytes_acc b a :
  fold_left (fun a x => a * 256 + x) b a = a * 256 ^ Z.of_nat (length b) + from_be_bytes b.
Proof.
  unfold from_be_bytes. revert a. induction b as [|x b IH]; intros a; [simpl; lia|].
  cbn [fold_left length]. rewrite (IH (a * 256 + x)), (IH (0 * 256 + x)).
  rewrite Nat2Z.inj_succ, Z.pow_succ_r by lia. lia.
Qed.

Lemma from_to_be_bytes k n : from_be_bytes (to_be_bytes k n) = n mod 256 ^ Z.of_nat k.
Proof.
  induction k as [|k IH]; [by rewrite Z.mod_1_r|].
  cbn [to_be_bytes]. unfold from_be_bytes. cbn [fold_left].
  rewrite from_be_bytes_acc, IH, length_to_be_bytes, Nat2Z.inj_succ, Z.pow_succ_r by lia.
  rewrite (Z.mul_comm 256), Z.rem_mul_r by lia. lia.
Qed.

(** ** Lexicographic order *)

Definition bytes_le (a b : bytes) : Prop := bytes_compare a b <> Gt.
Definition bytes_lt (a b : bytes) : Prop := bytes_compare a b = Lt.

#[global] Instance bytes_le_dec : RelDecision bytes_le.
Proof. intros a b. unfold bytes_le. apply _. Defined.
#[global] Instance bytes_lt_dec : RelDecision bytes_lt.
Proof. intros a b. unfold bytes_lt. apply _. Defined.

Lemma bytes_le_lteq a b : bytes_le a b <-> bytes_lt a b \/ a = b.
Proof.
  unfold bytes_le, bytes_lt. rewrite <- bytes_compare_eq.
  destruct (bytes_compare a b); naive_solver.
Qed.

#[global] Instance bytes_lt_trans : Transitive bytes_lt.
Proof. intros a b c. apply bytes_compare_lt_trans. Qed.

Lemma bytes_lt_irrefl a : ~ bytes_lt a a.
Proof. unfold bytes_lt. by rewrite (proj2 (bytes_compare_eq a a) eq_refl). Qed.

#[global] Instance bytes_le_trans : Transitive bytes_le.
Proof.
  intros a b c. rewrite !bytes_le_lteq. intros [H1 | ->] [H2 | ->]; auto. left. by transitivity b.
Qed.

#[global] Instance bytes_le_total : Total bytes_le.
Proof.
  intros a b. unfold bytes_le. rewrite (bytes_compare_antisym a b).
  destruct (bytes_compare a b); simpl; auto; by left.
Qed.

Lemma bytes_lt_le a b : bytes_lt a b -> bytes_le a b.
Proof. intros Hlt. apply bytes_le_lteq. by left. Qed.

Lemma bytes_not_lt_le a b : ~ bytes_lt a b <-> bytes_le b a.
Proof.
  unfold bytes_lt, bytes_le. rewrite (bytes_compare_antisym a b).
  destruct (bytes_compare a b); naive_solver.
Qed.

Lemma bytes_compare_app p a b : bytes_compare (p ++ a) (p ++ b) = bytes_compare a b.
Proof. induction p as [|x p IH]; simpl; [done|]. by rewrite Z.compare_refl. Qed.

(** Strings of equal length decide the comparison before what follows them. *)
Lemma bytes_compare_prefix a b x y :
  length a = length b -> a <> b -> bytes_compare (a ++ x) (b ++ y) = bytes_compare a b.
Proof.
  revert b. induction a as [|i a IH]; intros [|j b] Hlen Hne; simplify_eq/=.
  destruct (Z.compare_spec i j) as [->|?|?]; [|done|done]. apply IH; [done|]. congruence.
Qed.

Lemma to_be_bytes_compare k a b :
  0 <= a < 256 ^ Z.of_nat k -> 0 <= b < 256 ^ Z.of_nat k ->
  bytes_compare (to_be_bytes k a) (to_be_bytes k b) = Z.compare a b.
Proof.
  intros Ha Hb.
  assert (Hgen : forall k a b, 0 <= a -> 0 <= b ->
    bytes_compare (to_be_bytes k a) (to_be_bytes k b) =
    Z.compare (a mod 256 ^ Z.of_nat k) (b mod 256 ^ Z.of_nat k)).
  { clear. intros k a b Ha Hb. induction k as [|k IH]; [by rewrite !Z.mod_1_r|].
    cbn [to_be_bytes bytes_compare]. rewrite IH, Nat2Z.inj_succ, Z.pow_succ_r by lia.
    rewrite (Z.mul_comm 256), !Z.rem_mul_r by lia.
    pose proof (Z.mod_pos_bound a (256 ^ Z.of_nat k) ltac:(lia)).
    pose proof (Z.mod_pos_bound b (256 ^ Z.of_nat k) ltac:(lia)).
    destruct (Z.compare_spec ((a / 256 ^ Z.of_nat k) mod 256) ((b / 256 ^ Z.of_nat k) mod 256))
      as [Heq|Hlt|Hlt].
    - rewrite Heq. symmetry.
      destruct (Z.compare_spec (a mod 256 ^ Z.of_nat k) (b mod 256 ^ Z.of_nat k));
        [apply Z.compare_eq_iff|apply Z.compare_lt_iff|apply Z.compare_gt_iff]; lia.
    - symmetry. apply Z.compare_lt_iff. nia.
    - symmetry. apply Z.compare_gt_iff. nia. }
  rewrite Hgen, !Z.mod_small by lia. done.
Qed.

(** ** Floats *)

(** [x.to_bits()]. *)
Definition f64_to_bits (x : f64) : Z :=
  let sign (s : bool) : Z := if s then 2 ^ 63 else 0 in
  match x with
  | S754_zero s => sign s
  | S754_infinity s => sign s + 2047 * 2 ^ 52
  | S754_nan => 2047 * 2 ^ 52 + 2 ^ 51
  | S754_finite s m e =>
      if Zpos m <? 2 ^ 52 then sign s + Zpos m
      else sign s + (e + 1075) * 2 ^ 52 + (Zpos m - 2 ^ 52)
  end.

Definition f64_to_le_bytes (x : f64) : bytes := to_le_bytes 8 (f64_to_bits x).

(** ** UTF-8 *)

Definition is_cont (lo hi b : Z) : bool := (lo <=? b) && (b <=? hi).

(** [str::from_utf8(..).is_ok()]: shortest forms of the scalar values. *)
Fixpoint utf8_valid (l : bytes) : bool :=
  match l with
  | [] => true
  | b :: l1 =>
      if is_cont 0 127 b then utf8_valid l1
      else match l1 with
      | [] => false
      | c :: l2 =>
          if is_cont 194 223 b then is_cont 128 191 c && utf8_valid l2
          else match l2 with
          | [] => false
          | d :: l3 =>
              if is_cont 224 239 b then
                is_cont (if b =? 224 then 160 else 128) (if b =? 237 then 159 else 191) c &&
                is_cont 128 191 d && utf8_valid l3
              else match l3 with
              | [] => false
              | e :: l4 =>
                  is_cont 240 244 b &&
                  is_cont (if b =? 240 then 144 else 128) (if b =? 244 then 143 else 191) c &&
                  is_cont 128 191 d && is_cont 128 191 e && utf8_valid l4
              end
          end
      end
  end.

Lemma utf8_valid_app a b : utf8_valid a = true -> utf8_valid b = true -> utf8_valid (a ++ b) = true.
Proof.
  intros Ha Hb. revert a Ha. fix IH 1. intros [|x l]; [done|]. cbn [app utf8_valid].
  destruct (is_cont 0 127 x); [apply IH|]. destruct l as [|c l]; [done|]. cbn [app].
  destruct (is_cont 194 223 x). { rewrite !andb_true_iff. intros [-> Hl]. auto. }
  destruct l as [|d l]; [done|]. cbn [app].
  destruct (is_cont 224 239 x). { rewrite !andb_true_iff. intros [[-> ->] Hl]. auto. }
  destruct l as [|e l]; [done|]. cbn [app].
  rewrite !andb_true_iff. intros [[[[-> ->] ->] ->] Hl]. auto 10.
Qed.

(** ** [String::from_utf8_lossy] *)

(** Each maximal invalid piece becomes U+FFFD. *)
Definition replacement : bytes := [239; 191; 189].

Fixpoint utf8_lossy (l : bytes) : bytes :=
  match l with
  | [] => []
  | b :: l1 =>
      if is_cont 0 127 b then b :: utf8_lossy l1
      else if is_cont 194 223 b then
        match l1 with
        | c :: l2 => if is_cont 128 191 c then b :: c :: utf8_lossy l2
                     else replacement ++ utf8_lossy l1
        | [] => replacement
        end
      else if is_cont 224 239 b then
        match l1 with
        | c :: l2 =>
            if is_cont (if b =? 224 then 160 else 128) (if b =? 237 then 159 else 191) c then
              match l2 with
              | d :: l3 => if is_cont 128 191 d then b :: c :: d :: utf8_lossy l3
                           else replacement ++ utf8_lossy l2
              | [] => replacement
              end
            else replacement ++ utf8_lossy l1
        | [] => replacement
        end
      else if is_cont 240 244 b then
        match l1 with
        | c :: l2 =>
            if is_cont (if b =? 240 then 144 else 128) (if b =? 244 then 143 else 191) c then
              match l2 with
              | d :: l3 =>
                  if is_cont 128 191 d then
                    match l3 with
                    | e :: l4 => if is_cont 128 191 e then b :: c :: d :: e :: utf8_lossy l4
                                 else replacement ++ utf8_lossy l3
                    | [] => replacement
                    end
                  else replacement ++ utf8_lossy l2
              | [] => replacement
              end
            else replacement ++ utf8_lossy l1
        | [] => replacement
        end
      else replacement ++ utf8_lossy l1
  end.

Lemma utf8_lossy_valid l : utf8_valid l = true -> utf8_lossy l = l.
Proof.
  revert l. fix IH 1. intros [|b l]; [done|]. cbn [utf8_valid utf8_lossy].
  destruct (is_cont 0 127 b). { intros Hl. f_equal. by apply IH. }
  destruct l as [|c l]; [done|].
  destruct (is_cont 194 223 b). { rewrite andb_true_iff. intros [-> Hl]. do 2 f_equal. by apply IH. }
  destruct l as [|d l]; [done|].
  destruct (is_cont 224 239 b).
  { rewrite !andb_true_iff. intros [[-> ->] Hl]. do 3 f_equal. by apply IH. }
  destruct l as [|e l]; [done|].
  rewrite !andb_true_iff. intros [[[[-> ->] ->] ->] Hl]. do 4 f_equal. by apply IH.
Qed.

(** ** Splitting *)

Fixpoint split_once (c : Z) (l : bytes) : option (bytes * bytes) :=
  match l with
  | [] => None
  | x :: l' =>
      if x =? c then Some ([], l')
      else match split_once c l' with Some (a, b) => Some (x :: a, b) | None => None end
  end.

Lemma split_once_app c a b : c ∉ a -> split_once c (a ++ c :: b) = Some (a, b).
Proof.
  induction a as [|x a IH]; intros Hc; cbn [app split_once].
  - by rewrite Z.eqb_refl.
  - apply not_elem_of_cons in Hc as [Hne Hc]. rewrite (proj2 (Z.eqb_neq x c)) by congruence.
    by rewrite IH.
Qed.

Lemma app_sep_inj (c : Z) (a a' b b' : bytes) :
  c ∉ a -> c ∉ a' -> a ++ c :: b = a' ++ c :: b' -> a = a' /\ b = b'.
Proof.
  intros Ha Ha' Heq. pose proof (split_once_app c a b Ha) as H1.
  rewrite Heq, split_once_app in H1 by done. by simplify_eq.
Qed.

(** Is [p] a prefix of [l]? *)
Definition bytes_starts_with (p l : bytes) : bool := bool_decide (take (length p) l = p).

Lemma bytes_starts_with_spec p l : bytes_starts_with p l = true <-> exists r, l = p ++ r.
Proof.
  unfold bytes_starts_with. rewrite bool_decide_eq_true. split.
  - intros Ht. exists (drop (length p) l). by rewrite <- Ht at 1; rewrite take_drop.
  - intros [r ->]. apply take_app_length.
Qed.

(** ** Sorted lists *)

(** Lists kept in order by [omap]. *)
Lemma omap_sorted {A B} (R : A -> A -> Prop) (R' : B -> B -> Prop) (f : A -> option B) (l : list A) :
  (forall x y x' y', x ∈ l -> y ∈ l -> R x y -> f x = Some x' -> f y = Some y' -> R' x' y') ->
  StronglySorted R l -> StronglySorted R' (omap f l).
Proof.
  intros HR Hs. induction Hs as [|x l Hs IH Hall]; [constructor|]. cbn [omap list_omap].
  assert (IH' : StronglySorted R' (omap f l)).
  { apply IH. intros ???? Hx Hy. apply HR; by right. }
  destruct (f x) as [x'|] eqn:Hx; [|done]. constructor; [done|].
  apply list.Forall_forall. intros y' (y & Hy & Hfy)%list_elem_of_omap.
  rewrite list.Forall_forall in Hall. eapply HR; [by left|by right|by apply Hall|done|done].
Qed.

(** Strictly sorted lists are determined by their elements. *)
Lemma sorted_same_elements {A} (R : A -> A -> Prop) `{!Transitive R} (l1 l2 : list A) :
  (forall x, ~ R x x) -> StronglySorted R l1 -> StronglySorted R l2 ->
  (forall x, x ∈ l1 <-> x ∈ l2) -> l1 = l2.
Proof.
  intros Hirr Hs1. revert l2. induction Hs1 as [|x l1 Hs1 IH Hx]; intros l2 Hs2 Hel.
  { destruct l2 as [|y l2]; [done|]. exfalso. apply (not_elem_of_nil y), Hel. left. }
  destruct Hs2 as [|y l2 Hs2 Hy]. { exfalso. apply (not_elem_of_nil x), Hel. left. }
  rewrite list.Forall_forall in Hx, Hy.
  assert (Hxy : x = y).
  { destruct (proj1 (elem_of_cons l2 x y) (proj1 (Hel x) (list_elem_of_here x l1))) as [|Hin]; [done|].
    destruct (proj1 (elem_of_cons l1 y x) (proj2 (Hel y) (list_elem_of_here y l2))) as [|Hin']; [done|].
    destruct (Hirr x). transitivity y; auto. }
  subst y. f_equal. apply IH; [done|]. intros z. specialize (Hel z). rewrite !elem_of_cons in Hel.
  split; intros Hz.
  - destruct (proj1 Hel (or_intror Hz)) as [->|]; [|done]. destruct (Hirr x). auto.
  - destruct (proj2 Hel (or_intror Hz)) as [->|]; [|done]. destruct (Hirr x). auto.
Qed.

(** ** Ordered trees *)

Abbreviation Tree V := (gmap bytes V).

Section tree.
Context {V : Type}.
Implicit Types t : gmap bytes V.

Definition key_le (x y : bytes * V) : Prop := bytes_le x.1 y.1.
Definition key_lt (x y : bytes * V) : Prop := bytes_lt x.1 y.1.
#[global] Instance key_le_dec : RelDecision key_le := fun x y => bytes_le_dec x.1 y.1.

(** [tree.iter()] and [tree.range(lo..hi)]. *)
Definition tree_iter t : list (bytes * V) := stable_sort key_le (map_to_list t).

Definition in_range (lo : bytes) (hi : option bytes) (x : bytes * V) : Prop :=
  bytes_le lo x.1 /\ match hi with Some h => bytes_lt x.1 h | None => True end.
#[global] Instance in_range_dec lo hi x : Decision (in_range lo hi x).
Proof. unfold in_range. destruct hi; apply _. Defined.

Definition tree_range (lo : bytes) (hi : option bytes) t : list (bytes * V) :=
  filter (in_range lo hi) (tree_iter t).

(** [tree.scan_prefix(prefix)]. *)
Definition tree_scan_prefix (prefix : bytes) t : list (bytes * V) :=
  filter (fun x => bytes_starts_with prefix x.1 = true) (tree_iter t).

Lemma elem_of_tree_iter t k v : (k, v) ∈ tree_iter t <-> t !! k = Some v.
Proof. unfold tree_iter. rewrite stable_sort_perm. apply elem_of_map_to_list. Qed.

Lemma elem_of_tree_range lo hi t k v :
  (k, v) ∈ tree_range lo hi t <->
  t !! k = Some v /\ bytes_le lo k /\ match hi with Some h => bytes_lt k h | None => True end.
Proof.
  unfold tree_range. rewrite list_elem_of_filter, elem_of_tree_iter. unfold in_range. simpl. tauto.
Qed.

Lemma tree_iter_NoDup t : NoDup (tree_iter t).*1.
Proof. unfold tree_iter. rewrite stable_sort_perm. apply NoDup_fst_map_to_list. Qed.

Lemma tree_iter_sorted t : StronglySorted key_lt (tree_iter t).
Proof.
  assert (Hs : StronglySorted key_le (tree_iter t)).
  { apply (StronglySorted_stable_sort key_le (Total0 := fun x y => bytes_le_total x.1 y.1)
      (Transitive0 := fun x y z => bytes_le_trans x.1 y.1 z.1)). }
  pose proof (tree_iter_NoDup t) as Hnd. revert Hnd.
  induction Hs as [|x l Hs IH Hall]; [constructor|]. cbn [fmap list_fmap].
  intros [Hx Hnd]%NoDup_cons. constructor; [auto|].
  apply list.Forall_forall. intros y Hy. rewrite list.Forall_forall in Hall.
  specialize (Hall y Hy). unfold key_le in Hall. apply bytes_le_lteq in Hall as [?|Heq]; [done|].
  destruct Hx. rewrite Heq. apply list_elem_of_fmap. eauto.
Qed.

(** Some of the keys of a tree. *)
Lemma omap_keys_NoDup t (f : bytes * V -> option bytes) :
  (forall x k, f x = Some k -> k = x.1) -> NoDup (omap f (tree_iter t)).
Proof.
  intros Hf. pose proof (tree_iter_NoDup t) as Hnd.
  induction (tree_iter t) as [|x l IH]; [constructor|]. cbn [fmap list_fmap] in Hnd.
  apply NoDup_cons in Hnd as [Hk Hnd]. specialize (IH Hnd). cbn [omap list_omap].
  destruct (f x) as [k|] eqn:Hx; [|exact IH]. apply NoDup_cons. split; [|exact IH].
  intros (y & Hy & Hfy)%list_elem_of_omap. apply Hk. rewrite <- (Hf x k Hx), (Hf y k Hfy).
  by apply list_elem_of_fmap_2.
Qed.

Lemma filter_sorted {A} (R : A -> A -> Prop) (P : A -> Prop) `{forall x, Decision (P x)} l :
  StronglySorted R l -> StronglySorted R (filter P l).
Proof.
  induction 1 as [|x l Hs IH Hall]; [constructor|]. rewrite filter_cons. case_decide; [|done].
  constructor; [done|]. apply list.Forall_forall. intros y Hy%list_elem_of_filter.
  rewrite list.Forall_forall in Hall. naive_solver.
Qed.

Lemma elem_of_tree_scan_prefix p t k v :
  (k, v) ∈ tree_scan_prefix p t <-> t !! k = Some v /\ exists r, k = p ++ r.
Proof.
  unfold tree_scan_prefix. rewrite list_elem_of_filter, elem_of_tree_iter. cbn [fst].
  rewrite bytes_starts_with_spec. tauto.
Qed.

Lemma tree_scan_prefix_sorted p t : StronglySorted key_lt (tree_scan_prefix p t).
Proof. apply filter_sorted, tree_iter_sorted. Qed.

Lemma tree_range_sorted lo hi t : StronglySorted key_lt (tree_range lo hi t).
Proof. apply filter_sorted, tree_iter_sorted. Qed.

Lemma tree_iter_empty : tree_iter (∅ : gmap bytes V) = [].
Proof. unfold tree_iter. by rewrite map_to_list_empty. Qed.
End tree.

(** Removing keys one by one. *)
Lemma delete_all_lookup {V} (l : list bytes) (t : gmap bytes V) x :
  fold_left (fun t k => delete k t) l t !! x = if decide (x ∈ l) then None else t !! x.
Proof.
  revert t. induction l as [|k l IH]; intros t; cbn [fold_left].
  - rewrite decide_False; [done|]. apply not_elem_of_nil.
  - rewrite IH. destruct (decide (x ∈ l)) as [Hl|Hl].
    + rewrite decide_True; [done|]. by right.
    + destruct (decide (x = k)) as [->|Hne].
      * rewrite lookup_delete_eq, decide_True; [done|left].
      * rewrite lookup_delete_ne, decide_False; [done| |done]. intros [?|?]%elem_of_cons; done.
Qed.
