(* ===== verification/Messages.v ===== *)
(** * P2P messages

    The message types of [crates/p2p-consensus/src/messages.rs]; field names
    carry a prefix per structure.  Timestamps, scores and sizes keep their
    machine types ([Z] in range, [f64]). *)

From S2P Require Import Prelude Float64 Crypto.

Abbreviation ViewNumber := Z (only parsing).
Abbreviation SequenceNumber := Z (only parsing).
Abbreviation ChallengeId := Z (only parsing).

(** ** Consensus messages *)

Inductive StateChangeType : Type :=
| ChallengeSubmission
| EvaluationResult
| WeightUpdate
| ValidatorChange
| ConfigUpdate
| EpochTransition.

#[global] Instance StateChangeType_eq_dec : EqDecision StateChangeType.
Proof. solve_decision. Defined.

Record ProposalContent : Type := mk_ProposalContent {
  pc_change_type : StateChangeType;
  pc_data : bytes;
  pc_data_hash : bytes
}.

Record ConsensusProposal : Type := mk_ConsensusProposal {
  cp_view : ViewNumber;
  cp_sequence : SequenceNumber;
  cp_proposal : ProposalContent;
  cp_proposer : Hotkey;
  cp_signature : bytes;
  cp_timestamp : Z
}.

Record PrePrepare : Type := mk_PrePrepare {
  pp_view : ViewNumber;
  pp_sequence : SequenceNumber;
  pp_proposal_hash : bytes;
  pp_leader : Hotkey;
  pp_signature : bytes
}.

Record PrepareMessage : Type := mk_PrepareMessage {
  pm_view : ViewNumber;
  pm_sequence : SequenceNumber;
  pm_proposal_hash : bytes;
  pm_validator : Hotkey;
  pm_signature : bytes
}.

Record CommitMessage : Type := mk_CommitMessage {
  cm_view : ViewNumber;
  cm_sequence : SequenceNumber;
  cm_proposal_hash : bytes;
  cm_validator : Hotkey;
  cm_signature : bytes
}.

Record PreparedProof : Type := mk_PreparedProof {
  prf_pre_prepare : PrePrepare;
  prf_prepares : list PrepareMessage
}.

Record ViewChangeMessage : Type := mk_ViewChangeMessage {
  vc_new_view : ViewNumber;
  vc_last_prepared_sequence : option SequenceNumber;
  vc_prepared_proof : option PreparedProof;
  vc_validator : Hotkey;
  vc_signature : bytes
}.

Record NewViewMessage : Type := mk_NewViewMessage {
  nv_view : ViewNumber;
  nv_view_changes : list ViewChangeMessage;
  nv_leader : Hotkey;
  nv_signature : bytes
}.

#[global] Instance ProposalContent_eq_dec : EqDecision ProposalContent.
Proof. solve_decision. Defined.
#[global] Instance ConsensusProposal_eq_dec : EqDecision ConsensusProposal.
Proof. solve_decision. Defined.
#[global] Instance PrePrepare_eq_dec : EqDecision PrePrepare.
Proof. solve_decision. Defined.
#[global] Instance PrepareMessage_eq_dec : EqDecision PrepareMessage.
Proof. solve_decision. Defined.
#[global] Instance CommitMessage_eq_dec : EqDecision CommitMessage.
Proof. solve_decision. Defined.

(** ** State synchronisation messages *)

Record MerkleNode : Type := mk_MerkleNode {
  mn_sibling_hash : bytes;
  mn_is_left : bool
}.

Record MerkleProof : Type := mk_MerkleProof {
  mp_root : bytes;
  mp_path : list MerkleNode
}.

Record StateRequest : Type := mk_StateRequest {
  srq_requester : Hotkey;
  srq_current_hash : bytes;
  srq_current_sequence : SequenceNumber;
  srq_timestamp : Z
}.

Record StateResponse : Type := mk_StateResponse {
  srs_responder : Hotkey;
  srs_state_hash : bytes;
  srs_sequence : SequenceNumber;
  srs_state_data : bytes;
  srs_merkle_proof : option MerkleProof;
  srs_signature : bytes
}.

(** ** Challenge messages *)

Record SubmissionMessage : Type := mk_SubmissionMessage {
  sub_submission_id : string;
  sub_challenge_id : ChallengeId;
  sub_miner : Hotkey;
  sub_agent_hash : string;
  sub_signature : bytes;
  sub_timestamp : Z
}.

Record EvaluationMetrics : Type := mk_EvaluationMetrics {
  em_primary_score : f64;
  em_secondary_metrics : list (string * f64);
  em_execution_time_ms : Z;
  em_memory_usage_bytes : option Z;
  em_timed_out : bool;
  em_error : option string
}.

Record EvaluationMessage : Type := mk_EvaluationMessage {
  ev_submission_id : string;
  ev_challenge_id : ChallengeId;
  ev_validator : Hotkey;
  ev_score : f64;
  ev_metrics : EvaluationMetrics;
  ev_signature : bytes;
  ev_timestamp : Z
}.

Record WeightVoteMessage : Type := mk_WeightVoteMessage {
  wv_epoch : Z;
  wv_netuid : Z;
  wv_validator : Hotkey;
  wv_weights : list (Z * Z);
  wv_weights_hash : bytes;
  wv_signature : bytes;
  wv_timestamp : Z
}.

(** ** Network maintenance messages *)

Record HeartbeatMessage : Type := mk_HeartbeatMessage {
  hb_validator : Hotkey;
  hb_state_hash : bytes;
  hb_sequence : SequenceNumber;
  hb_stake : Z;
  hb_timestamp : Z;
  hb_signature : bytes
}.

Record PeerAnnounceMessage : Type := mk_PeerAnnounceMessage {
  pa_validator : Hotkey;
  pa_addresses : list string;
  pa_peer_id : string;
  pa_protocol_version : string;
  pa_timestamp : Z;
  pa_signature : bytes
}.

(** ** The message enumeration and its signed envelope *)

Inductive P2PMessage : Type :=
| MsgProposal (m : ConsensusProposal)
| MsgPrePrepare (m : PrePrepare)
| MsgPrepare (m : PrepareMessage)
| MsgCommit (m : CommitMessage)
| MsgViewChange (m : ViewChangeMessage)
| MsgNewView (m : NewViewMessage)
| MsgStateRequest (m : StateRequest)
| MsgStateResponse (m : StateResponse)
| MsgSubmission (m : SubmissionMessage)
| MsgEvaluation (m : EvaluationMessage)
| MsgWeightVote (m : WeightVoteMessage)
| MsgHeartbeat (m : HeartbeatMessage)
| MsgPeerAnnounce (m : PeerAnnounceMessage).

Definition type_name (m : P2PMessage) : string :=
  match m with
  | MsgProposal _ => "Proposal"
  | MsgPrePrepare _ => "PrePrepare"
  | MsgPrepare _ => "Prepare"
  | MsgCommit _ => "Commit"
  | MsgViewChange _ => "ViewChange"
  | MsgNewView _ => "NewView"
  | MsgStateRequest _ => "StateRequest"
  | MsgStateResponse _ => "StateResponse"
  | MsgSubmission _ => "Submission"
  | MsgEvaluation _ => "Evaluation"
  | MsgWeightVote _ => "WeightVote"
  | MsgHeartbeat _ => "Heartbeat"
  | MsgPeerAnnounce _ => "PeerAnnounce"
  end.

Record SignedP2PMessage : Type := mk_SignedP2PMessage {
  sp_message : P2PMessage;
  sp_signer : Hotkey;
  sp_signature : bytes;
  sp_nonce : Z
}.

(** ** The signed payloads of the consensus messages

    Proposals, pre-prepares, prepares and commits all sign the same triple;
    the structures local to each function differ only in field names, which
    bincode does not write. *)

Definition vote_signing_data (view sequence : Z) (h : bytes) : serde :=
  SStruct [SU64 view; SU64 sequence; SArray32 h].

Definition view_change_signing_data (new_view : Z) (last : option Z) : serde :=
  SStruct [SU64 new_view; SOption (SU64 <$> last)].

Definition new_view_signing_data (view : Z) : serde := SStruct [SU64 view].
