(* ===== verification/Validators.v ===== *)
(** * Validator management and leader election

    Models [crates/p2p-consensus/src/validator.rs]: the registered validators
    with their stakes and heartbeats, the PBFT thresholds, signature checks of
    registered validators, round-robin leader election over the stake order,
    and stake-weighted voting.  [chrono::Utc::now()] is the argument [now]. *)

From stdpp Require Import pretty.
From S2P Require Import Prelude Float64 Crypto Messages.

Inductive ValidatorError : Type :=
| VNotFound (h : string)
| VInsufficientStake (required actual : Z)
| VInvalidSignature
| VAlreadyRegistered
| VNotAuthorized (msg : string).

#[global] Instance ValidatorError_eq_dec : EqDecision ValidatorError.
Proof. solve_decision. Defined.

Definition ValidatorError_to_string (e : ValidatorError) : string :=
  match e with
  | VNotFound h => "Validator not found: " +:+ h
  | VInsufficientStake r a =>
      "Insufficient stake: required " +:+ pretty r +:+ ", has " +:+ pretty a
  | VInvalidSignature => "Invalid signature from validator"
  | VAlreadyRegistered => "Validator already registered"
  | VNotAuthorized m => "Not authorized: " +:+ m
  end.

(** ** Validator records *)

Record ValidatorRecord : Type := mk_ValidatorRecord {
  vr_hotkey : Hotkey;
  vr_stake : Z;
  vr_peer_id : option string;
  vr_addresses : list string;
  vr_last_seen : Z;
  vr_state_hash : bytes;
  vr_last_sequence : Z;
  vr_is_active : bool;
  vr_protocol_version : string
}.

#[global] Instance ValidatorRecord_eq_dec : EqDecision ValidatorRecord.
Proof. solve_decision. Defined.

Definition ValidatorRecord_new (now : Z) (hotkey : Hotkey) (stake : Z) : ValidatorRecord :=
  {| vr_hotkey := hotkey;
     vr_stake := stake;
     vr_peer_id := None;
     vr_addresses := [];
     vr_last_seen := now;
     vr_state_hash := replicate 32 0;
     vr_last_sequence := 0;
     vr_is_active := true;
     vr_protocol_version := "" |}.

Definition record_update_from_heartbeat (now : Z) (state_hash : bytes) (sequence stake : Z)
    (v : ValidatorRecord) : ValidatorRecord :=
  {| vr_hotkey := vr_hotkey v;
     vr_stake := stake;
     vr_peer_id := vr_peer_id v;
     vr_addresses := vr_addresses v;
     vr_last_seen := now;
     vr_state_hash := state_hash;
     vr_last_sequence := sequence;
     vr_is_active := true;
     vr_protocol_version := vr_protocol_version v |}.

Definition is_stale (now threshold_ms : Z) (v : ValidatorRecord) : bool :=
  threshold_ms <? now - vr_last_seen v.

Definition set_inactive (v : ValidatorRecord) : ValidatorRecord :=
  {| vr_hotkey := vr_hotkey v;
     vr_stake := vr_stake v;
     vr_peer_id := vr_peer_id v;
     vr_addresses := vr_addresses v;
     vr_last_seen := vr_last_seen v;
     vr_state_hash := vr_state_hash v;
     vr_last_sequence := vr_last_sequence v;
     vr_is_active := false;
     vr_protocol_version := vr_protocol_version v |}.

(** The update of an existing entry by [register_validator]. *)
Definition merge_record (record existing : ValidatorRecord) : ValidatorRecord :=
  {| vr_hotkey := vr_hotkey existing;
     vr_stake := vr_stake record;
     vr_peer_id := match vr_peer_id record with
                   | Some p => Some p
                   | None => vr_peer_id existing
                   end;
     vr_addresses := match vr_addresses record with
                     | [] => vr_addresses existing
                     | a => a
                     end;
     vr_last_seen := vr_last_seen record;
     vr_state_hash := vr_state_hash existing;
     vr_last_sequence := vr_last_sequence existing;
     vr_is_active := true;
     vr_protocol_version := vr_protocol_version existing |}.

(** The order of [validators_by_stake]: stake descending, then hotkey bytes
    ascending. *)
Definition stake_compare (a b : ValidatorRecord) : comparison :=
  match Z.compare (vr_stake b) (vr_stake a) with
  | Eq => bytes_compare (hk_bytes (vr_hotkey a)) (hk_bytes (vr_hotkey b))
  | c => c
  end.

Definition stake_le (a b : ValidatorRecord) : Prop := stake_compare a b <> Gt.

#[global] Instance stake_le_dec : RelDecision stake_le.
Proof. intros a b. unfold stake_le. solve_decision. Defined.

Section validators.
Context `{External} `{HO : !HashOrder Hotkey}.

(** ** The validator set *)

Record ValidatorSet : Type := mk_ValidatorSet {
  vs_validators : gmap Hotkey ValidatorRecord;
  vs_min_stake : Z;
  vs_local_keypair : Keypair;
  vs_stale_threshold_ms : Z;
  vs_verified_stakes : gmap Hotkey Z
}.

Definition ValidatorSet_new (local_keypair : Keypair) (min_stake : Z) : ValidatorSet :=
  {| vs_validators := ∅;
     vs_min_stake := min_stake;
     vs_local_keypair := local_keypair;
     vs_stale_threshold_ms := 90000;
     vs_verified_stakes := ∅ |}.

Definition with_validators (m : gmap Hotkey ValidatorRecord) (vs : ValidatorSet) : ValidatorSet :=
  {| vs_validators := m;
     vs_min_stake := vs_min_stake vs;
     vs_local_keypair := vs_local_keypair vs;
     vs_stale_threshold_ms := vs_stale_threshold_ms vs;
     vs_verified_stakes := vs_verified_stakes vs |}.

Definition with_verified_stakes (m : gmap Hotkey Z) (vs : ValidatorSet) : ValidatorSet :=
  {| vs_validators := vs_validators vs;
     vs_min_stake := vs_min_stake vs;
     vs_local_keypair := vs_local_keypair vs;
     vs_stale_threshold_ms := vs_stale_threshold_ms vs;
     vs_verified_stakes := m |}.

Definition set_verified_stake (hotkey : Hotkey) (stake : Z) (vs : ValidatorSet) : ValidatorSet :=
  with_verified_stakes (<[hotkey := stake]> (vs_verified_stakes vs)) vs.

Definition get_verified_stake (vs : ValidatorSet) (hotkey : Hotkey) : option Z :=
  vs_verified_stakes vs !! hotkey.

Definition clear_verified_stakes (vs : ValidatorSet) : ValidatorSet :=
  with_verified_stakes ∅ vs.

Definition local_hotkey (vs : ValidatorSet) : Hotkey := Keypair_hotkey (vs_local_keypair vs).

Definition register_validator (record : ValidatorRecord) :
    SE ValidatorSet ValidatorError unit :=
  vs ← get_state;
  if vr_stake record <? vs_min_stake vs then
    throw (VInsufficientStake (vs_min_stake vs) (vr_stake record))
  else
    match vs_validators vs !! vr_hotkey record with
    | Some existing =>
        modify (with_validators
          (<[vr_hotkey record := merge_record record existing]> (vs_validators vs)))
    | None =>
        modify (with_validators (<[vr_hotkey record := record]> (vs_validators vs)))
    end.

Definition remove_validator (hotkey : Hotkey) (vs : ValidatorSet) : ValidatorSet :=
  with_validators (delete hotkey (vs_validators vs)) vs.

Definition get_validator (vs : ValidatorSet) (hotkey : Hotkey) : option ValidatorRecord :=
  vs_validators vs !! hotkey.

Definition is_validator (vs : ValidatorSet) (hotkey : Hotkey) : bool :=
  bool_decide (is_Some (vs_validators vs !! hotkey)).

(** [v.is_active && !v.is_stale(threshold)]. *)
Definition is_live (now : Z) (vs : ValidatorSet) (v : ValidatorRecord) : bool :=
  vr_is_active v && negb (is_stale now (vs_stale_threshold_ms vs) v).

Definition active_validators (now : Z) (vs : ValidatorSet) : list ValidatorRecord :=
  filter (fun v => is_live now vs v = true) (hm_values (vs_validators vs)).

Definition active_count (now : Z) (vs : ValidatorSet) : nat :=
  length (filter (fun v => is_live now vs v = true) (hm_values (vs_validators vs))).

Definition total_active_stake (now : Z) (vs : ValidatorSet) : Z :=
  u64_sum (vr_stake <$> filter (fun v => is_live now vs v = true)
                                (hm_values (vs_validators vs))).

Definition vs_update_from_heartbeat (now : Z) (hotkey : Hotkey) (state_hash : bytes)
    (sequence reported_stake : Z) : SE ValidatorSet ValidatorError unit :=
  vs ← get_state;
  let stake_to_use :=
    match vs_verified_stakes vs !! hotkey with
    | Some verified_stake => verified_stake
    | None => reported_stake
    end in
  match vs_validators vs !! hotkey with
  | Some v =>
      modify (with_validators
        (<[hotkey := record_update_from_heartbeat now state_hash sequence stake_to_use v]>
           (vs_validators vs)))
  | None =>
      if vs_min_stake vs <=? stake_to_use then
        register_validator
          (record_update_from_heartbeat now state_hash sequence stake_to_use
             (ValidatorRecord_new now hotkey stake_to_use))
      else throw (VNotFound (Hotkey_to_hex hotkey))
  end.

Definition mark_stale_validators (now : Z) (vs : ValidatorSet) : ValidatorSet :=
  with_validators
    ((fun v => if is_stale now (vs_stale_threshold_ms vs) v && vr_is_active v
               then set_inactive v else v) <$> vs_validators vs) vs.

Definition validators_by_stake (now : Z) (vs : ValidatorSet) : list ValidatorRecord :=
  merge_sort stake_le (active_validators now vs).

(** ** PBFT thresholds *)

Definition fault_tolerance (now : Z) (vs : ValidatorSet) : nat :=
  let n := active_count now vs in
  if (n =? 0)%nat then 0%nat else ((n - 1) / 3)%nat.

Definition quorum_size (now : Z) (vs : ValidatorSet) : nat :=
  (2 * fault_tolerance now vs + 1)%nat.

Definition vs_verify_signature (vs : ValidatorSet) (hotkey : Hotkey)
    (message signature : bytes) : result ValidatorError bool :=
  if negb (is_validator vs hotkey) then Err (VNotFound (Hotkey_to_hex hotkey))
  else
    match SignedMessage_verify (mk_SignedMessage message signature hotkey) with
    | Ok valid => Ok valid
    | Err _ => Err VInvalidSignature
    end.

(** ** Leader election *)

Definition leader_for_view (now : Z) (vs : ValidatorSet) (view : ViewNumber) : option Hotkey :=
  let validators := validators_by_stake now vs in
  match validators with
  | [] => None
  | _ =>
      let index := Z.to_nat (view mod Z.of_nat (length validators)) in
      vr_hotkey <$> validators !! index
  end.

Definition is_leader (now : Z) (vs : ValidatorSet) (hotkey : Hotkey) (view : ViewNumber) : bool :=
  match leader_for_view now vs view with
  | Some leader => bool_decide (leader = hotkey)
  | None => false
  end.

Definition am_i_leader (now : Z) (vs : ValidatorSet) (view : ViewNumber) : bool :=
  is_leader now vs (local_hotkey vs) view.

(** [iter().position(p)]. *)
Fixpoint position {A} (p : A -> bool) (l : list A) : option nat :=
  match l with
  | [] => None
  | x :: l' => if p x then Some 0%nat else S <$> position p l'
  end.

Definition next_leader_view (now : Z) (vs : ValidatorSet) (current_view : ViewNumber) :
    option ViewNumber :=
  let validators := validators_by_stake now vs in
  our_position ← position (fun v => bool_decide (vr_hotkey v = local_hotkey vs)) validators;
  let validator_count := length validators in
  let current_position := Z.to_nat (current_view mod Z.of_nat validator_count) in
  if (current_position <=? our_position)%nat then
    Some (u64_add current_view (Z.of_nat (our_position - current_position)))
  else
    Some (u64_add current_view
            (Z.of_nat (validator_count - current_position + our_position))).

(** ** Stake-weighted voting *)

Definition voting_power (now : Z) (vs : ValidatorSet) (hotkey : Hotkey) : f64 :=
  let total_stake := total_active_stake now vs in
  if total_stake =? 0 then f64_zero
  else
    match get_validator vs hotkey with
    | Some v => if vr_is_active v then f64_div (f64_of_Z (vr_stake v)) (f64_of_Z total_stake)
                else f64_zero
    | None => f64_zero
    end.

Definition total_voting_power (now : Z) (vs : ValidatorSet) (hotkeys : list Hotkey) : f64 :=
  let total_stake := total_active_stake now vs in
  if total_stake =? 0 then f64_zero
  else
    let voters_stake :=
      u64_sum (vr_stake <$> filter (fun v => vr_is_active v = true)
                                   (omap (get_validator vs) hotkeys)) in
    f64_div (f64_of_Z voters_stake) (f64_of_Z total_stake).

Definition meets_threshold (now : Z) (vs : ValidatorSet) (voters : list Hotkey)
    (threshold : f64) : bool :=
  f64_leb threshold (total_voting_power now vs voters).

Definition meets_quorum (now : Z) (vs : ValidatorSet) (voter_count : nat) : bool :=
  (quorum_size now vs <=? voter_count)%nat.
End validators.

(** ** The stake order is a total preorder, strict on distinct hotkeys *)

Lemma bytes_le_trans a b c :
  bytes_compare a b <> Gt -> bytes_compare b c <> Gt -> bytes_compare a c <> Gt.
Proof.
  intros H1 H2. destruct (bytes_compare a b) eqn:E1; [|clear H1|done].
  { by apply bytes_compare_eq in E1 as ->. }
  destruct (bytes_compare b c) eqn:E2; [|clear H2|done].
  { apply bytes_compare_eq in E2 as ->. by rewrite E1. }
  by rewrite (bytes_compare_lt_trans a b c).
Qed.

Lemma stake_le_iff a b :
  stake_le a b <->
  vr_stake b < vr_stake a \/
  (vr_stake a = vr_stake b /\
   bytes_compare (hk_bytes (vr_hotkey a)) (hk_bytes (vr_hotkey b)) <> Gt).
Proof.
  unfold stake_le, stake_compare.
  destruct (Z.compare_spec (vr_stake b) (vr_stake a)) as [Heq|Hlt|Hgt].
  - split; [auto|]. intros [?|[_ ?]]; [lia|done].
  - split; [auto|done].
  - split; [done|]. intros [?|[? _]]; lia.
Qed.

#[global] Instance stake_le_trans : Transitive stake_le.
Proof.
  intros a b c. rewrite !stake_le_iff. intros [|[Heq H1]] [|[Heq' H2]]; auto with lia.
  right. split; [congruence|]. by eapply bytes_le_trans.
Qed.

#[global] Instance stake_le_total : Total stake_le.
Proof.
  intros a b. rewrite !stake_le_iff.
  destruct (Z.lt_trichotomy (vr_stake a) (vr_stake b)) as [|[Heq|]]; auto.
  rewrite (bytes_compare_antisym (hk_bytes (vr_hotkey a))).
  destruct (bytes_compare (hk_bytes (vr_hotkey a)) (hk_bytes (vr_hotkey b))); simpl;
    [left|left|right]; right; done.
Qed.

Lemma stake_le_antisymm a b : stake_le a b -> stake_le b a -> vr_hotkey a = vr_hotkey b.
Proof.
  rewrite !stake_le_iff. intros [|[Heq H1]] [|[Heq' H2]]; try lia.
  rewrite (bytes_compare_antisym (hk_bytes (vr_hotkey a))) in H2.
  destruct (bytes_compare (hk_bytes (vr_hotkey a)) (hk_bytes (vr_hotkey b))) eqn:E;
    simpl in *; try congruence.
  apply bytes_compare_eq in E. destruct (vr_hotkey a), (vr_hotkey b); simpl in *; congruence.
Qed.

Section validator_facts.
Context `{External}.
Implicit Types vs : ValidatorSet.

(** The type invariant of a validator set: entries sit under their own
    hotkey. *)
Definition vs_wf vs : Prop :=
  forall h v, vs_validators vs !! h = Some v -> vr_hotkey v = h.

Lemma register_validator_wf record vs :
  vs_wf vs -> wp (register_validator record) (fun _ vs' => vs_wf vs') vs.
Proof.
  intros Hwf. unfold register_validator. wp_run; auto; intros h' v';
    simpl; rewrite lookup_insert; case_decide; intros; simplify_eq/=; eauto.
Qed.

Lemma vs_update_from_heartbeat_wf now h hash sequence stake vs :
  vs_wf vs ->
  wp (vs_update_from_heartbeat now h hash sequence stake) (fun _ vs' => vs_wf vs') vs.
Proof.
  intros Hwf. unfold vs_update_from_heartbeat. wp_run; auto; [|by apply register_validator_wf].
  intros h1 v1. simpl. rewrite lookup_insert. case_decide; intros; simplify_eq/=; eauto.
Qed.

Lemma mark_stale_validators_wf now vs : vs_wf vs -> vs_wf (mark_stale_validators now vs).
Proof.
  intros Hwf h v. simpl. rewrite lookup_fmap. intros (v' & Hv' & ->)%fmap_Some.
  case_match; simpl; by apply Hwf.
Qed.

Lemma remove_validator_wf h vs : vs_wf vs -> vs_wf (remove_validator h vs).
Proof.
  intros Hwf h' v. simpl. rewrite lookup_delete_Some. intros [_ ?]. eauto.
Qed.

(** ** Active validators, for any iteration order *)

Section one_order.
Context `{HO : !HashOrder Hotkey}.

Lemma elem_of_active_validators now vs v :
  v ∈ active_validators now vs <->
  is_live now vs v = true /\ exists h, vs_validators vs !! h = Some v.
Proof.
  unfold active_validators. by rewrite list_elem_of_filter, elem_of_hm_values.
Qed.

Lemma active_hotkeys_NoDup now vs :
  vs_wf vs -> NoDup (vr_hotkey <$> active_validators now vs).
Proof.
  intros Hwf. unfold active_validators, hm_values.
  assert (Hkeys : forall l, Forall (fun kv => vr_hotkey kv.2 = kv.1) l -> NoDup l.*1 ->
    NoDup (vr_hotkey <$> filter (fun v => is_live now vs v = true) l.*2)).
  { induction l as [|[h v] l IH]; csimpl; intros Hall Hnd; [constructor|].
    apply Forall_cons in Hall as [Heq Hall]. apply NoDup_cons in Hnd as [Hni Hnd].
    simpl in *. rewrite filter_cons. case_decide; csimpl; [|auto].
    constructor; [|auto]. rewrite Heq. intros (v' & Hv' & Hin)%list_elem_of_fmap.
    apply list_elem_of_filter in Hin as [_ Hin].
    apply list_elem_of_fmap in Hin as ([h' v''] & -> & Hin).
    apply Hni. apply list_elem_of_fmap. exists (h', v''). split; [|done].
    rewrite list.Forall_forall in Hall. apply Hall in Hin. simpl in *. congruence. }
  apply Hkeys.
  - apply list.Forall_forall. intros [h v] Hin%elem_of_hm_iter. simpl. eauto.
  - rewrite fst_hm_iter. apply hm_keys_NoDup.
Qed.

Lemma validators_by_stake_perm now vs :
  validators_by_stake now vs ≡ₚ active_validators now vs.
Proof. apply merge_sort_Permutation. Qed.

Lemma length_validators_by_stake now vs :
  length (validators_by_stake now vs) = active_count now vs.
Proof. by rewrite validators_by_stake_perm. Qed.

Lemma by_stake_hotkeys_NoDup now vs :
  vs_wf vs -> NoDup (vr_hotkey <$> validators_by_stake now vs).
Proof. intros. rewrite validators_by_stake_perm. by apply active_hotkeys_NoDup. Qed.

Lemma leader_for_view_lookup now vs view :
  validators_by_stake now vs <> [] ->
  leader_for_view now vs view =
  (vr_hotkey <$> validators_by_stake now vs) !!
    Z.to_nat (view mod Z.of_nat (active_count now vs)).
Proof.
  intros Hne. unfold leader_for_view. rewrite <- length_validators_by_stake.
  destruct (validators_by_stake now vs) eqn:E; [done|]. by rewrite list_lookup_fmap.
Qed.
End one_order.

(** The order in which the map of validators is iterated never shows: the
    active validators are the same up to permutation. *)
Lemma hm_values_order_perm (HO1 HO2 : HashOrder Hotkey) {V} (m : gmap Hotkey V) :
  @hm_values _ _ _ HO1 _ m ≡ₚ @hm_values _ _ _ HO2 _ m.
Proof. unfold hm_values. by rewrite !hm_iter_perm. Qed.

Lemma active_validators_order_perm (HO1 HO2 : HashOrder Hotkey) now vs :
  @active_validators _ HO1 now vs ≡ₚ @active_validators _ HO2 now vs.
Proof. unfold active_validators. by rewrite (hm_values_order_perm HO1 HO2). Qed.

Lemma active_count_order (HO1 HO2 : HashOrder Hotkey) now vs :
  @active_count _ HO1 now vs = @active_count _ HO2 now vs.
Proof. apply Permutation_length, active_validators_order_perm. Qed.

Lemma quorum_size_order (HO1 HO2 : HashOrder Hotkey) now vs :
  @quorum_size _ HO1 now vs = @quorum_size _ HO2 now vs.
Proof.
  unfold quorum_size, fault_tolerance. by rewrite (active_count_order HO1 HO2).
Qed.

Lemma validators_by_stake_order (HO1 HO2 : HashOrder Hotkey) now vs :
  vs_wf vs -> @validators_by_stake _ HO1 now vs = @validators_by_stake _ HO2 now vs.
Proof.
  intros Hwf. apply (StronglySorted_unique_strong stake_le).
  - intros a b Ha Hb Hab Hba.
    rewrite (validators_by_stake_perm (HO:=HO1)), elem_of_active_validators in Ha.
    rewrite (validators_by_stake_perm (HO:=HO2)), elem_of_active_validators in Hb.
    destruct Ha as [_ [ha Ha]], Hb as [_ [hb Hb]].
    pose proof (stake_le_antisymm a b Hab Hba) as Heq.
    rewrite (Hwf _ _ Ha), (Hwf _ _ Hb) in Heq. congruence.
  - apply StronglySorted_merge_sort; apply _.
  - apply StronglySorted_merge_sort; apply _.
  - rewrite (validators_by_stake_perm (HO:=HO1)), (validators_by_stake_perm (HO:=HO2)).
    apply active_validators_order_perm.
Qed.
End validator_facts.
