(* ===== verification/ValidatorProps.v ===== *)
(** * Properties of validator management and leader election

    Quorum intersection, determinism and fairness of leader election, the
    effect of heartbeats, and what the thresholds do not guarantee. *)

From S2P Require Import Prelude Float64 Crypto Messages Validators.

(** ** Helper lemmas *)

Lemma position_Some {A} (p : A -> bool) (l : list A) i :
  position p l = Some i ->
  exists x, l !! i = Some x /\ p x = true /\
    forall j y, (j < i)%nat -> l !! j = Some y -> p y = false.
Proof.
  revert i. induction l as [|x l IH]; intros i; simpl; [done|].
  destruct (p x) eqn:Hp.
  - intros [= <-]. exists x. repeat split; auto. lia.
  - intros (i' & Hi' & ->)%fmap_Some. destruct (IH _ Hi') as (y & Hy & Hpy & Hmin).
    exists y. repeat split; auto. intros [|j] z Hj Hz; simplify_eq/=; [done|].
    apply (Hmin j); [lia|done].
Qed.

Lemma position_None {A} (p : A -> bool) (l : list A) :
  position p l = None <-> forall x, x ∈ l -> p x = false.
Proof.
  induction l as [|x l IH]; simpl.
  - split; [|done]. intros _ x Hx. by apply elem_of_nil in Hx.
  - destruct (p x) eqn:Hp.
    + split; [done|]. intros Hall. rewrite (Hall x) in Hp; [done|left].
    + rewrite fmap_None, IH. split.
      * intros Hall y [->|Hy]%elem_of_cons; auto.
      * intros Hall y Hy. apply Hall. by right.
Qed.

(** The residues of [n] consecutive integers hit every index exactly once. *)
Lemma consecutive_mod_unique (view n i : Z) :
  0 <= i < n ->
  exists k, (0 <= k < n /\ (view + k) mod n = i) /\
    forall k', 0 <= k' < n -> (view + k') mod n = i -> k' = k.
Proof.
  intros Hi. exists ((i - view) mod n). repeat split.
  - apply Z.mod_pos_bound. lia.
  - apply Z.mod_pos_bound. lia.
  - rewrite Z.add_mod_idemp_r by lia. replace (view + (i - view)) with i by lia.
    by apply Z.mod_small.
  - intros k' Hk' Heq. rewrite <- Heq, Zminus_mod_idemp_l.
    replace (view + k' - view) with k' by lia. symmetry. by apply Z.mod_small.
Qed.

(** Least shift that reaches residue [i] from residue [c]. *)
Lemma mod_shift_before (view n c i w : Z) :
  0 < n -> c = view mod n -> 0 <= i < n ->
  0 <= w < (if c <=? i then i - c else n - c + i) -> (view + w) mod n <> i.
Proof.
  intros Hn -> Hi Hw Heq. pose proof (Z.mod_pos_bound view n Hn) as Hb.
  rewrite <- Z.add_mod_idemp_l in Heq by lia. set (c := view mod n) in *.
  destruct (Z.leb_spec c i).
  - rewrite Z.mod_small in Heq by lia. lia.
  - destruct (Z_lt_le_dec (c + w) n).
    + rewrite Z.mod_small in Heq by lia. lia.
    + replace (c + w) with ((c + w - n) + 1 * n) in Heq by lia.
      rewrite Z.mod_add, Z.mod_small in Heq by lia. lia.
Qed.

Lemma mod_shift_reaches (view n c i : Z) :
  0 < n -> c = view mod n -> 0 <= i < n ->
  (view + (if c <=? i then i - c else n - c + i)) mod n = i.
Proof.
  intros Hn -> Hi. pose proof (Z.mod_pos_bound view n Hn) as Hb.
  rewrite <- Z.add_mod_idemp_l by lia. set (c := view mod n) in *.
  destruct (Z.leb_spec c i).
  - rewrite Z.mod_small; lia.
  - replace (c + (n - c + i)) with (i + 1 * n) by lia.
    rewrite Z.mod_add, Z.mod_small; lia.
Qed.

Section election.
Context `{External} `{HO : !HashOrder Hotkey}.
Implicit Types vs : ValidatorSet.

(** The hotkeys of the active validators. *)
Definition active_hotkeys (now : Z) vs : gset Hotkey :=
  list_to_set (vr_hotkey <$> active_validators now vs).

Lemma size_active_hotkeys now vs :
  vs_wf vs -> size (active_hotkeys now vs) = active_count now vs.
Proof.
  intros Hwf. unfold active_hotkeys.
  rewrite size_list_to_set by (by apply active_hotkeys_NoDup).
  by rewrite length_fmap.
Qed.

Lemma by_stake_nonempty now vs v :
  v ∈ active_validators now vs -> validators_by_stake now vs <> [].
Proof.
  intros Hv Hnil. rewrite <- (validators_by_stake_perm now vs), Hnil in Hv.
  by apply elem_of_nil in Hv.
Qed.

Lemma leader_index now vs view i h :
  vs_wf vs ->
  (vr_hotkey <$> validators_by_stake now vs) !! i = Some h ->
  leader_for_view now vs view = Some h <-> view mod Z.of_nat (active_count now vs) = Z.of_nat i.
Proof.
  intros Hwf Hi. assert (Hlt := lookup_lt_Some _ _ _ Hi).
  rewrite length_fmap in Hlt.
  rewrite leader_for_view_lookup
    by (intros Hnil; rewrite Hnil in Hlt; simpl in Hlt; lia).
  rewrite length_validators_by_stake in Hlt.
  assert (Hn : 0 < Z.of_nat (active_count now vs)) by lia.
  pose proof (Z.mod_pos_bound view _ Hn).
  split.
  - intros Hl. pose proof (NoDup_lookup _ _ _ _ (by_stake_hotkeys_NoDup now vs Hwf) Hi Hl).
    lia.
  - intros Heq. rewrite Heq, Nat2Z.id. done.
Qed.

Lemma quorum_overlap now vs (Q1 Q2 : gset Hotkey) :
  vs_wf vs -> (0 < active_count now vs)%nat ->
  Q1 ⊆ active_hotkeys now vs -> Q2 ⊆ active_hotkeys now vs ->
  (quorum_size now vs <= size Q1)%nat -> (quorum_size now vs <= size Q2)%nat ->
  (fault_tolerance now vs + 1 <= size (Q1 ∩ Q2) + (active_count now vs - 1) mod 3)%nat.
Proof.
  intros Hwf Hpos HQ1 HQ2 Hs1 Hs2.
  pose proof (size_intersection_ge Q1 Q2 _ HQ1 HQ2) as Hov.
  rewrite size_active_hotkeys in Hov by done.
  unfold quorum_size, fault_tolerance in *.
  destruct (Nat.eqb_spec (active_count now vs) 0); [lia|].
  pose proof (Nat.div_mod_eq (active_count now vs - 1) 3). lia.
Qed.

(** C8. Quorum intersection: two sets of active validators that each reach
    [quorum_size] share at least f + 1 members, less the remainder of
    (n - 1) / 3; with n = 3f + 1 the overlap contains a correct validator. *)
Theorem quorum_intersection now vs (Q1 Q2 : gset Hotkey) :
  vs_wf vs -> (0 < active_count now vs)%nat ->
  Q1 ⊆ active_hotkeys now vs -> Q2 ⊆ active_hotkeys now vs ->
  (quorum_size now vs <= size Q1)%nat -> (quorum_size now vs <= size Q2)%nat ->
  (fault_tolerance now vs + 1 <= size (Q1 ∩ Q2) + (active_count now vs - 1) mod 3)%nat.
Proof. apply quorum_overlap. Qed.

(** A quorum can always be formed by the validators left when
    [fault_tolerance] of the active ones stay silent. *)
Theorem quorum_available now vs :
  (0 < active_count now vs)%nat ->
  (quorum_size now vs <= active_count now vs - fault_tolerance now vs)%nat /\
  (3 * fault_tolerance now vs < active_count now vs)%nat.
Proof.
  intros Hpos. unfold quorum_size, fault_tolerance.
  destruct (Nat.eqb_spec (active_count now vs) 0); [lia|].
  pose proof (Nat.div_mod_eq (active_count now vs - 1) 3).
  pose proof (Nat.mod_upper_bound (active_count now vs - 1) 3). lia.
Qed.

(** C9. Round-robin fairness: among any n consecutive views, with n active
    validators, each active validator is the leader of exactly one. *)
Theorem leader_rotation now vs view v :
  vs_wf vs -> v ∈ active_validators now vs ->
  exists k, 0 <= k < Z.of_nat (active_count now vs) /\
    leader_for_view now vs (view + k) = Some (vr_hotkey v) /\
    forall k', 0 <= k' < Z.of_nat (active_count now vs) ->
      leader_for_view now vs (view + k') = Some (vr_hotkey v) -> k' = k.
Proof.
  intros Hwf Hv. rewrite <- (validators_by_stake_perm now vs) in Hv.
  apply list_elem_of_lookup in Hv as [i Hi].
  assert (Hlt := lookup_lt_Some _ _ _ Hi). rewrite length_validators_by_stake in Hlt.
  assert (Hh : (vr_hotkey <$> validators_by_stake now vs) !! i = Some (vr_hotkey v))
    by by rewrite list_lookup_fmap, Hi.
  destruct (consecutive_mod_unique view (Z.of_nat (active_count now vs)) (Z.of_nat i))
    as (k & [Hk Hmod] & Huniq); [lia|].
  exists k. split; [done|]. split; [by apply (leader_index now vs (view + k) i)|].
  intros k' Hk' Hl. apply Huniq; [done|]. by apply (leader_index now vs (view + k') i (vr_hotkey v)).
Qed.

Lemma am_i_leader_iff now vs view :
  am_i_leader now vs view = true <-> leader_for_view now vs view = Some (local_hotkey vs).
Proof.
  unfold am_i_leader, is_leader. destruct (leader_for_view now vs view) as [h|]; [|done].
  rewrite bool_decide_eq_true. split; [by intros ->| by intros [= ->]].
Qed.

(** Views from [view] to the first that the validator at index [i] leads. *)
Definition leader_distance (view n i : Z) : Z :=
  if view mod n <=? i then i - view mod n else n - view mod n + i.

Lemma next_leader_view_Some now vs current_view nv :
  next_leader_view now vs current_view = Some nv ->
  exists i, (vr_hotkey <$> validators_by_stake now vs) !! i = Some (local_hotkey vs) /\
    nv = u64_add current_view
           (leader_distance current_view (Z.of_nat (active_count now vs)) (Z.of_nat i)).
Proof.
  unfold next_leader_view, leader_distance.
  destruct (position _ _) as [i|] eqn:Hpos; [|done]. simpl.
  apply position_Some in Hpos as (v & Hv & Hloc & _). apply bool_decide_eq_true in Hloc.
  assert (Hlt := lookup_lt_Some _ _ _ Hv). rewrite length_validators_by_stake in *.
  intros Hnv. exists i. split; [by rewrite list_lookup_fmap, Hv, <- Hloc|].
  assert (Hn : 0 < Z.of_nat (active_count now vs)) by lia.
  pose proof (Z.mod_pos_bound current_view _ Hn).
  destruct (Nat.leb_spec (Z.to_nat (current_view mod Z.of_nat (active_count now vs))) i),
    (Z.leb_spec (current_view mod Z.of_nat (active_count now vs)) (Z.of_nat i));
    try lia; simplify_eq; f_equal; lia.
Qed.

(** [next_leader_view] answers the first view from the current one in
    which the local validator leads, when that view does not overflow. *)
Theorem next_leader_view_least now vs current_view nv :
  vs_wf vs -> 0 <= current_view ->
  current_view + Z.of_nat (active_count now vs) < 2 ^ 64 ->
  next_leader_view now vs current_view = Some nv ->
  current_view <= nv /\ am_i_leader now vs nv = true /\
  forall w, current_view <= w < nv -> am_i_leader now vs w = false.
Proof.
  intros Hwf Hcv Hov (i & Hi & ->)%next_leader_view_Some.
  assert (Hlt := lookup_lt_Some _ _ _ Hi).
  rewrite length_fmap, length_validators_by_stake in Hlt.
  remember (Z.of_nat (active_count now vs)) as n eqn:Hn.
  pose proof (Z.mod_pos_bound current_view n) as Hb.
  assert (Hd : 0 <= leader_distance current_view n (Z.of_nat i) <= n)
    by (unfold leader_distance; destruct (Z.leb_spec (current_view mod n) (Z.of_nat i)); lia).
  rewrite u64_add_small by lia. split; [lia|]. split.
  - apply am_i_leader_iff, (leader_index now vs _ i); [done..|]. rewrite <- Hn.
    apply mod_shift_reaches; lia.
  - intros w Hw. apply not_true_is_false. intros Hl%am_i_leader_iff.
    apply (leader_index now vs w i) in Hl; [|done..]. rewrite <- Hn in Hl.
    apply (mod_shift_before current_view n (current_view mod n) (Z.of_nat i)
             (w - current_view)); [lia..| |].
    + unfold leader_distance in *. lia.
    + by replace (current_view + (w - current_view)) with w by lia.
Qed.
End election.

Section set_properties.
Context `{External}.
Implicit Types vs : ValidatorSet.

(** C10. Leader election and the quorum do not depend on the iteration order of
    the validator map: nodes that hold the same records elect the same leader
    in every view. *)
Theorem leader_election_deterministic (HO1 HO2 : HashOrder Hotkey) now vs view :
  vs_wf vs ->
  leader_for_view (HO:=HO1) now vs view = leader_for_view (HO:=HO2) now vs view /\
  quorum_size (HO:=HO1) now vs = quorum_size (HO:=HO2) now vs.
Proof.
  intros Hwf. split; [|apply quorum_size_order].
  unfold leader_for_view. by rewrite (validators_by_stake_order HO1 HO2).
Qed.

(** The stake a heartbeat leaves recorded: the verified one when there is one. *)
Definition effective_stake vs (h : Hotkey) (reported : Z) : Z :=
  default reported (vs_verified_stakes vs !! h).

(** A heartbeat is accepted exactly when its sender is registered or its
    effective stake reaches the minimum; then the sender is active with that
    stake (a self-reported one never overrides a verified one) and no other
    entry changes, and otherwise nothing changes. *)
Theorem heartbeat_effect now h state_hash sequence reported vs :
  let s := effective_stake vs h reported in
  let '(r, vs') := vs_update_from_heartbeat now h state_hash sequence reported vs in
  vs_verified_stakes vs' = vs_verified_stakes vs /\
  (forall h', h' <> h -> vs_validators vs' !! h' = vs_validators vs !! h') /\
  (if bool_decide (is_Some (vs_validators vs !! h)) || (vs_min_stake vs <=? s)
   then r = Ok tt /\ exists v, vs_validators vs' !! h = Some v /\
        vr_stake v = s /\ vr_is_active v = true /\ vr_last_seen v = now /\
        vr_state_hash v = state_hash /\ vr_last_sequence v = sequence
   else r = Err (VNotFound (Hotkey_to_hex h)) /\ vs' = vs).
Proof.
  unfold vs_update_from_heartbeat, effective_stake, mbind, SE_bind. simpl.
  assert (Hst : match vs_verified_stakes vs !! h with Some s => s | None => reported end
                = default reported (vs_verified_stakes vs !! h))
    by by destruct (vs_verified_stakes vs !! h).
  rewrite Hst. clear Hst.
  set (s := default reported (vs_verified_stakes vs !! h)).
  destruct (vs_validators vs !! h) as [v|] eqn:Hv; simpl.
  - split; [done|]. split; [by intros; rewrite lookup_insert_ne|].
    split; [done|]. eexists. by rewrite lookup_insert_eq.
  - destruct (Z.leb_spec (vs_min_stake vs) s); simpl; [|done].
    unfold register_validator, mbind, SE_bind. simpl.
    rewrite (proj2 (Z.ltb_ge s (vs_min_stake vs))) by lia. rewrite Hv. simpl.
    split; [done|]. split; [by intros; rewrite lookup_insert_ne|].
    split; [done|]. eexists. by rewrite lookup_insert_eq.
Qed.

(** Marking stale validators changes no decision: the active validators,
    their stake order, the quorum and every leader stay the same. *)
Theorem mark_stale_preserves_election (HO : HashOrder Hotkey) now vs :
  let vs' := mark_stale_validators now vs in
  validators_by_stake now vs' = validators_by_stake now vs /\
  quorum_size now vs' = quorum_size now vs /\
  (forall view, leader_for_view now vs' view = leader_for_view now vs view).
Proof.
  simpl.
  assert (Hact : active_validators now (mark_stale_validators now vs) =
                 active_validators now vs).
  { unfold active_validators. simpl. rewrite hm_values_fmap. apply filter_fmap_same.
    - intros v. unfold is_live. rewrite andb_true_iff, negb_true_iff.
      intros [-> ->]. done.
    - intros v. unfold is_live. simpl. destruct (is_stale _ _ v) eqn:Hs, (vr_is_active v) eqn:Ha;
        simpl; rewrite ?Hs, ?Ha; simpl; done. }
  assert (Hby : validators_by_stake now (mark_stale_validators now vs) =
                validators_by_stake now vs) by (unfold validators_by_stake; by rewrite Hact).
  split; [done|]. split.
  - unfold quorum_size, fault_tolerance.
    by rewrite <- !length_validators_by_stake, Hby.
  - intros view. unfold leader_for_view. by rewrite Hby.
Qed.
End set_properties.

(** ** Concrete validator sets *)

Module Examples.
Import Toy.

Definition kp (n : Z) : Keypair := mk_Keypair n None.
Definition hk (n : Z) : Hotkey := Keypair_hotkey (kp n).

(** A set owned by key [owner] in which keys 1 to [n] registered at time 0;
    key [n] has the largest stake and leads view 0. *)
Definition registered_by (owner : Z) (n : nat) : ValidatorSet :=
  fold_left (fun vs i => (register_validator
      (ValidatorRecord_new 0 (hk (Z.of_nat i)) (1000 + Z.of_nat i)) vs).2)
    (seq 1 n) (ValidatorSet_new (kp owner) 1000).

Lemma registered_by_wf owner n : vs_wf (registered_by owner n).
Proof.
  unfold registered_by.
  assert (Hfold : forall l vs, vs_wf vs -> vs_wf (fold_left (fun vs i => (register_validator
      (ValidatorRecord_new 0 (hk (Z.of_nat i)) (1000 + Z.of_nat i)) vs).2) l vs)).
  { induction l as [|i l IH]; intros vs Hwf; simpl; [done|].
    apply IH. by apply (register_validator_wf _ vs). }
  apply Hfold. intros h v. simpl. by rewrite lookup_empty.
Qed.

Definition registered_set (n : nat) : ValidatorSet := registered_by 1 n.

Lemma registered_set_wf n : vs_wf (registered_set n).
Proof. apply registered_by_wf. Qed.

Definition hotkeys (l : list Z) : gset Hotkey := list_to_set (hk <$> l).

Definition quorum_a : gset Hotkey := hotkeys [1; 2; 3].
Definition quorum_b : gset Hotkey := hotkeys [2; 3; 4].

Lemma quorum_intersection_witness :
  (1 <= size (quorum_a ∩ quorum_b))%nat.
Proof.
  assert (Hq := quorum_intersection 0 (registered_set 4) quorum_a quorum_b
    (registered_set_wf 4)).
  assert (Hc : active_count 0 (registered_set 4) = 4%nat) by by vm_compute.
  assert (Hf : fault_tolerance 0 (registered_set 4) = 1%nat) by by vm_compute.
  rewrite Hc, Hf in Hq.
  assert (Hq' : (1 + 1 <= size (quorum_a ∩ quorum_b) + (4 - 1) mod 3)%nat).
  { refine (Hq _ _ _ _ _); by_compute. }
  change ((4 - 1) mod 3)%nat with 0%nat in Hq'. lia.
Defined.

Lemma quorum_available_witness :
  (quorum_size 0 (registered_set 5) <=
   active_count 0 (registered_set 5) - fault_tolerance 0 (registered_set 5))%nat.
Proof. refine (proj1 (quorum_available 0 (registered_set 5) _)). by_compute. Defined.

Lemma leader_rotation_witness :
  exists k, 0 <= k < Z.of_nat (active_count 0 (registered_set 4)) /\
    leader_for_view 0 (registered_set 4) (7 + k) = Some (hk 2).
Proof.
  destruct (leader_rotation 0 (registered_set 4) 7 (ValidatorRecord_new 0 (hk 2) 1002)
    (registered_set_wf 4)) as (k & Hk & Hl & _).
  - by_compute.
  - exists k. split; [exact Hk|exact Hl].
Defined.

Lemma next_leader_view_least_witness :
  5 <= 7 /\ am_i_leader 0 (registered_set 4) 7 = true.
Proof.
  destruct (next_leader_view_least 0 (registered_set 4) 5 7) as (Hle & Hl & _);
    [apply registered_set_wf | lia | | by vm_compute | by split].
  assert (Hc : active_count 0 (registered_set 4) = 4%nat) by by vm_compute.
  rewrite Hc. lia.
Defined.

Lemma leader_election_deterministic_witness :
  leader_for_view (HO:=elements_order Hotkey) 0 (registered_set 5) 3 =
  leader_for_view (HO:=reverse_order Hotkey) 0 (registered_set 5) 3.
Proof. apply leader_election_deterministic, registered_set_wf. Defined.

(** The quorum 2f + 1 is not a majority unless n = 3f + 1: with six active
    validators f is 1, the quorum is 3, and two disjoint sets of active
    validators both reach it. *)
Theorem disjoint_quorums_of_six :
  exists (vs : ValidatorSet) (Q1 Q2 : gset Hotkey),
    active_count 0 vs = 6%nat /\ quorum_size 0 vs = 3%nat /\
    Q1 ⊆ active_hotkeys 0 vs /\ Q2 ⊆ active_hotkeys 0 vs /\
    size Q1 = quorum_size 0 vs /\ size Q2 = quorum_size 0 vs /\ Q1 ∩ Q2 = ∅.
Proof.
  exists (registered_set 6), (hotkeys [1; 2; 3]), (hotkeys [4; 5; 6]).
  split_and!; by_compute.
Qed.

(** The heartbeat of validator 2 with a stake of 5. *)
Definition low_heartbeat : SE ValidatorSet ValidatorError unit :=
  vs_update_from_heartbeat 0 (hk 2) (replicate 32 0) 1 5.

(** A registered validator whose heartbeat reports less than the minimum
    stake stays registered, active and counted: the minimum is only checked
    on registration. *)
Theorem heartbeat_below_minimum_accepted :
  exists vs : ValidatorSet, let vs' := (low_heartbeat vs).2 in
    (low_heartbeat vs).1 = Ok tt /\
    (vr_stake <$> vs_validators vs' !! hk 2) = Some 5 /\ 5 < vs_min_stake vs' /\
    hk 2 ∈ active_hotkeys 0 vs' /\ active_count 0 vs' = active_count 0 vs.
Proof. exists (registered_set 4). cbv zeta. split_and!; by_compute. Qed.

(** [total_voting_power] counts a hotkey once per occurrence: repeating one
    voter lifts its share from below to above a two-thirds threshold. *)
Theorem voting_power_counts_repeats :
  exists (vs : ValidatorSet) h,
    meets_threshold 0 vs [h] (f64_lit 2 3) = false /\
    meets_threshold 0 vs [h; h; h] (f64_lit 2 3) = true.
Proof. exists (registered_set 4), (hk 1). split; by vm_compute. Qed.
End Examples.
