(* ===== verification/Merkle.v ===== *)
(** * Merkle trees over 32-byte hashes

    Models [compute_merkle_root], [hash_pair], [verify_merkle_proof] and
    [build_merkle_proof] of [crates/p2p-consensus/src/state.rs].  The [while]
    loops that halve a level are defined by well-founded recursion on its
    length, so they terminate on every input. *)

From Equations Require Import Equations.
From S2P Require Import Prelude Float64 Crypto Messages.

Section merkle.
Context `{External}.
Implicit Types level leaves : list bytes.

Definition zero32 : bytes := replicate 32 0.

Definition hash_pair (left right : bytes) : bytes := sha256 (left ++ right).

(** The [for chunk in level.chunks(2)] loop. *)
Fixpoint next_level level : list bytes :=
  match level with
  | [] => []
  | [x] => [hash_pair x x]
  | x :: y :: rest => hash_pair x y :: next_level rest
  end.

Lemma length_next_level level : length (next_level level) = Nat.div2 (S (length level)).
Proof.
  revert level. fix IH 1. intros [|x [|y rest]]; simpl; [done..|]. f_equal. apply IH.
Qed.

Lemma next_level_shorter x y rest :
  (length (next_level (x :: y :: rest)) < length (x :: y :: rest))%nat.
Proof.
  rewrite length_next_level. pose proof (Nat.le_div2 (length rest)).
  simpl in *. lia.
Qed.

(** [while level.len() > 1 { ... } level[0]]. *)
Equations? merkle_reduce (level : list bytes) : bytes by wf (length level) lt :=
  merkle_reduce [] := zero32;
  merkle_reduce [x] := x;
  merkle_reduce (x :: y :: rest) := merkle_reduce (next_level (x :: y :: rest)).
Proof. apply next_level_shorter. Qed.

Definition compute_merkle_root (leaves : list bytes) : bytes :=
  match leaves with
  | [] => zero32
  | [x] => x
  | _ => merkle_reduce leaves
  end.

Definition verify_step (current : bytes) (node : MerkleNode) : bytes :=
  if mn_is_left node then hash_pair (mn_sibling_hash node) current
  else hash_pair current (mn_sibling_hash node).

Definition verify_merkle_proof (leaf : bytes) (proof : MerkleProof) : bool :=
  bool_decide (fold_left verify_step (mp_path proof) leaf = mp_root proof).

Definition sibling_index (level : list bytes) (index : nat) : nat :=
  if Nat.even index then
    if (index + 1 <? length level)%nat then (index + 1)%nat else index
  else (index - 1)%nat.

Definition path_node (level : list bytes) (index : nat) : MerkleNode :=
  let sibling := sibling_index level index in
  {| mn_sibling_hash := default zero32 (level !! sibling);
     mn_is_left := (sibling <? index)%nat |}.

(** The loop of [build_merkle_proof]: the nodes pushed from [level] upwards. *)
Equations? merkle_path (level : list bytes) (index : nat) : list MerkleNode
    by wf (length level) lt :=
  merkle_path [] _ := [];
  merkle_path [x] _ := [];
  merkle_path (x :: y :: rest) index :=
    path_node (x :: y :: rest) index ::
    merkle_path (next_level (x :: y :: rest)) (index / 2).
Proof. apply next_level_shorter. Qed.

Definition build_merkle_proof (leaves : list bytes) (leaf_index : nat) : option MerkleProof :=
  if (length leaves <=? leaf_index)%nat || (length leaves =? 0)%nat then None
  else Some {| mp_root := compute_merkle_root leaves;
               mp_path := merkle_path leaves leaf_index |}.

(** ** Facts *)

Lemma compute_merkle_root_reduce leaves : compute_merkle_root leaves = merkle_reduce leaves.
Proof. destruct leaves as [|x [|y l]]; simpl; by simp merkle_reduce. Qed.

Lemma next_level_lookup level i v :
  level !! i = Some v ->
  next_level level !! (i / 2)%nat = Some (verify_step v (path_node level i)).
Proof.
  revert level i. fix IH 1. intros [|x [|y rest]] i Hi; [done| |].
  - destruct i; simplify_eq/=. done.
  - destruct i as [|[|i]]; [by simplify_eq/= | by simplify_eq/= |].
    replace (S (S i) / 2)%nat with (S (i / 2)) by
      (replace (S (S i)) with (1 * 2 + i)%nat by lia; by rewrite Nat.div_add_l).
    change (rest !! i = Some v) in Hi.
    change (next_level rest !! (i / 2)%nat =
            Some (verify_step v (path_node (x :: y :: rest) (S (S i))))).
    rewrite (IH rest i Hi). f_equal.
    assert (Hnode : path_node (x :: y :: rest) (S (S i)) = path_node rest i); [|by rewrite Hnode].
    unfold path_node, sibling_index. simpl.
    destruct (Nat.even i) eqn:He; simpl.
    + change (S (S (i + 1)) <? S (S (length rest)))%nat with (i + 1 <? length rest)%nat.
      destruct (i + 1 <? length rest)%nat; simpl; done.
    + destruct i; [done|]. simpl. by rewrite Nat.sub_0_r.
Qed.

Lemma merkle_path_verifies level i v :
  level !! i = Some v ->
  fold_left verify_step (merkle_path level i) v = merkle_reduce level.
Proof.
  revert v. funelim (merkle_path level i); intros v Hv; simp merkle_reduce.
  - done.
  - match type of Hv with _ !! ?j = _ => destruct j end; by simplify_eq/=.
  - cbn [fold_left]. match goal with IH : forall v, _ -> fold_left _ _ _ = _ |- _ => apply IH end.
    by apply next_level_lookup.
Qed.

(** Completeness: for every leaf of a tree, [build_merkle_proof] produces a
    proof carrying the tree's root that [verify_merkle_proof] accepts, and it
    produces none past the last leaf. *)
Theorem merkle_proof_roundtrip leaves i :
  match leaves !! i with
  | Some leaf => exists proof, build_merkle_proof leaves i = Some proof /\
      mp_root proof = compute_merkle_root leaves /\ verify_merkle_proof leaf proof = true
  | None => build_merkle_proof leaves i = None
  end.
Proof.
  unfold build_merkle_proof. destruct (leaves !! i) as [leaf|] eqn:Hi.
  - assert (Hlt := lookup_lt_Some _ _ _ Hi).
    destruct (Nat.leb_spec (length leaves) i); [lia|].
    destruct (Nat.eqb_spec (length leaves) 0); [lia|]. simpl.
    eexists. split; [done|]. split; [done|]. apply bool_decide_eq_true. simpl.
    rewrite compute_merkle_root_reduce. by apply merkle_path_verifies.
  - apply lookup_ge_None in Hi. by rewrite (proj2 (Nat.leb_le _ _) Hi).
Qed.

(** The string hashed in a step of the verification, and all of them. *)
Definition step_input (current : bytes) (node : MerkleNode) : bytes :=
  if mn_is_left node then mn_sibling_hash node ++ current else current ++ mn_sibling_hash node.

Fixpoint hashed_inputs (current : bytes) (path : list MerkleNode) : list bytes :=
  match path with
  | [] => []
  | node :: path => step_input current node :: hashed_inputs (verify_step current node) path
  end.

(** Two different strings with the same digest, one from each list. *)
Definition collision (inputs1 inputs2 : list bytes) : Prop :=
  exists x y, x ∈ inputs1 /\ y ∈ inputs2 /\ x <> y /\ sha256 x = sha256 y.

Lemma verify_step_hash c n : verify_step c n = sha256 (step_input c n).
Proof. unfold verify_step, step_input. by destruct (mn_is_left n). Qed.

Lemma step_input_inj c1 c2 n1 n2 :
  mn_is_left n1 = mn_is_left n2 -> length c1 = length c2 ->
  length (mn_sibling_hash n1) = length (mn_sibling_hash n2) ->
  step_input c1 n1 = step_input c2 n2 -> c1 = c2.
Proof.
  unfold step_input. intros -> Hc Hn Heq.
  destruct (mn_is_left n2); apply app_inj_1 in Heq as []; done.
Qed.

Lemma verify_step_length `{!ExternalLaws} c n : length (verify_step c n) = 32%nat.
Proof. unfold verify_step, hash_pair. destruct (mn_is_left n); apply sha256_length. Qed.

Lemma path_binding `{!ExternalLaws} path1 path2 leaf1 leaf2 :
  mn_is_left <$> path1 = mn_is_left <$> path2 ->
  Forall (fun n => length (mn_sibling_hash n) = 32%nat) path1 ->
  Forall (fun n => length (mn_sibling_hash n) = 32%nat) path2 ->
  length leaf1 = 32%nat -> length leaf2 = 32%nat ->
  fold_left verify_step path1 leaf1 = fold_left verify_step path2 leaf2 ->
  leaf1 = leaf2 \/ collision (hashed_inputs leaf1 path1) (hashed_inputs leaf2 path2).
Proof.
  revert path2 leaf1 leaf2.
  induction path1 as [|n1 path1 IH]; intros [|n2 path2] leaf1 leaf2 Hdir H1 H2 Hl1 Hl2 Heq;
    simplify_eq/=; [by left|].
  apply Forall_cons in H1 as [Hn1 H1]. apply Forall_cons in H2 as [Hn2 H2].
  destruct (IH path2 (verify_step leaf1 n1) (verify_step leaf2 n2))
    as [Hstep|(x & y & Hx & Hy & Hne & Hsame)]; auto using verify_step_length.
  - rewrite !verify_step_hash in Hstep.
    destruct (decide (step_input leaf1 n1 = step_input leaf2 n2)) as [Hin|Hin].
    + left. by apply (step_input_inj leaf1 leaf2 n1 n2); [|congruence..|].
    + right. exists (step_input leaf1 n1), (step_input leaf2 n2). repeat split; auto; left.
  - right. exists x, y. repeat split; auto; by right.
Qed.

Lemma next_level_lengths `{!ExternalLaws} level :
  Forall (fun l => length l = 32%nat) (next_level level).
Proof.
  revert level. fix IH 1. intros [|x [|y rest]]; simpl; [constructor|..];
    (constructor; [apply sha256_length|]); [constructor|apply IH].
Qed.

Lemma merkle_path_siblings `{!ExternalLaws} level i :
  Forall (fun l => length l = 32%nat) level ->
  Forall (fun n => length (mn_sibling_hash n) = 32%nat) (merkle_path level i).
Proof.
  funelim (merkle_path level i); intros Hlen; constructor.
  - unfold path_node. simpl mn_sibling_hash.
    destruct (lookup _ _) as [s|] eqn:Hs; simpl; [|done].
    rewrite list.Forall_forall in Hlen. apply Hlen. by eapply list_elem_of_lookup_2.
  - auto using next_level_lengths.
Qed.

(** C15. Binding: with hashes of 32 bytes, two accepted proofs whose paths turn
    the same way, against the same root, are for the same leaf, or exhibit a
    SHA-256 collision between strings hashed along the two paths. *)
Theorem merkle_proof_binding `{!ExternalLaws} proof1 proof2 leaf1 leaf2 :
  length leaf1 = 32%nat -> length leaf2 = 32%nat ->
  Forall (fun n => length (mn_sibling_hash n) = 32%nat) (mp_path proof1) ->
  Forall (fun n => length (mn_sibling_hash n) = 32%nat) (mp_path proof2) ->
  mp_root proof1 = mp_root proof2 -> mn_is_left <$> mp_path proof1 = mn_is_left <$> mp_path proof2 ->
  verify_merkle_proof leaf1 proof1 = true -> verify_merkle_proof leaf2 proof2 = true ->
  leaf1 = leaf2 \/ collision (hashed_inputs leaf1 (mp_path proof1)) (hashed_inputs leaf2 (mp_path proof2)).
Proof.
  intros Hl1 Hl2 Hp1 Hp2 Hroot Hdir Hv1%bool_decide_eq_true Hv2%bool_decide_eq_true.
  apply path_binding; auto. by rewrite Hv1, Hv2.
Qed.

(** Against the proof built for a leaf: a leaf accepted at its position is that
    leaf, or there is a collision. *)
Lemma honest_leaf_binding `{!ExternalLaws} leaves i leaf proof forged forged_leaf :
  leaves !! i = Some leaf -> build_merkle_proof leaves i = Some proof ->
  Forall (fun l => length l = 32%nat) leaves -> length forged_leaf = 32%nat ->
  Forall (fun n => length (mn_sibling_hash n) = 32%nat) (mp_path forged) ->
  mp_root forged = compute_merkle_root leaves ->
  mn_is_left <$> mp_path forged = mn_is_left <$> mp_path proof ->
  verify_merkle_proof forged_leaf forged = true ->
  forged_leaf = leaf \/
  collision (hashed_inputs forged_leaf (mp_path forged)) (hashed_inputs leaf (mp_path proof)).
Proof.
  intros Hi Hb Hleaves Hfl Hfn Hroot Hdir Hver.
  apply bool_decide_eq_true in Hver.
  unfold build_merkle_proof in Hb. case_match; [done|]. simplify_eq/=.
  apply (path_binding (mp_path forged) (merkle_path leaves i)); auto.
  - by apply merkle_path_siblings.
  - rewrite list.Forall_forall in Hleaves. apply Hleaves. by eapply list_elem_of_lookup_2.
  - by rewrite Hver, Hroot, compute_merkle_root_reduce, (merkle_path_verifies _ _ leaf).
Qed.

(** The root does not bind the number of leaves: the last of an odd number
    of leaves is hashed with itself, so repeating it gives the same root. *)
Theorem merkle_root_duplicate_leaf (a b c : bytes) :
  compute_merkle_root [a; b; c] = compute_merkle_root [a; b; c; c].
Proof. rewrite !compute_merkle_root_reduce. by simp merkle_reduce. Qed.
End merkle.

Module MerkleExamples.
Import Toy.

Definition sample_leaves : list bytes := toy_key <$> [1; 2; 3; 4; 5].

(** The check sum of [Toy] is not collision free: adding its modulus to a byte
    gives another leaf with the same digest, which the honest proof accepts. *)
Definition forged_leaf : bytes := (3 + (2 ^ 61 - 1)) :: replicate 31 3.

Definition honest_proof : MerkleProof :=
  default (mk_MerkleProof [] []) (build_merkle_proof sample_leaves 2).

Lemma merkle_proof_binding_witness :
  forged_leaf <> toy_key 3 /\
  (forged_leaf = toy_key 3 \/
   collision (hashed_inputs forged_leaf (mp_path honest_proof)) (hashed_inputs (toy_key 3) (mp_path honest_proof))).
Proof.
  split; [by_compute|].
  apply (merkle_proof_binding honest_proof honest_proof forged_leaf (toy_key 3)); try by_compute; done.
Defined.
End MerkleExamples.
