(* ===== verification/P2PState.v ===== *)
(** * The shared chain state

    Models [crates/p2p-consensus/src/state.rs] (its Merkle functions are in
    [Merkle]): the replicated [ChainState], its mutators and the state manager
    that installs a synchronised state.  Every method that reads the clock
    takes [now]. *)

From stdpp Require Import pretty.
From S2P Require Import Prelude Float64 Crypto Messages Merkle.

Inductive StateError : Type :=
| HashMismatch (expected actual : string)
| InvalidMerkleProof
| SequenceTooOld (current received : Z)
| StateSerialization (msg : string)
| ChallengeNotFound (id : string)
| StateInvalidSignature (msg : string).

#[global] Instance StateError_eq_dec : EqDecision StateError.
Proof. solve_decision. Defined.

(** ** Data *)

Record ValidatorEvaluation : Type := mk_ValidatorEvaluation {
  ve_score : f64;
  ve_stake : Z;
  ve_timestamp : Z;
  ve_signature : bytes
}.

Record EvaluationRecord : Type := mk_EvaluationRecord {
  er_submission_id : string;
  er_challenge_id : ChallengeId;
  er_miner : Hotkey;
  er_agent_hash : string;
  er_evaluations : gmap Hotkey ValidatorEvaluation;
  er_aggregated_score : option f64;
  er_finalized : bool;
  er_created_at : Z;
  er_finalized_at : option Z
}.

Record ChallengeConfig : Type := mk_ChallengeConfig {
  cc_id : ChallengeId;
  cc_name : string;
  cc_docker_image : string;
  cc_weight : Z;
  cc_is_active : bool;
  cc_creator : Hotkey;
  cc_created_at : Z
}.

Record WeightVotes : Type := mk_WeightVotes {
  wvs_epoch : Z;
  wvs_netuid : Z;
  wvs_votes : gmap Hotkey (list (Z * Z));
  wvs_finalized : bool;
  wvs_final_weights : option (list (Z * Z))
}.

Record ChainState : Type := mk_ChainState {
  cs_sequence : Z;
  cs_epoch : Z;
  cs_state_hash : bytes;
  cs_validators : gmap Hotkey Z;
  cs_challenges : gmap ChallengeId ChallengeConfig;
  cs_pending_evaluations : gmap string EvaluationRecord;
  cs_completed_evaluations : gmap Z (list EvaluationRecord);
  cs_weight_votes : option WeightVotes;
  cs_historical_weights : gmap Z (list (Z * Z));
  cs_sudo_key : Hotkey;
  cs_netuid : Z;
  cs_last_updated : Z;
  cs_bittensor_block : Z;
  cs_bittensor_block_hash : bytes
}.

(** Field updates. *)
Definition set_sequence (x : Z) (s : ChainState) : ChainState :=
  mk_ChainState x (cs_epoch s) (cs_state_hash s) (cs_validators s) (cs_challenges s)
    (cs_pending_evaluations s) (cs_completed_evaluations s) (cs_weight_votes s)
    (cs_historical_weights s) (cs_sudo_key s) (cs_netuid s) (cs_last_updated s)
    (cs_bittensor_block s) (cs_bittensor_block_hash s).
Definition set_epoch (x : Z) (s : ChainState) : ChainState :=
  mk_ChainState (cs_sequence s) x (cs_state_hash s) (cs_validators s) (cs_challenges s)
    (cs_pending_evaluations s) (cs_completed_evaluations s) (cs_weight_votes s)
    (cs_historical_weights s) (cs_sudo_key s) (cs_netuid s) (cs_last_updated s)
    (cs_bittensor_block s) (cs_bittensor_block_hash s).
Definition set_hash (x : bytes) (now : Z) (s : ChainState) : ChainState :=
  mk_ChainState (cs_sequence s) (cs_epoch s) x (cs_validators s) (cs_challenges s)
    (cs_pending_evaluations s) (cs_completed_evaluations s) (cs_weight_votes s)
    (cs_historical_weights s) (cs_sudo_key s) (cs_netuid s) now
    (cs_bittensor_block s) (cs_bittensor_block_hash s).
Definition set_validators (x : gmap Hotkey Z) (s : ChainState) : ChainState :=
  mk_ChainState (cs_sequence s) (cs_epoch s) (cs_state_hash s) x (cs_challenges s)
    (cs_pending_evaluations s) (cs_completed_evaluations s) (cs_weight_votes s)
    (cs_historical_weights s) (cs_sudo_key s) (cs_netuid s) (cs_last_updated s)
    (cs_bittensor_block s) (cs_bittensor_block_hash s).
Definition set_challenges (x : gmap Z ChallengeConfig) (s : ChainState) : ChainState :=
  mk_ChainState (cs_sequence s) (cs_epoch s) (cs_state_hash s) (cs_validators s) x
    (cs_pending_evaluations s) (cs_completed_evaluations s) (cs_weight_votes s)
    (cs_historical_weights s) (cs_sudo_key s) (cs_netuid s) (cs_last_updated s)
    (cs_bittensor_block s) (cs_bittensor_block_hash s).
Definition set_pending (x : gmap string EvaluationRecord) (s : ChainState) : ChainState :=
  mk_ChainState (cs_sequence s) (cs_epoch s) (cs_state_hash s) (cs_validators s)
    (cs_challenges s) x (cs_completed_evaluations s) (cs_weight_votes s)
    (cs_historical_weights s) (cs_sudo_key s) (cs_netuid s) (cs_last_updated s)
    (cs_bittensor_block s) (cs_bittensor_block_hash s).
Definition set_completed (x : gmap Z (list EvaluationRecord)) (s : ChainState) : ChainState :=
  mk_ChainState (cs_sequence s) (cs_epoch s) (cs_state_hash s) (cs_validators s)
    (cs_challenges s) (cs_pending_evaluations s) x (cs_weight_votes s)
    (cs_historical_weights s) (cs_sudo_key s) (cs_netuid s) (cs_last_updated s)
    (cs_bittensor_block s) (cs_bittensor_block_hash s).
Definition set_weight_votes (x : option WeightVotes) (s : ChainState) : ChainState :=
  mk_ChainState (cs_sequence s) (cs_epoch s) (cs_state_hash s) (cs_validators s)
    (cs_challenges s) (cs_pending_evaluations s) (cs_completed_evaluations s) x
    (cs_historical_weights s) (cs_sudo_key s) (cs_netuid s) (cs_last_updated s)
    (cs_bittensor_block s) (cs_bittensor_block_hash s).
Definition set_historical (x : gmap Z (list (Z * Z))) (s : ChainState) : ChainState :=
  mk_ChainState (cs_sequence s) (cs_epoch s) (cs_state_hash s) (cs_validators s)
    (cs_challenges s) (cs_pending_evaluations s) (cs_completed_evaluations s)
    (cs_weight_votes s) x (cs_sudo_key s) (cs_netuid s) (cs_last_updated s)
    (cs_bittensor_block s) (cs_bittensor_block_hash s).
Definition set_bittensor (block : Z) (h : bytes) (s : ChainState) : ChainState :=
  mk_ChainState (cs_sequence s) (cs_epoch s) (cs_state_hash s) (cs_validators s)
    (cs_challenges s) (cs_pending_evaluations s) (cs_completed_evaluations s)
    (cs_weight_votes s) (cs_historical_weights s) (cs_sudo_key s) (cs_netuid s)
    (cs_last_updated s) block h.

Definition set_er_evaluations (x : gmap Hotkey ValidatorEvaluation) (r : EvaluationRecord) :
    EvaluationRecord :=
  mk_EvaluationRecord (er_submission_id r) (er_challenge_id r) (er_miner r) (er_agent_hash r)
    x (er_aggregated_score r) (er_finalized r) (er_created_at r) (er_finalized_at r).

Definition finalize_record (score : f64) (now : Z) (r : EvaluationRecord) : EvaluationRecord :=
  mk_EvaluationRecord (er_submission_id r) (er_challenge_id r) (er_miner r) (er_agent_hash r)
    (er_evaluations r) (Some score) true (er_created_at r) (Some now).

Definition set_votes (x : gmap Hotkey (list (Z * Z))) (w : WeightVotes) : WeightVotes :=
  mk_WeightVotes (wvs_epoch w) (wvs_netuid w) x (wvs_finalized w) (wvs_final_weights w).

Definition finalize_votes (x : list (Z * Z)) (w : WeightVotes) : WeightVotes :=
  mk_WeightVotes (wvs_epoch w) (wvs_netuid w) (wvs_votes w) true (Some x).

(** [SUDO_KEY_BYTES] of [crates/core/src/constants.rs]. *)
Definition SUDO_KEY_BYTES : bytes :=
  [0xda; 0x22; 0x04; 0x09; 0x67; 0x8d; 0xf5; 0xf0; 0x60; 0x74; 0xa6; 0x71; 0xab; 0xdc; 0x1f; 0x19;
   0xbc; 0x2b; 0xa1; 0x51; 0x72; 0x9f; 0xdb; 0x9a; 0x8e; 0x4b; 0xe2; 0x84; 0xe6; 0x0c; 0x94; 0x01].

Definition MAX_HISTORICAL_EPOCHS : Z := 100.

Section chain_state.
Context `{External} `{HOh : !HashOrder Hotkey} `{HOz : !HashOrder Z}.

Definition ChainState_default (now : Z) : ChainState :=
  {| cs_sequence := 0;
     cs_epoch := 0;
     cs_state_hash := zero32;
     cs_validators := ∅;
     cs_challenges := ∅;
     cs_pending_evaluations := ∅;
     cs_completed_evaluations := ∅;
     cs_weight_votes := None;
     cs_historical_weights := ∅;
     cs_sudo_key := mk_Hotkey SUDO_KEY_BYTES;
     cs_netuid := 100;
     cs_last_updated := now;
     cs_bittensor_block := 0;
     cs_bittensor_block_hash := zero32 |}.

(** ** The state hash *)

Definition hash_input (s : ChainState) : serde :=
  SStruct [SU64 (cs_sequence s); SU64 (cs_epoch s);
           SU64 (Z.of_nat (size (cs_validators s)));
           SU64 (Z.of_nat (size (cs_challenges s)));
           SU64 (Z.of_nat (size (cs_pending_evaluations s)));
           SU16 (cs_netuid s)].

Definition compute_hash (s : ChainState) : bytes :=
  match hash_data (hash_input s) with Ok h => h | Err _ => zero32 end.

Definition update_hash (now : Z) (s : ChainState) : ChainState :=
  set_hash (compute_hash s) now s.

Definition ChainState_with_sudo (now : Z) (sudo_key : Hotkey) (netuid : Z) : ChainState :=
  let d := ChainState_default now in
  update_hash now
    (mk_ChainState (cs_sequence d) (cs_epoch d) (cs_state_hash d) (cs_validators d)
       (cs_challenges d) (cs_pending_evaluations d) (cs_completed_evaluations d)
       (cs_weight_votes d) (cs_historical_weights d) sudo_key netuid (cs_last_updated d)
       (cs_bittensor_block d) (cs_bittensor_block_hash d)).

Definition ChainState_new (now : Z) (netuid : Z) : ChainState :=
  ChainState_with_sudo now (mk_Hotkey SUDO_KEY_BYTES) netuid.

Definition increment_sequence (now : Z) (s : ChainState) : ChainState :=
  update_hash now (set_sequence (u64_add (cs_sequence s) 1) s).

Definition link_to_bittensor_block (now block_number : Z) (block_hash : bytes)
    (s : ChainState) : ChainState :=
  increment_sequence now (set_bittensor block_number block_hash s).

Definition is_sudo (s : ChainState) (hotkey : Hotkey) : bool :=
  bool_decide (cs_sudo_key s = hotkey).

(** ** Validators and challenges *)

Definition update_validator (now : Z) (hotkey : Hotkey) (stake : Z) (s : ChainState) : ChainState :=
  increment_sequence now (set_validators (<[hotkey := stake]> (cs_validators s)) s).

Definition state_remove_validator (now : Z) (hotkey : Hotkey) (s : ChainState) :
    bool * ChainState :=
  match cs_validators s !! hotkey with
  | Some _ =>
      (true, increment_sequence now (set_validators (delete hotkey (cs_validators s)) s))
  | None => (false, s)
  end.

Definition add_challenge (now : Z) (config : ChallengeConfig) (s : ChainState) : ChainState :=
  increment_sequence now (set_challenges (<[cc_id config := config]> (cs_challenges s)) s).

Definition remove_challenge (now : Z) (id : ChallengeId) (s : ChainState) :
    option ChallengeConfig * ChainState :=
  match cs_challenges s !! id with
  | Some c =>
      (Some c, increment_sequence now (set_challenges (delete id (cs_challenges s)) s))
  | None => (None, s)
  end.

(** ** Evaluations *)

Definition add_evaluation (now : Z) (record : EvaluationRecord) (s : ChainState) : ChainState :=
  increment_sequence now
    (set_pending (<[er_submission_id record := record]> (cs_pending_evaluations s)) s).

Definition evaluation_signing_data (submission_id : string) (score : f64) : serde :=
  SStruct [SStr submission_id; SF64 score].

(** Serialise and verify, with the errors the state methods report. *)
Definition verify_state_signature {S} (data : serde) (signer : Hotkey) (signature : bytes) :
    SE S StateError unit :=
  signing_bytes ← lift (result_map_err StateSerialization (bincode_serialize data));
  is_valid ← lift (result_map_err (fun e => StateInvalidSignature (MiniChainError_to_string e))
                     (SignedMessage_verify (mk_SignedMessage signing_bytes signature signer)));
  require is_valid (StateInvalidSignature (Hotkey_to_hex signer)).

Definition add_validator_evaluation (now : Z) (submission_id : string) (validator : Hotkey)
    (evaluation : ValidatorEvaluation) (signature : bytes) : SE ChainState StateError unit :=
  _ ← verify_state_signature
        (evaluation_signing_data submission_id (ve_score evaluation)) validator signature;
  s ← get_state;
  match cs_pending_evaluations s !! submission_id with
  | Some record =>
      modify (fun s => update_hash now (set_pending
        (<[submission_id := set_er_evaluations
             (<[validator := evaluation]> (er_evaluations record)) record]>
           (cs_pending_evaluations s)) s))
  | None => throw (ChallengeNotFound submission_id)
  end.

(** The accumulation loop of [finalize_evaluation]: only stakes of the
    validators map count. *)
Definition accumulate_evaluation (validators : gmap Hotkey Z)
    (acc : Z * f64) (entry : Hotkey * ValidatorEvaluation) : Z * f64 :=
  match validators !! entry.1 with
  | Some stake =>
      (u64_add acc.1 stake,
       f64_add acc.2 (f64_mul (ve_score entry.2) (f64_of_Z stake)))
  | None => acc
  end.

Definition evaluation_totals (validators : gmap Hotkey Z) (record : EvaluationRecord) : Z * f64 :=
  fold_left (accumulate_evaluation validators) (hm_iter (er_evaluations record)) (0, f64_zero).

Definition finalize_evaluation (now : Z) (submission_id : string) :
    SE ChainState StateError f64 :=
  s ← get_state;
  match cs_pending_evaluations s !! submission_id with
  | Some record =>
      let '(total_stake, weighted_sum) := evaluation_totals (cs_validators s) record in
      if total_stake =? 0 then mret f64_zero
      else
        let aggregated := f64_div weighted_sum (f64_of_Z total_stake) in
        let completed := finalize_record aggregated now record in
        _ ← modify (fun s => increment_sequence now
              (set_completed
                 (<[cs_epoch s := default [] (cs_completed_evaluations s !! cs_epoch s)
                                  ++ [completed]]> (cs_completed_evaluations s))
                 (set_pending (delete submission_id (cs_pending_evaluations s)) s)));
        mret aggregated
  | None => throw (ChallengeNotFound submission_id)
  end.

(** ** Weight votes *)

Definition weight_vote_signing_data (epoch netuid : Z) (weights : list (Z * Z)) : serde :=
  SStruct [SU64 epoch; SU16 netuid;
           SSeq ((fun p => STuple [SU16 p.1; SU16 p.2]) <$> weights)].

Definition new_votes (epoch netuid : Z) : WeightVotes :=
  {| wvs_epoch := epoch; wvs_netuid := netuid; wvs_votes := ∅;
     wvs_finalized := false; wvs_final_weights := None |}.

Definition add_weight_vote_verified (now : Z) (validator : Hotkey) (weights : list (Z * Z))
    (epoch : Z) (signature : bytes) : SE ChainState StateError unit :=
  s ← get_state;
  _ ← verify_state_signature (weight_vote_signing_data epoch (cs_netuid s) weights)
        validator signature;
  let votes := default (new_votes epoch (cs_netuid s)) (cs_weight_votes s) in
  if (wvs_epoch votes =? epoch) && negb (wvs_finalized votes) then
    modify (fun s => update_hash now
      (set_weight_votes (Some (set_votes (<[validator := weights]> (wvs_votes votes)) votes)) s))
  else modify (set_weight_votes (Some votes)).

(** One validator's vote folded into the per-UID sums. *)
Definition accumulate_vote (validators : gmap Hotkey Z)
    (acc : gmap Z f64 * Z) (entry : Hotkey * list (Z * Z)) : gmap Z f64 * Z :=
  let stake := default 0 (validators !! entry.1) in
  if stake =? 0 then acc
  else
    (fold_left (fun m '(uid, weight) =>
       <[uid := f64_add (default f64_zero (m !! uid))
                        (f64_mul (f64_of_Z weight) (f64_of_Z stake))]> m)
       entry.2 acc.1,
     u64_add acc.2 stake).

Definition vote_totals (validators : gmap Hotkey Z) (votes : WeightVotes) : gmap Z f64 * Z :=
  fold_left (accumulate_vote validators) (hm_iter (wvs_votes votes)) (∅, 0).

Definition normalize_votes (uid_weights : gmap Z f64) : list (Z * Z) :=
  let max_weight := fold_left f64_max (hm_values uid_weights) f64_zero in
  if f64_ltb f64_zero max_weight then
    (fun '(uid, w) =>
       (uid, f64_as_u16 (f64_mul (f64_div w max_weight) (f64_of_Z u16_max))))
      <$> hm_iter uid_weights
  else [].

Definition finalize_weights (now : Z) (s : ChainState) : option (list (Z * Z)) * ChainState :=
  match cs_weight_votes s with
  | None => (None, s)
  | Some votes =>
      if wvs_finalized votes then (wvs_final_weights votes, s)
      else
        let '(uid_weights, total_stake) := vote_totals (cs_validators s) votes in
        if total_stake =? 0 then (None, s)
        else
          let final_weights := normalize_votes uid_weights in
          (Some final_weights,
           increment_sequence now
             (set_historical (<[wvs_epoch votes := final_weights]> (cs_historical_weights s))
                (set_weight_votes (Some (finalize_votes final_weights votes)) s)))
  end.

(** ** Epochs *)

Definition next_epoch (now : Z) (s : ChainState) : ChainState :=
  let epoch := u64_add (cs_epoch s) 1 in
  let historical :=
    if MAX_HISTORICAL_EPOCHS <? Z.of_nat (size (cs_historical_weights s)) then
      let cutoff := u64_saturating_sub epoch MAX_HISTORICAL_EPOCHS in
      filter (fun kv => cutoff < kv.1) (cs_historical_weights s)
    else cs_historical_weights s in
  increment_sequence now
    (set_historical historical (set_weight_votes None (set_epoch epoch s))).

Definition get_aggregated_weights (s : ChainState) (epoch : Z) : list (string * f64) :=
  match cs_historical_weights s !! epoch with
  | Some weights =>
      (fun '(uid, weight) => (pretty uid, f64_div (f64_of_Z weight) (f64_of_Z u16_max)))
        <$> weights
  | None => []
  end.

(** ** The state manager *)

Definition apply_sync_state (now : Z) (new_state : ChainState) : SE ChainState StateError unit :=
  state ← get_state;
  if cs_sequence new_state <=? cs_sequence state then
    throw (SequenceTooOld (cs_sequence state) (cs_sequence new_state))
  else
    let verification_state := update_hash now new_state in
    if negb (bool_decide (cs_state_hash verification_state = cs_state_hash new_state)) then
      throw (HashMismatch (hex_encode (cs_state_hash new_state))
                          (hex_encode (cs_state_hash verification_state)))
    else modify (fun _ => new_state).
End chain_state.
