(* ===== verification/P2PStateProps.v ===== *)
(** * Properties of the shared chain state

    The state as a transition system with its hash invariant, what state
    synchronisation accepts, finalisation of evaluations and of epoch weights,
    and the bound on the weight history. *)

From S2P Require Import Prelude Float64 Crypto Messages Merkle P2PState.

Section steps.
Context `{External} `{HOh : !HashOrder Hotkey} `{HOz : !HashOrder Z}.

(** One call of a mutator of [ChainState] or of its manager. *)
Inductive chain_step (s : ChainState) : ChainState -> Prop :=
| step_update_validator now h stake : chain_step s (update_validator now h stake s)
| step_remove_validator now h : chain_step s (state_remove_validator now h s).2
| step_add_challenge now c : chain_step s (add_challenge now c s)
| step_remove_challenge now id : chain_step s (remove_challenge now id s).2
| step_add_evaluation now r : chain_step s (add_evaluation now r s)
| step_add_validator_evaluation now id h e sig :
    chain_step s (add_validator_evaluation now id h e sig s).2
| step_finalize_evaluation now id : chain_step s (finalize_evaluation now id s).2
| step_add_weight_vote now h w e sig :
    chain_step s (add_weight_vote_verified now h w e sig s).2
| step_finalize_weights now : chain_step s (finalize_weights now s).2
| step_next_epoch now : chain_step s (next_epoch now s)
| step_link now b h : chain_step s (link_to_bittensor_block now b h s)
| step_sync now new : chain_step s (apply_sync_state now new s).2.

(** The stored hash is the hash of the stored counters. *)
Definition hash_ok (s : ChainState) : Prop := cs_state_hash s = compute_hash s.

Lemma update_hash_ok now s : hash_ok (update_hash now s).
Proof. done. Qed.

Lemma increment_sequence_ok now s : hash_ok (increment_sequence now s).
Proof. done. Qed.

Lemma verify_state_signature_state {S} data h sig (s : S) :
  (verify_state_signature data h sig s).2 = s.
Proof.
  unfold verify_state_signature, mbind, SE_bind, lift, require.
  destruct (result_map_err _ _); [|done]. destruct (result_map_err _ _) as [[]|]; done.
Qed.

Lemma verify_state_signature_run {S} data h sig (s : S) :
  exists r, verify_state_signature data h sig s = (r, s).
Proof.
  exists (verify_state_signature data h sig s).1.
  rewrite <- (verify_state_signature_state data h sig s) at 3. by destruct (verify_state_signature _ _ _ _).
Qed.

(** What a step can do to the counters: leave them and the hash alone, rehash
    at the same sequence, rehash at the next one, or install a newer state
    whose hash was checked. *)
Inductive step_shape (s s' : ChainState) : Prop :=
| shape_same : cs_sequence s' = cs_sequence s -> cs_state_hash s' = cs_state_hash s ->
    compute_hash s' = compute_hash s -> step_shape s s'
| shape_rehash : cs_sequence s' = cs_sequence s -> hash_ok s' -> step_shape s s'
| shape_next : cs_sequence s' = u64_add (cs_sequence s) 1 -> hash_ok s' -> step_shape s s'
| shape_sync : cs_sequence s < cs_sequence s' -> hash_ok s' -> step_shape s s'.

Lemma chain_step_shape s s' : chain_step s s' -> step_shape s s'.
Proof.
  intros Hstep. destruct Hstep; try by apply shape_next.
  - unfold state_remove_validator. case_match; [by apply shape_next|by apply shape_same].
  - unfold remove_challenge. case_match; [by apply shape_next|by apply shape_same].
  - unfold add_validator_evaluation, mbind, SE_bind. simpl.
    edestruct (verify_state_signature_run (S:=ChainState)) as [[[]|] ->]; simpl;
      [|by apply shape_same].
    case_match; [by apply shape_rehash|by apply shape_same].
  - unfold finalize_evaluation, mbind, SE_bind. simpl. case_match; [|by apply shape_same].
    destruct (evaluation_totals _ _). case_match; [by apply shape_same|by apply shape_next].
  - unfold add_weight_vote_verified, mbind, SE_bind. simpl.
    edestruct (verify_state_signature_run (S:=ChainState)) as [[[]|] ->]; simpl;
      [|by apply shape_same].
    case_match; [by apply shape_rehash|by apply shape_same].
  - unfold finalize_weights. destruct (cs_weight_votes s); [|by apply shape_same].
    case_match; [by apply shape_same|]. destruct (vote_totals _ _).
    case_match; [by apply shape_same|by apply shape_next].
  - unfold apply_sync_state, mbind, SE_bind. simpl.
    destruct (Z.leb_spec (cs_sequence new) (cs_sequence s)); simpl; [by apply shape_same|].
    case_bool_decide as Hh; simpl; [by apply shape_sync|by apply shape_same].
Qed.

Lemma chain_step_hash_ok s s' : hash_ok s -> chain_step s s' -> hash_ok s'.
Proof.
  intros Hok Hstep. destruct (chain_step_shape s s' Hstep); try done.
  unfold hash_ok in *. congruence.
Qed.

Lemma reachable_hash_ok s0 s : hash_ok s0 -> rtc chain_step s0 s -> hash_ok s.
Proof. intros Hok. induction 1; eauto using chain_step_hash_ok. Qed.

(** In every state reachable from a fresh one by the mutators, the stored
    state hash is the hash of the state's own counters. *)
Theorem reachable_state_hash now sudo netuid s :
  rtc chain_step (ChainState_with_sudo now sudo netuid) s ->
  cs_state_hash s = compute_hash s.
Proof. by apply reachable_hash_ok. Qed.

(** Synchronisation installs a peer's state exactly when its sequence is
    newer and its hash matches its counters; a state another node reached with
    the mutators always passes the second check, and a refusal changes
    nothing. *)
Theorem sync_state_accepts now new cur :
  let '(r, s') := apply_sync_state now new cur in
  (r = Ok tt <-> cs_sequence cur < cs_sequence new /\ hash_ok new) /\
  (r = Ok tt -> s' = new) /\ (r <> Ok tt -> s' = cur).
Proof.
  unfold apply_sync_state, hash_ok, mbind, SE_bind. simpl.
  destruct (Z.leb_spec (cs_sequence new) (cs_sequence cur)); simpl.
  { repeat split; try done. intros [??]. lia. }
  change (compute_hash (update_hash now new)) with (compute_hash new).
  case_bool_decide as Hh; simpl; repeat split; try done; auto.
  intros [_ Hh']. by rewrite Hh' in Hh.
Qed.

(** The state hash covers only the sequence, the epoch, the network id and
    three map sizes: any validator table of the same size can be put in place
    of the real one in a synchronised state and it is still accepted. *)
Theorem sync_accepts_forged_stakes now cur new (forged : gmap Hotkey Z) :
  hash_ok new -> cs_sequence cur < cs_sequence new ->
  size forged = size (cs_validators new) ->
  apply_sync_state now (set_validators forged new) cur = (Ok tt, set_validators forged new).
Proof.
  intros Hok Hseq Hsize. unfold apply_sync_state, mbind, SE_bind. simpl.
  rewrite (proj2 (Z.leb_gt _ _)) by done.
  rewrite bool_decide_eq_true_2; [done|]. rewrite Hok.
  unfold compute_hash, hash_input. simpl. by rewrite Hsize.
Qed.

(** The sequence number never decreases: a mutator leaves it or adds one,
    and synchronisation only raises it, short of the wrap-around at 2^64. *)
Theorem chain_step_sequence s s' :
  0 <= cs_sequence s < u64_max -> chain_step s s' ->
  cs_sequence s <= cs_sequence s'.
Proof.
  intros Hr Hstep.
  assert (cs_sequence s <= u64_add (cs_sequence s) 1)
    by (rewrite u64_add_small; unfold u64_max in *; lia).
  destruct (chain_step_shape s s' Hstep); lia.
Qed.
End steps.

Section finalisation.
Context `{External} `{HOh : !HashOrder Hotkey} `{HOz : !HashOrder Z}.

(** Finalising an evaluation: an unknown submission is an error, a record
    without stake from known validators yields 0.0 and stays pending, and
    otherwise the record leaves the pending table, is appended, finalised with
    the stake-weighted score, to the completed records of the current epoch,
    and the sequence advances. *)
Theorem finalize_evaluation_effect now id s :
  let '(r, s') := finalize_evaluation now id s in
  match cs_pending_evaluations s !! id with
  | None => r = Err (ChallengeNotFound id) /\ s' = s
  | Some record =>
      let '(total, sum) := evaluation_totals (cs_validators s) record in
      if total =? 0 then r = Ok f64_zero /\ s' = s
      else
        let score := f64_div sum (f64_of_Z total) in
        r = Ok score /\ cs_pending_evaluations s' = delete id (cs_pending_evaluations s) /\
        cs_completed_evaluations s' !! cs_epoch s =
          Some (default [] (cs_completed_evaluations s !! cs_epoch s)
                ++ [finalize_record score now record]) /\
        (forall e, e <> cs_epoch s ->
           cs_completed_evaluations s' !! e = cs_completed_evaluations s !! e) /\
        cs_validators s' = cs_validators s /\
        cs_sequence s' = u64_add (cs_sequence s) 1
  end.
Proof.
  unfold finalize_evaluation, mbind, SE_bind. simpl.
  destruct (cs_pending_evaluations s !! id) as [record|]; [|done].
  destruct (evaluation_totals (cs_validators s) record) as [total sum].
  destruct (Z.eqb_spec total 0); simpl; [done|].
  rewrite lookup_insert_eq. repeat split. intros e He. by rewrite lookup_insert_ne.
Qed.

Lemma hm_iter_insert_agree {K V} `{HO : HashOrder K} (m : gmap K V) (h : K) (e e' : V) :
  hm_iter (<[h := e']> m) =
  (fun kv => if decide (kv.1 = h) then (h, e') else kv) <$> hm_iter (<[h := e]> m).
Proof.
  unfold hm_iter. rewrite !dom_insert_L.
  induction (key_order ({[h]} ∪ dom m)) as [|k l IH]; [done|]. csimpl.
  destruct (decide (k = h)) as [->|Hne].
  - rewrite !lookup_insert_eq. csimpl. rewrite IH. by case_decide.
  - rewrite !lookup_insert_ne by done. destruct (m !! k); csimpl; [|done].
    rewrite IH. by case_decide.
Qed.

Lemma accumulate_unknown validators (h : Hotkey) (e : ValidatorEvaluation) l acc :
  validators !! h = None ->
  fold_left (accumulate_evaluation validators)
    ((fun kv => if decide (kv.1 = h) then (h, e) else kv) <$> l) acc =
  fold_left (accumulate_evaluation validators) l acc.
Proof.
  intros Hh. revert acc. induction l as [|[k v] l IH]; intros acc; csimpl; [done|].
  rewrite IH. f_equal. case_decide; [|done]. simplify_eq/=.
  unfold accumulate_evaluation. simpl. by rewrite Hh.
Qed.

(** Stake-inflation resistance: an evaluation by a hotkey that is not in
    the validators map, whatever score and stake it claims, cannot change the
    score a submission is finalised with. *)
Theorem unknown_evaluator_ignored now id s record h (e e' : ValidatorEvaluation) :
  cs_validators s !! h = None ->
  let with_eval ev := set_pending (<[id := set_er_evaluations
                        (<[h := ev]> (er_evaluations record)) record]>
                          (cs_pending_evaluations s)) s in
  (finalize_evaluation now id (with_eval e)).1 = (finalize_evaluation now id (with_eval e')).1.
Proof.
  intros Hh. simpl. unfold finalize_evaluation, mbind, SE_bind. simpl.
  rewrite !lookup_insert_eq. simpl.
  assert (Heq : evaluation_totals (cs_validators s)
      (set_er_evaluations (<[h := e']> (er_evaluations record)) record) =
    evaluation_totals (cs_validators s)
      (set_er_evaluations (<[h := e]> (er_evaluations record)) record)).
  { unfold evaluation_totals. simpl. rewrite (hm_iter_insert_agree _ h e e').
    by apply accumulate_unknown. }
  rewrite Heq. clear Heq. destruct (evaluation_totals _ _) as [total sum].
  by destruct (total =? 0).
Qed.

(** Epoch weights are computed once: after a successful finalisation every
    further call answers the same vector and changes nothing, and the vector
    is the one recorded in the history. *)
Theorem finalize_weights_once now now' s w s' :
  (forall v, cs_weight_votes s = Some v -> wvs_finalized v = false) ->
  finalize_weights now s = (Some w, s') ->
  finalize_weights now' s' = (Some w, s') /\
  exists v, cs_weight_votes s = Some v /\ cs_historical_weights s' !! wvs_epoch v = Some w.
Proof.
  intros Hnf. unfold finalize_weights at 1.
  destruct (cs_weight_votes s) as [votes|] eqn:Hv; [|done].
  rewrite (Hnf votes) by done. destruct (vote_totals _ _) as [uids total].
  case_match; [done|]. intros [= <- <-]. split; [done|].
  exists votes. split; [done|]. simpl. apply lookup_insert_eq.
Qed.

(** A finalised weight vector lists each UID once, with weights that fit
    [u16]. *)
Theorem normalize_votes_wf (uid_weights : gmap Z f64) :
  NoDup (normalize_votes uid_weights).*1 /\
  Forall (fun p => is_u16 p.2 /\ is_Some (uid_weights !! p.1)) (normalize_votes uid_weights).
Proof.
  unfold normalize_votes. case_match; [|split; constructor].
  split.
  - rewrite <- list_fmap_compose.
    rewrite (list_fmap_ext _ fst) by (by intros ? []).
    rewrite fst_hm_iter. apply hm_keys_NoDup.
  - apply Forall_fmap, list.Forall_forall. intros [uid w] Hin%elem_of_hm_iter. simpl.
    split; [apply f64_as_u16_range|]. eauto.
Qed.

Lemma size_keys_in_interval {V} (m : gmap Z V) (lo hi : Z) :
  lo <= hi -> (forall k, is_Some (m !! k) -> lo < k <= hi) -> Z.of_nat (size m) <= hi - lo.
Proof.
  intros Hle Hk. rewrite <- size_dom.
  assert (Hsub : dom m ⊆ (list_to_set (seqZ (lo + 1) (hi - lo)) : gset Z)).
  { intros k Hin%elem_of_dom. apply elem_of_list_to_set, elem_of_seqZ.
    specialize (Hk k Hin). lia. }
  apply subseteq_size in Hsub. rewrite size_list_to_set in Hsub by apply NoDup_seqZ.
  rewrite length_seqZ in Hsub. lia.
Qed.

(** The weight history stays bounded: when no recorded epoch is ahead of the
    current one, at most 100 epochs are kept after an epoch transition. *)
Theorem next_epoch_history_bound now s :
  0 <= cs_epoch s < u64_max ->
  (forall k, is_Some (cs_historical_weights s !! k) -> 0 <= k <= cs_epoch s) ->
  Z.of_nat (size (cs_historical_weights (next_epoch now s))) <= MAX_HISTORICAL_EPOCHS.
Proof.
  intros He Hkeys. unfold next_epoch, increment_sequence, update_hash. simpl.
  destruct (Z.ltb_spec MAX_HISTORICAL_EPOCHS (Z.of_nat (size (cs_historical_weights s))))
    as [_|]; [|lia].
  rewrite u64_add_small by (unfold u64_max in *; lia).
  unfold u64_saturating_sub, MAX_HISTORICAL_EPOCHS in *.
  set (cut := Z.max 0 (cs_epoch s + 1 - 100)).
  transitivity (Z.max cut (cs_epoch s) - cut); [|lia].
  apply size_keys_in_interval; [lia|].
  intros k [w Hw]. apply map_lookup_filter_Some in Hw as [Hw Hlt]. simpl in Hlt.
  specialize (Hkeys k ltac:(eauto)). lia.
Qed.

(** The first accepted weight vote fixes the epoch of the whole round, and
    its epoch is not compared with the chain's: once a vote for [e] is in, a
    vote for another epoch, the current one included, is silently dropped. *)
Theorem first_vote_fixes_epoch now1 now2 s s1 s2 h1 w1 e sig1 h2 w2 e' sig2 r :
  cs_weight_votes s = None ->
  add_weight_vote_verified now1 h1 w1 e sig1 s = (Ok tt, s1) -> e' <> e ->
  add_weight_vote_verified now2 h2 w2 e' sig2 s1 = (r, s2) ->
  cs_weight_votes s2 = cs_weight_votes s1 /\
  (wvs_epoch <$> cs_weight_votes s1) = Some e.
Proof.
  intros Hnone. unfold add_weight_vote_verified, mbind, SE_bind. simpl.
  edestruct (verify_state_signature_run (S:=ChainState)) as [[[]|] ->]; simpl; [|done].
  rewrite Hnone. simpl. rewrite Z.eqb_refl. simpl. intros [= <-] Hne.
  edestruct (verify_state_signature_run (S:=ChainState)) as [[[]|] ->]; simpl;
    [|by intros [= <- <-]].
  destruct (Z.eqb_spec e e'); [congruence|]. simpl. by intros [= <- <-].
Qed.
End finalisation.

(** ** Concrete states *)

Module StateExamples.
Import Toy.

Definition kp (n : Z) : Keypair := mk_Keypair n None.
Definition hk (n : Z) : Hotkey := Keypair_hotkey (kp n).
Definition fresh_state : ChainState := ChainState_with_sudo 0 (hk 9) 100.

Definition eval_of (score : f64) : ValidatorEvaluation :=
  mk_ValidatorEvaluation score 0 0 [].

(** Three validators of stake 1 and a submission they scored 0.3, 0.1, 0.2. *)
Definition scored_record : EvaluationRecord :=
  mk_EvaluationRecord "sub" 1 (hk 7) "agent"
    (<[hk 1 := eval_of (f64_lit 3 10)]> (<[hk 2 := eval_of (f64_lit 1 10)]>
      (<[hk 3 := eval_of (f64_lit 2 10)]> ∅))) None false 0 None.

Definition scored_state : ChainState :=
  add_evaluation 3 scored_record
    (update_validator 2 (hk 3) 1 (update_validator 1 (hk 2) 1
      (update_validator 0 (hk 1) 1 fresh_state))).

Lemma reachable_state_hash_witness :
  cs_state_hash scored_state = compute_hash scored_state.
Proof.
  apply (reachable_state_hash 0 (hk 9) 100).
  eapply rtc_l; [apply (step_update_validator _ 0 (hk 1) 1)|].
  eapply rtc_l; [apply (step_update_validator _ 1 (hk 2) 1)|].
  eapply rtc_l; [apply (step_update_validator _ 2 (hk 3) 1)|].
  eapply rtc_l; [apply (step_add_evaluation _ 3 scored_record)|].
  apply rtc_refl.
Defined.

Definition forged_stakes : gmap Hotkey Z := {[hk 4 := 1000; hk 5 := 1; hk 6 := 1]}.

Lemma sync_accepts_forged_stakes_witness :
  apply_sync_state 5 (set_validators forged_stakes scored_state) fresh_state =
  (Ok tt, set_validators forged_stakes scored_state).
Proof.
  assert (Hok : hash_ok scored_state) by (unfold hash_ok; by_compute).
  assert (Hseq : cs_sequence fresh_state < cs_sequence scored_state) by by_compute.
  assert (Hsize : size forged_stakes = size (cs_validators scored_state)) by by_compute.
  exact (sync_accepts_forged_stakes 5 fresh_state scored_state forged_stakes Hok Hseq Hsize).
Defined.

Lemma chain_step_sequence_witness :
  cs_sequence scored_state <= cs_sequence (next_epoch 4 scored_state).
Proof.
  assert (Hr : 0 <= cs_sequence scored_state < u64_max) by by_compute.
  exact (chain_step_sequence _ _ Hr (step_next_epoch scored_state 4)).
Defined.

Lemma unknown_evaluator_ignored_witness :
  let with_eval ev := set_pending (<["sub" := set_er_evaluations
        (<[hk 8 := ev]> (er_evaluations scored_record)) scored_record]>
          (cs_pending_evaluations scored_state)) scored_state in
  (finalize_evaluation 4 "sub" (with_eval (eval_of f64_one))).1 =
  (finalize_evaluation 4 "sub" (with_eval (eval_of f64_zero))).1.
Proof.
  assert (Hh : cs_validators scored_state !! hk 8 = None) by by_compute.
  exact (unknown_evaluator_ignored 4 "sub" scored_state scored_record (hk 8) _ _ Hh).
Defined.

(** The aggregated score depends on the iteration order of a hash map,
    because double-precision addition is not associative: two nodes with the
    same state can finalise the same submission with different scores. *)
Theorem finalize_score_order_dependent :
  exists (O1 O2 : HashOrder Hotkey) (s : ChainState) a b,
    (finalize_evaluation (HOh:=O1) 4 "sub" s).1 = Ok a /\
    (finalize_evaluation (HOh:=O2) 4 "sub" s).1 = Ok b /\ f64_eqb a b = false.
Proof.
  exists (elements_order Hotkey), (reverse_order Hotkey), scored_state.
  eexists _, _. split; [by vm_compute|]. split; [by vm_compute|]. by vm_compute.
Qed.

(** A state in which validator 1 voted for UIDs 3 and 4 in epoch 0. *)
Definition vote_sig (p : Z) (weights : list (Z * Z)) (epoch : Z) : bytes :=
  toy_sign p (toy_serialize (weight_vote_signing_data epoch 100 weights)).

Definition voted_state : ChainState :=
  (add_weight_vote_verified 4 (hk 1) [(3, 10); (4, 20)] 0
     (vote_sig 1 [(3, 10); (4, 20)] 0) scored_state).2.

Definition final_vector : list (Z * Z) := [(3, 32767); (4, 65535)].

Lemma finalize_weights_once_witness :
  finalize_weights 6 (finalize_weights 5 voted_state).2 =
  (Some final_vector, (finalize_weights 5 voted_state).2).
Proof.
  assert (Hf : (wvs_finalized <$> cs_weight_votes voted_state) = Some false) by by_compute.
  assert (Hr : (finalize_weights 5 voted_state).1 = Some final_vector) by by_compute.
  assert (Hrun : finalize_weights 5 voted_state =
                 (Some final_vector, (finalize_weights 5 voted_state).2))
    by (rewrite <- Hr; apply surjective_pairing).
  refine (proj1 (finalize_weights_once 5 6 voted_state _ _ _ Hrun)).
  intros v Hv. rewrite Hv in Hf. by injection Hf.
Defined.

Lemma next_epoch_history_bound_witness :
  Z.of_nat (size (cs_historical_weights (next_epoch 7 (finalize_weights 5 voted_state).2)))
    <= MAX_HISTORICAL_EPOCHS.
Proof.
  assert (He : cs_epoch (finalize_weights 5 voted_state).2 = 0) by by_compute.
  assert (Hm : cs_historical_weights (finalize_weights 5 voted_state).2 =
               {[0 := final_vector]}) by by_compute.
  assert (Hr : 0 <= cs_epoch (finalize_weights 5 voted_state).2 < u64_max) by by_compute.
  refine (next_epoch_history_bound 7 (finalize_weights 5 voted_state).2 Hr _).
  intros k [w Hw]. rewrite Hm in Hw. apply lookup_singleton_Some in Hw as [<- _].
  rewrite He. lia.
Defined.

(** A hotkey that is no validator votes for epoch 77 while the chain is in
    epoch 0; validator 1's vote for epoch 0 is then dropped. *)
Definition captured_state : ChainState :=
  (add_weight_vote_verified 4 (hk 8) [(9, 1)] 77 (vote_sig 8 [(9, 1)] 77) scored_state).2.

Lemma first_vote_fixes_epoch_witness :
  let late := add_weight_vote_verified 5 (hk 1) [(3, 10)] 0 (vote_sig 1 [(3, 10)] 0)
                captured_state in
  late.1 = Ok tt /\ cs_weight_votes late.2 = cs_weight_votes captured_state.
Proof.
  cbv zeta. split; [by_compute|].
  assert (Hn : cs_weight_votes scored_state = None) by done.
  set (early := add_weight_vote_verified 4 (hk 8) [(9, 1)] 77 (vote_sig 8 [(9, 1)] 77)
                  scored_state).
  assert (H1 : early.1 = Ok tt) by (unfold early; by_compute).
  assert (Hrun : early = (Ok tt, captured_state))
    by (rewrite <- H1; apply surjective_pairing).
  exact (proj1 (first_vote_fixes_epoch 4 5 scored_state captured_state _ (hk 8) [(9, 1)] 77
    (vote_sig 8 [(9, 1)] 77) (hk 1) [(3, 10)] 0 (vote_sig 1 [(3, 10)] 0) _
    Hn Hrun ltac:(done) (surjective_pairing _))).
Defined.
End StateExamples.
