(* ===== verification/Consensus.v ===== *)
(** * The PBFT consensus engine

    Models [crates/p2p-consensus/src/consensus.rs].  [ConsensusEngine] holds
    what the engine keeps behind its own locks; the shared validator set, the
    shared chain state and the clock are the environment [Env] of a call.
    Every public method is one atomic operation: the node calls them holding
    the engine's write lock ([handle_network_event] of
    [bins/validator-node/src/main.rs]). *)

From S2P Require Import Prelude Float64 Crypto Messages Merkle Validators P2PState.

Inductive ConsensusError : Type :=
| NotLeader (view : Z)
| InvalidProposal (msg : string)
| InvalidSignature (msg : string)
| SequenceMismatch (expected actual : Z)
| ViewMismatch (expected actual : Z)
| NotEnoughVotes (needed have : nat)
| ConsensusTimeout
| ViewChangeInProgress
| AlreadyVoted.

#[global] Instance ConsensusError_eq_dec : EqDecision ConsensusError.
Proof. solve_decision. Defined.

Inductive ConsensusPhase : Type :=
| PhaseIdle
| PhasePrePrepare
| PhasePrepared
| PhaseCommitted
| PhaseViewChange.

#[global] Instance ConsensusPhase_eq_dec : EqDecision ConsensusPhase.
Proof. solve_decision. Defined.

(** The derived order of the phases. *)
Definition phase_rank (p : ConsensusPhase) : nat :=
  match p with
  | PhaseIdle => 0
  | PhasePrePrepare => 1
  | PhasePrepared => 2
  | PhaseCommitted => 3
  | PhaseViewChange => 4
  end.

Record ConsensusRound : Type := mk_ConsensusRound {
  rd_view : ViewNumber;
  rd_sequence : SequenceNumber;
  rd_phase : ConsensusPhase;
  rd_proposal : option ConsensusProposal;
  rd_pre_prepare : option PrePrepare;
  rd_prepares : gmap Hotkey PrepareMessage;
  rd_commits : gmap Hotkey CommitMessage;
  rd_proposal_hash : bytes;
  rd_local_prepared : bool;
  rd_local_committed : bool;
  rd_started_at : Z
}.

Definition ConsensusRound_new (now : Z) (view sequence : Z) : ConsensusRound :=
  {| rd_view := view;
     rd_sequence := sequence;
     rd_phase := PhaseIdle;
     rd_proposal := None;
     rd_pre_prepare := None;
     rd_prepares := ∅;
     rd_commits := ∅;
     rd_proposal_hash := zero32;
     rd_local_prepared := false;
     rd_local_committed := false;
     rd_started_at := now |}.

Definition set_phase (p : ConsensusPhase) (r : ConsensusRound) : ConsensusRound :=
  mk_ConsensusRound (rd_view r) (rd_sequence r) p (rd_proposal r) (rd_pre_prepare r)
    (rd_prepares r) (rd_commits r) (rd_proposal_hash r) (rd_local_prepared r)
    (rd_local_committed r) (rd_started_at r).
Definition set_pre_prepare (p : PrePrepare) (r : ConsensusRound) : ConsensusRound :=
  mk_ConsensusRound (rd_view r) (rd_sequence r) (rd_phase r) (rd_proposal r) (Some p)
    (rd_prepares r) (rd_commits r) (rd_proposal_hash r) (rd_local_prepared r)
    (rd_local_committed r) (rd_started_at r).
Definition insert_prepare (h : Hotkey) (p : PrepareMessage) (r : ConsensusRound) :
    ConsensusRound :=
  mk_ConsensusRound (rd_view r) (rd_sequence r) (rd_phase r) (rd_proposal r)
    (rd_pre_prepare r) (<[h := p]> (rd_prepares r)) (rd_commits r) (rd_proposal_hash r)
    (rd_local_prepared r) (rd_local_committed r) (rd_started_at r).
Definition insert_commit (h : Hotkey) (c : CommitMessage) (r : ConsensusRound) :
    ConsensusRound :=
  mk_ConsensusRound (rd_view r) (rd_sequence r) (rd_phase r) (rd_proposal r)
    (rd_pre_prepare r) (rd_prepares r) (<[h := c]> (rd_commits r)) (rd_proposal_hash r)
    (rd_local_prepared r) (rd_local_committed r) (rd_started_at r).
Definition set_local_prepared (r : ConsensusRound) : ConsensusRound :=
  mk_ConsensusRound (rd_view r) (rd_sequence r) (rd_phase r) (rd_proposal r)
    (rd_pre_prepare r) (rd_prepares r) (rd_commits r) (rd_proposal_hash r)
    true (rd_local_committed r) (rd_started_at r).
Definition set_local_committed (r : ConsensusRound) : ConsensusRound :=
  mk_ConsensusRound (rd_view r) (rd_sequence r) (rd_phase r) (rd_proposal r)
    (rd_pre_prepare r) (rd_prepares r) (rd_commits r) (rd_proposal_hash r)
    (rd_local_prepared r) true (rd_started_at r).

(** A round opened on a proposal: phase [PrePrepare], no votes yet. *)
Definition open_round (now view sequence : Z) (p : ConsensusProposal) (h : bytes) :
    ConsensusRound :=
  let r := ConsensusRound_new now view sequence in
  mk_ConsensusRound (rd_view r) (rd_sequence r) PhasePrePrepare (Some p) (rd_pre_prepare r)
    (rd_prepares r) (rd_commits r) h (rd_local_prepared r) (rd_local_committed r)
    (rd_started_at r).

Record ViewChangeState : Type := mk_ViewChangeState {
  vcs_new_view : ViewNumber;
  vcs_view_changes : gmap Hotkey ViewChangeMessage;
  vcs_started_at : Z
}.

Record ConsensusDecision : Type := mk_ConsensusDecision {
  cd_view : ViewNumber;
  cd_sequence : SequenceNumber;
  cd_content : ProposalContent;
  cd_commit_signatures : list (Hotkey * bytes)
}.

#[global] Instance ConsensusDecision_eq_dec : EqDecision ConsensusDecision.
Proof. solve_decision. Defined.

Section engine.
Context `{External} `{HO : !HashOrder Hotkey}.

Record ConsensusEngine : Type := mk_ConsensusEngine {
  ce_keypair : Keypair;
  ce_current_view : ViewNumber;
  ce_next_sequence : SequenceNumber;
  ce_current_round : option ConsensusRound;
  ce_view_change_state : option ViewChangeState;
  ce_decisions : gmap Z ConsensusDecision;
  ce_round_timeout_ms : Z;
  ce_view_change_timeout_ms : Z
}.

(** What a call reads besides the engine itself. *)
Record Env : Type := mk_Env {
  env_validator_set : ValidatorSet;
  env_state : ChainState;
  env_now : Z
}.

Abbreviation EngineM := (SE ConsensusEngine ConsensusError).

Definition ConsensusEngine_new (keypair : Keypair) : ConsensusEngine :=
  {| ce_keypair := keypair;
     ce_current_view := 0;
     ce_next_sequence := 1;
     ce_current_round := None;
     ce_view_change_state := None;
     ce_decisions := ∅;
     ce_round_timeout_ms := 30000;
     ce_view_change_timeout_ms := 60000 |}.

Definition set_round (r : option ConsensusRound) (e : ConsensusEngine) : ConsensusEngine :=
  mk_ConsensusEngine (ce_keypair e) (ce_current_view e) (ce_next_sequence e) r
    (ce_view_change_state e) (ce_decisions e) (ce_round_timeout_ms e)
    (ce_view_change_timeout_ms e).
Definition set_view_change (v : option ViewChangeState) (e : ConsensusEngine) :
    ConsensusEngine :=
  mk_ConsensusEngine (ce_keypair e) (ce_current_view e) (ce_next_sequence e)
    (ce_current_round e) v (ce_decisions e) (ce_round_timeout_ms e)
    (ce_view_change_timeout_ms e).

(** [if let Some(round) = self.current_round.write().as_mut() { ... }]. *)
Definition update_round (f : ConsensusRound -> ConsensusRound) (e : ConsensusEngine) :
    ConsensusEngine := set_round (f <$> ce_current_round e) e.

(** Entering a view: the view changes, the round and the view change end. *)
Definition enter_view (v : Z) (e : ConsensusEngine) : ConsensusEngine :=
  mk_ConsensusEngine (ce_keypair e) v (ce_next_sequence e) None None (ce_decisions e)
    (ce_round_timeout_ms e) (ce_view_change_timeout_ms e).

(** Storing a decision: the sequence advances and the round ends. *)
Definition record_decision (seq : Z) (d : ConsensusDecision) (e : ConsensusEngine) :
    ConsensusEngine :=
  mk_ConsensusEngine (ce_keypair e) (ce_current_view e) (u64_add (ce_next_sequence e) 1) None
    (ce_view_change_state e) (<[seq := d]> (ce_decisions e)) (ce_round_timeout_ms e)
    (ce_view_change_timeout_ms e).

Definition engine_quorum (env : Env) : nat :=
  quorum_size (env_now env) (env_validator_set env).

Definition engine_hotkey (e : ConsensusEngine) : Hotkey := Keypair_hotkey (ce_keypair e).

(** ** Signing and checking *)

Definition serialize (data : serde) : EngineM bytes :=
  lift (result_map_err InvalidProposal (bincode_serialize data)).

Definition sign (k : Keypair) (data : serde) : EngineM bytes :=
  signing_bytes ← serialize data;
  lift (result_map_err (fun e => InvalidProposal (MiniChainError_to_string e))
          (Keypair_sign_bytes k signing_bytes)).

(** [self.validator_set.verify_signature(..)?] and its [false] answer. *)
Definition check_validator_signature (env : Env) (signer : Hotkey) (data : serde)
    (signature : bytes) (bad : string) : EngineM unit :=
  signing_bytes ← serialize data;
  is_valid ← lift (result_map_err (fun e => InvalidSignature (ValidatorError_to_string e))
     (vs_verify_signature (env_validator_set env) signer signing_bytes signature));
  require is_valid (InvalidSignature bad).

(** The proposer's signature, checked without a registration lookup. *)
Definition check_proposer_signature (proposal : ConsensusProposal) : EngineM unit :=
  signing_bytes ← serialize (vote_signing_data (cp_view proposal) (cp_sequence proposal)
                               (pc_data_hash (cp_proposal proposal)));
  is_valid ← lift (result_map_err (fun e => InvalidSignature (MiniChainError_to_string e))
     (SignedMessage_verify
        (mk_SignedMessage signing_bytes (cp_signature proposal) (cp_proposer proposal))));
  require is_valid (InvalidSignature (Hotkey_to_hex (cp_proposer proposal))).

(** [ConfigUpdate] proposals need the sudo key. *)
Definition check_sudo (env : Env) (change_type : StateChangeType) (h : Hotkey) : EngineM unit :=
  require (negb (bool_decide (change_type = ConfigUpdate)) || is_sudo (env_state env) h)
    (InvalidProposal "ConfigUpdate requires sudo authorization").

(** ** Proposals *)

Definition create_proposal (env : Env) (change_type : StateChangeType) (data : bytes) :
    EngineM ConsensusProposal :=
  e ← get_state;
  let view := ce_current_view e in
  _ ← require (am_i_leader (env_now env) (env_validator_set env) view) (NotLeader view);
  _ ← check_sudo env change_type (engine_hotkey e);
  let sequence := ce_next_sequence e in
  let data_hash := sha256 data in
  let content := mk_ProposalContent change_type data data_hash in
  signature ← sign (ce_keypair e) (vote_signing_data view sequence data_hash);
  let proposal := mk_ConsensusProposal view sequence content (engine_hotkey e) signature
                    (env_now env) in
  _ ← modify (set_round (Some (open_round (env_now env) view sequence proposal data_hash)));
  mret proposal.

(** Our own prepare vote; recorded in the round without a check. *)
Definition create_prepare (view sequence : Z) (proposal_hash : bytes) : EngineM PrepareMessage :=
  e ← get_state;
  signature ← sign (ce_keypair e) (vote_signing_data view sequence proposal_hash);
  let prepare := mk_PrepareMessage view sequence proposal_hash (engine_hotkey e) signature in
  _ ← modify (update_round (fun r =>
        insert_prepare (engine_hotkey e) prepare (set_local_prepared r)));
  mret prepare.

Definition handle_proposal (env : Env) (proposal : ConsensusProposal) :
    EngineM PrepareMessage :=
  e ← get_state;
  let view := ce_current_view e in
  let sequence := ce_next_sequence e in
  _ ← require (cp_view proposal =? view) (ViewMismatch view (cp_view proposal));
  _ ← require (cp_sequence proposal =? sequence)
        (SequenceMismatch sequence (cp_sequence proposal));
  _ ← require (bool_decide (leader_for_view (env_now env) (env_validator_set env) view
                            = Some (cp_proposer proposal)))
        (InvalidProposal ("Proposer " +:+ Hotkey_debug (cp_proposer proposal)
                          +:+ " is not the leader"));
  let computed_hash := sha256 (pc_data (cp_proposal proposal)) in
  _ ← require (bool_decide (computed_hash = pc_data_hash (cp_proposal proposal)))
        (InvalidProposal "Data hash mismatch");
  _ ← check_proposer_signature proposal;
  _ ← check_sudo env (pc_change_type (cp_proposal proposal)) (cp_proposer proposal);
  _ ← modify (set_round (Some (open_round (env_now env) view sequence proposal computed_hash)));
  create_prepare view sequence computed_hash.

Definition create_pre_prepare (env : Env) (view sequence : Z) (proposal_hash : bytes) :
    EngineM PrePrepare :=
  e ← get_state;
  _ ← require (am_i_leader (env_now env) (env_validator_set env) view) (NotLeader view);
  signature ← sign (ce_keypair e) (vote_signing_data view sequence proposal_hash);
  let pre_prepare := mk_PrePrepare view sequence proposal_hash (engine_hotkey e) signature in
  _ ← modify (update_round (set_pre_prepare pre_prepare));
  mret pre_prepare.

(** ** Votes *)

Definition create_commit_internal (k : Keypair) (view sequence : Z) (proposal_hash : bytes) :
    EngineM CommitMessage :=
  signature ← sign k (vote_signing_data view sequence proposal_hash);
  mret (mk_CommitMessage view sequence proposal_hash (Keypair_hotkey k) signature).

Definition active_round : EngineM ConsensusRound :=
  e ← get_state;
  lift (ok_or (ce_current_round e) (InvalidProposal "No active round")).

Definition handle_prepare (env : Env) (prepare : PrepareMessage) :
    EngineM (option CommitMessage) :=
  e ← get_state;
  round ← active_round;
  _ ← require (pm_view prepare =? rd_view round) (ViewMismatch (rd_view round) (pm_view prepare));
  _ ← require (pm_sequence prepare =? rd_sequence round)
        (SequenceMismatch (rd_sequence round) (pm_sequence prepare));
  _ ← require (bool_decide (pm_proposal_hash prepare = rd_proposal_hash round))
        (InvalidProposal "Proposal hash mismatch");
  _ ← check_validator_signature env (pm_validator prepare)
        (vote_signing_data (pm_view prepare) (pm_sequence prepare) (pm_proposal_hash prepare))
        (pm_signature prepare) (Hotkey_to_hex (pm_validator prepare));
  _ ← require (bool_decide (rd_prepares round !! pm_validator prepare = None)) AlreadyVoted;
  let round := insert_prepare (pm_validator prepare) prepare round in
  _ ← modify (set_round (Some round));
  if (engine_quorum env <=? size (rd_prepares round))%nat
     && bool_decide (rd_phase round = PhasePrePrepare) then
    let round := set_local_committed (set_phase PhasePrepared round) in
    _ ← modify (set_round (Some round));
    commit ← create_commit_internal (ce_keypair e) (rd_view round) (rd_sequence round)
               (rd_proposal_hash round);
    _ ← modify (set_round (Some (insert_commit (engine_hotkey e) commit round)));
    mret (Some commit)
  else mret None.

(** The decision built from a round's proposal and its commits. *)
Definition decide_round (round : ConsensusRound) (proposal : ConsensusProposal) :
    ConsensusDecision :=
  {| cd_view := rd_view round;
     cd_sequence := rd_sequence round;
     cd_content := cp_proposal proposal;
     cd_commit_signatures :=
       (fun '(h, c) => (h, cm_signature c)) <$> hm_iter (rd_commits round) |}.

Definition handle_commit (env : Env) (commit : CommitMessage) :
    EngineM (option ConsensusDecision) :=
  round ← active_round;
  _ ← require (cm_view commit =? rd_view round) (ViewMismatch (rd_view round) (cm_view commit));
  _ ← require (cm_sequence commit =? rd_sequence round)
        (SequenceMismatch (rd_sequence round) (cm_sequence commit));
  _ ← require (bool_decide (cm_proposal_hash commit = rd_proposal_hash round))
        (InvalidProposal "Proposal hash mismatch");
  _ ← check_validator_signature env (cm_validator commit)
        (vote_signing_data (cm_view commit) (cm_sequence commit) (cm_proposal_hash commit))
        (cm_signature commit) (Hotkey_to_hex (cm_validator commit));
  _ ← require (bool_decide (rd_commits round !! cm_validator commit = None)) AlreadyVoted;
  let round := insert_commit (cm_validator commit) commit round in
  _ ← modify (set_round (Some round));
  if (engine_quorum env <=? size (rd_commits round))%nat
     && bool_decide (rd_phase round = PhasePrepared) then
    let round := set_phase PhaseCommitted round in
    _ ← modify (set_round (Some round));
    proposal ← lift (ok_or (rd_proposal round)
                       (InvalidProposal "No proposal in committed round"));
    let decision := decide_round round proposal in
    _ ← modify (record_decision (rd_sequence round) decision);
    mret (Some decision)
  else mret None.

(** ** View changes *)

Definition last_prepared (r : option ConsensusRound) : option Z * option PreparedProof :=
  match r with
  | Some r =>
      match rd_pre_prepare r with
      | Some pp =>
          if (phase_rank PhasePrepared <=? phase_rank (rd_phase r))%nat
          then (Some (rd_sequence r), Some (mk_PreparedProof pp (hm_values (rd_prepares r))))
          else (None, None)
      | None => (None, None)
      end
  | None => (None, None)
  end.

Definition initiate_view_change (env : Env) (new_view : Z) : EngineM ViewChangeMessage :=
  e ← get_state;
  _ ← require (ce_current_view e <? new_view)
        (ViewMismatch (u64_add (ce_current_view e) 1) new_view);
  let '(last_prepared_sequence, prepared_proof) := last_prepared (ce_current_round e) in
  signature ← sign (ce_keypair e) (view_change_signing_data new_view last_prepared_sequence);
  let view_change := mk_ViewChangeMessage new_view last_prepared_sequence prepared_proof
                       (engine_hotkey e) signature in
  _ ← modify (set_view_change (Some (mk_ViewChangeState new_view
        {[engine_hotkey e := view_change]} (env_now env))));
  mret view_change.

(** Counting the prepares of a proof whose signatures hold; a signer that is
    not registered aborts the count. *)
Fixpoint count_valid_prepares (env : Env) (prepares : list PrepareMessage) : EngineM nat :=
  match prepares with
  | [] => mret 0%nat
  | p :: rest =>
      signing_bytes ← serialize
        (vote_signing_data (pm_view p) (pm_sequence p) (pm_proposal_hash p));
      valid ← lift (result_map_err (fun e => InvalidSignature (ValidatorError_to_string e))
        (vs_verify_signature (env_validator_set env) (pm_validator p) signing_bytes
           (pm_signature p)));
      n ← count_valid_prepares env rest;
      mret (if valid : bool then S n else n)
  end.

Definition check_prepared_proof (env : Env) (proof : PreparedProof) : EngineM unit :=
  let pp := prf_pre_prepare proof in
  _ ← check_validator_signature env (pp_leader pp)
        (vote_signing_data (pp_view pp) (pp_sequence pp) (pp_proposal_hash pp))
        (pp_signature pp)
        ("Invalid PrePrepare signature from " +:+ Hotkey_to_hex (pp_leader pp));
  count ← count_valid_prepares env (prf_prepares proof);
  require (engine_quorum env <=? count)%nat (NotEnoughVotes (engine_quorum env) count).

Definition handle_view_change (env : Env) (view_change : ViewChangeMessage) :
    EngineM (option NewViewMessage) :=
  e ← get_state;
  _ ← check_validator_signature env (vc_validator view_change)
        (view_change_signing_data (vc_new_view view_change)
           (vc_last_prepared_sequence view_change))
        (vc_signature view_change) (Hotkey_to_hex (vc_validator view_change));
  _ ← match vc_prepared_proof view_change with
      | Some proof => check_prepared_proof env proof
      | None => mret tt
      end;
  let state := default (mk_ViewChangeState (vc_new_view view_change) ∅ (env_now env))
                 (ce_view_change_state e) in
  if vc_new_view view_change <? vcs_new_view state then mret None
  else
    let state := if vcs_new_view state <? vc_new_view view_change
                 then mk_ViewChangeState (vc_new_view view_change) ∅ (env_now env)
                 else state in
    let state := mk_ViewChangeState (vcs_new_view state)
                   (<[vc_validator view_change := view_change]> (vcs_view_changes state))
                   (vcs_started_at state) in
    _ ← modify (set_view_change (Some state));
    let new_view := vcs_new_view state in
    if (engine_quorum env <=? size (vcs_view_changes state))%nat
       && is_leader (env_now env) (env_validator_set env) (engine_hotkey e) new_view then
      signature ← sign (ce_keypair e) (new_view_signing_data new_view);
      let msg := mk_NewViewMessage new_view (hm_values (vcs_view_changes state))
                   (engine_hotkey e) signature in
      _ ← modify (enter_view new_view);
      mret (Some msg)
    else mret None.

(** The loop over the view changes carried by a new-view message. *)
Fixpoint check_view_changes (env : Env) (view : Z) (vcs : list ViewChangeMessage) :
    EngineM unit :=
  match vcs with
  | [] => mret tt
  | vc :: rest =>
      _ ← require (vc_new_view vc =? view) (ViewMismatch view (vc_new_view vc));
      _ ← check_validator_signature env (vc_validator vc)
            (view_change_signing_data (vc_new_view vc) (vc_last_prepared_sequence vc))
            (vc_signature vc) (Hotkey_to_hex (vc_validator vc));
      check_view_changes env view rest
  end.

Definition handle_new_view (env : Env) (new_view : NewViewMessage) : EngineM unit :=
  _ ← require (is_leader (env_now env) (env_validator_set env) (nv_leader new_view)
                 (nv_view new_view))
        (InvalidProposal (Hotkey_debug (nv_leader new_view) +:+ " is not the leader for view "
                          +:+ pretty.pretty (nv_view new_view)));
  _ ← check_validator_signature env (nv_leader new_view)
        (new_view_signing_data (nv_view new_view)) (nv_signature new_view)
        (Hotkey_to_hex (nv_leader new_view));
  _ ← require (engine_quorum env <=? length (nv_view_changes new_view))%nat
        (NotEnoughVotes (engine_quorum env) (length (nv_view_changes new_view)));
  _ ← check_view_changes env (nv_view new_view) (nv_view_changes new_view);
  modify (enter_view (nv_view new_view)).

(** ** Timeouts and queries *)

Definition check_timeout (now : Z) (e : ConsensusEngine) : bool :=
  match ce_current_round e with
  | Some round => ce_round_timeout_ms e <? now - rd_started_at round
  | None => false
  end.

Definition check_view_change_timeout (now : Z) (e : ConsensusEngine) : bool :=
  match ce_view_change_state e with
  | Some state => ce_view_change_timeout_ms e <? now - vcs_started_at state
  | None => false
  end.

Definition should_initiate_view_change (now : Z) (e : ConsensusEngine) : bool :=
  if check_timeout now e then true
  else if check_view_change_timeout now e then true
  else false.

Definition get_decision (e : ConsensusEngine) (sequence : Z) : option ConsensusDecision :=
  ce_decisions e !! sequence.
End engine.
