(* ===== verification/ConsensusInv.v ===== *)
(** * Invariants of the consensus engine

    The engine as a transition system, one transition per call of a public
    method in an arbitrary environment (the validator set, the chain state and
    the clock may change between calls), and the invariant its reachable
    states satisfy: the log of decisions has no gap, the open round belongs to
    the current view and the next sequence number, and every recorded vote and
    every decision carries valid signatures of distinct validators over one
    proposal hash. *)

From S2P Require Import Prelude Float64 Crypto Messages Merkle Validators P2PState Consensus.

Section invariants.
Context `{External} `{Laws : !ExternalLaws} `{HO : !HashOrder Hotkey}.
Implicit Types e : ConsensusEngine.

Inductive engine_step (env : Env) e : ConsensusEngine -> Prop :=
| es_create_proposal ct data : engine_step env e (create_proposal env ct data e).2
| es_handle_proposal p : engine_step env e (handle_proposal env p e).2
| es_create_pre_prepare v s h : engine_step env e (create_pre_prepare env v s h e).2
| es_handle_prepare p : engine_step env e (handle_prepare env p e).2
| es_handle_commit c : engine_step env e (handle_commit env c e).2
| es_initiate_view_change v : engine_step env e (initiate_view_change env v e).2
| es_handle_view_change vc : engine_step env e (handle_view_change env vc e).2
| es_handle_new_view nv : engine_step env e (handle_new_view env nv e).2.

Definition any_step e e' : Prop := exists env, engine_step env e e'.

(** A signature by [h] over the vote triple. *)
Definition vote_ok (h : Hotkey) (view sequence : Z) (hash sig : bytes) : Prop :=
  exists b, bincode_serialize (vote_signing_data view sequence hash) = Ok b /\
    sig_valid h b sig.

Definition proposal_ok (view sequence : Z) (hash : bytes) (p : ConsensusProposal) : Prop :=
  cp_view p = view /\ cp_sequence p = sequence /\
  pc_data_hash (cp_proposal p) = hash /\ sha256 (pc_data (cp_proposal p)) = hash.

Definition prepare_ok (r : ConsensusRound) (h : Hotkey) (m : PrepareMessage) : Prop :=
  pm_validator m = h /\ pm_view m = rd_view r /\ pm_sequence m = rd_sequence r /\
  pm_proposal_hash m = rd_proposal_hash r /\
  vote_ok h (rd_view r) (rd_sequence r) (rd_proposal_hash r) (pm_signature m).

Definition commit_ok (r : ConsensusRound) (h : Hotkey) (m : CommitMessage) : Prop :=
  cm_validator m = h /\ cm_view m = rd_view r /\ cm_sequence m = rd_sequence r /\
  cm_proposal_hash m = rd_proposal_hash r /\
  vote_ok h (rd_view r) (rd_sequence r) (rd_proposal_hash r) (cm_signature m).

(** The open round of an engine in [view] whose next sequence is [sequence]. *)
Record round_ok (view sequence : Z) (r : ConsensusRound) : Prop := {
  ro_view : rd_view r = view;
  ro_sequence : rd_sequence r = sequence;
  ro_phase : rd_phase r = PhasePrePrepare \/ rd_phase r = PhasePrepared;
  ro_proposal : exists p, rd_proposal r = Some p /\
    proposal_ok view sequence (rd_proposal_hash r) p;
  ro_prepares : map_Forall (prepare_ok r) (rd_prepares r);
  ro_commits : map_Forall (commit_ok r) (rd_commits r)
}.

Definition decision_ok (d : ConsensusDecision) : Prop :=
  sha256 (pc_data (cd_content d)) = pc_data_hash (cd_content d) /\
  NoDup (cd_commit_signatures d).*1 /\
  Forall (fun hs => vote_ok hs.1 (cd_view d) (cd_sequence d) (pc_data_hash (cd_content d)) hs.2)
    (cd_commit_signatures d).

(** A recorded view change: filed under its sender, for the view being
    collected, and signed. *)
Definition view_change_ok (view : Z) (h : Hotkey) (vc : ViewChangeMessage) : Prop :=
  vc_validator vc = h /\ vc_new_view vc = view /\
  exists b, bincode_serialize (view_change_signing_data view (vc_last_prepared_sequence vc)) = Ok b
    /\ sig_valid h b (vc_signature vc).

Record engine_inv e : Prop := {
  ei_next : 1 <= ce_next_sequence e;
  ei_log : forall s, is_Some (ce_decisions e !! s) <-> 1 <= s < ce_next_sequence e;
  ei_decisions : map_Forall (fun s d => cd_sequence d = s /\ decision_ok d) (ce_decisions e);
  ei_round : forall r, ce_current_round e = Some r ->
    round_ok (ce_current_view e) (ce_next_sequence e) r;
  ei_view_change : forall st, ce_view_change_state e = Some st ->
    map_Forall (view_change_ok (vcs_new_view st)) (vcs_view_changes st)
}.

(** ** Rules for the helper programs *)

Lemma wp_serialize data (Q : result ConsensusError bytes -> ConsensusEngine -> Prop) e :
  (forall b, bincode_serialize data = Ok b -> Q (Ok b) e) -> (forall err, Q (Err err) e) ->
  wp (serialize data) Q e.
Proof.
  intros Hok Herr. unfold serialize. wp_step. destruct (bincode_serialize data); simpl; auto.
Qed.

Lemma wp_sign k data (Q : result ConsensusError bytes -> ConsensusEngine -> Prop) e :
  (forall b, bincode_serialize data = Ok b -> Q (Ok (sr25519_sign (kp_pair k) b)) e) ->
  (forall err, Q (Err err) e) -> wp (sign k data) Q e.
Proof.
  intros Hok Herr. unfold sign. wp_step. apply wp_serialize; [|done].
  intros b Hb. wp_step. auto.
Qed.

Lemma wp_check_validator_signature env h data sig bad
    (Q : result ConsensusError unit -> ConsensusEngine -> Prop) e :
  (forall b, bincode_serialize data = Ok b -> is_validator (env_validator_set env) h = true ->
     sig_valid h b sig -> Q (Ok tt) e) ->
  (forall err, Q (Err err) e) ->
  wp (check_validator_signature env h data sig bad) Q e.
Proof.
  intros Hok Herr. unfold check_validator_signature. wp_step. apply wp_serialize; [|done].
  intros b Hb. wp_step. wp_step.
  destruct (vs_verify_signature _ _ _ _) as [valid|] eqn:Hv; simpl; [|done].
  wp_step; [|done]. subst valid. unfold vs_verify_signature in Hv.
  destruct (is_validator _ h) eqn:Hreg; simpl in Hv; [|done]. case_match; simplify_eq. eauto.
Qed.

Lemma wp_check_proposer_signature p
    (Q : result ConsensusError unit -> ConsensusEngine -> Prop) e :
  (vote_ok (cp_proposer p) (cp_view p) (cp_sequence p) (pc_data_hash (cp_proposal p))
     (cp_signature p) -> Q (Ok tt) e) ->
  (forall err, Q (Err err) e) -> wp (check_proposer_signature p) Q e.
Proof.
  intros Hok Herr. unfold check_proposer_signature. wp_step. apply wp_serialize; [|done].
  intros b Hb. wp_step. wp_step.
  destruct (SignedMessage_verify _) as [valid|] eqn:Hv; simpl; [|done].
  wp_step; [|done]. subst valid. apply Hok. exists b. by split.
Qed.

Lemma wp_check_sudo env ct h (Q : result ConsensusError unit -> ConsensusEngine -> Prop) e :
  ((ct = ConfigUpdate -> is_sudo (env_state env) h = true) -> Q (Ok tt) e) ->
  (forall err, Q (Err err) e) -> wp (check_sudo env ct h) Q e.
Proof.
  intros Hok Herr. unfold check_sudo. wp_step; [|done]. apply Hok. intros ->.
  rewrite bool_decide_eq_true_2 in * by done. done.
Qed.

Lemma wp_active_round (Q : result ConsensusError ConsensusRound -> ConsensusEngine -> Prop) e :
  (forall r, ce_current_round e = Some r -> Q (Ok r) e) -> (forall err, Q (Err err) e) ->
  wp active_round Q e.
Proof.
  intros Hok Herr. unfold active_round. wp_step. wp_step. wp_step.
  destruct (ce_current_round e); simpl; auto.
Qed.

Lemma wp_count_valid_prepares env l
    (Q : result ConsensusError nat -> ConsensusEngine -> Prop) e :
  (forall n, (n <= length l)%nat -> Q (Ok n) e) -> (forall err, Q (Err err) e) ->
  wp (count_valid_prepares env l) Q e.
Proof.
  revert Q. induction l as [|p l IH]; intros Q Hok Herr; simpl.
  - wp_step. auto.
  - wp_step. apply wp_serialize; [|done]. intros b Hb. wp_step. wp_step.
    destruct (result_map_err _ _); [|done]. wp_step. apply IH; [|done].
    intros n Hn. wp_step. apply Hok. case_match; simpl; lia.
Qed.

Lemma wp_check_prepared_proof env proof
    (Q : result ConsensusError unit -> ConsensusEngine -> Prop) e :
  Q (Ok tt) e -> (forall err, Q (Err err) e) -> wp (check_prepared_proof env proof) Q e.
Proof.
  intros Hok Herr. unfold check_prepared_proof. wp_step.
  apply wp_check_validator_signature; [|done]. intros. wp_step.
  apply wp_count_valid_prepares; [|done]. intros. by wp_step.
Qed.

Lemma wp_check_view_changes env view vcs
    (Q : result ConsensusError unit -> ConsensusEngine -> Prop) e :
  (Forall (fun vc => vc_new_view vc = view /\
     is_validator (env_validator_set env) (vc_validator vc) = true) vcs -> Q (Ok tt) e) ->
  (forall err, Q (Err err) e) -> wp (check_view_changes env view vcs) Q e.
Proof.
  revert Q. induction vcs as [|vc vcs IH]; intros Q Hok Herr; simpl.
  - wp_step. apply Hok. constructor.
  - wp_step. wp_step; [|done]. wp_step. apply wp_check_validator_signature; [|done].
    intros b _ Hreg _. apply IH; [|done]. intros Hall. apply Hok. constructor; [|done].
    split; [lia|done].
Qed.
End invariants.

(** Symbolic execution of the engine's programs. *)
Ltac engine_run :=
  repeat match goal with
  | |- wp (sign _ _) _ _ => apply wp_sign; [intros ??|intros ?]
  | |- wp (check_validator_signature _ _ _ _ _) _ _ =>
      apply wp_check_validator_signature; [intros ????|intros ?]
  | |- wp (check_proposer_signature _) _ _ =>
      apply wp_check_proposer_signature; [intros ?|intros ?]
  | |- wp (check_sudo _ _ _) _ _ => apply wp_check_sudo; [intros ?|intros ?]
  | |- wp active_round _ _ => apply wp_active_round; [intros ??|intros ?]
  | |- wp (check_prepared_proof _ _) _ _ => apply wp_check_prepared_proof; [|intros ?]
  | |- wp (check_view_changes _ _ _) _ _ => apply wp_check_view_changes; [intros ?|intros ?]
  | _ => wp_step
  end.

Section preservation.
Context `{External} `{Laws : !ExternalLaws} `{HO : !HashOrder Hotkey}.
Implicit Types e : ConsensusEngine.

(** ** State updates that keep the invariant *)

Lemma inv_set_round e r :
  engine_inv e -> round_ok (ce_current_view e) (ce_next_sequence e) r ->
  engine_inv (set_round (Some r) e).
Proof. intros [] Hr. split; simpl; auto. by intros ? [= <-]. Qed.

Lemma inv_set_view_change e st :
  engine_inv e -> map_Forall (view_change_ok (vcs_new_view st)) (vcs_view_changes st) ->
  engine_inv (set_view_change (Some st) e).
Proof. intros [] Hst. split; simpl; auto. by intros ? [= <-]. Qed.

Lemma inv_enter_view e v : engine_inv e -> engine_inv (enter_view v e).
Proof. intros []. by split. Qed.

Lemma round_ok_open env e p :
  proposal_ok (ce_current_view e) (ce_next_sequence e) (pc_data_hash (cp_proposal p)) p ->
  round_ok (ce_current_view e) (ce_next_sequence e)
    (open_round (env_now env) (ce_current_view e) (ce_next_sequence e) p
       (pc_data_hash (cp_proposal p))).
Proof.
  intros Hp. split; simpl; auto; [by eauto|..]; apply map_Forall_empty.
Qed.

Lemma round_ok_insert_prepare v s r h m :
  round_ok v s r -> prepare_ok r h m -> round_ok v s (insert_prepare h m r).
Proof. intros [] Hm. split; simpl; auto. by apply map_Forall_insert_2. Qed.

Lemma round_ok_insert_commit v s r h m :
  round_ok v s r -> commit_ok r h m -> round_ok v s (insert_commit h m r).
Proof. intros [] Hm. split; simpl; auto. by apply map_Forall_insert_2. Qed.

Lemma round_ok_local_prepared v s r : round_ok v s r -> round_ok v s (set_local_prepared r).
Proof. by intros []. Qed.

Lemma round_ok_pre_prepare v s r p : round_ok v s r -> round_ok v s (set_pre_prepare p r).
Proof. by intros []. Qed.

Lemma round_ok_prepared v s r :
  round_ok v s r -> round_ok v s (set_local_committed (set_phase PhasePrepared r)).
Proof. intros []. split; simpl; auto. Qed.

Lemma decide_round_ok v s r p :
  round_ok v s r -> rd_proposal r = Some p -> decision_ok (decide_round r p).
Proof.
  intros [Hv Hs _ (p' & Hp' & Hview & Hseq & Hhash & Hdata) _ Hc] Hp. simplify_eq.
  split; [simpl; congruence|]. split.
  - simpl. rewrite <- list_fmap_compose.
    rewrite (list_fmap_ext _ fst) by (by intros ? []).
    rewrite fst_hm_iter. apply hm_keys_NoDup.
  - simpl. apply Forall_fmap, list.Forall_forall. intros [h c] Hin%elem_of_hm_iter. simpl.
    destruct (Hc h c Hin) as (_ & _ & _ & _ & Hvote). by rewrite Hhash.
Qed.

Lemma inv_record_decision e r p :
  engine_inv e -> round_ok (ce_current_view e) (ce_next_sequence e) r ->
  rd_proposal r = Some p -> ce_next_sequence e < u64_max ->
  engine_inv (record_decision (rd_sequence r) (decide_round r p) e).
Proof.
  intros [Hn Hlog Hd _ Hvc] Hr Hp Hmax. pose proof (ro_sequence _ _ _ Hr) as Hseq.
  assert (Hadd : u64_add (ce_next_sequence e) 1 = ce_next_sequence e + 1)
    by (apply u64_add_small; unfold u64_max in *; lia).
  split; simpl; rewrite ?Hadd.
  - lia.
  - intros s. rewrite lookup_insert_is_Some, Hlog, Hseq. lia.
  - apply map_Forall_insert_2; [|done]. split; [done|]. by eapply decide_round_ok.
  - done.
  - done.
Qed.

Lemma prepare_ok_received r m b :
  pm_view m = rd_view r -> pm_sequence m = rd_sequence r ->
  pm_proposal_hash m = rd_proposal_hash r ->
  bincode_serialize (vote_signing_data (pm_view m) (pm_sequence m) (pm_proposal_hash m)) = Ok b ->
  sig_valid (pm_validator m) b (pm_signature m) -> prepare_ok r (pm_validator m) m.
Proof. intros Hv Hs Hh Hb Hsig. rewrite Hv, Hs, Hh in Hb. repeat split; auto. by exists b. Qed.

Lemma commit_ok_received r m b :
  cm_view m = rd_view r -> cm_sequence m = rd_sequence r ->
  cm_proposal_hash m = rd_proposal_hash r ->
  bincode_serialize (vote_signing_data (cm_view m) (cm_sequence m) (cm_proposal_hash m)) = Ok b ->
  sig_valid (cm_validator m) b (cm_signature m) -> commit_ok r (cm_validator m) m.
Proof. intros Hv Hs Hh Hb Hsig. rewrite Hv, Hs, Hh in Hb. repeat split; auto. by exists b. Qed.

(** ** Every handler keeps the invariant *)

(** The invariant afterwards, the log extended by at most the next entry. *)
Record keeps e e' : Prop := {
  k_inv : engine_inv e';
  k_next : ce_next_sequence e <= ce_next_sequence e' <= ce_next_sequence e + 1;
  k_log : ce_decisions e ⊆ ce_decisions e'
}.

Lemma keeps_refl e : engine_inv e -> keeps e e.
Proof. intros. by split; [|lia|]. Qed.

(** An update that leaves the log alone. *)
Lemma keeps_same_log e e' :
  engine_inv e' -> ce_next_sequence e' = ce_next_sequence e ->
  ce_decisions e' = ce_decisions e -> keeps e e'.
Proof. intros Hi Hn Hd. split; [done|lia|by rewrite Hd]. Qed.

Hint Resolve keeps_refl : platform.

Lemma create_proposal_inv env ct data e :
  engine_inv e -> wp (create_proposal env ct data) (fun _ e' => keeps e e') e.
Proof.
  intros Hinv. unfold create_proposal. engine_run; auto with platform.
  apply keeps_same_log; [|done..]. apply inv_set_round; [done|].
  match goal with |- round_ok _ _ (open_round _ _ _ ?p _) =>
    apply (round_ok_open env e p) end.
  by repeat split.
Qed.

Lemma create_prepare_inv e r :
  engine_inv e -> ce_current_round e = Some r ->
  wp (create_prepare (ce_current_view e) (ce_next_sequence e) (rd_proposal_hash r))
    (fun _ e' => keeps e e') e.
Proof.
  intros Hinv Hr. unfold create_prepare. engine_run; auto with platform.
  pose proof (ei_round e Hinv r Hr) as Hro. destruct Hro as [Hv Hs] eqn:E. clear E.
  unfold update_round. rewrite Hr. simpl. apply keeps_same_log; [|done..].
  apply inv_set_round; [done|].
  apply round_ok_insert_prepare; [by apply round_ok_local_prepared|].
  unfold prepare_ok. simpl. rewrite Hv, Hs. repeat split. eexists. split; [done|].
  apply sign_bytes_valid.
Qed.

Lemma handle_proposal_inv env p e :
  engine_inv e -> wp (handle_proposal env p) (fun _ e' => keeps e e') e.
Proof.
  intros Hinv. unfold handle_proposal. engine_run; auto with platform.
  rewrite ?bool_decide_eq_true, ?Z.eqb_eq in *.
  match goal with Hh : sha256 _ = _ |- _ => rewrite Hh end.
  set (e1 := set_round _ e).
  assert (Hinv1 : engine_inv e1).
  { apply inv_set_round; [done|]. apply (round_ok_open env e p). by repeat split. }
  refine (wp_consequence _ (fun _ e' => keeps e1 e') _ _
            (create_prepare_inv e1 _ Hinv1 eq_refl) _).
  by intros r e' [? ? ?].
Qed.

Lemma create_pre_prepare_inv env v s h e :
  engine_inv e -> wp (create_pre_prepare env v s h) (fun _ e' => keeps e e') e.
Proof.
  intros Hinv. unfold create_pre_prepare. engine_run; auto with platform.
  apply keeps_same_log; [|done..]. unfold update_round.
  destruct (ce_current_round e) as [r|] eqn:Hr; simpl; [|by destruct Hinv].
  apply inv_set_round; [done|]. by apply round_ok_pre_prepare, ei_round.
Qed.

Lemma set_round_twice r r' e : set_round r (set_round r' e) = set_round r e.
Proof. done. Qed.

Lemma handle_prepare_inv env p e :
  engine_inv e -> wp (handle_prepare env p) (fun _ e' => keeps e e') e.
Proof.
  intros Hinv. unfold handle_prepare, create_commit_internal. engine_run; auto with platform.
  all: rewrite ?bool_decide_eq_true, ?Z.eqb_eq in *; rewrite ?set_round_twice.
  all: assert (Hro : round_ok (ce_current_view e) (ce_next_sequence e)
                 (insert_prepare (pm_validator p) p r))
         by (apply round_ok_insert_prepare; [by apply ei_round|by eapply prepare_ok_received]).
  all: apply keeps_same_log; [|done..]; apply inv_set_round; [done|].
  - apply round_ok_insert_commit; [by apply round_ok_prepared|].
    repeat split. eexists. split; [done|]. apply sign_bytes_valid.
  - by apply round_ok_prepared.
  - done.
Qed.

Lemma handle_commit_inv env c e :
  engine_inv e -> ce_next_sequence e < u64_max ->
  wp (handle_commit env c) (fun _ e' => keeps e e') e.
Proof.
  intros Hinv Hmax. unfold handle_commit. engine_run; auto with platform.
  all: rewrite ?bool_decide_eq_true, ?Z.eqb_eq in *; rewrite ?set_round_twice.
  all: assert (Hro : round_ok (ce_current_view e) (ce_next_sequence e)
                 (insert_commit (cm_validator c) c r))
         by (apply round_ok_insert_commit; [by apply ei_round|by eapply commit_ok_received]).
  - destruct (rd_proposal r) as [p|] eqn:Hp; simplify_eq/=.
    pose proof (inv_record_decision e (insert_commit (cm_validator c) c r) _ Hinv Hro Hp Hmax)
      as [Hn Hlog Hd Hr Hvc].
    split; [by split| |].
    + simpl. rewrite u64_add_small by
        (pose proof (ei_next e Hinv); unfold u64_max in *; lia). lia.
    + simpl. apply insert_subseteq. apply eq_None_not_Some.
      rewrite (ei_log e Hinv), (ro_sequence _ _ _ Hro : rd_sequence r = _). lia.
  - exfalso. destruct (ro_proposal _ _ _ Hro) as (p & Hp & _). simpl in Hp.
    by rewrite Hp in *.
  - apply keeps_same_log; [by apply inv_set_round|done..].
Qed.

Lemma initiate_view_change_inv env v e :
  engine_inv e -> wp (initiate_view_change env v) (fun _ e' => keeps e e') e.
Proof.
  intros Hinv. unfold initiate_view_change. engine_run; auto with platform.
  apply keeps_same_log; [|done..]. apply inv_set_view_change; [done|]. simpl.
  apply map_Forall_singleton. repeat split. eexists. split; [done|]. apply sign_bytes_valid.
Qed.

(** The collection a view change is filed in: the current one, or a fresh one
    when there is none or when the message is for a higher view. *)
Lemma view_changes_inserted e env vc b :
  engine_inv e ->
  let st := default (mk_ViewChangeState (vc_new_view vc) ∅ (env_now env))
              (ce_view_change_state e) in
  let st' := if vcs_new_view st <? vc_new_view vc
             then mk_ViewChangeState (vc_new_view vc) ∅ (env_now env) else st in
  (vc_new_view vc <? vcs_new_view st) = false ->
  bincode_serialize (view_change_signing_data (vc_new_view vc) (vc_last_prepared_sequence vc))
    = Ok b -> sig_valid (vc_validator vc) b (vc_signature vc) ->
  map_Forall (view_change_ok (vcs_new_view st')) (<[vc_validator vc := vc]> (vcs_view_changes st')).
Proof.
  intros Hinv st st' Hge Hb Hsig.
  assert (Hst : map_Forall (view_change_ok (vcs_new_view st)) (vcs_view_changes st)).
  { unfold st. destruct (ce_view_change_state e) eqn:Hv; simpl; [by apply (ei_view_change e)|].
    apply map_Forall_empty. }
  apply Z.ltb_ge in Hge. unfold st'. destruct (Z.ltb_spec (vcs_new_view st) (vc_new_view vc)).
  - apply map_Forall_insert_2; [|apply map_Forall_empty]. repeat split. eauto.
  - apply map_Forall_insert_2; [|done]. assert (vc_new_view vc = vcs_new_view st) as Heq by lia.
    rewrite Heq in Hb. repeat split; [done|]. eauto.
Qed.

Lemma handle_view_change_inv env vc e :
  engine_inv e -> wp (handle_view_change env vc) (fun _ e' => keeps e e') e.
Proof.
  intros Hinv. unfold handle_view_change. engine_run; auto with platform.
  all: apply keeps_same_log; [|done..].
  all: try apply inv_enter_view; try apply inv_set_view_change; try done; simpl.
  all: match goal with
       | Hif : (if ?c then _ else _) = ?st |- context [vcs_new_view ?st] => rewrite <- Hif
       | _ => idtac
       end.
  all: by eapply view_changes_inserted.
Qed.

Lemma handle_new_view_inv env nv e :
  engine_inv e -> wp (handle_new_view env nv) (fun _ e' => keeps e e') e.
Proof.
  intros Hinv. unfold handle_new_view. engine_run; auto with platform.
  apply keeps_same_log; [by apply inv_enter_view|done..].
Qed.

Lemma engine_step_keeps env e e' :
  engine_inv e -> ce_next_sequence e < u64_max -> engine_step env e e' -> keeps e e'.
Proof.
  intros Hinv Hmax Hstep. destruct Hstep.
  - by apply (create_proposal_inv env ct data e).
  - by apply (handle_proposal_inv env p e).
  - by apply (create_pre_prepare_inv env v s h e).
  - by apply (handle_prepare_inv env p e).
  - by apply (handle_commit_inv env c e).
  - by apply (initiate_view_change_inv env v e).
  - by apply (handle_view_change_inv env vc e).
  - by apply (handle_new_view_inv env nv e).
Qed.

Lemma engine_new_inv k : engine_inv (ConsensusEngine_new k).
Proof.
  split; simpl; try done.
  intros s. rewrite lookup_empty. split; [by intros []|lia].
Qed.

(** Invariant of the states reachable in [n] calls, with room for the
    sequence number. *)
Lemma reachable_inv k n e :
  nsteps any_step n (ConsensusEngine_new k) e -> Z.of_nat n < u64_max - 1 ->
  engine_inv e /\ ce_next_sequence e <= 1 + Z.of_nat n.
Proof.
  revert e. induction n as [|n IH]; intros e Hs Hn.
  - inversion Hs; subst. split; [apply engine_new_inv|simpl; lia].
  - apply nsteps_inv_r in Hs as (e1 & Hs1 & env & Hstep).
    destruct (IH e1 Hs1) as [Hinv Hb]; [lia|].
    destruct (engine_step_keeps env e1 e Hinv) as [Hinv' Hb' _]; [lia|done|].
    split; [done|lia].
Qed.
End preservation.
