(* ===== verification/ConsensusProps.v ===== *)
(** * Properties of the consensus engine

    The decision log, the behaviour of the vote handlers on every branch,
    agreement up to accountable equivocation, liveness of a round whose votes
    arrive, and the acceptance of an honest leader's proposal. *)

From S2P Require Import Prelude Float64 Crypto Messages Merkle Validators ValidatorProps P2PState Consensus ConsensusInv.

Section properties.
Context `{External} `{Laws : !ExternalLaws} `{HO : !HashOrder Hotkey}.
Implicit Types e : ConsensusEngine.

(** [reaches k n e]: [e] is the engine of key [k] after [n] calls, few enough
    for the sequence number not to wrap. *)
Definition reaches (k : Keypair) (n : nat) e : Prop :=
  nsteps any_step n (ConsensusEngine_new k) e /\ Z.of_nat n < u64_max - 1.

Lemma reaches_inv k n e :
  reaches k n e -> engine_inv e /\ ce_next_sequence e < u64_max.
Proof. intros [Hs Hn]. destruct (reachable_inv k n e Hs Hn). split; [done|lia]. Qed.

Lemma steps_log k n m e e' :
  nsteps any_step n (ConsensusEngine_new k) e -> nsteps any_step m e e' ->
  Z.of_nat (n + m) < u64_max - 1 -> ce_decisions e ⊆ ce_decisions e'.
Proof.
  intros Hn. revert e'. induction m as [|m IH]; intros e' Hm Hb.
  - by inversion Hm; subst.
  - apply nsteps_inv_r in Hm as (e1 & Hm1 & env & Hstep).
    transitivity (ce_decisions e1); [apply IH; [done|lia]|].
    destruct (reachable_inv k (n + m) e1) as [Hinv Hle];
      [by eapply nsteps_trans|lia|].
    apply (k_log _ _ (engine_step_keeps env e1 e' Hinv ltac:(lia) Hstep)).
Qed.

(** ** The decision log *)

(** C6. The decision log of an engine has no gaps: after any calls, in any
    environments, the decided sequence numbers are exactly those below the
    next one. *)
Theorem decision_log_gap_free k n e s :
  reaches k n e -> is_Some (get_decision e s) <-> 1 <= s < ce_next_sequence e.
Proof. intros Hr. apply reaches_inv in Hr as [Hinv _]. apply (ei_log e Hinv). Qed.

(** C5. Decisions are final: whatever calls follow, a recorded decision is
    neither removed nor replaced. *)
Theorem decisions_immutable k n m e e' s d :
  nsteps any_step n (ConsensusEngine_new k) e -> nsteps any_step m e e' ->
  Z.of_nat (n + m) < u64_max - 1 ->
  get_decision e s = Some d -> get_decision e' s = Some d.
Proof. intros Hn Hm Hb Hd. eapply lookup_weaken; [exact Hd|]. by eapply steps_log. Qed.

(** A call in one of the environments [seen]. *)
Definition step_in (seen : Env -> Prop) e e' : Prop := exists env, seen env /\ engine_step env e e'.

(** Whose votes an engine of key [k] counts: its own, and those of hotkeys that
    were registered in the environment of some call. *)
Definition entitled (k : Keypair) (seen : Env -> Prop) (h : Hotkey) : Prop :=
  h = Keypair_hotkey k \/ exists env, seen env /\ is_validator (env_validator_set env) h = true.

Definition decision_sourced (k : Keypair) (seen : Env -> Prop) (d : ConsensusDecision) : Prop :=
  Forall (fun hs => entitled k seen hs.1) (cd_commit_signatures d) /\
  exists env, seen env /\ (engine_quorum env <= length (cd_commit_signatures d))%nat.

Record sourced (k : Keypair) (seen : Env -> Prop) e : Prop := {
  so_key : ce_keypair e = k;
  so_round : forall r, ce_current_round e = Some r -> map_Forall (fun h _ => entitled k seen h) (rd_commits r);
  so_decisions : map_Forall (fun _ d => decision_sourced k seen d) (ce_decisions e)
}.

Lemma length_decide_round r p :
  length (cd_commit_signatures (decide_round r p)) = size (rd_commits r).
Proof. simpl. by rewrite length_fmap, length_hm_iter. Qed.

Section sources.
Context (k : Keypair) (seen : Env -> Prop).

(** Updates that keep the votes counted so far. *)
Lemma sourced_set_round e r :
  sourced k seen e -> map_Forall (fun h _ => entitled k seen h) (rd_commits r) -> sourced k seen (set_round (Some r) e).
Proof. intros [] Hr. split; simpl; auto. by intros ? [= <-]. Qed.

Lemma sourced_open_round e now v s p h :
  sourced k seen e -> sourced k seen (set_round (Some (open_round now v s p h)) e).
Proof. intros He. apply sourced_set_round; [done|]. apply map_Forall_empty. Qed.

Lemma sourced_update_round e f :
  (forall r, rd_commits (f r) = rd_commits r) -> sourced k seen e -> sourced k seen (update_round f e).
Proof.
  intros Hf [Hk Hr Hd]. split; simpl; auto. intros r. destruct (ce_current_round e) as [r0|] eqn:Hr0; [|done].
  intros [= <-]. rewrite Hf. by apply Hr.
Qed.

Lemma sourced_view_change e st : sourced k seen e -> sourced k seen (set_view_change st e).
Proof. by intros []. Qed.

Lemma sourced_enter_view e v : sourced k seen e -> sourced k seen (enter_view v e).
Proof. by intros []. Qed.

Lemma sourced_decided env e r p :
  seen env -> sourced k seen e -> map_Forall (fun h _ => entitled k seen h) (rd_commits r) ->
  (engine_quorum env <= size (rd_commits r))%nat ->
  sourced k seen (record_decision (rd_sequence r) (decide_round r p) e).
Proof.
  intros Hs [Hk _ Hd] Hr Hq. split; simpl; [done|done|]. apply map_Forall_insert_2; [|done]. split.
  - simpl. apply Forall_fmap, list.Forall_forall. intros [h c] Hin%elem_of_hm_iter. apply (Hr h c Hin).
  - exists env. by rewrite length_decide_round.
Qed.

Lemma create_prepare_sourced e v s h :
  sourced k seen e -> wp (create_prepare v s h) (fun _ e' => sourced k seen e') e.
Proof. intros He. unfold create_prepare. engine_run; auto. by apply sourced_update_round. Qed.

Lemma handle_prepare_sourced env p e :
  sourced k seen e -> wp (handle_prepare env p) (fun _ e' => sourced k seen e') e.
Proof.
  intros He. unfold handle_prepare, create_commit_internal. engine_run; auto. all: rewrite ?set_round_twice.
  all: assert (Hc : map_Forall (fun h _ => entitled k seen h) (rd_commits r)) by (by apply (so_round _ _ _ He)).
  all: apply sourced_set_round; [done|]; try done.
  simpl. apply map_Forall_insert_2; [|done]. left. unfold engine_hotkey. by rewrite (so_key _ _ _ He).
Qed.

Lemma handle_commit_sourced env c e :
  seen env -> sourced k seen e -> wp (handle_commit env c) (fun _ e' => sourced k seen e') e.
Proof.
  intros Hs He. unfold handle_commit. engine_run; auto. all: rewrite ?set_round_twice.
  all: assert (Hc : map_Forall (fun h _ => entitled k seen h) (rd_commits r)) by (by apply (so_round _ _ _ He)).
  all: assert (Hc' : map_Forall (fun h _ => entitled k seen h) (<[cm_validator c := c]> (rd_commits r)))
         by (apply map_Forall_insert_2; [right; by exists env|done]).
  1: match goal with Hif : (_ && _)%bool = true |- _ => apply andb_true_iff in Hif as [Hq%Nat.leb_le _] end;
    by eapply (sourced_decided env e (set_phase _ (insert_commit _ _ r))).
  all: by apply sourced_set_round.
Qed.

Lemma engine_step_sourced env e e' :
  seen env -> sourced k seen e -> engine_step env e e' -> sourced k seen e'.
Proof.
  intros Hs He Hstep. destruct Hstep.
  - change (wp (create_proposal env ct data) (fun _ e' => sourced k seen e') e).
    unfold create_proposal. engine_run; auto. by apply sourced_open_round.
  - change (wp (handle_proposal env p) (fun _ e' => sourced k seen e') e).
    unfold handle_proposal. engine_run; auto. by apply create_prepare_sourced, sourced_open_round.
  - change (wp (create_pre_prepare env v s h) (fun _ e' => sourced k seen e') e).
    unfold create_pre_prepare. engine_run; auto. by apply sourced_update_round.
  - by apply (handle_prepare_sourced env p e).
  - by apply (handle_commit_sourced env c e).
  - change (wp (initiate_view_change env v) (fun _ e' => sourced k seen e') e).
    unfold initiate_view_change. engine_run; auto. by apply sourced_view_change.
  - change (wp (handle_view_change env vc) (fun _ e' => sourced k seen e') e).
    unfold handle_view_change. engine_run; auto; try apply sourced_enter_view; by apply sourced_view_change.
  - change (wp (handle_new_view env nv) (fun _ e' => sourced k seen e') e).
    unfold handle_new_view. engine_run; auto. by apply sourced_enter_view.
Qed.

Lemma steps_sourced n e : nsteps (step_in seen) n (ConsensusEngine_new k) e -> sourced k seen e.
Proof.
  revert e. induction n as [|n IH]; intros e Hs.
  - inversion Hs; subst. split; simpl; [done|done|]. apply map_Forall_empty.
  - apply nsteps_inv_r in Hs as (e1 & Hs1 & env & Henv & Hstep). by eapply engine_step_sourced; [|apply IH|].
Qed.
End sources.

(** C4. Every recorded decision is a certificate: it is filed under its own
    sequence number, its content hashes to the voted hash, and its signatures
    come from distinct hotkeys and verify over its view, sequence number and
    hash; each hotkey is the engine's own or was a registered validator in the
    environment of one of the calls, and there are at least as many as the
    quorum of one of these environments. *)
Theorem decision_certificate k seen n e s d :
  nsteps (step_in seen) n (ConsensusEngine_new k) e -> Z.of_nat n < u64_max - 1 ->
  get_decision e s = Some d -> cd_sequence d = s /\ decision_ok d /\ decision_sourced k seen d.
Proof.
  intros Hs Hn Hd. assert (Hr : reaches k n e).
  { split; [|done]. clear Hn Hd. induction Hs as [|m e1 e2 e3 (env & _ & Hstep) _ IH]; [constructor|].
    econstructor; [by exists env|done]. }
  apply reaches_inv in Hr as [Hinv _]. destruct (ei_decisions e Hinv s d Hd). split_and!; [done..|].
  apply (so_decisions _ _ _ (steps_sourced k seen n e Hs) s d Hd).
Qed.

(** ** The vote handlers, branch by branch *)

(** The signature check as a function: it never changes the engine, and it
    succeeds exactly for a registered signer's valid signature. *)
Lemma check_validator_signature_cases env h data sig bad e :
  let ok := is_validator (env_validator_set env) h = true /\
            exists b, bincode_serialize data = Ok b /\ sig_valid h b sig in
  (check_validator_signature env h data sig bad e = (Ok tt, e) /\ ok) \/
  (exists err, check_validator_signature env h data sig bad e = (Err err, e) /\ ~ ok).
Proof.
  unfold check_validator_signature, serialize, vs_verify_signature, sig_valid, mbind, SE_bind,
    lift, require. simpl.
  destruct (bincode_serialize data) as [b|] eqn:Hb; simpl;
    [|right; eexists; split; [done|]; by intros (_ & ? & ? & _)].
  destruct (is_validator _ h) eqn:Hv; simpl; [|right; eexists; split; [done|]; by intros [? _]].
  destruct (SignedMessage_verify _) as [[]|] eqn:Hs; simpl; [left; by eauto|right..];
    (eexists; split; [done|]; intros (_ & b' & [= <-] & Hs'); by rewrite Hs in Hs').
Qed.

(** What a vote must satisfy in round [r] to be recorded. *)
Record vote_acceptable (env : Env) (r : ConsensusRound) (voters : gset Hotkey)
    (view sequence : Z) (hash : bytes) (h : Hotkey) (sig : bytes) : Prop := {
  va_view : view = rd_view r;
  va_sequence : sequence = rd_sequence r;
  va_hash : hash = rd_proposal_hash r;
  va_registered : is_validator (env_validator_set env) h = true;
  va_signed : vote_ok h view sequence hash sig;
  va_fresh : h ∉ voters
}.

#[global] Instance vote_ok_dec h view sequence hash sig :
  Decision (vote_ok h view sequence hash sig).
Proof.
  destruct (bincode_serialize (vote_signing_data view sequence hash)) as [b|] eqn:Hb.
  - destruct (decide (SignedMessage_verify (mk_SignedMessage b sig h) = Ok true)) as [Hs|Hs].
    + left. by exists b.
    + right. intros (b' & Hb' & Hs'). rewrite Hb in Hb'. by injection Hb' as <-.
  - right. intros (b' & Hb' & _). by rewrite Hb in Hb'.
Defined.

#[global] Instance vote_acceptable_dec env r voters view sequence hash h sig :
  Decision (vote_acceptable env r voters view sequence hash h sig).
Proof.
  refine (cast_if (decide (view = rd_view r /\ sequence = rd_sequence r /\
    hash = rd_proposal_hash r /\ is_validator (env_validator_set env) h = true /\
    vote_ok h view sequence hash sig /\ h ∉ voters))); abstract (split || intros []; tauto).
Defined.

Definition prepare_acceptable (env : Env) (r : ConsensusRound) (m : PrepareMessage) : Prop :=
  vote_acceptable env r (dom (rd_prepares r)) (pm_view m) (pm_sequence m) (pm_proposal_hash m)
    (pm_validator m) (pm_signature m).

Definition commit_acceptable (env : Env) (r : ConsensusRound) (m : CommitMessage) : Prop :=
  vote_acceptable env r (dom (rd_commits r)) (cm_view m) (cm_sequence m) (cm_proposal_hash m)
    (cm_validator m) (cm_signature m).

(** The commit an engine casts for its round. *)
Definition own_commit e (r : ConsensusRound) (b : bytes) : CommitMessage :=
  mk_CommitMessage (rd_view r) (rd_sequence r) (rd_proposal_hash r) (engine_hotkey e)
    (sr25519_sign (kp_pair (ce_keypair e)) b).

Definition prepares_complete (env : Env) (r : ConsensusRound) : Prop :=
  (engine_quorum env <= size (rd_prepares r))%nat /\ rd_phase r = PhasePrePrepare.

Definition commits_complete (env : Env) (r : ConsensusRound) : Prop :=
  (engine_quorum env <= size (rd_commits r))%nat /\ rd_phase r = PhasePrepared.

Lemma handle_prepare_accept env m e r :
  ce_current_round e = Some r -> prepare_acceptable env r m ->
  let r1 := insert_prepare (pm_validator m) m r in
  exists b, bincode_serialize (vote_signing_data (rd_view r) (rd_sequence r)
                                 (rd_proposal_hash r)) = Ok b /\
  (prepares_complete env r1 -> handle_prepare env m e =
     (Ok (Some (own_commit e r b)),
      set_round (Some (insert_commit (engine_hotkey e) (own_commit e r b)
                         (set_local_committed (set_phase PhasePrepared r1)))) e)) /\
  (~ prepares_complete env r1 -> handle_prepare env m e = (Ok None, set_round (Some r1) e)).
Proof.
  intros Hr [Hv Hs Hh Hreg (b & Hb & Hsig) Hfresh] r1. exists b.
  assert (Hb' := Hb). rewrite Hv, Hs, Hh in Hb'. split; [done|].
  apply not_elem_of_dom in Hfresh.
  destruct (check_validator_signature_cases env (pm_validator m)
    (vote_signing_data (pm_view m) (pm_sequence m) (pm_proposal_hash m)) (pm_signature m)
    (Hotkey_to_hex (pm_validator m)) e) as [[Hc _]|(? & _ & []) ]; [|by eauto].
  unfold handle_prepare, create_commit_internal, sign, serialize, active_round, mbind, SE_bind,
    get_state, lift, require, modify, prepares_complete. rewrite Hr. simpl.
  rewrite (proj2 (Z.eqb_eq _ _) Hv), (proj2 (Z.eqb_eq _ _) Hs), (bool_decide_eq_true_2 _ Hh), Hc.
  rewrite (bool_decide_eq_true_2 _ Hfresh). fold r1. split.
  - intros [Hq Hp]. rewrite (proj2 (Nat.leb_le _ _) Hq), (bool_decide_eq_true_2 _ Hp). simpl.
    by rewrite Hb'.
  - intros Hn. destruct (_ && _)%bool eqn:Hc'; [|done]. destruct Hn.
    by apply andb_true_iff in Hc' as [?%Nat.leb_le ?%bool_decide_eq_true].
Qed.

Lemma handle_commit_accept env m e r p :
  ce_current_round e = Some r -> commit_acceptable env r m -> rd_proposal r = Some p ->
  let r1 := insert_commit (cm_validator m) m r in
  let d := decide_round (set_phase PhaseCommitted r1) p in
  (commits_complete env r1 -> handle_commit env m e =
     (Ok (Some d), record_decision (rd_sequence r) d e)) /\
  (~ commits_complete env r1 -> handle_commit env m e = (Ok None, set_round (Some r1) e)).
Proof.
  intros Hr [Hv Hs Hh Hreg Hsig Hfresh] Hprop r1 d. apply not_elem_of_dom in Hfresh.
  destruct (check_validator_signature_cases env (cm_validator m)
    (vote_signing_data (cm_view m) (cm_sequence m) (cm_proposal_hash m)) (cm_signature m)
    (Hotkey_to_hex (cm_validator m)) e) as [[Hc _]|(? & _ & []) ]; [|by eauto].
  unfold handle_commit, active_round, mbind, SE_bind,
    get_state, lift, require, modify, commits_complete. rewrite Hr. simpl.
  rewrite (proj2 (Z.eqb_eq _ _) Hv), (proj2 (Z.eqb_eq _ _) Hs), (bool_decide_eq_true_2 _ Hh), Hc.
  rewrite (bool_decide_eq_true_2 _ Hfresh). split.
  - intros [Hq Hp]. rewrite (proj2 (Nat.leb_le _ _) Hq), (bool_decide_eq_true_2 _ Hp). simpl.
    by rewrite Hprop.
  - intros Hn. destruct (_ && _)%bool eqn:Hc'; [|done]. destruct Hn.
    by apply andb_true_iff in Hc' as [?%Nat.leb_le ?%bool_decide_eq_true].
Qed.

#[global] Instance prepares_complete_dec env r : Decision (prepares_complete env r).
Proof. unfold prepares_complete. apply _. Defined.
#[global] Instance commits_complete_dec env r : Decision (commits_complete env r).
Proof. unfold commits_complete. apply _. Defined.

(** A vote that is not acceptable is refused and changes nothing. *)
Lemma handle_prepare_refuse env m e :
  (forall r, ce_current_round e = Some r -> ~ prepare_acceptable env r m) ->
  exists err, handle_prepare env m e = (Err err, e).
Proof.
  intros Hno. unfold handle_prepare, active_round, mbind, SE_bind, get_state, lift, require.
  simpl. destruct (ce_current_round e) as [r|]; simpl; [|by eauto].
  destruct (pm_view m =? rd_view r) eqn:Hv; [apply Z.eqb_eq in Hv|by eauto].
  destruct (pm_sequence m =? rd_sequence r) eqn:Hs; [apply Z.eqb_eq in Hs|by eauto].
  case_bool_decide as Hh; [|by eauto].
  destruct (check_validator_signature_cases env (pm_validator m)
    (vote_signing_data (pm_view m) (pm_sequence m) (pm_proposal_hash m)) (pm_signature m)
    (Hotkey_to_hex (pm_validator m)) e) as [[-> [Hreg Hsig]]|(? & -> & _) ]; [|by eauto].
  case_bool_decide as Hfresh; [|by eauto]. apply not_elem_of_dom in Hfresh.
  destruct (Hno r eq_refl). by split.
Qed.

Lemma handle_commit_refuse env m e :
  (forall r, ce_current_round e = Some r -> ~ commit_acceptable env r m) ->
  exists err, handle_commit env m e = (Err err, e).
Proof.
  intros Hno. unfold handle_commit, active_round, mbind, SE_bind, get_state, lift, require.
  simpl. destruct (ce_current_round e) as [r|]; simpl; [|by eauto].
  destruct (cm_view m =? rd_view r) eqn:Hv; [apply Z.eqb_eq in Hv|by eauto].
  destruct (cm_sequence m =? rd_sequence r) eqn:Hs; [apply Z.eqb_eq in Hs|by eauto].
  case_bool_decide as Hh; [|by eauto].
  destruct (check_validator_signature_cases env (cm_validator m)
    (vote_signing_data (cm_view m) (cm_sequence m) (cm_proposal_hash m)) (cm_signature m)
    (Hotkey_to_hex (cm_validator m)) e) as [[-> [Hreg Hsig]]|(? & -> & _) ]; [|by eauto].
  case_bool_decide as Hfresh; [|by eauto]. apply not_elem_of_dom in Hfresh.
  destruct (Hno r eq_refl). by split.
Qed.

(** [handle_prepare] on every branch: a prepare that is not for the open
    round, not from a registered validator, badly signed or repeated is
    refused and changes nothing; any other is recorded, and the one that
    completes the quorum in the pre-prepare phase, and only it, moves the
    round to the prepared phase and yields our own signed commit. *)
Theorem handle_prepare_effect env m e :
  match handle_prepare env m e with
  | (Err _, e') =>
      e' = e /\ forall r, ce_current_round e = Some r -> ~ prepare_acceptable env r m
  | (Ok c, e') => exists r, ce_current_round e = Some r /\ prepare_acceptable env r m /\
      let r1 := insert_prepare (pm_validator m) m r in
      match c with
      | None => ~ prepares_complete env r1 /\ e' = set_round (Some r1) e
      | Some c => prepares_complete env r1 /\ commit_ok r (engine_hotkey e) c /\
          e' = set_round (Some (insert_commit (engine_hotkey e) c
                 (set_local_committed (set_phase PhasePrepared r1)))) e
      end
  end.
Proof.
  destruct (ce_current_round e) as [r|] eqn:Hr;
    [destruct (decide (prepare_acceptable env r m)) as [Ha|Ha]|].
  2, 3: destruct (handle_prepare_refuse env m e) as [err ->]; [naive_solver|];
    split; [done|naive_solver].
  destruct (handle_prepare_accept env m e r Hr Ha) as (b & Hb & Hyes & Hno).
  destruct (decide (prepares_complete env (insert_prepare (pm_validator m) m r))) as [Hq|Hq].
  - rewrite (Hyes Hq). exists r. split; [done|]. split; [done|]. simpl. split; [done|].
    split; [|done]. repeat split. exists b. split; [done|]. apply sign_bytes_valid.
  - rewrite (Hno Hq). by exists r.
Qed.

Lemma handle_commit_decided k n env m e d e' :
  reaches k n e -> handle_commit env m e = (Ok (Some d), e') ->
  decision_ok d /\ (engine_quorum env <= length (cd_commit_signatures d))%nat /\
  (exists r, ce_current_round e = Some r /\ Some (cd_content d) = cp_proposal <$> rd_proposal r) /\
  cd_view d = ce_current_view e /\ cd_sequence d = ce_next_sequence e /\
  get_decision e' (ce_next_sequence e) = Some d /\
  ce_next_sequence e' = ce_next_sequence e + 1 /\ ce_current_round e' = None.
Proof.
  intros Hreach Hrun. apply reaches_inv in Hreach as [Hinv Hmax].
  destruct (ce_current_round e) as [r|] eqn:Hr;
    [destruct (decide (commit_acceptable env r m)) as [Ha|Ha]|].
  2, 3: destruct (handle_commit_refuse env m e) as [err Herr]; [naive_solver|congruence].
  pose proof (ei_round e Hinv r Hr) as Hro. destruct (ro_proposal _ _ _ Hro) as (p & Hp & _).
  destruct (handle_commit_accept env m e r p Hr Ha Hp) as [Hyes Hno].
  destruct (decide (commits_complete env (insert_commit (cm_validator m) m r))) as [Hq|Hq];
    [rewrite (Hyes Hq) in Hrun|rewrite (Hno Hq) in Hrun; congruence].
  injection Hrun as <- <-.
  assert (Hro1 : round_ok (ce_current_view e) (ce_next_sequence e)
            (insert_commit (cm_validator m) m r)).
  { apply round_ok_insert_commit; [done|]. destruct Ha as [Hv Hs Hh _ Hsig _].
    rewrite Hv, Hs, Hh in Hsig. by repeat split. }
  split; [exact (decide_round_ok _ _ _ p Hro1 Hp)|].
  split; [rewrite length_decide_round; apply Hq|]. split; [exists r; by rewrite Hp|].
  unfold get_decision. simpl. rewrite (ro_view _ _ _ Hro), (ro_sequence _ _ _ Hro).
  rewrite lookup_insert_eq, u64_add_small; [done|].
  pose proof (ei_next e Hinv). unfold u64_max in *. lia.
Qed.

(** C3. [handle_commit] on every branch, in a reachable engine: a commit that
    is not acceptable is refused and changes nothing; any other is recorded,
    and the one that completes the quorum of a prepared round decides the
    round's proposal at the next sequence number, with at least a quorum of
    signatures by distinct validators, closes the round and advances the
    sequence by one. *)
Theorem handle_commit_effect k n env m e :
  reaches k n e ->
  match handle_commit env m e with
  | (Err _, e') =>
      e' = e /\ forall r, ce_current_round e = Some r -> ~ commit_acceptable env r m
  | (Ok d, e') => exists r, ce_current_round e = Some r /\ commit_acceptable env r m /\
      let r1 := insert_commit (cm_validator m) m r in
      match d with
      | None => ~ commits_complete env r1 /\ e' = set_round (Some r1) e
      | Some d => commits_complete env r1 /\ decision_ok d /\
          (engine_quorum env <= length (cd_commit_signatures d))%nat /\
          Some (cd_content d) = cp_proposal <$> rd_proposal r /\
          cd_view d = ce_current_view e /\ cd_sequence d = ce_next_sequence e /\
          get_decision e' (ce_next_sequence e) = Some d /\
          ce_next_sequence e' = ce_next_sequence e + 1 /\ ce_current_round e' = None
      end
  end.
Proof.
  intros Hreach. pose proof (reaches_inv k n e Hreach) as [Hinv _].
  destruct (ce_current_round e) as [r|] eqn:Hr;
    [destruct (decide (commit_acceptable env r m)) as [Ha|Ha]|].
  2, 3: destruct (handle_commit_refuse env m e) as [err ->]; [naive_solver|];
    split; [done|naive_solver].
  destruct (ro_proposal _ _ _ (ei_round e Hinv r Hr)) as (p & Hp & _).
  destruct (handle_commit_accept env m e r p Hr Ha Hp) as [Hyes Hno].
  destruct (decide (commits_complete env (insert_commit (cm_validator m) m r))) as [Hq|Hq];
    [|rewrite (Hno Hq); by exists r].
  destruct (handle_commit_decided k n env m e _ _ Hreach (Hyes Hq))
    as (? & ? & (r' & Hr' & ?) & ?).
  rewrite (Hyes Hq). exists r. by simplify_eq.
Qed.

(** ** Agreement *)

Definition signers (d : ConsensusDecision) : gset Hotkey :=
  list_to_set (cd_commit_signatures d).*1.

Definition decided_hash (d : ConsensusDecision) : bytes := pc_data_hash (cd_content d).

Lemma size_signers d :
  decision_ok d -> size (signers d) = length (cd_commit_signatures d).
Proof.
  intros (_ & Hnd & _). unfold signers. by rewrite size_list_to_set, length_fmap by done.
Qed.

(** A member of a certificate with the signature it holds. *)
Lemma signers_signed d h :
  decision_ok d -> h ∈ signers d ->
  exists sig, (h, sig) ∈ cd_commit_signatures d /\
    vote_ok h (cd_view d) (cd_sequence d) (decided_hash d) sig.
Proof.
  intros (_ & _ & Hall) Hin. unfold signers in Hin. rewrite elem_of_list_to_set in Hin.
  apply list_elem_of_fmap in Hin as ([h' sig] & -> & Hin).
  rewrite list.Forall_forall in Hall. exists sig. split; [done|]. by apply (Hall (h', sig)).
Qed.

(** C2. Accountable agreement: when two engines decide at the same sequence
    number of the same view, in environments with the same active validators,
    on commits of active validators, then the two certificates hold valid
    votes of the same f + 1 - ((n - 1) mod 3) validators at least.  If the
    decided data differ, so do the hashes voted for, unless SHA-256 has a
    collision, and all of these voted for both: with n = 3f + 1, more than f
    validators would have to.  The type of a change is in neither the hash nor
    the votes. *)
Theorem accountable_agreement k1 k2 n1 n2 env1 env2 m1 m2 e1 e2 e1' e2' d1 d2 :
  let now := env_now env1 in let vs := env_validator_set env1 in
  reaches k1 n1 e1 -> reaches k2 n2 e2 ->
  handle_commit env1 m1 e1 = (Ok (Some d1), e1') ->
  handle_commit env2 m2 e2 = (Ok (Some d2), e2') ->
  active_validators (env_now env2) (env_validator_set env2) = active_validators now vs ->
  vs_wf vs -> (0 < active_count now vs)%nat ->
  signers d1 ⊆ active_hotkeys now vs -> signers d2 ⊆ active_hotkeys now vs ->
  ce_current_view e1 = ce_current_view e2 -> ce_next_sequence e1 = ce_next_sequence e2 ->
  exists culprits : gset Hotkey, culprits ⊆ active_hotkeys now vs /\
    (fault_tolerance now vs + 1 <= size culprits + (active_count now vs - 1) mod 3)%nat /\
    forall h, h ∈ culprits -> exists sig1 sig2,
      (h, sig1) ∈ cd_commit_signatures d1 /\ (h, sig2) ∈ cd_commit_signatures d2 /\
      vote_ok h (ce_current_view e1) (ce_next_sequence e1) (decided_hash d1) sig1 /\
      vote_ok h (ce_current_view e1) (ce_next_sequence e1) (decided_hash d2) sig2 /\
      (pc_data (cd_content d1) <> pc_data (cd_content d2) ->
       decided_hash d1 <> decided_hash d2 \/ exists x y, x <> y /\ sha256 x = sha256 y).
Proof.
  intros now vs Hr1 Hr2 Hrun1 Hrun2 Hsame Hwf Hpos Hs1 Hs2 Hv Hs.
  destruct (handle_commit_decided k1 n1 _ _ _ _ _ Hr1 Hrun1) as (Hok1 & Hq1 & _ & Hv1 & Hn1 & _).
  destruct (handle_commit_decided k2 n2 _ _ _ _ _ Hr2 Hrun2) as (Hok2 & Hq2 & _ & Hv2 & Hn2 & _).
  assert (Hquorum : engine_quorum env2 = quorum_size now vs)
    by (apply (f_equal length) in Hsame; unfold engine_quorum, quorum_size, fault_tolerance;
        by rewrite (Hsame : active_count _ _ = active_count _ _)).
  rewrite Hquorum in Hq2. rewrite <- size_signers in Hq1, Hq2 by done.
  exists (signers d1 ∩ signers d2). split; [set_solver|].
  split; [by apply quorum_overlap|].
  intros h [Hin1 Hin2]%elem_of_intersection.
  destruct (signers_signed d1 h Hok1 Hin1) as (sig1 & Hmem1 & H1).
  destruct (signers_signed d2 h Hok2 Hin2) as (sig2 & Hmem2 & H2).
  exists sig1, sig2. rewrite Hv1, Hn1 in H1. rewrite Hv2, Hn2, <- Hv, <- Hs in H2.
  split_and!; [done..|]. intros Hne. destruct (decide (decided_hash d1 = decided_hash d2)) as [Heq|]; [right|by left].
  exists (pc_data (cd_content d1)), (pc_data (cd_content d2)). split; [done|].
  destruct Hok1 as [-> _], Hok2 as [-> _]. exact Heq.
Qed.

(** ** Progress of a round *)

Definition deliver_prepares (env : Env) (ms : list PrepareMessage) e : ConsensusEngine :=
  fold_left (fun e m => (handle_prepare env m e).2) ms e.

Definition deliver_commits (env : Env) (ms : list CommitMessage) e : ConsensusEngine :=
  fold_left (fun e m => (handle_commit env m e).2) ms e.

Lemma deliver_commits_no_round env ms e :
  ce_current_round e = None -> deliver_commits env ms e = e.
Proof.
  intros Hr. unfold deliver_commits. induction ms as [|m ms IH]; simpl; [done|].
  destruct (handle_commit_refuse env m e) as [err ->]; [by rewrite Hr|done].
Qed.

(** Acceptability only depends on the triple of the round and on who voted. *)
Lemma vote_acceptable_weaken env r r' voters h0 view sequence hash h sig :
  vote_acceptable env r voters view sequence hash h sig -> h <> h0 ->
  rd_view r' = rd_view r -> rd_sequence r' = rd_sequence r ->
  rd_proposal_hash r' = rd_proposal_hash r ->
  vote_acceptable env r' ({[h0]} ∪ voters) view sequence hash h sig.
Proof. intros [] Hne Hv Hs Hh. split; try congruence. set_solver. Qed.

Lemma commits_acceptable_weaken env r r' h0 ms :
  Forall (commit_acceptable env r) ms -> h0 ∉ cm_validator <$> ms ->
  rd_view r' = rd_view r -> rd_sequence r' = rd_sequence r ->
  rd_proposal_hash r' = rd_proposal_hash r ->
  dom (rd_commits r') = {[h0]} ∪ dom (rd_commits r) ->
  Forall (commit_acceptable env r') ms.
Proof.
  intros Hall Hnin Hv Hs Hh Hd. apply list.Forall_forall. intros m Hm.
  rewrite list.Forall_forall in Hall. unfold commit_acceptable. rewrite Hd.
  eapply vote_acceptable_weaken; [by apply Hall| |done..].
  intros <-. apply Hnin. by apply list_elem_of_fmap_2.
Qed.

Lemma prepares_acceptable_weaken env r r' h0 ms :
  Forall (prepare_acceptable env r) ms -> h0 ∉ pm_validator <$> ms ->
  rd_view r' = rd_view r -> rd_sequence r' = rd_sequence r ->
  rd_proposal_hash r' = rd_proposal_hash r ->
  dom (rd_prepares r') = {[h0]} ∪ dom (rd_prepares r) ->
  Forall (prepare_acceptable env r') ms.
Proof.
  intros Hall Hnin Hv Hs Hh Hd. apply list.Forall_forall. intros m Hm.
  rewrite list.Forall_forall in Hall. unfold prepare_acceptable. rewrite Hd.
  eapply vote_acceptable_weaken; [by apply Hall| |done..].
  intros <-. apply Hnin. by apply list_elem_of_fmap_2.
Qed.

Lemma deliver_commits_decides env ms e r p :
  ce_current_round e = Some r -> rd_phase r = PhasePrepared -> rd_proposal r = Some p ->
  Forall (commit_acceptable env r) ms -> NoDup (cm_validator <$> ms) -> ms <> [] ->
  (engine_quorum env <= size (rd_commits r) + length ms)%nat ->
  exists d, get_decision (deliver_commits env ms e) (rd_sequence r) = Some d /\
    cd_content d = cp_proposal p.
Proof.
  revert e r. induction ms as [|m ms IH]; intros e r Hr Hph Hp Hall Hnd Hne Hq; [done|].
  apply list.Forall_cons in Hall as [Ha Hall]. csimpl in Hnd.
  apply NoDup_cons in Hnd as [Hnin Hnd].
  change (deliver_commits env (m :: ms) e) with (deliver_commits env ms (handle_commit env m e).2).
  destruct (handle_commit_accept env m e r p Hr Ha Hp) as [Hyes Hno].
  destruct (decide (commits_complete env (insert_commit (cm_validator m) m r))) as [Hc|Hc].
  - rewrite (Hyes Hc), deliver_commits_no_round by done.
    eexists. unfold get_decision. simpl. by rewrite lookup_insert_eq.
  - rewrite (Hno Hc). simpl. assert (Hsz : size (<[cm_validator m := m]> (rd_commits r)) =
      S (size (rd_commits r))) by (apply map_size_insert_None, not_elem_of_dom, Ha).
    apply (IH _ (insert_commit (cm_validator m) m r)); try done.
    + eapply commits_acceptable_weaken; [done..|]. simpl. apply dom_insert_L.
    + intros ->. apply Hc. split; simpl in *; [lia|done].
    + simpl in *. lia.
Qed.

(** Delivering prepares leads to the prepared phase, and stays in it. *)
Lemma deliver_prepares_prepared env ms e r :
  ce_current_round e = Some r ->
  Forall (prepare_acceptable env r) ms -> NoDup (pm_validator <$> ms) ->
  rd_phase r = PhasePrepared \/
    rd_phase r = PhasePrePrepare /\ ms <> [] /\
    (engine_quorum env <= size (rd_prepares r) + length ms)%nat ->
  exists r', ce_current_round (deliver_prepares env ms e) = Some r' /\
    ce_keypair (deliver_prepares env ms e) = ce_keypair e /\
    rd_phase r' = PhasePrepared /\ rd_proposal r' = rd_proposal r /\ rd_view r' = rd_view r /\
    rd_sequence r' = rd_sequence r /\ rd_proposal_hash r' = rd_proposal_hash r /\
    dom (rd_commits r') = dom (rd_commits r) ∪
      (if bool_decide (rd_phase r = PhasePrePrepare) then {[engine_hotkey e]} else ∅).
Proof.
  revert e r. induction ms as [|m ms IH]; intros e r Hr Hall Hnd Hph.
  - destruct Hph as [Hph|(_ & ? & _)]; [|done]. exists r. rewrite Hph. simpl.
    by rewrite union_empty_r_L.
  - apply list.Forall_cons in Hall as [Ha Hall]. csimpl in Hnd.
    apply NoDup_cons in Hnd as [Hnin Hnd].
    change (deliver_prepares env (m :: ms) e)
      with (deliver_prepares env ms (handle_prepare env m e).2).
    destruct (handle_prepare_accept env m e r Hr Ha) as (b & Hb & Hyes & Hno).
    assert (Hsz : size (<[pm_validator m := m]> (rd_prepares r)) = S (size (rd_prepares r)))
      by (apply map_size_insert_None, not_elem_of_dom, Ha).
    destruct (decide (prepares_complete env (insert_prepare (pm_validator m) m r))) as [Hc|Hc].
    + rewrite (Hyes Hc). cbn [snd].
      match goal with |- context [set_round (Some ?r2) e] =>
        destruct (IH (set_round (Some r2) e) r2 eq_refl) as (r' & Hr' & Hk & Hp' & Hrest) end.
      * eapply prepares_acceptable_weaken; [done..|]. simpl. apply dom_insert_L.
      * done.
      * by left.
      * destruct Hc as [_ Hc]. simpl in *. exists r'. rewrite Hc. simpl.
        destruct Hrest as (? & ? & ? & ? & Hd). repeat split; try done.
        rewrite Hd, dom_insert_L. set_solver.
    + rewrite (Hno Hc). cbn [snd].
      match goal with |- context [set_round (Some ?r2) e] =>
        destruct (IH (set_round (Some r2) e) r2 eq_refl) as (r' & Hr' & Hk & Hp' & Hrest) end.
      * eapply prepares_acceptable_weaken; [done..|]. simpl. apply dom_insert_L.
      * done.
      * simpl. destruct Hph as [Hph|(Hph & _ & Hq)]; [by left|right]. simpl in *.
        split; [done|]. split; [|lia]. intros ->. apply Hc. split; simpl in *; [lia|done].
      * by exists r'.
Qed.

(** C7. Progress: once prepares of a quorum of validators and then commits
    that, with our own, make a quorum have been delivered, in any order among
    themselves, the engine has decided the open proposal. *)
Theorem round_completes env prepares commits e r p :
  ce_current_round e = Some r -> rd_phase r = PhasePrePrepare -> rd_proposal r = Some p ->
  Forall (prepare_acceptable env r) prepares -> NoDup (pm_validator <$> prepares) ->
  prepares <> [] -> (engine_quorum env <= size (rd_prepares r) + length prepares)%nat ->
  Forall (commit_acceptable env r) commits -> NoDup (cm_validator <$> commits) ->
  commits <> [] -> engine_hotkey e ∉ dom (rd_commits r) ->
  engine_hotkey e ∉ cm_validator <$> commits ->
  (engine_quorum env <= size (rd_commits r) + 1 + length commits)%nat ->
  exists d, get_decision (deliver_commits env commits (deliver_prepares env prepares e))
      (rd_sequence r) = Some d /\ cd_content d = cp_proposal p.
Proof.
  intros Hr Hph Hp Hps Hpnd Hpne Hpq Hcs Hcnd Hcne Hown Hownc Hcq.
  destruct (deliver_prepares_prepared env prepares e r Hr Hps Hpnd) as
    (r' & Hr' & _ & Hph' & Hp' & Hv & Hs & Hh & Hd); [by right|].
  rewrite Hph, bool_decide_eq_true_2 in Hd by done. rewrite <- Hs.
  eapply deliver_commits_decides; try done; [by rewrite Hp'| |].
  - eapply commits_acceptable_weaken; [done..|]. rewrite Hd. set_solver.
  - assert (Hsz : size (rd_commits r') = (size (rd_commits r) + 1)%nat); [|lia].
    rewrite <- (size_dom (D:=gset Hotkey)), Hd, size_union by set_solver.
    by rewrite size_dom, size_singleton.
Qed.

(** ** Honest proposals *)

Lemma create_proposal_Ok env ct data e p e' :
  create_proposal env ct data e = (Ok p, e') ->
  exists b, bincode_serialize (vote_signing_data (ce_current_view e) (ce_next_sequence e)
                                 (sha256 data)) = Ok b /\
  p = mk_ConsensusProposal (ce_current_view e) (ce_next_sequence e)
        (mk_ProposalContent ct data (sha256 data)) (engine_hotkey e)
        (sr25519_sign (kp_pair (ce_keypair e)) b) (env_now env) /\
  e' = set_round (Some (open_round (env_now env) (ce_current_view e) (ce_next_sequence e) p
         (sha256 data))) e.
Proof.
  intros Hrun. pattern e'. apply (wp_Ok_elim _ _ _ _ _ Hrun). clear e' Hrun. unfold create_proposal. engine_run; try done.
  intros [= <-]. eexists. split; [done|]. by split.
Qed.

(** The proposer of a proposal checked by its own signature. *)
Lemma check_proposer_signature_Ok p e :
  vote_ok (cp_proposer p) (cp_view p) (cp_sequence p) (pc_data_hash (cp_proposal p))
    (cp_signature p) -> check_proposer_signature p e = (Ok tt, e).
Proof.
  intros (b & Hb & Hsig). unfold check_proposer_signature, serialize, mbind, SE_bind, lift.
  rewrite Hb. simpl. by rewrite Hsig.
Qed.

(** What an honest leader proposes, a peer in the same view and at the
    same sequence number accepts, if it elects the same leader and, for a
    configuration update, knows the leader as sudo; its prepare in turn is
    accepted and recorded by the leader if the peer is registered there. *)
Theorem honest_proposal_accepted env1 env2 ct data e1 e1' e2 p :
  create_proposal env1 ct data e1 = (Ok p, e1') ->
  ce_current_view e2 = ce_current_view e1 -> ce_next_sequence e2 = ce_next_sequence e1 ->
  leader_for_view (env_now env2) (env_validator_set env2) (ce_current_view e2)
    = Some (engine_hotkey e1) ->
  (ct = ConfigUpdate -> is_sudo (env_state env2) (engine_hotkey e1) = true) ->
  is_validator (env_validator_set env1) (engine_hotkey e2) = true ->
  exists prepare e2' c e1'', handle_proposal env2 p e2 = (Ok prepare, e2') /\
    (rd_proposal <$> ce_current_round e2') = Some (Some p) /\
    handle_prepare env1 prepare e1' = (Ok c, e1'') /\
    (rd_prepares <$> ce_current_round e1'') = Some {[engine_hotkey e2 := prepare]}.
Proof.
  intros (b & Hb & -> & ->)%create_proposal_Ok Hv Hs Hl Hsudo Hreg.
  set (p := mk_ConsensusProposal _ _ _ _ _ _).
  set (r1 := open_round _ _ _ p _).
  set (m := mk_PrepareMessage (ce_current_view e2) (ce_next_sequence e2) (sha256 data)
              (engine_hotkey e2) (sr25519_sign (kp_pair (ce_keypair e2)) b)).
  assert (Hacc : prepare_acceptable env1 r1 m).
  { split; try done. exists b. rewrite <- Hv, <- Hs in Hb. split; [done|apply sign_bytes_valid]. }
  destruct (handle_prepare_accept env1 m (set_round (Some r1) e1) r1 eq_refl Hacc)
    as (b' & _ & Hyes & Hno).
  assert (Hc : exists c e1'', handle_prepare env1 m (set_round (Some r1) e1) = (Ok c, e1'') /\
            (rd_prepares <$> ce_current_round e1'') = Some {[engine_hotkey e2 := m]}).
  { destruct (decide (prepares_complete env1 (insert_prepare (pm_validator m) m r1))) as [Hd|Hd].
    - rewrite (Hyes Hd). do 2 eexists. by split.
    - rewrite (Hno Hd). do 2 eexists. by split. }
  destruct Hc as (c & e1'' & Hrun & Hprep). exists m. eexists _, c, e1''.
  split; [|split; [|done]].
  - unfold handle_proposal, mbind, SE_bind, get_state, require. simpl.
    rewrite <- Hv, <- Hs, !Z.eqb_refl, Hl, !bool_decide_eq_true_2 by done.
    rewrite check_proposer_signature_Ok
      by (exists b; split; [by rewrite <- ?Hv, <- ?Hs|apply sign_bytes_valid]).
    unfold check_sudo, require. simpl.
    destruct (decide (ct = ConfigUpdate)) as [Hct|Hct];
      [rewrite (Hsudo Hct), orb_true_r|rewrite bool_decide_eq_false_2 by done]; simpl.
    all: unfold create_prepare, sign, serialize, mbind, SE_bind, get_state, lift, modify; simpl.
    all: rewrite Hv, Hs, Hb; simpl; unfold m; rewrite Hv, Hs; reflexivity.
  - done.
Qed.

(** ** Votes of different phases *)

(** The commit with the fields of a prepare. *)
Definition as_commit (m : PrepareMessage) : CommitMessage :=
  mk_CommitMessage (pm_view m) (pm_sequence m) (pm_proposal_hash m) (pm_validator m)
    (pm_signature m).

(** Prepares and commits sign the same bytes: any prepare an engine has
    accepted can be replayed by anyone as its sender's commit, as long as that
    validator has no commit in the round yet. *)
Theorem prepare_replayed_as_commit k n env m e c e' r' :
  reaches k n e -> handle_prepare env m e = (Ok c, e') ->
  ce_current_round e' = Some r' -> rd_commits r' !! pm_validator m = None ->
  exists d e'', handle_commit env (as_commit m) e' = (Ok d, e'').
Proof.
  intros Hreach Hrun Hr' Hnew. apply reaches_inv in Hreach as [Hinv _].
  assert (Hround : exists r, ce_current_round e = Some r /\ prepare_acceptable env r m).
  { destruct (ce_current_round e) as [r|] eqn:Hr;
      [destruct (decide (prepare_acceptable env r m)) as [Ha|Ha]; [by eauto|]|].
    all: destruct (handle_prepare_refuse env m e) as [err Herr]; [naive_solver|congruence]. }
  destruct Hround as (r & Hr & Ha).
  destruct (ro_proposal _ _ _ (ei_round e Hinv r Hr)) as (p & Hp & _).
  assert (Hsame : rd_view r' = rd_view r /\ rd_sequence r' = rd_sequence r /\
            rd_proposal_hash r' = rd_proposal_hash r /\ rd_proposal r' = rd_proposal r).
  { destruct (handle_prepare_accept env m e r Hr Ha) as (b & _ & Hyes & Hno).
    destruct (decide (prepares_complete env (insert_prepare (pm_validator m) m r))) as [Hd|Hd];
      [rewrite (Hyes Hd) in Hrun|rewrite (Hno Hd) in Hrun];
      injection Hrun as <- <-; by injection Hr' as <-. }
  destruct Hsame as (Hv & Hs & Hh & Hpr). destruct Ha as [Hva Hsa Hha Hreg Hsig _].
  assert (Hc : commit_acceptable env r' (as_commit m))
    by (split; simpl; try congruence; by apply not_elem_of_dom).
  rewrite Hp in Hpr. destruct (handle_commit_accept env (as_commit m) e' r' p Hr' Hc Hpr)
    as [Hyes Hno].
  destruct (decide (commits_complete env (insert_commit (cm_validator (as_commit m))
    (as_commit m) r'))) as [Hd|Hd]; [rewrite (Hyes Hd)|rewrite (Hno Hd)]; by eauto.
Qed.
End properties.
