(* ===== verification/ConsensusSpec.v ===== *)
(** * An abstract replica and its refinement

    The contract of the engine without messages, signatures, clocks and
    collections of view changes: a replica that fills the slots of a log one
    after the other.  A slot is opened on a value whose hash is the hash voted
    on, gathers the sets of validators that prepared and committed, is locked
    by a quorum of prepares and decided by a quorum of commits once locked;
    changing the view abandons the open slot.  Every call of the engine is a
    sequence of such steps. *)

From S2P Require Import Prelude Float64 Crypto Messages Merkle Validators P2PState Consensus ConsensusInv ConsensusProps.

Section spec.
Context `{External} `{Laws : !ExternalLaws} `{HO : !HashOrder Hotkey}.
Implicit Types e : ConsensusEngine.

Record Slot : Type := mk_Slot {
  sl_value : ProposalContent;
  sl_prepares : gset Hotkey;
  sl_commits : gset Hotkey;
  sl_locked : bool
}.

Record Replica : Type := mk_Replica {
  sp_view : Z;
  sp_next : Z;
  sp_slot : option Slot;
  sp_log : gmap Z ProposalContent
}.

(** Steps under quorum [q]. *)
Inductive replica_step (q : nat) : Replica -> Replica -> Prop :=
| rs_open view next slot log v :
    sha256 (pc_data v) = pc_data_hash v ->
    replica_step q (mk_Replica view next slot log)
      (mk_Replica view next (Some (mk_Slot v ∅ ∅ false)) log)
| rs_prepare view next v ps cs locked log h :
    replica_step q (mk_Replica view next (Some (mk_Slot v ps cs locked)) log)
      (mk_Replica view next (Some (mk_Slot v ({[h]} ∪ ps) cs locked)) log)
| rs_lock view next v ps cs log :
    (q <= size ps)%nat ->
    replica_step q (mk_Replica view next (Some (mk_Slot v ps cs false)) log)
      (mk_Replica view next (Some (mk_Slot v ps cs true)) log)
| rs_commit view next v ps cs locked log h :
    replica_step q (mk_Replica view next (Some (mk_Slot v ps cs locked)) log)
      (mk_Replica view next (Some (mk_Slot v ps ({[h]} ∪ cs) locked)) log)
| rs_decide view next v ps cs log :
    (q <= size cs)%nat -> log !! next = None ->
    replica_step q (mk_Replica view next (Some (mk_Slot v ps cs true)) log)
      (mk_Replica view (next + 1) None (<[next := v]> log))
| rs_change_view view next slot log view' :
    replica_step q (mk_Replica view next slot log) (mk_Replica view' next None log).

(** What the engine's state stands for. *)
Definition abs_round (r : ConsensusRound) : option Slot :=
  (fun p => mk_Slot (cp_proposal p) (dom (rd_prepares r)) (dom (rd_commits r))
     (bool_decide (rd_phase r = PhasePrepared))) <$> rd_proposal r.

Definition abs_engine e : Replica :=
  mk_Replica (ce_current_view e) (ce_next_sequence e) (ce_current_round e ≫= abs_round)
    (cd_content <$> ce_decisions e).

Abbreviation simulated q e e' := (rtc (replica_step q) (abs_engine e) (abs_engine e')).

Lemma abs_set_round r p e :
  rd_proposal r = Some p ->
  abs_engine (set_round (Some r) e) =
    mk_Replica (ce_current_view e) (ce_next_sequence e)
      (Some (mk_Slot (cp_proposal p) (dom (rd_prepares r)) (dom (rd_commits r))
         (bool_decide (rd_phase r = PhasePrepared)))) (cd_content <$> ce_decisions e).
Proof. intros Hp. unfold abs_engine, abs_round. simpl. by rewrite Hp. Qed.

Lemma abs_current_round r p e :
  ce_current_round e = Some r -> rd_proposal r = Some p ->
  abs_engine e = abs_engine (set_round (Some r) e).
Proof. intros Hr Hp. unfold abs_engine. by rewrite Hr. Qed.

Lemma sim_create_proposal env ct data e :
  wp (create_proposal env ct data) (fun _ e' => simulated (engine_quorum env) e e') e.
Proof.
  unfold create_proposal. engine_run; try done. unfold abs_engine at 2. simpl.
  by apply rtc_once, rs_open.
Qed.

Lemma sim_handle_proposal env p e :
  wp (handle_proposal env p) (fun _ e' => simulated (engine_quorum env) e e') e.
Proof.
  unfold handle_proposal, create_prepare. engine_run; try done.
  all: rewrite ?bool_decide_eq_true in *.
  - eapply rtc_l; [by eapply (rs_open _ _ _ _ _ (cp_proposal p))|].
    unfold abs_engine. unfold abs_round. simpl. rewrite dom_insert_L. apply rtc_once, rs_prepare.
  - unfold abs_engine at 2. simpl. by apply rtc_once, rs_open.
Qed.

Lemma sim_create_pre_prepare env v s h e :
  wp (create_pre_prepare env v s h) (fun _ e' => simulated (engine_quorum env) e e') e.
Proof.
  unfold create_pre_prepare. engine_run; try done. unfold abs_engine, update_round. simpl.
  by destruct (ce_current_round e).
Qed.

Lemma sim_handle_prepare env m e :
  engine_inv e -> wp (handle_prepare env m) (fun _ e' => simulated (engine_quorum env) e e') e.
Proof.
  intros Hinv. unfold wp.
  destruct (ce_current_round e) as [r|] eqn:Hr;
    [destruct (decide (prepare_acceptable env r m)) as [Ha|Ha]|].
  2, 3: destruct (handle_prepare_refuse env m e) as [err ->]; [naive_solver|done].
  destruct (ro_proposal _ _ _ (ei_round e Hinv r Hr)) as (p & Hp & _).
  destruct (handle_prepare_accept env m e r Hr Ha) as (b & _ & Hyes & Hno).
  rewrite (abs_current_round r p e Hr Hp), (abs_set_round r p) by done.
  destruct (decide (prepares_complete env (insert_prepare (pm_validator m) m r))) as [Hq|Hq].
  - rewrite (Hyes Hq). cbn [snd]. rewrite (abs_set_round _ p) by done. simpl.
    destruct Hq as [Hq Hph]. simpl in Hph. rewrite Hph, !dom_insert_L.
    eapply rtc_l; [apply (rs_prepare _ _ _ _ _ _ _ _ (pm_validator m))|].
    eapply rtc_l; [apply rs_lock|apply rtc_once, rs_commit].
    by rewrite <- (dom_insert_L (rd_prepares r) _ m), size_dom.
  - rewrite (Hno Hq). cbn [snd]. rewrite (abs_set_round _ p) by done. simpl.
    rewrite dom_insert_L. apply rtc_once, rs_prepare.
Qed.

Lemma sim_handle_commit env m e :
  engine_inv e -> ce_next_sequence e < u64_max ->
  wp (handle_commit env m) (fun _ e' => simulated (engine_quorum env) e e') e.
Proof.
  intros Hinv Hmax. unfold wp.
  destruct (ce_current_round e) as [r|] eqn:Hr;
    [destruct (decide (commit_acceptable env r m)) as [Ha|Ha]|].
  2, 3: destruct (handle_commit_refuse env m e) as [err ->]; [naive_solver|done].
  pose proof (ei_round e Hinv r Hr) as Hro. destruct (ro_proposal _ _ _ Hro) as (p & Hp & _).
  destruct (handle_commit_accept env m e r p Hr Ha Hp) as [Hyes Hno].
  rewrite (abs_current_round r p e Hr Hp), (abs_set_round r p) by done.
  destruct (decide (commits_complete env (insert_commit (cm_validator m) m r))) as [Hq|Hq].
  - rewrite (Hyes Hq). cbn [snd]. destruct Hq as [Hq Hph]. simpl in Hph.
    rewrite Hph. eapply rtc_l; [apply (rs_commit _ _ _ _ _ _ _ _ (cm_validator m))|].
    unfold abs_engine. simpl. rewrite fmap_insert, (ro_sequence _ _ _ Hro).
    rewrite u64_add_small by (pose proof (ei_next e Hinv); unfold u64_max in *; lia).
    apply rtc_once, rs_decide; [by rewrite <- (dom_insert_L (rd_commits r) _ m), size_dom|].
    rewrite lookup_fmap, fmap_None. apply eq_None_not_Some. rewrite (ei_log e Hinv). lia.
  - rewrite (Hno Hq). cbn [snd]. rewrite (abs_set_round _ p) by done. simpl.
    rewrite dom_insert_L. apply rtc_once, rs_commit.
Qed.

Lemma sim_initiate_view_change env v e :
  wp (initiate_view_change env v) (fun _ e' => simulated (engine_quorum env) e e') e.
Proof. unfold initiate_view_change. by engine_run. Qed.

Lemma sim_handle_view_change env vc e :
  wp (handle_view_change env vc) (fun _ e' => simulated (engine_quorum env) e e') e.
Proof.
  unfold handle_view_change. engine_run; try done.
  all: unfold abs_engine; simpl; apply rtc_once, rs_change_view.
Qed.

Lemma sim_handle_new_view env nv e :
  wp (handle_new_view env nv) (fun _ e' => simulated (engine_quorum env) e e') e.
Proof.
  unfold handle_new_view. engine_run; try done.
  unfold abs_engine. simpl. apply rtc_once, rs_change_view.
Qed.

(** C1. Refinement: every call of the engine in a reachable state, whatever it
    returns, is a sequence of steps of the abstract replica under the quorum
    the call sees; in particular a value enters the log only through a
    locked slot with a quorum of commits. *)
Theorem engine_refines_replica k n env e e' :
  reaches k n e -> engine_step env e e' ->
  rtc (replica_step (engine_quorum env)) (abs_engine e) (abs_engine e').
Proof.
  intros Hreach Hstep. apply reaches_inv in Hreach as [Hinv Hmax]. destruct Hstep.
  - apply (sim_create_proposal env ct data e).
  - apply (sim_handle_proposal env p e).
  - apply (sim_create_pre_prepare env v s h e).
  - by apply (sim_handle_prepare env p e).
  - by apply (sim_handle_commit env c e).
  - apply (sim_initiate_view_change env v e).
  - apply (sim_handle_view_change env vc e).
  - apply (sim_handle_new_view env nv e).
Qed.
End spec.
