(* ===== verification/ConsensusRuns.v ===== *)
(** * Runs of the consensus engine

    The engine's calls as data, so that a run is a list of calls and can be
    evaluated; concrete runs that instantiate the engine's theorems, and runs
    that show what the engine does not protect against. *)

From S2P Require Import Prelude Float64 Crypto Messages Merkle Validators ValidatorProps P2PState Consensus ConsensusInv ConsensusProps ConsensusSpec.

(** A prepare or a commit. *)
Abbreviation Vote := (PrepareMessage + CommitMessage)%type.

Section runs.
Context `{External} `{HO : !HashOrder Hotkey}.

Inductive Call : Type :=
| CreateProposal (ct : StateChangeType) (data : bytes)
| HandleProposal (p : ConsensusProposal)
| CreatePrePrepare (view sequence : Z) (h : bytes)
| HandlePrepare (m : PrepareMessage)
| HandleCommit (m : CommitMessage)
| InitiateViewChange (view : Z)
| HandleViewChange (vc : ViewChangeMessage)
| HandleNewView (nv : NewViewMessage).

(** The engine after a call. *)
Definition call (env : Env) (e : ConsensusEngine) (c : Call) : ConsensusEngine :=
  match c with
  | CreateProposal ct data => (create_proposal env ct data e).2
  | HandleProposal p => (handle_proposal env p e).2
  | CreatePrePrepare v s h => (create_pre_prepare env v s h e).2
  | HandlePrepare m => (handle_prepare env m e).2
  | HandleCommit m => (handle_commit env m e).2
  | InitiateViewChange v => (initiate_view_change env v e).2
  | HandleViewChange vc => (handle_view_change env vc e).2
  | HandleNewView nv => (handle_new_view env nv e).2
  end.

Definition run (env : Env) (k : Keypair) (calls : list Call) : ConsensusEngine :=
  fold_left (call env) calls (ConsensusEngine_new k).

(** The votes a call returns, and those it brings in. *)
Definition vote_sender (v : Vote) : Hotkey :=
  match v with inl m => pm_validator m | inr m => cm_validator m end.

Definition cast (env : Env) (e : ConsensusEngine) (c : Call) : list Vote :=
  match c with
  | HandleProposal p =>
      match (handle_proposal env p e).1 with Ok m => [inl m] | Err _ => [] end
  | HandlePrepare m =>
      match (handle_prepare env m e).1 with Ok (Some m) => [inr m] | _ => [] end
  | _ => []
  end.

Fixpoint cast_all (env : Env) (e : ConsensusEngine) (calls : list Call) : list Vote :=
  match calls with
  | [] => []
  | c :: calls => cast env e c ++ cast_all env (call env e c) calls
  end.

Definition received (c : Call) : list Vote :=
  match c with
  | HandlePrepare m => [inl m]
  | HandleCommit m => [inr m]
  | _ => []
  end.

Lemma call_step env e c : engine_step env e (call env e c).
Proof. destruct c; constructor. Qed.

Lemma run_steps env calls e :
  nsteps any_step (length calls) e (fold_left (call env) calls e).
Proof.
  revert e. induction calls as [|c calls IH]; intros e; simpl; [constructor|].
  econstructor; [|apply IH]. exists env. apply call_step.
Qed.

Lemma run_steps_in (seen : Env -> Prop) env calls e :
  seen env -> nsteps (step_in seen) (length calls) e (fold_left (call env) calls e).
Proof.
  intros Hs. revert e. induction calls as [|c calls IH]; intros e; simpl; [constructor|].
  econstructor; [|apply IH]. exists env. split; [done|apply call_step].
Qed.

Lemma run_reaches env k calls :
  (length calls < 1000)%nat -> reaches k (length calls) (run env k calls).
Proof. intros Hn. split; [apply run_steps|]. unfold u64_max. lia. Qed.
End runs.

Module ConsensusExamples.
Import Toy ValidatorProps.Examples.

(** The environment of node [owner] in a network of [n] validators. *)
Definition net_env (owner : Z) (n : nat) : Env :=
  mk_Env (registered_by owner n) (ChainState_new 0 100) 0.

(** Messages of view 0 and sequence number 1, signed by key [i]. *)
Definition vote_signature (i : Z) (data : bytes) : bytes :=
  toy_sign i (toy_serialize (vote_signing_data 0 1 (toy_hash data))).
Definition proposal_of (i : Z) (data : bytes) : ConsensusProposal :=
  mk_ConsensusProposal 0 1 (mk_ProposalContent ChallengeSubmission data (toy_hash data))
    (hk i) (vote_signature i data) 0.
Definition prepare_of (i : Z) (data : bytes) : PrepareMessage :=
  mk_PrepareMessage 0 1 (toy_hash data) (hk i) (vote_signature i data).
Definition commit_of (i : Z) (data : bytes) : CommitMessage :=
  mk_CommitMessage 0 1 (toy_hash data) (hk i) (vote_signature i data).

Definition block_a : bytes := [10].
Definition block_b : bytes := [20].

(** Validator [i] of four, led by 4, up to the last commit it needs. *)
Definition votes_for (voters : list Z) (data : bytes) : list Call :=
  HandleProposal (proposal_of 4 data) :: ((HandlePrepare ∘ flip prepare_of data) <$> voters).

Definition before_commits : list Call := votes_for [1; 3] block_a.
Definition before_decision : list Call := before_commits ++ [HandleCommit (commit_of 1 block_a)].
Definition decision_run : list Call := before_decision ++ [HandleCommit (commit_of 3 block_a)].

Definition engine_before : ConsensusEngine := run (net_env 2 4) (kp 2) before_decision.
Definition engine_decided : ConsensusEngine := run (net_env 2 4) (kp 2) decision_run.

Lemma decision_run_evaluated :
  (cd_content <$> get_decision engine_decided 1) = Some (cp_proposal (proposal_of 4 block_a)) /\
  ce_next_sequence engine_decided = 2.
Proof. split; by_compute. Qed.

Definition before_reaches : reaches (kp 2) 4 engine_before :=
  run_reaches (net_env 2 4) (kp 2) before_decision ltac:(by_compute).
Definition decided_reaches : reaches (kp 2) 5 engine_decided :=
  run_reaches (net_env 2 4) (kp 2) decision_run ltac:(by_compute).

Lemma decision_log_gap_free_witness :
  is_Some (get_decision engine_decided 1) <-> 1 <= 1 < ce_next_sequence engine_decided.
Proof. exact (decision_log_gap_free (kp 2) 5 engine_decided 1 decided_reaches). Defined.

Definition decision_a : ConsensusDecision :=
  mk_ConsensusDecision 0 1 (cp_proposal (proposal_of 4 block_a))
    ((fun i => (hk i, vote_signature i block_a)) <$> [3; 1; 2]).

(** Later calls: a view change and a proposal at the next sequence number. *)
Definition later_calls : list Call :=
  [InitiateViewChange 1; HandleProposal (proposal_of 4 block_b)].
Definition engine_later : ConsensusEngine :=
  fold_left (call (net_env 2 4)) later_calls engine_decided.

Lemma decisions_immutable_witness : get_decision engine_later 1 = Some decision_a.
Proof.
  assert (Hd : get_decision engine_decided 1 = Some decision_a) by by_compute.
  refine (decisions_immutable (kp 2) 5 2 engine_decided engine_later 1 decision_a
    (proj1 decided_reaches) (run_steps (net_env 2 4) later_calls engine_decided) _ Hd).
  unfold u64_max. lia.
Defined.

Lemma decision_certificate_witness :
  cd_sequence decision_a = 1 /\ decision_ok decision_a /\ decision_sourced (kp 2) (eq (net_env 2 4)) decision_a.
Proof.
  assert (Hd : get_decision engine_decided 1 = Some decision_a) by by_compute.
  exact (decision_certificate (kp 2) (eq (net_env 2 4)) 5 engine_decided 1 decision_a
    (run_steps_in _ (net_env 2 4) decision_run _ eq_refl) ltac:(unfold u64_max; lia) Hd).
Defined.

(** The type of a change is signed by nobody: the same votes decide a proposal
    whose type was exchanged on the way. *)
Definition retyped : ConsensusProposal :=
  mk_ConsensusProposal 0 1 (mk_ProposalContent WeightUpdate block_a (toy_hash block_a)) (hk 4) (vote_signature 4 block_a) 0.

Lemma change_type_unsigned :
  get_decision (run (net_env 2 4) (kp 2) (HandleProposal retyped :: tail decision_run)) 1 =
  Some (mk_ConsensusDecision 0 1 (cp_proposal retyped) (cd_commit_signatures decision_a)).
Proof. by_compute. Qed.

Definition last_commit : CommitMessage := commit_of 3 block_a.

Lemma handle_commit_effect_witness :
  (handle_commit (net_env 2 4) last_commit engine_before).1 = Ok (Some decision_a) /\
  (engine_quorum (net_env 2 4) <= length (cd_commit_signatures decision_a))%nat.
Proof.
  assert (Hrun : (handle_commit (net_env 2 4) last_commit engine_before).1 = Ok (Some decision_a))
    by by_compute.
  split; [exact Hrun|].
  pose proof (handle_commit_effect (kp 2) 4 (net_env 2 4) last_commit engine_before
    before_reaches) as Heff.
  destruct (handle_commit (net_env 2 4) last_commit engine_before) as [d e'].
  cbn [fst] in Hrun. rewrite Hrun in Heff. destruct Heff as (r & _ & _ & _ & _ & Hq & _).
  exact Hq.
Defined.

(** The prepare that completes the quorum of validator 2. *)
Definition engine_voting : ConsensusEngine := run (net_env 2 4) (kp 2) (votes_for [1] block_a).
Definition last_prepare : PrepareMessage := prepare_of 3 block_a.

Definition own_commit : CommitMessage := commit_of 2 block_a.

Lemma handle_prepare_effect_witness :
  (handle_prepare (net_env 2 4) last_prepare engine_voting).1 = Ok (Some own_commit) /\
  exists r, ce_current_round engine_voting = Some r /\
    prepares_complete (net_env 2 4) (insert_prepare (hk 3) last_prepare r) /\
    commit_ok r (hk 2) own_commit.
Proof.
  assert (Hrun : (handle_prepare (net_env 2 4) last_prepare engine_voting).1
                 = Ok (Some own_commit)) by by_compute.
  split; [exact Hrun|].
  pose proof (handle_prepare_effect (net_env 2 4) last_prepare engine_voting) as Heff.
  destruct (handle_prepare (net_env 2 4) last_prepare engine_voting) as [c e'].
  cbn [fst] in Hrun. rewrite Hrun in Heff. destruct Heff as (r & Hr & _ & Hq & Hc & _).
  exists r. split; [exact Hr|]. split; [exact Hq|exact Hc].
Defined.

(** Validator 1, which decides [block_b] on the votes of 3 and 4, who voted
    for [block_a] as well. *)
Definition other_calls : list Call :=
  votes_for [3; 4] block_b ++ [HandleCommit (commit_of 4 block_b)].
Definition other_before : ConsensusEngine := run (net_env 1 4) (kp 1) other_calls.
Definition other_commit : CommitMessage := commit_of 3 block_b.
Definition other_reaches : reaches (kp 1) 4 other_before :=
  run_reaches (net_env 1 4) (kp 1) other_calls ltac:(by_compute).
Definition decision_b : ConsensusDecision :=
  mk_ConsensusDecision 0 1 (cp_proposal (proposal_of 4 block_b))
    ((fun i => (hk i, vote_signature i block_b)) <$> [3; 1; 4]).

Lemma accountable_agreement_witness :
  exists culprits : gset Hotkey, (2 <= size culprits)%nat /\
    forall h, h ∈ culprits ->
      h ∈ (cd_commit_signatures decision_a).*1 /\ h ∈ (cd_commit_signatures decision_b).*1.
Proof.
  assert (Ha : (handle_commit (net_env 2 4) last_commit engine_before).1 = Ok (Some decision_a))
    by by_compute.
  assert (Hb : (handle_commit (net_env 1 4) other_commit other_before).1 = Ok (Some decision_b))
    by by_compute.
  assert (Hsame : active_validators 0 (registered_by 1 4) = active_validators 0 (registered_by 2 4))
    by by_compute.
  assert (Hpos : (0 < active_count 0 (registered_by 2 4))%nat) by by_compute.
  assert (Hsa : signers decision_a ⊆ active_hotkeys 0 (registered_by 2 4)) by by_compute.
  assert (Hsb : signers decision_b ⊆ active_hotkeys 0 (registered_by 2 4)) by by_compute.
  assert (Hv : ce_current_view engine_before = ce_current_view other_before) by by_compute.
  assert (Hs : ce_next_sequence engine_before = ce_next_sequence other_before) by by_compute.
  assert (Hc : active_count 0 (registered_by 2 4) = 4%nat) by by_compute.
  assert (Hf : fault_tolerance 0 (registered_by 2 4) = 1%nat) by by_compute.
  destruct (accountable_agreement (kp 2) (kp 1) 4 4 (net_env 2 4) (net_env 1 4) last_commit
    other_commit engine_before other_before _ _ decision_a decision_b before_reaches other_reaches
    (run_result _ _ _ Ha) (run_result _ _ _ Hb) Hsame (registered_by_wf 2 4) Hpos Hsa Hsb Hv Hs)
    as (culprits & _ & Hsize & Hall).
  change (env_now (net_env 2 4)) with 0 in Hsize.
  change (env_validator_set (net_env 2 4)) with (registered_by 2 4) in Hsize.
  rewrite Hc, Hf in Hsize. change ((4 - 1) mod 3)%nat with 0%nat in Hsize.
  exists culprits. split; [lia|]. intros h Hh. destruct (Hall h Hh) as (s1 & s2 & H1 & H2 & _).
  exact (conj (list_elem_of_fmap_2 fst _ _ H1) (list_elem_of_fmap_2 fst _ _ H2)).
Defined.

(** Validator 2 when it has accepted the proposal and prepared itself. *)
Definition engine_open : ConsensusEngine :=
  run (net_env 2 4) (kp 2) [HandleProposal (proposal_of 4 block_a)].
Definition open_a : ConsensusRound :=
  insert_prepare (hk 2) (prepare_of 2 block_a)
    (set_local_prepared (open_round 0 0 1 (proposal_of 4 block_a) (toy_hash block_a))).

#[local] Instance prepare_acceptable_dec env r m : Decision (prepare_acceptable env r m) :=
  vote_acceptable_dec _ _ _ _ _ _ _ _.
#[local] Instance commit_acceptable_dec env r m : Decision (commit_acceptable env r m) :=
  vote_acceptable_dec _ _ _ _ _ _ _ _.

Lemma round_completes_witness :
  exists d, get_decision (deliver_commits (net_env 2 4) (flip commit_of block_a <$> [1; 3])
      (deliver_prepares (net_env 2 4) (flip prepare_of block_a <$> [3; 1]) engine_open)) 1 = Some d
    /\ cd_content d = cp_proposal (proposal_of 4 block_a).
Proof.
  refine (round_completes (net_env 2 4) (flip prepare_of block_a <$> [3; 1])
    (flip commit_of block_a <$> [1; 3]) engine_open open_a (proposal_of 4 block_a)
    _ eq_refl eq_refl _ _ _ _ _ _ _ _ _ _).
  1: by vm_compute.
  all: try by_compute. all: done.
Defined.

Lemma engine_refines_replica_witness :
  rtc (replica_step (engine_quorum (net_env 2 4))) (abs_engine engine_before)
    (abs_engine (call (net_env 2 4) engine_before (HandleCommit last_commit))).
Proof.
  exact (engine_refines_replica (kp 2) 4 (net_env 2 4) engine_before _ before_reaches
    (call_step (net_env 2 4) engine_before (HandleCommit last_commit))).
Defined.

Definition engine_leader : ConsensusEngine := ConsensusEngine_new (kp 4).
Definition engine_peer : ConsensusEngine := ConsensusEngine_new (kp 2).
Definition propose_a := create_proposal (net_env 4 4) ChallengeSubmission block_a engine_leader.

Lemma honest_proposal_accepted_witness :
  exists prepare, (handle_proposal (net_env 2 4) (proposal_of 4 block_a) engine_peer).1 = Ok prepare.
Proof.
  assert (Hp : propose_a.1 = Ok (proposal_of 4 block_a)) by by_compute.
  assert (Hl : leader_for_view 0 (registered_by 2 4) 0 = Some (hk 4)) by by_compute.
  assert (Hreg : is_validator (registered_by 4 4) (hk 2) = true) by by_compute.
  destruct (honest_proposal_accepted (net_env 4 4) (net_env 2 4) ChallengeSubmission block_a
    engine_leader propose_a.2 engine_peer (proposal_of 4 block_a)
    (run_result (create_proposal (net_env 4 4) ChallengeSubmission block_a) _ _ Hp)
    eq_refl eq_refl Hl ltac:(discriminate) Hreg) as (m & e2' & c & e1'' & Hrun & _).
  exists m. exact (f_equal fst Hrun).
Defined.

(** Validator 3's prepare, the second that validator 2 counts. *)
Lemma prepare_replayed_as_commit_witness :
  exists d e'', handle_commit (net_env 2 4) (as_commit (prepare_of 3 block_a))
    (call (net_env 2 4) engine_open (HandlePrepare (prepare_of 3 block_a))) = (Ok d, e'').
Proof.
  assert (Hrun : (handle_prepare (net_env 2 4) (prepare_of 3 block_a) engine_open).1 = Ok None)
    by by_compute.
  assert (Hr : ce_current_round
    (call (net_env 2 4) engine_open (HandlePrepare (prepare_of 3 block_a))) =
    Some (insert_prepare (hk 3) (prepare_of 3 block_a) open_a)) by by vm_compute.
  exact (prepare_replayed_as_commit (kp 2) 1 (net_env 2 4) (prepare_of 3 block_a) engine_open
    None _ _ (run_reaches (net_env 2 4) (kp 2) [HandleProposal (proposal_of 4 block_a)]
      ltac:(by_compute)) (run_result _ _ _ Hrun) Hr eq_refl).
Defined.

(** ** Runs that the engine does not protect against *)

(** Validators 1, 2 and 3 run the engine; the leader 4 proposes [block_a] to
    all of them and then [block_b] to 1 and 3. *)
Definition prepare_calls (voters : list Z) (data : bytes) : list Call :=
  (HandlePrepare ∘ flip prepare_of data) <$> voters.
Definition commit_calls (voters : list Z) (data : bytes) : list Call :=
  (HandleCommit ∘ flip commit_of data) <$> voters.

Definition fork_calls (i : Z) : list Call :=
  if i =? 2 then votes_for [1; 3] block_a ++ commit_calls [1; 3] block_a
  else if i =? 1 then
    votes_for [2; 3] block_a ++ votes_for [3; 4] block_b ++ commit_calls [3; 4] block_b
  else votes_for [1; 2] block_a ++ votes_for [1; 4] block_b.

Definition fork_run (i : Z) : ConsensusEngine := run (net_env i 4) (kp i) (fork_calls i).
Definition fork_cast (i : Z) : list Vote :=
  cast_all (net_env i 4) (ConsensusEngine_new (kp i)) (fork_calls i).

(** One faulty leader is enough to fork the log: there are runs of three
    honest validators out of four in which every vote they receive was cast by
    an honest run or comes from the leader, and two of them decide different
    contents at sequence number 1 of view 0.  [handle_proposal] replaces the
    open round, even a prepared one, by a second proposal for the same view
    and sequence number, and signs a prepare for it too. *)
Theorem one_faulty_leader_forks :
  (forall i v, i ∈ [1; 2; 3] -> v ∈ mjoin (received <$> fork_calls i) ->
     vote_sender v = hk 4 \/ exists j, j ∈ [1; 2; 3] /\ vote_sender v = hk j /\ v ∈ fork_cast j) /\
  ((fun d => (cd_view d, pc_data (cd_content d))) <$> get_decision (fork_run 1) 1)
    = Some (0, block_b) /\
  ((fun d => (cd_view d, pc_data (cd_content d))) <$> get_decision (fork_run 2) 1)
    = Some (0, block_a).
Proof.
  split; [|split; by_compute].
  assert (Hall : Forall (fun i => Forall (fun v => vote_sender v = hk 4 \/
      Exists (fun j => vote_sender v = hk j /\ v ∈ fork_cast j) [1; 2; 3])
    (mjoin (received <$> fork_calls i))) [1; 2; 3]) by by_compute.
  intros i v Hi Hv. rewrite list.Forall_forall in Hall. specialize (Hall i Hi).
  rewrite list.Forall_forall in Hall. destruct (Hall v Hv) as [?|(j & Hj)%list.Exists_exists];
    [by left|right]. by exists j.
Qed.

(** Engine 2 in view 3, and a new-view message for view 1 by its leader 3 that
    holds one view change of validator 3, three times over. *)
Definition view_change_of (i view : Z) : ViewChangeMessage :=
  mk_ViewChangeMessage view None None (hk i)
    (toy_sign i (toy_serialize (view_change_signing_data view None))).
Definition new_view_of (i view : Z) (voters : list Z) : NewViewMessage :=
  mk_NewViewMessage view (flip view_change_of view <$> voters) (hk i)
    (toy_sign i (toy_serialize (new_view_signing_data view))).

Definition engine_view3 : ConsensusEngine :=
  run (net_env 2 4) (kp 2) [HandleNewView (new_view_of 1 3 [1; 2; 3])].

(** A new-view message needs neither distinct view changes nor a higher
    view: a single validator, the leader of an earlier view, takes an engine
    back to that view by repeating its own view change up to the quorum. *)
Theorem new_view_alone_and_backwards :
  exists nv, ce_current_view engine_view3 = 3 /\
    Forall (fun vc => vc_validator vc = nv_leader nv) (nv_view_changes nv) /\
    (handle_new_view (net_env 2 4) nv engine_view3).1 = Ok tt /\
    ce_current_view (handle_new_view (net_env 2 4) nv engine_view3).2 = 1.
Proof. exists (new_view_of 3 1 [3; 3; 3]). split_and!; by_compute. Qed.

(** Engine 2 that receives all commits of the others before the prepares. *)
Definition early_calls : list Call :=
  votes_for [] block_a ++ commit_calls [1; 3; 4] block_a ++ prepare_calls [1; 3] block_a.
Definition engine_stalled : ConsensusEngine := run (net_env 2 4) (kp 2) early_calls.

(** Commits that arrive before the prepares can stall a round for good: the
    quorum of commits is only looked at when a commit arrives, so an engine
    that holds the commits of all four validators when it becomes prepared
    does not decide, and no commit it can still receive changes that. *)
Theorem early_commits_stall :
  (rd_phase <$> ce_current_round engine_stalled) = Some PhasePrepared /\
  ((fun r => size (rd_commits r)) <$> ce_current_round engine_stalled) = Some 4%nat /\
  get_decision engine_stalled 1 = None /\
  forall m, exists err, handle_commit (net_env 2 4) m engine_stalled = (Err err, engine_stalled).
Proof.
  split; [by_compute|]. split; [by_compute|]. split; [by_compute|]. intros m.
  apply handle_commit_refuse. intros r Hr Hacc.
  assert (Hall : (fun r => bool_decide (dom (vs_validators (registered_by 2 4)) ⊆
            dom (rd_commits r))) <$> ce_current_round engine_stalled = Some true) by by_compute.
  rewrite Hr in Hall. simpl in Hall. injection Hall as Hall. apply bool_decide_eq_true in Hall.
  destruct Hacc as [_ _ _ Hreg _ Hfresh]. apply Hfresh, Hall, elem_of_dom.
  unfold is_validator in Hreg. by apply bool_decide_eq_true in Hreg.
Qed.

(** Seven validators, of which only 1 to 4 are still heard of at [late]. *)
Definition late : Z := 100000.
Definition partly_stale : ValidatorSet :=
  fold_left (fun vs i => (vs_update_from_heartbeat late (hk i) zero32 1 (1000 + i) vs).2)
    [1; 2; 3; 4] (registered_by 1 7).
Definition late_env : Env := mk_Env partly_stale (ChainState_new 0 100) late.
Definition late_run : ConsensusEngine :=
  run late_env (kp 1) (votes_for [5; 6] block_a ++ commit_calls [5; 6] block_a).

(** Votes of registered but inactive validators count: with four of seven
    validators active the quorum is three, and an engine decides on its own
    vote and two of inactive validators. *)
Theorem inactive_votes_count :
  engine_quorum late_env = 3%nat /\
  (signers <$> get_decision late_run 1) = Some (hotkeys [1; 5; 6]) /\
  hotkeys [5; 6] ∩ active_hotkeys late partly_stale = ∅.
Proof. split_and!; by_compute. Qed.
End ConsensusExamples.
