(* ===== verification/Network.v ===== *)
(** * The authenticated gossip layer

    Models the parts of [crates/p2p-consensus/src/network.rs] that keep state:
    the peer mapping, signing and verification of the message envelope,
    replay protection and rate limiting.  libp2p (transport, gossipsub
    itself, Kademlia, identify) is not modelled; bincode of the envelope is a
    parameter with its round trip as a law.  Each method that reads the clock
    takes the reading as an argument. *)

From S2P Require Import Prelude Float64 Crypto Messages.

Inductive NetworkError : Type :=
| NetTransport (msg : string)
| NetGossipsub (msg : string)
| NetDht (msg : string)
| NetSerialization (msg : string)
| NoPeers
| NetChannel (msg : string)
| ReplayAttack (signer : string) (nonce : Z)
| RateLimitExceeded (signer : string) (count : nat).

#[global] Instance NetworkError_eq_dec : EqDecision NetworkError.
Proof. solve_decision. Defined.

Definition DEFAULT_RATE_LIMIT : nat := 100.
Definition RATE_LIMIT_WINDOW_MS : Z := 1000.
Definition NONCE_EXPIRY_MS : Z := 5 * 60 * 1000.

(** bincode of the envelope: the bytes that are signed ([signing_bytes]), and
    the whole message on the wire. *)
Class EnvelopeCodec : Type := {
  signing_bytes : P2PMessage -> Z -> result string bytes;
  encode_signed : SignedP2PMessage -> result string bytes;
  decode_signed : bytes -> result string SignedP2PMessage
}.

Class EnvelopeCodecLaws `{EnvelopeCodec} : Prop := {
  decode_encode : forall s b, encode_signed s = Ok b -> decode_signed b = Ok s
}.

(** [VecDeque::pop_front] while the front is older than the window. *)
Fixpoint drop_old (now : Z) (queue : list Z) : list Z :=
  match queue with
  | front :: rest => if RATE_LIMIT_WINDOW_MS <? now - front then drop_old now rest else queue
  | [] => []
  end.

(** [retain(|_, timestamp| now - timestamp < max_age)]. *)
Definition retain_nonces (now max_age : Z) (nonces : gmap Z Z) : gmap Z Z :=
  filter (fun kv => now - kv.2 < max_age) nonces.

(** [x as i64] of a [u64]. *)
Definition u64_as_i64 (x : Z) : Z := if x <? 2 ^ 63 then x else x - 2 ^ 64.

Section network.
Context `{External} `{EnvelopeCodec} {PeerId : Type} `{Countable PeerId}.

(** ** Peer mapping *)

Record PeerMapping : Type := mk_PeerMapping {
  peer_to_hotkey : gmap PeerId Hotkey;
  hotkey_to_peer : gmap Hotkey PeerId
}.

Definition PeerMapping_new : PeerMapping := mk_PeerMapping ∅ ∅.

Definition pmap_insert (peer_id : PeerId) (hotkey : Hotkey) (m : PeerMapping) : PeerMapping :=
  mk_PeerMapping (<[peer_id := hotkey]> (peer_to_hotkey m)) (<[hotkey := peer_id]> (hotkey_to_peer m)).

Definition get_hotkey (m : PeerMapping) (peer_id : PeerId) : option Hotkey :=
  peer_to_hotkey m !! peer_id.
Definition get_peer (m : PeerMapping) (hotkey : Hotkey) : option PeerId :=
  hotkey_to_peer m !! hotkey.

Definition remove_peer (peer_id : PeerId) (m : PeerMapping) : PeerMapping :=
  match peer_to_hotkey m !! peer_id with
  | Some hotkey =>
      mk_PeerMapping (delete peer_id (peer_to_hotkey m)) (delete hotkey (hotkey_to_peer m))
  | None => m
  end.

Definition pmap_len (m : PeerMapping) : nat := size (peer_to_hotkey m).
Definition pmap_is_empty (m : PeerMapping) : bool := (pmap_len m =? 0)%nat.

(** ** The network node *)

Record P2PNetwork : Type := mk_P2PNetwork {
  net_keypair : Keypair;
  net_peer_mapping : PeerMapping;
  net_nonce : Z;
  net_seen_nonces : gmap Hotkey (gmap Z Z);
  net_message_timestamps : gmap Hotkey (list Z)
}.

Definition P2PNetwork_new (keypair : Keypair) : P2PNetwork :=
  {| net_keypair := keypair;
     net_peer_mapping := PeerMapping_new;
     net_nonce := 0;
     net_seen_nonces := ∅;
     net_message_timestamps := ∅ |}.

Definition set_peer_mapping (m : PeerMapping) (n : P2PNetwork) : P2PNetwork :=
  mk_P2PNetwork (net_keypair n) m (net_nonce n) (net_seen_nonces n) (net_message_timestamps n).
Definition set_nonce (x : Z) (n : P2PNetwork) : P2PNetwork :=
  mk_P2PNetwork (net_keypair n) (net_peer_mapping n) x (net_seen_nonces n)
    (net_message_timestamps n).
Definition set_seen_nonces (m : gmap Hotkey (gmap Z Z)) (n : P2PNetwork) : P2PNetwork :=
  mk_P2PNetwork (net_keypair n) (net_peer_mapping n) (net_nonce n) m (net_message_timestamps n).
Definition set_message_timestamps (m : gmap Hotkey (list Z)) (n : P2PNetwork) : P2PNetwork :=
  mk_P2PNetwork (net_keypair n) (net_peer_mapping n) (net_nonce n) (net_seen_nonces n) m.

Abbreviation NetM := (SE P2PNetwork NetworkError).

Definition connected_peer_count (n : P2PNetwork) : nat := pmap_len (net_peer_mapping n).
Definition has_min_peers (n : P2PNetwork) (min_required : nat) : bool :=
  (min_required <=? connected_peer_count n)%nat.

Definition sign_message (message : P2PMessage) : NetM SignedP2PMessage :=
  _ ← modify (fun n => set_nonce (u64_add (net_nonce n) 1) n);
  n ← get_state;
  bytes ← lift (result_map_err NetSerialization (signing_bytes message (net_nonce n)));
  signature ← lift (result_map_err (fun e => NetSerialization (MiniChainError_to_string e))
                      (Keypair_sign_bytes (net_keypair n) bytes));
  mret (mk_SignedP2PMessage message (Keypair_hotkey (net_keypair n)) signature (net_nonce n)).

(** What [broadcast_consensus] and [broadcast_challenge] hand to gossipsub. *)
Definition broadcast_bytes (message : P2PMessage) : NetM bytes :=
  signed ← sign_message message;
  lift (result_map_err NetSerialization (encode_signed signed)).

Definition verify_message (signed : SignedP2PMessage) : bool :=
  match signing_bytes (sp_message signed) (sp_nonce signed) with
  | Err _ => false
  | Ok bytes =>
      match SignedMessage_verify (mk_SignedMessage bytes (sp_signature signed) (sp_signer signed)) with
      | Ok b => b
      | Err _ => false
      end
  end.

Definition check_replay (now : Z) (signer : Hotkey) (nonce : Z) : NetM unit :=
  n ← get_state;
  let nonces := retain_nonces now NONCE_EXPIRY_MS (default ∅ (net_seen_nonces n !! signer)) in
  _ ← modify (set_seen_nonces (<[signer := nonces]> (net_seen_nonces n)));
  _ ← require (bool_decide (nonces !! nonce = None)) (ReplayAttack (Hotkey_to_hex signer) nonce);
  modify (set_seen_nonces (<[signer := <[nonce := now]> nonces]> (net_seen_nonces n))).

Definition check_rate_limit (now : Z) (signer : Hotkey) : NetM unit :=
  n ← get_state;
  let queue := drop_old now (default [] (net_message_timestamps n !! signer)) in
  _ ← modify (set_message_timestamps (<[signer := queue]> (net_message_timestamps n)));
  _ ← require (negb (DEFAULT_RATE_LIMIT <=? length queue)%nat)
        (RateLimitExceeded (Hotkey_to_hex signer) (length queue));
  modify (set_message_timestamps (<[signer := queue ++ [now]]> (net_message_timestamps n))).

(** [now_rate] and [now_replay] are the clock readings of the two checks. *)
Definition handle_gossipsub_message (now_rate now_replay : Z) (source : PeerId) (data : bytes) :
    NetM P2PMessage :=
  signed ← lift (result_map_err NetSerialization (decode_signed data));
  _ ← require (verify_message signed) (NetGossipsub "Invalid message signature");
  _ ← check_rate_limit now_rate (sp_signer signed);
  _ ← check_replay now_replay (sp_signer signed) (sp_nonce signed);
  n ← get_state;
  _ ← match get_hotkey (net_peer_mapping n) source with
      | None => modify (set_peer_mapping
                  (pmap_insert source (sp_signer signed) (net_peer_mapping n)))
      | Some _ => mret tt
      end;
  mret (sp_message signed).

Definition clean_old_nonces (now max_age_secs : Z) (n : P2PNetwork) : P2PNetwork :=
  let max_age_ms := u64_as_i64 (u64_mul max_age_secs 1000) in
  let cleaned := retain_nonces now max_age_ms <$> net_seen_nonces n in
  set_seen_nonces (filter (fun kv => kv.2 <> ∅) cleaned) n.

Definition clean_rate_limit_entries (now : Z) (n : P2PNetwork) : P2PNetwork :=
  let cleaned := drop_old now <$> net_message_timestamps n in
  set_message_timestamps (filter (fun kv => kv.2 <> []) cleaned) n.

(** The network's part of [handle_connection_closed]. *)
Definition connection_closed (peer_id : PeerId) (n : P2PNetwork) : P2PNetwork :=
  set_peer_mapping (remove_peer peer_id (net_peer_mapping n)) n.
End network.
Arguments PeerMapping PeerId {_ _}.
Arguments P2PNetwork {_} PeerId {_ _}.
