(* ===== verification/NetworkProps.v ===== *)
(** * Properties of the gossip layer

    Replay protection within the nonce expiry time, the sliding-window rate
    limit over whole runs, delivery of what an honest node broadcasts, and
    where these protections end. *)

From S2P Require Import Prelude Float64 Crypto Messages Network.

Section properties.
Context `{External} `{Laws : !ExternalLaws} `{EnvelopeCodec} `{CLaws : !EnvelopeCodecLaws}
  {PeerId : Type} `{Countable PeerId}.
Abbreviation Net := (P2PNetwork PeerId).
Implicit Types n : Net.

(** ** Runs of a network node *)

Inductive NetOp : Type :=
| Receive (now_rate now_replay : Z) (source : PeerId) (data : bytes)
| Broadcast (message : P2PMessage)
| CleanNonces (now max_age_secs : Z)
| CleanRateLimits (now : Z)
| Closed (peer : PeerId).

Definition net_op n (op : NetOp) : Net :=
  match op with
  | Receive t1 t2 source data => (handle_gossipsub_message t1 t2 source data n).2
  | Broadcast m => (broadcast_bytes m n).2
  | CleanNonces now secs => clean_old_nonces now secs n
  | CleanRateLimits now => clean_rate_limit_entries now n
  | Closed peer => connection_closed peer n
  end.

Definition net_run n (ops : list NetOp) : Net := fold_left net_op ops n.

(** ** Replay protection *)

(** When the pair of signer and nonce was last seen. *)
Definition seen n (h : Hotkey) (nonce : Z) : option Z :=
  net_seen_nonces n !! h ≫= fun nonces => nonces !! nonce.

Lemma lookup_retain_nonces now max_age (m : gmap Z Z) k ts :
  m !! k = Some ts -> now - ts < max_age -> retain_nonces now max_age m !! k = Some ts.
Proof. intros Hk Ht. by apply map_lookup_filter_Some_2. Qed.

Lemma check_rate_limit_seen now h n :
  net_seen_nonces (check_rate_limit now h n).2 = net_seen_nonces n.
Proof.
  unfold check_rate_limit, mbind, SE_bind, require, modify, get_state. simpl. by destruct (negb _).
Qed.

(** A nonce that has not expired is refused, and stays. *)
Lemma check_replay_keeps now h nonce h' k ts n :
  seen n h' k = Some ts -> now - ts < NONCE_EXPIRY_MS ->
  seen (check_replay now h nonce n).2 h' k = Some ts /\
  (h = h' -> nonce = k ->
   (check_replay now h nonce n).1 = Err (ReplayAttack (Hotkey_to_hex h) nonce)).
Proof.
  unfold seen. intros Hs Ht.
  destruct (net_seen_nonces n !! h') as [m|] eqn:Hm; simplify_eq/=.
  assert (Hk := lookup_retain_nonces now NONCE_EXPIRY_MS m k ts Hs Ht).
  unfold check_replay, mbind, SE_bind, require, modify, get_state. simpl.
  destruct (decide (h = h')) as [->|Hh].
  - rewrite Hm. simpl. case_bool_decide as Hn; simpl; rewrite lookup_insert_eq; simpl.
    + split; [|intros _ ->; by rewrite Hk in Hn].
      rewrite lookup_insert_ne; [done|]. intros ->. by rewrite Hk in Hn.
    + done.
  - case_bool_decide; simpl; rewrite lookup_insert_ne, Hm by done; by split.
Qed.

Lemma check_replay_records now h nonce n :
  (check_replay now h nonce n).1 = Ok tt -> seen (check_replay now h nonce n).2 h nonce = Some now.
Proof.
  unfold check_replay, seen, mbind, SE_bind, require, modify, get_state. simpl.
  case_bool_decide; simpl; [|done]. intros _. rewrite lookup_insert_eq. simpl.
  by rewrite lookup_insert_eq.
Qed.

(** The handler as a cascade of its checks. *)
Lemma receive_eq t1 t2 source data n :
  handle_gossipsub_message t1 t2 source data n =
  match decode_signed data with
  | Err err => (Err (NetSerialization err), n)
  | Ok s =>
      if verify_message s then
        match check_rate_limit t1 (sp_signer s) n with
        | (Err err, n1) => (Err err, n1)
        | (Ok _, n1) =>
            match check_replay t2 (sp_signer s) (sp_nonce s) n1 with
            | (Err err, n2) => (Err err, n2)
            | (Ok _, n2) =>
                (Ok (sp_message s),
                 match get_hotkey (net_peer_mapping n2) source with
                 | None => set_peer_mapping
                             (pmap_insert source (sp_signer s) (net_peer_mapping n2)) n2
                 | Some _ => n2
                 end)
            end
        end
      else (Err (NetGossipsub "Invalid message signature"), n)
  end.
Proof.
  unfold handle_gossipsub_message, mbind, SE_bind, lift, require.
  destruct (decode_signed data) as [s|err]; cbn [result_map_err]; [|reflexivity].
  destruct (verify_message s); [|reflexivity].
  destruct (check_rate_limit t1 (sp_signer s) n) as [[[]|err] n1]; [|reflexivity].
  destruct (check_replay t2 (sp_signer s) (sp_nonce s) n1) as [[[]|err] n2]; [|reflexivity].
  cbn [get_state]. destruct (get_hotkey _ _); reflexivity.
Qed.

(** The age in milliseconds up to which a cleaning keeps nonces. *)
Definition kept_age (max_age_secs : Z) : Z := u64_as_i64 (u64_mul max_age_secs 1000).

(** An operation that does not drop a nonce seen at [ts]: a receipt before the
    nonce expires, or a cleaning that asks for a larger age than the nonce has. *)
Definition op_keeps (ts : Z) (op : NetOp) : Prop :=
  match op with
  | Receive _ t2 _ _ => t2 < ts + NONCE_EXPIRY_MS
  | CleanNonces now secs => now - ts < kept_age secs
  | _ => True
  end.

Lemma receive_keeps_seen t1 t2 source data n h k ts :
  seen n h k = Some ts -> t2 - ts < NONCE_EXPIRY_MS ->
  seen (handle_gossipsub_message t1 t2 source data n).2 h k = Some ts.
Proof.
  intros Hs Ht. rewrite receive_eq. destruct (decode_signed data) as [s|]; [|done].
  destruct (verify_message s); [|done].
  assert (Hseen1 := check_rate_limit_seen t1 (sp_signer s) n).
  destruct (check_rate_limit t1 (sp_signer s) n) as [r1 n1].
  assert (Hs1 : seen n1 h k = Some ts) by (unfold seen in *; simpl in Hseen1; by rewrite Hseen1).
  destruct r1; [|done].
  destruct (check_replay_keeps t2 (sp_signer s) (sp_nonce s) h k ts n1 Hs1 Ht) as [Hs2 _].
  destruct (check_replay t2 (sp_signer s) (sp_nonce s) n1) as [[|] n2]; [|done].
  cbn [snd]. by destruct (get_hotkey _ _).
Qed.

Lemma clean_old_nonces_seen now secs n h k ts :
  seen n h k = Some ts -> now - ts < kept_age secs -> seen (clean_old_nonces now secs n) h k = Some ts.
Proof.
  unfold seen, clean_old_nonces. intros Hs Ht. simpl.
  destruct (net_seen_nonces n !! h) as [m|] eqn:Hm; simplify_eq/=. fold (kept_age secs).
  assert (Hk : retain_nonces now (kept_age secs) m !! k = Some ts) by (by apply lookup_retain_nonces).
  erewrite map_lookup_filter_Some_2; [simpl; exact Hk|by rewrite lookup_fmap, Hm|].
  simpl. intros Hempty. by rewrite Hempty, lookup_empty in Hk.
Qed.

Lemma run_keeps_seen ops n h k ts :
  seen n h k = Some ts -> Forall (op_keeps ts) ops ->
  seen (net_run n ops) h k = Some ts.
Proof.
  intros Hs Hall. revert n Hs. induction Hall as [|op ops Hop _ IH]; intros n Hs; [done|].
  apply IH. destruct op as [t1 t2 source data|m|now secs|now|peer]; simpl in *.
  - apply receive_keeps_seen; [done|lia].
  - unfold broadcast_bytes, sign_message, mbind, SE_bind, lift, modify, get_state.
    by destruct (signing_bytes _ _).
  - by apply clean_old_nonces_seen.
  - done.
  - done.
Qed.

(** A delivered message leaves its nonce behind. *)
Lemma delivered_seen t1 t2 source data n m n' s :
  handle_gossipsub_message t1 t2 source data n = (Ok m, n') -> decode_signed data = Ok s ->
  m = sp_message s /\ verify_message s = true /\ seen n' (sp_signer s) (sp_nonce s) = Some t2.
Proof.
  intros Hrun Hd. rewrite receive_eq, Hd in Hrun. destruct (verify_message s); [|congruence].
  destruct (check_rate_limit t1 (sp_signer s) n) as [[[]|] n1]; [|congruence].
  pose proof (check_replay_records t2 (sp_signer s) (sp_nonce s) n1) as Hrec.
  destruct (check_replay t2 (sp_signer s) (sp_nonce s) n1) as [[[]|] n2]; [|congruence].
  injection Hrun as <- <-. specialize (Hrec eq_refl).
  split; [done|]. split; [done|]. by destruct (get_hotkey _ _).
Qed.

(** A remembered nonce is refused. *)
Lemma seen_refused t1 t2 source data n s ts :
  decode_signed data = Ok s -> seen n (sp_signer s) (sp_nonce s) = Some ts ->
  t2 - ts < NONCE_EXPIRY_MS ->
  exists err, (handle_gossipsub_message t1 t2 source data n).1 = Err err.
Proof.
  intros Hd Hseen Ht. rewrite receive_eq, Hd. destruct (verify_message s); [|by eexists].
  assert (Hkeep := check_rate_limit_seen t1 (sp_signer s) n).
  destruct (check_rate_limit t1 (sp_signer s) n) as [[[]|] n1]; [|by eexists].
  assert (Hs1 : seen n1 (sp_signer s) (sp_nonce s) = Some ts)
    by (unfold seen in *; simpl in Hkeep; by rewrite Hkeep).
  destruct (check_replay_keeps t2 (sp_signer s) (sp_nonce s) _ _ ts n1 Hs1) as [_ Herr]; [lia|].
  specialize (Herr eq_refl eq_refl).
  destruct (check_replay t2 (sp_signer s) (sp_nonce s) n1) as [r n2]. simpl in Herr. subst r.
  by eexists.
Qed.

(** C12. Replay protection: once a message was delivered, no message of the same
    signer with the same nonce is delivered for the next five minutes of the
    clock, whatever is received, sent or closed in between, and however often
    rate limits and nonces are cleaned, as long as no cleaning asks for nonces
    as young as this one to be dropped. *)
Theorem replay_refused t1 t2 source data n m n' s ops t1' t2' source' data' s' :
  handle_gossipsub_message t1 t2 source data n = (Ok m, n') -> decode_signed data = Ok s ->
  Forall (op_keeps t2) ops ->
  decode_signed data' = Ok s' -> sp_signer s' = sp_signer s -> sp_nonce s' = sp_nonce s ->
  t2' < t2 + NONCE_EXPIRY_MS ->
  exists err, (handle_gossipsub_message t1' t2' source' data' (net_run n' ops)).1 = Err err.
Proof.
  intros Hrun Hd Hops Hd' Hsig Hnonce Ht.
  destruct (delivered_seen t1 t2 source data n m n' s Hrun Hd) as (_ & _ & Hseen).
  apply (seen_refused t1' t2' source' data' _ s' t2); [done| |lia].
  rewrite Hsig, Hnonce. by apply run_keeps_seen.
Qed.

(** ** Rate limit *)

(** The time at which an operation delivers a message signed by [h], if any. *)
Definition delivered (h : Hotkey) n (op : NetOp) : list Z :=
  match op with
  | Receive t1 t2 source data =>
      match (handle_gossipsub_message t1 t2 source data n).1, decode_signed data with
      | Ok _, Ok s => if bool_decide (sp_signer s = h) then [t1] else []
      | _, _ => []
      end
  | _ => []
  end.

Fixpoint deliveries (h : Hotkey) n (ops : list NetOp) : list Z :=
  match ops with
  | [] => []
  | op :: ops => delivered h n op ++ deliveries h (net_op n op) ops
  end.

(** The clock readings of the rate limiter do not go back. *)
Fixpoint monotone (last : Z) (ops : list NetOp) : Prop :=
  match ops with
  | [] => True
  | Receive t _ _ _ :: ops | CleanRateLimits t :: ops => last <= t /\ monotone t ops
  | _ :: ops => monotone last ops
  end.

Definition in_window (t x : Z) : Prop := t <= x <= t + RATE_LIMIT_WINDOW_MS.
#[local] Instance in_window_dec t x : Decision (in_window t x).
Proof. unfold in_window. apply _. Defined.

Definition queue_of n (h : Hotkey) : list Z := default [] (net_message_timestamps n !! h).

(** Past deliveries are covered by the queue and by entries that have left
    the window for good; no window holds more than the limit. *)
Record rate_inv (h : Hotkey) (last : Z) (past : list Z) n : Prop := {
  ri_cover : exists old, past `sublist_of` old ++ queue_of n h /\
    Forall (fun x => RATE_LIMIT_WINDOW_MS < last - x) old;
  ri_length : (length (queue_of n h) <= DEFAULT_RATE_LIMIT)%nat;
  ri_window : forall t, (length (filter (in_window t) past) <= DEFAULT_RATE_LIMIT)%nat
}.

Lemma drop_old_split now q :
  exists d, q = d ++ drop_old now q /\ Forall (fun x => RATE_LIMIT_WINDOW_MS < now - x) d.
Proof.
  induction q as [|x q (d & Hq & Hd)]; simpl; [by exists []|].
  destruct (Z.ltb_spec RATE_LIMIT_WINDOW_MS (now - x)).
  - exists (x :: d). split; [by rewrite <- app_comm_cons, <- Hq|]. by constructor.
  - by exists [].
Qed.

Lemma length_filter_sublist {A} (P : A -> Prop) `{forall x, Decision (P x)} (l k : list A) :
  l `sublist_of` k -> (length (filter P l) <= length (filter P k))%nat.
Proof.
  induction 1 as [|x l k _ IH|x l k _ IH]; rewrite ?filter_cons; [done|..];
    case_decide; simpl; lia.
Qed.

(** Dropping old entries, as the clock moves to [now]. *)
Lemma rate_inv_drop h last now past n n' :
  rate_inv h last past n -> last <= now -> queue_of n' h = drop_old now (queue_of n h) ->
  rate_inv h now past n'.
Proof.
  intros [(old & Hsub & Hold) Hlen Hwin] Hnow Hq.
  destruct (drop_old_split now (queue_of n h)) as (d & Hd & Hdold).
  split; [|rewrite Hq|done].
  - exists (old ++ d). rewrite Hq, <- (assoc_L (++)), <- Hd. split; [done|].
    apply Forall_app. split; [|done]. eapply Forall_impl; [done|]. simpl. lia.
  - rewrite Hd, length_app in Hlen. lia.
Qed.

(** Accepting one more message at time [last] when the queue is not full. *)
Lemma rate_inv_push h last past n n' (b : bool) :
  rate_inv h last past n -> (length (queue_of n h) < DEFAULT_RATE_LIMIT)%nat ->
  queue_of n' h = queue_of n h ++ [last] ->
  rate_inv h last (past ++ if b then [last] else []) n'.
Proof.
  intros [(old & Hsub & Hold) Hlen Hwin] Hlt Hq.
  assert (Hsub' : past ++ (if b then [last] else []) `sublist_of` old ++ queue_of n' h).
  { rewrite Hq, (assoc_L (++)). apply sublist_app; [done|]. destruct b; [done|apply sublist_nil_l]. }
  split; [by exists old|rewrite Hq, length_app; simpl; lia|]. intros t.
  destruct (decide (in_window t last)) as [Hin|Hout].
  - etransitivity; [by apply length_filter_sublist|]. rewrite filter_app, length_app.
    assert (Hnone : filter (in_window t) old = []).
    { clear Hsub Hsub'. induction Hold as [|x old Hx _ IH]; [done|].
      rewrite filter_cons_False; [done|]. unfold in_window, RATE_LIMIT_WINDOW_MS in *. lia. }
    rewrite Hnone, Hq. simpl. pose proof (length_filter (in_window t) (queue_of n h ++ [last])) as Hf.
    rewrite length_app in Hf. simpl in Hf. lia.
  - rewrite filter_app, length_app. specialize (Hwin t). destruct b; simpl; [|lia].
    rewrite filter_cons_False by done. simpl. lia.
Qed.

Lemma check_rate_limit_eq t h n :
  let q := drop_old t (queue_of n h) in
  check_rate_limit t h n =
  if (DEFAULT_RATE_LIMIT <=? length q)%nat
  then (Err (RateLimitExceeded (Hotkey_to_hex h) (length q)),
        set_message_timestamps (<[h := q]> (net_message_timestamps n)) n)
  else (Ok tt, set_message_timestamps (<[h := q ++ [t]]> (net_message_timestamps n)) n).
Proof.
  unfold check_rate_limit, queue_of, mbind, SE_bind, require, modify, get_state.
  by destruct (_ <=? _)%nat.
Qed.

Lemma check_rate_limit_inv h h' t last past n :
  rate_inv h last past n -> last <= t ->
  let '(r, n') := check_rate_limit t h' n in
  rate_inv h t (past ++ if bool_decide (h' = h) && is_ok r then [t] else []) n' /\
  (r = Ok tt -> rate_inv h t past n').
Proof.
  intros Hinv Ht. rewrite check_rate_limit_eq. cbv zeta.
  set (q := drop_old t (queue_of n h')).
  set (n1 := set_message_timestamps (<[h' := q]> (net_message_timestamps n)) n).
  assert (Hdrop : rate_inv h t past n1).
  { destruct (decide (h' = h)) as [->|Hne].
    - eapply rate_inv_drop; [done..|]. unfold queue_of. simpl. by rewrite lookup_insert_eq.
    - assert (Hq : queue_of n1 h = queue_of n h)
        by (unfold queue_of; simpl; by rewrite lookup_insert_ne).
      destruct Hinv as [(old & Hsub & Hold) Hlen Hwin].
      split; rewrite ?Hq; try done. exists old. split; [done|].
      eapply Forall_impl; [done|]. simpl. lia. }
  destruct (Nat.leb_spec DEFAULT_RATE_LIMIT (length q)) as [Hfull|Hroom].
  - cbn [is_ok]. rewrite andb_false_r, app_nil_r. by split.
  - cbn [is_ok]. rewrite andb_true_r. set (n2 := set_message_timestamps _ n).
    destruct (decide (h' = h)) as [->|Hne].
    + assert (Hpush : forall b, rate_inv h t (past ++ if b : bool then [t] else []) n2).
      { intros b. apply (rate_inv_push h t past n1); [done| |];
          unfold queue_of; simpl; rewrite !lookup_insert_eq; done. }
      split; [apply Hpush|intros _]. specialize (Hpush false). by rewrite app_nil_r in Hpush.
    + rewrite bool_decide_eq_false_2, app_nil_r by done.
      assert (Hq : queue_of n2 h = queue_of n1 h)
        by (unfold queue_of; simpl; by rewrite !lookup_insert_ne).
      assert (rate_inv h t past n2) by (destruct Hdrop as [Hc Hl Hw]; split; by rewrite ?Hq).
      by split.
Qed.

Lemma rate_inv_queue h last past n n' :
  rate_inv h last past n -> queue_of n' h = queue_of n h -> rate_inv h last past n'.
Proof. intros [Hc Hl Hw] Hq. split; by rewrite ?Hq. Qed.

Lemma rate_inv_later h last last' past n :
  rate_inv h last past n -> last <= last' -> rate_inv h last' past n.
Proof.
  intros [(old & Hsub & Hold) Hl Hw] Ht. split; try done. exists old. split; [done|].
  eapply Forall_impl; [done|]. simpl. lia.
Qed.

Lemma check_replay_queue t h k n h' :
  queue_of (check_replay t h k n).2 h' = queue_of n h'.
Proof.
  unfold check_replay, mbind, SE_bind, require, modify, get_state. simpl. by case_bool_decide.
Qed.

Lemma receive_rate_inv h t1 t2 source data last past n :
  rate_inv h last past n -> last <= t1 ->
  rate_inv h t1 (past ++ delivered h n (Receive t1 t2 source data))
    (net_op n (Receive t1 t2 source data)).
Proof.
  intros Hinv Ht. unfold delivered, net_op. rewrite receive_eq.
  destruct (decode_signed data) as [s|];
    [|cbn [fst snd]; rewrite app_nil_r; by eapply rate_inv_later].
  destruct (verify_message s); [|cbn [fst snd]; rewrite app_nil_r; by eapply rate_inv_later].
  pose proof (check_rate_limit_inv h (sp_signer s) t1 last past n Hinv Ht) as Hrate.
  destruct (check_rate_limit t1 (sp_signer s) n) as [r1 n1]. destruct Hrate as [Hyes Hno].
  destruct r1 as [[]|err]; cbn [is_ok fst snd] in *;
    [|by rewrite andb_false_r in Hyes]. rewrite andb_true_r in Hyes.
  pose proof (check_replay_queue t2 (sp_signer s) (sp_nonce s) n1 h) as Hq.
  destruct (check_replay t2 (sp_signer s) (sp_nonce s) n1) as [[[]|err] n2]; cbn [fst snd] in *.
  - eapply rate_inv_queue; [exact Hyes|]. by destruct (get_hotkey _ _).
  - rewrite app_nil_r. eapply rate_inv_queue; [by apply Hno|done].
Qed.

Lemma clean_rate_limit_queue now n h :
  queue_of (clean_rate_limit_entries now n) h = drop_old now (queue_of n h).
Proof.
  unfold queue_of, clean_rate_limit_entries. simpl. rewrite map_lookup_filter, lookup_fmap.
  destruct (net_message_timestamps n !! h) as [q|]; simpl; [|done].
  case_guard as Hd; simpl; [done|]. simpl in Hd.
  destruct (drop_old now q); [done|]. by destruct Hd.
Qed.

Lemma run_rate_inv ops h last past n :
  rate_inv h last past n -> monotone last ops ->
  exists last', rate_inv h last' (past ++ deliveries h n ops) (net_run n ops).
Proof.
  revert last past n. induction ops as [|op ops IH]; intros last past n Hinv Hm.
  - exists last. simpl. by rewrite app_nil_r.
  - destruct op as [t1 t2 source data|m|now secs|now|peer]; simpl in Hm; cbn [deliveries];
      rewrite (assoc_L (++)).
    + destruct Hm as [Ht Hm]. eapply IH; [by eapply receive_rate_inv|done].
    + eapply IH; [|done]. cbn [delivered]. rewrite app_nil_r. eapply rate_inv_queue; [done|].
      simpl. unfold broadcast_bytes, sign_message, mbind, SE_bind, lift, modify, get_state.
      by destruct (signing_bytes _ _).
    + eapply IH; [|done]. cbn [delivered]. rewrite app_nil_r. by eapply rate_inv_queue.
    + destruct Hm as [Ht Hm]. eapply IH; [|done]. cbn [delivered]. rewrite app_nil_r.
      eapply rate_inv_drop; [done..|]. apply clean_rate_limit_queue.
    + eapply IH; [|done]. cbn [delivered]. rewrite app_nil_r. by eapply rate_inv_queue.
Qed.

(** C13. The rate limit holds over every window, not only over aligned ones:
    in any run of a node whose clock does not go back, at most 100 messages
    of one signer are delivered within any 1000 milliseconds. *)
Theorem rate_limit_any_window k last ops h t :
  monotone last ops ->
  (length (filter (in_window t) (deliveries h (P2PNetwork_new k) ops)) <= 100)%nat.
Proof.
  intros Hm. destruct (run_rate_inv ops h last [] (P2PNetwork_new k)) as (last' & Hinv); [|done|].
  - split; [exists []; split; [apply sublist_nil_l|done]| |intros; apply Nat.le_0_l].
    unfold queue_of. simpl. rewrite lookup_empty. apply Nat.le_0_l.
  - exact (ri_window _ _ _ _ Hinv t).
Qed.

(** ** Honest messages *)

(** The wire form of a message, and the nonce it carries. *)
Lemma broadcast_bytes_Ok message n b n' :
  broadcast_bytes message n = (Ok b, n') ->
  exists s sb, signing_bytes message (u64_add (net_nonce n) 1) = Ok sb /\
    s = mk_SignedP2PMessage message (Keypair_hotkey (net_keypair n))
          (sr25519_sign (kp_pair (net_keypair n)) sb) (u64_add (net_nonce n) 1) /\
    encode_signed s = Ok b /\ n' = set_nonce (u64_add (net_nonce n) 1) n.
Proof.
  unfold broadcast_bytes, sign_message, mbind, SE_bind, lift, modify, get_state. simpl.
  destruct (signing_bytes message _) as [sb|] eqn:Hsb; simpl; [|congruence].
  destruct (encode_signed _) as [b'|] eqn:He; simpl; [|congruence].
  intros [= -> <-]. do 2 eexists. split; [done|]. split; [done|]. by split.
Qed.

(** A verified message is delivered when the rate and the nonce allow it. *)
Lemma fresh_delivered t1 t2 source data n s :
  decode_signed data = Ok s -> verify_message s = true ->
  (length (drop_old t1 (queue_of n (sp_signer s))) < DEFAULT_RATE_LIMIT)%nat ->
  (forall ts, seen n (sp_signer s) (sp_nonce s) = Some ts -> NONCE_EXPIRY_MS <= t2 - ts) ->
  (handle_gossipsub_message t1 t2 source data n).1 = Ok (sp_message s).
Proof.
  intros Hd Hv Hroom Hfresh. rewrite receive_eq, Hd, Hv, check_rate_limit_eq.
  cbv zeta. rewrite (proj2 (Nat.leb_gt _ _) Hroom). set (n1 := set_message_timestamps _ n).
  assert (Hok : (check_replay t2 (sp_signer s) (sp_nonce s) n1).1 = Ok tt).
  { unfold check_replay, mbind, SE_bind, require, modify, get_state. simpl.
    rewrite bool_decide_eq_true_2; [done|]. apply map_lookup_filter_None. right.
    intros ts Hts. simpl. unfold seen in Hfresh. simpl in Hfresh.
    destruct (net_seen_nonces n !! sp_signer s); simpl in *; [|by rewrite lookup_empty in Hts].
    specialize (Hfresh ts Hts). lia. }
  by destruct (check_replay t2 (sp_signer s) (sp_nonce s) n1) as [[[]|] n2].
Qed.

(** C14. What a node broadcasts, a peer delivers unchanged, unless the sender has
    used up its rate or the nonce is one the peer still remembers from it. *)
Theorem broadcast_delivered message n n' b peer t1 t2 source :
  broadcast_bytes message n = (Ok b, n') ->
  let h := Keypair_hotkey (net_keypair n) in
  (length (drop_old t1 (queue_of peer h)) < DEFAULT_RATE_LIMIT)%nat ->
  (forall ts, seen peer h (net_nonce n') = Some ts -> NONCE_EXPIRY_MS <= t2 - ts) ->
  (handle_gossipsub_message t1 t2 source b peer).1 = Ok message.
Proof.
  intros (s & sb & Hsb & Hs & Henc & ->)%broadcast_bytes_Ok h Hroom Hfresh.
  apply decode_encode in Henc. rewrite (fresh_delivered t1 t2 source b peer s); subst s; try done.
  unfold verify_message. simpl. rewrite Hsb.
  pose proof (sign_bytes_valid (net_keypair n) sb) as Hsig. unfold sig_valid in Hsig.
  by rewrite Hsig.
Qed.

(** ** Where the protection ends *)

(** Replay protection ends with the expiry of the nonce: the envelope holds
    no time, so the same bytes are delivered again five minutes later. *)
Theorem replay_after_expiry t1 t2 source data n m n' s t1' t2' source' :
  handle_gossipsub_message t1 t2 source data n = (Ok m, n') -> decode_signed data = Ok s ->
  (length (drop_old t1' (queue_of n' (sp_signer s))) < DEFAULT_RATE_LIMIT)%nat ->
  t2 + NONCE_EXPIRY_MS <= t2' ->
  (handle_gossipsub_message t1' t2' source' data n').1 = Ok m.
Proof.
  intros Hrun Hd Hroom Ht.
  destruct (delivered_seen t1 t2 source data n m n' s Hrun Hd) as (-> & Hv & Hseen).
  apply fresh_delivered; [done..|]. intros ts Hts. rewrite Hseen in Hts. simplify_eq. lia.
Qed.

(** A node that restarts is taken for an attacker: its nonces start again
    at 1, so its first message is refused by every peer that delivered the
    first message of its previous life in the last five minutes. *)
Theorem restarted_node_refused k m1 m2 b1 b2 n1 n2 t1 t2 source (peer : Net) m peer'
    t1' t2' source' :
  broadcast_bytes m1 (P2PNetwork_new k) = (Ok b1, n1) ->
  broadcast_bytes m2 (P2PNetwork_new k) = (Ok b2, n2) ->
  handle_gossipsub_message t1 t2 source b1 peer = (Ok m, peer') ->
  t2' < t2 + NONCE_EXPIRY_MS ->
  exists err, (handle_gossipsub_message t1' t2' source' b2 peer').1 = Err err.
Proof.
  intros (s1 & sb1 & _ & -> & Henc1 & _)%broadcast_bytes_Ok
    (s2 & sb2 & _ & Hs2 & Henc2 & _)%broadcast_bytes_Ok Hrun Ht.
  apply decode_encode in Henc1. apply decode_encode in Henc2.
  destruct (delivered_seen _ _ _ _ _ _ _ _ Hrun Henc1) as (_ & _ & Hseen).
  apply (seen_refused t1' t2' source' b2 peer' s2 t2); [done|by subst s2|lia].
Qed.

(** Removing a peer can remove another peer's mapping: when a second
    connection has been mapped to the same hotkey, closing the first leaves
    the hotkey without a peer although the second is still mapped to it. *)
Theorem remove_peer_unmaps_other (m : PeerMapping PeerId) p1 p2 h :
  p1 <> p2 ->
  let m' := remove_peer p1 (pmap_insert p2 h (pmap_insert p1 h m)) in
  get_hotkey m' p2 = Some h /\ get_peer m' h = None.
Proof.
  intros Hne m'. unfold m', remove_peer, get_hotkey, get_peer. simpl.
  rewrite lookup_insert_ne, lookup_insert_eq by done. simpl.
  rewrite lookup_delete_ne, lookup_insert_eq, lookup_delete_eq by done. done.
Qed.
End properties.

(** ** A concrete codec and concrete runs *)

Module NetworkExamples.
Import Toy.

(** A codec for heartbeats: byte strings are written with their length in
    front; other messages are not supported. *)
Definition put (b : bytes) : bytes := Z.of_nat (length b) :: b.
Definition get (l : bytes) : option (bytes * bytes) :=
  match l with
  | len :: rest => Some (take (Z.to_nat len) rest, drop (Z.to_nat len) rest)
  | [] => None
  end.

Lemma get_put b l : get (Z.of_nat (length b) :: b ++ l) = Some (b, l).
Proof. unfold get. by rewrite Nat2Z.id, take_app_length, drop_app_length. Qed.

Definition put_heartbeat (hb : HeartbeatMessage) : bytes :=
  hb_sequence hb :: hb_stake hb :: hb_timestamp hb ::
  put (hk_bytes (hb_validator hb)) ++ put (hb_state_hash hb) ++ put (hb_signature hb).

Definition toy_encode (s : SignedP2PMessage) : result string bytes :=
  match sp_message s with
  | MsgHeartbeat hb =>
      Ok (sp_nonce s :: put (hk_bytes (sp_signer s)) ++ put (sp_signature s) ++ put_heartbeat hb)
  | _ => Err "unsupported"
  end.

Definition toy_decode (l : bytes) : option SignedP2PMessage :=
  match l with
  | nonce :: l =>
      '(signer, l) ← get l; '(signature, l) ← get l;
      match l with
      | sequence :: stake :: timestamp :: l =>
          '(validator, l) ← get l; '(state_hash, l) ← get l; '(hb_sig, l) ← get l;
          Some (mk_SignedP2PMessage (MsgHeartbeat (mk_HeartbeatMessage (mk_Hotkey validator)
            state_hash sequence stake timestamp hb_sig)) (mk_Hotkey signer) signature nonce)
      | _ => None
      end
  | [] => None
  end.

#[export] Instance toy_codec : EnvelopeCodec := {|
  signing_bytes := fun m nonce =>
    match m with MsgHeartbeat hb => Ok (nonce :: put_heartbeat hb) | _ => Err "unsupported" end;
  encode_signed := toy_encode;
  decode_signed := fun b => ok_or (toy_decode b) "malformed"
|}.

#[export] Instance toy_codec_laws : EnvelopeCodecLaws.
Proof.
  split. intros [m [signer] sig nonce] b. cbn [encode_signed toy_codec]. unfold toy_encode.
  cbn [sp_message sp_nonce sp_signer sp_signature hk_bytes].
  destruct m as [| | | | | | | | | | |[[v] sh sq st ts hs]|]; try done. intros [= <-].
  cbn [decode_signed toy_codec]. unfold toy_decode, mbind, option_bind.
  rewrite !get_put. unfold put_heartbeat, put. cbn [hb_sequence hb_stake hb_timestamp hb_validator
    hb_state_hash hb_signature hk_bytes app].
  rewrite !get_put. pose proof (get_put hs []) as Hlast. rewrite app_nil_r in Hlast.
  by rewrite Hlast.
Qed.

Definition node_key : Keypair := mk_Keypair 7 None.
Definition heartbeat_of (i stake : Z) : HeartbeatMessage :=
  mk_HeartbeatMessage (mk_Hotkey (toy_key i)) (replicate 32 0) 1 stake 0 [].
Definition hello : P2PMessage := MsgHeartbeat (heartbeat_of 7 5000).

Definition sender : P2PNetwork Z := P2PNetwork_new node_key.
Definition receiver : P2PNetwork Z := P2PNetwork_new (mk_Keypair 1 None).
Definition hello_signed : SignedP2PMessage :=
  mk_SignedP2PMessage hello (mk_Hotkey (toy_key 7))
    (toy_sign 7 (1 :: put_heartbeat (heartbeat_of 7 5000))) 1.
Definition hello_bytes : bytes :=
  match toy_encode hello_signed with Ok b => b | Err _ => [] end.
Definition after_hello : P2PNetwork Z := (handle_gossipsub_message 0 0 42 hello_bytes receiver).2.

Lemma hello_received :
  handle_gossipsub_message 0 0 42 hello_bytes receiver = (Ok hello, after_hello).
Proof.
  apply (run_result (handle_gossipsub_message 0 0 42 hello_bytes) receiver hello).
  by vm_compute.
Qed.

Lemma hello_decodes : decode_signed hello_bytes = Ok hello_signed.
Proof. by vm_compute. Qed.

Definition sender_after : P2PNetwork Z := (broadcast_bytes hello sender).2.
Lemma hello_broadcast : broadcast_bytes hello sender = (Ok hello_bytes, sender_after).
Proof. apply (run_result (broadcast_bytes hello) sender hello_bytes). by vm_compute. Qed.

Lemma replay_refused_witness :
  exists err, (handle_gossipsub_message 9 9 43 hello_bytes
    (net_run after_hello [CleanNonces 5 300; CleanRateLimits 6])).1 = Err err.
Proof.
  refine (replay_refused 0 0 42 hello_bytes receiver hello after_hello hello_signed
    [CleanNonces 5 300; CleanRateLimits 6] 9 9 43 hello_bytes hello_signed
    hello_received hello_decodes _ hello_decodes eq_refl eq_refl _);
    [repeat constructor; unfold NONCE_EXPIRY_MS; simpl; lia|unfold NONCE_EXPIRY_MS; lia].
Defined.

Definition two_receipts : list (@NetOp Z) :=
  [Receive 0 0 42 hello_bytes; Receive 3 3 42 hello_bytes].

Lemma rate_limit_any_window_witness :
  (length (filter (in_window 0) (deliveries (mk_Hotkey (toy_key 7)) receiver two_receipts))
   <= 100)%nat.
Proof.
  refine (rate_limit_any_window (mk_Keypair 1 None) 0 two_receipts (mk_Hotkey (toy_key 7)) 0 _).
  simpl. lia.
Defined.

Lemma broadcast_delivered_witness :
  (handle_gossipsub_message 0 0 42 hello_bytes receiver).1 = Ok hello.
Proof.
  refine (broadcast_delivered hello sender sender_after hello_bytes receiver 0 0 42
    hello_broadcast _ _).
  - assert (Hq : (length (drop_old 0 (queue_of receiver (mk_Hotkey (toy_key 7)))) <
        DEFAULT_RATE_LIMIT)%nat) by by_compute. exact Hq.
  - intros ts Hts. discriminate Hts.
Defined.

Lemma replay_after_expiry_witness :
  (handle_gossipsub_message 300000 300000 42 hello_bytes after_hello).1 = Ok hello.
Proof.
  assert (Hq : (length (drop_old 300000 (queue_of after_hello (sp_signer hello_signed))) <
      DEFAULT_RATE_LIMIT)%nat) by by_compute.
  refine (replay_after_expiry 0 0 42 hello_bytes receiver hello after_hello hello_signed
    300000 300000 42 hello_received hello_decodes Hq _).
  unfold NONCE_EXPIRY_MS. lia.
Defined.

Lemma restarted_node_refused_witness :
  exists err, (handle_gossipsub_message 60000 60000 42 hello_bytes after_hello).1 = Err err.
Proof.
  refine (restarted_node_refused node_key hello hello hello_bytes hello_bytes
    sender_after sender_after 0 0 42 receiver hello after_hello 60000 60000 42
    hello_broadcast hello_broadcast hello_received _).
  unfold NONCE_EXPIRY_MS. lia.
Defined.

Lemma remove_peer_unmaps_other_witness :
  get_peer (remove_peer 1 (pmap_insert 2 (mk_Hotkey (toy_key 7))
    (pmap_insert 1 (mk_Hotkey (toy_key 7)) PeerMapping_new))) (mk_Hotkey (toy_key 7)) = None.
Proof.
  exact (proj2 (remove_peer_unmaps_other PeerMapping_new 1 2 (mk_Hotkey (toy_key 7))
    ltac:(discriminate))).
Defined.
End NetworkExamples.
