(* ===== verification/Node.v ===== *)
(** * The validator node's event loop

    Models the loop of [bins/validator-node/src/main.rs]: the events of the
    network ([handle_network_event]), those of the Bittensor chain
    ([handle_block_event]), the metagraph refresh and the staleness check,
    acting on the consensus engine, the validator set and the chain state that
    the node shares between them.  Calls to the chain are outputs. *)

From S2P Require Import Prelude Float64 Crypto Messages Merkle Validators P2PState P2PStateProps Consensus ConsensusInv ValidatorProps Network NetworkProps.

Section node.
Context `{External} `{Laws : !ExternalLaws} `{HO : !HashOrder Hotkey} `{HOz : !HashOrder Z}.

Record Node : Type := mk_Node {
  nd_engine : ConsensusEngine;
  nd_validators : ValidatorSet;
  nd_state : ChainState
}.

Definition MIN_STAKE : Z := 1000000000000.

(** A node without persisted state. *)
Definition Node_new (now : Z) (k : Keypair) (netuid : Z) : Node :=
  mk_Node (ConsensusEngine_new k) (ValidatorSet_new k MIN_STAKE) (ChainState_new now netuid).

Definition set_engine (e : ConsensusEngine) (n : Node) : Node :=
  mk_Node e (nd_validators n) (nd_state n).
Definition set_nd_validators (vs : ValidatorSet) (n : Node) : Node :=
  mk_Node (nd_engine n) vs (nd_state n).
Definition set_nd_state (s : ChainState) (n : Node) : Node :=
  mk_Node (nd_engine n) (nd_validators n) s.

Definition node_env (now : Z) (n : Node) : Env := mk_Env (nd_validators n) (nd_state n) now.

(** ** Network events *)

Inductive NetworkEvent (PeerId : Type) : Type :=
| EvMessage (source : PeerId) (message : P2PMessage)
| EvPeerConnected (peer : PeerId)
| EvPeerDisconnected (peer : PeerId)
| EvPeerIdentified (peer : PeerId) (hotkey : option Hotkey) (addresses : list string).

(** The messages that the handlers return (prepares, commits, new views) are
    dropped: the source only logs them. *)
Definition handle_network_event {PeerId} (now : Z) (ev : NetworkEvent PeerId) (n : Node) : Node :=
  let env := node_env now n in
  let e := nd_engine n in
  match ev with
  | EvMessage _ _ (MsgProposal p) => set_engine (handle_proposal env p e).2 n
  | EvMessage _ _ (MsgPrepare p) => set_engine (handle_prepare env p e).2 n
  | EvMessage _ _ (MsgCommit c) => set_engine (handle_commit env c e).2 n
  | EvMessage _ _ (MsgViewChange vc) => set_engine (handle_view_change env vc e).2 n
  | EvMessage _ _ (MsgNewView nv) => set_engine (handle_new_view env nv e).2 n
  | EvMessage _ _ (MsgHeartbeat hb) =>
      set_nd_validators
        (vs_update_from_heartbeat now (hb_validator hb) (hb_state_hash hb) (hb_sequence hb)
           (hb_stake hb) (nd_validators n)).2 n
  | EvMessage _ _ _ | EvPeerConnected _ _ | EvPeerDisconnected _ _ | EvPeerIdentified _ _ _ _ => n
  end.

(** ** Chain events *)

Inductive BlockSyncEvent : Type :=
| NewBlock (block_number : Z)
| EpochTransition (old_epoch new_epoch block : Z)
| PhaseChange (block_number epoch : Z)
| CommitWindowOpen (epoch block : Z)
| RevealWindowOpen (epoch block : Z)
| Disconnected (reason : string)
| Reconnected.

(** What the node asks of the chain. *)
Inductive ChainCall : Type :=
| SetMechanismWeights (netuid mechanism : Z) (uids vals : list Z) (version_key : Z)
| RevealAllPending.

(** [connected]: the node has a chain client and a signer; [pending]: what the
    client answers to [has_pending_commits]. *)
Definition handle_block_event (now : Z) (connected pending : bool) (netuid version_key : Z)
    (ev : BlockSyncEvent) (n : Node) : Node * list ChainCall :=
  match ev with
  | NewBlock block_number =>
      (set_nd_state (link_to_bittensor_block now block_number zero32 (nd_state n)) n, [])
  | EpochTransition _ _ _ => (set_nd_state (next_epoch now (nd_state n)) n, [])
  | CommitWindowOpen _ _ =>
      if connected then
        let '(final_weights, s) := finalize_weights now (nd_state n) in
        (set_nd_state s n,
         match final_weights with
         | Some ((_ :: _) as weights) =>
             [SetMechanismWeights netuid 0 weights.*1 weights.*2 version_key]
         | _ => [SetMechanismWeights netuid 0 [0] [65535] version_key]
         end)
      else (n, [])
  | RevealWindowOpen _ _ => (n, if connected && pending then [RevealAllPending] else [])
  | PhaseChange _ _ | Disconnected _ | Reconnected => (n, [])
  end.

(** ** The metagraph *)

Record Neuron : Type := mk_Neuron {
  neuron_hotkey : bytes;
  neuron_stake : Z
}.

Definition update_validator_set_from_metagraph (now : Z) (neurons : list Neuron)
    (vs : ValidatorSet) : ValidatorSet :=
  fold_left (fun vs neuron =>
      (register_validator (ValidatorRecord_new now (mk_Hotkey (neuron_hotkey neuron))
         (Z.min (neuron_stake neuron) u64_max)) vs).2)
    neurons vs.

(** ** The loop *)

Inductive node_step {PeerId} (n : Node) : Node -> Prop :=
| ns_network now (ev : NetworkEvent PeerId) : node_step n (handle_network_event now ev n)
| ns_block now connected pending netuid version ev :
    node_step n (handle_block_event now connected pending netuid version ev n).1
| ns_metagraph now neurons :
    node_step n (set_nd_validators
      (update_validator_set_from_metagraph now neurons (nd_validators n)) n)
| ns_stale now :
    node_step n (set_nd_validators (mark_stale_validators now (nd_validators n)) n).
End node.

(** * Properties of the validator node

    The invariants of the parts hold of the whole loop, whatever events it
    handles; and what the loop never does. *)

Section properties.
Context `{External} `{Laws : !ExternalLaws} `{HO : !HashOrder Hotkey} `{HOz : !HashOrder Z}
  {PeerId : Type}.
Abbreviation step := (node_step (PeerId:=PeerId)).
Implicit Types n : Node.

Record node_inv n : Prop := {
  ni_engine : engine_inv (nd_engine n);
  ni_validators : vs_wf (nd_validators n);
  ni_hash : hash_ok (nd_state n);
  ni_unverified : vs_verified_stakes (nd_validators n) = ∅;
  ni_votes : cs_weight_votes (nd_state n) = None
}.

Lemma register_validator_verified record vs :
  vs_verified_stakes (register_validator record vs).2 = vs_verified_stakes vs.
Proof.
  unfold register_validator, mbind, SE_bind, get_state. simpl.
  case_match; [done|]. by case_match.
Qed.

Lemma metagraph_keeps now neurons vs :
  vs_wf vs -> vs_wf (update_validator_set_from_metagraph now neurons vs) /\
  vs_verified_stakes (update_validator_set_from_metagraph now neurons vs) = vs_verified_stakes vs.
Proof.
  unfold update_validator_set_from_metagraph.
  revert vs. induction neurons as [|x neurons IH]; intros vs Hwf; simpl; [done|].
  destruct (IH (register_validator (ValidatorRecord_new now (mk_Hotkey (neuron_hotkey x))
    (Z.min (neuron_stake x) u64_max)) vs).2) as [Hwf' Hv];
    [by apply (register_validator_wf _ vs)|].
  split; [done|]. by rewrite Hv, register_validator_verified.
Qed.

Lemma heartbeat_verified now h sh sq stake vs :
  vs_verified_stakes (vs_update_from_heartbeat now h sh sq stake vs).2 = vs_verified_stakes vs.
Proof.
  unfold vs_update_from_heartbeat, mbind, SE_bind, get_state. simpl.
  repeat case_match; try done. all: by rewrite ?register_validator_verified.
Qed.

(** A network event moves the engine by one of its calls, or only the
    validator set. *)
Lemma network_event_engine now (ev : NetworkEvent PeerId) n :
  nd_engine (handle_network_event now ev n) = nd_engine n \/
  engine_step (node_env now n) (nd_engine n) (nd_engine (handle_network_event now ev n)).
Proof. destruct ev as [src []| | |]; simpl; auto; right; constructor. Qed.

Lemma network_event_validators now (ev : NetworkEvent PeerId) n :
  vs_wf (nd_validators n) ->
  vs_wf (nd_validators (handle_network_event now ev n)) /\
  vs_verified_stakes (nd_validators (handle_network_event now ev n)) =
  vs_verified_stakes (nd_validators n).
Proof.
  intros Hwf. destruct ev as [src m| | |]; try done. destruct m; try done. simpl.
  split; [by apply (vs_update_from_heartbeat_wf _ _ _ _ _ (nd_validators n))|].
  apply heartbeat_verified.
Qed.

Lemma network_event_state now (ev : NetworkEvent PeerId) n :
  nd_state (handle_network_event now ev n) = nd_state n.
Proof. by destruct ev as [src []| | |]. Qed.

Lemma block_event_state now c p netuid version ev n :
  hash_ok (nd_state n) -> cs_weight_votes (nd_state n) = None ->
  let n' := (handle_block_event now c p netuid version ev n).1 in
  nd_engine n' = nd_engine n /\ nd_validators n' = nd_validators n /\
  hash_ok (nd_state n') /\ cs_weight_votes (nd_state n') = None.
Proof.
  intros Hok Hv. destruct ev, c; simpl; try done.
  unfold finalize_weights. by rewrite Hv.
Qed.

Lemma node_step_inv n n' :
  node_inv n -> ce_next_sequence (nd_engine n) < u64_max -> step n n' ->
  node_inv n' /\ ce_next_sequence (nd_engine n') <= ce_next_sequence (nd_engine n) + 1 /\
  ce_decisions (nd_engine n) ⊆ ce_decisions (nd_engine n').
Proof.
  intros [He Hvs Hh Hun Hv] Hmax Hstep. destruct Hstep as [now ev|now c p netuid version ev|now ns|now].
  - destruct (network_event_validators now ev n Hvs) as [Hvs' Hun'].
    assert (Hk : keeps (nd_engine n) (nd_engine (handle_network_event now ev n))).
    { destruct (network_event_engine now ev n) as [->|Hs]; [by apply keeps_refl|].
      by eapply engine_step_keeps. }
    destruct Hk as [? ? ?]. split; [|split; [lia|done]].
    split; [done|done|by rewrite network_event_state|congruence|by rewrite network_event_state].
  - destruct (block_event_state now c p netuid version ev n Hh Hv) as (-> & Heq & Hh' & Hv').
    split; [|split; [lia|done]]. split; try done; try by rewrite Heq.
    destruct ev, c; try done. simpl. by destruct (finalize_weights now (nd_state n)).
  - destruct (metagraph_keeps now ns (nd_validators n) Hvs) as [Hwf' Hun'].
    split; [|split; [simpl; lia|done]]. split; try done. simpl. congruence.
  - split; [|split; [simpl; lia|done]]. split; try done. by apply mark_stale_validators_wf.
Qed.

Lemma node_new_inv now k netuid : node_inv (Node_new now k netuid).
Proof. split; try done. apply engine_new_inv. Qed.

Lemma node_reachable_inv now k netuid m n :
  nsteps step m (Node_new now k netuid) n -> Z.of_nat m < u64_max - 1 ->
  node_inv n /\ ce_next_sequence (nd_engine n) <= 1 + Z.of_nat m.
Proof.
  revert n. induction m as [|m IH]; intros n Hs Hm.
  - inversion Hs; subst. split; [apply node_new_inv|simpl; lia].
  - apply nsteps_inv_r in Hs as (n1 & Hs1 & Hstep). destruct (IH n1 Hs1) as [Hinv Hb]; [lia|].
    destruct (node_step_inv n1 n Hinv) as (Hinv' & Hb' & _); [lia|done|]. split; [done|lia].
Qed.

(** C11. Whatever sequence of network events, chain events, metagraph refreshes
    and staleness checks a node handles, each of its parts keeps its own
    promise: the decision log has no gaps and holds only valid certificates,
    validator records are filed under their own hotkeys, and the state hash is
    the hash of the state. *)
Theorem node_safe now k netuid m n :
  nsteps step m (Node_new now k netuid) n -> Z.of_nat m < u64_max - 1 ->
  (forall s, is_Some (get_decision (nd_engine n) s) <-> 1 <= s < ce_next_sequence (nd_engine n)) /\
  (forall s d, get_decision (nd_engine n) s = Some d -> cd_sequence d = s /\ decision_ok d) /\
  (forall h v, vs_validators (nd_validators n) !! h = Some v -> vr_hotkey v = h) /\
  cs_state_hash (nd_state n) = compute_hash (nd_state n).
Proof.
  intros Hs Hm. destruct (node_reachable_inv now k netuid m n Hs Hm) as [[He Hvs Hh _ _] _].
  split; [apply (ei_log _ He)|]. split; [apply (ei_decisions _ He)|]. by split.
Qed.

(** The node never submits evaluated weights: no event it handles records a
    weight vote, so that every commit window of a node that started without
    persisted state submits the burn vector, everything to UID 0. *)
Theorem node_only_burns now k netuid m n now' pending version epoch block :
  nsteps step m (Node_new now k netuid) n -> Z.of_nat m < u64_max - 1 ->
  (handle_block_event now' true pending netuid version (CommitWindowOpen epoch block) n).2
  = [SetMechanismWeights netuid 0 [0] [65535] version].
Proof.
  intros Hs Hm. destruct (node_reachable_inv now k netuid m n Hs Hm) as [[_ _ _ _ Hv] _].
  simpl. unfold finalize_weights. by rewrite Hv.
Qed.

(** Stakes are what anyone says they are: the node never records a verified
    stake, and a heartbeat needs no signature of the validator it names, so a
    message from any peer sets the stake of any registered validator, and
    registers any hotkey with a large enough one. *)
Theorem heartbeat_sets_any_stake now k netuid m n now' (source : PeerId) hb :
  nsteps step m (Node_new now k netuid) n -> Z.of_nat m < u64_max - 1 ->
  is_Some (vs_validators (nd_validators n) !! hb_validator hb) \/
    vs_min_stake (nd_validators n) <= hb_stake hb ->
  let n' := handle_network_event now' (EvMessage _ source (MsgHeartbeat hb)) n in
  exists v, vs_validators (nd_validators n') !! hb_validator hb = Some v /\
    vr_stake v = hb_stake hb /\ vr_is_active v = true /\ vr_last_seen v = now'.
Proof.
  intros Hs Hm Hcase. destruct (node_reachable_inv now k netuid m n Hs Hm) as [[_ _ _ Hun _] _].
  simpl. unfold vs_update_from_heartbeat, mbind, SE_bind, get_state. simpl.
  rewrite Hun, lookup_empty. destruct (vs_validators _ !! hb_validator hb) as [v|] eqn:Hv; simpl.
  - eexists. by rewrite lookup_insert_eq.
  - destruct Hcase as [[? ?]|Hmin]; [done|]. rewrite (proj2 (Z.leb_le _ _) Hmin).
    unfold register_validator, mbind, SE_bind. simpl.
    rewrite (proj2 (Z.ltb_ge _ _)) by lia. rewrite Hv. simpl. eexists. by rewrite lookup_insert_eq.
Qed.
End properties.

(** ** A concrete node *)

Module NodeExamples.
Import Toy NetworkExamples.

Definition own : Keypair := mk_Keypair 1 None.
Definition fresh_node : Node := Node_new 0 own 100.

Definition stake_of (i : Z) : Neuron := mk_Neuron (toy_key i) (2000000000000 + i).

(** The node after its first metagraph refresh. *)
Definition synced_node : Node :=
  set_nd_validators (update_validator_set_from_metagraph 0 (stake_of <$> [1; 2; 3; 4])
    (nd_validators fresh_node)) fresh_node.

Lemma synced_reachable : nsteps (node_step (PeerId:=Z)) 1 fresh_node synced_node.
Proof. econstructor; [apply (ns_metagraph fresh_node 0)|constructor]. Qed.

Lemma one_step : Z.of_nat 1 < u64_max - 1.
Proof. unfold u64_max. lia. Qed.

Lemma node_safe_witness :
  cs_state_hash (nd_state synced_node) = compute_hash (nd_state synced_node).
Proof.
  exact (proj2 (proj2 (proj2 (node_safe 0 own 100 1 synced_node
    synced_reachable one_step)))).
Defined.

Lemma node_only_burns_witness :
  (handle_block_event 5 true false 100 1 (CommitWindowOpen 0 10) synced_node).2
  = [SetMechanismWeights 100 0 [0] [65535] 1].
Proof.
  exact (node_only_burns 0 own 100 1 synced_node 5 false 1 0 10
    synced_reachable one_step).
Defined.

(** A heartbeat for validator 2, signed and sent by key 99. *)
Definition forged : HeartbeatMessage := heartbeat_of 2 7.
Definition forged_bytes : bytes :=
  match (broadcast_bytes (MsgHeartbeat forged) (P2PNetwork_new (PeerId:=Z) (mk_Keypair 99 None))).1
  with Ok b => b | Err _ => [] end.

Lemma heartbeat_sets_any_stake_witness :
  (handle_gossipsub_message 5 5 42 forged_bytes receiver).1 = Ok (MsgHeartbeat forged) /\
  exists v, vs_validators (nd_validators
      (handle_network_event 5 (EvMessage Z 42 (MsgHeartbeat forged)) synced_node))
      !! mk_Hotkey (toy_key 2) = Some v /\ vr_stake v = 7.
Proof.
  split; [vm_compute; reflexivity|].
  assert (Hreg : is_Some (vs_validators (nd_validators synced_node) !! hb_validator forged))
    by by_compute.
  destruct (heartbeat_sets_any_stake 0 own 100 1 synced_node 5 42 forged
    synced_reachable one_step (or_introl Hreg)) as (v & Hv & Hstake & _).
  exists v. split; [exact Hv|exact Hstake].
Defined.
End NodeExamples.
