(* ===== verification/Epoch.v ===== *)
(** * Epochs and their phases

    Models [crates/epoch/src/lib.rs] (configuration, state and the records of
    the epoch crate) and [crates/epoch/src/manager.rs] ([EpochManager]).  A
    division by zero, where the source panics, is [None]; other arithmetic
    wraps. *)

From S2P Require Import Prelude Float64 Crypto.

Record EpochConfig : Type := mk_EpochConfig {
  blocks_per_epoch : Z;
  evaluation_blocks : Z;
  commit_blocks : Z;
  reveal_blocks : Z;
  min_validators_for_consensus : nat;
  weight_smoothing : f64
}.

Definition EpochConfig_default : EpochConfig :=
  {| blocks_per_epoch := 360;
     evaluation_blocks := 270;
     commit_blocks := 45;
     reveal_blocks := 45;
     min_validators_for_consensus := 3;
     weight_smoothing := f64_lit 3 10 |}.

Inductive EpochPhase : Type :=
| Evaluation
| Commit
| Reveal
| Finalization.

#[global] Instance EpochPhase_eq_dec : EqDecision EpochPhase.
Proof. solve_decision. Defined.

Record EpochState : Type := mk_EpochState {
  es_epoch : Z;
  es_phase : EpochPhase;
  es_start_block : Z;
  es_current_block : Z;
  es_blocks_remaining : Z
}.

Definition EpochState_new (epoch start_block : Z) (config : EpochConfig) : EpochState :=
  mk_EpochState epoch Evaluation start_block start_block (evaluation_blocks config).

Inductive EpochTransition : Type :=
| NewEpoch (old_epoch new_epoch : Z)
| PhaseChange (epoch : Z) (old_phase new_phase : EpochPhase).

#[global] Instance EpochTransition_eq_dec : EqDecision EpochTransition.
Proof. solve_decision. Defined.

(** ** The manager *)

Record EpochManager : Type := mk_EpochManager {
  em_config : EpochConfig;
  em_state : EpochState
}.

(** [a / b], which panics when [b] is zero. *)
Definition u64_div (a b : Z) : option Z := if b =? 0 then None else Some (a / b).

Definition EpochManager_new (config : EpochConfig) (current_block : Z) : option EpochManager :=
  epoch ← u64_div current_block (blocks_per_epoch config);
  let start_block := u64_mul epoch (blocks_per_epoch config) in
  Some (mk_EpochManager config (EpochState_new epoch start_block config)).

Definition update_config (new_config : EpochConfig) (m : EpochManager) : EpochManager :=
  mk_EpochManager new_config (em_state m).

(** The phase at a position within an epoch, and the blocks left in it. *)
Definition phase_at (config : EpochConfig) (blocks_into_epoch : Z) : EpochPhase * Z :=
  let eval := evaluation_blocks config in
  let commit := u64_add eval (commit_blocks config) in
  let reveal := u64_add commit (reveal_blocks config) in
  if blocks_into_epoch <? eval then
    (Evaluation, u64_saturating_sub eval blocks_into_epoch)
  else if blocks_into_epoch <? commit then
    (Commit, u64_saturating_sub commit blocks_into_epoch)
  else if blocks_into_epoch <? reveal then
    (Reveal, u64_saturating_sub reveal blocks_into_epoch)
  else
    (Finalization, u64_saturating_sub (blocks_per_epoch config) blocks_into_epoch).

Definition on_new_block (block_number : Z) (m : EpochManager) :
    option (option EpochTransition * EpochManager) :=
  let config := em_config m in
  let state := em_state m in
  new_epoch ← u64_div block_number (blocks_per_epoch config);
  if es_epoch state <? new_epoch then
    Some (Some (NewEpoch (es_epoch state) new_epoch),
          mk_EpochManager config
            (mk_EpochState new_epoch Evaluation (u64_mul new_epoch (blocks_per_epoch config))
               block_number (evaluation_blocks config)))
  else
    let blocks_into_epoch := u64_sub block_number (es_start_block state) in
    let '(new_phase, blocks_remaining) := phase_at config blocks_into_epoch in
    let state' := mk_EpochState (es_epoch state) new_phase (es_start_block state) block_number
                    blocks_remaining in
    Some (if bool_decide (new_phase = es_phase state) then None
          else Some (PhaseChange (es_epoch state) (es_phase state) new_phase),
          mk_EpochManager config state').

Definition can_commit (m : EpochManager) : bool := bool_decide (es_phase (em_state m) = Commit).
Definition can_reveal (m : EpochManager) : bool := bool_decide (es_phase (em_state m) = Reveal).
Definition is_finalizing (m : EpochManager) : bool :=
  bool_decide (es_phase (em_state m) = Finalization).
Definition blocks_until_next_phase (m : EpochManager) : Z := es_blocks_remaining (em_state m).

Definition epoch_for_block (m : EpochManager) (block : Z) : option Z :=
  u64_div block (blocks_per_epoch (em_config m)).
Definition start_block_for_epoch (m : EpochManager) (epoch : Z) : Z :=
  u64_mul epoch (blocks_per_epoch (em_config m)).

Definition phase_for_block (m : EpochManager) (block : Z) : option EpochPhase :=
  epoch ← epoch_for_block m block;
  let config := em_config m in
  let blocks_into_epoch := u64_sub block (start_block_for_epoch m epoch) in
  let eval := evaluation_blocks config in
  Some (if blocks_into_epoch <? eval then Evaluation
        else if blocks_into_epoch <? u64_add eval (commit_blocks config) then Commit
        else if blocks_into_epoch <?
                u64_add (u64_add eval (commit_blocks config)) (reveal_blocks config) then Reveal
        else Finalization).

(** ** Properties *)

(** A usable configuration: the phases do not overflow, and there is at least
    one block of evaluation. *)
Record config_ok (c : EpochConfig) : Prop := {
  co_epoch : 0 < blocks_per_epoch c < 2 ^ 64;
  co_eval : 0 < evaluation_blocks c;
  co_commit : 0 <= commit_blocks c;
  co_reveal : 0 <= reveal_blocks c;
  co_sum : evaluation_blocks c + commit_blocks c + reveal_blocks c < 2 ^ 64
}.

(** The specification: the phase by the position of the block in its epoch. *)
Definition spec_phase (c : EpochConfig) (block : Z) : EpochPhase :=
  let pos := block mod blocks_per_epoch c in
  if pos <? evaluation_blocks c then Evaluation
  else if pos <? evaluation_blocks c + commit_blocks c then Commit
  else if pos <? evaluation_blocks c + commit_blocks c + reveal_blocks c then Reveal
  else Finalization.

(** The manager agrees with the chain at [block]. *)
Record tracks (c : EpochConfig) (block : Z) (m : EpochManager) : Prop := {
  tr_config : em_config m = c;
  tr_epoch : es_epoch (em_state m) = block / blocks_per_epoch c;
  tr_start : es_start_block (em_state m) = block / blocks_per_epoch c * blocks_per_epoch c;
  tr_block : es_current_block (em_state m) = block;
  tr_phase : es_phase (em_state m) = spec_phase c block
}.

Lemma u64_div_pos a b : 0 < b -> u64_div a b = Some (a / b).
Proof. intros Hb. unfold u64_div. by destruct (Z.eqb_spec b 0); [lia|]. Qed.

Lemma block_position c block :
  0 < blocks_per_epoch c ->
  block - block / blocks_per_epoch c * blocks_per_epoch c = block mod blocks_per_epoch c.
Proof. intros Hc. rewrite Z.mod_eq by lia. lia. Qed.

Lemma epoch_start_range c block :
  0 < blocks_per_epoch c -> is_u64 block ->
  0 <= block / blocks_per_epoch c * blocks_per_epoch c <= block.
Proof.
  intros Hc [Hb _]. pose proof (Z.mul_div_le block (blocks_per_epoch c) Hc).
  pose proof (Z.div_pos block (blocks_per_epoch c) Hb Hc). nia.
Qed.

Lemma phase_at_spec c block :
  config_ok c -> is_u64 block ->
  (phase_at c (block mod blocks_per_epoch c)).1 = spec_phase c block.
Proof.
  intros [Hc He Hco Hr Hsum] Hb. unfold phase_at, spec_phase.
  rewrite !u64_add_small by (rewrite ?u64_add_small; lia). by repeat case_match.
Qed.

(** The start of the epoch of the next block, when that is a new epoch. *)
Lemma next_block_new_epoch b n :
  0 < n -> 0 <= b -> b / n < (b + 1) / n -> (b + 1) mod n = 0.
Proof.
  intros Hn Hb Hlt. pose proof (Z.div_mod b n ltac:(lia)) as H1.
  pose proof (Z.div_mod (b + 1) n ltac:(lia)) as H2.
  pose proof (Z.mod_pos_bound b n Hn). pose proof (Z.mod_pos_bound (b + 1) n Hn). nia.
Qed.

Lemma next_block_same_epoch b n :
  0 < n -> 0 <= b -> ~ b / n < (b + 1) / n -> (b + 1) / n = b / n.
Proof. intros Hn Hb Hge. pose proof (Z.div_le_mono b (b + 1) n Hn). lia. Qed.

(** One block after the last one seen.  Only the epoch and its start need to be
    right before it. *)
Lemma on_next_block c b m :
  config_ok c -> is_u64 b -> is_u64 (b + 1) -> em_config m = c ->
  es_epoch (em_state m) = b / blocks_per_epoch c ->
  es_start_block (em_state m) = b / blocks_per_epoch c * blocks_per_epoch c ->
  exists t m', on_new_block (b + 1) m = Some (t, m') /\ tracks c (b + 1) m'.
Proof.
  intros Hc Hb Hb1 Hcfg Hep Hst. pose proof (co_epoch c Hc) as Hpos.
  pose proof (epoch_start_range c (b + 1) ltac:(lia) Hb1) as Hrange. unfold is_u64 in *.
  unfold on_new_block. rewrite Hcfg, u64_div_pos by lia. simpl. rewrite Hep, Hst.
  destruct (Z.ltb_spec (b / blocks_per_epoch c) ((b + 1) / blocks_per_epoch c)) as [Hlt|Hge].
  - do 2 eexists. split; [done|]. rewrite u64_mul_small by lia.
    split; simpl; try done. unfold spec_phase.
    rewrite next_block_new_epoch by lia. pose proof (co_eval c Hc).
    by rewrite (proj2 (Z.ltb_lt _ _)) by lia.
  - assert (Hsame := next_block_same_epoch b (blocks_per_epoch c) ltac:(lia) ltac:(lia) ltac:(lia)).
    rewrite <- Hsame, u64_sub_small by lia. rewrite block_position by lia.
    pose proof (phase_at_spec c (b + 1) Hc Hb1) as Hph.
    destruct (phase_at c ((b + 1) mod blocks_per_epoch c)) as [ph rem]. simpl in Hph.
    do 2 eexists. split; [done|]. by split.
Qed.

(** Feeding the blocks [b + 1], ..., [b + n]. *)
Fixpoint follow (b : Z) (n : nat) (m : EpochManager) : option EpochManager :=
  match n with
  | O => Some m
  | S n => r ← on_new_block (b + 1) m; follow (b + 1) n r.2
  end.

Lemma follow_tracks c n b m :
  config_ok c -> 0 <= b -> b + Z.of_nat (S n) < 2 ^ 64 -> em_config m = c ->
  es_epoch (em_state m) = b / blocks_per_epoch c ->
  es_start_block (em_state m) = b / blocks_per_epoch c * blocks_per_epoch c ->
  exists m', follow b (S n) m = Some m' /\ tracks c (b + Z.of_nat (S n)) m'.
Proof.
  revert b m. induction n as [|n IH]; intros b m Hc Hb Hlt Hcfg Hep Hst.
  all: destruct (on_next_block c b m Hc) as (t & m' & Hrun & Htr);
    [unfold is_u64; lia|unfold is_u64; lia|done..|].
  - exists m'. cbn [follow]. by rewrite Hrun.
  - destruct (IH (b + 1) m' Hc) as (m'' & Hf & Htr'); [lia|lia|apply Htr..|].
    exists m''. split; [change (follow b (S (S n)) m) with
      (r ← on_new_block (b + 1) m; follow (b + 1) (S n) r.2); by rewrite Hrun|].
    by replace (b + Z.of_nat (S (S n))) with (b + 1 + Z.of_nat (S n)) by lia.
Qed.

(** C16. A manager created at any block and then fed every following block
    never panics and, from the first of them on, has the epoch, its start and
    the phase that the block's position in its epoch determines, which is
    also what [phase_for_block] answers. *)
Theorem epoch_manager_tracks_chain c b n :
  config_ok c -> 0 <= b -> b + Z.of_nat (S n) < 2 ^ 64 ->
  let block := b + Z.of_nat (S n) in
  exists m0 m, EpochManager_new c b = Some m0 /\ follow b (S n) m0 = Some m /\
    es_epoch (em_state m) = block / blocks_per_epoch c /\
    es_start_block (em_state m) = block / blocks_per_epoch c * blocks_per_epoch c /\
    es_phase (em_state m) = spec_phase c block /\
    phase_for_block m block = Some (spec_phase c block).
Proof.
  intros Hc Hb Hlt block. pose proof (co_epoch c Hc) as Hpos.
  unfold EpochManager_new. rewrite u64_div_pos by lia. simpl.
  pose proof (epoch_start_range c b ltac:(lia) ltac:(unfold is_u64; lia)).
  rewrite u64_mul_small by lia.
  edestruct (follow_tracks c n b) as (m & Hf & Htr); [done|lia|lia| | | |].
  4: { eexists _, m. split; [reflexivity|]. split; [exact Hf|]. destruct Htr as [Hcfg Hep Hst _ Hph].
       split; [done|]. split; [done|]. split; [done|].
       unfold phase_for_block, epoch_for_block, start_block_for_epoch. rewrite Hcfg.
       assert (Hrange := epoch_start_range c block ltac:(lia) ltac:(unfold is_u64; lia)).
       rewrite u64_div_pos by lia. simpl.
       rewrite u64_mul_small, u64_sub_small, block_position by lia.
       pose proof (co_sum c Hc). pose proof (co_eval c Hc). pose proof (co_commit c Hc).
       pose proof (co_reveal c Hc).
       unfold spec_phase. rewrite !u64_add_small by (rewrite ?u64_add_small; lia). done. }
  all: done.
Qed.

Module EpochExamples.

Lemma default_config_ok : config_ok EpochConfig_default.
Proof. split; simpl; lia. Qed.

Lemma epoch_manager_tracks_chain_witness :
  exists m0 m, EpochManager_new EpochConfig_default 300 = Some m0 /\ follow 300 70 m0 = Some m /\
    es_epoch (em_state m) = 1 /\ es_phase (em_state m) = Evaluation.
Proof.
  destruct (epoch_manager_tracks_chain EpochConfig_default 300 69 default_config_ok)
    as (m0 & m & Hnew & Hf & Hep & _ & Hph & _); [lia|lia|].
  exists m0, m. split; [exact Hnew|]. split; [exact Hf|]. split; [exact Hep|exact Hph].
Defined.

(** A manager created at block 10 with the default configuration. *)
Definition at_block_10 : EpochManager :=
  mk_EpochManager EpochConfig_default (EpochState_new 0 0 EpochConfig_default).

(** A manager that enters an epoch late is in the wrong phase: whether it
    was created at block 300 or missed the blocks up to 660, it reports the
    evaluation phase, so that commits are closed, at blocks that belong to the
    commit phase. *)
Theorem late_entry_in_wrong_phase :
  EpochManager_new EpochConfig_default 10 = Some at_block_10 /\
  ((fun m => (can_commit m, phase_for_block m 300)) <$> EpochManager_new EpochConfig_default 300)
    = Some (false, Some Commit) /\
  ((fun r => (r.1, can_commit r.2, phase_for_block r.2 660)) <$> on_new_block 660 at_block_10)
    = Some (Some (NewEpoch 0 1), false, Some Commit).
Proof. by vm_compute. Qed.

Definition longer_epochs : EpochConfig :=
  mk_EpochConfig 1000 750 125 125 3 (f64_lit 3 10).

(** Block 721 of a manager that was in epoch 2 when its configuration changed
    to epochs of 1000 blocks. *)
Definition after_update : option EpochManager :=
  m0 ← EpochManager_new EpochConfig_default 720;
  r ← on_new_block 721 (update_config longer_epochs m0);
  Some r.2.

(** Changing the configuration leaves the old epoch and its start block in
    place: the manager stays in epoch 2 although block 721 is in epoch 0, and
    takes its phase from the old start. *)
Theorem config_update_keeps_old_epoch :
  ((fun m => (es_epoch (em_state m), epoch_for_block m 721, es_start_block (em_state m)))
     <$> after_update) = Some (2, Some 0, 720).
Proof. by vm_compute. Qed.
End EpochExamples.
