(* ===== verification/CommitReveal.v ===== *)
(** * Commit and reveal of weights

    Models [crates/epoch/src/commit_reveal.rs] and the weight utilities it
    calls, [crates/challenge-sdk/src/weights.rs] with [WeightAssignment] of
    [crates/challenge-sdk/src/types.rs]. *)

From Stdlib Require Import SpecFloat.
From S2P Require Import Prelude Float64 Crypto Messages RustBytes.

(** ** Weights *)

Record WeightAssignment : Type := mk_WeightAssignment {
  wa_hotkey : string;
  wa_weight : f64
}.

#[global] Instance WeightAssignment_eq_dec : EqDecision WeightAssignment.
Proof. solve_decision. Defined.

Definition WeightAssignment_new (hotkey : string) (weight : f64) : WeightAssignment :=
  mk_WeightAssignment hotkey (f64_clamp f64_zero f64_one weight).

(** [a.hotkey.cmp(&b.hotkey)], bytewise. *)
Definition hotkey_le (a b : WeightAssignment) : Prop :=
  bytes_compare (str_bytes (wa_hotkey a)) (str_bytes (wa_hotkey b)) <> Gt.

#[global] Instance hotkey_le_dec : RelDecision hotkey_le.
Proof. intros a b. unfold hotkey_le. apply _. Defined.

(** What one assignment adds to the hash. *)
Definition assignment_bytes (w : WeightAssignment) : bytes :=
  str_bytes (wa_hotkey w) ++ f64_to_le_bytes (wa_weight w).

Definition normalize_weights (weights : list WeightAssignment) : list WeightAssignment :=
  let total := f64_sum (wa_weight <$> weights) in
  if f64_ltb f64_zero total then
    (fun w => mk_WeightAssignment (wa_hotkey w) (f64_div (wa_weight w) total)) <$> weights
  else weights.

Definition scores_to_weights (scores : list (string * f64)) : list WeightAssignment :=
  match scores with
  | [] => []
  | _ =>
      let total := f64_sum scores.*2 in
      if f64_leb total f64_zero then []
      else (fun '(hotkey, score) => WeightAssignment_new hotkey (f64_div score total)) <$> scores
  end.

(** ** Commit-reveal of one epoch and challenge *)

Inductive CommitRevealError : Type :=
| WrongEpoch (expected got : Z)
| WrongChallenge
| AlreadyCommitted
| AlreadyRevealed
| NoCommitment
| CommitmentMismatch
| InsufficientValidators (required got : nat)
| AggregationFailed (msg : string)
| FinalizePanic.

#[global] Instance CommitRevealError_eq_dec : EqDecision CommitRevealError.
Proof. solve_decision. Defined.

Record WeightCommitment : Type := mk_WeightCommitment {
  wc_validator : Hotkey;
  wc_challenge_id : Z;
  wc_epoch : Z;
  wc_commitment_hash : string;
  wc_timestamp : Z
}.

Record WeightReveal : Type := mk_WeightReveal {
  wr_validator : Hotkey;
  wr_challenge_id : Z;
  wr_epoch : Z;
  wr_weights : list WeightAssignment;
  wr_secret : bytes;
  wr_timestamp : Z
}.

Record FinalizedWeights : Type := mk_FinalizedWeights {
  fw_challenge_id : Z;
  fw_epoch : Z;
  fw_weights : list WeightAssignment;
  fw_participating : list Hotkey;
  fw_excluded : list Hotkey;
  fw_smoothing_applied : f64;
  fw_finalized_at : Z
}.

Record CommitRevealState : Type := mk_CommitRevealState {
  cr_epoch : Z;
  cr_challenge_id : Z;
  cr_commitments : gmap Hotkey WeightCommitment;
  cr_reveals : gmap Hotkey WeightReveal;
  cr_missing : list Hotkey;
  cr_mismatched : list Hotkey
}.

Definition CommitRevealState_new (epoch challenge_id : Z) : CommitRevealState :=
  mk_CommitRevealState epoch challenge_id ∅ ∅ [] [].

Definition add_commitment (c : WeightCommitment) (s : CommitRevealState) : CommitRevealState :=
  mk_CommitRevealState (cr_epoch s) (cr_challenge_id s)
    (<[wc_validator c := c]> (cr_commitments s)) (cr_reveals s) (cr_missing s) (cr_mismatched s).
Definition add_reveal (r : WeightReveal) (s : CommitRevealState) : CommitRevealState :=
  mk_CommitRevealState (cr_epoch s) (cr_challenge_id s) (cr_commitments s)
    (<[wr_validator r := r]> (cr_reveals s)) (cr_missing s) (cr_mismatched s).
Definition add_mismatched (h : Hotkey) (s : CommitRevealState) : CommitRevealState :=
  mk_CommitRevealState (cr_epoch s) (cr_challenge_id s) (cr_commitments s) (cr_reveals s)
    (cr_missing s) (cr_mismatched s ++ [h]).
Definition add_missing (l : list Hotkey) (s : CommitRevealState) : CommitRevealState :=
  mk_CommitRevealState (cr_epoch s) (cr_challenge_id s) (cr_commitments s) (cr_reveals s)
    (cr_missing s ++ l) (cr_mismatched s).

Section commit_reveal.
Context `{External} `{HO : !HashOrder Hotkey}.

Definition create_commitment (weights : list WeightAssignment) (secret : bytes) : string :=
  let sorted_weights := stable_sort hotkey_le weights in
  hex_encode (sha256 (mjoin (assignment_bytes <$> sorted_weights) ++ secret)).

Abbreviation CRM := (SE CommitRevealState CommitRevealError).

Definition submit_commitment (commitment : WeightCommitment) : CRM unit :=
  s ← get_state;
  _ ← require (wc_epoch commitment =? cr_epoch s) (WrongEpoch (cr_epoch s) (wc_epoch commitment));
  _ ← require (wc_challenge_id commitment =? cr_challenge_id s) WrongChallenge;
  _ ← require (bool_decide (cr_commitments s !! wc_validator commitment = None)) AlreadyCommitted;
  modify (add_commitment commitment).

Definition submit_reveal (reveal : WeightReveal) : CRM unit :=
  s ← get_state;
  _ ← require (wr_epoch reveal =? cr_epoch s) (WrongEpoch (cr_epoch s) (wr_epoch reveal));
  commitment ← lift (ok_or (cr_commitments s !! wr_validator reveal) NoCommitment);
  let computed_hash := create_commitment (wr_weights reveal) (wr_secret reveal) in
  if negb (bool_decide (computed_hash = wc_commitment_hash commitment)) then
    _ ← modify (add_mismatched (wr_validator reveal));
    throw CommitmentMismatch
  else
    _ ← require (bool_decide (cr_reveals s !! wr_validator reveal = None)) AlreadyRevealed;
    modify (add_reveal reveal).

(** The 0.1% tolerance. *)
Definition WEIGHT_TOLERANCE : f64 := f64_lit 1 1000.

(** One submission against the weights of the first. *)
Definition submission_diverges (first : list WeightAssignment) (first_weights : gmap string f64)
    (submission : list WeightAssignment) : bool :=
  negb (length submission =? length first)%nat ||
  existsb (fun w =>
    match first_weights !! wa_hotkey w with
    | None => true
    | Some fw => f64_ltb WEIGHT_TOLERANCE (f64_abs (f64_sub (wa_weight w) fw))
    end) submission.

(** Later duplicates of a hotkey win in the map that [collect] builds. *)
Definition check_submission_divergence (submissions : list (list WeightAssignment)) : bool :=
  match submissions with
  | first :: ((_ :: _) as rest) =>
      let first_weights := fold_left (fun m w => <[wa_hotkey w := wa_weight w]> m) first
                             (∅ : gmap string f64) in
      existsb (submission_diverges first first_weights) rest
  | _ => false
  end.

(** The validators that committed without revealing, in iteration order. *)
Definition missing_validators (s : CommitRevealState) : list Hotkey :=
  filter (fun h => cr_reveals s !! h = None /\ h ∉ cr_mismatched s) (hm_keys (cr_commitments s)).

(** [smoothing] is not used; [&submissions[0]] panics on an empty list.  The
    divergence check only logs. *)
Definition finalize (now : Z) (smoothing : f64) (min_validators : nat) : CRM FinalizedWeights :=
  _ ← modify (fun s => add_missing (missing_validators s) s);
  s ← get_state;
  let submissions := wr_weights <$> hm_values (cr_reveals s) in
  _ ← require (min_validators <=? length submissions)%nat
        (InsufficientValidators min_validators (length submissions));
  match submissions with
  | [] => throw FinalizePanic
  | first :: _ =>
      mret (mk_FinalizedWeights (cr_challenge_id s) (cr_epoch s) (normalize_weights first)
        (hm_keys (cr_reveals s)) (cr_missing s ++ cr_mismatched s) f64_zero now)
  end.

Definition commitment_count (s : CommitRevealState) : nat := size (cr_commitments s).
Definition reveal_count (s : CommitRevealState) : nat := size (cr_reveals s).
Definition has_committed (s : CommitRevealState) (validator : Hotkey) : bool :=
  bool_decide (is_Some (cr_commitments s !! validator)).
Definition has_revealed (s : CommitRevealState) (validator : Hotkey) : bool :=
  bool_decide (is_Some (cr_reveals s !! validator)).

(** ** The manager of all epochs and challenges *)

Record CommitRevealManager : Type := mk_CommitRevealManager {
  cm_states : gmap (Z * Z) CommitRevealState
}.

Definition CommitRevealManager_new : CommitRevealManager := mk_CommitRevealManager ∅.

(** Running a method of one state and storing it back. *)
Definition with_state {A} (key : Z * Z) (s : CommitRevealState) (m : CRM A) :
    SE CommitRevealManager CommitRevealError A := fun mgr =>
  let '(r, s') := m s in (r, mk_CommitRevealManager (<[key := s']> (cm_states mgr))).

(** The guard it returns is the map itself. *)
Definition get_or_create (epoch challenge_id : Z) (mgr : CommitRevealManager) :
    CommitRevealManager :=
  let key := (epoch, challenge_id) in
  match cm_states mgr !! key with
  | Some _ => mgr
  | None => mk_CommitRevealManager
              (<[key := CommitRevealState_new epoch challenge_id]> (cm_states mgr))
  end.

Definition mgr_commit (epoch challenge_id : Z) (commitment : WeightCommitment) :
    SE CommitRevealManager CommitRevealError unit :=
  mgr ← get_state;
  let key := (epoch, challenge_id) in
  let s := default (CommitRevealState_new epoch challenge_id) (cm_states mgr !! key) in
  with_state key s (submit_commitment commitment).

Definition mgr_reveal (epoch challenge_id : Z) (reveal : WeightReveal) :
    SE CommitRevealManager CommitRevealError unit :=
  mgr ← get_state;
  let key := (epoch, challenge_id) in
  match cm_states mgr !! key with
  | None => throw NoCommitment
  | Some s => with_state key s (submit_reveal reveal)
  end.

Definition mgr_finalize (now epoch challenge_id : Z) (smoothing : f64) (min_validators : nat) :
    SE CommitRevealManager CommitRevealError FinalizedWeights :=
  mgr ← get_state;
  let key := (epoch, challenge_id) in
  match cm_states mgr !! key with
  | None => throw (InsufficientValidators min_validators 0)
  | Some s => with_state key s (finalize now smoothing min_validators)
  end.

Definition cleanup_old_epochs (current_epoch keep_epochs : Z) (mgr : CommitRevealManager) :
    CommitRevealManager :=
  let cutoff := u64_saturating_sub current_epoch keep_epochs in
  mk_CommitRevealManager (filter (fun kv => cutoff <= kv.1.1) (cm_states mgr)).
End commit_reveal.

(** * Properties of commit-reveal *)

Section properties.
Context `{External} `{HO : !HashOrder Hotkey}.
Implicit Types s : CommitRevealState.

Inductive cr_step s : CommitRevealState -> Prop :=
| crs_commit c : cr_step s (submit_commitment c s).2
| crs_reveal r : cr_step s (submit_reveal r s).2
| crs_finalize now smoothing min : cr_step s (finalize now smoothing min s).2.

(** Every recorded reveal opens the recorded commitment of its validator. *)
Record cr_inv (epoch challenge : Z) s : Prop := {
  cri_epoch : cr_epoch s = epoch;
  cri_challenge : cr_challenge_id s = challenge;
  cri_commitments : map_Forall (fun h c => wc_validator c = h /\ wc_epoch c = epoch /\
    wc_challenge_id c = challenge) (cr_commitments s);
  cri_reveals : map_Forall (fun h r => wr_validator r = h /\ wr_epoch r = epoch /\
    exists c, cr_commitments s !! h = Some c /\
      create_commitment (wr_weights r) (wr_secret r) = wc_commitment_hash c) (cr_reveals s)
}.

(** What each call does to the two maps. *)
Lemma submit_commitment_cases c s :
  (exists err, submit_commitment c s = (Err err, s)) \/
  (submit_commitment c s = (Ok tt, add_commitment c s) /\ wc_epoch c = cr_epoch s /\
   wc_challenge_id c = cr_challenge_id s /\ cr_commitments s !! wc_validator c = None).
Proof.
  unfold submit_commitment, mbind, SE_bind, require, get_state, modify. simpl.
  destruct (Z.eqb_spec (wc_epoch c) (cr_epoch s)); [|by eauto].
  destruct (Z.eqb_spec (wc_challenge_id c) (cr_challenge_id s)); [|by eauto].
  case_bool_decide; [|by eauto]. by right.
Qed.

Lemma submit_reveal_cases r s :
  (exists err, submit_reveal r s = (Err err, s)) \/
  submit_reveal r s = (Err CommitmentMismatch, add_mismatched (wr_validator r) s) \/
  (submit_reveal r s = (Ok tt, add_reveal r s) /\ wr_epoch r = cr_epoch s /\
   cr_reveals s !! wr_validator r = None /\
   exists c, cr_commitments s !! wr_validator r = Some c /\
     create_commitment (wr_weights r) (wr_secret r) = wc_commitment_hash c).
Proof.
  unfold submit_reveal, mbind, SE_bind, require, get_state, modify, lift. simpl.
  destruct (Z.eqb_spec (wr_epoch r) (cr_epoch s)); [|by eauto].
  destruct (cr_commitments s !! wr_validator r) as [c|] eqn:Hc; simpl; [|by eauto].
  case_bool_decide as Hh; simpl; [|by eauto].
  case_bool_decide; [|by eauto]. right. right. split; [done|]. eauto.
Qed.

Lemma finalize_state now smoothing min s :
  (finalize now smoothing min s).2 = add_missing (missing_validators s) s.
Proof.
  unfold finalize, mbind, SE_bind, require, get_state, modify. simpl.
  destruct (_ <=? _)%nat; simpl; [|done]. by destruct (wr_weights <$> _).
Qed.

Lemma cr_step_inv e ch s s' : cr_inv e ch s -> cr_step s s' -> cr_inv e ch s'.
Proof.
  intros [He Hch Hc Hr] Hstep. destruct Hstep as [c|r|now smoothing min].
  - destruct (submit_commitment_cases c s) as [[err ->]|(-> & He' & Hch' & Hnew)]; [done|].
    split; simpl; try done.
    + apply map_Forall_insert_2; [|done]. by rewrite He', Hch'.
    + intros h r Hlk. destruct (Hr h r Hlk) as (? & ? & c' & Hc' & ?). repeat split; try done.
      exists c'. split; [|done]. rewrite lookup_insert_ne; [done|].
      intros Heq. by rewrite Heq, Hc' in Hnew.
  - destruct (submit_reveal_cases r s) as [[err ->]|[->|(-> & He' & Hnew & c & Hlk & Hopen)]];
      [done|done|].
    split; simpl; try done. apply map_Forall_insert_2; [|done].
    split; [done|]. split; [by rewrite He'|]. by exists c.
  - rewrite finalize_state. by split.
Qed.

Lemma cr_step_grows s s' :
  cr_step s s' -> cr_commitments s ⊆ cr_commitments s' /\ cr_reveals s ⊆ cr_reveals s'.
Proof.
  intros [c|r|now smoothing min].
  - destruct (submit_commitment_cases c s) as [[err ->]|(-> & _ & _ & Hnew)]; [done|].
    split; [by apply insert_subseteq|done].
  - destruct (submit_reveal_cases r s) as [[err ->]|[->|(-> & _ & Hnew & _)]]; [done|done|].
    split; [done|by apply insert_subseteq].
  - by rewrite finalize_state.
Qed.

Lemma cr_steps_inv e ch s s' : cr_inv e ch s -> rtc cr_step s s' -> cr_inv e ch s'.
Proof. intros Hi. induction 1; eauto using cr_step_inv. Qed.

Lemma cr_steps_grow s s' :
  rtc cr_step s s' -> cr_commitments s ⊆ cr_commitments s' /\ cr_reveals s ⊆ cr_reveals s'.
Proof.
  induction 1 as [|s1 s2 s3 Hstep _ [IH1 IH2]]; [done|].
  destruct (cr_step_grows s1 s2 Hstep). split; by etransitivity.
Qed.

Lemma cr_new_inv e ch : cr_inv e ch (CommitRevealState_new e ch).
Proof. split; try done; apply map_Forall_empty. Qed.

(** C17. After any calls, a recorded reveal is of the state's epoch and opens the
    commitment its validator made before; and neither it nor the commitment
    is changed or removed by later calls. *)
Theorem reveals_open_commitments e ch s s' h r :
  rtc cr_step (CommitRevealState_new e ch) s -> rtc cr_step s s' ->
  cr_reveals s !! h = Some r ->
  exists c, wr_validator r = h /\ wr_epoch r = e /\ wc_validator c = h /\ wc_epoch c = e /\
    create_commitment (wr_weights r) (wr_secret r) = wc_commitment_hash c /\
    cr_commitments s' !! h = Some c /\ cr_reveals s' !! h = Some r.
Proof.
  intros Hs Hs' Hr. apply (cr_steps_inv e ch) in Hs; [|apply cr_new_inv].
  destruct (cri_reveals e ch s Hs h r Hr) as (Hv & He & c & Hc & Hopen).
  destruct (cri_commitments e ch s Hs h c Hc) as (Hcv & Hce & _).
  destruct (cr_steps_grow s s' Hs') as [Hsubc Hsubr].
  exists c. split_and!; try done; by eapply lookup_weaken.
Qed.

(** [finalize] on every branch: with fewer reveals than required it reports
    both numbers; otherwise it normalises the weights of one of the reveals,
    lists exactly the validators that revealed as participating, and excludes
    every one that committed without revealing; without any reveal and
    without a minimum it panics.  Commitments and reveals stay. *)
Theorem finalize_effect now smoothing min s :
  let '(out, s') := finalize now smoothing min s in
  cr_commitments s' = cr_commitments s /\ cr_reveals s' = cr_reveals s /\
  match out with
  | Ok fw => (min <= size (cr_reveals s))%nat /\ NoDup (fw_participating fw) /\
      (forall h, h ∈ fw_participating fw <-> is_Some (cr_reveals s !! h)) /\
      (exists h r, cr_reveals s !! h = Some r /\ fw_weights fw = normalize_weights (wr_weights r)) /\
      (forall h, is_Some (cr_commitments s !! h) -> cr_reveals s !! h = None ->
         h ∈ fw_excluded fw)
  | Err err =>
      ((size (cr_reveals s) < min)%nat /\ err = InsufficientValidators min (size (cr_reveals s))) \/
      (cr_reveals s = ∅ /\ min = 0%nat /\ err = FinalizePanic)
  end.
Proof.
  unfold finalize, mbind, SE_bind, require, get_state, modify. cbn [fst snd cr_reveals add_missing].
  rewrite length_fmap, length_hm_values.
  destruct (Nat.leb_spec min (size (cr_reveals s))) as [Hle|Hgt];
    [|split; [done|]; split; [done|]; left; done].
  destruct (wr_weights <$> hm_values (cr_reveals s)) as [|first rest] eqn:Hsub.
  - split; [done|]. split; [done|]. right.
    apply (f_equal length) in Hsub. rewrite length_fmap, length_hm_values in Hsub. simpl in Hsub.
    split; [by apply map_size_empty_iff|]. split; [lia|done].
  - split; [done|]. split; [done|]. cbn [fw_participating fw_weights fw_excluded].
    split; [done|]. split; [apply hm_keys_NoDup|]. split; [intros h; apply elem_of_hm_keys|]. split.
    + assert (Hin : first ∈ wr_weights <$> hm_values (cr_reveals s)) by (rewrite Hsub; left).
      apply list_elem_of_fmap in Hin as (r & -> & [h Hh]%elem_of_hm_values). by exists h, r.
    + intros h Hc Hr. apply elem_of_app. simpl.
      destruct (decide (h ∈ cr_mismatched s)) as [?|Hm]; [by right|left].
      apply elem_of_app. right. apply list_elem_of_filter. split; [by split|].
      by apply elem_of_hm_keys.
Qed.

(** The commitment does not bind the list of weights: the hash runs over
    the concatenation of the assignments and the secret, so that whoever
    committed to a list can open it as the list without its last entry, with
    that entry moved into the secret. *)
Theorem commitment_not_binding ws w secret :
  StronglySorted hotkey_le (ws ++ [w]) ->
  create_commitment (ws ++ [w]) secret = create_commitment ws (assignment_bytes w ++ secret).
Proof.
  intros Hs. unfold create_commitment.
  rewrite (stable_sort_sorted _ (ws ++ [w])), (stable_sort_sorted _ ws)
    by first [done|by eapply StronglySorted_app_1_l].
  rewrite fmap_app, join_app, <- (assoc_L (++)). simpl. by rewrite app_nil_r.
Qed.
End properties.

Section agreement.
Context `{External}.

(** The weights a finalisation returns, if it returns. *)
Definition finalized_weights (HO : HashOrder Hotkey) now smoothing min (s : CommitRevealState) :
    option (list WeightAssignment) :=
  match (finalize (HO:=HO) now smoothing min s).1 with
  | Ok fw => Some (fw_weights fw)
  | Err _ => None
  end.

Lemma finalized_weights_same (HO : HashOrder Hotkey) now smoothing min s ws :
  map_Forall (fun _ r => wr_weights r = ws) (cr_reveals s) ->
  finalized_weights HO now smoothing min s =
  if (min <=? size (cr_reveals s))%nat && bool_decide (cr_reveals s <> ∅)
  then Some (normalize_weights ws) else None.
Proof.
  intros Hall. unfold finalized_weights, finalize, mbind, SE_bind, require, get_state, modify.
  cbn [fst snd cr_reveals add_missing]. rewrite length_fmap, length_hm_values.
  destruct (_ <=? _)%nat; simpl; [|done].
  destruct (hm_values (cr_reveals s)) as [|r rest] eqn:Hv; simpl.
  - apply (f_equal length) in Hv. rewrite length_hm_values in Hv.
    apply map_size_empty_iff in Hv. by rewrite Hv.
  - assert (Hr : r ∈ hm_values (cr_reveals s)) by (rewrite Hv; left).
    apply elem_of_hm_values in Hr as [h Hh]. rewrite (Hall h r Hh).
    rewrite bool_decide_eq_true_2; [done|]. intros He. by rewrite He, lookup_empty in Hh.
Qed.

(** When all validators that revealed agree on the weights, finalisation
    returns the same weights, or fails, on every node, whatever the iteration
    order of its maps. *)
Theorem finalize_agreement (HO1 HO2 : HashOrder Hotkey) now1 now2 smoothing min s ws :
  map_Forall (fun _ r => wr_weights r = ws) (cr_reveals s) ->
  finalized_weights HO1 now1 smoothing min s = finalized_weights HO2 now2 smoothing min s.
Proof. intros Hall. by rewrite !(finalized_weights_same _ _ _ _ _ ws). Qed.
End agreement.

(** ** Concrete epochs *)

Module CommitRevealExamples.
Import Toy.

Definition hk (i : Z) : Hotkey := mk_Hotkey (toy_key i).
Definition agent (name : string) (n d : Z) : WeightAssignment := mk_WeightAssignment name (f64_lit n d).

Definition weights_a : list WeightAssignment := [agent "alice" 3 4; agent "bob" 1 4].
Definition weights_b : list WeightAssignment := [agent "alice" 1 4; agent "bob" 3 4].

Definition commitment_of (i : Z) (ws : list WeightAssignment) (secret : bytes) : WeightCommitment :=
  mk_WeightCommitment (hk i) 1 5 (create_commitment ws secret) 0.
Definition reveal_of (i : Z) (ws : list WeightAssignment) (secret : bytes) : WeightReveal :=
  mk_WeightReveal (hk i) 1 5 ws secret 0.

Definition empty_state : CommitRevealState := CommitRevealState_new 5 1.
Definition committed (i : Z) (ws : list WeightAssignment) (s : CommitRevealState) :
    CommitRevealState := (submit_commitment (commitment_of i ws [i]) s).2.
Definition revealed (i : Z) (ws : list WeightAssignment) (s : CommitRevealState) :
    CommitRevealState := (submit_reveal (reveal_of i ws [i]) s).2.

(** Validators 1 and 2, who disagree. *)
Definition split_state : CommitRevealState :=
  revealed 2 weights_b (revealed 1 weights_a
    (committed 2 weights_b (committed 1 weights_a empty_state))).

Lemma split_reachable : rtc cr_step empty_state split_state.
Proof.
  eapply rtc_l; [apply (crs_commit _ (commitment_of 1 weights_a [1]))|].
  eapply rtc_l; [apply (crs_commit _ (commitment_of 2 weights_b [2]))|].
  eapply rtc_l; [apply (crs_reveal _ (reveal_of 1 weights_a [1]))|].
  eapply rtc_l; [apply (crs_reveal _ (reveal_of 2 weights_b [2]))|]. apply rtc_refl.
Qed.

Lemma reveals_open_commitments_witness :
  exists c, create_commitment weights_a [1] = wc_commitment_hash c /\
    cr_commitments split_state !! hk 1 = Some c.
Proof.
  assert (Hr : cr_reveals split_state !! hk 1 = Some (reveal_of 1 weights_a [1]))
    by by vm_compute.
  destruct (reveals_open_commitments 5 1 split_state split_state (hk 1) (reveal_of 1 weights_a [1])
    split_reachable (rtc_refl _ _) Hr) as (c & _ & _ & _ & _ & Hopen & Hc & _).
  exists c. split; [exact Hopen|exact Hc].
Defined.

Lemma commitment_not_binding_witness :
  create_commitment weights_a [7] =
  create_commitment [agent "alice" 3 4] (assignment_bytes (agent "bob" 1 4) ++ [7]).
Proof.
  refine (commitment_not_binding [agent "alice" 3 4] (agent "bob" 1 4) [7] _).
  repeat constructor. by_compute.
Defined.

Definition same_state : CommitRevealState :=
  revealed 2 weights_a (revealed 1 weights_a
    (committed 2 weights_a (committed 1 weights_a empty_state))).

Lemma finalize_agreement_witness :
  finalized_weights (elements_order Hotkey) 0 f64_zero 2 same_state =
  finalized_weights (reverse_order Hotkey) 9 f64_zero 2 same_state.
Proof.
  refine (finalize_agreement (elements_order Hotkey) (reverse_order Hotkey) 0 9 f64_zero 2
    same_state weights_a _).
  by_compute.
Defined.

(** When the revealed weights differ, the first submission in iteration
    order is taken, and iteration order is random: two nodes with the same
    state finalise different weights. *)
Theorem finalize_order_dependent :
  finalized_weights (elements_order Hotkey) 0 f64_zero 2 split_state <>
  finalized_weights (reverse_order Hotkey) 0 f64_zero 2 split_state.
Proof. vm_compute. discriminate. Qed.

(** Validator 1 first reveals the wrong weights, then the right ones. *)
Definition retried_state : CommitRevealState :=
  revealed 1 weights_a (revealed 1 weights_b (committed 1 weights_a empty_state)).

(** A validator whose first reveal did not match and whose second did is
    listed both as participating and as excluded. *)
Theorem retried_reveal_both_lists :
  match (finalize 0 f64_zero 1 retried_state).1 with
  | Ok fw => hk 1 ∈ fw_participating fw /\ hk 1 ∈ fw_excluded fw
  | Err _ => False
  end.
Proof.
  assert (Hrun : match (finalize 0 f64_zero 1 retried_state).1 with
    | Ok fw => bool_decide (hk 1 ∈ fw_participating fw /\ hk 1 ∈ fw_excluded fw)
    | Err _ => false end = true) by (vm_compute; reflexivity).
  destruct (finalize 0 f64_zero 1 retried_state).1; [|discriminate].
  by apply bool_decide_eq_true in Hrun.
Qed.
End CommitRevealExamples.
