(* ===== verification/MechanismWeights.v ===== *)
(** * Weights per mechanism

    Models [crates/epoch/src/mechanism_weights.rs]: the conversion of a
    challenge's weights to Bittensor's 16-bit format, and the managers that
    collect, commit and reveal them per mechanism. *)

From S2P Require Import Prelude Float64 Crypto RustBytes CommitReveal.

Definition BURN_UID : Z := 0.
Definition MAX_WEIGHT : Z := 65535.

Record MechanismWeights : Type := mk_MechanismWeights {
  mw_mechanism_id : Z;
  mw_challenge_id : Z;
  mw_uids : list Z;
  mw_weights : list Z;
  mw_raw_weights : list WeightAssignment;
  mw_emission_weight : f64
}.

Abbreviation HotkeyUidMap := (gmap string Z).

(** One turn of the loop: the UID and weight it pushes, or [None] when it
    skips the assignment. *)
Definition scaled_entry (total emission_weight : f64) (hotkey_to_uid : HotkeyUidMap)
    (a : WeightAssignment) : option (Z * Z) :=
  match hotkey_to_uid !! wa_hotkey a with
  | None => None
  | Some uid =>
      if uid =? BURN_UID then None
      else
        let normalized_score := f64_div (wa_weight a) total in
        let scaled_weight :=
          f64_as_u16 (f64_round (f64_mul (f64_mul normalized_score emission_weight)
                                   (f64_of_Z MAX_WEIGHT))) in
        if 0 <? scaled_weight then Some (uid, scaled_weight) else None
  end.

Definition convert_to_bittensor_format (assignments : list WeightAssignment)
    (emission_weight : f64) (hotkey_to_uid : HotkeyUidMap) : list Z * list Z :=
  if (length assignments =? 0)%nat || f64_leb emission_weight f64_zero then
    ([BURN_UID], [MAX_WEIGHT])
  else
    let total := f64_sum (wa_weight <$> assignments) in
    if f64_leb total f64_zero then ([BURN_UID], [MAX_WEIGHT])
    else
      let entries := omap (scaled_entry total emission_weight hotkey_to_uid) assignments in
      let used_weight := u64_sum entries.*2 in
      let burn_weight := u16_saturating_sub MAX_WEIGHT (u64_as_u16 used_weight) in
      if 0 <? burn_weight then (BURN_UID :: entries.*1, burn_weight :: entries.*2)
      else (entries.*1, entries.*2).

Definition with_hotkey_mapping (mechanism_id challenge_id : Z) (assignments : list WeightAssignment)
    (emission_weight : f64) (hotkey_to_uid : HotkeyUidMap) : MechanismWeights :=
  let emission_weight := f64_clamp f64_zero f64_one emission_weight in
  let '(uids, weights) := convert_to_bittensor_format assignments emission_weight hotkey_to_uid in
  mk_MechanismWeights mechanism_id challenge_id uids weights assignments emission_weight.

Definition MechanismWeights_new (mechanism_id challenge_id : Z)
    (assignments : list WeightAssignment) (emission_weight : f64) : MechanismWeights :=
  with_hotkey_mapping mechanism_id challenge_id assignments emission_weight ∅.

Definition as_batch_tuple (w : MechanismWeights) : Z * list Z * list Z :=
  (mw_mechanism_id w, mw_uids w, mw_weights w).

(** ** The weight manager *)

Record MechanismWeightManager : Type := mk_MechanismWeightManager {
  mm_epoch : Z;
  mm_weights : gmap Z MechanismWeights;
  mm_challenge_mechanism_map : gmap Z Z
}.

Definition MechanismWeightManager_new (epoch : Z) : MechanismWeightManager :=
  mk_MechanismWeightManager epoch ∅ ∅.

Definition register_challenge (challenge_id mechanism_id : Z) (m : MechanismWeightManager) :
    MechanismWeightManager :=
  mk_MechanismWeightManager (mm_epoch m) (mm_weights m)
    (<[challenge_id := mechanism_id]> (mm_challenge_mechanism_map m)).

Definition submit_weights_with_metagraph (challenge_id mechanism_id : Z)
    (weights : list WeightAssignment) (emission_weight : f64) (hotkey_to_uid : HotkeyUidMap)
    (m : MechanismWeightManager) : MechanismWeightManager :=
  mk_MechanismWeightManager (mm_epoch m)
    (<[mechanism_id := with_hotkey_mapping mechanism_id challenge_id weights emission_weight
         hotkey_to_uid]> (mm_weights m))
    (mm_challenge_mechanism_map m).

Definition submit_weights (challenge_id mechanism_id : Z) (weights : list WeightAssignment)
    (emission_weight : f64) (m : MechanismWeightManager) : MechanismWeightManager :=
  submit_weights_with_metagraph challenge_id mechanism_id weights emission_weight ∅ m.

Definition get_all_mechanism_weights `{!HashOrder Z} (m : MechanismWeightManager) :
    list (Z * list Z * list Z) := as_batch_tuple <$> hm_values (mm_weights m).

Definition get_mechanism_weights (m : MechanismWeightManager) (mechanism_id : Z) :
    option MechanismWeights := mm_weights m !! mechanism_id.
Definition get_mechanism_for_challenge (m : MechanismWeightManager) (challenge_id : Z) : option Z :=
  mm_challenge_mechanism_map m !! challenge_id.
Definition list_mechanisms `{!HashOrder Z} (m : MechanismWeightManager) : list Z :=
  hm_keys (mm_weights m).
Definition mechanism_count (m : MechanismWeightManager) : nat := size (mm_weights m).

Definition mm_clear (m : MechanismWeightManager) : MechanismWeightManager :=
  mk_MechanismWeightManager (mm_epoch m) ∅ (mm_challenge_mechanism_map m).

(** ** Commit and reveal per mechanism *)

Record MechanismCommitment : Type := mk_MechanismCommitment {
  mc_mechanism_id : Z;
  mc_epoch : Z;
  mc_commit_hash : bytes;
  mc_salt : bytes
}.

Record MechanismCommitRevealManager : Type := mk_MechanismCommitRevealManager {
  mcr_epoch : Z;
  mcr_commitments : gmap Z MechanismCommitment;
  mcr_revealed : gmap Z MechanismWeights
}.

Section mechanism_commit.
Context `{External}.

Definition mc_compute_hash (uids weights : list Z) (salt : bytes) : bytes :=
  sha256 (mjoin (to_le_bytes 2 <$> uids) ++ mjoin (to_le_bytes 2 <$> weights) ++ salt).

Definition MechanismCommitment_new (mechanism_id epoch : Z) (weights : MechanismWeights)
    (salt : bytes) : MechanismCommitment :=
  mk_MechanismCommitment mechanism_id epoch
    (mc_compute_hash (mw_uids weights) (mw_weights weights) salt) salt.

Definition MechanismCommitRevealManager_new : MechanismCommitRevealManager :=
  mk_MechanismCommitRevealManager 0 ∅ ∅.

Definition mcr_new_epoch (epoch : Z) (m : MechanismCommitRevealManager) :
    MechanismCommitRevealManager := mk_MechanismCommitRevealManager epoch ∅ ∅.

Definition mcr_commit (c : MechanismCommitment) (m : MechanismCommitRevealManager) :
    MechanismCommitRevealManager :=
  mk_MechanismCommitRevealManager (mcr_epoch m)
    (<[mc_mechanism_id c := c]> (mcr_commitments m)) (mcr_revealed m).

Definition mcr_reveal (mechanism_id : Z) (weights : MechanismWeights) :
    SE MechanismCommitRevealManager string unit :=
  m ← get_state;
  commitment ← lift (ok_or (mcr_commitments m !! mechanism_id)
    ("No commitment for mechanism " +:+ pretty.pretty mechanism_id));
  let expected_hash := mc_compute_hash (mw_uids weights) (mw_weights weights) (mc_salt commitment) in
  _ ← require (bool_decide (expected_hash = mc_commit_hash commitment))
        ("Commitment mismatch for mechanism " +:+ pretty.pretty mechanism_id +:+ ": expected "
         +:+ hex_encode (mc_commit_hash commitment) +:+ ", got " +:+ hex_encode expected_hash);
  modify (fun m => mk_MechanismCommitRevealManager (mcr_epoch m) (mcr_commitments m)
                     (<[mechanism_id := weights]> (mcr_revealed m))).

Definition get_revealed_weights `{!HashOrder Z} (m : MechanismCommitRevealManager) :
    list (Z * list Z * list Z) := as_batch_tuple <$> hm_values (mcr_revealed m).

Definition all_revealed `{!HashOrder Z} (m : MechanismCommitRevealManager) : bool :=
  forallb (fun k => bool_decide (is_Some (mcr_revealed m !! k))) (hm_keys (mcr_commitments m)).
End mechanism_commit.

(** ** Properties *)

Definition Zsum (l : list Z) : Z := foldr Z.add 0 l.

Lemma Zsum_nonneg l : Forall (fun x => 0 <= x) l -> 0 <= Zsum l.
Proof. induction 1 as [|x l Hx _ IH]; [done|]. change (Zsum (x :: l)) with (x + Zsum l). lia. Qed.

Lemma fold_u64_add_small l acc :
  0 <= acc -> Forall (fun x => 0 <= x) l -> acc + Zsum l < 2 ^ 64 ->
  fold_left u64_add l acc = acc + Zsum l.
Proof.
  intros Hacc Hl. revert acc Hacc. induction Hl as [|x l Hx Hl IH]; intros acc Hacc Hlt;
    [simpl; lia|].
  change (Zsum (x :: l)) with (x + Zsum l) in *. cbn [fold_left].
  pose proof (Zsum_nonneg l Hl). rewrite u64_add_small by lia. rewrite IH; lia.
Qed.

Lemma u64_sum_small l :
  Forall (fun x => 0 <= x) l -> Zsum l < 2 ^ 64 -> u64_sum l = Zsum l.
Proof. intros Hl Hlt. unfold u64_sum. by rewrite fold_u64_add_small. Qed.

(** The entries of the agents, without the burn entry. *)
Definition agent_entries (assignments : list WeightAssignment) (emission_weight : f64)
    (hotkey_to_uid : HotkeyUidMap) : list (Z * Z) :=
  omap (scaled_entry (f64_sum (wa_weight <$> assignments)) emission_weight hotkey_to_uid)
    assignments.

Lemma scaled_entry_Some total em map a uid w :
  scaled_entry total em map a = Some (uid, w) ->
  map !! wa_hotkey a = Some uid /\ uid <> BURN_UID /\ 0 < w <= MAX_WEIGHT.
Proof.
  unfold scaled_entry. destruct (map !! wa_hotkey a) as [u|]; [|done].
  destruct (Z.eqb_spec u BURN_UID); [done|]. cbv zeta.
  match goal with |- context [f64_as_u16 ?x] =>
    pose proof (f64_as_u16_range x) as Hr; revert Hr; generalize (f64_as_u16 x) end.
  intros v Hr. destruct (Z.ltb_spec 0 v); [|done]. intros [= <- <-].
  unfold is_u16, MAX_WEIGHT in *. split; [done|]. split; [done|]. lia.
Qed.

Lemma agent_entries_ok assignments em map :
  Forall (fun e => exists a, a ∈ assignments /\ map !! wa_hotkey a = Some e.1 /\
    e.1 <> BURN_UID /\ 0 < e.2 <= MAX_WEIGHT) (agent_entries assignments em map).
Proof.
  apply list.Forall_forall. intros [uid w] (a & Ha & He)%list_elem_of_omap.
  exists a. apply scaled_entry_Some in He. by simpl.
Qed.

Lemma u64_as_u16_small x : 0 <= x <= MAX_WEIGHT -> u64_as_u16 x = x.
Proof. intros Hx. unfold u64_as_u16, MAX_WEIGHT in *. apply Z.mod_small. lia. Qed.

(** C18. The converted vector is well formed: it pairs each UID with one weight
    between 1 and 65535, every UID but the burn entry is that of an assigned
    hotkey, and, when the rounded weights of the agents do not exceed 65535
    together, all weights sum to exactly 65535. *)
Theorem conversion_conserves assignments em map :
  let '(uids, ws) := convert_to_bittensor_format assignments em map in
  length uids = length ws /\ Forall (fun w => 0 < w <= MAX_WEIGHT) ws /\
  Forall (fun uid => uid = BURN_UID \/
    exists a, a ∈ assignments /\ map !! wa_hotkey a = Some uid /\ uid <> BURN_UID) uids /\
  (Zsum (agent_entries assignments em map).*2 <= MAX_WEIGHT -> Zsum ws = MAX_WEIGHT).
Proof.
  pose proof (agent_entries_ok assignments em map) as Hok.
  unfold convert_to_bittensor_format.
  assert (Hburn : length [BURN_UID] = length [MAX_WEIGHT] /\
    Forall (fun w => 0 < w <= MAX_WEIGHT) [MAX_WEIGHT] /\
    Forall (fun uid => uid = BURN_UID \/ exists a, a ∈ assignments /\
      map !! wa_hotkey a = Some uid /\ uid <> BURN_UID) [BURN_UID] /\
    (Zsum (agent_entries assignments em map).*2 <= MAX_WEIGHT -> Zsum [MAX_WEIGHT] = MAX_WEIGHT)).
  { split; [done|]. split; [by repeat constructor|]. split; [by repeat constructor; left|done]. }
  destruct (_ || _); [exact Hburn|]. cbv zeta.
  destruct (f64_leb (f64_sum _) f64_zero); [exact Hburn|]. clear Hburn.
  fold (agent_entries assignments em map). set (es := agent_entries assignments em map) in *.
  assert (Hw : Forall (fun w => 0 < w <= MAX_WEIGHT) es.*2)
    by (apply Forall_fmap; eapply Forall_impl; [exact Hok|]; by intros ? (? & ? & ? & ? & ?)).
  assert (Hu : Forall (fun uid => uid = BURN_UID \/ exists a, a ∈ assignments /\
      map !! wa_hotkey a = Some uid /\ uid <> BURN_UID) es.*1)
    by (apply Forall_fmap; eapply Forall_impl; [exact Hok|];
        intros ? (a & ? & ? & ? & ?); right; by exists a).
  assert (Hnn : Forall (fun w => 0 <= w) es.*2)
    by (eapply Forall_impl; [exact Hw|]; simpl; lia).
  pose proof (Zsum_nonneg _ Hnn) as Hsum.
  set (used := u64_sum es.*2). set (burn := u16_saturating_sub MAX_WEIGHT (u64_as_u16 used)).
  assert (Hburn : Zsum es.*2 <= MAX_WEIGHT -> burn = MAX_WEIGHT - Zsum es.*2).
  { intros Hle. unfold burn, used, u16_saturating_sub.
    rewrite u64_sum_small by (unfold MAX_WEIGHT in *; first [done|lia]).
    rewrite u64_as_u16_small by lia. lia. }
  assert (Hmax : burn <= MAX_WEIGHT).
  { unfold burn, u16_saturating_sub, u64_as_u16, MAX_WEIGHT.
    pose proof (Z.mod_pos_bound used (2 ^ 16)). lia. }
  destruct (Z.ltb_spec 0 burn).
  - split; [simpl; by rewrite !length_fmap|]. split; [by constructor|].
    split; [constructor; [by left|done]|]. intros Hle. simpl. rewrite Hburn by done. lia.
  - split; [by rewrite !length_fmap|]. split; [done|]. split; [done|]. intros Hle.
    rewrite Hburn in * by done. lia.
Qed.

(** Without the metagraph's UIDs nothing can be paid out: the constructor
    that takes no mapping gives the whole weight to the burn UID. *)
Theorem no_mapping_burns mechanism challenge assignments em :
  as_batch_tuple (MechanismWeights_new mechanism challenge assignments em) =
  (mechanism, [BURN_UID], [MAX_WEIGHT]).
Proof.
  unfold MechanismWeights_new, with_hotkey_mapping, convert_to_bittensor_format.
  destruct (_ || _); [done|]. cbv zeta. destruct (f64_leb (f64_sum _) f64_zero); [done|].
  assert (Hnone : omap (scaled_entry (f64_sum (wa_weight <$> assignments))
    (f64_clamp f64_zero f64_one em) ∅) assignments = []); [|by rewrite Hnone].
  clear. generalize (f64_sum (wa_weight <$> assignments)). intros total.
  induction assignments as [|a assignments IH]; [done|]. simpl.
  unfold scaled_entry at 1. by rewrite lookup_empty.
Qed.

Section reveal.
Context `{External}.

Inductive mcr_step (m : MechanismCommitRevealManager) : MechanismCommitRevealManager -> Prop :=
| mcrs_epoch e : mcr_step m (mcr_new_epoch e m)
| mcrs_commit c : mcr_commitments m !! mc_mechanism_id c = None -> mcr_step m (mcr_commit c m)
| mcrs_reveal k w : mcr_step m (mcr_reveal k w m).2.

Lemma mcr_reveal_cases k w m :
  (exists err, mcr_reveal k w m = (Err err, m)) \/
  (exists c, mcr_commitments m !! k = Some c /\
    mc_compute_hash (mw_uids w) (mw_weights w) (mc_salt c) = mc_commit_hash c /\
    mcr_reveal k w m = (Ok tt, mk_MechanismCommitRevealManager (mcr_epoch m) (mcr_commitments m)
                          (<[k := w]> (mcr_revealed m)))).
Proof.
  unfold mcr_reveal, mbind, SE_bind, lift, require, get_state, modify. simpl.
  destruct (mcr_commitments m !! k) as [c|]; simpl; [|by eauto].
  case_bool_decide; [|by eauto]. right. by exists c.
Qed.

(** Every revealed entry opens the commitment of its mechanism. *)
Definition opens (m : MechanismCommitRevealManager) : Prop :=
  forall k w, mcr_revealed m !! k = Some w ->
  exists c, mcr_commitments m !! k = Some c /\
    mc_compute_hash (mw_uids w) (mw_weights w) (mc_salt c) = mc_commit_hash c.

Lemma mcr_step_opens m m' : opens m -> mcr_step m m' -> opens m'.
Proof.
  intros IH Hstep k w. destruct Hstep as [e|c Hnew|k' w']; simpl.
  - by rewrite lookup_empty.
  - intros Hr. destruct (IH k w Hr) as (c' & Hc' & Hh). exists c'. split; [|done].
    rewrite lookup_insert_ne; [done|]. intros Heq. by rewrite Heq, Hc' in Hnew.
  - destruct (mcr_reveal_cases k' w' m) as [[err ->]|(c & Hc & Hh & ->)]; [apply IH|]. simpl.
    destruct (decide (k' = k)) as [->|Hne].
    + rewrite lookup_insert_eq. intros [= <-]. by exists c.
    + rewrite lookup_insert_ne by done. apply IH.
Qed.

Lemma mcr_steps_open m m' : opens m -> rtc mcr_step m m' -> opens m'.
Proof. intros Ho. induction 1; eauto using mcr_step_opens. Qed.

(** If each mechanism commits at most once per epoch, the weights revealed
    for a mechanism always open its commitment. *)
Theorem revealed_opens_commitment m k w :
  rtc mcr_step MechanismCommitRevealManager_new m -> mcr_revealed m !! k = Some w ->
  exists c, mcr_commitments m !! k = Some c /\
    mc_compute_hash (mw_uids w) (mw_weights w) (mc_salt c) = mc_commit_hash c.
Proof.
  intros Hrtc. apply (mcr_steps_open MechanismCommitRevealManager_new m); [|done].
  intros k' w'. simpl. by rewrite lookup_empty.
Qed.

(** The commitment hash covers neither the mechanism nor the border between
    UIDs and weights: weights that open a commitment open it as well with any
    mechanism id, and with all entries read as UIDs, so that the batch
    submission carries them. *)
Theorem mechanism_commitment_ambiguous k w m m' other :
  mcr_reveal k w m = (Ok tt, m') ->
  let w' := mk_MechanismWeights other (mw_challenge_id w) (mw_uids w ++ mw_weights w) []
              (mw_raw_weights w) (mw_emission_weight w) in
  (mcr_reveal k w' m).1 = Ok tt /\ mcr_revealed (mcr_reveal k w' m).2 !! k = Some w'.
Proof.
  intros Hrun w'. destruct (mcr_reveal_cases k w m) as [[err Herr]|(c & Hc & Hh & _)];
    [congruence|].
  assert (Hh' : mc_compute_hash (mw_uids w') (mw_weights w') (mc_salt c) = mc_commit_hash c).
  { rewrite <- Hh. unfold mc_compute_hash. simpl. by rewrite fmap_app, join_app, <- (assoc_L (++)). }
  unfold mcr_reveal, mbind, SE_bind, lift, require, get_state, modify. simpl. rewrite Hc. simpl.
  change (mw_uids w ++ mw_weights w) with (mw_uids w'). change [] with (mw_weights w').
  rewrite bool_decide_eq_true_2 by done. simpl. by rewrite lookup_insert_eq.
Qed.
End reveal.

Module MechanismExamples.
Import Toy.

Definition half (name : string) : WeightAssignment := mk_WeightAssignment name (f64_lit 1 2).
Definition two_uids : HotkeyUidMap := {["alice" := 5; "bob" := 7]}.

(** Rounding can lose the accounting: two agents of equal weight under full
    emission round up to 32768 each, 65536 together, which as a 16-bit number
    is zero, so that the burn UID gets another 65535 and half of the emission. *)
Theorem rounding_overflows_to_burn :
  convert_to_bittensor_format [half "alice"; half "bob"] f64_one two_uids =
  ([0; 5; 7], [65535; 32768; 32768]).
Proof. by vm_compute. Qed.

Definition some_weights : MechanismWeights :=
  with_hotkey_mapping 1 9 [half "alice"] f64_one two_uids.
Definition committed_manager : MechanismCommitRevealManager :=
  mcr_commit (MechanismCommitment_new 1 0 some_weights [3; 4]) MechanismCommitRevealManager_new.
Definition revealed_manager : MechanismCommitRevealManager :=
  (mcr_reveal 1 some_weights committed_manager).2.

Lemma revealed_opens_commitment_witness :
  exists c, mcr_commitments revealed_manager !! 1 = Some c /\
    mc_compute_hash (mw_uids some_weights) (mw_weights some_weights) (mc_salt c)
    = mc_commit_hash c.
Proof.
  assert (Hr : mcr_revealed revealed_manager !! 1 = Some some_weights) by by vm_compute.
  refine (revealed_opens_commitment revealed_manager 1 some_weights _ Hr).
  eapply rtc_l; [apply (mcrs_commit _ (MechanismCommitment_new 1 0 some_weights [3; 4]));
                 reflexivity|].
  eapply rtc_l; [apply (mcrs_reveal _ 1 some_weights)|apply rtc_refl].
Defined.

Lemma mechanism_commitment_ambiguous_witness :
  (mcr_reveal 1 (mk_MechanismWeights 2 9 ([5] ++ [65535]) [] [half "alice"] f64_one)
     committed_manager).1 = Ok tt.
Proof.
  assert (Hw : some_weights = mk_MechanismWeights 1 9 [5] [65535] [half "alice"] f64_one)
    by by vm_compute.
  assert (Hrun : (mcr_reveal 1 some_weights committed_manager).1 = Ok tt) by by vm_compute.
  pose proof (mechanism_commitment_ambiguous 1 some_weights committed_manager _ 2
    (run_result _ _ _ Hrun)) as [Hok _].
  rewrite Hw in Hok at 1 2 3 4 5. exact Hok.
Defined.
End MechanismExamples.
