(* ===== verification/Aggregator.v ===== *)
(** * Emission aggregation

    Models [crates/epoch/src/aggregator.rs]: the split of an epoch's emission
    over challenges and miners, the merge of a miner's shares and the reports
    on validators. *)

From S2P Require Import Prelude Float64 Crypto CommitReveal.

(** The fields of [ChallengeMetadata] that the aggregator reads. *)
Record ChallengeMetadata : Type := mk_ChallengeMetadata {
  chm_id : Z;
  chm_emission_weight : f64;
  chm_is_active : bool
}.

Record AgentEmission : Type := mk_AgentEmission {
  ae_hotkey : string;
  ae_weight : f64;
  ae_emission : Z;
  ae_challenge_id : Z
}.

Record EmissionDistribution : Type := mk_EmissionDistribution {
  ed_epoch : Z;
  ed_total_emission : Z;
  ed_distributions : list AgentEmission;
  ed_timestamp : Z
}.

Inductive SuspicionReason : Type :=
| ExcludedFromConsensus
| WeightDeviation (deviation : f64)
| NoParticipation.

Record SuspiciousValidator : Type := mk_SuspiciousValidator {
  sv_hotkey : Hotkey;
  sv_reason : SuspicionReason;
  sv_challenge_id : Z;
  sv_epoch : Z
}.

Record ValidatorMetrics : Type := mk_ValidatorMetrics {
  vm_hotkey : Hotkey;
  vm_epochs_participated : nat;
  vm_epochs_excluded : nat;
  vm_participation_rate : f64
}.

Section aggregator.
Context `{HO : !HashOrder string}.

(** Grouping: [by_miner.entry(hotkey).or_default().push(dist)] for each. *)
Definition group_by_miner (distributions : list AgentEmission) : gmap string (list AgentEmission) :=
  fold_left (fun m d => <[ae_hotkey d := default [] (m !! ae_hotkey d) ++ [d]]> m)
    distributions ∅.

(** [fresh] is the random id for the (impossible) empty group. *)
Definition merge_group (fresh : Z) (p : string * list AgentEmission) : AgentEmission :=
  let '(hotkey, emissions) := p in
  let total_emission := u64_sum (ae_emission <$> emissions) in
  let total_weight := f64_sum (ae_weight <$> emissions) in
  let challenge_id := default fresh (ae_challenge_id <$> head emissions) in
  mk_AgentEmission hotkey
    (f64_div total_weight (f64_of_Z (Z.of_nat (length emissions)))) total_emission challenge_id.

Definition merge_agent_emissions (fresh : Z) (distributions : list AgentEmission) :
    list AgentEmission :=
  merge_group fresh <$> hm_iter (group_by_miner distributions).

(** The shares of one challenge; none without finalized weights. *)
Definition challenge_emissions (total_emission : Z) (total_challenge_weight : f64)
    (finalized_weights : gmap Z FinalizedWeights) (c : ChallengeMetadata) : list AgentEmission :=
  if negb (chm_is_active c) then []
  else
    match finalized_weights !! chm_id c with
    | None => []
    | Some fw =>
        let challenge_share := f64_div (chm_emission_weight c) total_challenge_weight in
        let challenge_emission :=
          f64_as_u64 (f64_mul (f64_of_Z total_emission) challenge_share) in
        (fun w => mk_AgentEmission (wa_hotkey w) (wa_weight w)
           (f64_as_u64 (f64_mul (f64_of_Z challenge_emission) (wa_weight w))) (chm_id c))
          <$> fw_weights fw
    end.

Definition calculate_emissions (now fresh epoch total_emission : Z)
    (challenges : list ChallengeMetadata) (finalized_weights : gmap Z FinalizedWeights) :
    EmissionDistribution :=
  let total_challenge_weight :=
    f64_sum (chm_emission_weight <$> filter (fun c => chm_is_active c = true) challenges) in
  if f64_eqb total_challenge_weight f64_zero then
    mk_EmissionDistribution epoch total_emission [] now
  else
    let distributions :=
      mjoin (challenge_emissions total_emission total_challenge_weight finalized_weights
               <$> challenges) in
    mk_EmissionDistribution epoch total_emission
      (merge_agent_emissions fresh distributions) now.

Definition detect_suspicious_validators (finalized_weights : list FinalizedWeights) :
    list SuspiciousValidator :=
  mjoin ((fun fw => (fun h => mk_SuspiciousValidator h ExcludedFromConsensus (fw_challenge_id fw)
                                (fw_epoch fw)) <$> fw_excluded fw) <$> finalized_weights).

Definition count_epoch (validator : Hotkey) (acc : nat * nat) (fw : FinalizedWeights) : nat * nat :=
  if bool_decide (validator ∈ fw_participating fw) then (S acc.1, acc.2)
  else if bool_decide (validator ∈ fw_excluded fw) then (acc.1, S acc.2)
  else acc.

Definition validator_metrics (validator : Hotkey) (history : list FinalizedWeights) :
    ValidatorMetrics :=
  let '(participated, excluded) := fold_left (count_epoch validator) history (0%nat, 0%nat) in
  let total := (participated + excluded)%nat in
  mk_ValidatorMetrics validator participated excluded
    (if (0 <? total)%nat
     then f64_div (f64_of_Z (Z.of_nat participated)) (f64_of_Z (Z.of_nat total))
     else f64_zero).

(** ** Properties *)

(** Emission of one miner over a list, modulo 2^64 as [sum] computes it. *)
Definition emission_of (h : string) (l : list AgentEmission) : Z :=
  u64_sum (ae_emission <$> filter (fun d => ae_hotkey d = h) l).

Lemma group_by_miner_snoc l d :
  group_by_miner (l ++ [d]) =
  <[ae_hotkey d := default [] (group_by_miner l !! ae_hotkey d) ++ [d]]> (group_by_miner l).
Proof. unfold group_by_miner. by rewrite fold_left_app. Qed.

(** A group holds the miner's entries, in order. *)
Lemma group_by_miner_lookup l h :
  default [] (group_by_miner l !! h) = filter (fun d => ae_hotkey d = h) l /\
  (is_Some (group_by_miner l !! h) <-> exists d, d ∈ l /\ ae_hotkey d = h).
Proof.
  induction l as [|d l [IH1 IH2]] using rev_ind.
  - unfold group_by_miner. simpl. rewrite lookup_empty. split; [done|].
    split; [by intros []|]. intros (d & Hd & _). by apply elem_of_nil in Hd.
  - rewrite group_by_miner_snoc, filter_app. destruct (decide (ae_hotkey d = h)) as [<-|Hne].
    + rewrite lookup_insert_eq. simpl. rewrite IH1, filter_cons_True by done. split; [done|].
      split; [|by eauto]. intros _. exists d. split; [|done]. apply elem_of_app. right. by left.
    + rewrite lookup_insert_ne, filter_cons_False, app_nil_r by done.
      split; [done|]. rewrite IH2. split; intros (d' & Hd' & Hh); exists d'; (split; [|done]).
      * apply elem_of_app. by left.
      * apply elem_of_app in Hd' as [?|?%list_elem_of_singleton]; [done|by subst].
Qed.

(** Merging loses and invents nothing: the merged list has one entry per
    miner that got a share, and its emission is the (wrapping) sum of the
    miner's shares over all challenges. *)
Theorem merge_preserves_emissions fresh l :
  let merged := merge_agent_emissions fresh l in
  NoDup (ae_hotkey <$> merged) /\
  (forall h, h ∈ ae_hotkey <$> merged <-> exists d, d ∈ l /\ ae_hotkey d = h) /\
  (forall a, a ∈ merged -> ae_emission a = emission_of (ae_hotkey a) l).
Proof.
  unfold merge_agent_emissions. cbv zeta.
  assert (Hkeys : ae_hotkey <$> (merge_group fresh <$> hm_iter (group_by_miner l)) =
                  hm_keys (group_by_miner l)).
  { rewrite <- list_fmap_compose, <- fst_hm_iter. apply list_fmap_ext. by intros ? []. }
  rewrite Hkeys. split; [apply hm_keys_NoDup|]. split.
  - intros h. rewrite elem_of_hm_keys. apply (proj2 (group_by_miner_lookup l h)).
  - intros a ([h es] & -> & Hin%elem_of_hm_iter)%list_elem_of_fmap. simpl.
    unfold emission_of. rewrite <- (proj1 (group_by_miner_lookup l h)), Hin. done.
Qed.

(** Every epoch of a validator's history counts once at most, as
    participated if it took part and else as excluded if it was excluded. *)
Theorem metrics_count_epochs validator history :
  let m := validator_metrics validator history in
  vm_epochs_participated m = length (filter (fun fw => validator ∈ fw_participating fw) history) /\
  vm_epochs_excluded m = length (filter (fun fw => (validator ∉ fw_participating fw) /\
                                           validator ∈ fw_excluded fw) history) /\
  (vm_epochs_participated m + vm_epochs_excluded m <= length history)%nat.
Proof.
  assert (Hfold : forall l a b, fold_left (count_epoch validator) l (a, b) =
    ((a + length (filter (fun fw => validator ∈ fw_participating fw) l))%nat,
     (b + length (filter (fun fw => (validator ∉ fw_participating fw) /\
                            validator ∈ fw_excluded fw) l))%nat)).
  { induction l as [|fw l IH]; intros a b; cbn [fold_left]; [by rewrite !Nat.add_0_r|].
    unfold count_epoch at 2. rewrite !filter_cons.
    destruct (decide (validator ∈ fw_participating fw)) as [Hp|Hp];
      [rewrite bool_decide_eq_true_2 by done|rewrite bool_decide_eq_false_2 by done].
    - rewrite IH, decide_False by (by intros []). simpl. f_equal. lia.
    - destruct (decide (validator ∈ fw_excluded fw)) as [He|He];
        [rewrite bool_decide_eq_true_2 by done|rewrite bool_decide_eq_false_2 by done].
      + rewrite IH, decide_True by done. simpl. f_equal. lia.
      + rewrite IH, decide_False by (by intros []). done. }
  unfold validator_metrics. rewrite Hfold. cbn. split; [done|]. split; [done|].
  clear. induction history as [|fw l IH]; [done|]. rewrite !filter_cons.
  repeat case_decide; simpl; try lia. tauto.
Qed.
End aggregator.
