(* ===== verification/CoreTypes.v ===== *)
(** * Types of the core crate

    Models [crates/core/src/types.rs], [constants.rs] and [challenge.rs]:
    stakes, validators, network configuration, scores, jobs and WASM
    challenges.  UUIDs are their 128-bit values, time stamps their
    milliseconds; a constructor that draws a fresh UUID or reads the clock
    takes it as an argument. *)

From S2P Require Import Prelude Float64 Crypto RustStrings.

Abbreviation Uuid := Z (only parsing).
Abbreviation ChallengeId := Z (only parsing).
Abbreviation DateTime := Z (only parsing).

(** ** Challenge identifiers

    UUID parsing is the uuid crate's; the standard library leaves the
    algorithm of [DefaultHasher] open. *)
Class IdSource : Type := {
  uuid_parse_str : string -> option Uuid;
  default_hash : string -> Z
}.

Definition from_u64_pair (high low : Z) : Uuid := high * 2 ^ 64 + low.

Definition ChallengeId_from_string `{IdSource} (s : string) : ChallengeId :=
  match uuid_parse_str s with
  | Some uuid => uuid
  | None => let hash := u64_wrap (default_hash s) in from_u64_pair hash (u64_mul hash 31)
  end.

(** ** Stakes and validators *)

Record Stake : Type := mk_Stake { stake_rao : Z }.

#[global] Instance Stake_eq_dec : EqDecision Stake.
Proof. solve_decision. Defined.

Definition as_tao (s : Stake) : f64 := f64_div (f64_of_Z (stake_rao s)) (f64_of_Z 1000000000).

Record ValidatorInfo : Type := mk_ValidatorInfo {
  vi_hotkey : Hotkey;
  vi_stake : Stake;
  vi_is_active : bool;
  vi_last_seen : DateTime;
  vi_peer_id : option string;
  vi_x25519_pubkey : option string
}.

#[global] Instance ValidatorInfo_eq_dec : EqDecision ValidatorInfo.
Proof. solve_decision. Defined.

Definition ValidatorInfo_new (now : DateTime) (hotkey : Hotkey) (stake : Stake) : ValidatorInfo :=
  mk_ValidatorInfo hotkey stake true now None None.

(** ** Configuration *)

Record NetworkConfig : Type := mk_NetworkConfig {
  nc_subnet_id : Z;
  nc_min_stake : Stake;
  nc_consensus_threshold : f64;
  nc_block_time_ms : Z;
  nc_max_validators : nat;
  nc_evaluation_timeout_secs : Z
}.

#[global] Instance NetworkConfig_eq_dec : EqDecision NetworkConfig.
Proof. solve_decision. Defined.

Definition NetworkConfig_default : NetworkConfig :=
  mk_NetworkConfig 100 (mk_Stake 1000000000) (f64_lit 1 2) 12000 64 300.

Definition NetworkConfig_production : NetworkConfig :=
  mk_NetworkConfig 100 (mk_Stake 1000000000000) (f64_lit 1 2) 12000 64 3600.

(** ** Scores and jobs *)

Record Score : Type := mk_Score { score_value : f64; score_weight : f64 }.

#[global] Instance Score_eq_dec : EqDecision Score.
Proof. solve_decision. Defined.

Definition Score_new (value weight : f64) : Score :=
  mk_Score (f64_clamp f64_zero f64_one value) (f64_clamp f64_zero f64_one weight).

Definition weighted_value (s : Score) : f64 := f64_mul (score_value s) (score_weight s).

Inductive JobStatus : Type :=
| JobPending
| JobRunning
| JobCompleted
| JobFailed
| JobTimeout.

#[global] Instance JobStatus_eq_dec : EqDecision JobStatus.
Proof. solve_decision. Defined.

Record Job : Type := mk_Job {
  job_id : Uuid;
  job_challenge_id : ChallengeId;
  job_agent_hash : string;
  job_status : JobStatus;
  job_created_at : DateTime;
  job_assigned_validator : option Hotkey;
  job_result : option Score
}.

#[global] Instance Job_eq_dec : EqDecision Job.
Proof. solve_decision. Defined.

Definition Job_new (id : Uuid) (now : DateTime) (challenge_id : ChallengeId) (agent_hash : string) :
    Job :=
  mk_Job id challenge_id agent_hash JobPending now None None.

(** ** Protocol constants *)

Definition PROTOCOL_VERSION_MAJOR : Z := 0.
Definition PROTOCOL_VERSION_MINOR : Z := 1.
Definition PROTOCOL_VERSION_PATCH : Z := 0.
Definition PROTOCOL_VERSION : string := "0.1.0".
Definition MIN_COMPATIBLE_VERSION_MINOR : Z := 1.

Definition is_version_compatible (major minor patch : Z) : bool :=
  if negb (major =? PROTOCOL_VERSION_MAJOR) then false
  else MIN_COMPATIBLE_VERSION_MINOR <=? minor.

Definition protocol_version : Z * Z * Z :=
  (PROTOCOL_VERSION_MAJOR, PROTOCOL_VERSION_MINOR, PROTOCOL_VERSION_PATCH).

Definition SUDO_KEY_BYTES : bytes :=
  [0xda; 0x22; 0x04; 0x09; 0x67; 0x8d; 0xf5; 0xf0; 0x60; 0x74; 0xa6; 0x71; 0xab; 0xdc; 0x1f; 0x19;
   0xbc; 0x2b; 0xa1; 0x51; 0x72; 0x9f; 0xdb; 0x9a; 0x8e; 0x4b; 0xe2; 0x84; 0xe6; 0x0c; 0x94; 0x01].

Definition production_sudo_key : Hotkey := mk_Hotkey SUDO_KEY_BYTES.
Definition is_production_sudo (hotkey : Hotkey) : bool :=
  bool_decide (hk_bytes hotkey = SUDO_KEY_BYTES).

(** ** WASM challenges *)

Record ChallengeConfig : Type := mk_ChallengeConfig {
  chc_mechanism_id : Z;
  chc_timeout_secs : Z;
  chc_max_memory_mb : Z;
  chc_max_cpu_secs : Z;
  chc_emission_weight : f64;
  chc_min_validators : nat;
  chc_params_json : string
}.

#[global] Instance ChallengeConfig_eq_dec : EqDecision ChallengeConfig.
Proof. solve_decision. Defined.

(** [ChallengeConfig::with_mechanism]; the default has mechanism 1. *)
Definition with_mechanism (mechanism_id : Z) : ChallengeConfig :=
  mk_ChallengeConfig mechanism_id 300 512 60 f64_one 1 "{}".
Definition ChallengeConfig_default : ChallengeConfig := with_mechanism 1.

Record Challenge : Type := mk_Challenge {
  ch_id : ChallengeId;
  ch_name : string;
  ch_description : string;
  ch_wasm_code : bytes;
  ch_code_hash : string;
  ch_owner : Hotkey;
  ch_config : ChallengeConfig;
  ch_created_at : DateTime;
  ch_updated_at : DateTime;
  ch_is_active : bool
}.

#[global] Instance Challenge_eq_dec : EqDecision Challenge.
Proof. solve_decision. Defined.

Record ChallengeMeta : Type := mk_ChallengeMeta {
  chm_id : ChallengeId;
  chm_name : string;
  chm_description : string;
  chm_code_hash : string;
  chm_owner : Hotkey;
  chm_config : ChallengeConfig;
  chm_created_at : DateTime;
  chm_updated_at : DateTime;
  chm_is_active : bool
}.

Definition ChallengeMeta_from (c : Challenge) : ChallengeMeta :=
  mk_ChallengeMeta (ch_id c) (ch_name c) (ch_description c) (ch_code_hash c) (ch_owner c)
    (ch_config c) (ch_created_at c) (ch_updated_at c) (ch_is_active c).

Section challenges.
Context `{External}.

Definition Challenge_new (id : Uuid) (now : DateTime) (name description : string)
    (wasm_code : bytes) (owner : Hotkey) (config : ChallengeConfig) : Challenge :=
  mk_Challenge id name description wasm_code (hex_encode (hash wasm_code)) owner config now now
    true.

Definition update_code (now : DateTime) (wasm_code : bytes) (c : Challenge) : Challenge :=
  mk_Challenge (ch_id c) (ch_name c) (ch_description c) wasm_code (hex_encode (hash wasm_code))
    (ch_owner c) (ch_config c) (ch_created_at c) now (ch_is_active c).

Definition verify_code (c : Challenge) : bool :=
  bool_decide (hex_encode (hash (ch_wasm_code c)) = ch_code_hash c).

(** Creation and updates keep the code hash true. *)
Lemma verify_code_new id now name description code owner config :
  verify_code (Challenge_new id now name description code owner config) = true.
Proof. by apply bool_decide_eq_true. Qed.

Lemma verify_code_update now code c : verify_code (update_code now code c) = true.
Proof. by apply bool_decide_eq_true. Qed.
End challenges.

(** A version is compatible when its major number is ours and its minor one
    is not too old; the patch level does not matter. *)
Lemma is_version_compatible_spec major minor patch :
  is_version_compatible major minor patch = true <->
  major = PROTOCOL_VERSION_MAJOR /\ MIN_COMPATIBLE_VERSION_MINOR <= minor.
Proof.
  unfold is_version_compatible, PROTOCOL_VERSION_MAJOR, MIN_COMPATIBLE_VERSION_MINOR.
  destruct (Z.eqb_spec major 0); simpl; [rewrite Z.leb_le|]; naive_solver lia.
Qed.
