(* ===== verification/CoreState.v ===== *)
(** * The chain state of the core crate

    Models [crates/core/src/state.rs] and the container configurations of
    [crates/core/src/message.rs] it stores: a node's own [ChainState] of
    validators, challenges and jobs, with every method.  The clock is an
    argument [now]; the text of a validation error is a constructor that
    carries the values the text shows. *)

From S2P Require Import Prelude Float64 Crypto RustStrings CoreTypes.

(** ** Challenge containers *)

Record ChallengeContainerConfig : Type := mk_ChallengeContainerConfig {
  ccc_challenge_id : ChallengeId;
  ccc_name : string;
  ccc_docker_image : string;
  ccc_mechanism_id : Z;
  ccc_emission_weight : f64;
  ccc_timeout_secs : Z;
  ccc_cpu_cores : f64;
  ccc_memory_mb : Z;
  ccc_gpu_required : bool
}.

#[global] Instance ChallengeContainerConfig_eq_dec : EqDecision ChallengeContainerConfig.
Proof. solve_decision. Defined.

Definition ChallengeContainerConfig_new (id : Uuid) (name docker_image : string)
    (mechanism_id : Z) (emission_weight : f64) : ChallengeContainerConfig :=
  mk_ChallengeContainerConfig id name docker_image mechanism_id emission_weight 3600
    (f64_of_Z 2) 4096 false.

Definition with_resources (cpu_cores : f64) (memory_mb : Z) (gpu : bool)
    (c : ChallengeContainerConfig) : ChallengeContainerConfig :=
  mk_ChallengeContainerConfig (ccc_challenge_id c) (ccc_name c) (ccc_docker_image c)
    (ccc_mechanism_id c) (ccc_emission_weight c) (ccc_timeout_secs c) cpu_cores memory_mb gpu.

Definition with_timeout (timeout_secs : Z) (c : ChallengeContainerConfig) :
    ChallengeContainerConfig :=
  mk_ChallengeContainerConfig (ccc_challenge_id c) (ccc_name c) (ccc_docker_image c)
    (ccc_mechanism_id c) (ccc_emission_weight c) timeout_secs (ccc_cpu_cores c)
    (ccc_memory_mb c) (ccc_gpu_required c).

Definition ALLOWED_DOCKER_PREFIXES : list string :=
  ["ghcr.io/platformnetwork/"; "ghcr.io/PlatformNetwork/"]%string.

(** [is_development_mode], given the environment variable. *)
Definition is_development_mode (DEVELOPMENT_MODE : option string) : bool :=
  match DEVELOPMENT_MODE with
  | Some v => bool_decide (v = "true"%string) || bool_decide (v = "1"%string)
  | None => false
  end.

Definition is_docker_image_allowed (env : option string) (c : ChallengeContainerConfig) : bool :=
  if is_development_mode env then true
  else
    let image_lower := to_lowercase (ccc_docker_image c) in
    existsb (fun p => starts_with (to_lowercase p) image_lower) ALLOWED_DOCKER_PREFIXES.

Inductive ContainerConfigError : Type :=
| EmptyName
| EmptyDockerImage
| ImageNotAllowed (image : string)
| BadEmissionWeight (w : f64)
| TimeoutTooShort
| TimeoutTooLong
| BadCpuCores (c : f64)
| BadMemory (mb : Z).

Definition ContainerConfig_validate (env : option string) (c : ChallengeContainerConfig) :
    result ContainerConfigError unit :=
  if is_empty (trim (ccc_name c)) then Err EmptyName
  else if is_empty (trim (ccc_docker_image c)) then Err EmptyDockerImage
  else if negb (is_docker_image_allowed env c) then Err (ImageNotAllowed (ccc_docker_image c))
  else if f64_ltb (ccc_emission_weight c) f64_zero || f64_ltb f64_one (ccc_emission_weight c)
    then Err (BadEmissionWeight (ccc_emission_weight c))
  else if ccc_timeout_secs c <? 60 then Err TimeoutTooShort
  else if 86400 <? ccc_timeout_secs c then Err TimeoutTooLong
  else if f64_ltb (ccc_cpu_cores c) (f64_lit 1 2) || f64_ltb (f64_of_Z 64) (ccc_cpu_cores c)
    then Err (BadCpuCores (ccc_cpu_cores c))
  else if (ccc_memory_mb c <? 512) || (131072 <? ccc_memory_mb c)
    then Err (BadMemory (ccc_memory_mb c))
  else Ok tt.

Record MechanismWeightConfig : Type := mk_MechanismWeightConfig {
  mwc_mechanism_id : Z;
  mwc_base_burn_rate : f64;
  mwc_equal_distribution : bool;
  mwc_min_weight_threshold : f64;
  mwc_max_weight_cap : f64;
  mwc_active : bool
}.

#[global] Instance MechanismWeightConfig_eq_dec : EqDecision MechanismWeightConfig.
Proof. solve_decision. Defined.

Definition MechanismWeightConfig_new (mechanism_id : Z) : MechanismWeightConfig :=
  mk_MechanismWeightConfig mechanism_id f64_zero true (f64_lit 1 10000) f64_one true.

Definition with_burn_rate (rate : f64) (c : MechanismWeightConfig) : MechanismWeightConfig :=
  mk_MechanismWeightConfig (mwc_mechanism_id c) (f64_clamp f64_zero f64_one rate)
    (mwc_equal_distribution c) (mwc_min_weight_threshold c) (mwc_max_weight_cap c) (mwc_active c).

Definition with_max_cap (cap : f64) (c : MechanismWeightConfig) : MechanismWeightConfig :=
  mk_MechanismWeightConfig (mwc_mechanism_id c) (mwc_base_burn_rate c)
    (mwc_equal_distribution c) (mwc_min_weight_threshold c) (f64_clamp f64_zero f64_one cap)
    (mwc_active c).

Record ChallengeWeightAllocation : Type := mk_ChallengeWeightAllocation {
  cwa_challenge_id : ChallengeId;
  cwa_mechanism_id : Z;
  cwa_weight_ratio : f64;
  cwa_active : bool
}.

#[global] Instance ChallengeWeightAllocation_eq_dec : EqDecision ChallengeWeightAllocation.
Proof. solve_decision. Defined.

Definition ChallengeWeightAllocation_new (challenge_id : ChallengeId) (mechanism_id : Z)
    (weight_ratio : f64) : ChallengeWeightAllocation :=
  mk_ChallengeWeightAllocation challenge_id mechanism_id
    (f64_clamp f64_zero f64_one weight_ratio) true.

(** ** The state *)

Record RequiredVersion : Type := mk_RequiredVersion {
  rv_min_version : string;
  rv_recommended_version : string;
  rv_docker_image : string;
  rv_mandatory : bool;
  rv_deadline_block : option Z
}.

#[global] Instance RequiredVersion_eq_dec : EqDecision RequiredVersion.
Proof. solve_decision. Defined.

Record ChainState : Type := mk_ChainState {
  st_block_height : Z;
  st_epoch : Z;
  st_config : NetworkConfig;
  st_sudo_key : Hotkey;
  st_validators : gmap Hotkey ValidatorInfo;
  st_challenges : gmap ChallengeId Challenge;
  st_challenge_configs : gmap ChallengeId ChallengeContainerConfig;
  st_mechanism_configs : gmap Z MechanismWeightConfig;
  st_challenge_weights : gmap ChallengeId ChallengeWeightAllocation;
  st_required_version : option RequiredVersion;
  st_pending_jobs : list Job;
  st_state_hash : bytes;
  st_last_updated : DateTime;
  st_registered_hotkeys : gset Hotkey
}.

#[global] Instance ChainState_eq_dec : EqDecision ChainState.
Proof. solve_decision. Defined.

(** Field updates. *)
Definition set_block_height (x : Z) (s : ChainState) : ChainState :=
  mk_ChainState x (st_epoch s) (st_config s) (st_sudo_key s) (st_validators s) (st_challenges s)
    (st_challenge_configs s) (st_mechanism_configs s) (st_challenge_weights s)
    (st_required_version s) (st_pending_jobs s) (st_state_hash s) (st_last_updated s)
    (st_registered_hotkeys s).
Definition set_validators (x : gmap Hotkey ValidatorInfo) (s : ChainState) : ChainState :=
  mk_ChainState (st_block_height s) (st_epoch s) (st_config s) (st_sudo_key s) x (st_challenges s)
    (st_challenge_configs s) (st_mechanism_configs s) (st_challenge_weights s)
    (st_required_version s) (st_pending_jobs s) (st_state_hash s) (st_last_updated s)
    (st_registered_hotkeys s).
Definition set_challenges (x : gmap ChallengeId Challenge) (s : ChainState) : ChainState :=
  mk_ChainState (st_block_height s) (st_epoch s) (st_config s) (st_sudo_key s) (st_validators s) x
    (st_challenge_configs s) (st_mechanism_configs s) (st_challenge_weights s)
    (st_required_version s) (st_pending_jobs s) (st_state_hash s) (st_last_updated s)
    (st_registered_hotkeys s).
Definition set_pending_jobs (x : list Job) (s : ChainState) : ChainState :=
  mk_ChainState (st_block_height s) (st_epoch s) (st_config s) (st_sudo_key s) (st_validators s)
    (st_challenges s) (st_challenge_configs s) (st_mechanism_configs s) (st_challenge_weights s)
    (st_required_version s) x (st_state_hash s) (st_last_updated s) (st_registered_hotkeys s).
Definition set_state_hash (h : bytes) (now : DateTime) (s : ChainState) : ChainState :=
  mk_ChainState (st_block_height s) (st_epoch s) (st_config s) (st_sudo_key s) (st_validators s)
    (st_challenges s) (st_challenge_configs s) (st_mechanism_configs s) (st_challenge_weights s)
    (st_required_version s) (st_pending_jobs s) h now (st_registered_hotkeys s).

Record StateSnapshot : Type := mk_StateSnapshot {
  ss_block_height : Z;
  ss_state_hash : bytes;
  ss_validator_count : nat;
  ss_challenge_count : nat;
  ss_pending_jobs : nat;
  ss_timestamp : DateTime
}.

Section state.
Context `{External}.

Definition zero_hash : bytes := replicate 32 0.

(** The input of the state hash. *)
Definition hash_input (s : ChainState) : serde :=
  SStruct [SU64 (st_block_height s); SArray32 (hk_bytes (st_sudo_key s));
           SU64 (Z.of_nat (size (st_validators s))); SU64 (Z.of_nat (size (st_challenges s)));
           SU64 (Z.of_nat (length (st_pending_jobs s)))].

Definition computed_hash (s : ChainState) : bytes :=
  match hash_data (hash_input s) with Ok h => h | Err _ => zero_hash end.

Definition update_hash (now : DateTime) (s : ChainState) : ChainState :=
  set_state_hash (computed_hash s) now s.

Definition ChainState_default (now : DateTime) : ChainState :=
  mk_ChainState 0 0 NetworkConfig_default (mk_Hotkey (replicate 32 0)) ∅ ∅ ∅ ∅ ∅ None []
    zero_hash now ∅.

Definition ChainState_new (now : DateTime) (sudo_key : Hotkey) (config : NetworkConfig) :
    ChainState :=
  update_hash now (mk_ChainState 0 0 config sudo_key ∅ ∅ ∅ ∅ ∅ None [] zero_hash now ∅).

Definition new_production (now : DateTime) (config : NetworkConfig) : ChainState :=
  ChainState_new now production_sudo_key config.

Definition production_default (now : DateTime) : ChainState :=
  new_production now NetworkConfig_production.

Definition is_sudo (s : ChainState) (hotkey : Hotkey) : bool :=
  bool_decide (st_sudo_key s = hotkey).

Definition StateM := SE ChainState MiniChainError.

Definition add_validator (now : DateTime) (info : ValidatorInfo) : StateM unit :=
  s ← get_state;
  _ ← require (size (st_validators s) <? nc_max_validators (st_config s))%nat
        (Consensus "Max validators reached");
  _ ← require (stake_rao (nc_min_stake (st_config s)) <=? stake_rao (vi_stake info))
        (Consensus "Insufficient stake");
  _ ← modify (set_validators (<[vi_hotkey info := info]> (st_validators s)));
  modify (update_hash now).

Definition remove_validator (now : DateTime) (hotkey : Hotkey) (s : ChainState) :
    option ValidatorInfo * ChainState :=
  match st_validators s !! hotkey with
  | Some v => (Some v, update_hash now (set_validators (delete hotkey (st_validators s)) s))
  | None => (None, set_validators (delete hotkey (st_validators s)) s)
  end.

Definition get_validator (s : ChainState) (hotkey : Hotkey) : option ValidatorInfo :=
  st_validators s !! hotkey.

Definition add_challenge (now : DateTime) (c : Challenge) (s : ChainState) : ChainState :=
  update_hash now (set_challenges (<[ch_id c := c]> (st_challenges s)) s).

Definition remove_challenge (now : DateTime) (id : ChallengeId) (s : ChainState) :
    option Challenge * ChainState :=
  match st_challenges s !! id with
  | Some c => (Some c, update_hash now (set_challenges (delete id (st_challenges s)) s))
  | None => (None, set_challenges (delete id (st_challenges s)) s)
  end.

Definition get_challenge (s : ChainState) (id : ChallengeId) : option Challenge :=
  st_challenges s !! id.

Definition add_job (now : DateTime) (j : Job) (s : ChainState) : ChainState :=
  update_hash now (set_pending_jobs (st_pending_jobs s ++ [j]) s).

(** [position] of the first job without a validator. *)
Definition unassigned (j : Job) : Prop := job_assigned_validator j = None.
#[global] Instance unassigned_dec j : Decision (unassigned j) := decide (_ = None).

Definition claim (validator : Hotkey) (j : Job) : Job :=
  mk_Job (job_id j) (job_challenge_id j) (job_agent_hash j) JobRunning (job_created_at j)
    (Some validator) (job_result j).

Definition claim_job (now : DateTime) (validator : Hotkey) (s : ChainState) :
    option Job * ChainState :=
  match list_find unassigned (st_pending_jobs s) with
  | Some (pos, job) =>
      (Some (claim validator job),
       update_hash now (set_pending_jobs (delete pos (st_pending_jobs s)) s))
  | None => (None, s)
  end.

Definition increment_block (now : DateTime) (s : ChainState) : ChainState :=
  update_hash now (set_block_height (u64_add (st_block_height s) 1) s).

Definition snapshot (s : ChainState) : StateSnapshot :=
  mk_StateSnapshot (st_block_height s) (st_state_hash s) (size (st_validators s))
    (size (st_challenges s)) (length (st_pending_jobs s)) (st_last_updated s).

(** ** Queries over the validators *)

Context {HO : HashOrder Hotkey}.

Definition active_validators (s : ChainState) : list ValidatorInfo :=
  filter (fun v => vi_is_active v = true) (hm_values (st_validators s)).

Definition total_stake (s : ChainState) : Stake :=
  mk_Stake (u64_sum (stake_rao ∘ vi_stake <$> active_validators s)).

Definition consensus_threshold (s : ChainState) : Z :=
  f64_as_u64 (f64_ceil (f64_mul (f64_of_Z (Z.of_nat (length (active_validators s))))
                                (nc_consensus_threshold (st_config s)))).
End state.
