(* ===== verification/CoreStateProps.v ===== *)
(** * Theorems about the core chain state

    The state as a transition system: its invariant, the order in which jobs
    are claimed, the consensus threshold and the acceptance of container
    configurations. *)

From Stdlib Require Import SpecFloat.
From S2P Require Import Prelude Float64 Crypto RustStrings CoreTypes CoreState.

Section core_state.
Context `{External}.
Implicit Types s : ChainState.

(** ** Reachable states *)

Inductive core_step : ChainState -> ChainState -> Prop :=
| CAddValidator now info s : core_step s (add_validator now info s).2
| CRemoveValidator now h s : core_step s (remove_validator now h s).2
| CAddChallenge now c s : core_step s (add_challenge now c s)
| CRemoveChallenge now id s : core_step s (remove_challenge now id s).2
| CAddJob now j s : core_step s (add_job now j s)
| CClaimJob now h s : core_step s (claim_job now h s).2
| CIncrementBlock now s : core_step s (increment_block now s).

Definition core_reachable (sudo_key : Hotkey) (config : NetworkConfig) s : Prop :=
  exists now, rtc core_step (ChainState_new now sudo_key config) s.

Definition core_hash_ok s : Prop := st_state_hash s = computed_hash s.

Record core_inv (config : NetworkConfig) s : Prop := {
  ci_config : st_config s = config;
  ci_hash : core_hash_ok s;
  ci_size : (size (st_validators s) <= nc_max_validators config)%nat;
  ci_validators : forall h v, st_validators s !! h = Some v ->
    vi_hotkey v = h /\ stake_rao (nc_min_stake config) <= stake_rao (vi_stake v);
  ci_challenges : forall id c, st_challenges s !! id = Some c -> ch_id c = id
}.

Lemma core_update_hash_ok now s : core_hash_ok (update_hash now s).
Proof. done. Qed.

(** A hash update keeps the other fields. *)
Lemma update_hash_inv config now s :
  st_config s = config ->
  (size (st_validators s) <= nc_max_validators config)%nat ->
  (forall h v, st_validators s !! h = Some v ->
    vi_hotkey v = h /\ stake_rao (nc_min_stake config) <= stake_rao (vi_stake v)) ->
  (forall id c, st_challenges s !! id = Some c -> ch_id c = id) ->
  core_inv config (update_hash now s).
Proof. intros. by split. Qed.

Lemma add_validator_inv config now info s :
  core_inv config s -> core_inv config (add_validator now info s).2.
Proof.
  intros [Hc Hh Hs Hv Hch]. unfold add_validator, mbind, SE_bind, require. simpl.
  destruct (Nat.ltb_spec (size (st_validators s)) (nc_max_validators (st_config s))); [|by split].
  destruct (Z.leb_spec (stake_rao (nc_min_stake (st_config s))) (stake_rao (vi_stake info)));
    [|by split].
  apply update_hash_inv; simpl; [done| |intros h v|done].
  - subst config. etransitivity; [apply map_size_insert_le|lia].
  - rewrite lookup_insert_Some. intros [[<- <-]|[_ Hl]]; [split; [done|by subst config]|auto].
Qed.

Lemma core_step_inv config s s' : core_inv config s -> core_step s s' -> core_inv config s'.
Proof.
  intros Hinv Hstep. pose proof Hinv as [Hc Hh Hs Hv Hch]. destruct Hstep; simpl.
  - by apply add_validator_inv.
  - unfold remove_validator. destruct (st_validators s !! h) eqn:Hl.
    + apply update_hash_inv; simpl; [done| |intros h' v' [_ ?]%lookup_delete_Some; auto|done].
      etransitivity; [apply map_size_delete_le|done].
    + simpl. rewrite delete_id by done. by split.
  - apply update_hash_inv; simpl; [done..|]. intros id c'.
    rewrite lookup_insert_Some. intros [[<- <-]|[_ Hl]]; auto.
  - unfold remove_challenge. destruct (st_challenges s !! id) eqn:Hl.
    + apply update_hash_inv; simpl; [done..|]. intros id' c' [_ ?]%lookup_delete_Some. auto.
    + simpl. rewrite delete_id by done. by split.
  - by apply update_hash_inv.
  - unfold claim_job. destruct (list_find _ _) as [[pos j]|]; [by apply update_hash_inv|done].
  - by apply update_hash_inv.
Qed.

Lemma core_reachable_inv sudo_key config s :
  core_reachable sudo_key config s -> core_inv config s.
Proof.
  intros [now Hs].
  assert (Hinit : core_inv config (ChainState_new now sudo_key config)).
  { split; simpl; try done. rewrite map_size_empty. lia. }
  induction Hs as [|? ? ? Hstep _ IH]; [done|]. apply IH. by eapply core_step_inv.
Qed.

(** ** Jobs *)

(** The jobs that a sequence of claims hands out. *)
Fixpoint claim_jobs (now : DateTime) (claimants : list Hotkey) s : list (option Job) * ChainState :=
  match claimants with
  | [] => ([], s)
  | h :: hs =>
      let '(j, s1) := claim_job now h s in
      let '(js, s2) := claim_jobs now hs s1 in
      (j :: js, s2)
  end.

Lemma claim_job_split now h s pre j post :
  st_pending_jobs s = pre ++ j :: post -> Forall (fun j => ~ unassigned j) pre -> unassigned j ->
  exists s', claim_job now h s = (Some (claim h j), s') /\ st_pending_jobs s' = pre ++ post.
Proof.
  intros Hp Hpre Hj. unfold claim_job.
  assert (Hf : list_find unassigned (st_pending_jobs s) = Some (length pre, j)).
  { rewrite Hp. apply list_find_Some. split; [by apply list_lookup_middle|]. split; [done|].
    intros i y Hy Hlt. rewrite lookup_app_l in Hy by done.
    rewrite list.Forall_lookup in Hpre. eauto. }
  rewrite Hf. eexists. split; [done|]. simpl. rewrite Hp. by rewrite delete_middle.
Qed.

Lemma claim_job_none now h s :
  Forall (fun j => ~ unassigned j) (st_pending_jobs s) -> claim_job now h s = (None, s).
Proof.
  intros Hall. unfold claim_job. rewrite (proj2 (list_find_None _ _)); [done|].
  eapply list.Forall_impl; [exact Hall|]. done.
Qed.

(** Jobs are handed out first in, first out and each at most once: whatever
    the pending list, the k-th claim gets the k-th job that had no validator,
    marked as running for the claimant, and a claim finds nothing exactly when
    those have run out.  Jobs that were assigned stay where they are. *)
Theorem claim_jobs_fifo now claimants s :
  let free := filter unassigned (st_pending_jobs s) in
  let '(js, s') := claim_jobs now claimants s in
  js = zip_with (fun h k => claim h <$> free !! k) claimants (seq 0 (length claimants)) /\
  filter unassigned (st_pending_jobs s') = drop (length claimants) free /\
  filter (fun j => ~ unassigned j) (st_pending_jobs s') =
    filter (fun j => ~ unassigned j) (st_pending_jobs s).
Proof.
  revert s. induction claimants as [|h hs IH]; intros s; cbn [claim_jobs].
  { by rewrite drop_0. }
  destruct (filter unassigned (st_pending_jobs s)) as [|j free] eqn:Hfree.
  - apply filter_nil_none in Hfree as Hall.
    rewrite claim_job_none by done. specialize (IH s). rewrite Hfree in IH.
    destruct (claim_jobs now hs s) as [js s']. destruct IH as (-> & Hd & Hk).
    split; [|by rewrite drop_nil in *]. cbn. f_equal.
    rewrite <- (fmap_S_seq 0), zip_with_fmap_r. done.
  - destruct (filter_cons_split _ _ _ _ Hfree) as (pre & post & Hp & Hpre & Hj & Hpost).
    destruct (claim_job_split now h s pre j post Hp Hpre Hj) as (s1 & -> & Hs1).
    assert (Hfree1 : filter unassigned (st_pending_jobs s1) = free).
    { rewrite Hs1, filter_app, (filter_none _ pre) by done. done. }
    specialize (IH s1). rewrite Hfree1 in IH.
    destruct (claim_jobs now hs s1) as [js s']. destruct IH as (-> & Hd & Hk).
    split; [|split; [done|]].
    + cbn. f_equal. rewrite <- (fmap_S_seq 0), zip_with_fmap_r. done.
    + rewrite Hk, Hs1, Hp, !filter_app, (filter_cons _ j), decide_False by (by intros Hn). done.
Qed.

(** A job as it is handed out to a validator. *)
Definition running_for (h : Hotkey) (j : Job) : Job :=
  mk_Job (job_id j) (job_challenge_id j) (job_agent_hash j) JobRunning (job_created_at j) (Some h)
    (job_result j).

(** Runs of the methods, with the jobs that were added and those that claims
    handed out, in order. *)
Inductive core_run (sudo_key : Hotkey) (config : NetworkConfig) :
    ChainState -> list Job -> list (Hotkey * Job) -> Prop :=
| RunNew now : core_run sudo_key config (ChainState_new now sudo_key config) [] []
| RunAddValidator now info s a c :
    core_run sudo_key config s a c -> core_run sudo_key config (add_validator now info s).2 a c
| RunRemoveValidator now h s a c :
    core_run sudo_key config s a c -> core_run sudo_key config (remove_validator now h s).2 a c
| RunAddChallenge now ch s a c :
    core_run sudo_key config s a c -> core_run sudo_key config (add_challenge now ch s) a c
| RunRemoveChallenge now id s a c :
    core_run sudo_key config s a c -> core_run sudo_key config (remove_challenge now id s).2 a c
| RunAddJob now j s a c :
    core_run sudo_key config s a c -> core_run sudo_key config (add_job now j s) (a ++ [j]) c
| RunClaimJob now h s a c :
    core_run sudo_key config s a c ->
    core_run sudo_key config (claim_job now h s).2 a
      (c ++ (pair h <$> option_list (claim_job now h s).1))
| RunIncrementBlock now s a c :
    core_run sudo_key config s a c -> core_run sudo_key config (increment_block now s) a c.

Lemma core_run_reachable sudo_key config s a c :
  core_run sudo_key config s a c -> core_reachable sudo_key config s.
Proof.
  induction 1; [exists now; constructor|..];
    (destruct IHcore_run as [now0 Hs]; exists now0; eapply rtc_r; [exact Hs|constructor]).
Qed.

Lemma core_reachable_run sudo_key config s :
  core_reachable sudo_key config s -> exists a c, core_run sudo_key config s a c.
Proof.
  intros [now Hs]. revert s Hs.
  apply (rtc_ind_r (fun s => exists a c, core_run sudo_key config s a c)).
  - exists [], []. constructor.
  - intros s s' _ Hstep (a & c & Hrun). destruct Hstep; eexists _, _; by constructor.
Qed.

(** What the pending jobs are, given the jobs added and handed out. *)
Definition jobs_accounted (added : list Job) (handed : list (Hotkey * Job)) s : Prop :=
  exists given : list (Hotkey * Job),
    handed = (fun '(h, j) => (h, running_for h j)) <$> given /\
    filter unassigned added = given.*2 ++ filter unassigned (st_pending_jobs s) /\
    filter (fun j => ~ unassigned j) added =
      filter (fun j => ~ unassigned j) (st_pending_jobs s).

Lemma jobs_accounted_keep a c s s' :
  st_pending_jobs s' = st_pending_jobs s -> jobs_accounted a c s -> jobs_accounted a c s'.
Proof. unfold jobs_accounted. by intros ->. Qed.

Lemma claim_job_head now h s :
  (claim_job now h s).1 = running_for h <$> head (filter unassigned (st_pending_jobs s)).
Proof.
  destruct (filter unassigned (st_pending_jobs s)) as [|j free] eqn:Hfree.
  - apply filter_nil_none in Hfree. by rewrite claim_job_none.
  - destruct (filter_cons_split _ _ _ _ Hfree) as (pre & post & Hp & Hpre & Hj & _).
    by destruct (claim_job_split now h s pre j post Hp Hpre Hj) as (s1 & -> & _).
Qed.

Lemma claim_job_accounted now h s a c :
  jobs_accounted a c s ->
  jobs_accounted a (c ++ (pair h <$> option_list (claim_job now h s).1)) (claim_job now h s).2.
Proof.
  intros (given & -> & Hfree & Hass). rewrite claim_job_head.
  destruct (filter unassigned (st_pending_jobs s)) as [|j free] eqn:Hf.
  - apply filter_nil_none in Hf as Hall. rewrite claim_job_none by done. exists given.
    cbn [head fmap option_fmap option_list list_fmap snd]. by rewrite app_nil_r, Hf.
  - destruct (filter_cons_split _ _ _ _ Hf) as (pre & post & Hp & Hpre & Hj & Hpost).
    destruct (claim_job_split now h s pre j post Hp Hpre Hj) as (s1 & -> & Hs1).
    exists (given ++ [(h, j)]). cbn [snd]. split; [by rewrite fmap_app|]. split.
    + rewrite Hfree, fmap_app, Hs1, filter_app, (filter_none _ pre) by done.
      cbn [fmap list_fmap snd]. by rewrite Hpost, <- (assoc_L (++)).
    + rewrite Hass, Hs1, Hp, !filter_app, (filter_cons _ j), decide_False by (by intros Hn). done.
Qed.

Lemma core_run_jobs sudo_key config s a c :
  core_run sudo_key config s a c -> jobs_accounted a c s.
Proof.
  induction 1 as [now|now info s a c _ IH|now h s a c _ IH|now ch s a c _ IH|now id s a c _ IH
    |now j s a c _ IH|now h s a c _ IH|now s a c _ IH].
  - by exists [].
  - eapply jobs_accounted_keep; [|exact IH]. unfold add_validator, mbind, SE_bind, require. simpl.
    destruct (_ <? _)%nat; [|done]. by destruct (_ <=? _).
  - eapply jobs_accounted_keep; [|exact IH]. unfold remove_validator. by case_match.
  - eapply jobs_accounted_keep; [|exact IH]. done.
  - eapply jobs_accounted_keep; [|exact IH]. unfold remove_challenge. by case_match.
  - destruct IH as (given & -> & Hfree & Hass). exists given. split; [done|].
    change (st_pending_jobs (add_job now j s)) with (st_pending_jobs s ++ [j]).
    rewrite !filter_app, Hfree, Hass. split; [by rewrite <- (assoc_L (++))|done].
  - by apply claim_job_accounted.
  - eapply jobs_accounted_keep; [|exact IH]. done.
Qed.

(** C28. In every state reached by the methods of the core [ChainState] the
    stored hash is the hash of the counters it covers, there are at most
    [max_validators] validators, each is filed under its own hotkey with at
    least the minimum stake, and challenges are filed under their own id.  The
    jobs handed out so far are the first added of those without a validator, in
    the order they were added and each once, marked as running for who claimed
    them; the others are pending, and the next claim gets the first of them that
    has no validator, or nothing when there is none.  (Kicking a validator writes
    the state's fields past these methods.) *)
Theorem core_state_invariant sudo_key config s added handed :
  core_run sudo_key config s added handed ->
  st_state_hash s = computed_hash s /\
  (size (st_validators s) <= nc_max_validators config)%nat /\
  (forall h v, get_validator s h = Some v ->
     vi_hotkey v = h /\ stake_rao (nc_min_stake config) <= stake_rao (vi_stake v)) /\
  (forall id c, get_challenge s id = Some c -> ch_id c = id) /\
  jobs_accounted added handed s /\
  (forall now h, (claim_job now h s).1 =
     running_for h <$> head (filter unassigned (st_pending_jobs s))).
Proof.
  intros Hrun. pose proof (core_run_jobs _ _ _ _ _ Hrun) as Hjobs.
  apply core_run_reachable, core_reachable_inv in Hrun as [? ? ? ? ?].
  eauto 10 using claim_job_head.
Qed.

(** ** The consensus threshold *)

Context {HO : HashOrder Hotkey}.

Lemma length_active_validators s :
  (length (active_validators s) <= size (st_validators s))%nat.
Proof.
  unfold active_validators. rewrite length_filter. by rewrite length_hm_values.
Qed.

(** With the threshold of 0.50 of the default and of the production
    configuration, a reachable state with n active validators requires exactly
    half of them, rounded up: n / 2 votes for an even n, so that two disjoint
    halves can both reach the threshold. *)
Theorem threshold_is_half sudo_key config s :
  nc_consensus_threshold config = f64_lit 1 2 -> (nc_max_validators config <= 64)%nat ->
  core_reachable sudo_key config s ->
  let n := length (active_validators s) in
  consensus_threshold s = Z.of_nat (Nat.div2 (S n)) /\
  (Nat.Even n -> 2 * consensus_threshold s = Z.of_nat n).
Proof.
  intros Ht Hmax Hs%core_reachable_inv n.
  assert (Hn : (n <= 64)%nat).
  { unfold n. pose proof (length_active_validators s). pose proof (ci_size _ _ Hs). lia. }
  assert (Heq : consensus_threshold s = Z.of_nat (Nat.div2 (S n))).
  { unfold consensus_threshold. rewrite (ci_config _ _ Hs), Ht. apply half_rounded_up. lia. }
  split; [done|]. intros [k Hk]. rewrite Heq, Hk.
  replace (S (2 * k)) with (2 * k + 1)%nat by lia. rewrite Nat.div2_odd'. lia.
Qed.
End core_state.

(** ** Container configurations *)

(** In the range [lo, hi], or not a number. *)
Definition in_range_or_nan (lo hi x : f64) : Prop :=
  x = S754_nan \/ f64_leb lo x = true /\ f64_leb x hi = true.

Lemma f64_compare_swap x y : SFcompare y x = CompOpp <$> SFcompare x y.
Proof.
  destruct x as [sx|sx| |sx mx ex], y as [sy|sy| |sy my ey];
    repeat match goal with b : bool |- _ => destruct b end; try done; simpl;
    rewrite (Z.compare_antisym ex ey); destruct (ex ?= ey); simpl; try done;
    change (Pos.compare_cont Eq my mx) with (my ?= mx)%positive;
    change (Pos.compare_cont Eq mx my) with (mx ?= my)%positive;
    rewrite (Pos.compare_antisym mx my); by destruct (mx ?= my)%positive.
Qed.

Lemma f64_compare_nan x y : y <> S754_nan -> SFcompare x y = None -> x = S754_nan.
Proof.
  destruct x as [sx|sx| |sx mx ex], y as [sy|sy| |sy my ey];
    repeat match goal with b : bool |- _ => destruct b end; try done; simpl;
    by destruct (ex ?= ey).
Qed.

Lemma in_range_checks lo hi x :
  lo <> S754_nan -> hi <> S754_nan ->
  f64_ltb x lo || f64_ltb hi x = false <-> in_range_or_nan lo hi x.
Proof.
  intros Hlo Hhi. rewrite orb_false_iff. unfold in_range_or_nan, f64_ltb, f64_leb, SFltb, SFleb.
  rewrite (f64_compare_swap x lo), (f64_compare_swap x hi).
  destruct (SFcompare x lo) as [c|] eqn:Hc, (SFcompare x hi) as [d|] eqn:Hd; simpl.
  - split.
    + intros [? ?]. right. destruct c, d; done.
    + intros [->|[? ?]]; [done|]. by destruct c, d.
  - apply f64_compare_nan in Hd as ->; [|done]. done.
  - apply f64_compare_nan in Hc as ->; [|done]. done.
  - apply f64_compare_nan in Hc as ->; [|done]. split; [by left|done].
Qed.

(** [validate] accepts exactly the container configurations with a name and
    an image that are not blank, an image of the whitelisted registry in any
    case (any image in development mode), a timeout of a minute to a day,
    512 MB to 128 GB of memory, and an emission weight in [0, 1] and CPU cores
    in [0.5, 64] - or not a number, which passes both range checks. *)
Theorem container_config_accepted env c :
  ContainerConfig_validate env c = Ok tt <->
  all_chars is_whitespace (ccc_name c) = false /\
  all_chars is_whitespace (ccc_docker_image c) = false /\
  (is_development_mode env = true \/
   exists rest, to_lowercase (ccc_docker_image c) = ("ghcr.io/platformnetwork/" +:+ rest)%string) /\
  in_range_or_nan f64_zero f64_one (ccc_emission_weight c) /\
  60 <= ccc_timeout_secs c <= 86400 /\
  in_range_or_nan (f64_lit 1 2) (f64_of_Z 64) (ccc_cpu_cores c) /\
  512 <= ccc_memory_mb c <= 131072.
Proof.
  assert (Hallowed : is_docker_image_allowed env c = true <-> is_development_mode env = true \/
      exists rest, to_lowercase (ccc_docker_image c) =
        ("ghcr.io/platformnetwork/" +:+ rest)%string).
  { rewrite <- (starts_with_spec "ghcr.io/platformnetwork/").
    unfold is_docker_image_allowed. destruct (is_development_mode env); [tauto|].
    change (existsb _ _) with
      (starts_with "ghcr.io/platformnetwork/" (to_lowercase (ccc_docker_image c)) ||
       (starts_with "ghcr.io/platformnetwork/" (to_lowercase (ccc_docker_image c)) || false)).
    rewrite orb_false_r, orb_diag. intuition congruence. }
  rewrite <- Hallowed, <- !in_range_checks by by_compute. unfold ContainerConfig_validate.
  destruct (is_empty (trim (ccc_name c))) eqn:Hn.
  { apply trim_empty in Hn. rewrite Hn. intuition congruence. }
  destruct (is_empty (trim (ccc_docker_image c))) eqn:Hi.
  { apply trim_empty in Hi. rewrite Hi. intuition congruence. }
  apply not_true_iff_false in Hn. rewrite trim_empty, not_true_iff_false in Hn.
  apply not_true_iff_false in Hi. rewrite trim_empty, not_true_iff_false in Hi.
  rewrite Hn, Hi. destruct (is_docker_image_allowed env c); simpl; [|intuition congruence].
  repeat (case_match; [intuition (congruence || lia)|]).
  rewrite orb_false_iff in *. intuition lia.
Qed.

Module CoreExamples.
Import Toy.

Definition owner : Hotkey := mk_Hotkey (toy_key 9).
Definition member (i : Z) : ValidatorInfo :=
  ValidatorInfo_new 0 (mk_Hotkey (toy_key i)) (mk_Stake 2000000000).

(** A network of [n] validators with one pending job. *)
Definition network (n : nat) : ChainState :=
  add_job 2 (Job_new 7 1 0 "agent")
    (foldr (fun i s => (add_validator 1 (member (Z.of_nat i)) s).2)
       (ChainState_new 0 owner NetworkConfig_default) (seq 1 n)).

Lemma network_reachable n : core_reachable owner NetworkConfig_default (network n).
Proof.
  exists 0. eapply rtc_r; [|constructor].
  induction (seq 1 n) as [|i l IH]; simpl; [constructor|]. eapply rtc_r; [exact IH|constructor].
Qed.

(** The same network once its job was claimed. *)
Definition busy : ChainState := (claim_job 3 owner (network 3)).2.

Lemma busy_run :
  core_run owner NetworkConfig_default busy [Job_new 7 1 0 "agent"]
    [(owner, running_for owner (Job_new 7 1 0 "agent"))].
Proof.
  refine (RunClaimJob owner _ 3 owner (network 3) [Job_new 7 1 0 "agent"] [] _).
  refine (RunAddJob owner _ 2 (Job_new 7 1 0 "agent") _ [] [] _).
  induction (seq 1 3) as [|i l IH]; simpl; constructor. exact IH.
Qed.

Lemma core_state_invariant_witness :
  st_state_hash busy = computed_hash busy /\ (size (st_validators busy) <= 64)%nat /\
  (claim_job 4 owner busy).1 = None.
Proof.
  destruct (core_state_invariant owner NetworkConfig_default busy _ _ busy_run)
    as (Hh & Hs & _ & _ & _ & Hc). split; [exact Hh|]. split; [exact Hs|].
  rewrite Hc. by_compute.
Defined.

(** Four validators, of which two are enough. *)
Lemma threshold_is_half_witness :
  length (active_validators (network 4)) = 4%nat /\ consensus_threshold (network 4) = 2.
Proof.
  assert (Hn : length (active_validators (network 4)) = 4%nat) by by_compute.
  split; [exact Hn|].
  pose proof (threshold_is_half owner NetworkConfig_default (network 4) eq_refl
    (le_n 64) (network_reachable 4)) as [Ht _].
  rewrite Hn in Ht. exact Ht.
Defined.
End CoreExamples.
