(* ===== verification/CoreMessages.v ===== *)
(** * Messages of the core crate

    Models [crates/core/src/message.rs]: the handshake, the owner's sudo
    actions, proposals and votes, jobs, state synchronisation, weights, and
    the signed envelope.  The bincode form of a message is the operation of
    the class [MessageCodec]. *)

From S2P Require Import Prelude Float64 Crypto RustStrings CoreTypes CoreState.

(** ** Payloads *)

Record TaskProgressMessage : Type := mk_TaskProgressMessage {
  tp_challenge_id : string;
  tp_agent_hash : string;
  tp_evaluation_id : string;
  tp_task_id : string;
  tp_task_index : Z;
  tp_total_tasks : Z;
  tp_passed : bool;
  tp_score : f64;
  tp_execution_time_ms : Z;
  tp_cost_usd : f64;
  tp_error : option string;
  tp_validator_hotkey : string;
  tp_timestamp : Z
}.

Inductive ChallengeMessageType : Type :=
| EncryptedSubmission
| SubmissionAck
| KeyReveal
| CmtEvaluationResult
| RequestEvaluations
| EvaluationsResponse
| WeightResult
| StorageWrite
| StorageRequest
| StorageResponse
| StorageSync
| Custom (name : string).

Record ChallengeNetworkMessage : Type := mk_ChallengeNetworkMessage {
  cnm_challenge_id : string;
  cnm_payload : bytes;
  cnm_message_type : ChallengeMessageType
}.

Record AgentSubmissionMessage : Type := mk_AgentSubmissionMessage {
  as_challenge_id : string;
  as_agent_hash : string;
  as_miner_hotkey : string;
  as_source_code : option string;
  as_obfuscated_hash : option string;
  as_submitted_at : DateTime;
  as_submitting_validator : Hotkey;
  as_miner_signature : bytes;
  as_source_code_len : nat
}.

Definition AgentSubmissionMessage_new (now : DateTime)
    (challenge_id agent_hash miner_hotkey : string) (source_code : option string)
    (submitting_validator : Hotkey) : AgentSubmissionMessage :=
  mk_AgentSubmissionMessage challenge_id agent_hash miner_hotkey source_code None now
    submitting_validator []
    (match source_code with Some s => String.length s | None => 0 end)%nat.

Record HandshakeMessage : Type := mk_HandshakeMessage {
  hs_hotkey : Hotkey;
  hs_block_height : Z;
  hs_state_hash : bytes;
  hs_version : string;
  hs_version_major : Z;
  hs_version_minor : Z;
  hs_version_patch : Z;
  hs_timestamp : DateTime
}.

Definition HandshakeMessage_new (now : DateTime) (hotkey : Hotkey) (block_height : Z)
    (state_hash : bytes) : HandshakeMessage :=
  mk_HandshakeMessage hotkey block_height state_hash PROTOCOL_VERSION PROTOCOL_VERSION_MAJOR
    PROTOCOL_VERSION_MINOR PROTOCOL_VERSION_PATCH now.

Definition is_compatible (h : HandshakeMessage) : bool :=
  is_version_compatible (hs_version_major h) (hs_version_minor h) (hs_version_patch h).

Inductive SudoAction : Type :=
| UpdateConfig (config : NetworkConfig)
| AddChallenge (config : ChallengeContainerConfig)
| UpdateChallenge (config : ChallengeContainerConfig)
| RemoveChallenge (id : ChallengeId)
| RefreshChallenges (challenge_id : option ChallengeId)
| SetChallengeWeight (challenge_id : ChallengeId) (mechanism_id : Z) (weight_ratio : f64)
| SetMechanismBurnRate (mechanism_id : Z) (burn_rate : f64)
| SetMechanismConfig (mechanism_id : Z) (config : MechanismWeightConfig)
| SetRequiredVersion (min_version recommended_version docker_image : string) (mandatory : bool)
    (deadline_block : option Z) (release_notes : option string)
| AddValidator (info : ValidatorInfo)
| RemoveValidator (hotkey : Hotkey)
| EmergencyPause (reason : string)
| Resume
| ForceStateUpdate (state : ChainState).

Inductive ProposalAction : Type :=
| Sudo (action : SudoAction)
| NewBlock (state_hash : bytes)
| JobCompletion (job_id : Uuid) (result : Score) (validator : Hotkey).

Record Proposal : Type := mk_Proposal {
  pr_id : Uuid;
  pr_block_height : Z;
  pr_action : ProposalAction;
  pr_proposer : Hotkey;
  pr_timestamp : DateTime
}.

Definition Proposal_new (id : Uuid) (now : DateTime) (action : ProposalAction)
    (proposer : Hotkey) (block_height : Z) : Proposal :=
  mk_Proposal id block_height action proposer now.

Record Vote : Type := mk_Vote {
  vt_proposal_id : Uuid;
  vt_voter : Hotkey;
  vt_approve : bool;
  vt_timestamp : DateTime
}.

Definition Vote_approve (now : DateTime) (proposal_id : Uuid) (voter : Hotkey) : Vote :=
  mk_Vote proposal_id voter true now.
Definition Vote_reject (now : DateTime) (proposal_id : Uuid) (voter : Hotkey) : Vote :=
  mk_Vote proposal_id voter false now.

Record JobAssignment : Type := mk_JobAssignment {
  ja_job : Job;
  ja_assigned_to : Hotkey;
  ja_deadline : DateTime
}.

Record EvaluationResult : Type := mk_EvaluationResult {
  ev_job_id : Uuid;
  ev_challenge_id : ChallengeId;
  ev_agent_hash : string;
  ev_score : Score;
  ev_execution_time_ms : Z;
  ev_validator : Hotkey;
  ev_timestamp : DateTime
}.

Inductive SyncDataType : Type :=
| SyncValidators
| SyncChallenges
| SyncPendingJobs
| SyncConfig.

Inductive StateSyncMessage : Type :=
| RequestSnapshot
| FullState (state : ChainState)
| SnapshotMessage (snapshot : StateSnapshot)
| RequestData (data_type : SyncDataType)
| DataResponse (data_type : SyncDataType) (data : bytes).

Record HeartbeatMessage : Type := mk_HeartbeatMessage {
  hb_hotkey : Hotkey;
  hb_block_height : Z;
  hb_state_hash : bytes;
  hb_timestamp : DateTime
}.

Record WeightCommitmentMessage : Type := mk_WeightCommitmentMessage {
  wcm_validator : Hotkey;
  wcm_challenge_id : ChallengeId;
  wcm_epoch : Z;
  wcm_commitment_hash : bytes;
  wcm_timestamp : DateTime
}.

Record WeightEntry : Type := mk_WeightEntry { we_agent_hash : string; we_weight : f64 }.

Record WeightRevealMessage : Type := mk_WeightRevealMessage {
  wrm_validator : Hotkey;
  wrm_challenge_id : ChallengeId;
  wrm_epoch : Z;
  wrm_weights : list WeightEntry;
  wrm_secret : bytes;
  wrm_timestamp : DateTime
}.

Record EpochTransitionMessage : Type := mk_EpochTransitionMessage {
  etm_epoch : Z;
  etm_phase : string;
  etm_block_height : Z;
  etm_timestamp : DateTime
}.

Inductive NetworkMessage : Type :=
| NmHandshake (m : HandshakeMessage)
| NmSudoAction (a : SudoAction)
| NmProposal (p : Proposal)
| NmVote (v : Vote)
| NmJobAssignment (j : JobAssignment)
| NmEvaluationResult (r : EvaluationResult)
| NmStateSync (m : StateSyncMessage)
| NmHeartbeat (m : HeartbeatMessage)
| NmWeightCommitment (m : WeightCommitmentMessage)
| NmWeightReveal (m : WeightRevealMessage)
| NmEpochTransition (m : EpochTransitionMessage)
| NmAgentSubmission (m : AgentSubmissionMessage)
| NmChallengeMessage (m : ChallengeNetworkMessage)
| NmTaskProgress (m : TaskProgressMessage)
| NmVersionMismatch (our_version required_min_version : string).

(** ** The signed envelope *)

Class MessageCodec : Type := {
  encode_message : NetworkMessage -> result string bytes
}.

Record SignedNetworkMessage : Type := mk_SignedNetworkMessage {
  snm_message : NetworkMessage;
  snm_signature : SignedMessage
}.

Section envelope.
Context `{External} `{MessageCodec}.

(** [Keypair::sign_data] of a message. *)
Definition sign_message (k : Keypair) (m : NetworkMessage) : result MiniChainError SignedMessage :=
  b ← result_map_err Serialization (encode_message m);
  mret (Keypair_sign k b).

Definition SignedNetworkMessage_new (m : NetworkMessage) (k : Keypair) :
    result MiniChainError SignedNetworkMessage :=
  signed ← sign_message k m;
  mret (mk_SignedNetworkMessage m signed).

Definition SignedNetworkMessage_verify (m : SignedNetworkMessage) : result MiniChainError bool :=
  SignedMessage_verify (snm_signature m).

Definition signer (m : SignedNetworkMessage) : Hotkey := sm_signer (snm_signature m).

(** The envelope of a message that a node signs verifies under its own
    hotkey, but verification does not tie the signature to the message it is
    shipped with: the same signature verifies beside any other message, which
    then counts as signed by the node, a sudo action included. *)
Theorem envelope_signature_unbound `{!ExternalLaws} k m env :
  SignedNetworkMessage_new m k = Ok env ->
  SignedNetworkMessage_verify env = Ok true /\ signer env = Keypair_hotkey k /\
  forall m', let env' := mk_SignedNetworkMessage m' (snm_signature env) in
    SignedNetworkMessage_verify env' = Ok true /\ signer env' = Keypair_hotkey k.
Proof.
  unfold SignedNetworkMessage_new, sign_message, mbind, result_bind.
  destruct (encode_message m) as [b|]; [|done]. simpl. intros [= <-].
  assert (Hv := sign_bytes_valid k b). unfold sig_valid in Hv.
  unfold SignedNetworkMessage_verify, signer. simpl. eauto.
Qed.
End envelope.

(** A handshake is accepted when it comes from a release of our major version
    whose minor version is not too old; our own always is. *)
Lemma handshake_compatible now hotkey height hash m :
  is_compatible (HandshakeMessage_new now hotkey height hash) = true /\
  (is_compatible m = true <->
    hs_version_major m = PROTOCOL_VERSION_MAJOR /\
    MIN_COMPATIBLE_VERSION_MINOR <= hs_version_minor m).
Proof. split; [done|]. apply is_version_compatible_spec. Qed.

Module MessageExamples.
Import Toy.

#[local] Instance pause_codec : MessageCodec :=
  {| encode_message := fun m =>
       match m with NmSudoAction (EmergencyPause _) => Ok [1] | _ => Err "unsupported"%string end |}.

Definition owner : Keypair := mk_Keypair 1 None.
Definition pause : NetworkMessage := NmSudoAction (EmergencyPause "test").
Definition signed_pause : SignedNetworkMessage :=
  mk_SignedNetworkMessage pause (Keypair_sign owner [1]).

Lemma envelope_signature_unbound_witness :
  SignedNetworkMessage_new pause owner = Ok signed_pause /\
  SignedNetworkMessage_verify
    (mk_SignedNetworkMessage (NmSudoAction Resume) (snm_signature signed_pause)) = Ok true.
Proof.
  assert (Hnew : SignedNetworkMessage_new pause owner = Ok signed_pause) by reflexivity.
  split; [exact Hnew|].
  exact (proj1 (proj2 (proj2 (envelope_signature_unbound owner pause signed_pause Hnew))
                 (NmSudoAction Resume))).
Defined.
End MessageExamples.
