(* ===== verification/StateVersioning.v ===== *)
(** * State versioning and the schema guard

    Models [crates/core/src/state_versioning.rs] (versioned serialisation of
    the core state, migration of old formats, detection of the format) and
    [crates/core/src/schema_guard.rs] (schema hashes and their registry).
    bincode is the class [StateCodec] with its round trip as law;
    [BincodeLayout] states the parts of its documented format that decide how
    one kind of value reads as another. *)

From Stdlib Require Import Ascii.
From S2P Require Import Prelude Float64 Crypto RustStrings RustBytes CoreTypes CoreState.

Definition CURRENT_STATE_VERSION : Z := 3.
Definition MIN_SUPPORTED_VERSION : Z := 1.

Record VersionedState : Type := mk_VersionedState { vst_version : Z; vst_data : bytes }.

(** ** Old formats *)

Record ValidatorInfoLegacy : Type := mk_ValidatorInfoLegacy {
  vl_hotkey : Hotkey;
  vl_stake : Stake;
  vl_is_active : bool;
  vl_last_seen : DateTime;
  vl_peer_id : option string
}.

#[global] Instance ValidatorInfoLegacy_eq_dec : EqDecision ValidatorInfoLegacy.
Proof. solve_decision. Defined.

Definition ValidatorInfoLegacy_migrate (v : ValidatorInfoLegacy) : ValidatorInfo :=
  mk_ValidatorInfo (vl_hotkey v) (vl_stake v) (vl_is_active v) (vl_last_seen v) (vl_peer_id v)
    None.

Record ChainStateV1 : Type := mk_ChainStateV1 {
  v1_block_height : Z;
  v1_epoch : Z;
  v1_config : NetworkConfig;
  v1_sudo_key : Hotkey;
  v1_validators : gmap Hotkey ValidatorInfoLegacy;
  v1_challenges : gmap ChallengeId Challenge;
  v1_challenge_configs : gmap ChallengeId ChallengeContainerConfig;
  v1_mechanism_configs : gmap Z MechanismWeightConfig;
  v1_challenge_weights : gmap ChallengeId ChallengeWeightAllocation;
  v1_required_version : option RequiredVersion;
  v1_pending_jobs : list Job;
  v1_state_hash : bytes;
  v1_last_updated : DateTime
}.

Record ChainStateV2 : Type := mk_ChainStateV2 {
  v2_block_height : Z;
  v2_epoch : Z;
  v2_config : NetworkConfig;
  v2_sudo_key : Hotkey;
  v2_validators : gmap Hotkey ValidatorInfoLegacy;
  v2_challenges : gmap ChallengeId Challenge;
  v2_challenge_configs : gmap ChallengeId ChallengeContainerConfig;
  v2_mechanism_configs : gmap Z MechanismWeightConfig;
  v2_challenge_weights : gmap ChallengeId ChallengeWeightAllocation;
  v2_required_version : option RequiredVersion;
  v2_pending_jobs : list Job;
  v2_state_hash : bytes;
  v2_last_updated : DateTime;
  v2_registered_hotkeys : gset Hotkey
}.

Definition ChainStateV1_migrate (s : ChainStateV1) : ChainState :=
  mk_ChainState (v1_block_height s) (v1_epoch s) (v1_config s) (v1_sudo_key s)
    (ValidatorInfoLegacy_migrate <$> v1_validators s) (v1_challenges s)
    (v1_challenge_configs s) (v1_mechanism_configs s) (v1_challenge_weights s)
    (v1_required_version s) (v1_pending_jobs s) (v1_state_hash s) (v1_last_updated s) ∅.

Definition ChainStateV2_migrate (s : ChainStateV2) : ChainState :=
  mk_ChainState (v2_block_height s) (v2_epoch s) (v2_config s) (v2_sudo_key s)
    (ValidatorInfoLegacy_migrate <$> v2_validators s) (v2_challenges s)
    (v2_challenge_configs s) (v2_mechanism_configs s) (v2_challenge_weights s)
    (v2_required_version s) (v2_pending_jobs s) (v2_state_hash s) (v2_last_updated s)
    (v2_registered_hotkeys s).

(** ** bincode *)

Class StateCodec : Type := {
  encode_state : ChainState -> result string bytes;
  decode_state : bytes -> result string ChainState;
  encode_versioned : VersionedState -> result string bytes;
  decode_versioned : bytes -> result string VersionedState;
  decode_v1 : bytes -> result string ChainStateV1;
  decode_v2 : bytes -> result string ChainStateV2
}.

(** What was serialised reads back. *)
Class StateCodecLaws `{StateCodec} : Prop := {
  decode_encode_state : forall s b, encode_state s = Ok b -> decode_state b = Ok s;
  decode_encode_versioned : forall v b, encode_versioned v = Ok b -> decode_versioned b = Ok v
}.

(** The format of bincode 1 with its default options: integers of fixed width
    in little-endian order, a sequence as its length in 8 bytes and its
    elements, fields in declaration order, bytes after the value ignored. *)
Class BincodeLayout `{StateCodec} : Prop := {
  decode_versioned_layout : forall version data rest,
    0 <= version < 2 ^ 32 -> Z.of_nat (length data) < 2 ^ 64 ->
    decode_versioned (to_le_bytes 4 version ++ to_le_bytes 8 (Z.of_nat (length data)) ++ data ++ rest)
      = Ok (mk_VersionedState version data);
  encode_state_layout : forall s b, encode_state s = Ok b ->
    exists rest, b = to_le_bytes 8 (st_block_height s) ++ to_le_bytes 8 (st_epoch s) ++ rest
}.

(** ** Versioned serialisation *)

Section versioning.
Context `{StateCodec}.

Definition VersionedState_from_state (s : ChainState) : result MiniChainError VersionedState :=
  data ← result_map_err Serialization (encode_state s);
  mret (mk_VersionedState CURRENT_STATE_VERSION data).

Definition migrate_state (version : Z) (data : bytes) : result MiniChainError ChainState :=
  if version =? 1 then
    v1 ← result_map_err (fun e => Serialization ("V1 migration failed: " +:+ e)) (decode_v1 data);
    mret (ChainStateV1_migrate v1)
  else if version =? 2 then
    v2 ← result_map_err (fun e => Serialization ("V2 migration failed: " +:+ e)) (decode_v2 data);
    mret (ChainStateV2_migrate v2)
  else Err (Serialization ("Unknown state version: " +:+ Z_to_string version)).

Definition VersionedState_into_state (v : VersionedState) : result MiniChainError ChainState :=
  if vst_version v =? CURRENT_STATE_VERSION then
    result_map_err Serialization (decode_state (vst_data v))
  else if MIN_SUPPORTED_VERSION <=? vst_version v then migrate_state (vst_version v) (vst_data v)
  else Err (Serialization ("State version " +:+ Z_to_string (vst_version v) +:+
              " is too old (minimum supported: " +:+ Z_to_string MIN_SUPPORTED_VERSION +:+ ")")).

Definition deserialize_state_smart (data : bytes) : result MiniChainError ChainState :=
  match decode_versioned data with
  | Ok versioned => VersionedState_into_state versioned
  | Err _ =>
      match decode_state data with
      | Ok state => Ok state
      | Err _ =>
          match decode_v2 data with
          | Ok v2 => Ok (ChainStateV2_migrate v2)
          | Err _ =>
              match decode_v1 data with
              | Ok v1 => Ok (ChainStateV1_migrate v1)
              | Err _ =>
                  Err (Serialization "Failed to deserialize state: incompatible format")
              end
          end
      end
  end.

Definition serialize_state_versioned (s : ChainState) : result MiniChainError bytes :=
  versioned ← VersionedState_from_state s;
  result_map_err Serialization (encode_versioned versioned).

(** A state written with its version header is read back unchanged by the
    format detection. *)
Theorem versioned_roundtrip `{!StateCodecLaws} s b :
  serialize_state_versioned s = Ok b -> deserialize_state_smart b = Ok s.
Proof.
  unfold serialize_state_versioned, VersionedState_from_state, mbind, result_bind.
  destruct (encode_state s) as [data|] eqn:He; [|done]. simpl.
  destruct (encode_versioned _) as [b'|] eqn:Hv; [|done]. simpl. intros [= <-].
  unfold deserialize_state_smart. rewrite (decode_encode_versioned _ _ Hv).
  unfold VersionedState_into_state. simpl. by rewrite (decode_encode_state _ _ He).
Qed.

(** The fields a migrated state must keep as they are. *)
Definition state_fields (s : ChainState) :=
  ((st_block_height s, st_epoch s, st_config s, st_sudo_key s, st_challenges s),
   (st_challenge_configs s, st_mechanism_configs s, st_challenge_weights s),
   (st_required_version s, st_pending_jobs s, st_state_hash s, st_last_updated s)).
Definition v1_fields (s : ChainStateV1) :=
  ((v1_block_height s, v1_epoch s, v1_config s, v1_sudo_key s, v1_challenges s),
   (v1_challenge_configs s, v1_mechanism_configs s, v1_challenge_weights s),
   (v1_required_version s, v1_pending_jobs s, v1_state_hash s, v1_last_updated s)).
Definition v2_fields (s : ChainStateV2) :=
  ((v2_block_height s, v2_epoch s, v2_config s, v2_sudo_key s, v2_challenges s),
   (v2_challenge_configs s, v2_mechanism_configs s, v2_challenge_weights s),
   (v2_required_version s, v2_pending_jobs s, v2_state_hash s, v2_last_updated s)).

(** The fields a migrated validator must keep. *)
Definition same_validator (old : ValidatorInfoLegacy) (new : ValidatorInfo) : Prop :=
  vi_hotkey new = vl_hotkey old /\ vi_stake new = vl_stake old /\
  vi_is_active new = vl_is_active old /\ vi_last_seen new = vl_last_seen old /\
  vi_peer_id new = vl_peer_id old.

Definition migrated_validators (old : gmap Hotkey ValidatorInfoLegacy)
    (new : gmap Hotkey ValidatorInfo) : Prop :=
  forall h,
    match old !! h with
    | Some v => exists v', new !! h = Some v' /\ same_validator v v' /\ vi_x25519_pubkey v' = None
    | None => new !! h = None
    end.

Lemma migrate_validators (m : gmap Hotkey ValidatorInfoLegacy) :
  migrated_validators m (ValidatorInfoLegacy_migrate <$> m).
Proof.
  intros h. rewrite lookup_fmap. destruct (m !! h); simpl; [|done]. eexists. by repeat split.
Qed.

(** A file in an old format is migrated without loss: when the bytes are
    those of no newer format, loading a version 2 state keeps every field, the
    validators under their keys with no encryption key, and loading a version 1
    state keeps every field and starts with no registered hotkeys. *)
Theorem legacy_states_migrate data :
  (forall v, decode_versioned data <> Ok v) -> (forall s, decode_state data <> Ok s) ->
  (forall v2, decode_v2 data = Ok v2 ->
     exists s, deserialize_state_smart data = Ok s /\
       state_fields s = v2_fields v2 /\
       st_registered_hotkeys s = v2_registered_hotkeys v2 /\
       migrated_validators (v2_validators v2) (st_validators s)) /\
  (forall v1, (forall v2, decode_v2 data <> Ok v2) -> decode_v1 data = Ok v1 ->
     exists s, deserialize_state_smart data = Ok s /\
       state_fields s = v1_fields v1 /\
       st_registered_hotkeys s = ∅ /\
       migrated_validators (v1_validators v1) (st_validators s)).
Proof.
  intros Hv Hs. unfold deserialize_state_smart.
  destruct (decode_versioned data) as [v|]; [by destruct (Hv v)|].
  destruct (decode_state data) as [s|]; [by destruct (Hs s)|]. split.
  - intros v2 ->. eexists. repeat (split; [done|]). apply migrate_validators.
  - intros v1 Hn ->. destruct (decode_v2 data) as [v2|]; [by destruct (Hn v2)|].
    eexists. repeat (split; [done|]). apply migrate_validators.
Qed.

Lemma to_le_bytes_zero k : to_le_bytes k 0 = replicate k 0.
Proof. induction k as [|k IH]; simpl; [done|]. by f_equal. Qed.

Lemma to_le_bytes_app j k n :
  to_le_bytes (j + k) n = to_le_bytes j n ++ to_le_bytes k (n / 256 ^ Z.of_nat j).
Proof.
  revert n. induction j as [|j IH]; intros n; [by rewrite Z.div_1_r|].
  cbn [to_le_bytes Nat.add app]. f_equal. rewrite IH, Z.div_div by lia.
  do 3 f_equal. rewrite Nat2Z.inj_succ, Z.pow_succ_r by lia. done.
Qed.

(** A state of epoch 0 that was saved without a version header cannot be
    loaded: its first bytes read as a version header with an empty body, whose
    version is the block height, so that loading fails for every height below
    2^32 other than 1 to 3 instead of falling back to the unversioned format. *)
Theorem unversioned_epoch_zero_lost `{!BincodeLayout} s b :
  encode_state s = Ok b -> st_epoch s = 0 -> 0 <= st_block_height s < 2 ^ 32 ->
  ~ (1 <= st_block_height s <= 3) ->
  exists msg, deserialize_state_smart b = Err (Serialization msg).
Proof.
  intros Hb Hepoch Hh Hn. destruct (encode_state_layout s b Hb) as [rest ->].
  assert (Hsplit : to_le_bytes 8 (st_block_height s) ++ to_le_bytes 8 (st_epoch s) ++ rest =
    to_le_bytes 4 (st_block_height s) ++ to_le_bytes 8 (Z.of_nat (length ([] : bytes))) ++ [] ++
    replicate 4 0 ++ rest).
  { rewrite (to_le_bytes_app 4 4), Z.div_small by lia. rewrite Hepoch, !to_le_bytes_zero.
    by rewrite <- (assoc_L (++)). }
  unfold deserialize_state_smart. rewrite Hsplit, decode_versioned_layout by (simpl; lia).
  unfold VersionedState_into_state, migrate_state, CURRENT_STATE_VERSION, MIN_SUPPORTED_VERSION.
  simpl.
  destruct (Z.eqb_spec (st_block_height s) 3), (Z.leb_spec 1 (st_block_height s)),
    (Z.eqb_spec (st_block_height s) 1), (Z.eqb_spec (st_block_height s) 2); try lia; eauto.
Qed.
End versioning.

(** ** The schema guard *)

Section schema_guard.

(** [const_hash]: FNV-1a over the bytes of a string. *)
Definition FNV_OFFSET : Z := 0xcbf29ce484222325.
Definition FNV_PRIME : Z := 0x100000001b3.

Definition fnv_step (hash byte : Z) : Z := u64_mul (Z.lxor hash byte) FNV_PRIME.

Definition const_hash (s : string) : Z := fold_left fnv_step (str_bytes s) FNV_OFFSET.

Definition ValidatorInfo_schema : string :=
  "ValidatorInfo:hotkey:Hotkey,stake:Stake,is_active:bool,last_seen:DateTime,peer_id:Option<String>,x25519_pubkey:Option<String>".
Definition ChainState_schema : string :=
  "ChainState:block_height:u64,epoch:u64,config:NetworkConfig,sudo_key:Hotkey,validators:HashMap<Hotkey,ValidatorInfo>,challenges:HashMap<ChallengeId,Challenge>,challenge_configs:HashMap,mechanism_configs:HashMap,challenge_weights:HashMap,required_version:Option,pending_jobs:Vec,state_hash:[u8;32],last_updated:DateTime,registered_hotkeys:HashSet<Hotkey>".

(** [SchemaHash::schema_hash] of the two types. *)
Definition ValidatorInfo_schema_hash : Z := const_hash ValidatorInfo_schema.
Definition ChainState_schema_hash : Z := const_hash ChainState_schema.

Record SchemaRegistry : Type := mk_SchemaRegistry {
  sr_version : Z;
  sr_validator_info_hash : Z;
  sr_chain_state_hash : Z;
  sr_description : string
}.

Definition ValidatorInfo_schema_v1 : string :=
  "ValidatorInfo:hotkey:Hotkey,stake:Stake,is_active:bool,last_seen:DateTime,peer_id:Option<String>".
Definition ChainState_schema_v1 : string :=
  "ChainState:block_height:u64,epoch:u64,config:NetworkConfig,sudo_key:Hotkey,validators:HashMap<Hotkey,ValidatorInfo>,challenges:HashMap<ChallengeId,Challenge>,challenge_configs:HashMap,mechanism_configs:HashMap,challenge_weights:HashMap,required_version:Option,pending_jobs:Vec,state_hash:[u8;32],last_updated:DateTime".

Definition expected_schema_hashes : gmap Z SchemaRegistry :=
  <[3 := mk_SchemaRegistry 3 (const_hash ValidatorInfo_schema) (const_hash ChainState_schema)
           "Added x25519_pubkey to ValidatorInfo"]>
  (<[2 := mk_SchemaRegistry 2 (const_hash ValidatorInfo_schema_v1) (const_hash ChainState_schema)
            "Added registered_hotkeys to ChainState"]>
  (<[1 := mk_SchemaRegistry 1 (const_hash ValidatorInfo_schema_v1) (const_hash ChainState_schema_v1)
            "Original schema without registered_hotkeys or x25519_pubkey"]> ∅)).

(** The hints of the errors are fixed texts and left out. *)
Inductive SchemaError : Type :=
| SchemaMismatch (type_name : string) (expected_hash actual_hash current_version : Z)
| MissingVersion (version : Z).

Definition check_schema (registry : gmap Z SchemaRegistry) (current validator_hash state_hash : Z) :
    result SchemaError unit :=
  expected ← ok_or (registry !! current) (MissingVersion current);
  if negb (validator_hash =? sr_validator_info_hash expected) then
    Err (SchemaMismatch "ValidatorInfo" (sr_validator_info_hash expected) validator_hash current)
  else if negb (state_hash =? sr_chain_state_hash expected) then
    Err (SchemaMismatch "ChainState" (sr_chain_state_hash expected) state_hash current)
  else Ok tt.

Definition verify_schema_integrity : result SchemaError unit :=
  check_schema expected_schema_hashes CURRENT_STATE_VERSION ValidatorInfo_schema_hash
    ChainState_schema_hash.

(** The versions from [lo], [n] of them. *)
Fixpoint check_versions (registry : gmap Z SchemaRegistry) (lo : Z) (n : nat) :
    result SchemaError unit :=
  match n with
  | O => Ok tt
  | S n' =>
      if decide (registry !! lo = None) then Err (MissingVersion lo)
      else check_versions registry (lo + 1) n'
  end.

Definition verify_migration_paths : result SchemaError unit :=
  check_versions expected_schema_hashes MIN_SUPPORTED_VERSION
    (Z.to_nat (CURRENT_STATE_VERSION - MIN_SUPPORTED_VERSION + 1)).

Lemma schema_guard_passes : verify_schema_integrity = Ok tt /\ verify_migration_paths = Ok tt.
Proof. split; vm_compute; reflexivity. Qed.

(** The inverse of the FNV prime modulo 2^64. *)
Definition FNV_INVERSE : Z := 0xce965057aff6957b.

Lemma lxor_u64 x y : is_u64 x -> is_u64 y -> is_u64 (Z.lxor x y).
Proof.
  unfold is_u64. intros Hx Hy.
  assert (Hnn : 0 <= Z.lxor x y) by (apply Z.lxor_nonneg; lia).
  split; [done|]. destruct (Z.eq_dec (Z.lxor x y) 0) as [->|Hne]; [lia|].
  apply Z.log2_lt_pow2; [lia|].
  assert (Hlog : forall z, 0 <= z < 2 ^ 64 -> Z.log2 z < 64).
  { intros z Hz. destruct (Z.eq_dec z 0) as [->|]; [done|]. apply Z.log2_lt_pow2; lia. }
  pose proof (Z.log2_lxor x y ltac:(lia) ltac:(lia)).
  pose proof (Hlog x Hx). pose proof (Hlog y Hy). lia.
Qed.

Lemma mul_prime_inj x y :
  is_u64 x -> is_u64 y -> u64_mul x FNV_PRIME = u64_mul y FNV_PRIME -> x = y.
Proof.
  intros Hx Hy Heq. rewrite <- (u64_wrap_small x Hx), <- (u64_wrap_small y Hy).
  apply (f_equal (fun z => u64_mul z FNV_INVERSE)) in Heq.
  assert (Hinv : forall z, u64_mul (u64_mul z FNV_PRIME) FNV_INVERSE = u64_wrap z).
  { intros z. unfold u64_mul, u64_wrap. rewrite Z.mul_mod_idemp_l by lia.
    rewrite <- Z.mul_assoc, <- Z.mul_mod_idemp_r by lia.
    replace (FNV_PRIME * FNV_INVERSE mod 2 ^ 64) with 1 by reflexivity. by rewrite Z.mul_1_r. }
  by rewrite !Hinv in Heq.
Qed.

Lemma fnv_step_inj h h' b b' :
  is_u64 h -> is_u64 h' -> is_u64 b -> is_u64 b' -> fnv_step h b = fnv_step h' b' ->
  Z.lxor h b = Z.lxor h' b'.
Proof. intros. apply mul_prime_inj; auto using lxor_u64. Qed.

Lemma fnv_step_range h b : is_u64 (fnv_step h b).
Proof. apply u64_wrap_range. Qed.

Lemma str_bytes_u64 s : Forall is_u64 (str_bytes s).
Proof.
  eapply List.Forall_impl; [|apply str_bytes_range]. unfold is_u64. lia.
Qed.

Lemma fnv_fold_range l h : is_u64 h -> is_u64 (fold_left fnv_step l h).
Proof. revert h. induction l as [|b l IH]; intros h Hh; simpl; auto using fnv_step_range. Qed.

Lemma fnv_fold_inj l h h' :
  Forall is_u64 l -> is_u64 h -> is_u64 h' ->
  fold_left fnv_step l h = fold_left fnv_step l h' -> h = h'.
Proof.
  intros Hl. revert h h'. induction Hl as [|b l Hb _ IH]; intros h h' Hh Hh' Heq; [done|].
  apply IH in Heq; [|apply fnv_step_range..].
  apply fnv_step_inj in Heq; [|done..].
  apply (f_equal (Z.lxor b)) in Heq. rewrite !(Z.lxor_comm b), !Z.lxor_assoc in Heq.
  by rewrite !Z.lxor_nilpotent, !Z.lxor_0_r in Heq.
Qed.

(** The schema guard passes for the registered schemas, and its hash sees
    every substitution of one character: two descriptions that differ in
    exactly one place never have the same FNV-1a hash. *)
Theorem schema_hash_detects_substitution pre post a b :
  verify_schema_integrity = Ok tt /\ verify_migration_paths = Ok tt /\
  (a <> b ->
   const_hash (pre +:+ String a post) <> const_hash (pre +:+ String b post)).
Proof.
  destruct schema_guard_passes as [Hs Hm]. split; [done|]. split; [done|].
  intros Hne Heq. apply Hne. unfold const_hash, str_bytes in Heq.
  rewrite !chars_app, !fmap_app in Heq. rewrite !fold_left_app in Heq. simpl in Heq.
  pose proof (fnv_fold_range (str_bytes pre) FNV_OFFSET ltac:(by_compute)) as Hr.
  apply fnv_fold_inj in Heq; [|apply str_bytes_u64|apply fnv_step_range..].
  pose proof (nat_ascii_bounded a). pose proof (nat_ascii_bounded b).
  apply fnv_step_inj in Heq; [|done|done|unfold is_u64; lia..].
  apply (f_equal (Z.lxor (fold_left fnv_step (str_bytes pre) FNV_OFFSET))) in Heq.
  rewrite <- !Z.lxor_assoc, !Z.lxor_nilpotent, !Z.lxor_0_l in Heq.
  apply Nat2Z.inj in Heq. by rewrite <- (ascii_nat_embedding a), Heq, ascii_nat_embedding.
Qed.
End schema_guard.

(** ** A concrete codec

    The header in the documented layout; of states it knows the genesis state
    and one state of version 2. *)

Module VersioningExamples.

Fixpoint le_value (b : bytes) : Z :=
  match b with
  | [] => 0
  | x :: b' => x + 256 * le_value b'
  end.

Lemma le_value_bytes k n : le_value (to_le_bytes k n) = n mod 256 ^ Z.of_nat k.
Proof.
  revert n. induction k as [|k IH]; intros n; [by rewrite Z.mod_1_r|].
  cbn [to_le_bytes le_value]. rewrite IH, Nat2Z.inj_succ, Z.pow_succ_r by lia.
  rewrite (Z.rem_mul_r n 256) by lia. lia.
Qed.

Definition parse_versioned (b : bytes) : result string VersionedState :=
  let n := Z.to_nat (le_value (take 8 (drop 4 b))) in
  let body := drop 12 b in
  if (length b <? 12)%nat || (length body <? n)%nat then Err "unexpected end"%string
  else Ok (mk_VersionedState (le_value (take 4 b)) (take n body)).

Lemma parse_versioned_layout version data rest :
  0 <= version < 2 ^ 32 -> Z.of_nat (length data) < 2 ^ 64 ->
  parse_versioned (to_le_bytes 4 version ++ to_le_bytes 8 (Z.of_nat (length data)) ++ data ++ rest)
    = Ok (mk_VersionedState version data).
Proof.
  intros Hv Hd. unfold parse_versioned.
  assert (Ht : forall l b : bytes, take (length l) (l ++ b) = l) by (intros; apply take_app_length).
  assert (Hr : forall l b : bytes, drop (length l) (l ++ b) = b) by (intros; apply drop_app_length).
  pose proof (Ht (to_le_bytes 4 version)) as Ht4. pose proof (Hr (to_le_bytes 4 version)) as Hr4.
  pose proof (Ht (to_le_bytes 8 (Z.of_nat (length data)))) as Ht8.
  rewrite length_to_le_bytes in Ht4, Hr4, Ht8.
  rewrite Ht4, Hr4, Ht8, !le_value_bytes, !Z.mod_small by (simpl; lia). rewrite Nat2Z.id.
  assert (Hbody : drop 12 (to_le_bytes 4 version ++ to_le_bytes 8 (Z.of_nat (length data)) ++ data ++ rest)
                  = data ++ rest).
  { rewrite (assoc_L (++)). apply drop_app_length'. by rewrite length_app, !length_to_le_bytes. }
  rewrite Hbody, Ht, !length_app, !length_to_le_bytes.
  rewrite (proj2 (Nat.ltb_ge _ 12)), (proj2 (Nat.ltb_ge _ _)) by lia. done.
Qed.

Definition genesis : ChainState := ChainState_default 0.
Definition genesis_bytes : bytes := to_le_bytes 8 0 ++ to_le_bytes 8 0 ++ [7].

Definition legacy_validator : ValidatorInfoLegacy :=
  mk_ValidatorInfoLegacy (mk_Hotkey [1]) (mk_Stake 5) true 9 None.
Definition legacy_state : ChainStateV2 :=
  mk_ChainStateV2 10 2 NetworkConfig_default (mk_Hotkey [0])
    {[ mk_Hotkey [1] := legacy_validator ]} ∅ ∅ ∅ ∅ None [] [] 8 ∅.

#[export] Instance toy_state_codec : StateCodec := {|
  encode_state := fun s =>
    if decide (s = genesis) then Ok genesis_bytes else Err "unsupported"%string;
  decode_state := fun b =>
    if decide (b = genesis_bytes) then Ok genesis else Err "unsupported"%string;
  encode_versioned := fun v =>
    if decide (0 <= vst_version v < 2 ^ 32 /\ Z.of_nat (length (vst_data v)) < 2 ^ 64)
    then Ok (to_le_bytes 4 (vst_version v) ++ to_le_bytes 8 (Z.of_nat (length (vst_data v))) ++
             vst_data v)
    else Err "too large"%string;
  decode_versioned := parse_versioned;
  decode_v1 := fun _ => Err "unsupported"%string;
  decode_v2 := fun b => if decide (b = [2]) then Ok legacy_state else Err "unsupported"%string
|}.

#[export] Instance toy_state_codec_laws : StateCodecLaws.
Proof.
  split; cbn [encode_state decode_state encode_versioned decode_versioned toy_state_codec].
  - intros s b. case_decide as Hs; [|done]. intros [= <-]. rewrite decide_True by done. by rewrite Hs.
  - intros v b. case_decide as Hv; [|done]. intros [= <-].
    destruct Hv as [Hv Hd], v as [version data]. cbn [vst_version vst_data] in *.
    pose proof (parse_versioned_layout version data [] Hv Hd) as Hp.
    by rewrite app_nil_r in Hp.
Qed.

#[export] Instance toy_layout : BincodeLayout.
Proof.
  split; cbn [encode_state decode_versioned toy_state_codec].
  - exact parse_versioned_layout.
  - intros s b. case_decide as Hs; [|done]. intros [= <-]. rewrite Hs. by exists [7].
Qed.

Definition genesis_versioned : bytes := to_le_bytes 4 3 ++ to_le_bytes 8 17 ++ genesis_bytes.

Lemma versioned_roundtrip_witness : deserialize_state_smart genesis_versioned = Ok genesis.
Proof.
  assert (Hs : serialize_state_versioned genesis = Ok genesis_versioned) by by_compute.
  exact (versioned_roundtrip genesis genesis_versioned Hs).
Defined.

Lemma unversioned_epoch_zero_lost_witness :
  exists msg, deserialize_state_smart genesis_bytes = Err (Serialization msg).
Proof.
  assert (He : encode_state genesis = Ok genesis_bytes) by by_compute.
  assert (Hh : 0 <= st_block_height genesis < 2 ^ 32) by (simpl; lia).
  assert (Hn : ~ (1 <= st_block_height genesis <= 3)) by (simpl; lia).
  exact (unversioned_epoch_zero_lost genesis genesis_bytes He eq_refl Hh Hn).
Defined.

Lemma legacy_states_migrate_witness :
  exists s, deserialize_state_smart [2] = Ok s /\ state_fields s = v2_fields legacy_state.
Proof.
  assert (Hv : forall v, decode_versioned [2] <> Ok v) by (intros v; discriminate).
  assert (Hs : forall s, decode_state [2] <> Ok s) by (intros s; discriminate).
  destruct (proj1 (legacy_states_migrate [2] Hv Hs) legacy_state eq_refl)
    as (s & Hd & Hf & _). exists s. split; [exact Hd|exact Hf].
Defined.
End VersioningExamples.
