(* ===== verification/ContainerPolicy.v ===== *)
(** * The container security policy

    Models [crates/secure-container-runtime/src/types.rs] and [policy.rs]:
    container configurations and the policy that admits them.  Paths follow
    [std::path] on Unix.  An error carries the text of its message, or the
    numbers the message prints. *)

From Stdlib Require Import Ascii.
From S2P Require Import Prelude Float64 RustStrings.

(** ** Configurations *)

Record ResourceLimits : Type := mk_ResourceLimits {
  rl_memory_bytes : Z;
  rl_cpu_cores : f64;
  rl_pids_limit : Z;
  rl_disk_quota_bytes : Z
}.

Definition ResourceLimits_default : ResourceLimits :=
  mk_ResourceLimits (2 * 1024 * 1024 * 1024) f64_one 256 0.

Inductive NetworkMode : Type := NetNone | NetBridge | NetIsolated.

Record NetworkConfig : Type := mk_NetworkConfig {
  net_mode : NetworkMode;
  net_ports : gmap Z Z;
  net_allow_internet : bool
}.

Definition NetworkConfig_default : NetworkConfig := mk_NetworkConfig NetIsolated ∅ false.

Record MountConfig : Type := mk_MountConfig {
  mnt_source : string;
  mnt_target : string;
  mnt_read_only : bool
}.

Record ContainerConfig : Type := mk_ContainerConfig {
  cfg_image : string;
  cfg_challenge_id : string;
  cfg_owner_id : string;
  cfg_name : option string;
  cfg_cmd : option (list string);
  cfg_env : gmap string string;
  cfg_working_dir : option string;
  cfg_resources : ResourceLimits;
  cfg_network : NetworkConfig;
  cfg_mounts : list MountConfig;
  cfg_labels : gmap string string;
  cfg_user : option string
}.

Inductive ErrorText : Type :=
| Text (s : string)
| MemoryExceeds (limit max : Z)
| CpuExceeds (limit max : f64)
| PidsExceed (limit max : Z)
| TooManyContainers (who : string) (max : nat).

#[global] Instance ErrorText_eq_dec : EqDecision ErrorText.
Proof. solve_decision. Defined.

Inductive ContainerError : Type :=
| ImageNotWhitelisted (image : string)
| PolicyViolationError (msg : ErrorText)
| ContainerNotFound (id : string)
| ResourceLimitExceeded (msg : ErrorText)
| PermissionDenied (msg : ErrorText)
| InvalidConfig (msg : ErrorText)
| DockerError (msg : ErrorText)
| InternalError (msg : ErrorText)
| UnauthorizedError (msg : ErrorText)
| InvalidRequest (msg : ErrorText).

#[global] Instance ContainerError_eq_dec : EqDecision ContainerError.
Proof. solve_decision. Defined.

(** ** Paths *)

Inductive Component : Type :=
| RootDir
| CurDir
| ParentDir
| Normal (s : string).

#[global] Instance Component_eq_dec : EqDecision Component.
Proof. solve_decision. Defined.

Definition slash : ascii := "/"%char.

(** [Path::components]: repeated separators and inner [.] are dropped. *)
Definition piece_component (first : bool) (piece : string) : option Component :=
  if decide (piece = ""%string) then None
  else if decide (piece = "."%string) then (if first then Some CurDir else None)
  else if decide (piece = ".."%string) then Some ParentDir
  else Some (Normal piece).

Definition path_components (path : string) : list Component :=
  match split slash path with
  | [] => []
  | p :: ps =>
      (if starts_with "/" path then [RootDir] else option_list (piece_component true p))
      ++ omap (piece_component false) ps
  end.

(** A [PathBuf] built by [push] and [pop] of components. *)
Record PathBuf : Type := mk_PathBuf { pb_root : bool; pb_parts : list string }.

Definition PathBuf_new : PathBuf := mk_PathBuf false [].
Definition PathBuf_push (s : string) (p : PathBuf) : PathBuf :=
  mk_PathBuf (pb_root p) (pb_parts p ++ [s]).
Definition PathBuf_push_root (p : PathBuf) : PathBuf := mk_PathBuf true [].
Definition PathBuf_pop (p : PathBuf) : PathBuf :=
  mk_PathBuf (pb_root p) (take (pred (length (pb_parts p))) (pb_parts p)).
Definition PathBuf_to_string (p : PathBuf) : string :=
  ((if pb_root p then "/" else "") +:+ join "/" (pb_parts p))%string.

Definition normalize_step (acc : PathBuf) (comp : Component) : PathBuf :=
  match comp with
  | ParentDir => PathBuf_pop acc
  | Normal s => PathBuf_push s acc
  | RootDir => PathBuf_push_root acc
  | CurDir => acc
  end.

Definition normalize (path : string) : PathBuf :=
  fold_left normalize_step (path_components path) PathBuf_new.

(** ** The policy *)

Record SecurityPolicy : Type := mk_SecurityPolicy {
  sp_allowed_image_prefixes : list string;
  sp_max_memory_bytes : Z;
  sp_max_cpu_cores : f64;
  sp_max_pids : Z;
  sp_max_containers_per_challenge : nat;
  sp_max_containers_per_owner : nat;
  sp_allowed_mount_prefixes : list string;
  sp_forbidden_mount_paths : gset string;
  sp_allow_privileged : bool;
  sp_allow_host_network : bool;
  sp_allow_docker_socket : bool
}.

Definition set_image_prefixes (x : list string) (p : SecurityPolicy) : SecurityPolicy :=
  mk_SecurityPolicy x (sp_max_memory_bytes p) (sp_max_cpu_cores p) (sp_max_pids p)
    (sp_max_containers_per_challenge p) (sp_max_containers_per_owner p)
    (sp_allowed_mount_prefixes p) (sp_forbidden_mount_paths p) (sp_allow_privileged p)
    (sp_allow_host_network p) (sp_allow_docker_socket p).
Definition set_mount_prefixes (x : list string) (p : SecurityPolicy) : SecurityPolicy :=
  mk_SecurityPolicy (sp_allowed_image_prefixes p) (sp_max_memory_bytes p) (sp_max_cpu_cores p)
    (sp_max_pids p) (sp_max_containers_per_challenge p) (sp_max_containers_per_owner p)
    x (sp_forbidden_mount_paths p) (sp_allow_privileged p)
    (sp_allow_host_network p) (sp_allow_docker_socket p).

Definition SecurityPolicy_default : SecurityPolicy :=
  {| sp_allowed_image_prefixes := ["ghcr.io/platformnetwork/"; "platform-"]%string;
     sp_max_memory_bytes := 8 * 1024 * 1024 * 1024;
     sp_max_cpu_cores := f64_of_Z 4;
     sp_max_pids := 512;
     sp_max_containers_per_challenge := 100;
     sp_max_containers_per_owner := 200;
     sp_allowed_mount_prefixes :=
       ["/tmp/"; "/var/lib/platform/"; "/var/lib/docker/volumes/"]%string;
     sp_forbidden_mount_paths := list_to_set
       ["/var/run/docker.sock"; "/run/docker.sock"; "/etc/passwd"; "/etc/shadow"; "/etc/sudoers";
        "/root"; "/home"; "/proc"; "/sys"; "/dev"]%string;
     sp_allow_privileged := false;
     sp_allow_host_network := false;
     sp_allow_docker_socket := false |}.

Definition strict : SecurityPolicy :=
  set_image_prefixes ["ghcr.io/platformnetwork/"%string] SecurityPolicy_default.
Definition permissive : SecurityPolicy := set_image_prefixes [] SecurityPolicy_default.
Definition development : SecurityPolicy :=
  set_mount_prefixes (sp_allowed_mount_prefixes SecurityPolicy_default
    ++ ["/workspace/"; "/var/lib/docker/volumes/"]%string) SecurityPolicy_default.
Definition allow_all_images (p : SecurityPolicy) : SecurityPolicy := set_image_prefixes [] p.
Definition with_image_prefix (prefix : string) (p : SecurityPolicy) : SecurityPolicy :=
  set_image_prefixes (sp_allowed_image_prefixes p ++ [prefix]) p.

(** A failed check returns its error. *)
Definition check (b : bool) (e : ContainerError) : result ContainerError unit :=
  if b then Ok tt else Err e.

Definition validate_image (p : SecurityPolicy) (image : string) : result ContainerError unit :=
  match sp_allowed_image_prefixes p with
  | [] => Ok tt
  | prefixes =>
      let image_lower := to_lowercase image in
      check (existsb (fun prefix => starts_with (to_lowercase prefix) image_lower) prefixes)
        (ImageNotWhitelisted image)
  end.

Definition validate_resources (p : SecurityPolicy) (r : ResourceLimits) :
    result ContainerError unit :=
  _ ← check (rl_memory_bytes r <=? sp_max_memory_bytes p)
        (ResourceLimitExceeded (MemoryExceeds (rl_memory_bytes r) (sp_max_memory_bytes p)));
  _ ← check (negb (f64_ltb (sp_max_cpu_cores p) (rl_cpu_cores r)))
        (ResourceLimitExceeded (CpuExceeds (rl_cpu_cores r) (sp_max_cpu_cores p)));
  check (rl_pids_limit r <=? sp_max_pids p)
    (ResourceLimitExceeded (PidsExceed (rl_pids_limit r) (sp_max_pids p))).

Section policy.
Context {HO : HashOrder string}.

Definition validate_mount (p : SecurityPolicy) (m : MountConfig) : result ContainerError unit :=
  let source := mnt_source m in
  _ ← check (negb (contains ".." source))
        (PolicyViolationError (Text ("Path traversal not allowed: " +:+ source)));
  let normalized := PathBuf_to_string (normalize source) in
  _ ← check (forallb (fun forbidden => negb (starts_with forbidden normalized))
               (key_order (sp_forbidden_mount_paths p)))
        (PolicyViolationError (Text ("Mount path '" +:+ source +:+ "' is forbidden")));
  _ ← check (negb (contains "docker.sock" source || contains "docker.sock" normalized)
             || sp_allow_docker_socket p)
        (PolicyViolationError (Text "Docker socket mounting is not allowed"));
  check (existsb (fun prefix => starts_with prefix normalized) (sp_allowed_mount_prefixes p))
    (PolicyViolationError (Text ("Mount source '" +:+ source +:+ "' is not in allowed paths"))).

Fixpoint validate_mounts (p : SecurityPolicy) (mounts : list MountConfig) :
    result ContainerError unit :=
  match mounts with
  | [] => Ok tt
  | m :: ms => _ ← validate_mount p m; validate_mounts p ms
  end.

Definition validate_network (p : SecurityPolicy) (n : NetworkConfig) :
    result ContainerError unit := Ok tt.

Definition policy_validate (p : SecurityPolicy) (c : ContainerConfig) :
    result ContainerError unit :=
  _ ← validate_image p (cfg_image c);
  _ ← validate_resources p (cfg_resources c);
  _ ← validate_mounts p (cfg_mounts c);
  _ ← validate_network p (cfg_network c);
  _ ← check (negb (is_empty (cfg_challenge_id c)))
        (InvalidConfig (Text "challenge_id is required"));
  check (negb (is_empty (cfg_owner_id c))) (InvalidConfig (Text "owner_id is required")).
End policy.

Definition check_container_limit (p : SecurityPolicy) (challenge_id : string) (count : nat) :
    result ContainerError unit :=
  check (count <? sp_max_containers_per_challenge p)%nat
    (ResourceLimitExceeded (TooManyContainers challenge_id (sp_max_containers_per_challenge p))).

Definition check_owner_limit (p : SecurityPolicy) (owner_id : string) (count : nat) :
    result ContainerError unit :=
  check (count <? sp_max_containers_per_owner p)%nat
    (ResourceLimitExceeded (TooManyContainers owner_id (sp_max_containers_per_owner p))).

(** * What the container policy guarantees

    The policy checks strings; these theorems say what an accepted
    configuration means for the paths, images and resources behind them. *)

Lemma check_bind_ok {A} b e (f : unit -> result ContainerError A) a :
  (check b e ≫= f) = Ok a <-> b = true /\ f tt = Ok a.
Proof. destruct b; simpl; naive_solver. Qed.

Lemma check_ok b e : check b e = Ok tt <-> b = true.
Proof. destruct b; naive_solver. Qed.

(** ** Paths *)

Definition slash_free (s : string) : Prop := slash ∉ String.list_ascii_of_string s.

Lemma split_at_unique {A} (c : A) a b t u :
  c ∉ a -> c ∉ b -> a ++ c :: t = b ++ c :: u -> a = b /\ t = u.
Proof.
  revert b. induction a as [|x a IH]; intros [|y b] Ha Hb Heq; simpl in *; simplify_eq; try done;
    rewrite ?not_elem_of_cons in *; try naive_solver.
Qed.

Lemma split_on_pieces c l w : (w ∈ split_on c l) -> (c ∉ w) /\ exists u v, l = u ++ w ++ v.
Proof.
  revert w. induction l as [|a l IH]; intros w; simpl.
  - intros ->%list_elem_of_singleton. split; [apply not_elem_of_nil|]. by exists [], [].
  - destruct (split_on c l) as [|w' ws] eqn:Hs.
    { destruct l as [|b l']; simpl in Hs; [done|]. by repeat case_match. }
    case_decide as Hac; [intros [->|Hw]%elem_of_cons|intros [->|Hw]%elem_of_cons].
    + split; [apply not_elem_of_nil|]. by exists [], (a :: l).
    + destruct (IH w) as (? & u & v & ->); [by rewrite ?Hs|]. split; [done|]. by exists (a :: u), v.
    + destruct (IH w') as (Hc & u & v & Hl); [rewrite ?Hs; left|].
      split; [rewrite not_elem_of_cons; naive_solver|].
      clear IH. assert (Hpre : exists v, l = w' ++ v).
      { clear -Hs. revert w' ws Hs. induction l as [|b l IH]; intros w' ws; simpl.
        - intros [= <- <-]. by exists [].
        - destruct (split_on c l) as [|w ws'] eqn:Hs; [intros [= <- <-]; by exists l|].
          destruct (IH w ws' eq_refl) as [v ->].
          case_decide; intros [= <- <-]; [by exists (b :: w ++ v)|by exists v]. }
      destruct Hpre as [v' ->]. by exists [], v'.
    + destruct (IH w) as (? & u & v & ->); [rewrite ?Hs; by right|].
      split; [done|]. by exists (a :: u), v.
Qed.

Lemma split_piece s p : p ∈ split slash s -> slash_free p /\ contains p s = true.
Proof.
  unfold split. intros (w & -> & Hw)%list_elem_of_fmap.
  apply split_on_pieces in Hw as (Hc & u & v & Heq). split; [by unfold slash_free; rewrite chars_of_chars|].
  apply contains_spec. exists (String.string_of_list_ascii u), (String.string_of_list_ascii v).
  apply chars_inj. by rewrite !chars_app, !chars_of_chars.
Qed.

(** Where the components of a path come from. *)
Lemma elem_of_path_components path comp :
  comp ∈ path_components path ->
  comp = RootDir \/ exists b p, p ∈ split slash path /\ piece_component b p = Some comp.
Proof.
  unfold path_components. destruct (split slash path) as [|p ps]; [by intros ?%not_elem_of_nil|].
  rewrite elem_of_app, list_elem_of_omap. intros [Hc|(q & Hq & Hp)].
  - destruct (starts_with "/" path); [left; by apply list_elem_of_singleton|].
    right. exists true, p. split; [left|]. destruct (piece_component true p); [|by apply not_elem_of_nil in Hc].
    simpl in Hc. apply list_elem_of_singleton in Hc. by subst.
  - right. exists false, q. split; [by right|done].
Qed.

Lemma piece_component_Normal b p s :
  piece_component b p = Some (Normal s) -> s = p.
Proof. unfold piece_component. repeat case_decide; destruct b; naive_solver. Qed.

Lemma path_components_normal path s : Normal s ∈ path_components path -> slash_free s.
Proof.
  intros [?|(b & p & Hp & Hs)]%elem_of_path_components; [done|].
  apply piece_component_Normal in Hs as ->. by apply split_piece in Hp as [? _].
Qed.

Lemma no_parent_dir path :
  contains ".." path = false -> ParentDir ∉ path_components path.
Proof.
  intros Hc [?|(b & p & Hp & Hs)]%elem_of_path_components; [done|].
  assert (p = ".."%string) as ->.
  { unfold piece_component in Hs. repeat case_decide; destruct b; naive_solver. }
  apply split_piece in Hp as [_ Hp]. congruence.
Qed.

(** The names of a list of components. *)
Definition names (l : list Component) : list string :=
  omap (fun c => match c with Normal s => Some s | _ => None end) l.

Lemma omap_piece_shape l :
  ParentDir ∉ omap (piece_component false) l ->
  omap (piece_component false) l = Normal <$> names (omap (piece_component false) l).
Proof.
  induction l as [|p l IH]; [done|]. cbn [omap list_omap]. intros Hn.
  destruct (piece_component false p) as [c|] eqn:Hc; [|by apply IH].
  assert (Hc' : exists s, c = Normal s).
  { unfold piece_component in Hc. repeat case_decide; simplify_eq; eauto.
    destruct Hn. left. }
  destruct Hc' as [s ->]. csimpl. f_equal. apply IH. intros Hin. apply Hn. by right.
Qed.

Lemma fold_normalize_names ns acc :
  fold_left normalize_step (Normal <$> ns) acc =
  mk_PathBuf (pb_root acc) (pb_parts acc ++ ns).
Proof.
  revert acc. induction ns as [|n ns IH]; intros acc; simpl.
  - destruct acc. by rewrite app_nil_r.
  - rewrite IH. simpl. by rewrite <- (assoc_L (++)).
Qed.

(** An absolute path without [..] is its list of names. *)
Lemma normalize_absolute path :
  contains ".." path = false -> starts_with "/" path = true ->
  exists ns, path_components path = RootDir :: (Normal <$> ns) /\
    normalize path = mk_PathBuf true ns /\ Forall slash_free ns.
Proof.
  intros Hc Hs. pose proof (no_parent_dir path Hc) as Hn.
  pose proof (path_components_normal path) as Hfree.
  unfold normalize. revert Hn Hfree. unfold path_components. rewrite Hs.
  destruct (split slash path) as [|p ps] eqn:Hsplit.
  { exfalso. unfold split in Hsplit. apply fmap_nil_inv in Hsplit.
    destruct (String.list_ascii_of_string path); simpl in Hsplit; [done|].
    by repeat case_match. }
  intros Hn Hfree. simpl in *. revert Hn Hfree.
  pose proof (omap_piece_shape ps) as Hshape. revert Hshape.
  generalize (omap (piece_component false) ps). intros l Hshape Hn Hfree.
  rewrite not_elem_of_cons in Hn. apply proj2, Hshape in Hn. exists (names l).
  rewrite <- Hn. split; [done|]. split; [by rewrite Hn at 1; rewrite fold_normalize_names|].
  apply list.Forall_forall. intros s Hin. apply Hfree. right. rewrite Hn.
  by apply list_elem_of_fmap_2.
Qed.

Lemma piece_nonempty b p c : piece_component b p = Some c -> p <> ""%string.
Proof. unfold piece_component. by repeat case_decide. Qed.

(** A relative path stays relative. *)
Lemma normalize_relative path :
  contains ".." path = false -> starts_with "/" path = false ->
  exists ns, normalize path = mk_PathBuf false ns /\
    Forall (fun s => slash_free s /\ s <> ""%string) ns.
Proof.
  intros Hc Hs. pose proof (no_parent_dir path Hc) as Hn.
  assert (Hok : forall s, Normal s ∈ path_components path -> slash_free s /\ s <> ""%string).
  { intros s Hin. split; [by eapply path_components_normal|].
    apply elem_of_path_components in Hin as [?|(b & p & _ & Hp)]; [done|].
    pose proof (piece_component_Normal _ _ _ Hp) as ->. by eapply piece_nonempty. }
  unfold normalize. revert Hn Hok. unfold path_components. rewrite Hs.
  destruct (split slash path) as [|p ps]; [by exists []|]. intros Hn Hok.
  rewrite elem_of_app in Hn. setoid_rewrite elem_of_app in Hok.
  pose proof (omap_piece_shape ps ltac:(tauto)) as Hshape. revert Hn Hok Hshape.
  generalize (omap (piece_component false) ps). intros l Hn Hok Hshape.
  assert (Hl : Forall (fun s => slash_free s /\ s <> ""%string) (names l)).
  { apply list.Forall_forall. intros s Hin. apply Hok. right. rewrite Hshape.
    by apply list_elem_of_fmap_2. }
  rewrite fold_left_app, Hshape, fold_normalize_names.
  destruct (piece_component true p) as [c|] eqn:Hp; simpl in *; [|by exists (names l)].
  destruct c as [| | |s]; simpl.
  - unfold piece_component in Hp. by repeat case_decide.
  - by exists (names l).
  - destruct Hn. left. left.
  - exists (s :: names l). split; [done|]. constructor; [|done]. apply Hok. left. left.
Qed.

(** A prefix of directories, each followed by a slash. *)
Definition dir_prefix (dirs : list string) : string := ("/" +:+ join "/" dirs +:+ "/")%string.

Lemma join_cons2 s t l : join "/" (s :: t :: l) = (s +:+ "/" +:+ join "/" (t :: l))%string.
Proof. done. Qed.

Lemma join_one s : join "/" [s] = s.
Proof. done. Qed.

#[local] Arguments join : simpl never.

Lemma starts_with_dirs dirs parts :
  dirs <> [] -> Forall slash_free dirs -> Forall slash_free parts ->
  starts_with (join "/" dirs +:+ "/") (join "/" parts) = true ->
  exists x rest, parts = dirs ++ x :: rest.
Proof.
  intros Hne Hd. revert parts. induction Hd as [|d dirs Hfree Hd IH]; [done|].
  intros parts Hp [t Ht]%starts_with_spec. apply (f_equal String.list_ascii_of_string) in Ht.
  destruct Hp as [|q parts Hq Hp].
  { rewrite !chars_app in Ht. by destruct (String.list_ascii_of_string (join "/" (d :: dirs))). }
  assert (Hnext : exists u, String.list_ascii_of_string (join "/" (d :: dirs) +:+ "/" +:+ t)%string =
      String.list_ascii_of_string d ++ slash :: u).
  { destruct dirs; eexists; rewrite ?join_cons2, ?join_one, !chars_app; simpl;
      rewrite <- ?(assoc_L (++)); done. }
  destruct Hnext as [u Hu]. rewrite string_app_assoc, Hu in Ht.
  destruct parts as [|q' parts].
  - exfalso. apply Hq. rewrite join_one in Ht. rewrite Ht. apply elem_of_app. right. left.
  - rewrite join_cons2, !chars_app in Ht. simpl in Ht.
    apply split_at_unique in Ht as [Hqd Hrest]; [|done|done].
    apply chars_inj in Hqd as ->.
    destruct dirs as [|d' dirs]; [by exists q', parts|].
    destruct (IH ltac:(done) (q' :: parts) Hp) as (x & rest & ->).
    + apply starts_with_spec. exists t. apply chars_inj. rewrite Hrest.
      rewrite join_cons2, !chars_app in Hu. simpl in Hu.
      rewrite <- !(assoc_L (++)) in Hu. apply app_inv_head in Hu. simplify_eq/=.
      by rewrite !chars_app, <- !(assoc_L (++)).
    + by exists x, rest.
Qed.

(** ** Accepted configurations *)

Section accepted.
Context {HO : HashOrder string}.
Implicit Types p : SecurityPolicy.

Lemma validate_mounts_ok p mounts :
  validate_mounts p mounts = Ok tt <-> Forall (fun m => validate_mount p m = Ok tt) mounts.
Proof.
  induction mounts as [|m ms IH]; simpl; [by split|].
  unfold mbind, result_bind. destruct (validate_mount p m) as [[]|e] eqn:Hm.
  - rewrite IH, list.Forall_cons. naive_solver.
  - rewrite list.Forall_cons. split; [done|]. intros [? _]. congruence.
Qed.

Lemma validate_mount_ok p m :
  let normalized := PathBuf_to_string (normalize (mnt_source m)) in
  validate_mount p m = Ok tt <->
  contains ".." (mnt_source m) = false /\
  (forall forbidden, forbidden ∈ sp_forbidden_mount_paths p ->
     starts_with forbidden normalized = false) /\
  (sp_allow_docker_socket p = true \/
   contains "docker.sock" (mnt_source m) = false /\ contains "docker.sock" normalized = false) /\
  (exists prefix, prefix ∈ sp_allowed_mount_prefixes p /\ starts_with prefix normalized = true).
Proof.
  cbv zeta. unfold validate_mount. rewrite !check_bind_ok, check_ok.
  rewrite negb_true_iff, forallb_forall, existsb_exists, orb_true_iff, negb_true_iff, orb_false_iff.
  setoid_rewrite list_elem_of_In.
  assert (Hin : forall x, In x (key_order (sp_forbidden_mount_paths p)) <->
                          x ∈ sp_forbidden_mount_paths p).
  { intros x. rewrite <- list_elem_of_In, key_order_perm. apply elem_of_elements. }
  setoid_rewrite Hin. setoid_rewrite negb_true_iff. naive_solver.
Qed.

(** The directories of the mount prefixes of the default policy. *)
Definition mount_dirs : list (list string) :=
  [["tmp"]; ["var"; "lib"; "platform"]; ["var"; "lib"; "docker"; "volumes"]]%string.

Lemma default_prefix_dirs :
  sp_allowed_mount_prefixes SecurityPolicy_default = dir_prefix <$> mount_dirs.
Proof. done. Qed.

Lemma mount_dirs_ok dirs : dirs ∈ mount_dirs -> dirs <> [] /\ Forall slash_free dirs.
Proof.
  assert (Hall : Forall (fun dirs => dirs <> [] /\ Forall slash_free dirs) mount_dirs).
  { unfold slash_free. by_compute. }
  rewrite list.Forall_forall in Hall. auto.
Qed.

Lemma mount_confined p m :
  sp_allowed_mount_prefixes p = dir_prefix <$> mount_dirs -> validate_mount p m = Ok tt ->
  exists dirs x rest, dirs ∈ mount_dirs /\
    path_components (mnt_source m) = RootDir :: (Normal <$> dirs ++ x :: rest).
Proof.
  intros Hp Hv. apply validate_mount_ok in Hv as (Hdots & _ & _ & prefix & Hin & Hpre).
  rewrite Hp in Hin. apply list_elem_of_fmap in Hin as (dirs & -> & Hdirs).
  destruct (mount_dirs_ok dirs Hdirs) as [Hne Hfree].
  destruct (starts_with "/" (mnt_source m)) eqn:Habs.
  - destruct (normalize_absolute _ Hdots Habs) as (ns & Hcomp & Hnorm & Hns).
    rewrite Hnorm in Hpre. apply starts_with_spec in Hpre as [t Ht].
    unfold PathBuf_to_string, dir_prefix in Ht. simpl in Ht. injection Ht as Ht.
    destruct (starts_with_dirs dirs ns Hne Hfree Hns) as (x & rest & ->).
    { apply starts_with_spec. exists t. exact Ht. }
    by exists dirs, x, rest.
  - exfalso. apply starts_with_spec in Hpre as [t Ht].
    pose proof (normalize_relative _ Hdots Habs) as (ns & Hnorm & Hns).
    rewrite Hnorm in Ht. unfold PathBuf_to_string, dir_prefix in Ht. simpl in Ht.
    destruct Hns as [|n ns [Hn Hnn] _]; [done|].
    destruct n as [|a n]; [done|].
    assert (a = slash) as ->.
    { destruct ns; [rewrite join_one in Ht|rewrite join_cons2 in Ht]; by injection Ht. }
    apply Hn. unfold slash_free. simpl. left.
Qed.

Lemma policy_validate_ok p c :
  policy_validate p c = Ok tt <->
  validate_image p (cfg_image c) = Ok tt /\ validate_resources p (cfg_resources c) = Ok tt /\
  Forall (fun m => validate_mount p m = Ok tt) (cfg_mounts c) /\
  cfg_challenge_id c <> ""%string /\ cfg_owner_id c <> ""%string.
Proof.
  rewrite <- validate_mounts_ok. unfold policy_validate.
  destruct (validate_image p (cfg_image c)) as [[]|], (validate_resources p (cfg_resources c)) as [[]|],
    (validate_mounts p (cfg_mounts c)) as [[]|]; simpl; try naive_solver.
  unfold check, is_empty. repeat case_bool_decide; simpl; naive_solver.
Qed.

Lemma validate_image_ok p image :
  validate_image p image = Ok tt <->
  sp_allowed_image_prefixes p = [] \/
  exists prefix rest, prefix ∈ sp_allowed_image_prefixes p /\
    to_lowercase image = to_lowercase prefix +:+ rest.
Proof.
  unfold validate_image. destruct (sp_allowed_image_prefixes p) as [|q qs]; [naive_solver|].
  rewrite check_ok, existsb_exists. setoid_rewrite <- list_elem_of_In.
  setoid_rewrite starts_with_spec. naive_solver.
Qed.

Lemma validate_resources_ok p r :
  validate_resources p r = Ok tt <->
  rl_memory_bytes r <= sp_max_memory_bytes p /\
  f64_ltb (sp_max_cpu_cores p) (rl_cpu_cores r) = false /\ rl_pids_limit r <= sp_max_pids p.
Proof.
  unfold validate_resources. rewrite !check_bind_ok, check_ok, negb_true_iff.
  rewrite !Z.leb_le. tauto.
Qed.

(** A container the default or the strict policy accepts runs a whitelisted
    image within 8 GiB, 4 cores and 512 processes, names its challenge and its
    owner, and mounts only files strictly below the allowed directories: each
    mount source is an absolute path without parent steps that leads into one
    of them, however it is spelled, and never names the Docker socket. *)
Theorem accepted_container_confined p c :
  p = SecurityPolicy_default \/ p = strict ->
  policy_validate p c = Ok tt ->
  (exists prefix rest, prefix ∈ sp_allowed_image_prefixes p /\
     to_lowercase (cfg_image c) = prefix +:+ rest) /\
  rl_memory_bytes (cfg_resources c) <= 8589934592 /\
  f64_ltb (f64_of_Z 4) (rl_cpu_cores (cfg_resources c)) = false /\
  rl_pids_limit (cfg_resources c) <= 512 /\
  cfg_challenge_id c <> ""%string /\ cfg_owner_id c <> ""%string /\
  Forall (fun m => contains "docker.sock" (mnt_source m) = false /\
            exists dirs x rest, dirs ∈ mount_dirs /\
              path_components (mnt_source m) = RootDir :: (Normal <$> dirs ++ x :: rest))
    (cfg_mounts c).
Proof.
  intros Hp (Hi & Hr & Hm & Hc & Ho)%policy_validate_ok.
  assert (Hpre : sp_allowed_mount_prefixes p = dir_prefix <$> mount_dirs) by by destruct Hp as [->| ->].
  apply validate_resources_ok in Hr as (Hmem & Hcpu & Hpids).
  split.
  { apply validate_image_ok in Hi as [Hnil|(prefix & rest & Hin & Heq)];
      [by destruct Hp as [->| ->]|].
    exists prefix, rest. split; [done|]. rewrite Heq. f_equal.
    destruct Hp as [->| ->]; simpl in Hin; rewrite !elem_of_cons in Hin;
      destruct Hin as [->|Hin]; try done;
      [destruct Hin as [->|Hin]; [done|]|]; by apply not_elem_of_nil in Hin. }
  assert (Hlim : sp_max_memory_bytes p = 8589934592 /\ sp_max_cpu_cores p = f64_of_Z 4 /\
                 sp_max_pids p = 512 /\ sp_allow_docker_socket p = false)
    by by destruct Hp as [->| ->].
  destruct Hlim as (<- & <- & <- & Hsock). do 5 (split; [done|]).
  eapply list.Forall_impl; [exact Hm|]. intros m Hv. split; [|by eapply mount_confined].
  apply validate_mount_ok in Hv as (_ & _ & Hd & _). destruct Hd as [?|[? _]]; congruence.
Qed.
End accepted.

Module PolicyExamples.
Definition job_container : ContainerConfig :=
  mk_ContainerConfig "GHCR.io/PlatformNetwork/term:1" "term" "v1" None None ∅ None
    ResourceLimits_default NetworkConfig_default
    [mk_MountConfig "/tmp//./job/out" "/out" true] ∅ None.

Lemma accepted_container_confined_witness :
  policy_validate strict job_container = Ok tt /\
  Forall (fun m => exists dirs x rest, dirs ∈ mount_dirs /\
    path_components (mnt_source m) = RootDir :: (Normal <$> dirs ++ x :: rest))
    (cfg_mounts job_container).
Proof.
  assert (Hv : policy_validate strict job_container = Ok tt) by by_compute.
  split; [exact Hv|].
  destruct (accepted_container_confined strict job_container (or_intror eq_refl) Hv)
    as (_ & _ & _ & _ & _ & _ & Hm).
  eapply list.Forall_impl; [exact Hm|]. intros m [_ Hc]. exact Hc.
Defined.

(** The default policy's prefix for local builds admits images of any account
    of the public registry whose name starts with it. *)
Lemma local_prefix_admits_public_images :
  validate_image SecurityPolicy_default "platform-mallory/miner:latest" = Ok tt.
Proof. reflexivity. Qed.
End PolicyExamples.
