(* ===== verification/ContainerBroker.v ===== *)
(** * The container broker

    Models [crates/secure-container-runtime/src/protocol.rs], [broker.rs] and
    the request path of [ws_transport.rs]: the only component that talks to
    the Docker daemon.  The daemon's answers are the record [Docker], a
    parameter of every request; base64 and tar are the class [Archive].  The
    broker's state is what it tracks: containers per challenge and per owner,
    and the audit log.  Sockets, JSON and JWT validation are not modelled. *)

From Stdlib Require Import Ascii.
From S2P Require Import Prelude Float64 RustStrings ContainerPolicy.

(** ** Protocol *)

Inductive ContainerState : Type :=
| Creating | Running | Paused | Stopped | Removing | Dead | Unknown.

Record ContainerInfo : Type := mk_ContainerInfo {
  inf_id : string;
  inf_name : string;
  inf_challenge_id : string;
  inf_owner_id : string;
  inf_image : string;
  inf_state : ContainerState;
  inf_created_at : Z;
  inf_ports : gmap Z Z;
  inf_endpoint : option string;
  inf_labels : gmap string string
}.

Record ExecResult : Type := mk_ExecResult {
  ex_stdout : string;
  ex_stderr : string;
  ex_exit_code : Z;
  ex_duration_ms : Z;
  ex_timed_out : bool
}.

Inductive Request : Type :=
| Create (config : ContainerConfig) (request_id : string)
| Start (container_id request_id : string)
| Stop (container_id : string) (timeout_secs : Z) (request_id : string)
| Remove (container_id : string) (force : bool) (request_id : string)
| Exec (container_id : string) (command : list string) (working_dir : option string)
    (timeout_secs : Z) (request_id : string)
| Inspect (container_id request_id : string)
| ListContainers (challenge_id owner_id : option string) (request_id : string)
| Logs (container_id : string) (tail : nat) (request_id : string)
| Pull (image request_id : string)
| Build (tag dockerfile : string) (context : option string) (request_id : string)
| Ping (request_id : string)
| CopyFrom (container_id path request_id : string)
| CopyTo (container_id path data request_id : string).

Definition request_id_of (r : Request) : string :=
  match r with
  | Create _ i | Start _ i | Stop _ _ i | Remove _ _ i | Exec _ _ _ _ i | Inspect _ i
  | ListContainers _ _ i | Logs _ _ i | Pull _ i | Build _ _ _ i | Ping i | CopyFrom _ _ i
  | CopyTo _ _ _ i => i
  end.

Definition request_challenge_id (r : Request) : option string :=
  match r with
  | Create config _ => Some (cfg_challenge_id config)
  | ListContainers challenge_id _ _ => challenge_id
  | _ => None
  end.

Definition request_owner_id (r : Request) : option string :=
  match r with
  | Create config _ => Some (cfg_owner_id config)
  | ListContainers _ owner_id _ => owner_id
  | _ => None
  end.

Inductive Response : Type :=
| Created (container_id container_name request_id : string)
| Started (container_id : string) (ports : gmap Z Z) (endpoint : option string)
    (request_id : string)
| StoppedResponse (container_id request_id : string)
| Removed (container_id request_id : string)
| ExecResponse (result : ExecResult) (request_id : string)
| Info (info : ContainerInfo) (request_id : string)
| ContainerList (containers : list ContainerInfo) (request_id : string)
| LogsResult (logs request_id : string)
| Pulled (image request_id : string)
| Built (image_id logs request_id : string)
| Pong (version request_id : string)
| CopyFromResult (data : string) (size : nat) (request_id : string)
| CopyToResult (request_id : string)
| ErrorResponse (error : ContainerError) (request_id : string).

Definition response_id (r : Response) : string :=
  match r with
  | Created _ _ i | Started _ _ _ i | StoppedResponse _ i | Removed _ i | ExecResponse _ i
  | Info _ i | ContainerList _ i | LogsResult _ i | Pulled _ i | Built _ _ i | Pong _ i
  | CopyFromResult _ _ i | CopyToResult i | ErrorResponse _ i => i
  end.

Definition is_error (r : Response) : bool :=
  match r with ErrorResponse _ _ => true | _ => false end.

(** ** The daemon *)

Inductive DockerFailure : Type :=
| ServerError (status : Z) (msg : string)
| OtherFailure (msg : string).

Definition docker_text (e : DockerFailure) : string :=
  match e with ServerError _ m | OtherFailure m => m end.

Record PortBinding : Type := mk_PortBinding { pbi_host_ip : string; pbi_host_port : string }.
Record Mount : Type := mk_Mount { mo_target : string; mo_source : string; mo_read_only : bool }.

Record HostConfig : Type := mk_HostConfig {
  hc_memory : Z;
  hc_nano_cpus : Z;
  hc_pids_limit : Z;
  hc_network_mode : string;
  hc_port_bindings : gmap string (list PortBinding);
  hc_mounts : list Mount;
  hc_privileged : bool;
  hc_auto_remove : bool
}.

Record DockerConfig : Type := mk_DockerConfig {
  dc_image : string;
  dc_hostname : string;
  dc_cmd : option (list string);
  dc_working_dir : option string;
  dc_env : list string;
  dc_user : option string;
  dc_labels : gmap string string;
  dc_host_config : HostConfig
}.

Inductive DockerStatus : Type := DRunning | DPaused | DExited | DDead | DOther.

(** What [inspect_container] reports; [ii_created] is the parsed time stamp,
    a port has a list of optional host ports. *)
Record InspectInfo : Type := mk_InspectInfo {
  ii_status : option DockerStatus;
  ii_name : option string;
  ii_labels : option (gmap string string);
  ii_image : option string;
  ii_created : option Z;
  ii_ports : list (string * option (list (option string)))
}.

(** One item of a build's output: text, an image id, an error. *)
Record BuildInfo : Type := mk_BuildInfo {
  bi_stream : option string;
  bi_aux_id : option string;
  bi_error : option string
}.

(** [dk_exec] is the output and exit code of a command, [None] when it did not
    end in time. *)
Record Docker : Type := mk_Docker {
  dk_inspect_image : string -> result DockerFailure unit;
  dk_create_image : string -> list (result DockerFailure unit);
  dk_create_container : string -> DockerConfig -> result DockerFailure string;
  dk_start_container : string -> result DockerFailure unit;
  dk_stop_container : string -> Z -> result DockerFailure unit;
  dk_remove_container : string -> bool -> result DockerFailure unit;
  dk_create_exec : string -> list string -> option string -> result DockerFailure string;
  dk_exec : string -> option (result DockerFailure (string * string * option Z));
  dk_exec_ms : string -> Z;
  dk_inspect_container : string -> result DockerFailure InspectInfo;
  dk_list_containers : list string -> result DockerFailure (list (option string));
  dk_logs : string -> string -> list (result DockerFailure string);
  dk_build_image : string -> list Z -> list (result DockerFailure BuildInfo);
  dk_download : string -> string -> result DockerFailure (list Z);
  dk_upload : string -> string -> list Z -> result DockerFailure unit
}.

(** base64 and tar, with the texts of their errors.  [tar_first_file] is the
    contents of the first entry, if there is one. *)
Class Archive : Type := {
  base64_decode : string -> result string (list Z);
  base64_encode : list Z -> string;
  tar_single : string -> Z -> list Z -> result ErrorText (list Z);
  tar_first_file : list Z -> result ErrorText (option (list Z))
}.

(** ** The broker *)

Inductive AuditAction : Type :=
| ContainerCreate | ContainerStart | ContainerStop | ContainerRemove | ContainerExec
| ImagePull | ImageBuild | PolicyViolation.

(** The error text of an entry is kept as the error it shows. *)
Record AuditEntry : Type := mk_AuditEntry {
  ae_timestamp : Z;
  ae_action : AuditAction;
  ae_challenge_id : string;
  ae_owner_id : string;
  ae_container_id : option string;
  ae_success : bool;
  ae_error : option ContainerError
}.

Record ContainerBroker : Type := mk_ContainerBroker {
  br_policy : SecurityPolicy;
  br_network_name : string;
  br_by_challenge : gmap string (list string);
  br_by_owner : gmap string (list string);
  br_audit_log : list AuditEntry
}.

Definition ContainerBroker_with_policy (policy : SecurityPolicy) : ContainerBroker :=
  mk_ContainerBroker policy "platform-network" ∅ ∅ [].

Definition set_tracking (by_challenge by_owner : gmap string (list string)) (b : ContainerBroker) :
    ContainerBroker :=
  mk_ContainerBroker (br_policy b) (br_network_name b) by_challenge by_owner (br_audit_log b).
Definition set_audit_log (l : list AuditEntry) (b : ContainerBroker) : ContainerBroker :=
  mk_ContainerBroker (br_policy b) (br_network_name b) (br_by_challenge b) (br_by_owner b) l.

Definition audit (now : Z) (action : AuditAction) (challenge_id owner_id : string)
    (container_id : option string) (success : bool) (error : option ContainerError)
    (b : ContainerBroker) : ContainerBroker :=
  let log := br_audit_log b ++
    [mk_AuditEntry now action challenge_id owner_id container_id success error] in
  set_audit_log (if 10000 <? Z.of_nat (length log) then drop 1000 log else log) b.

(** The number of tracked containers of a key. *)
Definition tracked (m : gmap string (list string)) (key : string) : nat :=
  length (default [] (m !! key)).

Definition track (key id : string) (m : gmap string (list string)) : gmap string (list string) :=
  <[key := default [] (m !! key) ++ [id]]> m.

Definition untrack (id : string) (m : gmap string (list string)) : gmap string (list string) :=
  filter (fun id' => id' <> id) <$> m.

Definition BROKER_VERSION : string := "0.1.0".

(** The first failure of a progress stream. *)
Fixpoint run_stream (l : list (result DockerFailure unit)) : result DockerFailure unit :=
  match l with
  | [] => Ok tt
  | Ok _ :: l' => run_stream l'
  | Err e :: _ => Err e
  end.

Definition ensure_image (d : Docker) (image : string) : result string unit :=
  match dk_inspect_image d image with
  | Ok _ => Ok tt
  | Err (ServerError 404 _) =>
      match run_stream (dk_create_image d image) with
      | Ok _ => Ok tt
      | Err e => Err ("Failed to pull image: " +:+ docker_text e)%string
      end
  | Err e => Err ("Failed to inspect image: " +:+ docker_text e)%string
  end.

Section broker.
Context {HS : HashOrder string}.

(** ** Creating a container *)

(** [name] is the fresh suffix of a generated name. *)
Definition container_name (uuid8 : string) (config : ContainerConfig) : string :=
  match cfg_name config with
  | Some n => n
  | None => ("platform-" +:+
              replace_char " "%char "-"%char (to_lowercase (cfg_challenge_id config)) +:+
              "-" +:+ uuid8)%string
  end.

Definition container_labels (config : ContainerConfig) : gmap string string :=
  <["platform.managed" := "true"]>
  (<["platform.broker.version" := BROKER_VERSION]>
  (<["platform.created-by" := "secure-container-runtime"]>
  (<["platform.owner.id" := cfg_owner_id config]>
  (<["platform.challenge.id" := cfg_challenge_id config]> (cfg_labels config)))))%string.

Definition port_bindings (ports : gmap Z Z) : gmap string (list PortBinding) :=
  list_to_map ((fun '(cp, hp) =>
    ((Z_to_string cp +:+ "/tcp")%string,
     [mk_PortBinding "127.0.0.1" (if hp =? 0 then "0"%string else Z_to_string hp)]))
    <$> map_to_list ports).

Definition network_mode (network_name : string) (m : NetworkMode) : string :=
  match m with
  | NetNone => "none"
  | NetBridge => "bridge"
  | NetIsolated => network_name
  end.

Definition host_config (network_name : string) (config : ContainerConfig) : HostConfig :=
  {| hc_memory := rl_memory_bytes (cfg_resources config);
     hc_nano_cpus := f64_as_i64 (f64_mul (rl_cpu_cores (cfg_resources config))
                                         (f64_of_Z 1000000000));
     hc_pids_limit := rl_pids_limit (cfg_resources config);
     hc_network_mode := network_mode network_name (net_mode (cfg_network config));
     hc_port_bindings := port_bindings (net_ports (cfg_network config));
     hc_mounts := (fun m => mk_Mount (mnt_target m) (mnt_source m) (mnt_read_only m))
                    <$> cfg_mounts config;
     hc_privileged := false;
     hc_auto_remove := false |}.

Definition docker_config (network_name uuid8 : string) (config : ContainerConfig) : DockerConfig :=
  {| dc_image := cfg_image config;
     dc_hostname := container_name uuid8 config;
     dc_cmd := cfg_cmd config;
     dc_working_dir := cfg_working_dir config;
     dc_env := (fun '(k, v) => k +:+ "=" +:+ v)%string <$> hm_iter (cfg_env config);
     dc_user := cfg_user config;
     dc_labels := container_labels config;
     dc_host_config := host_config network_name config |}.

(** The checks before the daemon is asked, which read the state only. *)
Definition admit_container (d : Docker) (config : ContainerConfig) (b : ContainerBroker) :
    result (AuditAction * ContainerError + ContainerError) unit :=
  match policy_validate (br_policy b) config with
  | Err e => Err (inl (ContainerCreate, e))
  | Ok _ =>
      match ensure_image d (cfg_image config) with
      | Err e => Err (inl (ImagePull, DockerError (Text e)))
      | Ok _ =>
          match check_container_limit (br_policy b) (cfg_challenge_id config)
                  (tracked (br_by_challenge b) (cfg_challenge_id config)) with
          | Err e => Err (inr e)
          | Ok _ =>
              match check_owner_limit (br_policy b) (cfg_owner_id config)
                      (tracked (br_by_owner b) (cfg_owner_id config)) with
              | Err e => Err (inr e)
              | Ok _ => Ok tt
              end
          end
      end
  end.

(** What happens once the daemon has answered.  Docker's ids have 64
    hexadecimal digits: the slice of the first 12 bytes is in range. *)
Definition track_container (now : Z) (config : ContainerConfig)
    (answer : result DockerFailure string) (b : ContainerBroker) :
    result ContainerError string * ContainerBroker :=
  match answer with
  | Ok id =>
      let container_id := String.substring 0 12 id in
      let b := set_tracking (track (cfg_challenge_id config) container_id (br_by_challenge b))
                 (track (cfg_owner_id config) container_id (br_by_owner b)) b in
      (Ok container_id,
       audit now ContainerCreate (cfg_challenge_id config) (cfg_owner_id config)
         (Some container_id) true None b)
  | Err e =>
      let e := DockerError (Text (docker_text e)) in
      (Err e, audit now ContainerCreate (cfg_challenge_id config) (cfg_owner_id config)
                None false (Some e) b)
  end.

Definition create_container (d : Docker) (now : Z) (uuid8 : string) (config : ContainerConfig)
    (request_id : string) (b : ContainerBroker) : Response * ContainerBroker :=
  match admit_container d config b with
  | Err (inl (action, e)) =>
      (ErrorResponse e request_id,
       audit now action (cfg_challenge_id config) (cfg_owner_id config) None false (Some e) b)
  | Err (inr e) => (ErrorResponse e request_id, b)
  | Ok _ =>
      let name := container_name uuid8 config in
      let '(r, b) := track_container now config
        (dk_create_container d name (docker_config (br_network_name b) uuid8 config)) b in
      match r with
      | Ok id => (Created id name request_id, b)
      | Err e => (ErrorResponse e request_id, b)
      end
  end.

(** ** Other requests *)

Definition docker_error (e : DockerFailure) (request_id : string) : Response :=
  ErrorResponse (DockerError (Text (docker_text e))) request_id.

Definition u16_limit : Z := 65535.

(** The host ports of one container port, later bindings replacing earlier. *)
Definition add_bindings (container_port : string) (bindings : list (option string))
    (ports : gmap Z Z) : gmap Z Z :=
  fold_left (fun ports binding =>
    match binding ≫= parse_uint u16_limit with
    | Some hp =>
        let cp := default 0 (head (split slash container_port) ≫= parse_uint u16_limit) in
        <[cp := hp]> ports
    | None => ports
    end) bindings ports.

Definition get_container_ports (d : Docker) (container_id : string) : gmap Z Z :=
  match dk_inspect_container d container_id with
  | Err _ => ∅
  | Ok info =>
      fold_left (fun ports '(cp, bindings) =>
        match bindings with Some l => add_bindings cp l ports | None => ports end)
        (ii_ports info) ∅
  end.

Definition start_container (d : Docker) (container_id request_id : string) : Response :=
  match dk_start_container d container_id with
  | Ok _ =>
      let ports := get_container_ports d container_id in
      Started container_id ports
        ((fun p => "http://localhost:" +:+ Z_to_string p)%string <$> ports !! 8080) request_id
  | Err e => docker_error e request_id
  end.

Definition stop_container (d : Docker) (container_id : string) (timeout_secs : Z)
    (request_id : string) : Response :=
  match dk_stop_container d container_id timeout_secs with
  | Ok _ => StoppedResponse container_id request_id
  | Err (ServerError 304 _) => StoppedResponse container_id request_id
  | Err e => docker_error e request_id
  end.

Definition remove_container (d : Docker) (container_id : string) (force : bool)
    (request_id : string) (b : ContainerBroker) : Response * ContainerBroker :=
  match dk_remove_container d container_id force with
  | Ok _ =>
      (Removed container_id request_id,
       set_tracking (untrack container_id (br_by_challenge b))
         (untrack container_id (br_by_owner b)) b)
  | Err (ServerError 404 _) => (Removed container_id request_id, b)
  | Err e => (docker_error e request_id, b)
  end.

Definition exec_in_container (d : Docker) (container_id : string) (command : list string)
    (working_dir : option string) (request_id : string) : Response :=
  match dk_create_exec d container_id command working_dir with
  | Err e => docker_error e request_id
  | Ok exec_id =>
      let ms := dk_exec_ms d exec_id in
      match dk_exec d exec_id with
      | Some (Ok (stdout, stderr, code)) =>
          ExecResponse (mk_ExecResult stdout stderr (default (-1) code) ms false) request_id
      | Some (Err e) => docker_error e request_id
      | None => ExecResponse (mk_ExecResult "" "Command timed out" (-1) ms true) request_id
      end
  end.

Definition container_state (s : option DockerStatus) : ContainerState :=
  match s with
  | Some DRunning => Running
  | Some DPaused => Paused
  | Some DExited => Stopped
  | Some DDead => Dead
  | _ => Unknown
  end.

Fixpoint trim_start_slash (l : list ascii) : list ascii :=
  match l with
  | a :: l' => if decide (a = slash) then trim_start_slash l' else l
  | [] => []
  end.

Definition container_info (d : Docker) (now : Z) (container_id : string) (info : InspectInfo) :
    ContainerInfo :=
  let labels := default ∅ (ii_labels info) in
  {| inf_id := container_id;
     inf_name := String.string_of_list_ascii
       (trim_start_slash (String.list_ascii_of_string (default ""%string (ii_name info))));
     inf_challenge_id := default ""%string (labels !! "platform.challenge.id"%string);
     inf_owner_id := default ""%string (labels !! "platform.owner.id"%string);
     inf_image := default ""%string (ii_image info);
     inf_state := container_state (ii_status info);
     inf_created_at := default now (ii_created info);
     inf_ports := get_container_ports d container_id;
     inf_endpoint := None;
     inf_labels := labels |}.

Definition inspect_container (d : Docker) (now : Z) (container_id request_id : string) : Response :=
  match dk_inspect_container d container_id with
  | Ok info => Info (container_info d now container_id info) request_id
  | Err (ServerError 404 _) => ErrorResponse (ContainerNotFound container_id) request_id
  | Err e => docker_error e request_id
  end.

Definition short_id (id : string) : string :=
  if (12 <=? String.length id)%nat then String.substring 0 12 id else id.

Definition list_containers (d : Docker) (now : Z) (challenge_id owner_id : option string)
    (request_id : string) : Response :=
  let filters := ["platform.managed=true"%string] ++
    (match challenge_id with Some c => ["platform.challenge.id=" +:+ c]%string | None => [] end) ++
    (match owner_id with Some o => ["platform.owner.id=" +:+ o]%string | None => [] end) in
  match dk_list_containers d filters with
  | Ok ids =>
      ContainerList (omap (fun id : option string =>
        id ← id;
        match inspect_container d now (short_id id) "" with
        | Info info _ => Some info
        | _ => None
        end) ids) request_id
  | Err e => docker_error e request_id
  end.

(** The chunks up to the first error. *)
Fixpoint collect_logs (l : list (result DockerFailure string)) : string :=
  match l with
  | Ok chunk :: l' => (chunk +:+ collect_logs l')%string
  | _ => ""
  end.

Definition get_logs (d : Docker) (container_id : string) (tail : nat) (request_id : string) :
    Response :=
  LogsResult (collect_logs (dk_logs d container_id (Z_to_string (Z.of_nat tail)))) request_id.

Definition pull_image (d : Docker) (now : Z) (image request_id : string) (b : ContainerBroker) :
    Response * ContainerBroker :=
  match validate_image (br_policy b) image with
  | Err e => (ErrorResponse e request_id, audit now ImagePull "" "" None false (Some e) b)
  | Ok _ =>
      match run_stream (dk_create_image d image) with
      | Err e => (docker_error e request_id, b)
      | Ok _ => (Pulled image request_id, audit now ImagePull "" "" None true None b)
      end
  end.

Definition build_tag_allowed (tag : string) : bool :=
  starts_with "term-compiler:" tag || starts_with "ghcr.io/" tag.

Inductive BuildOutcome : Type :=
| BuildDone (image_id logs : string)
| BuildReported (error : string)
| BuildBroken (e : DockerFailure).

Fixpoint run_build (l : list (result DockerFailure BuildInfo)) (image_id logs : string) :
    BuildOutcome :=
  match l with
  | [] => BuildDone image_id logs
  | Err e :: _ => BuildBroken e
  | Ok info :: l' =>
      let logs := (logs +:+ default "" (bi_stream info))%string in
      let image_id := default image_id (bi_aux_id info) in
      match bi_error info with
      | Some error => BuildReported error
      | None => run_build l' image_id logs
      end
  end.

Context `{Archive}.

Definition build_image (d : Docker) (now : Z) (tag dockerfile : string) (context : option string)
    (request_id : string) (b : ContainerBroker) : Response * ContainerBroker :=
  if negb (build_tag_allowed tag) then
    let e := PolicyViolationError (Text ("Image tag not allowed: " +:+ tag)) in
    (ErrorResponse e request_id, audit now ImageBuild "" "" None false (Some e) b)
  else
    match (match context with Some ctx => base64_decode ctx | None => Ok [] end) with
    | Err e =>
        (ErrorResponse (InvalidConfig (Text ("Invalid base64 context: " +:+ e))) request_id, b)
    | Ok tar =>
        match base64_decode dockerfile with
        | Err e =>
            (ErrorResponse (InvalidConfig (Text ("Invalid base64 dockerfile: " +:+ e))) request_id, b)
        | Ok content =>
            match (match tar with [] => tar_single "Dockerfile" 420 content | _ => Ok tar end) with
            | Err e => (ErrorResponse (InternalError e) request_id, b)
            | Ok tar =>
                match run_build (dk_build_image d tag tar) "" "" with
                | BuildReported error =>
                    (ErrorResponse (DockerError (Text ("Build failed: " +:+ error))) request_id,
                     audit now ImageBuild "" "" None false (Some (DockerError (Text error))) b)
                | BuildBroken e =>
                    (ErrorResponse (DockerError (Text ("Build error: " +:+ docker_text e)))
                       request_id, b)
                | BuildDone image_id logs =>
                    (Built image_id logs request_id,
                     audit now ImageBuild "" "" (Some image_id) true None b)
                end
            end
        end
    end.

Definition copy_from_container (d : Docker) (container_id path request_id : string) : Response :=
  match dk_download d container_id path with
  | Err e => ErrorResponse (DockerError
      (Text ("Failed to download from container: " +:+ docker_text e))) request_id
  | Ok tar =>
      match tar_first_file tar with
      | Err e => ErrorResponse (DockerError e) request_id
      | Ok file =>
          let file := default [] file in
          CopyFromResult (base64_encode file) (length file) request_id
      end
  end.

(** [Path::parent] and [Path::file_name], with the defaults of the source; the
    parent is rebuilt from its components, without repeated separators. *)
Definition path_of (comps : list Component) : string :=
  PathBuf_to_string (fold_left (fun acc c =>
    match c with
    | RootDir => PathBuf_push_root acc
    | CurDir => PathBuf_push "." acc
    | ParentDir => PathBuf_push ".." acc
    | Normal s => PathBuf_push s acc
    end) comps PathBuf_new).

Definition parent_dir (path : string) : string :=
  match rev (path_components path) with
  | RootDir :: _ | [] => "/"
  | _ :: comps => path_of (rev comps)
  end.

Definition file_name (path : string) : string :=
  match rev (path_components path) with
  | Normal s :: _ => s
  | _ => "file"
  end.

Definition copy_to_container (d : Docker) (container_id path data request_id : string) : Response :=
  match base64_decode data with
  | Err e => ErrorResponse (InvalidConfig (Text ("Invalid base64 data: " +:+ e))) request_id
  | Ok file =>
      match tar_single (file_name path) 493 file with
      | Err e => ErrorResponse (DockerError e) request_id
      | Ok tar =>
          match dk_upload d container_id (parent_dir path) tar with
          | Ok _ => CopyToResult request_id
          | Err e => ErrorResponse (DockerError
              (Text ("Failed to upload to container: " +:+ docker_text e))) request_id
          end
      end
  end.

Definition handle_request (d : Docker) (now : Z) (uuid8 : string) (r : Request)
    (b : ContainerBroker) : Response * ContainerBroker :=
  match r with
  | Ping i => (Pong BROKER_VERSION i, b)
  | Create config i => create_container d now uuid8 config i b
  | Start c i => (start_container d c i, b)
  | Stop c t i => (stop_container d c t i, b)
  | Remove c force i => remove_container d c force i b
  | Exec c command dir _ i => (exec_in_container d c command dir i, b)
  | Inspect c i => (inspect_container d now c i, b)
  | ListContainers ch o i => (list_containers d now ch o i, b)
  | Logs c tail i => (get_logs d c tail i, b)
  | Pull image i => pull_image d now image i b
  | Build tag dockerfile context i => build_image d now tag dockerfile context i b
  | CopyFrom c path i => (copy_from_container d c path i, b)
  | CopyTo c path data i => (copy_to_container d c path data i, b)
  end.

(** ** Requests over WebSocket *)

Record WsConnection : Type := mk_WsConnection {
  ws_challenge_id : string;
  ws_owner_id : string;
  ws_authenticated : bool
}.

Definition process_request (d : Docker) (now : Z) (uuid8 : string) (conn : WsConnection)
    (r : Request) (b : ContainerBroker) : Response * ContainerBroker :=
  match request_challenge_id r with
  | Some req =>
      if negb (is_empty (ws_challenge_id conn)) && negb (bool_decide (req = ws_challenge_id conn))
      then (ErrorResponse (UnauthorizedError (Text ("Challenge mismatch: authenticated as " +:+
              ws_challenge_id conn +:+ ", requested " +:+ req))) (request_id_of r), b)
      else handle_request d now uuid8 r b
  | None => handle_request d now uuid8 r b
  end.
End broker.
