(* ===== verification/ContainerBrokerProps.v ===== *)
(** * What the container broker guarantees

    Requests handled one at a time keep the container limits; handled
    concurrently, as the server does, they exceed them by at most the other
    creations under way, whose number nothing bounds.  The daemon is only asked
    for containers the policy allows; answers carry the id of their request;
    clients are not isolated from each other's containers. *)

From S2P Require Import Prelude Float64 RustStrings ContainerPolicy ContainerBroker.

Section broker_props.
Context {HS : HashOrder string} `{Archive}.
Implicit Types (d : Docker) (b : ContainerBroker).

(** ** Tracking *)

Lemma tracked_track key id m key' :
  tracked (track key id m) key' =
  if decide (key' = key) then S (tracked m key) else tracked m key'.
Proof.
  unfold tracked, track. case_decide as Hk.
  - subst. rewrite lookup_insert_eq. simpl. rewrite length_app. simpl. lia.
  - by rewrite lookup_insert_ne.
Qed.

Lemma tracked_untrack id m key : (tracked (untrack id m) key <= tracked m key)%nat.
Proof.
  unfold tracked, untrack. rewrite lookup_fmap. destruct (m !! key); simpl; [|done].
  apply length_filter.
Qed.

(** What a request that tracks no container does to the broker: nothing is
    tracked that was not, and the audit log stays within its bound. *)
Record frees b b' : Prop := {
  fr_policy : br_policy b' = br_policy b;
  fr_challenge : forall c, (tracked (br_by_challenge b') c <= tracked (br_by_challenge b) c)%nat;
  fr_owner : forall o, (tracked (br_by_owner b') o <= tracked (br_by_owner b) o)%nat;
  fr_audit : Z.of_nat (length (br_audit_log b)) <= 10000 ->
    Z.of_nat (length (br_audit_log b')) <= 10000
}.

Lemma frees_refl b : frees b b.
Proof. by split. Qed.

Lemma audit_bounded now action c o id ok e b :
  Z.of_nat (length (br_audit_log b)) <= 10000 ->
  Z.of_nat (length (br_audit_log (audit now action c o id ok e b))) <= 10000.
Proof.
  intros Ha. simpl.
  destruct (Z.ltb_spec 10000 (Z.of_nat (length (br_audit_log b ++
    [mk_AuditEntry now action c o id ok e])))) as [Hlt|Hge]; [|done].
  rewrite length_drop, length_app in *. cbn [length] in *. lia.
Qed.

Lemma audit_frees now action c o id ok e b : frees b (audit now action c o id ok e b).
Proof. split; [done..|]. apply audit_bounded. Qed.

Lemma admit_container_ok d config b :
  admit_container d config b = Ok tt ->
  policy_validate (br_policy b) config = Ok tt /\
  (tracked (br_by_challenge b) (cfg_challenge_id config)
     < sp_max_containers_per_challenge (br_policy b))%nat /\
  (tracked (br_by_owner b) (cfg_owner_id config)
     < sp_max_containers_per_owner (br_policy b))%nat.
Proof.
  unfold admit_container, check_container_limit, check_owner_limit, check.
  destruct (policy_validate _ _) as [[]|]; [|done].
  destruct (ensure_image _ _) as [[]|]; [|done].
  destruct (Nat.ltb_spec (tracked (br_by_challenge b) (cfg_challenge_id config))
    (sp_max_containers_per_challenge (br_policy b))); [|done].
  destruct (Nat.ltb_spec (tracked (br_by_owner b) (cfg_owner_id config))
    (sp_max_containers_per_owner (br_policy b))); [|done]. done.
Qed.

Lemma request_frees d now uuid8 r b :
  (forall config i, r = Create config i -> admit_container d config b <> Ok tt) ->
  frees b (handle_request d now uuid8 r b).2.
Proof.
  intros Hr. destruct r; simpl; try apply frees_refl.
  - specialize (Hr _ _ eq_refl). unfold create_container.
    destruct (admit_container d config b) as [[]|[[action e]|e]]; [done|apply audit_frees|apply frees_refl].
  - assert (Hun : forall id, frees b (set_tracking (untrack id (br_by_challenge b))
                               (untrack id (br_by_owner b)) b))
      by (intros id; split; simpl; [done|intros k; apply tracked_untrack..|done]).
    unfold remove_container. repeat case_match; simpl; auto using frees_refl.
  - unfold pull_image. repeat case_match; cbn [snd]; auto using frees_refl, audit_frees.
  - unfold build_image. repeat case_match; cbn [snd]; auto using frees_refl, audit_frees.
Qed.

(** ** Concurrent clients

    The server runs one task per client and the locks are held for one access
    each: between the checks of a creation and the tracking of its container
    the daemon works and other requests run.  A creation under way has had its
    challenge's count checked, or its owner's too, or has its container tracked
    for the challenge but not yet for the owner. *)

Inductive Creation : Type :=
| Checking (config : ContainerConfig)
| Creating (config : ContainerConfig)
| Tracking (config : ContainerConfig) (container_id : string).

Inductive concurrent_step : ContainerBroker * list Creation ->
    ContainerBroker * list Creation -> Prop :=
| CheckChallenge d config b l :
    policy_validate (br_policy b) config = Ok tt ->
    ensure_image d (cfg_image config) = Ok tt ->
    check_container_limit (br_policy b) (cfg_challenge_id config)
      (tracked (br_by_challenge b) (cfg_challenge_id config)) = Ok tt ->
    concurrent_step (b, l) (b, Checking config :: l)
| CheckOwner config b l1 l2 :
    check_owner_limit (br_policy b) (cfg_owner_id config)
      (tracked (br_by_owner b) (cfg_owner_id config)) = Ok tt ->
    concurrent_step (b, l1 ++ Checking config :: l2) (b, l1 ++ Creating config :: l2)
| OwnerRefused config e b l1 l2 :
    check_owner_limit (br_policy b) (cfg_owner_id config)
      (tracked (br_by_owner b) (cfg_owner_id config)) = Err e ->
    concurrent_step (b, l1 ++ Checking config :: l2) (b, l1 ++ l2)
| DaemonFailed now config e b l1 l2 :
    concurrent_step (b, l1 ++ Creating config :: l2)
      ((track_container now config (Err e) b).2, l1 ++ l2)
| TrackChallenge config id b l1 l2 :
    concurrent_step (b, l1 ++ Creating config :: l2)
      (set_tracking (track (cfg_challenge_id config) (String.substring 0 12 id) (br_by_challenge b))
         (br_by_owner b) b,
       l1 ++ Tracking config (String.substring 0 12 id) :: l2)
| TrackOwner now config id b l1 l2 :
    concurrent_step (b, l1 ++ Tracking config id :: l2)
      (audit now ContainerCreate (cfg_challenge_id config) (cfg_owner_id config) (Some id) true None
         (set_tracking (br_by_challenge b) (track (cfg_owner_id config) id (br_by_owner b)) b),
       l1 ++ l2)
| OtherRequest d now uuid8 r b l :
    (forall config i, r = Create config i -> admit_container d config b <> Ok tt) ->
    concurrent_step (b, l) ((handle_request d now uuid8 r b).2, l).

(** Steps that leave at most [S k] creations under way. *)
Definition step_within (k : nat) (s s' : ContainerBroker * list Creation) : Prop :=
  concurrent_step s s' /\ (length s'.2 <= S k)%nat.

(** A sequence of requests, each with the daemon's answers at its time. *)
Inductive broker_step : ContainerBroker -> ContainerBroker -> Prop :=
| BrokerStep d now uuid8 r b : broker_step b (handle_request d now uuid8 r b).2.

(** Requests handled one after the other are concurrent runs with at most one
    creation under way. *)
Lemma create_alone d now uuid8 config i b :
  admit_container d config b = Ok tt ->
  rtc (step_within 0) (b, []) ((create_container d now uuid8 config i b).2, []).
Proof.
  intros Ha. unfold create_container. rewrite Ha.
  unfold admit_container in Ha.
  destruct (policy_validate _ _) as [[]|] eqn:Hp; [|done].
  destruct (ensure_image _ _) as [[]|] eqn:Hi; [|done].
  destruct (check_container_limit _ _ _) as [[]|] eqn:Hc; [|done].
  destruct (check_owner_limit _ _ _) as [[]|] eqn:Ho; [|done].
  eapply rtc_l; [split; [by apply (CheckChallenge d config b [])|simpl; lia]|].
  eapply rtc_l; [split; [by apply (CheckOwner config b [] [])|simpl; lia]|].
  destruct (dk_create_container _ _ _) as [id|e]; simpl.
  - eapply rtc_l; [split; [by apply (TrackChallenge config id b [] [])|simpl; lia]|].
    apply rtc_once. split; [|simpl; lia].
    refine (TrackOwner now config _ (set_tracking _ (br_by_owner b) b) [] []).
  - apply rtc_once. split; [apply (DaemonFailed now config e b [] [])|simpl; lia].
Qed.

Lemma sequential_is_concurrent b b' :
  rtc broker_step b b' -> rtc (step_within 0) (b, []) (b', []).
Proof.
  induction 1 as [|b1 ? b3 [d now uuid8 r b] _ IH]; [constructor|]. etransitivity; [|exact IH].
  destruct r; try (apply rtc_once; split; [by apply (OtherRequest d now uuid8)|simpl; lia]).
  destruct (admit_container d config b) as [[]|e] eqn:Ha; [by apply create_alone|].
  apply rtc_once. split; [|simpl; lia]. apply (OtherRequest d now uuid8). intros ? ? [= <- <-]. by rewrite Ha.
Qed.

(** The creations under way that count for a challenge or an owner: those that
    passed its check and are not tracked for it yet. *)
Definition for_challenge (c : string) (x : Creation) : bool :=
  match x with
  | Checking config | Creating config => bool_decide (cfg_challenge_id config = c)
  | Tracking _ _ => false
  end.
Definition for_owner (o : string) (x : Creation) : bool :=
  match x with
  | Checking _ => false
  | Creating config | Tracking config _ => bool_decide (cfg_owner_id config = o)
  end.
Definition under_way (f : Creation -> bool) (l : list Creation) : nat := length (List.filter f l).

Lemma under_way_middle f l1 x l2 :
  under_way f (l1 ++ x :: l2) = (Nat.b2n (f x) + under_way f (l1 ++ l2))%nat.
Proof.
  unfold under_way. rewrite !List.filter_app, !length_app. simpl. destruct (f x); simpl; lia.
Qed.

Lemma under_way_cons f x l : under_way f (x :: l) = (Nat.b2n (f x) + under_way f l)%nat.
Proof. apply (under_way_middle f [] x l). Qed.

Lemma under_way_le f l : (under_way f l <= length l)%nat.
Proof. apply List.filter_length_le. Qed.

Record concurrent_inv (policy : SecurityPolicy) (k : nat) (s : ContainerBroker * list Creation) :
    Prop := {
  ci_policy : br_policy s.1 = policy;
  ci_challenge : forall c, (tracked (br_by_challenge s.1) c + under_way (for_challenge c) s.2
    <= sp_max_containers_per_challenge policy + k)%nat;
  ci_owner : forall o, (tracked (br_by_owner s.1) o + under_way (for_owner o) s.2
    <= sp_max_containers_per_owner policy + k)%nat;
  ci_audit : Z.of_nat (length (br_audit_log s.1)) <= 10000
}.

Lemma frees_inv policy k b b' l :
  frees b b' -> concurrent_inv policy k (b, l) -> concurrent_inv policy k (b', l).
Proof.
  intros [Hp Hc Ho Ha] [Ip Ic Io Ia]. cbn [fst snd] in *. split; cbn [fst snd]; [congruence| | |auto].
  - intros c. specialize (Hc c). specialize (Ic c). lia.
  - intros o. specialize (Ho o). specialize (Io o). lia.
Qed.

(** A creation that is given up no longer counts. *)
Lemma given_up_inv policy k b l1 x l2 :
  concurrent_inv policy k (b, l1 ++ x :: l2) -> concurrent_inv policy k (b, l1 ++ l2).
Proof.
  intros [Ip Ic Io Ia]. cbn [fst snd] in *. split; cbn [fst snd]; [done| | |done].
  - intros c. specialize (Ic c). rewrite under_way_middle in Ic. lia.
  - intros o. specialize (Io o). rewrite under_way_middle in Io. lia.
Qed.

Lemma limit_passed n m e : check (n <? m)%nat e = Ok tt -> (n < m)%nat.
Proof. by intros ?%check_ok%Nat.ltb_lt. Qed.

Lemma concurrent_step_inv policy k s s' :
  step_within k s s' -> concurrent_inv policy k s -> concurrent_inv policy k s'.
Proof.
  intros [Hstep Hlen] Hinv.
  destruct Hstep as [d config b l _ _ Hlim|config b l1 l2 Hlim|config e b l1 l2 _|now config e b l1 l2
    |config id b l1 l2|now config id b l1 l2|d now uuid8 r b l Hr]; cbn [snd] in Hlen.
  - apply limit_passed in Hlim. destruct Hinv as [Ip Ic Io Ia]. cbn [fst snd] in *.
    rewrite Ip in Hlim. split; cbn [fst snd]; [done| | |done].
    + intros c. specialize (Ic c). rewrite under_way_cons. simpl. case_bool_decide as Hc; subst; simpl; [|lia].
      pose proof (under_way_le (for_challenge (cfg_challenge_id config)) l). simpl in Hlen. lia.
    + intros o. specialize (Io o). rewrite under_way_cons. simpl. lia.
  - apply limit_passed in Hlim. destruct Hinv as [Ip Ic Io Ia]. cbn [fst snd] in *.
    rewrite Ip in Hlim. split; cbn [fst snd]; [done| | |done].
    + intros c. specialize (Ic c). by rewrite under_way_middle in *.
    + intros o. specialize (Io o). rewrite under_way_middle in *. simpl in *.
      case_bool_decide as Ho; subst; simpl; [|lia].
      pose proof (under_way_le (for_owner (cfg_owner_id config)) (l1 ++ l2)).
      rewrite length_app in *. simpl in Hlen. lia.
  - by apply given_up_inv in Hinv.
  - apply given_up_inv in Hinv. eapply frees_inv; [|done]. simpl. apply audit_frees.
  - destruct Hinv as [Ip Ic Io Ia]. cbn [fst snd] in *. split; cbn [fst snd]; [done| | |done].
    + intros c. specialize (Ic c). rewrite under_way_middle in *. simpl in *. rewrite tracked_track.
      case_bool_decide; case_decide; subst; simpl in *; try done; lia.
    + intros o. specialize (Io o). by rewrite under_way_middle in *.
  - destruct Hinv as [Ip Ic Io Ia]. cbn [fst snd] in *.
    split; cbn [fst snd]; [done| | |by apply audit_bounded].
    + intros c. specialize (Ic c). rewrite under_way_middle in Ic. simpl in *. lia.
    + intros o. specialize (Io o). rewrite under_way_middle in Io. simpl in *. rewrite tracked_track.
      case_bool_decide; case_decide; subst; simpl in *; try done; lia.
  - eapply frees_inv; [|done]. by apply request_frees.
Qed.

Lemma concurrent_run_inv policy k s :
  rtc (step_within k) (ContainerBroker_with_policy policy, []) s -> concurrent_inv policy k s.
Proof.
  intros Hrun.
  assert (H0 : concurrent_inv policy k (ContainerBroker_with_policy policy, [])).
  { split; cbn; [done|intros x; unfold tracked; rewrite lookup_empty; cbn; lia..|lia]. }
  induction Hrun as [|s1 s2 s3 Hs _ IH]; [done|]. apply IH. by eapply concurrent_step_inv.
Qed.

(** C25. While at most k+1 creations are under way at a time, whatever other
    requests run between their steps and whatever the daemon answers, a
    challenge or an owner has at most k containers more than its limit tracked,
    so that the limits hold exactly when creations are handled one after the
    other (k = 0); and the audit log holds at most 10000 entries. *)
Theorem container_limits_hold policy k b l :
  rtc (step_within k) (ContainerBroker_with_policy policy, []) (b, l) ->
  (forall c, (tracked (br_by_challenge b) c <= sp_max_containers_per_challenge policy + k)%nat) /\
  (forall o, (tracked (br_by_owner b) o <= sp_max_containers_per_owner policy + k)%nat) /\
  Z.of_nat (length (br_audit_log b)) <= 10000.
Proof.
  intros [_ Hc Ho Ha]%concurrent_run_inv. cbn [fst snd] in *. split; [|split; [|done]].
  - intros c. specialize (Hc c). lia.
  - intros o. specialize (Ho o). lia.
Qed.

(** The server does not bound the creations under way, and then the limits
    bound nothing: any number k of creations of a configuration that is
    admitted once can pass the checks before the first is tracked, after which
    k containers of the challenge are tracked. *)
Theorem limits_lost_to_concurrency d config b k :
  admit_container d config b = Ok tt ->
  exists b', rtc concurrent_step (b, []) (b', []) /\
    tracked (br_by_challenge b') (cfg_challenge_id config) =
      (k + tracked (br_by_challenge b) (cfg_challenge_id config))%nat.
Proof.
  intros Ha. unfold admit_container in Ha.
  destruct (policy_validate _ _) as [[]|] eqn:Hp; [|done].
  destruct (ensure_image _ _) as [[]|] eqn:Hi; [|done].
  destruct (check_container_limit _ _ _) as [[]|] eqn:Hc; [|done].
  destruct (check_owner_limit _ _ _) as [[]|] eqn:Ho; [|done].
  assert (Hall : forall l, rtc concurrent_step (b, l) (b, replicate k (Creating config) ++ l)).
  { induction k as [|k IH]; intros l; [constructor|].
    eapply rtc_r; [eapply rtc_r; [apply IH|by apply (CheckChallenge d config)]|].
    simpl. by apply (CheckOwner config b []). }
  specialize (Hall []). rewrite app_nil_r in Hall.
  assert (Htrack : forall b, exists b', rtc concurrent_step (b, replicate k (Creating config)) (b', []) /\
    tracked (br_by_challenge b') (cfg_challenge_id config) =
      (k + tracked (br_by_challenge b) (cfg_challenge_id config))%nat).
  { clear. induction k as [|k IH]; intros b; [exists b; split; [constructor|done]|].
    destruct (IH (track_container 0 config (Ok "container"%string) b).2) as (b' & Hrun & Hn).
    exists b'. split.
    - eapply rtc_l; [apply (TrackChallenge config "container" b [])|].
      eapply rtc_l; [apply (TrackOwner 0 config _ _ [])|]. exact Hrun.
    - rewrite Hn. simpl. rewrite tracked_track, decide_True by done. lia. }
  destruct (Htrack b) as (b' & Hrun & Hn). exists b'. split; [|done]. by etransitivity.
Qed.

(** ** What the daemon is asked *)

(** What a mount source names when it has no parent step: the root, if it
    starts there, and the names along the path. *)
Definition canonical (source : string) : string :=
  ((if starts_with "/" source then "/" else "") +:+ join "/" (names (path_components source)))%string.

Lemma fold_normalize l acc :
  ParentDir ∉ l -> RootDir ∉ l ->
  fold_left normalize_step l acc = mk_PathBuf (pb_root acc) (pb_parts acc ++ names l).
Proof.
  revert acc. induction l as [|c l IH]; intros acc Hp Hr.
  { destruct acc. simpl. by rewrite app_nil_r. }
  rewrite not_elem_of_cons in Hp, Hr. destruct Hp as [Hp Hpl], Hr as [Hr Hrl].
  cbn [fold_left]. rewrite IH by done. destruct c; try done. simpl. by rewrite <- (assoc_L (++)).
Qed.

Lemma names_RootDir l : names (RootDir :: l) = names l.
Proof. done. Qed.

Lemma pieces_no_root (first : bool) (l : list string) : RootDir ∉ omap (piece_component first) l.
Proof.
  intros (q & _ & Hq)%list_elem_of_omap. revert Hq. unfold piece_component.
  by repeat case_decide; destruct first.
Qed.

Lemma normalize_canonical source :
  ParentDir ∉ path_components source ->
  PathBuf_to_string (normalize source) = canonical source.
Proof.
  unfold normalize, canonical, path_components. destruct (split slash source) as [|p ps] eqn:Hs.
  { exfalso. unfold split in Hs. apply fmap_nil_inv in Hs.
    destruct (String.list_ascii_of_string source); simpl in Hs; [done|]. by repeat case_match. }
  pose proof (pieces_no_root false ps) as Hr. rewrite not_elem_of_app.
  destruct (starts_with "/" source); intros [Hp Hps].
  - cbn [app fold_left]. rewrite fold_normalize by done. by rewrite names_RootDir.
  - rewrite fold_normalize; [done|by apply not_elem_of_app|].
    apply not_elem_of_app. split; [|done]. intros Hin. apply (pieces_no_root true [p]). cbn.
    destruct (piece_component true p); [|by apply not_elem_of_nil in Hin].
    exact Hin.
Qed.

(** A mount source the policy permits: a path without parent steps that leads
    below none of the forbidden paths and below an allowed one, and that does
    not name the Docker socket unless the policy permits that. *)
Record safe_mount (p : SecurityPolicy) (source : string) : Prop := {
  sm_no_parent : ParentDir ∉ path_components source;
  sm_not_forbidden : forall forbidden rest, forbidden ∈ sp_forbidden_mount_paths p ->
    canonical source <> (forbidden +:+ rest)%string;
  sm_no_socket : sp_allow_docker_socket p = false ->
    forall u v, source <> (u +:+ "docker.sock" +:+ v)%string;
  sm_allowed : exists prefix rest, prefix ∈ sp_allowed_mount_prefixes p /\
    canonical source = (prefix +:+ rest)%string
}.

Lemma validate_mount_safe p m : validate_mount p m = Ok tt -> safe_mount p (mnt_source m).
Proof.
  intros (Hdots & Hforb & Hsock & prefix & Hin & Hpre)%validate_mount_ok.
  pose proof (no_parent_dir _ Hdots) as Hnp. rewrite normalize_canonical in * by done. split; [done|..].
  - intros forbidden rest Hf Heq. specialize (Hforb _ Hf).
    assert (starts_with forbidden (canonical (mnt_source m)) = true); [|congruence].
    apply starts_with_spec. eauto.
  - intros Hno u v Heq. destruct Hsock as [?|[Hs _]]; [congruence|].
    assert (contains "docker.sock" (mnt_source m) = true); [|congruence].
    apply contains_spec. eauto.
  - apply starts_with_spec in Hpre as [rest ->]. eauto.
Qed.

(** A container the policy permits.  A memory, process or CPU limit of zero or
    below is no limit to the daemon: only a limit above zero bounds anything
    (see [unlimited_requests_pass]). *)
Definition safe_config (p : SecurityPolicy) (network_name : string) (c : DockerConfig) : Prop :=
  let h := dc_host_config c in
  (sp_allowed_image_prefixes p = [] \/
   exists prefix rest, prefix ∈ sp_allowed_image_prefixes p /\
     to_lowercase (dc_image c) = to_lowercase prefix +:+ rest) /\
  hc_privileged h = false /\
  hc_network_mode h ∈ ["none"%string; "bridge"%string; network_name] /\
  hc_memory h <= sp_max_memory_bytes p /\ hc_pids_limit h <= sp_max_pids p /\
  (exists cores, f64_ltb (sp_max_cpu_cores p) cores = false /\
     hc_nano_cpus h = f64_as_i64 (f64_mul cores (f64_of_Z 1000000000))) /\
  (forall port l, hc_port_bindings h !! port = Some l ->
     Forall (fun pb => pbi_host_ip pb = "127.0.0.1"%string) l) /\
  Forall (fun m => safe_mount p (mo_source m)) (hc_mounts h) /\
  dc_labels c !! "platform.managed"%string = Some "true"%string.

Lemma docker_config_safe p network_name uuid8 config :
  policy_validate p config = Ok tt -> safe_config p network_name (docker_config network_name uuid8 config).
Proof.
  intros (Hi & Hr & Hm & _ & _)%policy_validate_ok.
  apply validate_resources_ok in Hr as (Hmem & Hcpu & Hpids).
  split; [by apply validate_image_ok|]. split; [done|]. split.
  { simpl. destruct (net_mode (cfg_network config)); simpl; rewrite !elem_of_cons; auto. }
  split; [done|]. split; [done|]. split; [by eexists|]. split; [|split].
  - intros port l. simpl. unfold port_bindings. intros Hl%elem_of_list_to_map_2.
    apply list_elem_of_fmap in Hl as ([cp hp] & Heq & _). simplify_eq. by repeat constructor.
  - simpl. apply Forall_fmap. eapply list.Forall_impl; [exact Hm|]. intros [] Hv.
    by apply validate_mount_safe in Hv.
  - simpl. unfold container_labels. by rewrite lookup_insert_eq.
Qed.

(** The configuration without limits. *)
Definition unlimited (config : ContainerConfig) : ContainerConfig :=
  mk_ContainerConfig (cfg_image config) (cfg_challenge_id config) (cfg_owner_id config)
    (cfg_name config) (cfg_cmd config) (cfg_env config) (cfg_working_dir config)
    (mk_ResourceLimits 0 f64_zero 0 0) (cfg_network config) (cfg_mounts config) (cfg_labels config)
    (cfg_user config).

(** Only upper bounds are checked: every accepted container is also accepted
    with memory, CPU and process limits of zero, and with them the daemon is
    asked for a container without these limits. *)
Lemma unlimited_requests_pass p network_name uuid8 config :
  0 <= sp_max_memory_bytes p -> 0 <= sp_max_pids p -> f64_ltb (sp_max_cpu_cores p) f64_zero = false ->
  policy_validate p config = Ok tt ->
  policy_validate p (unlimited config) = Ok tt /\
  let h := dc_host_config (docker_config network_name uuid8 (unlimited config)) in
  hc_memory h = 0 /\ hc_nano_cpus h = 0 /\ hc_pids_limit h = 0.
Proof.
  intros Hm Hp Hc (Hi & _ & Hmo & Hch & Ho)%policy_validate_ok.
  split; [|split; [done|split; [by_compute|done]]].
  apply policy_validate_ok. split; [done|]. split; [|done]. by apply validate_resources_ok.
Qed.

(** [d] with other answers to container creation. *)
Definition with_create (f : string -> DockerConfig -> result DockerFailure string) d : Docker :=
  mk_Docker (dk_inspect_image d) (dk_create_image d) f (dk_start_container d)
    (dk_stop_container d) (dk_remove_container d) (dk_create_exec d) (dk_exec d) (dk_exec_ms d)
    (dk_inspect_container d) (dk_list_containers d) (dk_logs d) (dk_build_image d) (dk_download d)
    (dk_upload d).

(** C24. The daemon is only ever asked to create containers that are safe under
    the policy: unprivileged; of an image that starts, case aside, with one of
    the policy's prefixes when it has any; with memory, process and CPU settings
    not above the policy's maxima (zero, which the daemon reads as no limit,
    included); on the loopback interface and one of the three networks; with
    mounts that lead below an allowed directory, not below a forbidden one and
    not to the Docker socket; and marked as managed.  No request's outcome
    depends on what the daemon would answer to any other creation. *)
Theorem daemon_asked_safely d f now uuid8 r b :
  (forall name c, safe_config (br_policy b) (br_network_name b) c ->
     f name c = dk_create_container d name c) ->
  handle_request (with_create f d) now uuid8 r b = handle_request d now uuid8 r b.
Proof.
  intros Hf. destruct r; try done. simpl. unfold create_container.
  change (admit_container (with_create f d) config b) with (admit_container d config b).
  destruct (admit_container d config b) as [[]|] eqn:Ha; [|done].
  apply admit_container_ok in Ha as (Hv & _). simpl.
  rewrite Hf by (by apply docker_config_safe). done.
Qed.

(** Every answer carries the id of its request, over a Unix socket and over
    WebSocket, errors included. *)
Theorem answers_correlate d now uuid8 conn r b :
  response_id (handle_request d now uuid8 r b).1 = request_id_of r /\
  response_id (process_request d now uuid8 conn r b).1 = request_id_of r.
Proof.
  assert (Hh : response_id (handle_request d now uuid8 r b).1 = request_id_of r).
  { destruct r; simpl; try done;
      unfold create_container, track_container, start_container, stop_container, remove_container,
        exec_in_container, inspect_container, list_containers, pull_image, build_image,
        copy_from_container, copy_to_container, docker_error;
      repeat case_match; simplify_eq/=; done. }
  split; [done|]. unfold process_request. repeat case_match; done.
Qed.

(** ** Isolation of WebSocket clients *)

(** A client authenticated for a challenge is refused, without effect, when
    it names another challenge; but a request that names a container is
    forwarded whatever challenge the container belongs to, so that a client
    can stop, remove, read or run commands in the containers of others. *)
Theorem ws_isolation d now uuid8 conn r b :
  ws_challenge_id conn <> ""%string ->
  match request_challenge_id r with
  | Some c =>
      if decide (c = ws_challenge_id conn)
      then process_request d now uuid8 conn r b = handle_request d now uuid8 r b
      else exists e, process_request d now uuid8 conn r b =
             (ErrorResponse (UnauthorizedError e) (request_id_of r), b)
  | None => process_request d now uuid8 conn r b = handle_request d now uuid8 r b
  end.
Proof.
  intros Hne. unfold process_request, is_empty.
  destruct (request_challenge_id r) as [c|]; [|done].
  rewrite (bool_decide_eq_false_2 _ Hne). simpl.
  case_decide as Hc; [by rewrite bool_decide_eq_true_2|].
  rewrite bool_decide_eq_false_2 by done. simpl. eauto.
Qed.

(** ** Images built by clients *)

(** An image that a client builds under the platform's registry name is
    whitelisted by the strictest policy, whatever is in it. *)
Lemma built_images_are_whitelisted name :
  build_tag_allowed ("ghcr.io/platformnetwork/" +:+ name) = true /\
  validate_image strict ("ghcr.io/platformnetwork/" +:+ name) = Ok tt.
Proof.
  split.
  - unfold build_tag_allowed. rewrite orb_true_iff. right. apply starts_with_app. done.
  - apply validate_image_ok. right. exists "ghcr.io/platformnetwork/"%string, (to_lowercase name).
    split; [left|]. apply chars_inj. unfold to_lowercase.
    by rewrite chars_of_chars, !chars_app, fmap_app, !chars_of_chars.
Qed.

End broker_props.

Module BrokerExamples.
Import PolicyExamples.

#[export] Instance no_archive : Archive := {|
  base64_decode := fun _ => Ok [];
  base64_encode := fun _ => ""%string;
  tar_single := fun _ _ file => Ok file;
  tar_first_file := fun _ => Ok None
|}.

(** A daemon that has every image and creates every container. *)
Definition daemon : Docker := {|
  dk_inspect_image := fun _ => Ok tt;
  dk_create_image := fun _ => [];
  dk_create_container := fun _ _ => Ok "0123456789abcdef"%string;
  dk_start_container := fun _ => Ok tt;
  dk_stop_container := fun _ _ => Ok tt;
  dk_remove_container := fun _ _ => Ok tt;
  dk_create_exec := fun _ _ _ => Ok "exec"%string;
  dk_exec := fun _ => Some (Ok (""%string, ""%string, Some 0));
  dk_exec_ms := fun _ => 1;
  dk_inspect_container := fun _ => Err (OtherFailure "gone");
  dk_list_containers := fun _ => Ok [];
  dk_logs := fun _ _ => [];
  dk_build_image := fun _ _ => [];
  dk_download := fun _ _ => Ok [];
  dk_upload := fun _ _ _ => Ok tt
|}.

Definition strict_broker : ContainerBroker := ContainerBroker_with_policy strict.
Definition broker_after : ContainerBroker :=
  (handle_request daemon 1 "00000000" (Create job_container "r1") strict_broker).2.

(** Two creations under way at a time. *)
Definition two_tracked : ContainerBroker * list Creation :=
  (set_tracking (track "term" "0123456789ab" (br_by_challenge broker_after))
     (br_by_owner broker_after) broker_after,
   [Tracking job_container "0123456789ab"]).

Lemma two_tracked_run : rtc (step_within 1) (strict_broker, []) two_tracked.
Proof.
  eapply rtc_l; [split; [by apply (CheckChallenge daemon job_container)|simpl; lia]|].
  eapply rtc_l; [split; [by apply (CheckChallenge daemon job_container)|simpl; lia]|].
  eapply rtc_l; [split; [by apply (CheckOwner job_container _ [])|simpl; lia]|].
  eapply rtc_l; [split; [by apply (CheckOwner job_container _ [_])|simpl; lia]|].
  eapply rtc_l; [split; [by apply (TrackChallenge job_container "0123456789abcdef" _ [])|simpl; lia]|].
  eapply rtc_l; [split; [by apply (TrackOwner 1 job_container _ _ [])|simpl; lia]|].
  eapply rtc_l; [split; [by apply (TrackChallenge job_container "0123456789abcdef" _ [])|simpl; lia]|].
  apply rtc_refl.
Qed.

Lemma container_limits_hold_witness :
  tracked (br_by_challenge two_tracked.1) "term" = 2%nat /\
  (tracked (br_by_challenge two_tracked.1) "term" <= 100 + 1)%nat /\
  (tracked (br_by_challenge broker_after) "term" <= 100 + 0)%nat.
Proof.
  split; [by_compute|]. split.
  - exact (proj1 (container_limits_hold strict 1 _ _ two_tracked_run) "term"%string).
  - exact (proj1 (container_limits_hold strict 0 broker_after [] (sequential_is_concurrent _ _
      (rtc_once _ _ (BrokerStep daemon 1 "00000000" (Create job_container "r1") strict_broker))))
      "term"%string).
Defined.

(** The strict policy accepts the container without limits. *)
Lemma unlimited_accepted : policy_validate strict (unlimited job_container) = Ok tt.
Proof. by_compute. Qed.

(** A daemon that refuses every privileged container gives the same answer. *)
Definition careful (name : string) (c : DockerConfig) : result DockerFailure string :=
  if hc_privileged (dc_host_config c) then Err (OtherFailure "privileged")
  else dk_create_container daemon name c.

Lemma daemon_asked_safely_witness :
  handle_request (with_create careful daemon) 1 "00000000" (Create job_container "r1") strict_broker
  = handle_request daemon 1 "00000000" (Create job_container "r1") strict_broker.
Proof.
  assert (Hf : forall name c, safe_config (br_policy strict_broker) (br_network_name strict_broker) c ->
    careful name c = dk_create_container daemon name c).
  { intros name c (_ & Hp & _). unfold careful. rewrite Hp. reflexivity. }
  exact (daemon_asked_safely daemon careful 1 "00000000" (Create job_container "r1") strict_broker Hf).
Defined.

Definition other_client : WsConnection := mk_WsConnection "math" "v2" true.

Lemma ws_isolation_witness :
  process_request daemon 2 "00000001" other_client (Remove "0123456789ab" true "r2") broker_after
  = handle_request daemon 2 "00000001" (Remove "0123456789ab" true "r2") broker_after.
Proof.
  assert (Hne : ws_challenge_id other_client <> ""%string) by discriminate.
  exact (ws_isolation daemon 2 "00000001" other_client (Remove "0123456789ab" true "r2")
    broker_after Hne).
Defined.

(** 1000 containers of one challenge under the limit of 100. *)
Lemma limits_lost_to_concurrency_witness :
  exists b', rtc concurrent_step (strict_broker, []) (b', []) /\
    tracked (br_by_challenge b') "term" = (1000 + 0)%nat.
Proof.
  assert (Ha : admit_container daemon job_container strict_broker = Ok tt) by reflexivity.
  exact (limits_lost_to_concurrency daemon job_container strict_broker 1000 Ha).
Defined.
End BrokerExamples.
