(* ===== verification/SubnetConfig.v ===== *)
(** * Subnet configuration, bans and health

    Models [crates/subnet-manager/src/config.rs] ([SubnetConfig], [BanList])
    and [health.rs] ([HealthMonitor]).  The text of a health message is a
    constructor that carries the numbers the text shows. *)

From S2P Require Import Prelude Float64 Crypto RustStrings CoreTypes.

Definition u32_wrap (x : Z) : Z := x mod 2 ^ 32.

(** ** Configuration *)

Record RecoveryConfig : Type := mk_RecoveryConfig {
  rcf_auto_recover : bool;
  rcf_max_attempts : Z;
  rcf_cooldown_secs : Z;
  rcf_rollback_on_failure : bool;
  rcf_pause_on_critical : bool
}.

Definition RecoveryConfig_default : RecoveryConfig := mk_RecoveryConfig true 3 60 true true.

Record HealthConfig : Type := mk_HealthConfig {
  hcf_check_interval : Z;
  hcf_failure_threshold : Z;
  hcf_memory_warn_percent : Z;
  hcf_cpu_warn_percent : Z;
  hcf_disk_warn_percent : Z;
  hcf_max_pending_jobs : Z;
  hcf_max_eval_time : Z
}.

Definition HealthConfig_default : HealthConfig := mk_HealthConfig 30 3 80 90 85 1000 600.

Record SubnetConfig : Type := mk_SubnetConfig {
  scf_netuid : Z;
  scf_name : string;
  scf_description : string;
  scf_version : string;
  scf_min_stake : Z;
  scf_max_validators : Z;
  scf_epoch_length : Z;
  scf_weight_interval : Z;
  scf_auto_update : bool;
  scf_update_check_interval : Z;
  scf_snapshot_interval : Z;
  scf_max_snapshots : Z;
  scf_recovery : RecoveryConfig;
  scf_health : HealthConfig
}.

Definition MIN_VALIDATOR_STAKE : Z := 1000000000000.

(** [version] is the version of the crate at build time. *)
Definition SubnetConfig_default (version : string) : SubnetConfig :=
  mk_SubnetConfig 1 "Mini-Chain Subnet" "P2P validator network" version MIN_VALIDATOR_STAKE 256 100
    1 true 300 10 5 RecoveryConfig_default HealthConfig_default.

Definition set_epoch_length (x : Z) (c : SubnetConfig) : SubnetConfig :=
  mk_SubnetConfig (scf_netuid c) (scf_name c) (scf_description c) (scf_version c) (scf_min_stake c)
    (scf_max_validators c) x (scf_weight_interval c) (scf_auto_update c)
    (scf_update_check_interval c) (scf_snapshot_interval c) (scf_max_snapshots c) (scf_recovery c)
    (scf_health c).
Definition set_min_stake (x : Z) (c : SubnetConfig) : SubnetConfig :=
  mk_SubnetConfig (scf_netuid c) (scf_name c) (scf_description c) (scf_version c) x
    (scf_max_validators c) (scf_epoch_length c) (scf_weight_interval c) (scf_auto_update c)
    (scf_update_check_interval c) (scf_snapshot_interval c) (scf_max_snapshots c) (scf_recovery c)
    (scf_health c).

Inductive ConfigError : Type :=
| InvalidValue (msg : string)
| MissingField (msg : string)
| ConfigIo (msg : string).

Definition SubnetConfig_validate (c : SubnetConfig) : result ConfigError unit :=
  if scf_epoch_length c =? 0 then Err (InvalidValue "epoch_length must be > 0")
  else if scf_max_validators c =? 0 then Err (InvalidValue "max_validators must be > 0")
  else if scf_weight_interval c =? 0 then Err (InvalidValue "weight_interval must be > 0")
  else Ok tt.

(** The subnet's own challenge configuration. *)
Record SubnetChallengeConfig : Type := mk_SubnetChallengeConfig {
  scc_id : string;
  scc_name : string;
  scc_wasm_hash : string;
  scc_wasm_source : string;
  scc_emission_weight : f64;
  scc_active : bool;
  scc_timeout_secs : Z;
  scc_max_concurrent : Z
}.

(** ** Bans *)

Record BanEntry : Type := mk_BanEntry {
  ban_reason : string;
  ban_banned_at : DateTime;
  ban_banned_by : string
}.

Record BanList : Type := mk_BanList {
  bl_validators : gmap string BanEntry;
  bl_hotkeys : gmap string BanEntry;
  bl_coldkeys : gmap string BanEntry
}.

Definition BanList_new : BanList := mk_BanList ∅ ∅ ∅.

Section bans.
Context `{External}.

Definition ban_validator (now : DateTime) (h : Hotkey) (reason banned_by : string) (l : BanList) :
    BanList :=
  mk_BanList (<[Hotkey_to_hex h := mk_BanEntry reason now banned_by]> (bl_validators l))
    (bl_hotkeys l) (bl_coldkeys l).
Definition unban_validator (h : Hotkey) (l : BanList) : bool * BanList :=
  (bool_decide (is_Some (bl_validators l !! Hotkey_to_hex h)),
   mk_BanList (delete (Hotkey_to_hex h) (bl_validators l)) (bl_hotkeys l) (bl_coldkeys l)).
Definition is_validator_banned (l : BanList) (h : Hotkey) : bool :=
  bool_decide (is_Some (bl_validators l !! Hotkey_to_hex h)).

Definition ban_hotkey (now : DateTime) (h : Hotkey) (reason banned_by : string) (l : BanList) :
    BanList :=
  mk_BanList (bl_validators l)
    (<[Hotkey_to_hex h := mk_BanEntry reason now banned_by]> (bl_hotkeys l)) (bl_coldkeys l).
Definition unban_hotkey (h : Hotkey) (l : BanList) : bool * BanList :=
  (bool_decide (is_Some (bl_hotkeys l !! Hotkey_to_hex h)),
   mk_BanList (bl_validators l) (delete (Hotkey_to_hex h) (bl_hotkeys l)) (bl_coldkeys l)).
Definition is_hotkey_banned (l : BanList) (h : Hotkey) : bool :=
  bool_decide (is_Some (bl_hotkeys l !! Hotkey_to_hex h)).

Definition ban_coldkey (now : DateTime) (coldkey reason banned_by : string) (l : BanList) :
    BanList :=
  mk_BanList (bl_validators l) (bl_hotkeys l)
    (<[coldkey := mk_BanEntry reason now banned_by]> (bl_coldkeys l)).
Definition unban_coldkey (coldkey : string) (l : BanList) : bool * BanList :=
  (bool_decide (is_Some (bl_coldkeys l !! coldkey)),
   mk_BanList (bl_validators l) (bl_hotkeys l) (delete coldkey (bl_coldkeys l))).
Definition is_coldkey_banned (l : BanList) (coldkey : string) : bool :=
  bool_decide (is_Some (bl_coldkeys l !! coldkey)).

Definition can_receive_emissions (l : BanList) (h : Hotkey) (coldkey : option string) : bool :=
  if is_hotkey_banned l h then false
  else match coldkey with
       | Some ck => negb (is_coldkey_banned l ck)
       | None => true
       end.
End bans.

Record BanSummary : Type := mk_BanSummary {
  bs_validators : nat; bs_hotkeys : nat; bs_coldkeys : nat
}.

Definition ban_summary (l : BanList) : BanSummary :=
  mk_BanSummary (size (bl_validators l)) (size (bl_hotkeys l)) (size (bl_coldkeys l)).

(** ** Health *)

Inductive HealthStatus : Type := Healthy | Degraded | Unhealthy | Critical.

#[global] Instance HealthStatus_eq_dec : EqDecision HealthStatus.
Proof. solve_decision. Defined.

Inductive AlertSeverity : Type := SevInfo | SevWarning | SevError | SevCritical.

Inductive HealthText : Type :=
| MemoryCriticalText (p : f32) | MemoryHighText (p : f32)
| CpuHighText (p : f32)
| DiskCriticalText (p : f32) | DiskHighText (p : f32)
| QueueOverloadedText (n : Z) | QueueHighText (n : Z)
| FailureRateText (r : f32) | SlowEvaluationsText (ms : Z)
| NoPeersText | LowPeersText (n : Z)
| PercentUsed (p : f32) | QueueCounts (pending running : Z)
| FailureDetails (r : f32) (ms : Z) | EvaluationDetails (per_hour ms : Z)
| PeersConnected (n : Z).

Record ComponentHealth : Type := mk_ComponentHealth {
  chl_name : string;
  chl_status : HealthStatus;
  chl_details : HealthText;
  chl_last_success : option DateTime
}.

Record HealthAlert : Type := mk_HealthAlert {
  al_id : Uuid;
  al_severity : AlertSeverity;
  al_message : HealthText;
  al_component : string;
  al_created_at : DateTime;
  al_acknowledged : bool
}.

Record HealthMetrics : Type := mk_HealthMetrics {
  hm_memory_percent : f32;
  hm_cpu_percent : f32;
  hm_disk_percent : f32;
  hm_pending_jobs : Z;
  hm_running_jobs : Z;
  hm_evaluations_per_hour : Z;
  hm_failures_per_hour : Z;
  hm_avg_eval_time_ms : Z;
  hm_connected_peers : Z;
  hm_block_height : Z;
  hm_epoch : Z;
  hm_uptime_secs : Z
}.

Definition HealthMetrics_default : HealthMetrics :=
  mk_HealthMetrics f64_zero f64_zero f64_zero 0 0 0 0 0 0 0 0 0.

Record HealthCheck : Type := mk_HealthCheck {
  hck_timestamp : DateTime;
  hck_status : HealthStatus;
  hck_components : list ComponentHealth;
  hck_alerts : list HealthAlert;
  hck_metrics : HealthMetrics
}.

Record HealthMonitor : Type := mk_HealthMonitor {
  hmo_config : HealthConfig;
  hmo_start_time : DateTime;
  hmo_history : list HealthCheck;
  hmo_alerts : list HealthAlert;
  hmo_failure_counts : gmap string Z;
  hmo_last_metrics : HealthMetrics
}.

Definition HealthMonitor_new (now : DateTime) (config : HealthConfig) : HealthMonitor :=
  mk_HealthMonitor config now [] [] ∅ HealthMetrics_default.

Definition set_alerts (alerts : list HealthAlert) (counts : gmap string Z) (h : HealthMonitor) :
    HealthMonitor :=
  mk_HealthMonitor (hmo_config h) (hmo_start_time h) (hmo_history h) alerts counts
    (hmo_last_metrics h).

(** [id] is the fresh id of an alert and [now] the time of a check. *)
Definition has_open_alert (component : string) (h : HealthMonitor) : bool :=
  existsb (fun a => bool_decide (al_component a = component) && negb (al_acknowledged a))
    (hmo_alerts h).

Definition add_alert (id : Uuid) (now : DateTime) (component : string) (severity : AlertSeverity)
    (message : HealthText) (h : HealthMonitor) : HealthMonitor :=
  if has_open_alert component h then h
  else set_alerts (hmo_alerts h ++ [mk_HealthAlert id severity message component now false])
         (<[component := u32_wrap (default 0 (hmo_failure_counts h !! component) + 1)]>
            (hmo_failure_counts h)) h.

Definition acknowledge (a : HealthAlert) : HealthAlert :=
  mk_HealthAlert (al_id a) (al_severity a) (al_message a) (al_component a) (al_created_at a) true.

Definition clear_failure (component : string) (h : HealthMonitor) : HealthMonitor :=
  set_alerts
    ((fun a => if decide (al_component a = component) then acknowledge a else a) <$> hmo_alerts h)
    (delete component (hmo_failure_counts h)) h.

(** The outcome of one component's check: an alert with its severity, or
    none. *)
Record Finding : Type := mk_Finding {
  fd_component : string;
  fd_status : HealthStatus;
  fd_alert : option (AlertSeverity * HealthText);
  fd_details : HealthText
}.

Definition memory_finding (c : HealthConfig) (m : HealthMetrics) : Finding :=
  let p := hm_memory_percent m in
  if f32_ltb (f32_of_Z 95) p then
    mk_Finding "memory" Critical (Some (SevCritical, MemoryCriticalText p)) (PercentUsed p)
  else if f32_ltb (f32_of_Z (hcf_memory_warn_percent c)) p then
    mk_Finding "memory" Degraded (Some (SevWarning, MemoryHighText p)) (PercentUsed p)
  else mk_Finding "memory" Healthy None (PercentUsed p).

Definition cpu_finding (c : HealthConfig) (m : HealthMetrics) : Finding :=
  let p := hm_cpu_percent m in
  if f32_ltb (f32_of_Z (hcf_cpu_warn_percent c)) p then
    mk_Finding "cpu" Degraded (Some (SevWarning, CpuHighText p)) (PercentUsed p)
  else mk_Finding "cpu" Healthy None (PercentUsed p).

Definition disk_finding (c : HealthConfig) (m : HealthMetrics) : Finding :=
  let p := hm_disk_percent m in
  if f32_ltb (f32_of_Z 95) p then
    mk_Finding "disk" Critical (Some (SevCritical, DiskCriticalText p)) (PercentUsed p)
  else if f32_ltb (f32_of_Z (hcf_disk_warn_percent c)) p then
    mk_Finding "disk" Degraded (Some (SevWarning, DiskHighText p)) (PercentUsed p)
  else mk_Finding "disk" Healthy None (PercentUsed p).

Definition job_queue_finding (c : HealthConfig) (m : HealthMetrics) : Finding :=
  let n := hm_pending_jobs m in
  let details := QueueCounts n (hm_running_jobs m) in
  if u32_wrap (hcf_max_pending_jobs c * 2) <? n then
    mk_Finding "job_queue" Unhealthy (Some (SevError, QueueOverloadedText n)) details
  else if hcf_max_pending_jobs c <? n then
    mk_Finding "job_queue" Degraded (Some (SevWarning, QueueHighText n)) details
  else mk_Finding "job_queue" Healthy None details.

Definition failure_rate (m : HealthMetrics) : f32 :=
  let total := u32_wrap (hm_evaluations_per_hour m + hm_failures_per_hour m) in
  if 0 <? total then f32_div (f32_of_Z (hm_failures_per_hour m)) (f32_of_Z total) else f64_zero.

Definition evaluations_finding (c : HealthConfig) (m : HealthMetrics) : Finding :=
  let max_time := u64_mul (hcf_max_eval_time c) 1000 in
  let rate := failure_rate m in
  let percent := f32_mul rate (f32_of_Z 100) in
  let ms := hm_avg_eval_time_ms m in
  if f32_ltb (f32_div (f32_of_Z 1) (f32_of_Z 2)) rate then
    mk_Finding "evaluations" Critical (Some (SevCritical, FailureRateText percent))
      (FailureDetails percent ms)
  else if max_time <? ms then
    mk_Finding "evaluations" Degraded (Some (SevWarning, SlowEvaluationsText ms))
      (FailureDetails percent ms)
  else mk_Finding "evaluations" Healthy None (EvaluationDetails (hm_evaluations_per_hour m) ms).

Definition network_finding (c : HealthConfig) (m : HealthMetrics) : Finding :=
  let n := hm_connected_peers m in
  if n =? 0 then mk_Finding "network" Critical (Some (SevCritical, NoPeersText)) (PeersConnected 0)
  else if n <? 3 then
    mk_Finding "network" Degraded (Some (SevWarning, LowPeersText n)) (PeersConnected n)
  else mk_Finding "network" Healthy None (PeersConnected n).

(** [check_memory] and its siblings: the finding's effect on the monitor and
    the component's health. *)
Definition check_component (id : Uuid) (now : DateTime) (f : Finding) (h : HealthMonitor) :
    ComponentHealth * HealthMonitor :=
  (mk_ComponentHealth (fd_component f) (fd_status f) (fd_details f)
     (if decide (fd_status f = Critical \/ fd_status f = Unhealthy) then None else Some now),
   match fd_alert f with
   | Some (severity, message) => add_alert id now (fd_component f) severity message h
   | None => clear_failure (fd_component f) h
   end).

Definition worse_status (a b : HealthStatus) : HealthStatus :=
  match a, b with
  | Critical, _ | _, Critical => Critical
  | Unhealthy, _ | _, Unhealthy => Unhealthy
  | Degraded, _ | _, Degraded => Degraded
  | _, _ => Healthy
  end.

(** The components in the order they are checked. *)
Definition findings (c : HealthConfig) (m : HealthMetrics) : list Finding :=
  [memory_finding c m; cpu_finding c m; disk_finding c m; job_queue_finding c m;
   evaluations_finding c m; network_finding c m].

Fixpoint check_components (id : Uuid) (now : DateTime) (fs : list Finding) (status : HealthStatus)
    (h : HealthMonitor) : HealthStatus * list ComponentHealth * HealthMonitor :=
  match fs with
  | [] => (status, [], h)
  | f :: fs' =>
      let '(c, h) := check_component id now f h in
      let status :=
        if decide (chl_status c <> Healthy) then worse_status status (chl_status c) else status in
      let '(status, cs, h) := check_components (id + 1) now fs' status h in
      (status, c :: cs, h)
  end.

Definition health_check (id : Uuid) (now : DateTime) (m : HealthMetrics) (h : HealthMonitor) :
    HealthCheck * HealthMonitor :=
  let '(status, components, h) :=
    check_components id now (findings (hmo_config h) m) Healthy h in
  let check := mk_HealthCheck now status components (hmo_alerts h) m in
  let history := hmo_history h ++ [check] in
  let history := if (100 <? length history)%nat then tail history else history in
  (check, mk_HealthMonitor (hmo_config h) (hmo_start_time h) history (hmo_alerts h)
            (hmo_failure_counts h) m).

Definition current_status (h : HealthMonitor) : HealthStatus :=
  match last (hmo_history h) with Some c => hck_status c | None => Healthy end.

Definition active_alerts (h : HealthMonitor) : list HealthAlert :=
  filter (fun a => al_acknowledged a = false) (hmo_alerts h).

(** Acknowledges the first alert with the id. *)
Fixpoint acknowledge_first (id : Uuid) (l : list HealthAlert) : list HealthAlert :=
  match l with
  | [] => []
  | a :: l' => if al_id a =? id then acknowledge a :: l' else a :: acknowledge_first id l'
  end.

Definition acknowledge_alert (id : Uuid) (h : HealthMonitor) : HealthMonitor :=
  set_alerts (acknowledge_first id (hmo_alerts h)) (hmo_failure_counts h) h.

Section health_queries.
Context {HS : HashOrder string}.

Definition needs_recovery (h : HealthMonitor) : bool :=
  existsb (fun count => hcf_failure_threshold (hmo_config h) <=? count)
    (hm_values (hmo_failure_counts h)).

(** [max_by_key]: the last of the largest counts. *)
Definition worst_component (h : HealthMonitor) : option (string * Z) :=
  fold_left (fun best '(name, count) =>
    match best with
    | None => Some (name, count)
    | Some (_, c) => if c <=? count then Some (name, count) else best
    end) (hm_iter (hmo_failure_counts h)) None.
End health_queries.
