(* ===== verification/SubnetManager.v ===== *)
(** * Updates and snapshots of a subnet

    Models [crates/subnet-manager/src/update.rs] and [snapshot.rs].  Files live on
    a [Disk] below the data directory, paths being lists of segments; [io_ok]
    says which paths the operating system lets the process use.  JSON and bincode
    are the class [SubnetCodec].  A fresh UUID and the clock are arguments. *)

From S2P Require Import Prelude Float64 Crypto RustStrings CoreTypes CoreState SubnetConfig.

(** ** The disk *)

Abbreviation Path := (list string).

Record Disk : Type := mk_Disk {
  files : gmap Path bytes;
  dirs : gset Path
}.

Class DiskIO : Type := { io_ok : Path -> bool }.

Section disk.
Context `{DiskIO}.

(** Is [p] a prefix of [q]? *)
Definition below (p q : Path) : Prop := take (length p) q = p.

#[global] Instance below_dec p q : Decision (below p q) := decide (_ = _).

Definition parent (p : Path) : Path := take (pred (length p)) p.

Definition dir_exists (d : Disk) (p : Path) : bool := bool_decide (p = []) || bool_decide (p ∈ dirs d).
Definition file_exists (d : Disk) (p : Path) : bool := bool_decide (is_Some (files d !! p)).
Definition path_exists (d : Disk) (p : Path) : bool := dir_exists d p || file_exists d p.

(** The operations fail with a text when the path is out of reach; a write
    needs the directory. *)
Definition fs_read (p : Path) (d : Disk) : result string bytes :=
  if io_ok p then ok_or (files d !! p) "not found"%string else Err "io error"%string.

Definition fs_write (p : Path) (data : bytes) : SE Disk string unit :=
  d ← get_state;
  _ ← require (io_ok p && dir_exists d (parent p)) "io error"%string;
  modify (fun d => mk_Disk (<[p := data]> (files d)) (dirs d)).

Definition create_dir_all (p : Path) : SE Disk string unit :=
  _ ← require (io_ok p) "io error"%string;
  modify (fun d => mk_Disk (files d)
    (dirs d ∪ list_to_set ((fun n => take n p) <$> seq 1 (length p)))).

Definition remove_file (p : Path) : SE Disk string unit :=
  _ ← require (io_ok p) "io error"%string;
  modify (fun d => mk_Disk (delete p (files d)) (dirs d)).

Definition remove_dir_all (p : Path) : SE Disk string unit :=
  _ ← require (io_ok p) "io error"%string;
  modify (fun d => mk_Disk (filter (fun '(q, _) => ~ below p q) (files d))
                           (filter (fun q => ~ below p q) (dirs d))).
End disk.

(** ** Updates *)

Inductive UpdateType : Type := Hot | Warm | Cold | HardResetType.

Inductive UpdateError : Type :=
| AlreadyUpdating
| UpdateHashMismatch (expected actual : string)
| Validation (msg : string)
| NoRollbackData
| UpdateIo (msg : string)
| UpdateSerialization (msg : string).

#[global] Instance UpdateError_eq_dec : EqDecision UpdateError.
Proof. solve_decision. Defined.

Inductive UpdateStatus : Type :=
| UPending | UDownloading | UValidating | UApplying | UApplied
| UFailed (e : UpdateError)
| URolledBack.

Inductive UpdateTarget : Type :=
| TChallenge (id : ChallengeId)
| TConfig
| TAllChallenges
| TValidators.

Inductive UpdatePayload : Type :=
| WasmChallenge (wasm_bytes : bytes) (wasm_hash : string) (config : SubnetChallengeConfig)
| ConfigPayload (config : SubnetConfig)
| ValidatorsPayload (add remove : list Hotkey)
| HardReset (reason : string) (preserve_validators : bool) (new_config : option SubnetConfig).

Record Update : Type := mk_Update {
  up_id : Uuid;
  up_update_type : UpdateType;
  up_version : string;
  up_target : UpdateTarget;
  up_payload : UpdatePayload;
  up_status : UpdateStatus;
  up_created_at : DateTime;
  up_applied_at : option DateTime;
  up_rollback_data : option bytes
}.

Definition set_status (st : UpdateStatus) (u : Update) : Update :=
  mk_Update (up_id u) (up_update_type u) (up_version u) (up_target u) (up_payload u) st
    (up_created_at u) (up_applied_at u) (up_rollback_data u).
Definition set_applied (now : DateTime) (u : Update) : Update :=
  mk_Update (up_id u) (up_update_type u) (up_version u) (up_target u) (up_payload u) UApplied
    (up_created_at u) (Some now) (up_rollback_data u).
Definition set_rollback (data : bytes) (u : Update) : Update :=
  mk_Update (up_id u) (up_update_type u) (up_version u) (up_target u) (up_payload u) (up_status u)
    (up_created_at u) (up_applied_at u) (Some data).

Record UpdateManager : Type := mk_UpdateManager {
  um_pending : list Update;
  um_history : list Update;
  um_current_version : string;
  um_updating : bool
}.

Definition UpdateManager_new : UpdateManager := mk_UpdateManager [] [] "0.1.0" false.

Definition payload_type (p : UpdatePayload) : UpdateType :=
  match p with
  | WasmChallenge _ _ _ => Hot
  | ConfigPayload _ => Warm
  | ValidatorsPayload _ _ => Hot
  | HardReset _ _ _ => HardResetType
  end.

Definition queue_update (id : Uuid) (now : DateTime) (target : UpdateTarget)
    (payload : UpdatePayload) (version : string) (m : UpdateManager) : UpdateManager :=
  mk_UpdateManager
    (um_pending m ++ [mk_Update id (payload_type payload) version target payload UPending now
                        None None])
    (um_history m) (um_current_version m) (um_updating m).

Definition CONFIG_PATH : Path := ["subnet_config.json"%string].
Definition CHALLENGES_DIR : Path := ["challenges"%string].
Definition SNAPSHOTS_DIR : Path := ["snapshots"%string].
Definition wasm_path (id : string) : Path := ["challenges"; id; "code.wasm"]%string.

(** ** Snapshots *)

Record SnapshotMeta : Type := mk_SnapshotMeta {
  sn_id : Uuid;
  sn_name : string;
  sn_block_height : Z;
  sn_epoch : Z;
  sn_state_hash : string;
  sn_created_at : DateTime;
  sn_size_bytes : Z;
  sn_auto : bool;
  sn_reason : string
}.

Record Snapshot : Type := mk_Snapshot {
  snp_meta : SnapshotMeta;
  snp_chain_state : bytes;
  snp_challenge_data : gmap string bytes;
  snp_config : bytes
}.

Record SnapshotManager : Type := mk_SnapshotManager {
  smn_max_snapshots : nat;
  smn_snapshots : list SnapshotMeta
}.

Class SubnetCodec : Type := {
  encode_subnet_config : SubnetConfig -> result string bytes;
  decode_subnet_config : bytes -> result string SubnetConfig;
  encode_chain_state : ChainState -> result string bytes;
  decode_chain_state : bytes -> result string ChainState;
  encode_snapshot : Snapshot -> result string bytes;
  decode_snapshot : bytes -> result string Snapshot;
  encode_index : list SnapshotMeta -> result string bytes;
  encode_bans : BanList -> result string bytes
}.

Class SubnetCodecLaws `{SubnetCodec} : Prop := {
  subnet_config_roundtrip : forall c b, encode_subnet_config c = Ok b -> decode_subnet_config b = Ok c;
  chain_state_roundtrip : forall s b, encode_chain_state s = Ok b -> decode_chain_state b = Ok s;
  snapshot_roundtrip : forall s b, encode_snapshot s = Ok b -> decode_snapshot b = Ok s
}.

Section manager.
Context `{External} `{DiskIO} `{SubnetCodec}.

(** [compute_hash] and [sha256_hex]. *)
Definition sha256_hex (data : bytes) : string := hex_encode (sha256 data).

Definition config_save (c : SubnetConfig) (p : Path) : SE Disk string unit :=
  content ← lift (encode_subnet_config c); fs_write p content.

Definition config_load (p : Path) (d : Disk) : result string SubnetConfig :=
  b ← fs_read p d; decode_subnet_config b.

(** Failures of a disk operation as I/O errors of an update. *)
Definition as_update_io {A} (m : SE Disk string A) : SE Disk UpdateError A := fun d =>
  let '(r, d) := m d in (result_map_err UpdateIo r, d).

(** A step on the disk inside an update. *)
Definition UpdateM := SE (Update * UpdateManager * Disk) UpdateError.

Definition on_disk {A} (m : SE Disk string A) : UpdateM A := fun '(u, um, d) =>
  let '(r, d) := m d in (result_map_err UpdateIo r, (u, um, d)).
Definition on_update (f : Update -> Update) : UpdateM unit :=
  modify (fun '(u, um, d) => (f u, um, d)).
Definition disk_of : UpdateM Disk := '(u, um, d) ← get_state; mret d.

Definition set_version (v : string) (m : UpdateManager) : UpdateManager :=
  mk_UpdateManager (um_pending m) (um_history m) v (um_updating m).

Definition apply_payload (p : UpdatePayload) : UpdateM unit :=
  match p with
  | WasmChallenge wasm_bytes wasm_hash config =>
      let computed_hash := sha256_hex wasm_bytes in
      _ ← require (bool_decide (computed_hash = wasm_hash))
            (UpdateHashMismatch wasm_hash computed_hash);
      _ ← on_update (set_rollback []);
      _ ← on_disk (create_dir_all (parent (wasm_path (scc_id config))));
      on_disk (fs_write (wasm_path (scc_id config)) wasm_bytes)
  | ConfigPayload new_config =>
      _ ← lift (result_map_err (fun e => Validation
            match e with
            | InvalidValue m => "Invalid value: " +:+ m
            | MissingField m => "Missing required field: " +:+ m
            | ConfigIo m => "IO error: " +:+ m
            end) (SubnetConfig_validate new_config));
      d ← disk_of;
      _ ← (if path_exists d CONFIG_PATH then
             data ← lift (result_map_err UpdateIo (fs_read CONFIG_PATH d));
             on_update (set_rollback data)
           else mret tt);
      _ ← on_disk (config_save new_config CONFIG_PATH);
      modify (fun '(u, um, d) => (u, set_version (scf_version new_config) um, d))
  | ValidatorsPayload _ _ => mret tt
  | HardReset _ preserve_validators new_config =>
      _ ← on_disk (create_dir_all (SNAPSHOTS_DIR ++ ["pre_reset"%string]));
      _ ← (if preserve_validators then mret tt
           else d ← disk_of;
                if path_exists d ["validators"%string]
                then on_disk (remove_dir_all ["validators"%string]) else mret tt);
      d ← disk_of;
      _ ← (if path_exists d CHALLENGES_DIR then on_disk (remove_dir_all CHALLENGES_DIR)
           else mret tt);
      _ ← on_disk (create_dir_all CHALLENGES_DIR);
      match new_config with
      | Some config => on_disk (config_save config CONFIG_PATH)
      | None => mret tt
      end
  end.

Definition apply_update : UpdateM unit :=
  _ ← on_update (set_status UApplying);
  '(u, _, _) ← get_state;
  apply_payload (up_payload u).

(** [uuid_string] is the text form of a challenge id. *)
Definition rollback_update (uuid_string : ChallengeId -> string) (u : Update) :
    SE Disk UpdateError unit :=
  data ← lift (ok_or (up_rollback_data u) NoRollbackData);
  match up_target u with
  | TChallenge id => as_update_io (fs_write (wasm_path (uuid_string id)) data)
  | TConfig => as_update_io (fs_write CONFIG_PATH data)
  | _ => mret tt
  end.

Definition push_history (u : Update) (m : UpdateManager) : UpdateManager :=
  mk_UpdateManager (um_pending m) (um_history m ++ [u]) (um_current_version m) (um_updating m).
Definition set_updating (b : bool) (m : UpdateManager) : UpdateManager :=
  mk_UpdateManager (um_pending m) (um_history m) (um_current_version m) b.
Definition take_pending (m : UpdateManager) : UpdateManager :=
  mk_UpdateManager [] (um_history m) (um_current_version m) (um_updating m).

(** One update of the loop: whether it was applied, its final record, the
    manager before the record is filed, and the disk. *)
Definition process_update (now : DateTime) (uuid_string : ChallengeId -> string) (u : Update)
    (um : UpdateManager) (d : Disk) : bool * Update * UpdateManager * Disk :=
  match apply_update (u, um, d) with
  | (Ok _, (u, um, d)) => (true, set_applied now u, um, d)
  | (Err e, (u, um, d)) =>
      let u := set_status (UFailed e) u in
      match up_rollback_data u with
      | None => (false, u, um, d)
      | Some _ =>
          match rollback_update uuid_string u d with
          | (Ok _, d) => (false, set_status URolledBack u, um, d)
          | (Err _, d) => (false, u, um, d)
          end
      end
  end.

Fixpoint process_all (now : DateTime) (uuid_string : ChallengeId -> string) (us : list Update)
    (um : UpdateManager) (d : Disk) : list Uuid * UpdateManager * Disk :=
  match us with
  | [] => ([], um, d)
  | u :: us' =>
      let '(ok, u', um, d) := process_update now uuid_string u um d in
      let '(applied, um, d) := process_all now uuid_string us' (push_history u' um) d in
      ((if ok then [up_id u'] else []) ++ applied, um, d)
  end.

Definition process_updates (now : DateTime) (uuid_string : ChallengeId -> string)
    (um : UpdateManager) (d : Disk) : result UpdateError (list Uuid) * UpdateManager * Disk :=
  if um_updating um then (Err AlreadyUpdating, um, d)
  else
    let updates := um_pending um in
    let '(applied, um, d) :=
      process_all now uuid_string updates (take_pending (set_updating true um)) d in
    (Ok applied, set_updating false um, d).

Definition prune_history (keep : nat) (m : UpdateManager) : UpdateManager :=
  mk_UpdateManager (um_pending m)
    (if (keep <? length (um_history m))%nat
     then drop (length (um_history m) - keep) (um_history m) else um_history m)
    (um_current_version m) (um_updating m).

(** ** Snapshot operations *)

(** [id.snapshot]; [uuid_string] is the text form of an id. *)
Context (uuid_string : Uuid -> string).

Definition snapshot_path (id : Uuid) : Path :=
  SNAPSHOTS_DIR ++ [(uuid_string id +:+ ".snapshot")%string].
Definition INDEX_PATH : Path := SNAPSHOTS_DIR ++ ["index.json"%string].

(** The names of the entries of the challenges directory that have a
    database. *)
Definition challenge_names (d : Disk) : list string :=
  omap (fun p : Path => match p with [c; n; db] =>
          if decide (c = "challenges"%string /\ db = "db"%string) then Some n else None | _ => None end)
    (elements (dirs d ∪ dom (files d))).

(** [serialize_directory] stores the path only; [path_bytes] is its text. *)
Definition serialize_directory (path_bytes : Path -> bytes) (p : Path) : bytes := path_bytes p.

Definition collect_challenges (path_bytes : Path -> bytes) (d : Disk) : gmap string bytes :=
  if path_exists d CHALLENGES_DIR then
    list_to_map ((fun n => (n, serialize_directory path_bytes (CHALLENGES_DIR ++ [n; "db"%string])))
      <$> challenge_names d)
  else ∅.

Definition SnapM := SE (SnapshotManager * Disk) string.

Definition snap_disk {A} (m : SE Disk string A) : SnapM A := fun '(sm, d) =>
  let '(r, d) := m d in (r, (sm, d)).

Definition set_snapshots (l : list SnapshotMeta) (m : SnapshotManager) : SnapshotManager :=
  mk_SnapshotManager (smn_max_snapshots m) l.

Definition save_snapshot_index : SnapM unit :=
  '(sm, _) ← get_state;
  content ← lift (encode_index (smn_snapshots sm));
  snap_disk (fs_write INDEX_PATH content).

Definition by_date (a b : SnapshotMeta) : Prop := sn_created_at a <= sn_created_at b.
#[global] Instance by_date_dec : RelDecision by_date := fun a b => Z_le_dec _ _.

Fixpoint remove_snapshot_files (l : list SnapshotMeta) : SnapM unit :=
  match l with
  | [] => mret tt
  | m :: l' =>
      '(_, d) ← get_state;
      _ ← (if path_exists d (snapshot_path (sn_id m))
           then snap_disk (remove_file (snapshot_path (sn_id m))) else mret tt);
      remove_snapshot_files l'
  end.

Definition prune_snapshots : SnapM unit :=
  '(sm, _) ← get_state;
  if (length (smn_snapshots sm) <=? smn_max_snapshots sm)%nat then mret tt
  else
    let sorted := stable_sort by_date (smn_snapshots sm) in
    let to_remove := (length sorted - smn_max_snapshots sm)%nat in
    _ ← modify (fun '(sm, d) => (set_snapshots (drop to_remove sorted) sm, d));
    _ ← remove_snapshot_files (take to_remove sorted);
    save_snapshot_index.

Definition create_snapshot (path_bytes : Path -> bytes) (id : Uuid) (now : DateTime)
    (name : string) (block_height epoch : Z) (chain_state : ChainState) (reason : string)
    (auto : bool) : SnapM Uuid :=
  chain_state_bytes ← lift (encode_chain_state chain_state);
  '(_, d) ← get_state;
  config ← (if path_exists d CONFIG_PATH then lift (fs_read CONFIG_PATH d) else mret []);
  let meta := mk_SnapshotMeta id name block_height epoch (sha256_hex chain_state_bytes) now 0 auto
                reason in
  snapshot_bytes ← lift (encode_snapshot
    (mk_Snapshot meta chain_state_bytes (collect_challenges path_bytes d) config));
  _ ← snap_disk (fs_write (snapshot_path id) snapshot_bytes);
  let meta := mk_SnapshotMeta id name block_height epoch (sha256_hex chain_state_bytes) now
                (Z.of_nat (length snapshot_bytes)) auto reason in
  _ ← modify (fun '(sm, d) => (set_snapshots (smn_snapshots sm ++ [meta]) sm, d));
  _ ← save_snapshot_index;
  _ ← prune_snapshots;
  mret id.

Definition restore_snapshot (id : Uuid) (d : Disk) : result string Snapshot :=
  if negb (path_exists d (snapshot_path id)) then
    Err ("Snapshot not found: " +:+ uuid_string id)%string
  else
    snapshot_bytes ← fs_read (snapshot_path id) d;
    snapshot ← decode_snapshot snapshot_bytes;
    if decide (sha256_hex (snp_chain_state snapshot) = sn_state_hash (snp_meta snapshot))
    then Ok snapshot else Err "Snapshot corrupted: hash mismatch"%string.

(** [deserialize_directory] writes the stored bytes into a file. *)
Definition deserialize_directory (p : Path) (data : bytes) : SE Disk string unit :=
  _ ← create_dir_all p;
  match data with
  | [] => mret tt
  | _ => fs_write (p ++ ["data.bin"%string]) data
  end.

Fixpoint restore_challenges (l : list (string * bytes)) : SE Disk string unit :=
  match l with
  | [] => mret tt
  | (n, data) :: l' =>
      _ ← create_dir_all (CHALLENGES_DIR ++ [n]);
      _ ← deserialize_directory (CHALLENGES_DIR ++ [n; "db"%string]) data;
      restore_challenges l'
  end.

Context {HS : HashOrder string}.

Definition apply_snapshot (s : Snapshot) : SE Disk string ChainState :=
  chain_state ← lift (decode_chain_state (snp_chain_state s));
  _ ← (match snp_config s with
       | [] => mret tt
       | config => fs_write CONFIG_PATH config
       end);
  _ ← create_dir_all CHALLENGES_DIR;
  _ ← restore_challenges (hm_iter (snp_challenge_data s));
  mret chain_state.

(** [max_by_key]: the last of the newest. *)
Definition latest_snapshot (m : SnapshotManager) : option SnapshotMeta :=
  fold_left (fun best s =>
    match best with
    | None => Some s
    | Some t => if sn_created_at t <=? sn_created_at s then Some s else best
    end) (smn_snapshots m) None.

Definition get_snapshot (m : SnapshotManager) (id : Uuid) : option SnapshotMeta :=
  snd <$> list_find (fun s => sn_id s = id) (smn_snapshots m).

Definition delete_snapshot (id : Uuid) : SnapM unit :=
  '(_, d) ← get_state;
  _ ← (if path_exists d (snapshot_path id) then snap_disk (remove_file (snapshot_path id))
       else mret tt);
  _ ← modify (fun '(sm, d) =>
        (set_snapshots (filter (fun s => sn_id s <> id) (smn_snapshots sm)) sm, d));
  save_snapshot_index.
End manager.
