(* ===== verification/SubnetCommands.v ===== *)
(** * Recovery and owner commands of a subnet

    Models [crates/subnet-manager/src/recovery.rs] ([RecoveryManager]) and
    [commands.rs] ([CommandExecutor]).  The objects the source shares behind
    locks are the fields of one [Subnet]. *)

From S2P Require Import Prelude Float64 Crypto RustStrings CoreTypes CoreState SubnetConfig SubnetManager.

(** ** Recovery *)

Inductive RecoveryAction : Type :=
| RestartEvaluations
| ClearJobQueue
| ReconnectPeers
| RollbackToSnapshot (id : Uuid)
| RecoveryHardReset (reason : string)
| PauseAction
| ResumeAction.

Record RecoveryAttempt : Type := mk_RecoveryAttempt {
  ra_id : Uuid;
  ra_action : RecoveryAction;
  ra_reason : string;
  ra_timestamp : DateTime;
  ra_success : bool;
  ra_details : string
}.

Record RecoveryManager : Type := mk_RecoveryManager {
  rm_config : RecoveryConfig;
  rm_history : list RecoveryAttempt;
  rm_current_attempts : Z;
  rm_last_recovery : option DateTime;
  rm_paused : bool
}.

Definition RecoveryManager_new (config : RecoveryConfig) : RecoveryManager :=
  mk_RecoveryManager config [] 0 None false.

Definition set_attempts (n : Z) (r : RecoveryManager) : RecoveryManager :=
  mk_RecoveryManager (rm_config r) (rm_history r) n (rm_last_recovery r) (rm_paused r).
Definition set_last_recovery (t : DateTime) (r : RecoveryManager) : RecoveryManager :=
  mk_RecoveryManager (rm_config r) (rm_history r) (rm_current_attempts r) (Some t) (rm_paused r).
Definition set_paused (b : bool) (r : RecoveryManager) : RecoveryManager :=
  mk_RecoveryManager (rm_config r) (rm_history r) (rm_current_attempts r) (rm_last_recovery r) b.
Definition push_attempt (a : RecoveryAttempt) (r : RecoveryManager) : RecoveryManager :=
  mk_RecoveryManager (rm_config r) (rm_history r ++ [a]) (rm_current_attempts r)
    (rm_last_recovery r) (rm_paused r).

(** The shared objects of a validator's subnet. *)
Record Subnet : Type := mk_Subnet {
  sub_updates : UpdateManager;
  sub_snapshots : SnapshotManager;
  sub_disk : Disk;
  sub_recovery : RecoveryManager;
  sub_health : HealthMonitor;
  sub_state : ChainState;
  sub_bans : BanList
}.

Definition with_updates (x : UpdateManager) (s : Subnet) : Subnet :=
  mk_Subnet x (sub_snapshots s) (sub_disk s) (sub_recovery s) (sub_health s) (sub_state s) (sub_bans s).
Definition with_snapshots (x : SnapshotManager) (d : Disk) (s : Subnet) : Subnet :=
  mk_Subnet (sub_updates s) x d (sub_recovery s) (sub_health s) (sub_state s) (sub_bans s).
Definition with_disk (d : Disk) (s : Subnet) : Subnet :=
  mk_Subnet (sub_updates s) (sub_snapshots s) d (sub_recovery s) (sub_health s) (sub_state s)
    (sub_bans s).
Definition with_recovery (x : RecoveryManager) (s : Subnet) : Subnet :=
  mk_Subnet (sub_updates s) (sub_snapshots s) (sub_disk s) x (sub_health s) (sub_state s)
    (sub_bans s).
Definition with_state (x : ChainState) (s : Subnet) : Subnet :=
  mk_Subnet (sub_updates s) (sub_snapshots s) (sub_disk s) (sub_recovery s) (sub_health s) x
    (sub_bans s).
Definition with_bans (x : BanList) (s : Subnet) : Subnet :=
  mk_Subnet (sub_updates s) (sub_snapshots s) (sub_disk s) (sub_recovery s) (sub_health s)
    (sub_state s) x.

Section subnet.
Context `{External} `{IdSource} `{DiskIO} `{SubnetCodec} {HS : HashOrder string}.
Context (uuid_string : Uuid -> string) (path_bytes : Path -> bytes).

Definition rollback_to_snapshot (id : Uuid) : SE Disk string ChainState := fun d =>
  match restore_snapshot uuid_string id d with
  | Ok snapshot => apply_snapshot snapshot d
  | Err e => (Err e, d)
  end.

(** The effect of an action, its success and details; the state that a
    rollback reads is dropped. *)
Definition recovery_effect (id : Uuid) (now : DateTime) (action : RecoveryAction) (s : Subnet) :
    bool * string * Subnet :=
  match action with
  | RestartEvaluations => (true, "Signaled evaluation restart"%string, s)
  | ClearJobQueue => (true, "Job queue cleared"%string, s)
  | ReconnectPeers => (true, "Signaled peer reconnection"%string, s)
  | RollbackToSnapshot snapshot_id =>
      match rollback_to_snapshot snapshot_id (sub_disk s) with
      | (Ok _, d) =>
          (true, ("Rolled back to snapshot " +:+ uuid_string snapshot_id)%string, with_disk d s)
      | (Err e, d) => (false, ("Rollback failed: " +:+ e)%string, with_disk d s)
      end
  | RecoveryHardReset reason =>
      (true, ("Hard reset queued: " +:+ reason)%string,
       with_updates (queue_update id now TAllChallenges (HardReset reason true None) "recovery"
                       (sub_updates s)) s)
  | PauseAction => (true, "Subnet paused"%string, with_recovery (set_paused true (sub_recovery s)) s)
  | ResumeAction =>
      (true, "Subnet resumed"%string,
       with_recovery (set_attempts 0 (set_paused false (sub_recovery s))) s)
  end.

Definition execute_recovery (id : Uuid) (now : DateTime) (action : RecoveryAction) (s : Subnet) :
    RecoveryAttempt * Subnet :=
  let '(success, details, s) := recovery_effect (id + 1) now action s in
  let attempt := mk_RecoveryAttempt id action "Automatic recovery" now success details in
  (attempt, with_recovery (push_attempt attempt (sub_recovery s)) s).

Definition rollback_to_last_snapshot (id : Uuid) (now : DateTime) (s : Subnet) :
    option RecoveryAttempt * Subnet :=
  match latest_snapshot (sub_snapshots s) with
  | Some meta =>
      let '(a, s) := execute_recovery id now (RollbackToSnapshot (sn_id meta)) s in (Some a, s)
  | None => (None, s)
  end.

(** The action for a status that is not healthy. *)
Definition recovery_action (h : HealthMonitor) (pause_on_critical : bool) : option RecoveryAction :=
  match current_status h with
  | Critical =>
      Some (if pause_on_critical then PauseAction else RecoveryHardReset "Critical health status")
  | Unhealthy =>
      Some match worst_component h with
           | Some (component, _) =>
               if decide (component = "job_queue"%string) then ClearJobQueue
               else if decide (component = "network"%string) then ReconnectPeers
               else RestartEvaluations
           | None => RestartEvaluations
           end
  | Degraded => Some RestartEvaluations
  | Healthy => None
  end.

Definition in_cooldown (now : DateTime) (r : RecoveryManager) : bool :=
  match rm_last_recovery r with
  | Some last => now - last <? rcf_cooldown_secs (rm_config r) * 1000
  | None => false
  end.

Definition check_and_recover (id : Uuid) (now : DateTime) (s : Subnet) :
    option RecoveryAttempt * Subnet :=
  let r := sub_recovery s in
  let h := sub_health s in
  let critical := bool_decide (current_status h = Critical) in
  if rm_paused r && negb critical then (None, s)
  else if in_cooldown now r then (None, s)
  else if negb (needs_recovery h) && negb critical then
    (None, with_recovery (set_attempts 0 r) s)
  else if rcf_max_attempts (rm_config r) <=? rm_current_attempts r then
    if rcf_rollback_on_failure (rm_config r) then rollback_to_last_snapshot id now s
    else if rcf_pause_on_critical (rm_config r) then
      let '(a, s) := execute_recovery id now PauseAction s in (Some a, s)
    else (None, s)
  else
    let s := with_recovery (set_last_recovery now
               (set_attempts (u32_wrap (rm_current_attempts r + 1)) r)) s in
    match recovery_action h (rcf_pause_on_critical (rm_config r)) with
    | Some action => let '(a, s) := execute_recovery id now action s in (Some a, s)
    | None => (None, s)
    end.

Definition resume_subnet (id : Uuid) (now : DateTime) (s : Subnet) : RecoveryAttempt * Subnet :=
  execute_recovery id now ResumeAction s.

Definition manual_recovery (id : Uuid) (now : DateTime) (action : RecoveryAction) (s : Subnet) :
    RecoveryAttempt * Subnet :=
  execute_recovery id now action s.

(** ** Commands *)

Inductive SubnetCommand : Type :=
| DeployChallenge (config : SubnetChallengeConfig) (wasm_bytes : bytes)
| CmdUpdateChallenge (challenge_id : string) (config : option SubnetChallengeConfig)
    (wasm_bytes : option bytes)
| CmdRemoveChallenge (challenge_id : string)
| PauseChallenge (challenge_id : string)
| ResumeChallenge (challenge_id : string)
| CmdSyncValidators
| KickValidator (hotkey : Hotkey) (reason : string)
| BanValidator (hotkey : Hotkey) (reason : string)
| UnbanValidator (hotkey : Hotkey)
| BanHotkey (hotkey : Hotkey) (reason : string)
| BanColdkey (coldkey reason : string)
| UnbanHotkey (hotkey : Hotkey)
| UnbanColdkey (coldkey : string)
| ListBanned
| CmdUpdateConfig (config : SubnetConfig)
| SetEpochLength (blocks : Z)
| SetMinStake (amount : Z)
| CreateSnapshot (name reason : string)
| CmdRollbackToSnapshot (snapshot_id : Uuid)
| CmdHardReset (reason : string) (preserve_validators : bool)
| PauseSubnet (reason : string)
| ResumeSubnet
| TriggerRecovery (action : RecoveryAction)
| GetStatus
| GetHealth
| ListChallenges
| ListValidators
| ListSnapshots.

(** The JSON that a query returns. *)
Inductive CommandData : Type :=
| BanData (summary : BanSummary) (validators hotkeys coldkeys : list string)
| StatusData (version : string) (block_height epoch : Z) (validators challenges : nat)
    (paused : bool) (pending_updates : nat)
| HealthData (status : HealthStatus) (uptime_secs : Z) (active_alerts : nat)
| ChallengeData (ids : list ChallengeId)
| ValidatorData (validators : list (Hotkey * Z))
| SnapshotData (snapshots : list SnapshotMeta).

Record CommandResult : Type := mk_CommandResult {
  cr_success : bool;
  cr_message : string;
  cr_data : option CommandData
}.

Definition result_ok (m : string) : CommandResult := mk_CommandResult true m None.
Definition ok_with_data (m : string) (d : CommandData) : CommandResult :=
  mk_CommandResult true m (Some d).
Definition result_error (m : string) : CommandResult := mk_CommandResult false m None.

Context {HK : HashOrder Hotkey} {HI : HashOrder Z} (display : Hotkey -> string) (sudo_key : Hotkey).

Definition BANS_PATH : Path := ["bans.json"%string].

(** [let _ = bans.save(..)]: a failure is ignored. *)
Definition save_bans (s : Subnet) : Subnet :=
  match encode_bans (sub_bans s) with
  | Ok content => with_disk (fs_write BANS_PATH content (sub_disk s)).2 s
  | Err _ => s
  end.

Definition queue (id : Uuid) (now : DateTime) (target : UpdateTarget) (payload : UpdatePayload)
    (version : string) (s : Subnet) : Subnet :=
  with_updates (queue_update id now target payload version (sub_updates s)) s.

Definition set_wasm_hash (h : string) (c : SubnetChallengeConfig) : SubnetChallengeConfig :=
  mk_SubnetChallengeConfig (scc_id c) (scc_name c) h (scc_wasm_source c) (scc_emission_weight c)
    (scc_active c) (scc_timeout_secs c) (scc_max_concurrent c).

(** Changes the stored configuration, if it can be loaded. *)
Definition edit_config (f : SubnetConfig -> SubnetConfig) (s : Subnet) : Subnet :=
  match config_load CONFIG_PATH (sub_disk s) with
  | Ok config => with_disk (config_save (f config) CONFIG_PATH (sub_disk s)).2 s
  | Err _ => s
  end.

Definition execute_command (id : Uuid) (now : DateTime) (cmd : SubnetCommand) (s : Subnet) :
    CommandResult * Subnet :=
  match cmd with
  | DeployChallenge config wasm_bytes =>
      let hash := sha256_hex wasm_bytes in
      (result_ok ("Challenge deploy queued: " +:+ uuid_string id),
       queue id now (TChallenge (ChallengeId_from_string (scc_id config)))
         (WasmChallenge wasm_bytes hash (set_wasm_hash hash config)) (scc_name config) s)
  | CmdUpdateChallenge challenge_id config wasm_bytes =>
      match wasm_bytes, config with
      | None, None => (result_error "No update provided", s)
      | _, _ =>
          (result_ok ("Challenge update queued: " +:+ challenge_id),
           match wasm_bytes with
           | Some wasm =>
               let hash := sha256_hex wasm in
               let cfg := match config with
                 | Some c => c
                 | None => mk_SubnetChallengeConfig challenge_id challenge_id hash "" f64_one true
                             600 10
                 end in
               queue id now (TChallenge (ChallengeId_from_string challenge_id))
                 (WasmChallenge wasm hash cfg) "update" s
           | None => s
           end)
      end
  | CmdRemoveChallenge challenge_id =>
      (result_ok ("Challenge removed: " +:+ challenge_id),
       with_state (set_challenges (delete (ChallengeId_from_string challenge_id)
                     (st_challenges (sub_state s))) (sub_state s)) s)
  | PauseChallenge challenge_id => (result_ok ("Challenge paused: " +:+ challenge_id), s)
  | ResumeChallenge challenge_id => (result_ok ("Challenge resumed: " +:+ challenge_id), s)
  | CmdSyncValidators =>
      (result_ok "Validator sync triggered - will update from Bittensor metagraph", s)
  | KickValidator hotkey _ =>
      let s' := with_state (set_validators (delete hotkey (st_validators (sub_state s)))
                  (sub_state s)) s in
      if decide (is_Some (st_validators (sub_state s) !! hotkey))
      then (result_ok ("Validator kicked: " +:+ display hotkey +:+
              " (will rejoin on next sync if still registered)"), s')
      else (result_error ("Validator not found: " +:+ display hotkey), s')
  | BanValidator hotkey reason =>
      (result_ok ("Validator banned permanently: " +:+ display hotkey),
       save_bans
         (with_state (set_validators (delete hotkey (st_validators (sub_state s))) (sub_state s))
         (with_bans (ban_validator now hotkey reason (Hotkey_to_hex sudo_key) (sub_bans s)) s)))
  | UnbanValidator hotkey =>
      let '(found, bans) := unban_validator hotkey (sub_bans s) in
      if found then (result_ok ("Validator unbanned: " +:+ display hotkey),
                     save_bans (with_bans bans s))
      else (result_error ("Validator not in ban list: " +:+ display hotkey), with_bans bans s)
  | BanHotkey hotkey reason =>
      (result_ok ("Hotkey banned from all emissions: " +:+ display hotkey),
       save_bans (with_bans (ban_hotkey now hotkey reason (Hotkey_to_hex sudo_key) (sub_bans s)) s))
  | BanColdkey coldkey reason =>
      (result_ok ("Coldkey banned (all associated hotkeys): " +:+ coldkey),
       save_bans (with_bans (ban_coldkey now coldkey reason (Hotkey_to_hex sudo_key) (sub_bans s)) s))
  | UnbanHotkey hotkey =>
      let '(found, bans) := unban_hotkey hotkey (sub_bans s) in
      if found then (result_ok ("Hotkey unbanned: " +:+ display hotkey),
                     save_bans (with_bans bans s))
      else (result_error ("Hotkey not in ban list: " +:+ display hotkey), with_bans bans s)
  | UnbanColdkey coldkey =>
      let '(found, bans) := unban_coldkey coldkey (sub_bans s) in
      if found then (result_ok ("Coldkey unbanned: " +:+ coldkey), save_bans (with_bans bans s))
      else (result_error ("Coldkey not in ban list: " +:+ coldkey), with_bans bans s)
  | ListBanned =>
      (ok_with_data "Ban list" (BanData (ban_summary (sub_bans s))
         (hm_keys (bl_validators (sub_bans s))) (hm_keys (bl_hotkeys (sub_bans s)))
         (hm_keys (bl_coldkeys (sub_bans s)))), s)
  | CmdUpdateConfig config =>
      (result_ok "Config update queued",
       queue id now TConfig (ConfigPayload config) (scf_version config) s)
  | SetEpochLength blocks =>
      (result_ok ("Epoch length set to " +:+ Z_to_string blocks +:+ " blocks"),
       edit_config (set_epoch_length blocks) s)
  | SetMinStake amount =>
      (result_ok ("Min stake set to " +:+ Z_to_string amount +:+ " RAO"),
       edit_config (set_min_stake amount) s)
  | CreateSnapshot name reason =>
      match create_snapshot uuid_string path_bytes id now name (st_block_height (sub_state s))
              (st_epoch (sub_state s)) (sub_state s) reason false (sub_snapshots s, sub_disk s) with
      | (Ok id, (sm, d)) =>
          (result_ok ("Snapshot created: " +:+ uuid_string id), with_snapshots sm d s)
      | (Err e, (sm, d)) =>
          (result_error ("Failed to create snapshot: " +:+ e), with_snapshots sm d s)
      end
  | CmdRollbackToSnapshot snapshot_id =>
      match restore_snapshot uuid_string snapshot_id (sub_disk s) with
      | Ok snapshot =>
          match apply_snapshot snapshot (sub_disk s) with
          | (Ok new_state, d) =>
              (result_ok ("Rolled back to snapshot: " +:+ uuid_string snapshot_id),
               with_state new_state (with_disk d s))
          | (Err e, d) => (result_error ("Failed to apply snapshot: " +:+ e), with_disk d s)
          end
      | Err e => (result_error ("Failed to restore snapshot: " +:+ e), s)
      end
  | CmdHardReset reason preserve_validators =>
      (result_ok ("Hard reset queued: " +:+ reason),
       queue id now TAllChallenges (HardReset reason preserve_validators None) "hard_reset" s)
  | PauseSubnet reason =>
      let '(_, s) := manual_recovery id now PauseAction s in
      (result_ok ("Subnet paused: " +:+ reason), s)
  | ResumeSubnet => let '(_, s) := resume_subnet id now s in (result_ok "Subnet resumed", s)
  | TriggerRecovery action =>
      let '(a, s) := manual_recovery id now action s in
      (if ra_success a then result_ok ("Recovery executed: " +:+ ra_details a)
       else result_error ("Recovery failed: " +:+ ra_details a), s)
  | GetStatus =>
      (ok_with_data "Subnet status"
         (StatusData (um_current_version (sub_updates s)) (st_block_height (sub_state s))
            (st_epoch (sub_state s)) (size (st_validators (sub_state s)))
            (size (st_challenges (sub_state s))) (rm_paused (sub_recovery s))
            (length (um_pending (sub_updates s)))), s)
  | GetHealth =>
      (ok_with_data "Health status"
         (HealthData (current_status (sub_health s))
            ((now - hmo_start_time (sub_health s)) / 1000)
            (length (active_alerts (sub_health s)))), s)
  | ListChallenges =>
      let ids := hm_keys (st_challenges (sub_state s)) in
      (ok_with_data (Z_to_string (Z.of_nat (length ids)) +:+ " challenges") (ChallengeData ids), s)
  | ListValidators =>
      let vs := (fun '(k, v) => (k, stake_rao (vi_stake v))) <$> hm_iter (st_validators (sub_state s)) in
      (ok_with_data (Z_to_string (Z.of_nat (length vs)) +:+ " validators") (ValidatorData vs), s)
  | ListSnapshots =>
      let l := smn_snapshots (sub_snapshots s) in
      (ok_with_data (Z_to_string (Z.of_nat (length l)) +:+ " snapshots") (SnapshotData l), s)
  end.

(** [decode_command] is bincode. *)
Context (decode_command : bytes -> result MiniChainError SubnetCommand).

Definition verify_signature (signed : SignedMessage) : bool :=
  match SignedMessage_verify signed with
  | Ok ok => ok && bool_decide (sm_signer signed = sudo_key)
  | Err _ => false
  end.

Definition execute (id : Uuid) (now : DateTime) (signed : SignedMessage) (s : Subnet) :
    CommandResult * Subnet :=
  if negb (verify_signature signed) then (result_error "Invalid signature or not authorized", s)
  else
    match decode_command (sm_message signed) with
    | Err e =>
        (result_error ("Failed to deserialize command: " +:+ MiniChainError_to_string e), s)
    | Ok cmd => execute_command id now cmd s
    end.
End subnet.
