(* ===== verification/SubnetProps.v ===== *)
(** * Theorems about the subnet manager

    Updates, snapshots, health, recovery and the owner's commands. *)

From S2P Require Import Prelude Float64 Crypto RustStrings CoreTypes CoreState SubnetConfig SubnetManager SubnetCommands.

(** ** Health *)

Section health.

Lemma worse_status_rank a b :
  worse_status a b = a \/ worse_status a b = b.
Proof. destruct a, b; auto. Qed.

(** A failure count, with the alert that raised it. *)
Definition counts_are_open (h : HealthMonitor) : Prop :=
  forall c n, hmo_failure_counts h !! c = Some n ->
    n = 1 /\ has_open_alert c h = true.

Lemma has_open_alert_spec c h :
  has_open_alert c h = true <->
  exists a, a ∈ hmo_alerts h /\ al_component a = c /\ al_acknowledged a = false.
Proof.
  unfold has_open_alert. rewrite existsb_exists. setoid_rewrite <- list_elem_of_In.
  setoid_rewrite andb_true_iff. setoid_rewrite bool_decide_eq_true.
  setoid_rewrite negb_true_iff. done.
Qed.

Lemma check_component_counts id now f h :
  counts_are_open h -> counts_are_open (check_component id now f h).2.
Proof.
  intros Hc. unfold check_component. destruct (fd_alert f) as [[sev msg]|]; simpl.
  - unfold add_alert. destruct (has_open_alert (fd_component f) h) eqn:Ho; [done|].
    intros c n. cbn [hmo_failure_counts set_alerts]. rewrite lookup_insert_Some.
    assert (Hmono : forall c, has_open_alert c h = true ->
      has_open_alert c (set_alerts (hmo_alerts h ++
        [mk_HealthAlert id sev msg (fd_component f) now false])
        (<[fd_component f := u32_wrap (default 0 (hmo_failure_counts h !! fd_component f) + 1)]>
           (hmo_failure_counts h)) h) = true).
    { intros c'. rewrite !has_open_alert_spec. intros (a & Ha & ?). exists a.
      split; [|done]. simpl. apply elem_of_app. by left. }
    intros [[<- <-]|[Hne Hl]].
    + destruct (hmo_failure_counts h !! fd_component f) as [m|] eqn:Hl.
      { apply Hc in Hl as [_ Hl]. congruence. }
      split; [done|]. apply has_open_alert_spec.
      exists (mk_HealthAlert id sev msg (fd_component f) now false). split; [|done].
      simpl. apply elem_of_app. right. by apply list_elem_of_singleton.
    + apply Hc in Hl as [-> Hl]. auto.
  - intros c n. cbn [clear_failure hmo_failure_counts set_alerts].
    rewrite lookup_delete_Some. intros [Hne Hl]. apply Hc in Hl as [-> Hl]. split; [done|].
    rewrite has_open_alert_spec in Hl |- *. destruct Hl as (a & Ha & Hcomp & Hack).
    exists a. split; [|done]. simpl. apply list_elem_of_fmap. exists a.
    rewrite decide_False by congruence. done.
Qed.

Lemma check_components_counts id now fs status h :
  counts_are_open h -> counts_are_open (check_components id now fs status h).2.
Proof.
  revert id status h. induction fs as [|f fs IH]; intros id status h Hc; [done|]. cbn [check_components].
  apply (check_component_counts id now f) in Hc. revert Hc.
  destruct (check_component id now f h) as [c h'] eqn:Hcc. simpl. intros Hc.
  specialize (IH (id + 1) (if decide (chl_status c <> Healthy)
    then worse_status status (chl_status c) else status) h' Hc).
  revert IH. by destruct (check_components (id + 1) now fs _ h') as [[? ?] ?].
Qed.

Lemma check_components_config id now fs status h :
  hmo_config (check_components id now fs status h).2 = hmo_config h.
Proof.
  revert id status h. induction fs as [|f fs IH]; intros id status h; [done|]. cbn [check_components].
  destruct (check_component id now f h) as [c h'] eqn:Hcc.
  specialize (IH (id + 1) (if decide (chl_status c <> Healthy)
    then worse_status status (chl_status c) else status) h').
  revert IH. destruct (check_components (id + 1) now fs _ h') as [[? ?] ?]. simpl. intros ->.
  unfold check_component in Hcc. injection Hcc as _ <-.
  destruct (fd_alert f) as [[? ?]|]; unfold add_alert, clear_failure; by try case_match.
Qed.

(** The monitor after checks only. *)
Inductive monitored : HealthMonitor -> HealthMonitor -> Prop :=
| MonitorStart h : monitored h h
| MonitorCheck h0 h id now m :
    monitored h0 h -> monitored h0 (health_check id now m h).2.

Lemma health_check_counts id now m h :
  counts_are_open h -> counts_are_open (health_check id now m h).2.
Proof.
  intros Hc. unfold health_check.
  pose proof (check_components_counts id now (findings (hmo_config h) m) Healthy h Hc) as Hcc.
  revert Hcc.
  by destruct (check_components id now (findings (hmo_config h) m) Healthy h) as [[? ?] ?].
Qed.

Lemma health_check_config id now m h : hmo_config (health_check id now m h).2 = hmo_config h.
Proof.
  unfold health_check. pose proof (check_components_config id now (findings (hmo_config h) m) Healthy h) as Hcc.
  revert Hcc. by destruct (check_components id now (findings (hmo_config h) m) Healthy h) as [[? ?] ?].
Qed.

Lemma monitored_counts now config h :
  monitored (HealthMonitor_new now config) h -> counts_are_open h /\ hmo_config h = config.
Proof.
  intros Hm. remember (HealthMonitor_new now config) as h0 eqn:Hh0. induction Hm as [h|h0 h ? ? ? _ IH].
  - subst. split; [|done]. intros c n. simpl. by rewrite lookup_empty.
  - destruct (IH Hh0) as [? ?]. split; [by apply health_check_counts|by rewrite health_check_config].
Qed.

Context {HS : HashOrder string}.

Lemma needs_recovery_never now config h :
  monitored (HealthMonitor_new now config) h -> 1 < hcf_failure_threshold config ->
  needs_recovery h = false.
Proof.
  intros [Hc Hconf]%monitored_counts Ht. unfold needs_recovery. apply not_true_iff_false.
  rewrite existsb_exists. intros (n & Hin & Hle). apply list_elem_of_In, elem_of_hm_values in Hin as [c Hl].
  apply Hc in Hl as [-> _]. rewrite Hconf in Hle. lia.
Qed.
End health.

(** ** Recovery *)

Section recovery.
Context `{External} `{IdSource} `{DiskIO} `{SubnetCodec} {HS : HashOrder string}.
Context (uuid_string : Uuid -> string) (path_bytes : Path -> bytes).

(** Automatic recovery acts on critical health only: the monitor counts an
    open alert once, so that after any sequence of health checks no component
    reaches a failure threshold above one, and [check_and_recover] does nothing
    for a degraded or unhealthy subnet but reset its attempts - whatever the
    number of failed checks, although it has actions for both.  On critical
    health, outside the cooldown and below the maximum of attempts, it pauses
    the subnet (when configured so) and counts the attempt. *)
Theorem recovery_acts_on_critical_only start id now s :
  monitored (HealthMonitor_new start (hmo_config (sub_health s))) (sub_health s) ->
  1 < hcf_failure_threshold (hmo_config (sub_health s)) ->
  let '(a, s') := check_and_recover uuid_string id now s in
  (current_status (sub_health s) <> Critical ->
   a = None /\ (s' = s \/ s' = with_recovery (set_attempts 0 (sub_recovery s)) s)) /\
  (current_status (sub_health s) = Critical -> in_cooldown now (sub_recovery s) = false ->
   0 <= rm_current_attempts (sub_recovery s) < rcf_max_attempts (rm_config (sub_recovery s)) ->
   rcf_max_attempts (rm_config (sub_recovery s)) < 2 ^ 32 ->
   rcf_pause_on_critical (rm_config (sub_recovery s)) = true ->
   exists attempt, a = Some attempt /\ ra_action attempt = PauseAction /\
     rm_paused (sub_recovery s') = true /\
     rm_current_attempts (sub_recovery s') = rm_current_attempts (sub_recovery s) + 1 /\
     rm_last_recovery (sub_recovery s') = Some now /\ sub_state s' = sub_state s).
Proof.
  intros Hm Ht. pose proof (needs_recovery_never start _ _ Hm Ht) as Hn.
  unfold check_and_recover. rewrite Hn. cbn [negb andb].
  destruct (decide (current_status (sub_health s) = Critical)) as [Hc|Hc].
  - rewrite (bool_decide_eq_true_2 _ Hc). cbn [negb]. rewrite andb_false_r.
    destruct (in_cooldown now (sub_recovery s)) eqn:Hcool; [split; [done|congruence]|].
    destruct (Z.leb_spec (rcf_max_attempts (rm_config (sub_recovery s)))
                (rm_current_attempts (sub_recovery s))) as [Hle|Hlt].
    { destruct (if rcf_rollback_on_failure (rm_config (sub_recovery s)) then _ else _) as [a s'].
      split; [done|]. intros; lia. }
    unfold recovery_action. rewrite Hc.
    destruct (rcf_pause_on_critical (rm_config (sub_recovery s))); simpl; [|done].
    split; [done|]. intros _ _ Hb Hmax _. eexists. repeat split; simpl; try done.
    unfold u32_wrap. rewrite Z.mod_small by lia. done.
  - rewrite (bool_decide_eq_false_2 _ Hc). cbn [negb]. rewrite andb_true_r.
    destruct (rm_paused (sub_recovery s)); [split; [auto|done]|].
    destruct (in_cooldown now (sub_recovery s)); split; auto; done.
Qed.
End recovery.

(** ** Updates *)

Section updates.
Context `{External} `{DiskIO} `{SubnetCodec}.

(** What applying an update cannot change: its identity, and the queues. *)
Definition same_update (u v : Update) : Prop :=
  up_id v = up_id u /\ up_update_type v = up_update_type u /\ up_version v = up_version u /\
  up_target v = up_target u /\ up_payload v = up_payload u /\ up_created_at v = up_created_at u.
Definition same_queues (m n : UpdateManager) : Prop :=
  um_pending n = um_pending m /\ um_history n = um_history m /\ um_updating n = um_updating m.

Definition keeps (u : Update) (um : UpdateManager) (s : Update * UpdateManager * Disk) : Prop :=
  same_update u s.1.1 /\ same_queues um s.1.2.

Lemma wp_on_disk {A} (m : SE Disk string A) (Q : result UpdateError A -> _ -> Prop) u um d :
  (forall r d', Q r (u, um, d')) -> wp (on_disk m) Q (u, um, d).
Proof. intros HQ. unfold wp, on_disk. destruct (m d). apply HQ. Qed.

Lemma wp_keeps_disk {A} (m : SE Disk string A) u um s :
  keeps u um s -> wp (on_disk m) (fun _ s' => keeps u um s') s.
Proof. destruct s as [[u' um'] d]. intros Hk. apply wp_on_disk. intros r d'. exact Hk. Qed.

Lemma wp_keeps_seq {A B} (m : UpdateM A) (f : A -> UpdateM B) u um s :
  wp m (fun _ s' => keeps u um s') s ->
  (forall a s', keeps u um s' -> wp (f a) (fun _ s'' => keeps u um s'') s') ->
  wp (mbind f m) (fun _ s' => keeps u um s') s.
Proof.
  intros Hm Hf. apply wp_bind. eapply wp_consequence; [exact Hm|].
  intros [a|e] s' Hk; [by apply Hf|done].
Qed.

Lemma apply_payload_keeps p u um s :
  keeps u um s -> wp (apply_payload p) (fun _ s' => keeps u um s') s.
Proof.
  assert (Hret : forall s, keeps u um s -> wp (mret tt : UpdateM unit) (fun _ s' => keeps u um s') s)
    by done.
  assert (Hget : forall s, keeps u um s -> wp disk_of (fun _ s' => keeps u um s') s)
    by (intros [[? ?] ?]; done).
  assert (Hrb : forall data s, keeps u um s ->
    wp (on_update (set_rollback data)) (fun _ s' => keeps u um s') s).
  { intros data [[u' um'] d] [Hu Hq]. split; [|done]. exact Hu. }
  destruct p as [wasm hash config|config|add rem|reason preserve config]; intros Hk;
    cbn [apply_payload].
  - repeat (apply wp_keeps_seq; [|intros [] ? ?]); auto using wp_keeps_disk.
    unfold wp, require. by case_match.
  - apply wp_keeps_seq; [done|intros [] s1 K1].
    apply wp_keeps_seq; [auto|intros d0 s2 K2].
    apply wp_keeps_seq.
    { case_match; [|auto]. apply wp_keeps_seq; [done|intros data s3 K3; auto]. }
    intros [] s3 K3. apply wp_keeps_seq; [by apply wp_keeps_disk|].
    intros [] [[u' um'] d'] [Hu Hq]. split; [exact Hu|exact Hq].
  - auto.
  - apply wp_keeps_seq; [by apply wp_keeps_disk|intros [] s1 K1].
    apply wp_keeps_seq.
    { destruct preserve; [auto|]. apply wp_keeps_seq; [auto|intros d0 s2 K2].
      case_match; auto using wp_keeps_disk. }
    intros [] s2 K2. apply wp_keeps_seq; [auto|intros d0 s3 K3].
    apply wp_keeps_seq; [case_match; auto using wp_keeps_disk|intros [] s4 K4].
    apply wp_keeps_seq; [by apply wp_keeps_disk|intros [] s5 K5].
    destruct config; auto using wp_keeps_disk.
Qed.

Lemma apply_update_keeps u um d :
  keeps u um (apply_update (u, um, d)).2.
Proof.
  assert (Hwp : wp apply_update (fun _ s' => keeps u um s') (u, um, d)); [|exact Hwp].
  unfold apply_update. apply wp_keeps_seq; [by repeat split|].
  intros [] [[u' um'] d'] Hk. apply wp_keeps_seq; [exact Hk|].
  intros [[u'' um''] d''] s'' Hk''. by apply apply_payload_keeps.
Qed.

(** The final record of an update. *)
Definition settled (now : DateTime) (u : Update) : Prop :=
  (up_status u = UApplied /\ up_applied_at u = Some now) \/
  (exists e, up_status u = UFailed e) \/ up_status u = URolledBack.

Definition is_applied (u : Update) : bool :=
  match up_status u with UApplied => true | _ => false end.

Context (uuid_string : ChallengeId -> string).

Lemma process_update_settles now u um d :
  let '(ok, u', um', d') := process_update now uuid_string u um d in
  same_update u u' /\ same_queues um um' /\ settled now u' /\ ok = is_applied u'.
Proof.
  unfold process_update. pose proof (apply_update_keeps u um d) as [Hu Hq].
  destruct (apply_update (u, um, d)) as [[[]|e] [[u' um'] d']]; simpl in *.
  - split; [done|]. split; [done|]. split; [by left|done].
  - destruct (up_rollback_data u') as [data|].
    + destruct (rollback_update _ _ _) as [[[]|e'] d2]; (split; [done|]); (split; [done|]);
        (split; [|done]); right; [by right|by left; eexists].
    + split; [done|]. split; [done|]. split; [right; left; by eexists|done].
Qed.

Lemma process_all_settles now us um d :
  let '(applied, um', d') := process_all now uuid_string us um d in
  exists finals, um_history um' = um_history um ++ finals /\
    um_pending um' = um_pending um /\ um_updating um' = um_updating um /\
    Forall2 (fun u f => same_update u f /\ settled now f) us finals /\
    applied = up_id <$> filter (fun f => is_applied f = true) finals.
Proof.
  revert um d. induction us as [|u us IH]; intros um d; simpl.
  { exists []. by rewrite app_nil_r. }
  pose proof (process_update_settles now u um d) as Hone.
  destruct (process_update now uuid_string u um d) as [[[ok u'] um1] d1].
  destruct Hone as (Hu & (Hp & Hh & Hup) & Hset & Hok).
  specialize (IH (push_history u' um1) d1).
  destruct (process_all now uuid_string us (push_history u' um1) d1) as [[applied um'] d'].
  destruct IH as (finals & Hh' & Hp' & Hup' & Hall & ->). simpl in *.
  exists (u' :: finals). split; [by rewrite Hh', Hh, <- (assoc_L (++))|].
  split; [congruence|]. split; [congruence|]. split; [by constructor|].
  rewrite filter_cons, Hok. by destruct (is_applied u').
Qed.

(** [process_updates] refuses to run while an update is in progress, without
    effect; otherwise it takes every pending update, in order, files each in
    the history unchanged but for a final status - applied, failed or rolled
    back - leaves nothing pending and is ready again, and returns the ids of
    exactly the updates that were applied. *)
Theorem process_updates_effect now um d :
  let '(r, um', d') := process_updates now uuid_string um d in
  if um_updating um then r = Err AlreadyUpdating /\ um' = um /\ d' = d
  else exists finals,
    um_history um' = um_history um ++ finals /\ um_pending um' = [] /\ um_updating um' = false /\
    Forall2 (fun u f => same_update u f /\ settled now f) (um_pending um) finals /\
    r = Ok (up_id <$> filter (fun f => is_applied f = true) finals).
Proof.
  unfold process_updates. destruct (um_updating um); [done|].
  pose proof (process_all_settles now (um_pending um) (take_pending (set_updating true um)) d) as Hall.
  destruct (process_all _ _ _ _ _) as [[applied um'] d'].
  destruct Hall as (finals & Hh & Hp & Hup & Hf & ->). by exists finals.
Qed.
End updates.

(** ** Snapshots *)

Section snapshots.
Context `{External} `{DiskIO} `{SubnetCodec} {HS : HashOrder string}.
Context (uuid_string : Uuid -> string) `{!Inj (=) (=) uuid_string} (path_bytes : Path -> bytes).

Lemma string_app_inj_r s t u : (s +:+ u = t +:+ u)%string -> s = t.
Proof.
  intros Heq. apply (f_equal String.list_ascii_of_string) in Heq. rewrite !chars_app in Heq.
  apply app_inv_tail in Heq. by apply chars_inj.
Qed.

Lemma snapshot_path_inj i j : snapshot_path uuid_string i = snapshot_path uuid_string j -> i = j.
Proof.
  intros Heq. injection Heq as Heq. apply string_app_inj_r in Heq. by apply (inj uuid_string).
Qed.

Lemma snapshot_path_not_index i : snapshot_path uuid_string i <> INDEX_PATH.
Proof.
  intros Heq. injection Heq as Heq. apply (f_equal String.list_ascii_of_string) in Heq.
  rewrite chars_app in Heq. apply (f_equal last) in Heq. rewrite last_app in Heq. done.
Qed.

Lemma fs_write_ok p data d r d' :
  fs_write p data d = (r, d') ->
  dirs d' = dirs d /\ (forall q, q <> p -> files d' !! q = files d !! q) /\
  (r = Ok tt -> files d' !! p = Some data).
Proof.
  unfold fs_write, mbind, SE_bind, require. simpl.
  destruct (io_ok p && dir_exists d (parent p)); intros [= <- <-]; [|done].
  split; [done|]. split; [|intros _; apply lookup_insert_eq].
  intros q Hq. by apply lookup_insert_ne.
Qed.

(** The files that saving the index and pruning leave alone. *)
Lemma save_index_keeps sm d r sm' d' :
  save_snapshot_index (sm, d) = (r, (sm', d')) ->
  sm' = sm /\ forall q, q <> INDEX_PATH -> files d' !! q = files d !! q.
Proof.
  unfold save_snapshot_index, mbind, SE_bind. simpl.
  destruct (encode_index (smn_snapshots sm)) as [content|e]; simpl; [|by intros [= <- <- <-]].
  unfold snap_disk. destruct (fs_write INDEX_PATH content d) as [r1 d1] eqn:Hw.
  intros [= <- <- <-]. by apply fs_write_ok in Hw as (_ & ? & _).
Qed.

Lemma remove_files_keep l sm d r sm' d' :
  remove_snapshot_files uuid_string l (sm, d) = (r, (sm', d')) ->
  sm' = sm /\ forall q, (forall m, m ∈ l -> q <> snapshot_path uuid_string (sn_id m)) ->
    files d' !! q = files d !! q.
Proof.
  revert d. induction l as [|m l IH]; intros d; simpl; [by intros [= <- <- <-]|].
  unfold mbind, SE_bind. simpl.
  destruct (path_exists d (snapshot_path uuid_string (sn_id m))).
  - unfold snap_disk, remove_file, mbind, SE_bind, require. simpl.
    destruct (io_ok (snapshot_path uuid_string (sn_id m))); simpl; [|by intros [= <- <- <-]].
    intros Hr. apply IH in Hr as [-> Hf]. split; [done|]. intros q Hq.
    rewrite Hf by (intros; apply Hq; by right). simpl. apply lookup_delete_ne.
    apply not_eq_sym, Hq. left.
  - simpl. intros Hr. apply IH in Hr as [-> Hf]. split; [done|]. intros q Hq.
    apply Hf. intros; apply Hq; by right.
Qed.

(** The newest snapshot, added last, stays last when sorted by date. *)
Lemma insert_sorted_last y l x :
  by_date y x -> insert_sorted by_date y (l ++ [x]) = insert_sorted by_date y l ++ [x].
Proof.
  intros Hy. induction l as [|z l IH]; simpl; [by rewrite decide_True|].
  case_decide; [done|]. by rewrite IH.
Qed.

Lemma stable_sort_last l x :
  (forall y, y ∈ l -> by_date y x) ->
  stable_sort by_date (l ++ [x]) = stable_sort by_date l ++ [x].
Proof.
  induction l as [|y l IH]; intros Hl; simpl; [done|].
  rewrite IH by (intros; apply Hl; by right). apply insert_sorted_last, Hl. left.
Qed.

Lemma prune_keeps_newest sm l meta d r sm' d' :
  smn_snapshots sm = l ++ [meta] -> (0 < smn_max_snapshots sm)%nat ->
  (forall m, m ∈ l -> sn_created_at m <= sn_created_at meta /\ sn_id m <> sn_id meta) ->
  prune_snapshots uuid_string (sm, d) = (r, (sm', d')) ->
  (length (smn_snapshots sm') <= smn_max_snapshots sm)%nat /\ meta ∈ smn_snapshots sm' /\
  files d' !! snapshot_path uuid_string (sn_id meta) =
    files d !! snapshot_path uuid_string (sn_id meta).
Proof.
  intros Hl Hmax Hold. unfold prune_snapshots, mbind, SE_bind. simpl.
  destruct (Nat.leb_spec (length (smn_snapshots sm)) (smn_max_snapshots sm)) as [Hle|Hgt].
  { intros [= <- <- <-]. rewrite Hl in *. split; [done|]. split; [|done].
    apply elem_of_app. right. by apply list_elem_of_singleton. }
  rewrite Hl, stable_sort_last by (intros m Hm; by apply Hold).
  set (n := (length (stable_sort by_date l ++ [meta]) - smn_max_snapshots sm)%nat). simpl.
  assert (Hn : (n <= length (stable_sort by_date l))%nat)
    by (unfold n; rewrite length_app; simpl; lia).
  rewrite (take_app_le _ _ _ Hn), (drop_app_le _ _ _ Hn).
  destruct (remove_snapshot_files _ _ _) as [r1 [sm1 d1]] eqn:Hrem.
  apply remove_files_keep in Hrem as [-> Hfiles].
  assert (Hkeep : files d1 !! snapshot_path uuid_string (sn_id meta) =
                  files d !! snapshot_path uuid_string (sn_id meta)).
  { apply Hfiles. intros m Hm Heq. apply snapshot_path_inj in Heq.
    assert (m ∈ l) as Hml.
    { rewrite <- (stable_sort_perm by_date l). rewrite <- (take_drop n (stable_sort by_date l)).
      apply elem_of_app. by left. }
    apply Hold in Hml as [_ Hne]. congruence. }
  assert (Hlen : (length (drop n (stable_sort by_date l) ++ [meta]) <= smn_max_snapshots sm)%nat).
  { rewrite length_app, length_drop. unfold n in *. rewrite length_app in *. simpl in *. lia. }
  assert (Hin : meta ∈ drop n (stable_sort by_date l) ++ [meta])
    by (apply elem_of_app; right; by apply list_elem_of_singleton).
  destruct r1 as [[]|e]; [|by intros [= <- <- <-]].
  intros Hs. apply save_index_keeps in Hs as [-> Hf]. split; [done|]. split; [done|].
  rewrite Hf by apply snapshot_path_not_index. done.
Qed.

Lemma create_snapshot_stored id now name height epoch st reason auto sm d id' sm' d' :
  (0 < smn_max_snapshots sm)%nat ->
  (forall m, m ∈ smn_snapshots sm -> sn_created_at m <= now /\ sn_id m <> id) ->
  create_snapshot uuid_string path_bytes id now name height epoch st reason auto (sm, d) =
    (Ok id', (sm', d')) ->
  id' = id /\ (length (smn_snapshots sm') <= smn_max_snapshots sm)%nat /\
  exists snap b, encode_chain_state st = Ok (snp_chain_state snap) /\
    sn_state_hash (snp_meta snap) = sha256_hex (snp_chain_state snap) /\
    encode_snapshot snap = Ok b /\ files d' !! snapshot_path uuid_string id = Some b /\
    snp_challenge_data snap = collect_challenges path_bytes d /\
    (forall c, files d !! CONFIG_PATH = Some c -> snp_config snap = c).
Proof.
  intros Hmax Hold. unfold create_snapshot, mbind, SE_bind. simpl.
  destruct (encode_chain_state st) as [data|e] eqn:He; simpl; [|done].
  destruct (if path_exists d CONFIG_PATH then _ else _) as [[config|e] [sm1 d1]] eqn:Hc; [|done].
  assert ((sm1, d1) = (sm, d) /\ forall c, files d !! CONFIG_PATH = Some c -> config = c)
    as [[= -> ->] Hcfg].
  { unfold path_exists, file_exists, lift, fs_read in Hc.
    destruct (dir_exists d CONFIG_PATH || _) eqn:Hex.
    - injection Hc as Hc <- <-. split; [done|]. intros c Hf. rewrite Hf in Hc.
      destruct (io_ok CONFIG_PATH); [|done]. by injection Hc.
    - injection Hc as <- <- <-. split; [done|]. intros c Hf.
      rewrite bool_decide_eq_true_2, orb_true_r in Hex by by eexists. done. }
  simpl. set (snap := mk_Snapshot _ data _ config).
  destruct (encode_snapshot snap) as [b|e] eqn:Hs; simpl; [|done].
  destruct (fs_write _ b d) as [[[]|e] d2] eqn:Hw; simpl; [|done].
  apply fs_write_ok in Hw as (_ & _ & Hfile). specialize (Hfile eq_refl).
  set (meta := mk_SnapshotMeta id name height epoch (sha256_hex data) now
    (Z.of_nat (length b)) auto reason).
  destruct (save_snapshot_index _) as [[[]|e] [sm3 d3]] eqn:Hi; simpl; [|done].
  apply save_index_keeps in Hi as [-> Hi].
  destruct (prune_snapshots _ _) as [[[]|e] [sm4 d4]] eqn:Hp; simpl; [|done].
  eapply (prune_keeps_newest _ (smn_snapshots sm) meta) in Hp; [|done|done|].
  2: { intros m Hm. by apply Hold. }
  destruct Hp as (Hlen & Hin & Hkeep). intros [= <- <- <-].
  split; [done|]. split; [done|]. exists snap, b.
  split; [done|]. split; [done|]. split; [done|]. split; [|by split].
  change (sn_id meta) with id in Hkeep. rewrite Hkeep, Hi by apply snapshot_path_not_index. done.
Qed.

(** Where the bytes kept for a challenge's database are put. *)
Definition data_file (n : string) : Path := CHALLENGES_DIR ++ [n; "db"; "data.bin"]%string.

Lemma deserialize_directory_ok n data d :
  (forall p, io_ok p = true) ->
  exists d', deserialize_directory (CHALLENGES_DIR ++ [n; "db"%string]) data d = (Ok tt, d') /\
    files d' = (if decide (data = []) then files d else <[data_file n := data]> (files d)).
Proof.
  intros Hio. unfold deserialize_directory, create_dir_all, fs_write, mbind, SE_bind, require.
  rewrite !Hio. simpl. destruct data as [|x data]; simpl; [by eexists|].
  rewrite ?Hio. simpl. unfold dir_exists. rewrite (bool_decide_eq_true_2 (_ ∈ dirs _)) by set_solver.
  rewrite orb_true_r. simpl. by eexists.
Qed.

Lemma restore_challenges_ok l d :
  (forall p, io_ok p = true) -> NoDup l.*1 ->
  exists d', restore_challenges l d = (Ok tt, d') /\
    (forall n data, (n, data) ∈ l -> data <> [] -> files d' !! data_file n = Some data) /\
    (forall q, (forall n, n ∈ l.*1 -> q <> data_file n) -> files d' !! q = files d !! q).
Proof.
  intros Hio. revert d. induction l as [|[n data] l IH]; intros d Hnd.
  { exists d. split; [done|]. split; [|done]. by intros ? ? ?%not_elem_of_nil. }
  cbn [fmap list_fmap fst] in Hnd. apply NoDup_cons in Hnd as [Hn Hnd].
  cbn [restore_challenges]. unfold create_dir_all at 1, mbind, SE_bind, require. rewrite Hio. cbn [modify].
  match goal with |- context [deserialize_directory _ _ ?d1] =>
    destruct (deserialize_directory_ok n data d1 Hio) as (d2 & Hd2 & Hf) end.
  simpl in *. rewrite Hd2. destruct (IH d2 Hnd) as (d3 & Hd3 & Hin & Hout). exists d3.
  split; [done|]. split.
  - intros m bs [[= -> ->]|Hm]%elem_of_cons Hne; [|by apply Hin].
    rewrite Hout, Hf, decide_False by (try done; intros m Hm [= ->]; done). apply lookup_insert_eq.
  - intros q Hq. rewrite Hout by (intros m Hm; apply Hq; by right). rewrite Hf.
    case_decide; [done|]. simpl. apply lookup_insert_ne, not_eq_sym, Hq. left.
Qed.

(** What applying a snapshot does: its chain state is returned, its
    configuration and the bytes of its challenges are written, and no other
    file is touched. *)
Lemma apply_snapshot_ok snap st d :
  (forall p, io_ok p = true) -> decode_chain_state (snp_chain_state snap) = Ok st ->
  exists d', apply_snapshot snap d = (Ok st, d') /\
    (snp_config snap <> [] -> files d' !! CONFIG_PATH = Some (snp_config snap)) /\
    (forall n data, snp_challenge_data snap !! n = Some data -> data <> [] ->
       files d' !! data_file n = Some data) /\
    (forall q, q <> CONFIG_PATH -> (forall n, is_Some (snp_challenge_data snap !! n) -> q <> data_file n) ->
       files d' !! q = files d !! q).
Proof.
  intros Hio Hst. unfold apply_snapshot. rewrite Hst.
  unfold mbind, SE_bind. cbn [lift].
  assert (Hcfg : exists d1, (match snp_config snap with
      | [] => mret tt | _ => fs_write CONFIG_PATH (snp_config snap) end : SE Disk string unit) d
      = (Ok tt, d1) /\ (snp_config snap <> [] -> files d1 !! CONFIG_PATH = Some (snp_config snap)) /\
      (forall q, q <> CONFIG_PATH -> files d1 !! q = files d !! q)).
  { destruct (snp_config snap); [by exists d|].
    unfold fs_write, mbind, SE_bind, require. simpl. rewrite Hio. eexists. split; [done|]. split.
    - intros _. apply lookup_insert_eq.
    - intros q Hq. by apply lookup_insert_ne. }
  destruct Hcfg as (d1 & Hcfg & Hc1 & Hk1).
  replace ((match snp_config snap with
      | [] => mret tt | z :: l => fs_write CONFIG_PATH (z :: l) end : SE Disk string unit) d)
    with ((Ok tt, d1) : result string unit * Disk)
    by (rewrite <- Hcfg; by destruct (snp_config snap)).
  unfold create_dir_all at 1. unfold mbind, SE_bind, require. rewrite Hio. cbn [modify].
  match goal with |- context [restore_challenges ?l ?d0] =>
    destruct (restore_challenges_ok l d0 Hio) as (d2 & Hd2 & Hin & Hout);
      [rewrite fst_hm_iter; apply hm_keys_NoDup|] end.
  rewrite Hd2. exists d2. split; [done|]. split; [|split].
  - intros Hne. rewrite Hout; [by apply Hc1|]. by intros n _.
  - intros n data Hl. apply Hin. by apply elem_of_hm_iter.
  - intros q Hq Hn. rewrite Hout; [by apply Hk1|]. intros n Hl. apply Hn.
    apply list_elem_of_fmap in Hl as ([m bs] & -> & Hl). apply elem_of_hm_iter in Hl. by eexists.
Qed.

Lemma collect_challenges_lookup d n :
  path_exists d CHALLENGES_DIR = true ->
  path_exists d (CHALLENGES_DIR ++ [n; "db"%string]) = true ->
  collect_challenges path_bytes d !! n = Some (path_bytes (CHALLENGES_DIR ++ [n; "db"%string])).
Proof.
  intros Hdir Hdb. unfold collect_challenges. rewrite Hdir.
  assert (Hn : n ∈ challenge_names d).
  { apply list_elem_of_omap. exists (CHALLENGES_DIR ++ [n; "db"%string]). split; [|done].
    unfold path_exists, dir_exists, file_exists in Hdb.
    rewrite !orb_true_iff, !bool_decide_eq_true in Hdb.
    rewrite elem_of_elements, elem_of_union, elem_of_dom. destruct Hdb as [[|]|]; [done|auto..]. }
  generalize dependent (challenge_names d). intros l Hn. clear -Hn.
  induction l as [|m l IH]; [by apply not_elem_of_nil in Hn|]. cbn [fmap list_fmap list_to_map foldr].
  destruct (decide (m = n)) as [->|Hne]; [by rewrite lookup_insert_eq|].
  rewrite lookup_insert_ne by done. apply IH. by apply elem_of_cons in Hn as [->|?].
Qed.

(** C26. A snapshot that was created can be rolled back to: the manager keeps at
    most the maximum number of snapshots, drops older ones first and so never
    the new one, and restoring and applying it yields exactly the chain state
    that was saved.  The configuration file is again what it was, unless it was
    empty.  Of a challenge's database the snapshot keeps the text of its path
    alone, which is put back as the file data.bin; every other file, those of
    the databases included, stays as it was before the rollback. *)
Theorem snapshot_restores_state `{!SubnetCodecLaws} id now name height epoch st reason auto sm d
    id' sm' d' :
  (forall p, io_ok p = true) -> (0 < smn_max_snapshots sm)%nat ->
  (forall m, m ∈ smn_snapshots sm -> sn_created_at m <= now /\ sn_id m <> id) ->
  create_snapshot uuid_string path_bytes id now name height epoch st reason auto (sm, d) =
    (Ok id', (sm', d')) ->
  id' = id /\ (length (smn_snapshots sm') <= smn_max_snapshots sm)%nat /\
  exists snap d2, restore_snapshot uuid_string id d' = Ok snap /\
    apply_snapshot snap d' = (Ok st, d2) /\
    (forall c, files d !! CONFIG_PATH = Some c -> c <> [] -> files d2 !! CONFIG_PATH = Some c) /\
    (forall n, path_exists d CHALLENGES_DIR = true ->
       path_exists d (CHALLENGES_DIR ++ [n; "db"%string]) = true ->
       path_bytes (CHALLENGES_DIR ++ [n; "db"%string]) <> [] ->
       files d2 !! data_file n = Some (path_bytes (CHALLENGES_DIR ++ [n; "db"%string]))) /\
    (forall q, q <> CONFIG_PATH -> (forall n, q <> data_file n) -> files d2 !! q = files d' !! q).
Proof.
  intros Hio Hmax Hold Hc.
  apply create_snapshot_stored in Hc
    as (-> & Hlen & snap & b & Hst & Hhash & Hsnap & Hfile & Hdata & Hcfg); [|done|done].
  split; [done|]. split; [done|]. exists snap.
  destruct (apply_snapshot_ok snap st d' Hio (chain_state_roundtrip _ _ Hst))
    as (d2 & Hd2 & Hcfg2 & Hdata2 & Hrest).
  exists d2. split; [|split; [done|split; [|split]]].
  - unfold restore_snapshot, path_exists, file_exists, fs_read.
    rewrite Hfile, bool_decide_eq_true_2 by by eexists. rewrite orb_true_r. simpl.
    rewrite Hio. simpl. rewrite (snapshot_roundtrip _ _ Hsnap). simpl. by rewrite decide_True.
  - intros c Hf Hne. rewrite <- (Hcfg c Hf) in *. auto.
  - intros n Hdir Hdb. apply Hdata2. rewrite Hdata. by apply collect_challenges_lookup.
  - intros q Hq Hn. apply Hrest; auto.
Qed.
End snapshots.
