(* ===== verification/SubnetCommandProps.v ===== *)
(** * Theorems about the owner's commands

    Who may give a command, what a deployment, a ban and a kick do, and the
    checks that two configuration commands leave out. *)

From S2P Require Import Prelude Float64 Crypto RustStrings CoreTypes CoreState SubnetConfig SubnetManager SubnetCommands SubnetProps.

Section disk_steps.
Context `{DiskIO}.

Lemma create_dir_all_exists p d :
  io_ok p = true ->
  exists d', create_dir_all p d = (Ok tt, d') /\ files d' = files d /\ dir_exists d' p = true.
Proof.
  intros Hio. unfold create_dir_all, mbind, SE_bind, require. rewrite Hio. simpl.
  eexists. split; [done|]. split; [done|]. unfold dir_exists. simpl.
  destruct p as [|x p]; [done|]. apply orb_true_iff. right. apply bool_decide_eq_true_2.
  apply elem_of_union_r, elem_of_list_to_set, list_elem_of_fmap.
  exists (length (x :: p)). split; [by rewrite firstn_all|]. apply elem_of_seq. simpl. lia.
Qed.

Lemma fs_write_succeeds p data d :
  io_ok p = true -> dir_exists d (parent p) = true ->
  fs_write p data d = (Ok tt, mk_Disk (<[p := data]> (files d)) (dirs d)).
Proof.
  intros Hio Hd. unfold fs_write, mbind, SE_bind, require. simpl. by rewrite Hio, Hd.
Qed.
End disk_steps.

Section commands.
Context `{External} `{IdSource} `{DiskIO} `{SubnetCodec} {HS : HashOrder string}.
Context {HK : HashOrder Hotkey} {HI : HashOrder Z}.
Context (uuid_string : Uuid -> string) (path_bytes : Path -> bytes).
Context (display : Hotkey -> string) (sudo_key : Hotkey).
Context (decode_command : bytes -> result MiniChainError SubnetCommand).

Local Abbreviation run := (execute_command uuid_string path_bytes display sudo_key).
Local Abbreviation run_signed :=
  (execute uuid_string path_bytes display sudo_key decode_command).

(** C27. Only the owner commands the subnet: a message that is not signed by the
    owner's key, or whose signature does not verify, is refused and changes
    nothing; so does a message that does not decode.  What the owner signs is
    executed as the command it encodes. *)
Theorem owner_commands_only `{!ExternalLaws} id now s :
  (forall signed, (sm_signer signed <> sudo_key \/ SignedMessage_verify signed <> Ok true) ->
     run_signed id now signed s = (result_error "Invalid signature or not authorized", s)) /\
  (forall owner b, Keypair_hotkey owner = sudo_key ->
     match decode_command b with
     | Ok cmd => run_signed id now (Keypair_sign owner b) s = run id now cmd s
     | Err _ => (run_signed id now (Keypair_sign owner b) s).2 = s /\
                cr_success (run_signed id now (Keypair_sign owner b) s).1 = false
     end).
Proof.
  split.
  - intros signed Hbad. unfold execute.
    assert (verify_signature sudo_key signed = false) as ->; [|done].
    unfold verify_signature. destruct (SignedMessage_verify signed) as [[]|e] eqn:Hv; [|done|done].
    destruct Hbad as [Hne|Hne]; [|done]. by rewrite bool_decide_eq_false_2.
  - intros owner b Hk. unfold execute.
    assert (verify_signature sudo_key (Keypair_sign owner b) = true) as ->.
    { unfold verify_signature. pose proof (sign_bytes_valid owner b) as Hv. unfold sig_valid in Hv.
      change (SignedMessage_verify (Keypair_sign owner b) = Ok true) in Hv. rewrite Hv.
      simpl. by rewrite bool_decide_eq_true_2. }
    simpl. by destruct (decode_command b).
Qed.

(** A deployed challenge is installed: on a disk the process can use and with
    no other update under way, the deploy command queues one update, and
    processing the queue applies it - the module is written below the
    challenge's id, exactly as it was sent, other files stay as they were, and
    the history gains one applied record. *)
Theorem deployed_challenge_installed id now now' config wasm s :
  (forall p, io_ok p = true) ->
  um_updating (sub_updates s) = false -> um_pending (sub_updates s) = [] ->
  let '(r, s1) := run id now (DeployChallenge config wasm) s in
  let '(applied, um, d) := process_updates now' uuid_string (sub_updates s1) (sub_disk s1) in
  cr_success r = true /\ applied = Ok [id] /\
  files d !! wasm_path (scc_id config) = Some wasm /\
  (forall q, q <> wasm_path (scc_id config) -> files d !! q = files (sub_disk s) !! q) /\
  um_pending um = [] /\ um_updating um = false /\
  exists u, um_history um = um_history (sub_updates s) ++ [u] /\ up_id u = id /\
    up_status u = UApplied /\ up_applied_at u = Some now'.
Proof.
  intros Hio Hidle Hempty. cbn [execute_command queue with_updates sub_updates sub_disk].
  unfold process_updates, queue_update. cbn [um_updating um_pending]. rewrite Hidle, Hempty.
  cbn [app process_all]. unfold process_update, apply_update, apply_payload, on_update, on_disk,
    mbind, SE_bind. simpl. unfold require. rewrite bool_decide_eq_true_2 by done. simpl.
  destruct (create_dir_all_exists (parent (wasm_path (scc_id config))) (sub_disk s)) as (d1 & Hd1 & Hf & Hdir);
    [done|].
  change ["challenges"%string; scc_id config] with (parent (wasm_path (scc_id config))).
  rewrite Hd1. cbn -[create_dir_all fs_write wasm_path parent]. rewrite (fs_write_succeeds _ _ _ (Hio _) Hdir). simpl.
  split; [done|]. split; [done|].
  split; [apply lookup_insert_eq|]. split; [intros q Hq; rewrite <- Hf; by apply lookup_insert_ne|].
  do 2 (split; [done|]). by eexists.
Qed.

(** A ban is effective and reversible: the validator leaves the state and is
    on the ban list, nothing else of either changes, and lifting the ban takes
    the entry off again (a second lift is refused); the validator itself does
    not come back by that. *)
Theorem ban_validator_effect id now id' now' h reason s :
  let '(r, s1) := run id now (BanValidator h reason) s in
  let '(r', s2) := run id' now' (UnbanValidator h) s1 in
  cr_success r = true /\ is_validator_banned (sub_bans s1) h = true /\
  st_validators (sub_state s1) = delete h (st_validators (sub_state s)) /\
  st_challenges (sub_state s1) = st_challenges (sub_state s) /\
  cr_success r' = true /\ is_validator_banned (sub_bans s2) h = false /\
  sub_state s2 = sub_state s1 /\
  bl_validators (sub_bans s2) = delete (Hotkey_to_hex h) (bl_validators (sub_bans s)) /\
  bl_hotkeys (sub_bans s2) = bl_hotkeys (sub_bans s) /\
  bl_coldkeys (sub_bans s2) = bl_coldkeys (sub_bans s) /\
  cr_success (run id' now' (UnbanValidator h) s2).1 = false.
Proof.
  assert (Hsave : forall s, sub_bans (save_bans s) = sub_bans s /\ sub_state (save_bans s) = sub_state s).
  { intros s0. unfold save_bans. by destruct (encode_bans _). }
  cbn [execute_command]. unfold unban_validator. rewrite !(proj1 (Hsave _)).
  cbn [sub_bans with_bans with_state ban_validator bl_validators].
  rewrite lookup_insert_eq, (bool_decide_eq_true_2 (is_Some _)) by by eexists.
  rewrite !(proj1 (Hsave _)), !(proj2 (Hsave _)). unfold is_validator_banned. simpl.
  rewrite lookup_insert_eq, lookup_delete_eq, delete_insert_eq. simpl.
  repeat split; [done..|apply Hsave].
Qed.

(** Kicking a validator leaves the state hash stale: the hash stored after the
    command is that of the state with the validator, whereas what the hash
    covers has changed (the number of validators). *)
Theorem kick_leaves_stale_hash id now h reason s :
  st_state_hash (sub_state s) = computed_hash (sub_state s) ->
  is_Some (st_validators (sub_state s) !! h) ->
  let '(r, s') := run id now (KickValidator h reason) s in
  cr_success r = true /\ st_validators (sub_state s') !! h = None /\
  st_state_hash (sub_state s') = computed_hash (sub_state s) /\
  hash_input (sub_state s') <> hash_input (sub_state s).
Proof.
  intros Hh [v Hv]. cbn [execute_command]. rewrite decide_True by by eexists.
  split; [done|]. split; [apply lookup_delete_eq|]. split; [exact Hh|].
  unfold hash_input. simpl. intros [= Hs]. rewrite map_size_delete, Hv in Hs. simpl in Hs.
  assert (size (st_validators (sub_state s)) <> 0%nat); [|lia].
  intros Hz%map_size_empty_iff. by rewrite Hz, lookup_empty in Hv.
Qed.

(** The epoch length is set without the validation that a configuration update
    goes through: from any stored configuration, the owner's command for an
    epoch of no blocks reports success and stores a configuration that
    [SubnetConfig::validate] refuses. *)
Theorem set_epoch_length_unchecked `{!SubnetCodecLaws} id now c b s :
  (forall p, io_ok p = true) -> config_load CONFIG_PATH (sub_disk s) = Ok c ->
  encode_subnet_config (set_epoch_length 0 c) = Ok b ->
  let '(r, s') := run id now (SetEpochLength 0) s in
  cr_success r = true /\ config_load CONFIG_PATH (sub_disk s') = Ok (set_epoch_length 0 c) /\
  SubnetConfig_validate (set_epoch_length 0 c) <> Ok tt.
Proof.
  intros Hio Hload Henc. cbn [execute_command]. unfold edit_config. rewrite Hload.
  split; [done|]. split; [|done]. cbn [sub_disk with_disk].
  unfold config_save, fs_write, require, mbind, SE_bind. cbn [lift]. rewrite Henc. simpl.
  rewrite Hio. simpl. unfold config_load, fs_read. rewrite Hio. simpl.
  rewrite lookup_insert_eq. simpl. by apply subnet_config_roundtrip.
Qed.
End commands.

(** ** Concrete subnets *)

Module SubnetExamples.
Import Toy.

#[local] Instance all_ok : DiskIO := {| io_ok := fun _ => true |}.

#[local] Instance RecoveryConfig_eq_dec : EqDecision RecoveryConfig.
Proof. solve_decision. Defined.
#[local] Instance HealthConfig_eq_dec : EqDecision HealthConfig.
Proof. solve_decision. Defined.
#[local] Instance SnapshotMeta_eq_dec : EqDecision SnapshotMeta.
Proof. solve_decision. Defined.
#[local] Instance SubnetConfig_eq_dec : EqDecision SubnetConfig.
Proof. solve_decision. Defined.
#[local] Instance Snapshot_eq_dec : EqDecision Snapshot.
Proof. solve_decision. Defined.
#[local] Instance ids : IdSource := {| uuid_parse_str := fun _ => None; default_hash := fun _ => 5 |}.

Definition config0 : SubnetConfig := SubnetConfig_default "0.1.0".
Definition paused0 : SubnetConfig := set_epoch_length 0 config0.
Definition owner : Keypair := mk_Keypair 9 None.
Definition sudo : Hotkey := Keypair_hotkey owner.
Definition member : Hotkey := mk_Hotkey (toy_key 1).

(** A state of one validator. *)
Definition state0 : ChainState :=
  (add_validator 1 (ValidatorInfo_new 0 member (mk_Stake 2000000000))
     (ChainState_new 0 sudo NetworkConfig_default)).2.

Definition snap0 : Snapshot :=
  mk_Snapshot (mk_SnapshotMeta 30 "nightly" 0 0 (sha256_hex [7]) 20 0 false "test") [7]
    {[ "term"%string := [5] ]} [1].

(** A codec of two configurations, one state and one snapshot. *)
#[local] Instance codec : SubnetCodec := {|
  encode_subnet_config := fun c =>
    if decide (c = config0) then Ok [1] else if decide (c = paused0) then Ok [0]
    else Err "unsupported"%string;
  decode_subnet_config := fun b => Ok (if decide (b = [1]) then config0 else paused0);
  encode_chain_state := fun s => if decide (s = state0) then Ok [7] else Err "unsupported"%string;
  decode_chain_state := fun _ => Ok state0;
  encode_snapshot := fun s => if decide (s = snap0) then Ok [9] else Err "unsupported"%string;
  decode_snapshot := fun _ => Ok snap0;
  encode_index := fun l => Ok [Z.of_nat (length l)];
  encode_bans := fun _ => Ok []
|}.

#[local] Instance codec_laws : SubnetCodecLaws.
Proof.
  split; simpl.
  - intros c b. repeat case_decide; intros [= <-]; by subst.
  - intros c b. repeat case_decide; intros [= <-]; by subst.
  - intros c b. repeat case_decide; intros [= <-]; by subst.
Qed.

Definition old_snapshot : SnapshotMeta :=
  mk_SnapshotMeta 29 "old" 0 0 "" 10 1 false "test".

(** A subnet with a stored configuration and one old snapshot. *)
Definition disk0 : Disk :=
  mk_Disk {[ CONFIG_PATH := [1]; snapshot_path Z_to_string 29 := [3] ]} {[ SNAPSHOTS_DIR ]}.
Definition subnet0 : Subnet :=
  mk_Subnet UpdateManager_new (mk_SnapshotManager 1 [old_snapshot]) disk0
    (RecoveryManager_new RecoveryConfig_default) (HealthMonitor_new 0 HealthConfig_default)
    state0 BanList_new.

Local Abbreviation run0 := (execute_command Z_to_string (fun _ => []) Hotkey_to_hex sudo).

Definition decode_pause (b : bytes) : result MiniChainError SubnetCommand :=
  match b with [1] => Ok (PauseSubnet "test") | _ => Err (Serialization "bad command") end.

Lemma owner_commands_only_witness :
  execute Z_to_string (fun _ => []) Hotkey_to_hex sudo decode_pause 1 5 (Keypair_sign owner [1])
    subnet0 = run0 1 5 (PauseSubnet "test") subnet0 /\
  execute Z_to_string (fun _ => []) Hotkey_to_hex sudo decode_pause 1 5
    (Keypair_sign (mk_Keypair 8 None) [1]) subnet0
    = (result_error "Invalid signature or not authorized", subnet0).
Proof.
  destruct (owner_commands_only Z_to_string (fun _ => []) Hotkey_to_hex sudo decode_pause 1 5 subnet0)
    as [Hbad Hgood].
  split; [exact (Hgood owner [1] eq_refl)|]. apply Hbad. left. discriminate.
Defined.

Definition term_challenge : SubnetChallengeConfig :=
  mk_SubnetChallengeConfig "term" "Terminal" "" "" f64_one true 600 10.

Lemma deployed_challenge_installed_witness :
  let '(_, s1) := run0 1 5 (DeployChallenge term_challenge [0; 97]) subnet0 in
  files (process_updates 6 Z_to_string (sub_updates s1) (sub_disk s1)).2
    !! wasm_path "term" = Some [0; 97].
Proof.
  assert (Hio : forall p, io_ok p = true) by reflexivity.
  assert (Hidle : um_updating (sub_updates subnet0) = false) by reflexivity.
  assert (Hempty : um_pending (sub_updates subnet0) = []) by reflexivity.
  pose proof (deployed_challenge_installed Z_to_string (fun _ => []) Hotkey_to_hex sudo 1 5 6
    term_challenge [0; 97] subnet0 Hio Hidle Hempty) as Hd.
  revert Hd. destruct (run0 1 5 (DeployChallenge term_challenge [0; 97]) subnet0) as [r s1].
  destruct (process_updates _ _ _ _) as [[a um] d]. intros (_ & _ & Hf & _). exact Hf.
Defined.

Lemma kick_leaves_stale_hash_witness :
  st_state_hash (sub_state (run0 1 5 (KickValidator member "test") subnet0).2)
    <> computed_hash (sub_state (run0 1 5 (KickValidator member "test") subnet0).2).
Proof.
  assert (Hh : st_state_hash (sub_state subnet0) = computed_hash (sub_state subnet0)) by by_compute.
  assert (Hin : is_Some (st_validators (sub_state subnet0) !! member)) by by_compute.
  pose proof (kick_leaves_stale_hash Z_to_string (fun _ => []) Hotkey_to_hex sudo 1 5 member "test"
    subnet0 Hh Hin) as Hk.
  assert (Hne : computed_hash (sub_state subnet0) <>
    computed_hash (sub_state (run0 1 5 (KickValidator member "test") subnet0).2)) by by_compute.
  revert Hk Hne. destruct (run0 1 5 (KickValidator member "test") subnet0) as [r s'].
  intros (_ & _ & Hst & _) Hne. cbn [snd] in *. congruence.
Defined.

Lemma set_epoch_length_unchecked_witness :
  config_load CONFIG_PATH (sub_disk subnet0) = Ok config0 /\
  config_load CONFIG_PATH (sub_disk (run0 1 5 (SetEpochLength 0) subnet0).2) = Ok paused0.
Proof.
  assert (Hio : forall p, io_ok p = true) by reflexivity.
  assert (Hload : config_load CONFIG_PATH (sub_disk subnet0) = Ok config0) by by_compute.
  assert (Henc : encode_subnet_config (set_epoch_length 0 config0) = Ok [0]) by by_compute.
  split; [exact Hload|].
  pose proof (set_epoch_length_unchecked Z_to_string (fun _ => []) Hotkey_to_hex sudo 1 5 config0 [0]
    subnet0 Hio Hload Henc) as Hs.
  revert Hs. destruct (run0 1 5 (SetEpochLength 0) subnet0) as [r s'].
  intros (_ & Hl & _). exact Hl.
Defined.

(** No peers: critical, and the subnet pauses. *)
Definition isolated : Subnet :=
  mk_Subnet UpdateManager_new (sub_snapshots subnet0) disk0
    (RecoveryManager_new RecoveryConfig_default)
    (health_check 1 10 HealthMetrics_default (HealthMonitor_new 0 HealthConfig_default)).2
    state0 BanList_new.

Lemma recovery_acts_on_critical_only_witness :
  current_status (sub_health isolated) = Critical /\
  rm_paused (sub_recovery (check_and_recover Z_to_string 2 11 isolated).2) = true.
Proof.
  assert (Hm : monitored (HealthMonitor_new 0 (hmo_config (sub_health isolated))) (sub_health isolated))
    by exact (MonitorCheck _ _ 1 10 HealthMetrics_default
                (MonitorStart (HealthMonitor_new 0 HealthConfig_default))).
  assert (Ht : 1 < hcf_failure_threshold (hmo_config (sub_health isolated))) by by_compute.
  assert (Hc : current_status (sub_health isolated) = Critical) by by_compute.
  split; [exact Hc|].
  pose proof (recovery_acts_on_critical_only Z_to_string 0 2 11 isolated Hm Ht) as Hr.
  revert Hr. destruct (check_and_recover Z_to_string 2 11 isolated) as [a s'].
  intros [_ Hr]. specialize (Hr Hc). simpl in Hr.
  destruct (Hr eq_refl ltac:(lia) ltac:(lia) eq_refl) as (at0 & _ & _ & Hp & _). exact Hp.
Defined.

(** The subnet's files with a challenge's database; [5] is the text of its
    path. *)
Definition disk1 : Disk :=
  mk_Disk (files disk0) {[ SNAPSHOTS_DIR; CHALLENGES_DIR; CHALLENGES_DIR ++ ["term"%string];
    CHALLENGES_DIR ++ ["term"; "db"]%string ]}.

Definition created : result string Uuid * (SnapshotManager * Disk) :=
  create_snapshot Z_to_string (fun _ => [5]) 30 20 "nightly" 0 0 state0 "test" false
    (sub_snapshots subnet0, disk1).

(** The old snapshot makes room for the new one. *)
Lemma snapshot_restores_state_witness :
  created.1 = Ok 30 /\
  exists snap d2, restore_snapshot Z_to_string 30 created.2.2 = Ok snap /\
    apply_snapshot snap created.2.2 = (Ok state0, d2) /\
    files d2 !! CONFIG_PATH = Some [1] /\ files d2 !! data_file "term" = Some [5].
Proof.
  assert (Hio : forall p, io_ok p = true) by reflexivity.
  assert (Hmax : (0 < smn_max_snapshots (sub_snapshots subnet0))%nat) by by_compute.
  assert (Hold : forall m, m ∈ smn_snapshots (sub_snapshots subnet0) ->
    sn_created_at m <= 20 /\ sn_id m <> 30).
  { intros m Hm. apply list_elem_of_singleton in Hm as ->. split; [discriminate|discriminate]. }
  assert (Hok : created.1 = Ok 30) by by_compute.
  assert (Hcr : create_snapshot Z_to_string (fun _ => [5]) 30 20 "nightly" 0 0 state0 "test" false
    (sub_snapshots subnet0, disk1) = (Ok 30, (created.2.1, created.2.2))).
  { rewrite <- Hok. unfold created. by destruct (create_snapshot _ _ _ _ _ _ _ _ _ _ _) as [? [? ?]]. }
  split; [exact Hok|].
  destruct (proj2 (proj2 (snapshot_restores_state Z_to_string (fun _ => [5]) 30 20 "nightly" 0 0 state0
    "test" false (sub_snapshots subnet0) disk1 30 created.2.1 created.2.2 Hio Hmax Hold Hcr)))
    as (snap & d2 & Hr & Ha & Hc & Hd & _).
  exists snap, d2. split; [exact Hr|]. split; [exact Ha|]. split.
  - apply Hc; [by_compute|discriminate].
  - apply Hd; [by_compute|by_compute|discriminate].
Defined.
End SubnetExamples.
