(* ===== verification/DStore.v ===== *)
(** * Keys, values and queries of the distributed storage

    Models [crates/distributed-storage/src/error.rs], [store.rs] (keys, values
    and their metadata, options and results) and [query.rs] (filters, cursors,
    query builder and the keys of the block index).  The clock is an argument
    in milliseconds.  The trait [DistributedStore] is the class of that name,
    whose instances are the local and the DHT storage. *)

From Stdlib Require Import Ascii.
From S2P Require Import Prelude Float64 Crypto RustStrings RustBytes.

(** ** Errors *)

Inductive StorageError : Type :=
| DatabaseError (msg : string)
| SerializationError (msg : string)
| KeyNotFound (namespace key : string)
| NamespaceNotFound (namespace : string)
| DhtError (msg : string)
| ReplicationError (msg : string)
| QuorumNotReached (required received : nat)
| ConflictError (msg : string)
| InvalidData (msg : string)
| TimeoutError (msg : string)
| NotInitialized
| InternalStorageError (msg : string).

#[global] Instance StorageError_eq_dec : EqDecision StorageError.
Proof. solve_decision. Defined.

(** ** Keys *)

Record StorageKey : Type := mk_StorageKey { sk_namespace : string; sk_key : bytes }.

#[global] Instance StorageKey_eq_dec : EqDecision StorageKey.
Proof. solve_decision. Defined.

#[global] Instance StorageKey_countable : Countable StorageKey.
Proof.
  refine (inj_countable' (fun k => (sk_namespace k, sk_key k)) (fun '(n, k) => mk_StorageKey n k) _).
  by intros [].
Defined.

Definition colon : Z := 58.

Definition StorageKey_new (namespace : string) (key : bytes) : StorageKey :=
  mk_StorageKey namespace key.
Definition submission_storage_key (challenge_id hash : string) : StorageKey :=
  StorageKey_new "submissions" (str_bytes (challenge_id +:+ ":" +:+ hash)).
Definition evaluation_storage_key (challenge_id submission_hash validator : string) : StorageKey :=
  StorageKey_new "evaluations"
    (str_bytes (challenge_id +:+ ":" +:+ submission_hash +:+ ":" +:+ validator)).
Definition weights_storage_key (challenge_id : string) (epoch : Z) : StorageKey :=
  StorageKey_new "weights" (str_bytes (challenge_id +:+ ":" +:+ Z_to_string epoch)).
Definition challenge_storage_key (challenge_id : string) : StorageKey :=
  StorageKey_new "challenges" (str_bytes challenge_id).

Definition key_to_bytes (k : StorageKey) : bytes :=
  str_bytes (sk_namespace k) ++ colon :: sk_key k.

Definition key_hash `{External} (k : StorageKey) : bytes := sha256 (key_to_bytes k).

Definition key_string (k : StorageKey) : option string :=
  if utf8_valid (sk_key k) then Some (bytes_str (sk_key k)) else None.

Definition key_display `{External} (k : StorageKey) : string :=
  match key_string k with
  | Some s => sk_namespace k +:+ ":" +:+ s
  | None => sk_namespace k +:+ ":" +:+ hex_encode (sk_key k)
  end.

(** Reads a database key back: [from_utf8], then [split_once(':')]. *)
Definition parse_db_key (b : bytes) : option StorageKey :=
  if utf8_valid b then
    match split_once colon b with
    | Some (ns, rest) => Some (StorageKey_new (bytes_str ns) rest)
    | None => None
    end
  else None.

(** ** Values *)

Record ValueMetadata : Type := mk_ValueMetadata {
  vm_created_at : Z;
  vm_updated_at : Z;
  vm_version : Z;
  vm_origin_node : option string;
  vm_value_hash : bytes;
  vm_size : nat;
  vm_ttl_seconds : Z
}.

#[global] Instance ValueMetadata_eq_dec : EqDecision ValueMetadata.
Proof. solve_decision. Defined.

Definition i64_wrap (x : Z) : Z := (x + 2 ^ 63) mod 2 ^ 64 - 2 ^ 63.

Section values.
Context `{External}.

Definition ValueMetadata_new (now : Z) (value : bytes) (origin_node : option string) :
    ValueMetadata :=
  mk_ValueMetadata now now 1 origin_node (sha256 value) (length value) 0.

Definition metadata_update (now : Z) (m : ValueMetadata) (value : bytes)
    (origin_node : option string) : ValueMetadata :=
  mk_ValueMetadata (vm_created_at m) now (u64_add (vm_version m) 1) origin_node (sha256 value)
    (length value) (vm_ttl_seconds m).

(** [ttl_seconds as i64 * 1000] and the sum in 64 bits. *)
Definition is_expired (now : Z) (m : ValueMetadata) : bool :=
  if vm_ttl_seconds m =? 0 then false
  else i64_wrap (vm_created_at m + i64_wrap (i64_wrap (vm_ttl_seconds m) * 1000)) <? now.

Record StoredValue : Type := mk_StoredValue { sv_data : bytes; sv_metadata : ValueMetadata }.

#[global] Instance StoredValue_eq_dec : EqDecision StoredValue.
Proof. solve_decision. Defined.

Definition StoredValue_new (now : Z) (data : bytes) (origin_node : option string) : StoredValue :=
  mk_StoredValue data (ValueMetadata_new now data origin_node).

Definition is_newer_than (a b : StoredValue) : bool :=
  let ma := sv_metadata a in
  let mb := sv_metadata b in
  if negb (vm_version ma =? vm_version mb) then vm_version mb <? vm_version ma
  else vm_updated_at mb <? vm_updated_at ma.
End values.

(** ** Options and results *)

Record GetOptions : Type := mk_GetOptions {
  go_local_only : bool;
  go_quorum_read : bool;
  go_quorum_size : option nat
}.
Definition GetOptions_default : GetOptions := mk_GetOptions false false None.

Record PutOptions : Type := mk_PutOptions {
  po_local_only : bool;
  po_quorum_write : bool;
  po_quorum_size : option nat;
  po_ttl_seconds : Z;
  po_expected_version : option Z
}.
Definition PutOptions_default : PutOptions := mk_PutOptions false false None 0 None.

Record ListResult : Type := mk_ListResult {
  lr_items : list (StorageKey * StoredValue);
  lr_has_more : bool;
  lr_continuation_token : option bytes
}.

Record StorageStats : Type := mk_StorageStats {
  ss_total_keys : Z;
  ss_total_bytes : Z;
  ss_keys_per_namespace : gmap string Z;
  ss_local_replicas : Z;
  ss_remote_peers : Z
}.

(** ** Queries *)

Record QueryCursor : Type := mk_QueryCursor {
  qc_last_block_id : option Z;
  qc_last_key_hash : option bytes;
  qc_namespace : string
}.

Definition QueryCursor_new (namespace : string) : QueryCursor := mk_QueryCursor None None namespace.
Definition from_last_item `{External} (namespace : string) (block_id : Z) (key : StorageKey) :
    QueryCursor :=
  mk_QueryCursor (Some block_id) (Some (key_hash key)) namespace.

Record QueryResult : Type := mk_QueryResult {
  qr_items : list (StorageKey * StoredValue);
  qr_total_count : option Z;
  qr_offset : nat;
  qr_limit : nat;
  qr_has_more : bool;
  qr_next_cursor : option QueryCursor
}.

Definition QueryResult_empty (limit : nat) : QueryResult := mk_QueryResult [] None 0 limit false None.
Definition QueryResult_new (items : list (StorageKey * StoredValue)) (offset limit : nat)
    (has_more : bool) : QueryResult :=
  mk_QueryResult items None offset limit has_more None.
Definition with_total_count (count : Z) (r : QueryResult) : QueryResult :=
  mk_QueryResult (qr_items r) (Some count) (qr_offset r) (qr_limit r) (qr_has_more r)
    (qr_next_cursor r).
Definition with_cursor (c : QueryCursor) (r : QueryResult) : QueryResult :=
  mk_QueryResult (qr_items r) (qr_total_count r) (qr_offset r) (qr_limit r) (qr_has_more r) (Some c).

Inductive QueryFilter : Type :=
| BlockBefore (max_block : Z)
| BlockAfter (min_block : Z)
| BlockRange (start end_ : Z)
| CreatedBefore (timestamp : Z)
| CreatedAfter (timestamp : Z)
| KeyPrefix (prefix : bytes)
| And (filters : list QueryFilter)
| Or (filters : list QueryFilter).

Fixpoint matches (f : QueryFilter) (block_id : option Z) (created_at : Z) (key : bytes) : bool :=
  match f with
  | BlockBefore max_block => match block_id with Some b => b <? max_block | None => true end
  | BlockAfter min_block => match block_id with Some b => min_block <? b | None => false end
  | BlockRange start end_ =>
      match block_id with Some b => (start <=? b) && (b <=? end_) | None => false end
  | CreatedBefore t => created_at <? t
  | CreatedAfter t => t <? created_at
  | KeyPrefix p => bytes_starts_with p key
  | And fs => forallb (fun g => matches g block_id created_at key) fs
  | Or fs => existsb (fun g => matches g block_id created_at key) fs
  end.

Record QueryBuilder : Type := mk_QueryBuilder {
  qb_namespace : string;
  qb_filters : list QueryFilter;
  qb_limit : nat;
  qb_offset : nat;
  qb_cursor : option QueryCursor;
  qb_include_count : bool;
  qb_order_ascending : bool
}.

Definition QueryBuilder_new (namespace : string) : QueryBuilder :=
  mk_QueryBuilder namespace [] 100 0 None false true.
Definition push_filter (f : QueryFilter) (q : QueryBuilder) : QueryBuilder :=
  mk_QueryBuilder (qb_namespace q) (qb_filters q ++ [f]) (qb_limit q) (qb_offset q) (qb_cursor q)
    (qb_include_count q) (qb_order_ascending q).
Definition before_block (b : Z) : QueryBuilder -> QueryBuilder := push_filter (BlockBefore b).
Definition after_block (b : Z) : QueryBuilder -> QueryBuilder := push_filter (BlockAfter b).
Definition block_range (start end_ : Z) : QueryBuilder -> QueryBuilder :=
  push_filter (BlockRange start end_).
Definition created_before (t : Z) : QueryBuilder -> QueryBuilder := push_filter (CreatedBefore t).
Definition created_after (t : Z) : QueryBuilder -> QueryBuilder := push_filter (CreatedAfter t).
Definition key_prefix (p : bytes) : QueryBuilder -> QueryBuilder := push_filter (KeyPrefix p).
Definition qb_with_limit (n : nat) (q : QueryBuilder) : QueryBuilder :=
  mk_QueryBuilder (qb_namespace q) (qb_filters q) n (qb_offset q) (qb_cursor q)
    (qb_include_count q) (qb_order_ascending q).
Definition qb_with_offset (n : nat) (q : QueryBuilder) : QueryBuilder :=
  mk_QueryBuilder (qb_namespace q) (qb_filters q) (qb_limit q) n (qb_cursor q)
    (qb_include_count q) (qb_order_ascending q).
Definition qb_with_cursor (c : QueryCursor) (q : QueryBuilder) : QueryBuilder :=
  mk_QueryBuilder (qb_namespace q) (qb_filters q) (qb_limit q) (qb_offset q) (Some c)
    (qb_include_count q) (qb_order_ascending q).
Definition with_count (q : QueryBuilder) : QueryBuilder :=
  mk_QueryBuilder (qb_namespace q) (qb_filters q) (qb_limit q) (qb_offset q) (qb_cursor q) true
    (qb_order_ascending q).
Definition set_ascending (b : bool) (q : QueryBuilder) : QueryBuilder :=
  mk_QueryBuilder (qb_namespace q) (qb_filters q) (qb_limit q) (qb_offset q) (qb_cursor q)
    (qb_include_count q) b.

Definition build_filter (q : QueryBuilder) : option QueryFilter :=
  match qb_filters q with
  | [] => None
  | [f] => Some f
  | fs => Some (And fs)
  end.

(** ** The block index *)

Definition u64_saturating_add (a b : Z) : Z := Z.min u64_max (a + b).

Definition block_index_key `{External} (namespace : string) (block_id : Z) (key : StorageKey) :
    bytes :=
  str_bytes namespace ++ colon :: to_be_bytes 8 block_id ++ colon :: key_hash key.

Definition parse_block_index_key (key : bytes) : option (string * Z * bytes) :=
  '(ns, rest) ← split_once colon key;
  if utf8_valid ns then
    if (length rest <? 41)%nat then None
    else if decide (rest !! 8%nat = Some colon)
    then Some (bytes_str ns, from_be_bytes (take 8 rest), take 32 (drop 9 rest))
    else None
  else None.

Definition block_range_start (namespace : string) (start_block : Z) : bytes :=
  str_bytes namespace ++ colon :: to_be_bytes 8 start_block.
Definition block_range_end (namespace : string) (end_block : Z) : bytes :=
  str_bytes namespace ++ colon :: to_be_bytes 8 (u64_saturating_add end_block 1).

(** ** The trait *)

(** A store with state [S]; each operation takes the time. *)
Class DistributedStore (S : Type) : Type := {
  ds_get : Z -> StorageKey -> GetOptions -> SE S StorageError (option StoredValue);
  ds_put : Z -> StorageKey -> bytes -> PutOptions -> SE S StorageError ValueMetadata;
  ds_delete : Z -> StorageKey -> SE S StorageError bool;
  ds_exists : StorageKey -> SE S StorageError bool;
  ds_list_prefix : Z -> string -> option bytes -> nat -> option bytes ->
    SE S StorageError ListResult;
  ds_stats : SE S StorageError StorageStats;
  ds_list_before_block : Z -> string -> Z -> nat -> SE S StorageError QueryResult;
  ds_list_after_block : Z -> string -> Z -> nat -> SE S StorageError QueryResult;
  ds_list_range : Z -> string -> Z -> Z -> nat -> SE S StorageError QueryResult;
  ds_count_by_namespace : string -> SE S StorageError Z;
  ds_query : Z -> QueryBuilder -> SE S StorageError QueryResult;
  ds_put_with_block : Z -> StorageKey -> bytes -> Z -> PutOptions -> SE S StorageError ValueMetadata
}.

(** [DistributedStoreExt]. *)
Definition get_simple {S} `{DistributedStore S} (now : Z) (key : StorageKey) :
    SE S StorageError (option bytes) :=
  r ← ds_get now key GetOptions_default; mret (sv_data <$> r).
Definition put_simple {S} `{DistributedStore S} (now : Z) (key : StorageKey) (value : bytes) :
    SE S StorageError ValueMetadata :=
  ds_put now key value PutOptions_default.

(** * Keys of the distributed storage

    Database keys and block-index keys can be read back when the namespace has
    no colon, and the order of the index is the order of the blocks. *)

(** Namespaces that keep database keys apart. *)
Definition plain_namespace (ns : string) : Prop := colon ∉ str_bytes ns.

#[global] Instance plain_namespace_dec ns : Decision (plain_namespace ns).
Proof. unfold plain_namespace. apply _. Defined.

Lemma key_to_bytes_inj k k' :
  plain_namespace (sk_namespace k) -> plain_namespace (sk_namespace k') ->
  key_to_bytes k = key_to_bytes k' -> k = k'.
Proof.
  destruct k as [n b], k' as [n' b']. unfold key_to_bytes, plain_namespace. simpl.
  intros Hn Hn' Heq. apply app_sep_inj in Heq as [Heq ->]; [|done|done].
  by apply str_bytes_inj in Heq as ->.
Qed.

Lemma parse_key_to_bytes k :
  plain_namespace (sk_namespace k) -> utf8_valid (key_to_bytes k) = true ->
  parse_db_key (key_to_bytes k) = Some k.
Proof.
  intros Hn Hu. unfold parse_db_key. rewrite Hu. unfold key_to_bytes.
  rewrite split_once_app by done. rewrite bytes_str_bytes. by destruct k.
Qed.

(** With a colon in a namespace two keys share one database key: the same
    bytes read as (a:b, c) and as (a, b:c). *)
Lemma key_to_bytes_ambiguous a b c :
  key_to_bytes (mk_StorageKey (a +:+ ":" +:+ b) c) =
  key_to_bytes (mk_StorageKey a (str_bytes b ++ colon :: c)).
Proof.
  unfold key_to_bytes. simpl. rewrite !str_bytes_app, <- !(assoc_L (++)). done.
Qed.

Section block_index.
Context `{External} `{!ExternalLaws}.

Lemma length_key_hash k : length (key_hash k) = 32%nat.
Proof. apply sha256_length. Qed.

Lemma parse_block_index_key_ok ns b k :
  plain_namespace ns -> utf8_valid (str_bytes ns) = true -> is_u64 b ->
  parse_block_index_key (block_index_key ns b k) = Some (ns, b, key_hash k).
Proof.
  intros Hn Hu Hb. unfold parse_block_index_key, block_index_key.
  rewrite split_once_app by done.
  set (rest := to_be_bytes 8 b ++ colon :: key_hash k).
  assert (Hlen : length rest = 41%nat)
    by (unfold rest; rewrite length_app, length_cons, length_to_be_bytes, length_key_hash; done).
  assert (Hsep : rest !! 8%nat = Some colon).
  { unfold rest. rewrite lookup_app_r; by rewrite length_to_be_bytes. }
  assert (Hblock : take 8 rest = to_be_bytes 8 b) by (by apply take_app_length').
  assert (Hhash : drop 9 rest = key_hash k).
  { unfold rest. change 9%nat with (8 + 1)%nat. by rewrite (drop_app_add' _ _ 8 1). }
  cbn [mbind option_bind]. rewrite Hu, Hlen, Hsep, Hblock, Hhash. cbn [Nat.ltb Nat.leb].
  rewrite decide_True by done. rewrite from_to_be_bytes, Z.mod_small by exact Hb.
  rewrite take_ge by (by rewrite length_key_hash). by rewrite bytes_str_bytes.
Qed.

Lemma block_index_key_inj ns b k ns' b' k' :
  plain_namespace ns -> plain_namespace ns' -> is_u64 b -> is_u64 b' ->
  block_index_key ns b k = block_index_key ns' b' k' ->
  ns = ns' /\ b = b' /\ key_hash k = key_hash k'.
Proof.
  intros Hn Hn' Hb Hb' Heq. unfold block_index_key in Heq.
  apply app_sep_inj in Heq as [Hns Heq]; [|done|done]. apply str_bytes_inj in Hns as ->.
  apply app_inj_1 in Heq as [Hbe Heq]; [|by rewrite !length_to_be_bytes].
  injection Heq as Heq.
  split; [done|]. split; [|done]. apply (f_equal from_be_bytes) in Hbe.
  by rewrite !from_to_be_bytes, !Z.mod_small in Hbe.
Qed.

(** ** Order *)

Lemma block_range_start_le ns a b k :
  is_u64 a -> is_u64 b ->
  bytes_le (block_range_start ns a) (block_index_key ns b k) <-> a <= b.
Proof.
  intros Ha Hb. unfold bytes_le, block_range_start, block_index_key.
  rewrite bytes_compare_app. cbn [bytes_compare]. rewrite Z.compare_refl.
  destruct (decide (a = b)) as [->|Hne].
  - rewrite <- (app_nil_r (to_be_bytes 8 b)) at 1. rewrite bytes_compare_app. simpl. split; [lia|done].
  - rewrite <- (app_nil_r (to_be_bytes 8 a)).
    rewrite bytes_compare_prefix, to_be_bytes_compare; [reflexivity|exact Ha|exact Hb|by rewrite !length_to_be_bytes|].
    intros Heq. apply (f_equal from_be_bytes) in Heq.
    by rewrite !from_to_be_bytes, !Z.mod_small in Heq.
Qed.

Lemma block_range_start_lt ns a b k :
  is_u64 a -> is_u64 b ->
  bytes_lt (block_index_key ns b k) (block_range_start ns a) <-> b < a.
Proof.
  intros Ha Hb. rewrite <- (Z.nle_gt a b), <- (block_range_start_le ns a b k) by done.
  rewrite <- bytes_not_lt_le. split; [tauto|]. apply dec_stable.
Qed.

Lemma block_index_key_lt ns b b' k k' :
  is_u64 b -> is_u64 b' ->
  bytes_lt (block_index_key ns b k) (block_index_key ns b' k') -> b <= b'.
Proof.
  intros Hb Hb' Hlt. apply Z.nlt_ge. intros Hgt.
  apply (bytes_lt_irrefl (block_index_key ns b k)).
  transitivity (block_index_key ns b' k'); [done|].
  unfold bytes_lt, block_index_key. rewrite bytes_compare_app. cbn [bytes_compare].
  rewrite Z.compare_refl, bytes_compare_prefix, to_be_bytes_compare; [by apply Z.compare_lt_iff|exact Hb'|exact Hb
    |by rewrite !length_to_be_bytes|].
  intros Heq. apply (f_equal from_be_bytes) in Heq.
  rewrite !from_to_be_bytes, !Z.mod_small in Heq by done. lia.
Qed.

(** What lies between two strings that share a part before a separator shares
    it too. *)
Lemma between_prefix (c : Z) (p q x y r : bytes) :
  c ∉ p -> c ∉ q -> bytes_le (p ++ c :: x) (q ++ c :: r) -> bytes_le (q ++ c :: r) (p ++ c :: y) -> q = p.
Proof.
  unfold bytes_le. revert q. induction p as [|i p IH]; intros [|j q] Hp Hq; cbn [app bytes_compare].
  - done.
  - rewrite (Z.compare_antisym c j). apply not_elem_of_cons in Hq as [Hj _].
    destruct (Z.compare_spec c j); simpl; done.
  - rewrite (Z.compare_antisym c i). apply not_elem_of_cons in Hp as [Hi _].
    destruct (Z.compare_spec c i); simpl; done.
  - rewrite (Z.compare_antisym i j). apply not_elem_of_cons in Hp as [_ Hp].
    apply not_elem_of_cons in Hq as [_ Hq].
    destruct (Z.compare_spec i j) as [->|?|?]; simpl; [|done|done]. intros. f_equal. auto.
Qed.

(** The keys of one namespace are contiguous in the block index. *)
Lemma block_keys_contiguous ns ns' a b k upper :
  plain_namespace ns -> plain_namespace ns' ->
  bytes_le (block_range_start ns a) (block_index_key ns' b k) ->
  bytes_le (block_index_key ns' b k) (str_bytes ns ++ colon :: upper) -> ns' = ns.
Proof.
  intros Hn Hn' Hlo Hhi. apply str_bytes_inj. eapply (between_prefix colon); eauto.
Qed.
End block_index.
