(* ===== verification/LocalStore.v ===== *)
(** * The local storage

    Models [crates/distributed-storage/src/local.rs]: the trees of the sled
    database (ordered maps; an error of the disk is not modelled, and flushing
    has no effect on what is read), the replication markers, the block index
    and the cached counts.  bincode with the size limit of the source is the
    class [EntryCodec]. *)

From Stdlib Require Import Ascii.
From S2P Require Import Prelude Float64 Crypto RustStrings RustBytes DStore.

Definition MAX_ENTRY_SIZE : Z := 100 * 1024 * 1024.

(** ** Entries *)

Record ReplicationInfo : Type := mk_ReplicationInfo {
  ri_replicated_to : gset string;
  ri_last_replication_at : Z;
  ri_replication_attempts : Z;
  ri_needs_replication : bool
}.

Definition ReplicationInfo_default : ReplicationInfo := mk_ReplicationInfo ∅ 0 0 true.

Definition info_mark_replicated (now : Z) (node_id : string) (r : ReplicationInfo) :
    ReplicationInfo :=
  mk_ReplicationInfo ({[ node_id ]} ∪ ri_replicated_to r) now (ri_replication_attempts r)
    (ri_needs_replication r).

Definition meets_replication_factor (r : ReplicationInfo) (factor : nat) : bool :=
  (factor <=? size (ri_replicated_to r))%nat.

Record LocalEntry : Type := mk_LocalEntry {
  le_value : StoredValue;
  le_replication : ReplicationInfo;
  le_block_id : option Z
}.

(** [bincode::serialize], and [deserialize] with a limit on the size. *)
Class EntryCodec : Type := {
  encode_entry : LocalEntry -> result string bytes;
  decode_entry : bytes -> result string LocalEntry
}.

Class EntryCodecLaws `{EntryCodec} : Prop := {
  decode_encode_entry : forall e b, encode_entry e = Ok b ->
    Z.of_nat (length b) <= MAX_ENTRY_SIZE -> decode_entry b = Ok e;
  decode_entry_limit : forall e b, encode_entry e = Ok b ->
    MAX_ENTRY_SIZE < Z.of_nat (length b) -> is_ok (decode_entry b) = false
}.

(** ** The storage *)

Record LocalStorage : Type := mk_LocalStorage {
  ls_data : Tree bytes;
  ls_index : Tree bytes;
  ls_block_index : Tree bytes;
  ls_node_id : string;
  ls_counts : gmap string Z
}.

Definition set_data (t : Tree bytes) (s : LocalStorage) : LocalStorage :=
  mk_LocalStorage t (ls_index s) (ls_block_index s) (ls_node_id s) (ls_counts s).
Definition set_index (t : Tree bytes) (s : LocalStorage) : LocalStorage :=
  mk_LocalStorage (ls_data s) t (ls_block_index s) (ls_node_id s) (ls_counts s).
Definition set_block_index (t : Tree bytes) (s : LocalStorage) : LocalStorage :=
  mk_LocalStorage (ls_data s) (ls_index s) t (ls_node_id s) (ls_counts s).
Definition set_counts (c : gmap string Z) (s : LocalStorage) : LocalStorage :=
  mk_LocalStorage (ls_data s) (ls_index s) (ls_block_index s) (ls_node_id s) c.

Definition LocalStorage_in_memory (node_id : string) : LocalStorage :=
  mk_LocalStorage ∅ ∅ ∅ node_id ∅.

(** The namespace of an index key: what precedes the first colon. *)
Definition index_namespace (key : bytes) : option string :=
  if utf8_valid key then
    Some (bytes_str match split_once colon key with Some (ns, _) => ns | None => key end)
  else None.

Definition bump (ns : string) (counts : gmap string Z) : gmap string Z :=
  <[ns := u64_add (default 0 (counts !! ns)) 1]> counts.

Definition rebuild_namespace_counts (s : LocalStorage) : LocalStorage :=
  set_counts (fold_left (fun counts '(key, _) =>
    match index_namespace key with Some ns => bump ns counts | None => counts end)
    (tree_iter (ls_index s)) ∅) s.

(** [open]: the trees of the database at the path. *)
Definition LocalStorage_open (data index block_index : Tree bytes) (node_id : string) :
    LocalStorage :=
  rebuild_namespace_counts (mk_LocalStorage data index block_index node_id ∅).

Section local.
Context `{External} `{EntryCodec}.

Abbreviation LocalM := (SE LocalStorage StorageError).

Definition db_key (key : StorageKey) : bytes := key_to_bytes key.

Definition index_key (key : StorageKey) : bytes :=
  str_bytes (sk_namespace key +:+ ":" +:+ hex_encode (sk_key key)).

Definition decode (b : bytes) : result StorageError LocalEntry :=
  result_map_err SerializationError (decode_entry b).

Definition get_entry (key : StorageKey) (s : LocalStorage) : result StorageError (option LocalEntry) :=
  match ls_data s !! db_key key with
  | Some b => e ← decode b; Ok (Some e)
  | None => Ok None
  end.

Definition put_entry (key : StorageKey) (entry : LocalEntry) : LocalM unit :=
  b ← lift (result_map_err SerializationError (encode_entry entry));
  s ← get_state;
  existing ← lift (get_entry key s);
  _ ← (match existing with
       | Some old =>
           if decide (le_block_id old <> le_block_id entry) then
             match le_block_id old with
             | Some old_block => modify (fun s => set_block_index
                 (delete (block_index_key (sk_namespace key) old_block key) (ls_block_index s)) s)
             | None => mret tt
             end
           else mret tt
       | None => mret tt
       end);
  _ ← modify (fun s => set_data (<[db_key key := b]> (ls_data s)) s);
  _ ← modify (fun s => set_index (<[index_key key := db_key key]> (ls_index s)) s);
  _ ← (match le_block_id entry with
       | Some block_id => modify (fun s => set_block_index
           (<[block_index_key (sk_namespace key) block_id key := db_key key]> (ls_block_index s)) s)
       | None => mret tt
       end);
  match existing with
  | None => modify (fun s => set_counts (bump (sk_namespace key) (ls_counts s)) s)
  | Some _ => mret tt
  end.

Definition delete_entry (key : StorageKey) : LocalM bool :=
  s ← get_state;
  entry ← lift (get_entry key s);
  let existed := bool_decide (is_Some (ls_data s !! db_key key)) in
  _ ← modify (fun s => set_data (delete (db_key key) (ls_data s)) s);
  if existed then
    _ ← modify (fun s => set_index (delete (index_key key) (ls_index s)) s);
    _ ← (match entry with
         | Some e =>
             match le_block_id e with
             | Some block_id => modify (fun s => set_block_index
                 (delete (block_index_key (sk_namespace key) block_id key) (ls_block_index s)) s)
             | None => mret tt
             end
         | None => mret tt
         end);
    _ ← modify (fun s => match ls_counts s !! sk_namespace key with
          | Some count => set_counts
              (<[sk_namespace key := u64_saturating_sub count 1]> (ls_counts s)) s
          | None => s
          end);
    mret true
  else mret false.

Definition mark_replicated (now : Z) (key : StorageKey) (node_id : string) : LocalM unit :=
  s ← get_state;
  entry ← lift (get_entry key s);
  match entry with
  | Some e => put_entry key (mk_LocalEntry (le_value e)
      (info_mark_replicated now node_id (le_replication e)) (le_block_id e))
  | None => mret tt
  end.

Fixpoint collect_needing (limit : nat) (l : list (bytes * bytes)) (acc : list StorageKey) :
    result StorageError (list StorageKey) :=
  match l with
  | [] => Ok acc
  | (k, v) :: l' =>
      entry ← decode v;
      if ri_needs_replication (le_replication entry) then
        match parse_db_key k with
        | Some key =>
            let acc := acc ++ [key] in
            if (limit <=? length acc)%nat then Ok acc else collect_needing limit l' acc
        | None => collect_needing limit l' acc
        end
      else collect_needing limit l' acc
  end.

Definition keys_needing_replication (limit : nat) (s : LocalStorage) :
    result StorageError (list StorageKey) :=
  collect_needing limit (tree_iter (ls_data s)) [].

Definition get_replication_info (key : StorageKey) (s : LocalStorage) :
    result StorageError (option ReplicationInfo) :=
  match get_entry key s with
  | Ok e => Ok (le_replication <$> e)
  | Err x => Err x
  end.

Definition get_block_id (key : StorageKey) (s : LocalStorage) : result StorageError (option Z) :=
  match get_entry key s with
  | Ok e => Ok (e ≫= le_block_id)
  | Err x => Err x
  end.

(** ** Reading and writing *)

Definition local_get (now : Z) (key : StorageKey) (options : GetOptions) : LocalM (option StoredValue) :=
  s ← get_state;
  entry ← lift (get_entry key s);
  match entry with
  | Some e =>
      if is_expired now (sv_metadata (le_value e)) then
        _ ← delete_entry key; mret None
      else mret (Some (le_value e))
  | None => mret None
  end.

(** The check of [expected_version]. *)
Definition check_version (existing : option LocalEntry) (expected : option Z) :
    result StorageError unit :=
  match expected with
  | None => Ok tt
  | Some expected =>
      match existing with
      | Some e =>
          let found := vm_version (sv_metadata (le_value e)) in
          if found =? expected then Ok tt
          else Err (ConflictError ("Version mismatch: expected " +:+ Z_to_string expected +:+
                      ", found " +:+ Z_to_string found))
      | None =>
          if expected =? 0 then Ok tt
          else Err (ConflictError ("Key does not exist but expected version " +:+
                      Z_to_string expected))
      end
  end.

Definition set_ttl (ttl : Z) (v : StoredValue) : StoredValue :=
  let m := sv_metadata v in
  mk_StoredValue (sv_data v) (mk_ValueMetadata (vm_created_at m) (vm_updated_at m) (vm_version m)
    (vm_origin_node m) (vm_value_hash m) (vm_size m) ttl).

(** The value a write stores. *)
Definition next_value (now : Z) (node_id : string) (existing : option LocalEntry) (value : bytes)
    (ttl : Z) : StoredValue :=
  let v := match existing with
    | Some e => mk_StoredValue value
        (metadata_update now (sv_metadata (le_value e)) value (Some node_id))
    | None => StoredValue_new now value (Some node_id)
    end in
  if 0 <? ttl then set_ttl ttl v else v.

Definition put_entry_with_block_internal (now : Z) (key : StorageKey) (value : bytes)
    (block_id : Z) (options : PutOptions) : LocalM ValueMetadata :=
  s ← get_state;
  existing ← lift (get_entry key s);
  _ ← lift (check_version existing (po_expected_version options));
  let stored := next_value now (ls_node_id s) existing value (po_ttl_seconds options) in
  _ ← put_entry key (mk_LocalEntry stored
        (mk_ReplicationInfo ∅ 0 0 (negb (po_local_only options))) (Some block_id));
  mret (sv_metadata stored).

Definition local_put (now : Z) (key : StorageKey) (value : bytes) (options : PutOptions) :
    LocalM ValueMetadata :=
  s ← get_state;
  existing ← lift (get_entry key s);
  _ ← lift (check_version existing (po_expected_version options));
  let stored := next_value now (ls_node_id s) existing value (po_ttl_seconds options) in
  _ ← put_entry key (mk_LocalEntry stored
        (mk_ReplicationInfo ∅ 0 0 (negb (po_local_only options))) None);
  mret (sv_metadata stored).

Definition local_delete (now : Z) (key : StorageKey) : LocalM bool := delete_entry key.

Definition local_exists (key : StorageKey) : LocalM bool :=
  s ← get_state; mret (bool_decide (is_Some (ls_data s !! db_key key))).

Definition local_put_with_block (now : Z) (key : StorageKey) (value : bytes) (block_id : Z)
    (options : PutOptions) : LocalM ValueMetadata :=
  put_entry_with_block_internal now key value block_id options.

(** ** Listing *)

Fixpoint scan_prefix (now : Z) (scan_prefix_ : bytes) (limit : nat) (data : Tree bytes)
    (l : list (bytes * bytes)) (items : list (StorageKey * StoredValue)) (last_key : option bytes) :
    result StorageError (list (StorageKey * StoredValue) * option bytes) :=
  match l with
  | [] => Ok (items, last_key)
  | (ik, dk) :: l' =>
      if negb (bytes_starts_with scan_prefix_ ik) then Ok (items, last_key)
      else
        match data !! dk with
        | None => scan_prefix now scan_prefix_ limit data l' items last_key
        | Some b =>
            entry ← decode b;
            if is_expired now (sv_metadata (le_value entry))
            then scan_prefix now scan_prefix_ limit data l' items last_key
            else match parse_db_key dk with
            | None => scan_prefix now scan_prefix_ limit data l' items last_key
            | Some key =>
                let items := items ++ [(key, le_value entry)] in
                if (limit <=? length items)%nat then Ok (items, Some ik)
                else scan_prefix now scan_prefix_ limit data l' items (Some ik)
            end
        end
  end.

(** [*last = last.saturating_add(1)]. *)
Definition bump_last (k : bytes) : bytes :=
  match rev k with
  | [] => []
  | x :: k' => rev (Z.min 255 (x + 1) :: k')
  end.

Definition local_list_prefix (now : Z) (namespace : string) (prefix : option bytes) (limit : nat)
    (continuation_token : option bytes) : LocalM ListResult :=
  s ← get_state;
  let prefix_bytes := str_bytes match prefix with
    | Some p => namespace +:+ ":" +:+ hex_encode p
    | None => namespace +:+ ":"
    end in
  let start := default prefix_bytes continuation_token in
  '(items, last_key) ← lift (scan_prefix now prefix_bytes limit (ls_data s)
    (tree_range start None (ls_index s)) [] None);
  let has_more := (limit <=? length items)%nat in
  mret (mk_ListResult items has_more (if has_more then bump_last <$> last_key else None)).

Definition local_stats : LocalM StorageStats :=
  s ← get_state;
  let total_keys := u64_sum (map_to_list (ls_counts s)).*2 in
  let total_bytes := fold_left (fun n '(_, v) => u64_add n (Z.of_nat (length v)))
    (tree_iter (ls_data s)) 0 in
  mret (mk_StorageStats total_keys total_bytes (ls_counts s) total_keys 0).

(** ** Block queries *)

Fixpoint scan_blocks (now : Z) (namespace : string) (limit : nat) (filter : option QueryFilter)
    (data : Tree bytes) (l : list (bytes * bytes)) (results : list (StorageKey * StoredValue * Z)) :
    result StorageError (list (StorageKey * StoredValue * Z)) :=
  match l with
  | [] => Ok results
  | (bk, dk) :: l' =>
      match parse_block_index_key bk with
      | None => scan_blocks now namespace limit filter data l' results
      | Some (ns, block_id, _) =>
          if decide (ns <> namespace) then Ok results
          else match data !! dk with
          | None => scan_blocks now namespace limit filter data l' results
          | Some b =>
              entry ← decode b;
              if is_expired now (sv_metadata (le_value entry))
              then scan_blocks now namespace limit filter data l' results
              else match parse_db_key dk with
              | None => scan_blocks now namespace limit filter data l' results
              | Some key =>
                  if match filter with
                     | Some f => matches f (le_block_id entry)
                                   (vm_created_at (sv_metadata (le_value entry))) (sk_key key)
                     | None => true
                     end
                  then
                    let results := results ++ [(key, le_value entry, block_id)] in
                    if (limit <=? length results)%nat then Ok results
                    else scan_blocks now namespace limit filter data l' results
                  else scan_blocks now namespace limit filter data l' results
              end
          end
      end
  end.

Definition query_block_index_range (now : Z) (namespace : string) (start_key : bytes)
    (end_key : option bytes) (limit : nat) (filter : option QueryFilter) (s : LocalStorage) :
    result StorageError (list (StorageKey * StoredValue * Z)) :=
  scan_blocks now namespace limit filter (ls_data s)
    (tree_range start_key end_key (ls_block_index s)) [].

Definition drop_block (x : StorageKey * StoredValue * Z) : StorageKey * StoredValue := x.1.

Definition block_page (limit : nat) (results : list (StorageKey * StoredValue * Z)) : QueryResult :=
  let items := drop_block <$> results in
  QueryResult_new items 0 limit (limit <=? length items)%nat.

Definition local_list_before_block (now : Z) (namespace : string) (block_id : Z) (limit : nat) :
    LocalM QueryResult :=
  s ← get_state;
  results ← lift (query_block_index_range now namespace (block_range_start namespace 0)
    (Some (block_range_start namespace block_id)) limit None s);
  mret (block_page limit results).

Definition local_list_after_block (now : Z) (namespace : string) (block_id : Z) (limit : nat) :
    LocalM QueryResult :=
  s ← get_state;
  results ← lift (query_block_index_range now namespace (block_range_end namespace block_id)
    None limit None s);
  mret (block_page limit results).

Definition local_list_range (now : Z) (namespace : string) (start_block end_block : Z)
    (limit : nat) : LocalM QueryResult :=
  s ← get_state;
  results ← lift (query_block_index_range now namespace (block_range_start namespace start_block)
    (Some (block_range_end namespace end_block)) limit None s);
  mret (block_page limit results).

Definition local_count_by_namespace (namespace : string) : LocalM Z :=
  s ← get_state; mret (default 0 (ls_counts s !! namespace)).

(** The bounds that one filter adds; [end + 1] wraps. *)
Definition tighten (b : option Z * option Z) (f : QueryFilter) : option Z * option Z :=
  let '(lo, hi) := b in
  let raise (x : Z) := Some match lo with Some m => Z.max m x | None => x end in
  let lower (x : Z) := Some match hi with Some m => Z.min m x | None => x end in
  match f with
  | BlockBefore block => (lo, lower block)
  | BlockAfter block => (raise (u64_saturating_add block 1), hi)
  | BlockRange start end_ => (raise start, lower (u64_add end_ 1))
  | _ => b
  end.

Definition scan_bounds (fs : list QueryFilter) : option Z * option Z :=
  fold_left (fun b f => match f with And gs => fold_left tighten gs b | _ => tighten b f end)
    fs (None, None).

Definition determine_scan_range_from_query (q : QueryBuilder) : bytes * option bytes :=
  let '(lo, hi) := scan_bounds (qb_filters q) in
  (block_range_start (qb_namespace q) (default 0 lo), block_range_start (qb_namespace q) <$> hi).

(** Where a page starts: after the cursor's item. *)
Definition cursor_start (namespace : string) (cursor : option QueryCursor) (start_key : bytes) :
    bytes :=
  match cursor with
  | Some c =>
      match qc_last_block_id c, qc_last_key_hash c with
      | Some last_block, Some last_hash =>
          bump_last (str_bytes namespace ++ colon :: to_be_bytes 8 last_block ++ colon :: last_hash)
      | _, _ => start_key
      end
  | None => start_key
  end.

Definition local_query (now : Z) (q : QueryBuilder) : LocalM QueryResult :=
  let namespace := qb_namespace q in
  let limit := qb_limit q in
  let '(start_key, end_key) := determine_scan_range_from_query q in
  s ← get_state;
  results ← lift (query_block_index_range now namespace
    (cursor_start namespace (qb_cursor q) start_key) end_key (S limit) (build_filter q) s);
  let has_more := (limit <? length results)%nat in
  let results := take limit results in
  let r := QueryResult_new (drop_block <$> results) (qb_offset q) limit has_more in
  let r := if has_more then
      match last results with
      | Some (last_key, _, last_block) => with_cursor (from_last_item namespace last_block last_key) r
      | None => r
      end
    else r in
  if qb_include_count q then
    count ← local_count_by_namespace namespace; mret (with_total_count count r)
  else mret r.

#[export] Instance local_store : DistributedStore LocalStorage := {|
  ds_get := local_get;
  ds_put := local_put;
  ds_delete := local_delete;
  ds_exists := local_exists;
  ds_list_prefix := local_list_prefix;
  ds_stats := local_stats;
  ds_list_before_block := local_list_before_block;
  ds_list_after_block := local_list_after_block;
  ds_list_range := local_list_range;
  ds_count_by_namespace := local_count_by_namespace;
  ds_query := local_query;
  ds_put_with_block := local_put_with_block
|}.
End local.

(** ** The builder *)

Record LocalStorageBuilder : Type := mk_LocalStorageBuilder {
  lsb_path : option string;
  lsb_node_id : string;
  lsb_in_memory : bool
}.

Definition LocalStorageBuilder_new (node_id : string) : LocalStorageBuilder :=
  mk_LocalStorageBuilder None node_id false.
Definition builder_path (path : string) (b : LocalStorageBuilder) : LocalStorageBuilder :=
  mk_LocalStorageBuilder (Some path) (lsb_node_id b) false.
Definition builder_in_memory (b : LocalStorageBuilder) : LocalStorageBuilder :=
  mk_LocalStorageBuilder None (lsb_node_id b) true.

(** [open_db] reads the trees of the database at a path. *)
Definition builder_build
    (open_db : string -> result StorageError (Tree bytes * Tree bytes * Tree bytes))
    (b : LocalStorageBuilder) : result StorageError LocalStorage :=
  if lsb_in_memory b then Ok (LocalStorage_in_memory (lsb_node_id b))
  else match lsb_path b with
  | Some path => '(data, index, blocks) ← open_db path;
                 Ok (LocalStorage_open data index blocks (lsb_node_id b))
  | None => Err (InvalidData "Must specify either path or in_memory")
  end.
