(* ===== verification/LocalStoreProps.v ===== *)
(** * The local storage implements a map of versioned values

    The three trees and the cached counts of the local storage represent one
    map from keys to entries; every operation acts on them as the corresponding
    operation acts on the map. *)

From S2P Require Import Prelude Float64 Crypto RustStrings RustBytes DStore LocalStore.

Section refinement.
Context `{External} `{!ExternalLaws} `{EntryCodec} `{!EntryCodecLaws}.

(** ** Keys in use

    The keys a store is used with: no two of them share a database key, an
    index key, or a block index key. *)
Record sound_keys (K : StorageKey -> Prop) : Prop := {
  sk_db_inj : forall k k', K k -> K k' -> db_key k = db_key k' -> k = k';
  sk_index_inj : forall k k', K k -> K k' -> index_key k = index_key k' -> k = k';
  sk_block_inj : forall k b k' b', K k -> K k' -> is_u64 b -> is_u64 b' ->
    block_index_key (sk_namespace k) b k = block_index_key (sk_namespace k') b' k' -> k = k' /\ b = b'
}.

(** What makes keys sound: namespaces without a colon, valid text, and no two
    keys with the same digest or the same hexadecimal form. *)
Record plain_keys (K : StorageKey -> Prop) : Prop := {
  pk_plain : forall k, K k -> plain_namespace (sk_namespace k);
  pk_ns_utf8 : forall k, K k -> utf8_valid (str_bytes (sk_namespace k)) = true;
  pk_utf8 : forall k, K k -> utf8_valid (sk_key k) = true;
  pk_hash_inj : forall k k', K k -> K k' -> key_hash k = key_hash k' -> k = k';
  pk_hex_inj : forall k k', K k -> K k' -> hex_encode (sk_key k) = hex_encode (sk_key k') ->
    sk_key k = sk_key k'
}.

Section plain.
Context (K : StorageKey -> Prop) (HK : plain_keys K).

Lemma db_key_utf8 k : K k -> utf8_valid (db_key k) = true.
Proof.
  intros Hk. apply utf8_valid_app; [by apply HK|]. change (utf8_valid (sk_key k) = true). by apply HK.
Qed.

Lemma parse_db_key_ok k : K k -> parse_db_key (db_key k) = Some k.
Proof. intros Hk. apply parse_key_to_bytes; [by apply HK|by apply db_key_utf8]. Qed.

Lemma plain_keys_sound : sound_keys K.
Proof.
  split.
  - intros k k' Hk Hk'. apply key_to_bytes_inj; by apply HK.
  - intros k k' Hk Hk' Heq. destruct k as [n b], k' as [n' b']. unfold index_key in Heq. simpl in Heq.
    rewrite !str_bytes_app in Heq.
    apply (app_sep_inj colon) in Heq as [Hn Hb]; [|apply (pk_plain _ HK _ Hk)|apply (pk_plain _ HK _ Hk')].
    apply str_bytes_inj in Hn as ->. apply str_bytes_inj in Hb.
    f_equal. by apply (pk_hex_inj _ HK _ _ Hk Hk').
  - intros k b k' b' Hk Hk' Hb Hb' Heq.
    apply block_index_key_inj in Heq as (_ & -> & Hh); [|by apply HK|by apply HK|done|done].
    split; [|done]. by apply (pk_hash_inj _ HK).
Qed.
End plain.

Context (K : StorageKey -> Prop) (HK : sound_keys K).

Lemma db_key_inj k k' : K k -> K k' -> db_key k = db_key k' -> k = k'.
Proof. apply HK. Qed.

Lemma index_key_inj k k' : K k -> K k' -> index_key k = index_key k' -> k = k'.
Proof. apply HK. Qed.

Abbreviation block_key k b := (block_index_key (sk_namespace k) b k).

Lemma block_key_inj k b k' b' :
  K k -> K k' -> is_u64 b -> is_u64 b' -> block_key k b = block_key k' b' -> k = k' /\ b = b'.
Proof. apply HK. Qed.

(** ** Representation *)

Implicit Types (s : LocalStorage) (m : gmap StorageKey LocalEntry).

Definition stored_as (e : LocalEntry) (b : bytes) : Prop :=
  encode_entry e = Ok b /\ Z.of_nat (length b) <= MAX_ENTRY_SIZE.

Lemma stored_as_decode e b : stored_as e b -> decode b = Ok e.
Proof. intros [He Hb]. unfold decode. by rewrite (decode_encode_entry _ _ He Hb). Qed.

Definition of_namespace (ns : string) (m : gmap StorageKey LocalEntry) : gmap StorageKey LocalEntry :=
  filter (fun '(k, _) => sk_namespace k = ns) m.

Record represents s m : Prop := {
  rp_keys : forall k e, m !! k = Some e -> K k;
  rp_blocks : forall k e b, m !! k = Some e -> le_block_id e = Some b -> is_u64 b;
  rp_stored : forall k e, m !! k = Some e -> exists b, stored_as e b;
  rp_data : forall dk b, ls_data s !! dk = Some b <->
    exists k e, m !! k = Some e /\ dk = db_key k /\ stored_as e b;
  rp_index : forall ik dk, ls_index s !! ik = Some dk <->
    exists k, is_Some (m !! k) /\ ik = index_key k /\ dk = db_key k;
  rp_block_index : forall bk dk, ls_block_index s !! bk = Some dk <->
    exists k e b, m !! k = Some e /\ le_block_id e = Some b /\ bk = block_key k b /\ dk = db_key k;
  rp_counts : forall ns, default 0 (ls_counts s !! ns) = Z.of_nat (size (of_namespace ns m))
}.

Lemma in_memory_represents node : represents (LocalStorage_in_memory node) ∅.
Proof.
  split; simpl; intros *; rewrite ?lookup_empty; try done.
  - split; [done|]. intros (? & ? & Hk & _). by rewrite lookup_empty in Hk.
  - split; [done|]. intros (? & Hk & _). rewrite lookup_empty in Hk. by destruct Hk.
  - split; [done|]. intros (? & ? & ? & Hk & _). by rewrite lookup_empty in Hk.
Qed.

Lemma get_entry_represents s m k : represents s m -> K k -> get_entry k s = Ok (m !! k).
Proof.
  intros Hr Hk. unfold get_entry. destruct (ls_data s !! db_key k) as [b|] eqn:Hd.
  - apply (rp_data _ _ Hr) in Hd as (k' & e & He & Hdk & Hb).
    apply db_key_inj in Hdk as <-; [|done|by eapply (rp_keys _ _ Hr)].
    rewrite (stored_as_decode _ _ Hb). simpl. by rewrite He.
  - destruct (m !! k) as [e|] eqn:He; [|done].
    destruct (rp_stored _ _ Hr _ _ He) as [b Hb].
    assert (ls_data s !! db_key k = Some b) by (apply (rp_data _ _ Hr); eauto). congruence.
Qed.

Lemma data_represents s m k : represents s m -> K k ->
  is_Some (ls_data s !! db_key k) <-> is_Some (m !! k).
Proof.
  intros Hr Hk. pose proof (get_entry_represents _ _ _ Hr Hk) as Hg. unfold get_entry in Hg.
  destruct (ls_data s !! db_key k) as [b|] eqn:Hd.
  - apply (rp_data _ _ Hr) in Hd as (k' & e & He & Hdk & _).
    apply db_key_inj in Hdk as <-; [|done|by eapply (rp_keys _ _ Hr)]. rewrite He. split; eauto.
  - injection Hg as <-. split; intros [? ?]; done.
Qed.

(** The block-index entries of [k] are those of its current block. *)
Lemma block_index_own s m k b dk :
  represents s m -> K k -> is_u64 b -> ls_block_index s !! block_key k b = Some dk ->
  exists e, m !! k = Some e /\ le_block_id e = Some b.
Proof.
  intros Hr Hk Hb Hl. apply (rp_block_index _ _ Hr) in Hl as (k' & e & b' & He & Hbe & Heq & _).
  apply block_key_inj in Heq as [<- <-]; eauto using rp_keys, rp_blocks.
Qed.

(** ** Writing *)

(** The block index without the old block of a key that changes it. *)
Definition drop_old_block (k : StorageKey) (old : option LocalEntry) (e : LocalEntry)
    (t : Tree bytes) : Tree bytes :=
  match old with
  | Some o => if decide (le_block_id o <> le_block_id e) then
      match le_block_id o with Some b => delete (block_key k b) t | None => t end else t
  | None => t
  end.

Definition put_blocks (k : StorageKey) (old : option LocalEntry) (e : LocalEntry) (t : Tree bytes) :
    Tree bytes :=
  match le_block_id e with
  | Some b => <[block_key k b := db_key k]> (drop_old_block k old e t)
  | None => drop_old_block k old e t
  end.

Lemma put_entry_eq s m k e b :
  represents s m -> K k -> encode_entry e = Ok b ->
  put_entry k e s = (Ok tt, mk_LocalStorage (<[db_key k := b]> (ls_data s))
    (<[index_key k := db_key k]> (ls_index s)) (put_blocks k (m !! k) e (ls_block_index s))
    (ls_node_id s)
    (match m !! k with None => bump (sk_namespace k) (ls_counts s) | Some _ => ls_counts s end)).
Proof.
  intros Hr Hk He. unfold put_entry, mbind, SE_bind, lift, get_state.
  rewrite He. cbn [result_map_err]. rewrite (get_entry_represents _ _ _ Hr Hk).
  unfold put_blocks, drop_old_block. destruct s as [d i bi n c].
  destruct (m !! k) as [o|]; [|by destruct (le_block_id e)].
  destruct (decide (le_block_id o <> le_block_id e)); destruct (le_block_id o), (le_block_id e); done.
Qed.

Lemma drop_old_block_own m k o e t b dk :
  m !! k = Some o -> le_block_id o = Some b ->
  drop_old_block k (m !! k) e t !! block_key k b = Some dk -> le_block_id e = Some b.
Proof.
  intros -> Hb. unfold drop_old_block. rewrite Hb. case_decide as Hd; [by rewrite lookup_delete_eq|].
  congruence.
Qed.

Lemma drop_old_block_sub m k e t bk dk :
  drop_old_block k (m !! k) e t !! bk = Some dk -> t !! bk = Some dk.
Proof.
  unfold drop_old_block. destruct (m !! k) as [o|]; [|done]. case_decide; [|done].
  destruct (le_block_id o); [|done]. by intros [_ ?]%lookup_delete_Some.
Qed.

Lemma drop_old_block_other s m k e k' b' :
  represents s m -> K k -> K k' -> k' <> k -> is_u64 b' ->
  drop_old_block k (m !! k) e (ls_block_index s) !! block_key k' b' =
  ls_block_index s !! block_key k' b'.
Proof.
  intros Hr Hk Hk' Hne Hb'. unfold drop_old_block. destruct (m !! k) as [o|] eqn:Hm; [|done].
  case_decide; [|done]. destruct (le_block_id o) as [b|] eqn:Hb; [|done].
  apply lookup_delete_ne. intros Heq. apply block_key_inj in Heq as [-> _]; eauto using rp_blocks.
Qed.

Lemma put_blocks_lookup s m k e bk dk :
  represents s m -> K k -> (forall b, le_block_id e = Some b -> is_u64 b) ->
  put_blocks k (m !! k) e (ls_block_index s) !! bk = Some dk <->
  exists k' e' b', <[k := e]> m !! k' = Some e' /\ le_block_id e' = Some b' /\
    bk = block_key k' b' /\ dk = db_key k'.
Proof.
  intros Hr Hk Hu. split.
  - assert (Hkeep : drop_old_block k (m !! k) e (ls_block_index s) !! bk = Some dk ->
      (forall b, le_block_id e = Some b -> bk <> block_key k b) ->
      exists k' e' b', <[k := e]> m !! k' = Some e' /\ le_block_id e' = Some b' /\
        bk = block_key k' b' /\ dk = db_key k').
    { intros Hl Hne. pose proof (drop_old_block_sub _ _ _ _ _ _ Hl) as Hl'.
      apply (rp_block_index _ _ Hr) in Hl' as (k' & e' & b' & He' & Hb' & -> & ->).
      exists k', e', b'. rewrite lookup_insert_ne; [done|]. intros <-.
      eapply Hne; [|done]. by eapply drop_old_block_own. }
    unfold put_blocks. destruct (le_block_id e) as [b|] eqn:Hb; [|intros; by apply Hkeep].
    rewrite lookup_insert_Some. intros [[<- <-]|[Hne Hl]].
    + exists k, e, b. by rewrite lookup_insert_eq.
    + apply Hkeep; [done|]. intros b' [= <-]. congruence.
  - intros (k' & e' & b' & He' & Hb' & -> & ->). unfold put_blocks.
    apply lookup_insert_Some in He' as [[<- <-]|[Hne He']]; [by rewrite Hb', lookup_insert_eq|].
    assert (Hl : drop_old_block k (m !! k) e (ls_block_index s) !! block_key k' b' = Some (db_key k')).
    { rewrite drop_old_block_other by eauto using rp_keys, rp_blocks.
      apply (rp_block_index _ _ Hr). eauto 10. }
    destruct (le_block_id e) as [b|] eqn:Hb; [|done]. rewrite lookup_insert_ne; [done|].
    intros Heq. apply block_key_inj in Heq as [-> _]; eauto using rp_keys, rp_blocks.
Qed.

Lemma of_namespace_insert ns m k e :
  Z.of_nat (size (of_namespace ns (<[k := e]> m))) =
  Z.of_nat (size (of_namespace ns m)) +
    (if decide (sk_namespace k = ns /\ m !! k = None) then 1 else 0).
Proof.
  unfold of_namespace. destruct (decide (sk_namespace k = ns)) as [Hn|Hn].
  - rewrite map_filter_insert_True by done. rewrite map_size_insert.
    destruct (m !! k) as [o|] eqn:Hm.
    + rewrite decide_False by naive_solver.
      rewrite (proj2 (map_lookup_filter_Some _ _ _ _) (conj Hm Hn)). simpl. lia.
    + rewrite decide_True by done. rewrite (proj2 (map_lookup_filter_None _ _ _)) by auto. simpl. lia.
  - rewrite map_filter_insert_False by done. rewrite decide_False by naive_solver.
    rewrite map_filter_delete_not; [lia|]. by intros ? ?.
Qed.

Lemma of_namespace_size ns m : (size (of_namespace ns m) <= size m)%nat.
Proof. apply map_subseteq_size, map_filter_subseteq. Qed.

Lemma put_entry_represents s m k e b :
  represents s m -> K k -> stored_as e b -> (forall b, le_block_id e = Some b -> is_u64 b) ->
  Z.of_nat (size m) < u64_max ->
  exists s', put_entry k e s = (Ok tt, s') /\ represents s' (<[k := e]> m) /\
    ls_node_id s' = ls_node_id s.
Proof.
  intros Hr Hk He Hu Hsize. eexists. split; [by apply (put_entry_eq _ m); [..|apply He]|].
  split; [|done]. split; simpl.
  - intros k' e' [[<- _]|[_ Hl]]%lookup_insert_Some; eauto using rp_keys.
  - intros k' e' b' [[<- <-]|[_ Hl]]%lookup_insert_Some Hb'; eauto using rp_blocks.
  - intros k' e' [[<- <-]|[_ Hl]]%lookup_insert_Some; eauto using rp_stored.
  - intros dk b'. rewrite lookup_insert_Some, (rp_data _ _ Hr). split.
    + intros [[<- <-]|[Hne (k' & e' & Hl & -> & Hs)]]; [by exists k, e; rewrite lookup_insert_eq|].
      exists k', e'. rewrite lookup_insert_ne; [done|]. congruence.
    + intros (k' & e' & Hl & -> & Hs). apply lookup_insert_Some in Hl as [[<- <-]|[Hne Hl]].
      * left. split; [done|]. destruct He, Hs. congruence.
      * right. split; [|eauto]. intros Heq. apply db_key_inj in Heq; eauto using rp_keys.
  - intros ik dk. rewrite lookup_insert_Some, (rp_index _ _ Hr). split.
    + intros [[<- <-]|[Hne (k' & Hl & -> & Hs)]]; [by exists k; rewrite lookup_insert_eq|].
      exists k'. rewrite lookup_insert_ne; [done|]. congruence.
    + intros (k' & [e' Hl] & -> & ->). apply lookup_insert_Some in Hl as [[<- <-]|[Hne Hl]]; [by left|].
      right. split; [|eauto]. intros Heq. apply index_key_inj in Heq; eauto using rp_keys.
  - intros bk dk. by apply put_blocks_lookup.
  - intros ns. rewrite of_namespace_insert, <- (rp_counts _ _ Hr).
    pose proof (rp_counts _ _ Hr ns) as Hc. pose proof (of_namespace_size ns m) as Hle.
    destruct (m !! k) as [o|]; [rewrite decide_False by naive_solver; lia|]. unfold bump.
    destruct (decide (sk_namespace k = ns)) as [->|Hne].
    + rewrite lookup_insert_eq, decide_True by done. simpl. apply u64_add_small. unfold u64_max in Hsize. lia.
    + rewrite lookup_insert_ne, decide_False by naive_solver. lia.
Qed.

(** ** Deleting *)

Lemma of_namespace_delete ns m k :
  Z.of_nat (size (of_namespace ns (delete k m))) =
  Z.of_nat (size (of_namespace ns m)) -
    (if decide (sk_namespace k = ns /\ is_Some (m !! k)) then 1 else 0).
Proof.
  destruct (m !! k) as [e|] eqn:Hm.
  - rewrite <- (insert_delete_id m k e Hm) at 2. rewrite of_namespace_insert, lookup_delete_eq.
    destruct (decide (sk_namespace k = ns)).
    + rewrite !decide_True by done. lia.
    + rewrite !decide_False by naive_solver. lia.
  - rewrite delete_id by done. rewrite decide_False by (intros [_ [? ?]]; done). lia.
Qed.

(** The storage without an entry of [m]. *)
Lemma deleted_represents s m k e :
  represents s m -> m !! k = Some e ->
  represents (mk_LocalStorage (delete (db_key k) (ls_data s)) (delete (index_key k) (ls_index s))
    (match le_block_id e with
     | Some b => delete (block_key k b) (ls_block_index s) | None => ls_block_index s end)
    (ls_node_id s)
    (match ls_counts s !! sk_namespace k with
     | Some n => <[sk_namespace k := u64_saturating_sub n 1]> (ls_counts s) | None => ls_counts s end))
    (delete k m).
Proof.
  intros Hr Hm. assert (Hk : K k) by eauto using rp_keys. split; simpl.
  - intros k' e' [_ Hl]%lookup_delete_Some. eauto using rp_keys.
  - intros k' e' b' [_ Hl]%lookup_delete_Some. eauto using rp_blocks.
  - intros k' e' [_ Hl]%lookup_delete_Some. eauto using rp_stored.
  - intros dk b. rewrite lookup_delete_Some, (rp_data _ _ Hr). split.
    + intros [Hne (k' & e' & Hl & -> & Hs)]. exists k', e'. rewrite lookup_delete_ne; [done|]. congruence.
    + intros (k' & e' & [Hne Hl]%lookup_delete_Some & -> & Hs). split; [|eauto].
      intros Heq. apply db_key_inj in Heq; eauto using rp_keys.
  - intros ik dk. rewrite lookup_delete_Some, (rp_index _ _ Hr). split.
    + intros [Hne (k' & Hl & -> & Hs)]. exists k'. rewrite lookup_delete_ne; [done|]. congruence.
    + intros (k' & [e' [Hne Hl]%lookup_delete_Some] & -> & ->). split; [|eauto].
      intros Heq. apply index_key_inj in Heq; eauto using rp_keys.
  - intros bk dk. split.
    + intros Hl. assert (Hl' : ls_block_index s !! bk = Some dk /\
        forall b, le_block_id e = Some b -> bk <> block_key k b).
      { destruct (le_block_id e); [apply lookup_delete_Some in Hl as [??]|]; naive_solver. }
      destruct Hl' as [Hl' Hne]. apply (rp_block_index _ _ Hr) in Hl' as (k' & e' & b' & He' & Hb' & -> & ->).
      exists k', e', b'. rewrite lookup_delete_ne; [done|]. intros <-. naive_solver.
    + intros (k' & e' & b' & [Hne Hl]%lookup_delete_Some & Hb' & -> & ->).
      assert (Hl' : ls_block_index s !! block_key k' b' = Some (db_key k'))
        by (apply (rp_block_index _ _ Hr); eauto 10).
      destruct (le_block_id e) eqn:Hb; [|done]. rewrite lookup_delete_ne; [done|].
      intros Heq. apply block_key_inj in Heq as [-> _]; eauto using rp_keys, rp_blocks.
  - intros ns. rewrite of_namespace_delete. pose proof (rp_counts _ _ Hr ns) as Hc.
    pose proof (rp_counts _ _ Hr (sk_namespace k)) as Hck.
    pose proof (of_namespace_delete (sk_namespace k) m k) as Hd. rewrite decide_True in Hd by (rewrite Hm; eauto).
    destruct (ls_counts s !! sk_namespace k) as [n|] eqn:Hn; simpl in Hck; [|lia].
    destruct (decide (sk_namespace k = ns)) as [<-|Hne].
    + rewrite lookup_insert_eq, decide_True by (rewrite Hm; eauto). simpl.
      unfold u64_saturating_sub. lia.
    + rewrite lookup_insert_ne, decide_False by naive_solver. lia.
Qed.

Lemma delete_entry_represents s m k :
  represents s m -> K k ->
  exists s', delete_entry k s = (Ok (bool_decide (is_Some (m !! k))), s') /\
    represents s' (delete k m) /\ ls_node_id s' = ls_node_id s.
Proof.
  intros Hr Hk. unfold delete_entry, mbind, SE_bind, lift, get_state.
  rewrite (get_entry_represents _ _ _ Hr Hk).
  rewrite (bool_decide_ext _ _ (data_represents _ _ _ Hr Hk)).
  destruct (m !! k) as [e|] eqn:Hm; cbn [modify].
  2: { rewrite !bool_decide_eq_false_2 by (intros [? ?]; done). eexists. split; [done|].
       rewrite (delete_id m) by done. split; [|by destruct s].
       assert (Hd : ls_data s !! db_key k = None).
       { apply eq_None_not_Some. intros Hs%(data_represents _ _ _ Hr Hk). rewrite Hm in Hs. by destruct Hs. }
       destruct s as [d i bi n c]. simpl in *. unfold set_data. simpl. by rewrite delete_id. }
  rewrite !bool_decide_eq_true_2 by by eexists.
  set (bi := match le_block_id e with
    | Some b => delete (block_key k b) (ls_block_index s) | None => ls_block_index s end).
  set (c := match ls_counts s !! sk_namespace k with
    | Some n => <[sk_namespace k := u64_saturating_sub n 1]> (ls_counts s) | None => ls_counts s end).
  exists (mk_LocalStorage (delete (db_key k) (ls_data s)) (delete (index_key k) (ls_index s)) bi
            (ls_node_id s) c).
  split. { unfold bi, c. destruct s as [d i b n cs]. simpl.
           destruct (le_block_id e); simpl; by destruct (cs !! sk_namespace k). }
  split; [|done]. by apply deleted_represents.
Qed.
(** ** Operations on the map *)

Inductive store_op : Type :=
| OpGet (now : Z) (k : StorageKey) (options : GetOptions)
| OpPut (now : Z) (k : StorageKey) (value : bytes) (options : PutOptions)
| OpPutWithBlock (now : Z) (k : StorageKey) (value : bytes) (block_id : Z) (options : PutOptions)
| OpDelete (now : Z) (k : StorageKey)
| OpMarkReplicated (now : Z) (k : StorageKey) (node_id : string)
| OpCount (ns : string) (k : StorageKey).

Inductive answer : Type :=
| AnsValue (v : option StoredValue)
| AnsMeta (v : ValueMetadata)
| AnsBool (b : bool)
| AnsUnit
| AnsCount (n : Z).

Definition op_key (o : store_op) : StorageKey :=
  match o with
  | OpGet _ k _ | OpPut _ k _ _ | OpPutWithBlock _ k _ _ _ | OpDelete _ k | OpMarkReplicated _ k _
  | OpCount _ k => k
  end.

Definition run_op (o : store_op) : SE LocalStorage StorageError answer :=
  match o with
  | OpGet now k options => v ← local_get now k options; mret (AnsValue v)
  | OpPut now k value options => v ← local_put now k value options; mret (AnsMeta v)
  | OpPutWithBlock now k value b options =>
      v ← local_put_with_block now k value b options; mret (AnsMeta v)
  | OpDelete now k => v ← local_delete now k; mret (AnsBool v)
  | OpMarkReplicated now k node => _ ← mark_replicated now k node; mret AnsUnit
  | OpCount ns _ => n ← local_count_by_namespace ns; mret (AnsCount n)
  end.

(** The specification: one map, updated at one key. *)
Definition map_put (node : string) (now : Z) (k : StorageKey) (value : bytes) (block : option Z)
    (options : PutOptions) (m : gmap StorageKey LocalEntry) :
    result StorageError answer * gmap StorageKey LocalEntry :=
  match check_version (m !! k) (po_expected_version options) with
  | Err e => (Err e, m)
  | Ok _ =>
      let v := next_value now node (m !! k) value (po_ttl_seconds options) in
      (Ok (AnsMeta (sv_metadata v)),
       <[k := mk_LocalEntry v (mk_ReplicationInfo ∅ 0 0 (negb (po_local_only options))) block]> m)
  end.

Definition map_op (node : string) (o : store_op) (m : gmap StorageKey LocalEntry) :
    result StorageError answer * gmap StorageKey LocalEntry :=
  match o with
  | OpGet now k _ =>
      match m !! k with
      | Some e => if is_expired now (sv_metadata (le_value e)) then (Ok (AnsValue None), delete k m)
                  else (Ok (AnsValue (Some (le_value e))), m)
      | None => (Ok (AnsValue None), m)
      end
  | OpPut now k value options => map_put node now k value None options m
  | OpPutWithBlock now k value b options => map_put node now k value (Some b) options m
  | OpDelete _ k => (Ok (AnsBool (bool_decide (is_Some (m !! k)))), delete k m)
  | OpMarkReplicated now k id =>
      (Ok AnsUnit,
       match m !! k with
       | Some e => <[k := mk_LocalEntry (le_value e) (info_mark_replicated now id (le_replication e))
                            (le_block_id e)]> m
       | None => m
       end)
  | OpCount ns _ => (Ok (AnsCount (Z.of_nat (size (of_namespace ns m)))), m)
  end.

(** The key is sound, the entry it leaves can be stored, and the counters
    have room. *)
Definition admissible (node : string) (o : store_op) (m : gmap StorageKey LocalEntry) : Prop :=
  K (op_key o) /\ Z.of_nat (size m) < u64_max /\
  forall e, (map_op node o m).2 !! op_key o = Some e ->
    (exists b, stored_as e b) /\ forall b, le_block_id e = Some b -> is_u64 b.

Lemma put_refines s m now k value block options :
  represents s m -> K k -> Z.of_nat (size m) < u64_max ->
  (forall e, (map_put (ls_node_id s) now k value block options m).2 !! k = Some e ->
    (exists b, stored_as e b) /\ forall b, le_block_id e = Some b -> is_u64 b) ->
  let '(r, m') := map_put (ls_node_id s) now k value block options m in
  exists s', (v ← (s ← get_state;
    existing ← lift (get_entry k s);
    _ ← lift (check_version existing (po_expected_version options));
    let stored := next_value now (ls_node_id s) existing value (po_ttl_seconds options) in
    _ ← put_entry k (mk_LocalEntry stored
          (mk_ReplicationInfo ∅ 0 0 (negb (po_local_only options))) block);
    mret (sv_metadata stored)); mret (AnsMeta v)) s = (r, s') /\ represents s' m' /\
    ls_node_id s' = ls_node_id s.
Proof.
  intros Hr Hk Hsize Hfit. unfold map_put in *. unfold mbind, SE_bind, lift, get_state.
  rewrite (get_entry_represents _ _ _ Hr Hk).
  destruct (check_version (m !! k) (po_expected_version options)) as [[]|e]; [|by exists s].
  cbn [snd] in Hfit. destruct (Hfit _ (lookup_insert_eq _ _ _)) as [[b Hb] Hu].
  destruct (put_entry_represents _ _ _ _ _ Hr Hk Hb Hu Hsize) as (s' & Hp & Hr' & Hn).
  rewrite Hp. by exists s'.
Qed.

Lemma run_op_refines o s m :
  represents s m -> admissible (ls_node_id s) o m ->
  let '(r, m') := map_op (ls_node_id s) o m in
  exists s', run_op o s = (r, s') /\ represents s' m' /\ ls_node_id s' = ls_node_id s.
Proof.
  intros Hr (Hk & Hsize & Hfit). destruct o as [now k g|now k v p|now k v b p|now k|now k id|ns k];
    cbn [map_op op_key] in *.
  - cbn [run_op]. unfold local_get, mbind, SE_bind, lift, get_state.
    rewrite (get_entry_represents _ _ _ Hr Hk). destruct (m !! k) as [e|] eqn:Hm; [|by exists s].
    destruct (is_expired now (sv_metadata (le_value e))); [|by exists s].
    destruct (delete_entry_represents _ _ _ Hr Hk) as (s' & Hd & Hr' & Hn). rewrite Hd. by exists s'.
  - apply (put_refines s m now k v None p); [done|done|done|]. apply Hfit.
  - apply (put_refines s m now k v (Some b) p); [done|done|done|]. apply Hfit.
  - cbn [run_op]. unfold local_delete, mbind, SE_bind.
    destruct (delete_entry_represents _ _ _ Hr Hk) as (s' & Hd & Hr' & Hn). rewrite Hd. by exists s'.
  - cbn [run_op]. unfold mark_replicated, mbind, SE_bind, lift, get_state.
    rewrite (get_entry_represents _ _ _ Hr Hk).
    destruct (m !! k) as [e|] eqn:Hm; [|by exists s]. cbn [snd] in Hfit.
    destruct (Hfit _ (lookup_insert_eq _ _ _)) as [[b Hb] Hu].
    destruct (put_entry_represents _ _ _ _ _ Hr Hk Hb Hu Hsize) as (s' & Hp & Hr' & Hn).
    rewrite Hp. by exists s'.
  - cbn [run_op]. unfold local_count_by_namespace, mbind, SE_bind, get_state.
    exists s. by rewrite (rp_counts _ _ Hr).
Qed.

(** ** Runs *)

Fixpoint run_ops (os : list store_op) (s : LocalStorage) :
    list (result StorageError answer) * LocalStorage :=
  match os with
  | [] => ([], s)
  | o :: os' => let '(r, s) := run_op o s in let '(rs, s) := run_ops os' s in (r :: rs, s)
  end.

Fixpoint map_ops (node : string) (os : list store_op) (m : gmap StorageKey LocalEntry) :
    list (result StorageError answer) * gmap StorageKey LocalEntry :=
  match os with
  | [] => ([], m)
  | o :: os' => let '(r, m) := map_op node o m in let '(rs, m) := map_ops node os' m in (r :: rs, m)
  end.

Fixpoint admissible_run (node : string) (os : list store_op) (m : gmap StorageKey LocalEntry) : Prop :=
  match os with
  | [] => True
  | o :: os' => admissible node o m /\ admissible_run node os' (map_op node o m).2
  end.

Lemma run_ops_refine os s m :
  represents s m -> admissible_run (ls_node_id s) os m ->
  (run_ops os s).1 = (map_ops (ls_node_id s) os m).1 /\
  represents (run_ops os s).2 (map_ops (ls_node_id s) os m).2.
Proof.
  revert s m. induction os as [|o os IH]; intros s m Hr Ha; [done|].
  destruct Ha as [Ho Hos]. pose proof (run_op_refines _ _ _ Hr Ho) as Hstep.
  cbn [run_ops map_ops]. destruct (map_op (ls_node_id s) o m) as [r m'].
  destruct Hstep as (s' & -> & Hr' & Hn). rewrite <- Hn in Hos.
  specialize (IH _ _ Hr' Hos). rewrite Hn in IH.
  destruct (run_ops os s') as [rs s2], (map_ops (ls_node_id s) os m') as [rs' m2]. simpl in *.
  destruct IH as [-> ?]. done.
Qed.
End refinement.

(** C19. The local storage implements a map: started empty and used with keys
    that do not collide in their stored form (as those whose namespaces have no
    colon and whose digests differ), any sequence of reads, writes with and without block and expected version,
    deletions, replication marks and counts gives, operation by operation, the
    answers of one map from keys to versioned entries, and the data tree, the
    namespace index, the block index and the cached counts stay exactly in step
    with that map. *)
Theorem local_store_refines_map `{External} `{!ExternalLaws} `{EntryCodec} `{!EntryCodecLaws}
    (K : StorageKey -> Prop) node os :
  sound_keys K -> admissible_run K node os ∅ ->
  (run_ops os (LocalStorage_in_memory node)).1 = (map_ops node os ∅).1 /\
  represents K (run_ops os (LocalStorage_in_memory node)).2 (map_ops node os ∅).2.
Proof.
  intros HK Ha. exact (run_ops_refine K HK os _ _ (in_memory_represents K node) Ha).
Qed.
