(* ===== verification/LocalQueryProps.v ===== *)
(** * Block queries of the local storage

    The queries through the block index return what a search of the whole map
    would: the live entries of the namespace whose block is in range, in the
    order of their blocks, up to the limit. *)

From S2P Require Import Prelude Float64 Crypto RustStrings RustBytes DStore LocalStore LocalStoreProps.

Lemma omap_cons_split {A B} (f : A -> option B) x l :
  omap f (x :: l) = match f x with Some y => y :: omap f l | None => omap f l end.
Proof. done. Qed.

Section queries.
Context `{External} `{!ExternalLaws} `{EntryCodec} `{!EntryCodecLaws}.
Context (K : StorageKey -> Prop) (HK : plain_keys K).
Implicit Types (s : LocalStorage) (m : gmap StorageKey LocalEntry).

(** ** The loop *)

Definition passes (f : option QueryFilter) (e : LocalEntry) (key : bytes) : bool :=
  match f with
  | Some f => matches f (le_block_id e) (vm_created_at (sv_metadata (le_value e))) key
  | None => true
  end.

(** What one entry of the index contributes. *)
Definition block_item (now : Z) (f : option QueryFilter) (data : Tree bytes) (x : bytes * bytes) :
    option (StorageKey * StoredValue * Z) :=
  '(_, b, _) ← parse_block_index_key x.1;
  bytes ← data !! x.2;
  match decode bytes with
  | Ok e =>
      if is_expired now (sv_metadata (le_value e)) then None
      else key ← parse_db_key x.2; if passes f e (sk_key key) then Some (key, le_value e, b) else None
  | Err _ => None
  end.

Definition good_item (ns : string) (data : Tree bytes) (x : bytes * bytes) : Prop :=
  exists b h bytes e, parse_block_index_key x.1 = Some (ns, b, h) /\ data !! x.2 = Some bytes /\
    decode bytes = Ok e.

Definition stops_at (ns : string) (l : list (bytes * bytes)) : Prop :=
  match l with
  | [] => True
  | x :: _ => exists ns' b h, parse_block_index_key x.1 = Some (ns', b, h) /\ ns' <> ns
  end.

Lemma scan_blocks_items now ns limit f data l1 l2 acc :
  Forall (good_item ns data) l1 -> stops_at ns l2 -> (length acc < limit)%nat ->
  scan_blocks now ns limit f data (l1 ++ l2) acc =
    Ok (acc ++ take (limit - length acc) (omap (block_item now f data) l1)).
Proof.
  intros Hg Hstop. revert acc. induction Hg as [|[bk dk] l1 (b & h & bytes & e & Hp & Hd & He) _ IH];
    intros acc Hacc.
  - cbn [app omap list_omap]. rewrite take_nil, app_nil_r. destruct l2 as [|[bk dk] l2]; [done|].
    destruct Hstop as (ns' & b & h & Hp & Hne). cbn [fst] in Hp. cbn [scan_blocks].
    rewrite Hp. by rewrite decide_True.
  - rewrite omap_cons_split. cbn [app scan_blocks fst snd] in *.
    unfold block_item at 1. cbn [fst snd]. rewrite Hp, Hd. cbn [mbind option_bind].
    rewrite decide_False by tauto. unfold mbind at 1, result_bind at 1. rewrite He.
    destruct (is_expired now (sv_metadata (le_value e))); [by apply IH|].
    destruct (parse_db_key dk) as [key|]; [|by apply IH]. cbn [mbind option_bind].
    change (match f with Some f => _ | None => true end) with (passes f e (sk_key key)).
    destruct (passes f e (sk_key key)); [|by apply IH].
    destruct (Nat.leb_spec limit (length (acc ++ [(key, le_value e, b)]))) as [Hle|Hlt];
      rewrite length_app in *; simpl in *.
    + replace (limit - length acc)%nat with 1%nat by lia. done.
    + rewrite IH by (rewrite length_app; simpl; lia). rewrite length_app. simpl.
      replace (limit - length acc)%nat with (S (limit - (length acc + 1))) by lia.
      cbn [take]. by rewrite <- (assoc_L (++)).
Qed.

(** ** The range *)

Lemma block_index_good s m bk dk :
  represents K s m -> ls_block_index s !! bk = Some dk ->
  (exists k e b, m !! k = Some e /\ le_block_id e = Some b /\ bk = block_index_key (sk_namespace k) b k /\
    dk = db_key k /\ K k /\ is_u64 b /\ good_item (sk_namespace k) (ls_data s) (bk, dk)).
Proof.
  intros Hr Hl. apply (rp_block_index _ _ _ Hr) in Hl as (k & e & b & Hk & Hb & -> & ->).
  pose proof (rp_keys _ _ _ Hr _ _ Hk) as HKk. pose proof (rp_blocks _ _ _ Hr _ _ _ Hk Hb) as Hu.
  exists k, e, b. do 6 (split; [done|]). destruct (rp_stored _ _ _ Hr _ _ Hk) as [bs Hbs].
  exists b, (key_hash k), bs, e. cbn [fst snd]. split.
  - apply parse_block_index_key_ok; [by apply HK|by apply HK|done].
  - split; [|by apply stored_as_decode]. apply (rp_data _ _ _ Hr). eauto.
Qed.

(** The range of a namespace: its own keys first. *)
Lemma range_split s m ns lo hi :
  represents K s m -> plain_namespace ns ->
  exists l1 l2, tree_range (block_range_start ns lo) hi (ls_block_index s) = l1 ++ l2 /\
    Forall (good_item ns (ls_data s)) l1 /\ stops_at ns l2 /\
    forall bk dk, (bk, dk) ∈ l1 <-> (bk, dk) ∈ tree_range (block_range_start ns lo) hi (ls_block_index s) /\
      exists r, bk = str_bytes ns ++ colon :: r.
Proof.
  intros Hr Hn. pose proof (tree_range_sorted (block_range_start ns lo) hi (ls_block_index s)) as Hs.
  assert (Hall : forall bk dk, (bk, dk) ∈ tree_range (block_range_start ns lo) hi (ls_block_index s) ->
    ls_block_index s !! bk = Some dk /\ bytes_le (block_range_start ns lo) bk).
  { intros bk dk Hin. apply elem_of_tree_range in Hin as (? & ? & _). done. }
  revert Hs Hall. generalize (tree_range (block_range_start ns lo) hi (ls_block_index s)) as l.
  intros l Hs Hall. induction Hs as [|[bk dk] l Hs IH Hlt].
  { exists [], []. split; [done|]. split; [constructor|]. split; [done|]. set_solver. }
  destruct (Hall bk dk) as [Hl Hle]; [by left|].
  destruct (block_index_good _ _ _ _ Hr Hl) as (k & e & b & Hk & Hb & Hbk & Hdk & HKk & Hu & Hg).
  destruct (decide (sk_namespace k = ns)) as [Hns|Hns].
  - destruct IH as (l1 & l2 & -> & Hg1 & Hstop & Hmem). { intros bk' dk' Hin. apply Hall, elem_of_cons. by right. }
    exists ((bk, dk) :: l1), l2. split; [done|]. split; [constructor; [by rewrite <- Hns|done]|].
    split; [done|]. intros bk' dk'. rewrite !elem_of_cons, Hmem.
    split; [|intros [[?|?] ?]; [by left|by right]].
    intros [[= -> ->]|[? ?]]; [|split; [by right|done]]. split; [by left|]. rewrite Hbk, <- Hns. by eexists.
  - exists [], ((bk, dk) :: l). split; [done|]. split; [constructor|]. split.
    { exists (sk_namespace k), b, (key_hash k). split; [|done]. cbn [fst]. rewrite Hbk.
      apply parse_block_index_key_ok; [by apply HK|by apply HK|done]. }
    intros bk' dk'. split; [by intros ?%not_elem_of_nil|]. intros [Hin [r ->]]. exfalso.
    apply Hns. eapply (block_keys_contiguous ns (sk_namespace k) lo b k r); [done|by apply HK|by rewrite <- Hbk|].
    rewrite <- Hbk. apply elem_of_cons in Hin as [[= <- _]|Hin]; [by apply bytes_le_lteq; right|].
    apply bytes_lt_le. rewrite list.Forall_forall in Hlt. apply (Hlt _ Hin).
Qed.
Lemma block_item_represents s m now f k e b :
  represents K s m -> m !! k = Some e -> le_block_id e = Some b ->
  block_item now f (ls_data s) (block_index_key (sk_namespace k) b k, db_key k) =
    if is_expired now (sv_metadata (le_value e)) then None
    else if passes f e (sk_key k) then Some (k, le_value e, b) else None.
Proof.
  intros Hr Hk Hb. pose proof (rp_keys _ _ _ Hr _ _ Hk) as HKk.
  pose proof (rp_blocks _ _ _ Hr _ _ _ Hk Hb) as Hu.
  destruct (rp_stored _ _ _ Hr _ _ Hk) as [bs Hbs]. unfold block_item. cbn [fst snd].
  rewrite parse_block_index_key_ok; [|by apply HK|by apply HK|done]. cbn [mbind option_bind].
  assert (ls_data s !! db_key k = Some bs) as -> by (apply (rp_data _ _ _ Hr); eauto).
  cbn [mbind option_bind]. rewrite (stored_as_decode _ _ Hbs).
  rewrite (parse_db_key_ok K HK k HKk). done.
Qed.

(** ** The listing

    The live entries of a namespace whose block satisfies [P] and that pass the
    filter, each key once, in the order of the blocks. *)
Definition block_listing (now : Z) m (ns : string) (f : option QueryFilter) (P : Z -> Prop)
    (L : list (StorageKey * StoredValue * Z)) : Prop :=
  StronglySorted (fun x y => x.2 <= y.2 /\ x.1.1 <> y.1.1) L /\
  forall k v b, (k, v, b) ∈ L <->
    exists e, m !! k = Some e /\ sk_namespace k = ns /\ le_block_id e = Some b /\ P b /\
      v = le_value e /\ is_expired now (sv_metadata v) = false /\ passes f e (sk_key k) = true.

(** An index entry of the namespace in the range. *)
Definition range_member m (ns : string) (P : Z -> Prop) (bk dk : bytes) : Prop :=
  exists k e b, m !! k = Some e /\ le_block_id e = Some b /\
    bk = block_index_key (sk_namespace k) b k /\ dk = db_key k /\ sk_namespace k = ns /\ P b /\
    is_u64 b.

Lemma range_members s m ns lo hi (P : Z -> Prop) bk dk :
  represents K s m -> plain_namespace ns -> is_u64 lo ->
  (forall b k, is_u64 b -> (lo <= b /\ match hi with
    | Some h => bytes_lt (block_index_key ns b k) h | None => True end) <-> P b) ->
  (bk, dk) ∈ tree_range (block_range_start ns lo) hi (ls_block_index s) ->
  (exists r, bk = str_bytes ns ++ colon :: r) -> range_member m ns P bk dk.
Proof.
  intros Hr Hn Hlo HP (Hl & Hle & Hhi)%elem_of_tree_range [r Hns].
  destruct (block_index_good _ _ _ _ Hr Hl) as (k & e & b & Hk & Hb & Hbk & Hdk & HKk & Hu & _).
  assert (sk_namespace k = ns) as Hkn.
  { apply str_bytes_inj. rewrite Hbk in Hns. apply app_sep_inj in Hns as [? _]; [done|by apply HK|done]. }
  exists k, e, b. do 5 (split; [done|]). split; [|done]. rewrite Hbk, Hkn in Hle, Hhi.
  apply (HP b k Hu). split; [by apply (block_range_start_le ns lo b k)|done].
Qed.

Lemma query_range_listing s m now ns lo hi f limit (P : Z -> Prop) :
  represents K s m -> plain_namespace ns -> is_u64 lo -> (0 < limit)%nat ->
  (forall b k, is_u64 b -> (lo <= b /\ match hi with
    | Some h => bytes_lt (block_index_key ns b k) h | None => True end) <-> P b) ->
  exists L, block_listing now m ns f P L /\
    query_block_index_range now ns (block_range_start ns lo) hi limit f s = Ok (take limit L).
Proof.
  intros Hr Hn Hlo Hlim HP.
  destruct (range_split s m ns lo hi Hr Hn) as (l1 & l2 & Hrange & Hgood & Hstop & Hmem).
  exists (omap (block_item now f (ls_data s)) l1). split.
  2: { unfold query_block_index_range. rewrite Hrange, scan_blocks_items by done.
       simpl. by rewrite Nat.sub_0_r. }
  assert (Hl1 : forall bk dk, (bk, dk) ∈ l1 -> range_member m ns P bk dk).
  { intros bk dk Hin. apply Hmem in Hin as [Hin Hns]. by eapply range_members. }
  split.
  - apply (omap_sorted key_lt).
    + intros [bk dk] [bk' dk'] x' y' Hx Hy Hlt Hfx Hfy.
      apply Hl1 in Hx as (k & e & b & Hk & Hb & -> & -> & Hkn & _ & Hu).
      apply Hl1 in Hy as (k' & e' & b' & Hk' & Hb' & -> & -> & Hkn' & _ & Hu').
      rewrite (block_item_represents s m) with (e := e) in Hfx by done.
      rewrite (block_item_represents s m) with (e := e') in Hfy by done.
      unfold key_lt in Hlt. cbn [fst] in Hlt.
      destruct (is_expired now _); [done|]. destruct (passes f e _); [|done]. injection Hfx as <-.
      destruct (is_expired now _); [done|]. destruct (passes f e' _); [|done]. injection Hfy as <-.
      cbn [fst snd]. split; [rewrite Hkn, Hkn' in Hlt; by eapply block_index_key_lt|].
      intros ->. assert (b = b') as -> by congruence. by apply bytes_lt_irrefl in Hlt.
    + assert (Hs := tree_range_sorted (block_range_start ns lo) hi (ls_block_index s)).
      rewrite Hrange in Hs. by apply StronglySorted_app_1_l in Hs.
  - intros k v b. rewrite list_elem_of_omap. split.
    + intros ([bk dk] & Hin & Hitem).
      apply Hl1 in Hin as (k' & e & b' & Hk & Hb & -> & -> & Hkn & HPb & _).
      rewrite (block_item_represents s m) with (e := e) in Hitem by done.
      destruct (is_expired now _) eqn:Hexp; [done|]. destruct (passes f e _) eqn:Hpass; [|done].
      injection Hitem as <- <- <-. exists e. done.
    + intros (e & Hk & Hkn & Hb & HPb & -> & Hexp & Hpass).
      pose proof (rp_blocks _ _ _ Hr _ _ _ Hk Hb) as Hu.
      exists (block_index_key (sk_namespace k) b k, db_key k). split.
      2: { rewrite (block_item_represents s m) with (e := e) by done. by rewrite Hexp, Hpass. }
      apply (HP b k Hu) in HPb as [Hle Hhi]. apply Hmem. split; [|rewrite Hkn; by eexists].
      apply elem_of_tree_range. split; [apply (rp_block_index _ _ _ Hr); eauto 10|].
      rewrite Hkn. split; [by apply (block_range_start_le ns lo b k)|done].
Qed.
(** ** Filters *)

(** Ranges that do not end at the last block: [end + 1] does not wrap. *)
Fixpoint bounded_filter (f : QueryFilter) : bool :=
  match f with
  | BlockRange start end_ => (0 <=? start) && (start <=? u64_max) && (0 <=? end_) && (end_ <? u64_max)
  | BlockBefore b | BlockAfter b => (0 <=? b) && (b <=? u64_max)
  | And fs => forallb bounded_filter fs
  | _ => true
  end.

Definition within (b : Z) (bounds : option Z * option Z) : Prop :=
  (forall lo, bounds.1 = Some lo -> lo <= b) /\ (forall hi, bounds.2 = Some hi -> b < hi).

Lemma tighten_within b c key f bounds :
  is_u64 b -> bounded_filter f = true -> matches f (Some b) c key = true -> within b bounds ->
  within b (tighten bounds f).
Proof.
  intros Hb Hf Hm [Hlo Hhi]. destruct bounds as [lo hi]. simpl in *.
  assert (Hr : forall x, x <= b -> (match lo with Some m => Z.max m x | None => x end) <= b).
  { intros x Hx. destruct lo as [l|]; [specialize (Hlo l eq_refl)|]; lia. }
  assert (Hl : forall x, b < x -> b < match hi with Some m => Z.min m x | None => x end).
  { intros x Hx. destruct hi as [h|]; [specialize (Hhi h eq_refl)|]; lia. }
  destruct f as [x|x|x y| | | | |]; try done; simpl in Hm, Hf; split; cbn [tighten fst snd]; try done;
    intros z [= <-].
  - apply Hl. lia.
  - apply Hr. unfold u64_saturating_add. lia.
  - apply Hr. lia.
  - apply Hl. rewrite u64_add_small; unfold u64_max in *; lia.
Qed.

(** The bounds a query extracts exclude no matching entry. *)
Lemma scan_bounds_within b c key fs :
  is_u64 b -> forallb bounded_filter fs = true ->
  forallb (fun f => matches f (Some b) c key) fs = true -> within b (scan_bounds fs).
Proof.
  intros Hb. unfold scan_bounds.
  assert (Hgen : forall gs bounds, forallb bounded_filter gs = true ->
    forallb (fun f => matches f (Some b) c key) gs = true -> within b bounds ->
    within b (fold_left tighten gs bounds)).
  { induction gs as [|g gs IH]; intros bounds; simpl; [done|].
    rewrite !andb_true_iff. intros [? ?] [? ?] ?. apply IH; [done|done|]. by eapply tighten_within. }
  assert (Hw : within b (None, None)) by done. revert Hw. generalize (None : option Z, None : option Z).
  induction fs as [|f fs IH]; intros bounds Hw; simpl; [done|].
  rewrite !andb_true_iff. intros [Hbf Hbfs] [Hm Hms]. apply IH; [|done|done].
  destruct f; try (by eapply tighten_within). apply Hgen; done.
Qed.
Lemma tighten_u64 f bounds :
  bounded_filter f = true -> (forall x, bounds.1 = Some x -> is_u64 x) ->
  (forall x, bounds.2 = Some x -> is_u64 x) ->
  (forall x, (tighten bounds f).1 = Some x -> is_u64 x) /\
  (forall x, (tighten bounds f).2 = Some x -> is_u64 x).
Proof.
  intros Hf Hlo Hhi. destruct bounds as [lo hi]. simpl in *.
  assert (Hr : forall x, is_u64 x -> is_u64 (match lo with Some m => Z.max m x | None => x end)).
  { intros x Hx. destruct lo as [l|]; [specialize (Hlo l eq_refl)|]; unfold is_u64 in *; lia. }
  assert (Hl : forall x, is_u64 x -> is_u64 (match hi with Some m => Z.min m x | None => x end)).
  { intros x Hx. destruct hi as [h|]; [specialize (Hhi h eq_refl)|]; unfold is_u64 in *; lia. }
  destruct f as [x|x|x y| | | | |]; try done; simpl in Hf; unfold u64_max in Hf; split; cbn [tighten fst snd]; try done;
    intros z [= <-].
  - apply Hl. unfold is_u64. lia.
  - apply Hr. unfold is_u64, u64_saturating_add, u64_max. lia.
  - apply Hr. unfold is_u64. lia.
  - apply Hl. unfold u64_add. apply u64_wrap_range.
Qed.

Lemma scan_bounds_u64 fs :
  forallb bounded_filter fs = true ->
  (forall x, (scan_bounds fs).1 = Some x -> is_u64 x) /\
  (forall x, (scan_bounds fs).2 = Some x -> is_u64 x).
Proof.
  set (ok := fun bounds : option Z * option Z => (forall x, bounds.1 = Some x -> is_u64 x) /\
                                                 (forall x, bounds.2 = Some x -> is_u64 x)).
  assert (Hgen : forall gs bounds, forallb bounded_filter gs = true -> ok bounds ->
    ok (fold_left tighten gs bounds)).
  { induction gs as [|g gs IH]; intros bounds; simpl; [done|].
    rewrite andb_true_iff. intros [? ?] [? ?]. apply IH; [done|]. by apply tighten_u64. }
  unfold scan_bounds. assert (Hok : ok (None, None)) by done. revert Hok.
  generalize (None : option Z, None : option Z). induction fs as [|f fs IH]; intros bounds Hok; simpl; [done|].
  rewrite andb_true_iff. intros [Hf Hfs]. apply IH; [|done].
  destruct f; try (apply tighten_u64; [done|apply Hok|apply Hok]). by apply Hgen.
Qed.

Lemma passes_build_filter q e key :
  passes (build_filter q) e key =
  forallb (fun f => matches f (le_block_id e) (vm_created_at (sv_metadata (le_value e))) key)
    (qb_filters q).
Proof.
  unfold build_filter. destruct (qb_filters q) as [|f [|g fs]]; simpl; [done|by rewrite andb_true_r|done].
Qed.

(** The block queries are exact: on a namespace without a colon,
    [list_before_block], [list_after_block] and [list_range] return the live
    entries whose block is below, above or within the bounds, every key once, in
    the order of the blocks and cut at the limit, and say that there may be more
    exactly when the limit is reached.  (The bounds stay below the last block
    number, at which the exclusive end of a range saturates.) *)
Theorem block_queries_exact s m now ns limit :
  represents K s m -> plain_namespace ns -> (0 < limit)%nat ->
  (forall hi, is_u64 hi -> exists L, block_listing now m ns None (fun b => b < hi) L /\
     local_list_before_block now ns hi limit s = (Ok (block_page limit (take limit L)), s)) /\
  (forall lo, 0 <= lo < u64_max -> exists L, block_listing now m ns None (fun b => lo < b) L /\
     local_list_after_block now ns lo limit s = (Ok (block_page limit (take limit L)), s)) /\
  (forall lo hi, is_u64 lo -> 0 <= hi < u64_max ->
     exists L, block_listing now m ns None (fun b => lo <= b <= hi) L /\
     local_list_range now ns lo hi limit s = (Ok (block_page limit (take limit L)), s)).
Proof.
  intros Hr Hn Hlim.
  assert (Hend : forall b, 0 <= b < u64_max -> block_range_end ns b = block_range_start ns (b + 1)).
  { intros b Hb. unfold block_range_end, u64_saturating_add. by rewrite Z.min_r by lia. }
  unfold u64_max in *. split; [|split].
  - intros hi Hhi.
    destruct (query_range_listing s m now ns 0 (Some (block_range_start ns hi)) None limit (fun b => b < hi))
      as (L & HL & Hq); [done|done|done|done| |].
    { intros b k Hb. rewrite (block_range_start_lt ns hi b k Hhi Hb). unfold is_u64 in *. lia. }
    exists L. split; [done|]. unfold local_list_before_block, mbind, SE_bind, get_state, lift. by rewrite Hq.
  - intros lo Hlo.
    destruct (query_range_listing s m now ns (lo + 1) None None limit (fun b => lo < b))
      as (L & HL & Hq); [done|done|unfold is_u64; lia|done|intros; lia|].
    exists L. split; [done|]. unfold local_list_after_block, mbind, SE_bind, get_state, lift.
    by rewrite Hend, Hq by lia.
  - intros lo hi Hlo Hhi.
    destruct (query_range_listing s m now ns lo (Some (block_range_start ns (hi + 1))) None limit
      (fun b => lo <= b <= hi)) as (L & HL & Hq); [done|done|done|done| |].
    { intros b k Hb. rewrite (block_range_start_lt ns (hi + 1) b k) by (unfold is_u64 in *; lia).
      unfold is_u64 in *. lia. }
    exists L. split; [done|]. unfold local_list_range, mbind, SE_bind, get_state, lift.
    by rewrite Hend, Hq by lia.
Qed.

(** The items a query without a cursor returns, whatever offset and order it asks
    for. *)
Lemma first_page_items s m now q :
  represents K s m -> plain_namespace (qb_namespace q) ->
  qb_cursor q = None -> forallb bounded_filter (qb_filters q) = true ->
  exists L r, block_listing now m (qb_namespace q) (build_filter q) (fun _ => True) L /\
    local_query now q s = (Ok r, s) /\ qr_items r = drop_block <$> take (qb_limit q) L /\
    qr_has_more r = (qb_limit q <? length L)%nat /\
    (qb_include_count q = true ->
     qr_total_count r = Some (Z.of_nat (size (of_namespace (qb_namespace q) m)))).
Proof.
  intros Hr Hn Hc Hf. set (ns := qb_namespace q) in *. set (limit := qb_limit q).
  destruct (scan_bounds (qb_filters q)) as [lo hi] eqn:Hb.
  destruct (scan_bounds_u64 _ Hf) as [Hlo Hhi]. rewrite Hb in Hlo, Hhi. cbn [fst snd] in *.
  destruct (query_range_listing s m now ns (default 0 lo) (block_range_start ns <$> hi) (build_filter q)
    (S limit) (fun b => default 0 lo <= b /\ forall h, hi = Some h -> b < h)) as (L & HL & Hq);
    [done|done|destruct lo; [by apply Hlo|done]|lia| |].
  { intros b k Hu. destruct hi as [h|]; simpl; [|naive_solver].
    rewrite (block_range_start_lt ns h b k) by (auto; by apply Hhi). naive_solver. }
  assert (HL' : block_listing now m ns (build_filter q) (fun _ => True) L).
  { destruct HL as [Hs Hin]. split; [done|]. intros k v b. rewrite Hin. split; [naive_solver|].
    intros (e & Hk & Hkn & Hbe & _ & -> & Hexp & Hpass). exists e. do 3 (split; [done|]).
    split; [|done]. rewrite passes_build_filter, Hbe in Hpass.
    destruct (scan_bounds_within b _ _ _ (rp_blocks _ _ _ Hr _ _ _ Hk Hbe) Hf Hpass) as [Hl Hh].
    rewrite Hb in Hl, Hh. split; [|exact Hh]. destruct lo; [by apply Hl|]. simpl.
    pose proof (rp_blocks _ _ _ Hr _ _ _ Hk Hbe) as Hu. unfold is_u64 in Hu. lia. }
  assert (Hmore : (limit <? length (take (S limit) L))%nat = (limit <? length L)%nat).
  { rewrite length_take. destruct (Nat.ltb_spec limit (length L)); apply Nat.ltb_lt || apply Nat.ltb_ge; lia. }
  exists L. unfold local_query, determine_scan_range_from_query. fold ns limit. rewrite Hb, Hc.
  unfold local_count_by_namespace, mbind, SE_bind, get_state, lift. cbn [cursor_start].
  rewrite Hq, Hmore, take_take, Nat.min_l by lia.
  destruct (qb_include_count q), (limit <? length L)%nat;
    try destruct (last (take limit L)) as [[[? ?] ?]|]; eexists; (split; [exact HL'|]);
    (split; [reflexivity|]); simpl; rewrite ?(rp_counts _ _ _ Hr); by repeat split.
Qed.

(** C22. A query is equivalent to filtering everything: for a query in ascending
    order, without offset and cursor, whose ranges do not end at the last block
    number, the scan range derived from its block filters (those of the list and
    those nested in one conjunction) drops no matching entry, so the page holds
    the first [limit] live entries, in the order of the blocks, that match all
    filters, and [has_more] is true exactly when some are left. *)
Theorem query_exact s m now q :
  represents K s m -> plain_namespace (qb_namespace q) ->
  qb_cursor q = None -> qb_offset q = 0%nat -> qb_order_ascending q = true ->
  forallb bounded_filter (qb_filters q) = true ->
  exists L r, block_listing now m (qb_namespace q) (build_filter q) (fun _ => True) L /\
    local_query now q s = (Ok r, s) /\ qr_items r = drop_block <$> take (qb_limit q) L /\
    qr_has_more r = (qb_limit q <? length L)%nat /\
    (qb_include_count q = true ->
     qr_total_count r = Some (Z.of_nat (size (of_namespace (qb_namespace q) m)))).
Proof. intros Hr Hn Hc _ _ Hf. by apply first_page_items. Qed.

(** Offset and descending order make no difference to what is returned. *)
Lemma offset_and_order_ignored now q offset ascending s :
  let q' := mk_QueryBuilder (qb_namespace q) (qb_filters q) (qb_limit q) offset (qb_cursor q)
              (qb_include_count q) ascending in
  (r ← (local_query now q' s).1; Ok (qr_items r)) = (r ← (local_query now q s).1; Ok (qr_items r)).
Proof.
  intros q'. unfold local_query. change (determine_scan_range_from_query q') with (determine_scan_range_from_query q).
  destruct (determine_scan_range_from_query q) as [lo hi]. unfold mbind, SE_bind, get_state, lift.
  change (build_filter q') with (build_filter q). subst q'. cbn [qb_namespace qb_limit qb_cursor qb_include_count qb_offset].
  match goal with |- context [query_block_index_range ?a ?b ?c ?d ?e ?f ?g] =>
    destruct (query_block_index_range a b c d e f g) as [results|err] end; [|done].
  destruct (qb_include_count q), (qb_limit q <? length results)%nat; try destruct (last _) as [[[? ?] ?]|]; done.
Qed.
End queries.
