(* ===== verification/LocalListProps.v ===== *)
(** * Listings, cursors and limits of the local storage

    [list_prefix] returns what a search of the map would; where the cursor of a
    query points; and what the time to live and the size limit of an entry do
    to later operations. *)

From Stdlib Require Import Ascii.
From S2P Require Import Prelude Float64 Crypto RustStrings RustBytes DStore LocalStore LocalStoreProps LocalQueryProps.

Definition is_u8 (x : Z) : Prop := 0 <= x < 256.

(** Hexadecimal text: two characters a byte, each byte on its own. *)
Class HexLaws `{External} : Prop := {
  hex_app : forall a b, hex_encode (a ++ b) = hex_encode a +:+ hex_encode b;
  hex_length : forall a, length (str_bytes (hex_encode a)) = (2 * length a)%nat;
  hex_inj : forall a b, Forall is_u8 a -> Forall is_u8 b -> hex_encode a = hex_encode b -> a = b
}.

(** What has a prefix is contiguous from the prefix on. *)
Lemma prefix_contiguous (p x r : bytes) :
  bytes_le p x -> bytes_le x (p ++ r) -> exists r', x = p ++ r'.
Proof.
  unfold bytes_le. revert x. induction p as [|i p IH]; intros x; [by exists x|].
  destruct x as [|j x]; cbn [app bytes_compare]; [done|].
  rewrite (Z.compare_antisym i j). destruct (Z.compare_spec i j) as [->|?|?]; simpl; [|done|done].
  intros H1 H2. destruct (IH x H1 H2) as [r' ->]. by exists r'.
Qed.

(** A property that is closed downwards holds on an initial part of a sorted
    list. *)
Lemma sorted_prefix {A} (R : A -> A -> Prop) (P : A -> Prop) `{forall x, Decision (P x)} (l : list A) :
  (forall x y, x ∈ l -> y ∈ l -> R x y -> P y -> P x) -> StronglySorted R l ->
  l = filter P l ++ filter (fun x => ~ P x) l.
Proof.
  intros HP Hs. induction Hs as [|x l Hs IH Hall]; [done|]. rewrite !filter_cons.
  destruct (decide (P x)) as [Hx|Hx].
  - rewrite decide_False by tauto. cbn [app]. f_equal. apply IH.
    intros y z Hy Hz. apply HP; by right.
  - rewrite decide_True by done. rewrite filter_none; [cbn [app]; f_equal; symmetry|].
    + apply filter_all. rewrite list.Forall_forall in Hall |- *. intros y Hy HPy.
      apply Hx. eapply HP; [by left|by right|by apply Hall|done].
    + rewrite list.Forall_forall in Hall |- *. intros y Hy HPy.
      apply Hx. eapply HP; [by left|by right|by apply Hall|done].
Qed.

Lemma sorted_NoDup_fst {A B} (R : A * B -> A * B -> Prop) (l : list (A * B)) :
  (forall x y, R x y -> x.1 <> y.1) -> StronglySorted R l -> NoDup l.*1.
Proof.
  intros HR. induction 1 as [|x l Hs IH Hall]; simpl; [constructor|]. apply NoDup_cons. split; [|done].
  intros (y & Heq & Hy)%list_elem_of_fmap. rewrite list.Forall_forall in Hall.
  by apply (HR x y); [apply Hall|].
Qed.

Section listing.
Context `{External} `{!ExternalLaws} `{!HexLaws} `{EntryCodec} `{!EntryCodecLaws}.
Context (K : StorageKey -> Prop) (HK : plain_keys K) (HB : forall k, K k -> Forall is_u8 (sk_key k)).
Implicit Types (s : LocalStorage) (m : gmap StorageKey LocalEntry).

Lemma hex_prefix (p key : bytes) :
  Forall is_u8 p -> Forall is_u8 key ->
  (exists r, str_bytes (hex_encode key) = str_bytes (hex_encode p) ++ r) <->
  bytes_starts_with p key = true.
Proof.
  intros Hp Hkey. rewrite bytes_starts_with_spec. split.
  - intros [r Hr]. assert (Hlen := f_equal length Hr). rewrite length_app, !hex_length in Hlen.
    exists (drop (length p) key). rewrite <- (take_drop (length p) key) at 1. f_equal.
    apply hex_inj; [by apply Forall_take|done|]. apply str_bytes_inj. rewrite <- (take_drop (length p) key), hex_app, str_bytes_app in Hr.
    apply app_inj_1 in Hr as [-> _]; [done|]. rewrite !hex_length, length_take. lia.
  - intros [r ->]. exists (str_bytes (hex_encode r)). by rewrite hex_app, str_bytes_app.
Qed.

(** ** The loop of [list_prefix] *)

Definition list_item (now : Z) (data : Tree bytes) (x : bytes * bytes) :
    option (StorageKey * StoredValue) :=
  bytes ← data !! x.2;
  match decode bytes with
  | Ok e => if is_expired now (sv_metadata (le_value e)) then None
            else key ← parse_db_key x.2; Some (key, le_value e)
  | Err _ => None
  end.

Definition readable (data : Tree bytes) (x : bytes * bytes) : Prop :=
  exists bytes e, data !! x.2 = Some bytes /\ decode bytes = Ok e.

Lemma scan_prefix_items now sp limit data l1 l2 items lk :
  Forall (fun x => bytes_starts_with sp x.1 = true /\ readable data x) l1 ->
  match l2 with [] => True | x :: _ => bytes_starts_with sp x.1 = false end ->
  (length items < limit)%nat ->
  exists lk', scan_prefix now sp limit data (l1 ++ l2) items lk =
    Ok (items ++ take (limit - length items) (omap (list_item now data) l1), lk').
Proof.
  intros Hg Hstop. revert items lk.
  induction Hg as [|[ik dk] l1 [Hsp (bytes & e & Hd & He)] _ IH]; intros items lk Hlen.
  - cbn [app omap list_omap]. rewrite take_nil, app_nil_r. exists lk. destruct l2 as [|[ik dk] l2]; [done|].
    cbn [scan_prefix fst] in *. by rewrite Hstop.
  - rewrite omap_cons_split. cbn [app scan_prefix fst snd] in *. rewrite Hsp, Hd. cbn [negb].
    unfold list_item at 1. cbn [fst snd]. rewrite Hd. cbn [mbind option_bind].
    unfold mbind at 1, result_bind at 1. rewrite He.
    destruct (is_expired now (sv_metadata (le_value e))); [by apply IH|].
    destruct (parse_db_key dk) as [key|]; [|by apply IH]. cbn [mbind option_bind].
    destruct (Nat.leb_spec limit (length (items ++ [(key, le_value e)]))) as [Hle|Hlt];
      rewrite length_app in *; simpl in *.
    + replace (limit - length items)%nat with 1%nat by lia. by eexists.
    + destruct (IH (items ++ [(key, le_value e)]) (Some ik)) as [lk' ->]; [rewrite length_app; simpl; lia|].
      exists lk'. rewrite length_app. simpl.
      replace (limit - length items)%nat with (S (limit - (length items + 1))) by lia.
      cbn [take]. by rewrite <- (assoc_L (++)).
Qed.

Lemma index_readable s m ik dk :
  represents K s m -> ls_index s !! ik = Some dk ->
  exists k e, m !! k = Some e /\ ik = index_key k /\ dk = db_key k /\ K k /\
    readable (ls_data s) (ik, dk).
Proof.
  intros Hr Hl. apply (rp_index _ _ _ Hr) in Hl as (k & [e He] & -> & ->).
  exists k, e. do 3 (split; [done|]). split; [by eapply (rp_keys _ _ _ Hr)|].
  destruct (rp_stored _ _ _ Hr _ _ He) as [bs Hbs]. exists bs, e. cbn [snd].
  split; [apply (rp_data _ _ _ Hr); eauto|by apply stored_as_decode].
Qed.

Lemma list_item_represents s m now k e ik :
  represents K s m -> m !! k = Some e ->
  list_item now (ls_data s) (ik, db_key k) =
    if is_expired now (sv_metadata (le_value e)) then None else Some (k, le_value e).
Proof.
  intros Hr Hk. pose proof (rp_keys _ _ _ Hr _ _ Hk) as HKk.
  destruct (rp_stored _ _ _ Hr _ _ Hk) as [bs Hbs]. unfold list_item. cbn [snd].
  assert (ls_data s !! db_key k = Some bs) as -> by (apply (rp_data _ _ _ Hr); eauto).
  cbn [mbind option_bind]. rewrite (stored_as_decode _ _ Hbs), (parse_db_key_ok K HK k HKk). done.
Qed.

(** The keys of a namespace with a prefix are those with the scan prefix. *)
Lemma index_key_prefix k ns p :
  K k -> plain_namespace ns -> Forall is_u8 p ->
  (exists r, index_key k = str_bytes (ns +:+ ":" +:+ hex_encode p) ++ r) <->
  sk_namespace k = ns /\ bytes_starts_with p (sk_key k) = true.
Proof.
  intros Hk Hn Hp. rewrite <- hex_prefix by auto. unfold index_key.
  assert (Heq : forall a b r, str_bytes (a +:+ ":" +:+ b) ++ r = str_bytes a ++ colon :: str_bytes b ++ r).
  { intros a b r. rewrite !str_bytes_app, <- !(assoc_L (++)). done. }
  rewrite <- (app_nil_r (str_bytes (sk_namespace k +:+ _))), Heq, app_nil_r. setoid_rewrite Heq. split.
  - intros [r Hr]. apply app_sep_inj in Hr as [Hns Hr]; [|by apply HK|done].
    split; [by apply str_bytes_inj|by exists r].
  - intros [<- [r ->]]. by exists r.
Qed.

(** The index from the scan prefix on: first the keys that have it. *)
Lemma index_split s m sp :
  represents K s m ->
  exists l1 l2, tree_range sp None (ls_index s) = l1 ++ l2 /\
    Forall (fun x => bytes_starts_with sp x.1 = true /\ readable (ls_data s) x) l1 /\
    match l2 with [] => True | x :: _ => bytes_starts_with sp x.1 = false end /\
    StronglySorted key_lt l1 /\
    forall ik dk, (ik, dk) ∈ l1 <-> ls_index s !! ik = Some dk /\ exists r, ik = sp ++ r.
Proof.
  intros Hr. set (l := tree_range sp None (ls_index s)).
  assert (Hs : StronglySorted key_lt l) by apply tree_range_sorted.
  assert (Hl : forall ik dk, (ik, dk) ∈ l <-> ls_index s !! ik = Some dk /\ bytes_le sp ik).
  { intros ik dk. unfold l. rewrite elem_of_tree_range. tauto. }
  set (P := fun x : bytes * bytes => bytes_starts_with sp x.1 = true).
  exists (filter P l), (filter (fun x => ~ P x) l). split; [|split; [|split; [|split]]].
  - apply (sorted_prefix key_lt); [|done]. intros [ik dk] [ik' dk'] Hx _ Hlt HP.
    apply Hl in Hx as [_ Hle]. unfold P in *. cbn [fst] in *.
    apply bytes_starts_with_spec in HP as [r ->]. apply bytes_starts_with_spec.
    eapply prefix_contiguous; [done|]. by apply bytes_lt_le.
  - apply list.Forall_forall. intros [ik dk] [HP Hin]%list_elem_of_filter. split; [done|].
    apply Hl in Hin as [Hi _].
    by destruct (index_readable s m _ _ Hr Hi) as (? & ? & _ & _ & _ & _ & ?).
  - destruct (filter (fun x => ~ P x) l) as [|x l2] eqn:Hf; [done|].
    assert (Hx : x ∈ filter (fun x => ~ P x) l) by (rewrite Hf; by left).
    apply list_elem_of_filter in Hx as [Hx _]. by apply not_true_iff_false.
  - by apply filter_sorted.
  - intros ik dk. rewrite list_elem_of_filter, Hl. unfold P. cbn [fst]. rewrite bytes_starts_with_spec.
    split; [tauto|]. intros [Hi [r ->]]. split; [by exists r|]. split; [done|].
    unfold bytes_le. rewrite <- (app_nil_r sp) at 1. rewrite bytes_compare_app. by destruct r.
Qed.

(** [list_prefix] is exact on a first page: it returns the live entries of the
    namespace whose key has the prefix, every one once and cut at the limit, and
    says that there may be more exactly when the limit is reached. *)
Theorem list_prefix_exact s m now ns p limit :
  represents K s m -> plain_namespace ns -> Forall is_u8 p -> (0 < limit)%nat ->
  exists L token, NoDup L.*1 /\
    (forall k v, (k, v) ∈ L <-> exists e, m !! k = Some e /\ sk_namespace k = ns /\
       bytes_starts_with p (sk_key k) = true /\ v = le_value e /\ is_expired now (sv_metadata v) = false) /\
    local_list_prefix now ns (Some p) limit None s =
      (Ok (mk_ListResult (take limit L) (limit <=? length L)%nat token), s).
Proof.
  intros Hr Hn Hp Hlim. set (sp := str_bytes (ns +:+ ":" +:+ hex_encode p)).
  destruct (index_split s m sp Hr) as (l1 & l2 & Hrange & Hg & Hstop & Hs & Hmem).
  destruct (scan_prefix_items now sp limit (ls_data s) l1 l2 [] None Hg Hstop Hlim) as [lk Hscan].
  assert (Hl1 : forall ik dk, (ik, dk) ∈ l1 -> exists k e, m !! k = Some e /\ ik = index_key k /\
    dk = db_key k /\ sk_namespace k = ns /\ bytes_starts_with p (sk_key k) = true).
  { intros ik dk [Hi Hpre]%Hmem. destruct (index_readable _ _ _ _ Hr Hi) as (k & e & Hk & -> & -> & HKk & _).
    exists k, e. apply (index_key_prefix k ns p HKk Hn Hp) in Hpre. tauto. }
  set (L := omap (list_item now (ls_data s)) l1) in *.
  exists L, (if (limit <=? length L)%nat then bump_last <$> lk else None). split; [|split].
  - apply (sorted_NoDup_fst (fun x y => x.1 <> y.1)); [by intros ? ?|].
    eapply (omap_sorted key_lt); [|exact Hs]. intros [ik dk] [ik' dk'] x y Hx Hy Hlt Hfx Hfy.
    apply Hl1 in Hx as (k & e & Hk & -> & -> & _). apply Hl1 in Hy as (k' & e' & Hk' & -> & -> & _).
    rewrite (list_item_represents s m now k e) in Hfx by done.
    rewrite (list_item_represents s m now k' e') in Hfy by done.
    destruct (is_expired now (sv_metadata (le_value e))); [done|]. injection Hfx as <-.
    destruct (is_expired now (sv_metadata (le_value e'))); [done|]. injection Hfy as <-.
    cbn [fst]. intros ->. by apply bytes_lt_irrefl in Hlt.
  - intros k v. unfold L. rewrite list_elem_of_omap. split.
    + intros ([ik dk] & (k' & e & Hk & -> & -> & Hns & Hpre)%Hl1 & Hitem).
      rewrite (list_item_represents s m now k' e) in Hitem by done.
      destruct (is_expired now (sv_metadata (le_value e))) eqn:Hexp; [done|].
      injection Hitem as <- <-. by exists e.
    + intros (e & Hk & Hns & Hpre & -> & Hexp). exists (index_key k, db_key k). split.
      * apply Hmem. split; [apply (rp_index _ _ _ Hr); eauto|].
        apply (index_key_prefix k ns p); [by eapply (rp_keys _ _ _ Hr)|done..].
      * rewrite (list_item_represents s m now k e) by done. by rewrite Hexp.
  - unfold local_list_prefix, mbind, SE_bind, get_state, lift. fold sp. cbn [default from_option].
    change (from_option id sp None) with sp. rewrite Hrange, Hscan. simpl. rewrite Nat.sub_0_r, length_take.
    destruct (Nat.leb_spec limit (length L)).
    + rewrite Nat.min_l by lia. rewrite Nat.leb_refl. reflexivity.
    + rewrite Nat.min_r by lia. rewrite (proj2 (Nat.leb_gt _ _)) by lia. reflexivity.
Qed.
End listing.

Section limits.
Context `{External} `{!ExternalLaws} `{EntryCodec} `{!EntryCodecLaws}.
Implicit Types (s : LocalStorage) (m : gmap StorageKey LocalEntry).

(** ** Cursors *)

Lemma bump_last_app l x : bump_last (l ++ [x]) = l ++ [Z.min 255 (x + 1)].
Proof. unfold bump_last. rewrite rev_app_distr. cbn [rev app]. by rewrite rev_involutive. Qed.

Lemma bytes_lt_last (p q : bytes) x y :
  length p = length q -> bytes_lt (p ++ [x]) (q ++ [y]) -> bytes_le (p ++ [x + 1]) (q ++ [y]).
Proof.
  intros Hlen. destruct (decide (p = q)) as [->|Hne].
  - unfold bytes_lt, bytes_le. rewrite !bytes_compare_app. cbn [bytes_compare].
    destruct (Z.compare_spec x y), (Z.compare_spec (x + 1) y); try done; lia.
  - unfold bytes_lt, bytes_le. rewrite !bytes_compare_prefix by done. by intros ->.
Qed.

Lemma block_index_key_last ns b k x h :
  key_hash k = h ++ [x] ->
  block_index_key ns b k = (str_bytes ns ++ colon :: to_be_bytes 8 b ++ colon :: h) ++ [x].
Proof. intros Hh. unfold block_index_key. rewrite Hh, <- !(assoc_L (++)). cbn [app]. by rewrite <- !(assoc_L (++)). Qed.

(** A cursor skips nothing, but it may not advance: the next page starts right
    after the last item of the page before - no entry of the namespace lies
    between - unless the digest of that item's key ends in the byte 255, which
    the saturating increment leaves as it is; then the next page starts with the
    same item again. *)
Theorem cursor_position ns b k x start :
  last (key_hash k) = Some x ->
  let c := cursor_start ns (Some (from_last_item ns b k)) start in
  (x < 255 -> bytes_lt (block_index_key ns b k) c /\
     forall b' k', bytes_lt (block_index_key ns b k) (block_index_key ns b' k') ->
       bytes_le c (block_index_key ns b' k')) /\
  (x = 255 -> c = block_index_key ns b k).
Proof.
  intros Hx. apply last_Some in Hx as [h Hh]. cbn [cursor_start from_last_item qc_last_block_id qc_last_key_hash].
  change (str_bytes ns ++ colon :: to_be_bytes 8 b ++ colon :: key_hash k) with (block_index_key ns b k).
  rewrite (block_index_key_last ns b k x h Hh), bump_last_app. split.
  - intros Hlt. rewrite Z.min_r by lia. split.
    + unfold bytes_lt. rewrite bytes_compare_app. cbn [bytes_compare].
      destruct (Z.compare_spec x (x + 1)); done || lia.
    + intros b' k' Hless. destruct (last (key_hash k')) as [x'|] eqn:Hx'.
      2: { apply last_None in Hx'. pose proof (length_key_hash k') as Hl. by rewrite Hx' in Hl. }
      apply last_Some in Hx' as [h' Hh']. rewrite (block_index_key_last ns b' k' x' h' Hh') in Hless |- *.
      apply bytes_lt_last; [|done]. rewrite !length_app, !length_cons, !length_app, !length_cons, !length_to_be_bytes.
      pose proof (length_key_hash k) as Hl. pose proof (length_key_hash k') as Hl'.
      rewrite Hh, length_app in Hl. rewrite Hh', length_app in Hl'. simpl in *. lia.
  - intros ->. done.
Qed.

(** ** Time to live *)

(** A value written over an expired one is lost: a write keeps the creation
    time and the time to live of the entry it replaces, expired or not, so that
    after a successful [put] (which sets no time to live of its own) every later
    [get] finds the value expired and deletes it. *)
Theorem rewrite_after_expiry_lost K s m k e now now' value options g :
  sound_keys K -> represents K s m -> m !! k = Some e ->
  is_expired now (sv_metadata (le_value e)) = true -> now <= now' ->
  po_ttl_seconds options = 0 -> po_expected_version options = None ->
  admissible K (ls_node_id s) (OpPut now k value options) m ->
  exists meta s1 s2, local_put now k value options s = (Ok meta, s1) /\
    local_get now' k g s1 = (Ok None, s2).
Proof.
  intros HK Hr Hk Hexp Hle Httl Hver Hadm. pose proof (run_op_refines K HK _ _ _ Hr Hadm) as Hput.
  cbn [map_op] in Hput. unfold map_put in Hput. rewrite Hver, Hk in Hput. cbn [check_version] in Hput.
  destruct Hput as (s1 & Hrun & Hr1 & _). cbn [run_op] in Hrun. unfold mbind, SE_bind in Hrun.
  destruct (local_put now k value options s) as [[meta|err] s1'] eqn:Hp; [|done].
  injection Hrun as Hmeta ->. exists meta, s1.
  pose proof (get_entry_represents K HK _ _ k Hr1 (proj1 Hadm)) as Hg. rewrite lookup_insert_eq in Hg.
  unfold local_get, mbind, SE_bind, get_state, lift. rewrite Hg. cbn [le_value].
  assert (Hexp' : is_expired now' (sv_metadata (next_value now (ls_node_id s) (Some e) value
    (po_ttl_seconds options))) = true).
  { unfold next_value. rewrite Httl. simpl. unfold is_expired in *. simpl.
    destruct (vm_ttl_seconds (sv_metadata (le_value e)) =? 0); [done|]. lia. }
  rewrite Hexp'. destruct (delete_entry_represents K HK _ _ k Hr1 (proj1 Hadm)) as (s2 & Hd & _).
  exists s2. by rewrite Hd.
Qed.

(** ** Oversized entries *)

Lemma unreadable_entry k s x :
  get_entry k s = Err x ->
  forall now g v o b node,
    local_get now k g s = (Err x, s) /\ local_put now k v o s = (Err x, s) /\
    local_put_with_block now k v b o s = (Err x, s) /\ local_delete now k s = (Err x, s) /\
    mark_replicated now k node s = (Err x, s).
Proof.
  intros Hx now g v o b node. unfold local_get, local_put, local_put_with_block,
    put_entry_with_block_internal, local_delete, delete_entry, mark_replicated, mbind, SE_bind, get_state, lift.
  by rewrite Hx.
Qed.

(** An oversized value is accepted and then stuck: writing has no size limit
    but reading has, so after an entry of more than 100 MiB has been stored under
    a new key, reading, overwriting, deleting and marking it all fail, and leave
    the storage as it is. *)
Theorem oversized_entry_stuck k e b s :
  get_entry k s = Ok None -> encode_entry e = Ok b -> MAX_ENTRY_SIZE < Z.of_nat (length b) ->
  exists s1 x, put_entry k e s = (Ok tt, s1) /\
  forall now g v o bl node,
    local_get now k g s1 = (Err x, s1) /\ local_put now k v o s1 = (Err x, s1) /\
    local_put_with_block now k v bl o s1 = (Err x, s1) /\ local_delete now k s1 = (Err x, s1) /\
    mark_replicated now k node s1 = (Err x, s1).
Proof.
  intros Hnone He Hbig.
  destruct (put_entry k e s) as [r s1] eqn:Hp.
  assert (r = Ok tt /\ ls_data s1 !! db_key k = Some b) as [-> Hd].
  { revert Hp. unfold put_entry, mbind, SE_bind, lift, get_state. rewrite He. cbn [result_map_err].
    rewrite Hnone. destruct (le_block_id e); intros [= <- <-]; (split; [done|]); simpl; apply lookup_insert_eq. }
  pose proof (decode_entry_limit _ _ He Hbig) as Hlim.
  destruct (decode_entry b) as [e'|x] eqn:Hdec; [done|].
  exists s1, (SerializationError x). split; [done|]. apply unreadable_entry.
  unfold get_entry, decode. rewrite Hd. by rewrite Hdec.
Qed.
End limits.
