(* ===== verification/StorageExamples.v ===== *)
(** * A concrete local storage

    Instances of the parameters of the storage - hexadecimal text, and a codec
    that numbers the entries - and a small storage on which its theorems are
    evaluated. *)

From Stdlib Require Import Ascii.
From S2P Require Import Prelude Float64 Crypto RustStrings RustBytes DStore LocalStore LocalStoreProps LocalQueryProps LocalListProps.

Module StorageToy.
Import Toy.

(** ** Hexadecimal *)

Definition hex_digit (i : Z) : ascii := ascii_of_nat (Z.to_nat (if i <? 10 then 48 + i else 87 + i)).

Definition hex_byte (x : Z) : list ascii := [hex_digit (x / 16 mod 16); hex_digit (x mod 16)].

Definition hex (b : bytes) : string := of_chars (b ≫= hex_byte).

#[export] Instance hex_external : External := {|
  Pair := Z;
  sr25519_public := toy_key;
  sr25519_sign := toy_sign;
  sr25519_verify := fun sig m pub => bool_decide (sig = toy_sign (hd 0 pub) m);
  sha256 := toy_hash;
  bincode_serialize := fun v => Ok (toy_serialize v);
  hex_encode := hex
|}.

#[export] Instance hex_external_laws : ExternalLaws.
Proof.
  split; intros.
  - apply (length_replicate 32).
  - apply length_resize.
  - by apply bool_decide_eq_true_2.
  - apply length_resize.
Qed.

Lemma hex_digit_inj i j : 0 <= i < 16 -> 0 <= j < 16 -> hex_digit i = hex_digit j -> i = j.
Proof.
  intros Hi Hj Heq. apply (f_equal nat_of_ascii) in Heq. unfold hex_digit in Heq.
  destruct (Z.ltb_spec i 10), (Z.ltb_spec j 10); rewrite !nat_ascii_embedding in Heq by lia; lia.
Qed.

#[export] Instance hex_laws : HexLaws.
Proof.
  split; simpl; unfold hex.
  - intros a b. apply chars_inj. by rewrite chars_app, !chars_of_chars, bind_app.
  - intros a. unfold str_bytes. rewrite length_fmap, chars_of_chars.
    induction a as [|x a IH]; [done|]. rewrite bind_cons, length_app, IH. simpl. lia.
  - intros a b Ha Hb Heq. apply (f_equal String.list_ascii_of_string) in Heq.
    rewrite !chars_of_chars in Heq. revert b Hb Heq.
    induction Ha as [|x a Hx _ IH]; intros [|y b] Hb Heq; try done.
    apply list.Forall_cons in Hb as [Hy Hb]. cbn [mbind list_bind hex_byte app] in Heq.
    injection Heq as H1 H2 Heq. apply hex_digit_inj in H1; [|apply Z.mod_pos_bound; lia..].
    apply hex_digit_inj in H2; [|apply Z.mod_pos_bound; lia..].
    unfold is_u8 in *. rewrite !Z.mod_small in H1 by (split; [apply Z.div_pos|apply Z.div_lt_upper_bound]; lia).
    f_equal; [|by apply IH].
    rewrite (Z.div_mod x 16), (Z.div_mod y 16) by lia. congruence.
Qed.

(** ** Entries as numbers *)

#[local] Instance ValueMetadata_countable : Countable ValueMetadata.
Proof.
  refine (inj_countable' (fun m => (vm_created_at m, vm_updated_at m, vm_version m, vm_origin_node m,
      vm_value_hash m, vm_size m, vm_ttl_seconds m))
    (fun '(a, b, c, d, e, f, g) => mk_ValueMetadata a b c d e f g) _). by intros [].
Defined.

#[local] Instance ReplicationInfo_eq_dec : EqDecision ReplicationInfo.
Proof. solve_decision. Defined.
#[local] Instance ReplicationInfo_countable : Countable ReplicationInfo.
Proof.
  refine (inj_countable' (fun r => (ri_replicated_to r, ri_last_replication_at r,
      ri_replication_attempts r, ri_needs_replication r))
    (fun '(a, b, c, d) => mk_ReplicationInfo a b c d) _). by intros [].
Defined.

#[local] Instance LocalEntry_eq_dec : EqDecision LocalEntry.
Proof. solve_decision. Defined.
#[local] Instance LocalEntry_countable : Countable LocalEntry.
Proof.
  refine (inj_countable' (fun e => (sv_data (le_value e), sv_metadata (le_value e), le_replication e,
      le_block_id e))
    (fun '(a, b, c, d) => mk_LocalEntry (mk_StoredValue a b) c d) _). by intros [[] ? ?].
Defined.

#[export] Instance number_codec : EntryCodec := {|
  encode_entry := fun e => Ok [Zpos (countable.encode e)];
  decode_entry := fun b => match b with
    | [Zpos n] => ok_or (countable.decode n) "bad entry"%string | _ => Err "bad entry"%string end
|}.

#[export] Instance number_codec_laws : EntryCodecLaws.
Proof.
  split; simpl; intros e b [= <-]; [|simpl; unfold MAX_ENTRY_SIZE; lia].
  intros _. by rewrite countable.decode_encode.
Qed.

Lemma all_stored e : exists b, stored_as e b.
Proof. exists [Zpos (countable.encode e)]. split; [done|]. simpl. unfold MAX_ENTRY_SIZE. lia. Qed.

(** ** Admissible runs *)

Section runs.
Context (K : StorageKey -> Prop).

Definition blocks_ok (m : gmap StorageKey LocalEntry) : Prop :=
  forall k e b, m !! k = Some e -> le_block_id e = Some b -> is_u64 b.

Definition op_ok (o : store_op) : Prop :=
  K (op_key o) /\ match o with OpPutWithBlock _ _ _ b _ => is_u64 b | _ => True end.

Lemma map_put_ok node now k v block options m :
  blocks_ok m -> (forall b, block = Some b -> is_u64 b) ->
  blocks_ok (map_put node now k v block options m).2 /\
  (size (map_put node now k v block options m).2 <= S (size m))%nat.
Proof.
  intros Hm Hb. unfold map_put. case_match; simpl; [|split; [done|lia]].
  split; [|apply map_size_insert_le].
  intros k' e b [[<- <-]|[_ Hl]]%lookup_insert_Some Hbe; [by apply Hb|by eapply Hm].
Qed.

Lemma map_op_ok node o m :
  blocks_ok m -> op_ok o ->
  blocks_ok (map_op node o m).2 /\ (size (map_op node o m).2 <= S (size m))%nat.
Proof.
  intros Hm [_ Hb]. destruct o as [now k g|now k v p|now k v b p|now k|now k id|ns k]; cbn [map_op].
  - destruct (m !! k) as [e|]; [|split; [done|simpl; lia]]. case_match; simpl; [|split; [done|lia]].
    pose proof (map_size_delete_le m k).
    split; [|lia]. intros k' e' b [_ Hl]%lookup_delete_Some. by eapply Hm.
  - by apply map_put_ok.
  - apply map_put_ok; [done|]. by intros ? [= <-].
  - simpl. pose proof (map_size_delete_le m k).
    split; [|lia]. intros k' e' b' [_ Hl]%lookup_delete_Some. by eapply Hm.
  - destruct (m !! k) as [e|] eqn:Hk; simpl; [|split; [done|lia]]. split; [|apply map_size_insert_le].
    intros k' e' b [[<- <-]|[_ Hl]]%lookup_insert_Some; [|by eapply Hm].
    simpl. by apply (Hm k).
  - simpl. split; [done|lia].
Qed.

Lemma admissible_ok node os m :
  blocks_ok m -> Forall op_ok os -> Z.of_nat (size m + length os) < u64_max ->
  admissible_run K node os m.
Proof.
  intros Hm Hos. revert m Hm. induction Hos as [|o os Ho _ IH]; intros m Hm Hsize; [done|].
  destruct (map_op_ok node o m Hm Ho) as [Hm' Hsize']. cbn [length] in Hsize. split.
  - split; [apply Ho|]. split; [lia|]. intros e He. split; [apply all_stored|]. intros b. by eapply Hm'.
  - apply IH; [done|]. lia.
Qed.
End runs.

(** ** A storage with two entries *)

Definition keyA : StorageKey := mk_StorageKey "sub" [97].
Definition keyB : StorageKey := mk_StorageKey "sub" [97; 98].
Definition in_use (k : StorageKey) : Prop := k ∈ [keyA; keyB].

Lemma in_use_plain : plain_keys in_use.
Proof.
  assert (Hcases : forall k, in_use k -> k = keyA \/ k = keyB) by (unfold in_use; set_solver).
  split.
  - intros k [-> | ->]%Hcases; by_compute.
  - intros k [-> | ->]%Hcases; reflexivity.
  - intros k [-> | ->]%Hcases; reflexivity.
  - intros k k' [-> | ->]%Hcases [-> | ->]%Hcases; try done; intros Heq; by vm_compute in Heq.
  - intros k k' [-> | ->]%Hcases [-> | ->]%Hcases; try done; intros Heq; by vm_compute in Heq.
Qed.

Lemma in_use_sound : sound_keys in_use.
Proof. apply plain_keys_sound, in_use_plain. Qed.

Lemma in_use_bytes k : in_use k -> Forall is_u8 (sk_key k).
Proof.
  intros Hk. assert (k = keyA \/ k = keyB) as [-> | ->] by (unfold in_use in Hk; set_solver);
    repeat constructor; lia.
Qed.

(** Writes at blocks 7 and 5, a read, a count and a deletion. *)
Definition writes : list store_op :=
  [OpPutWithBlock 10 keyA [1; 2] 7 PutOptions_default;
   OpPutWithBlock 11 keyB [3] 5 PutOptions_default].
Definition ops : list store_op :=
  writes ++ [OpGet 12 keyA GetOptions_default; OpCount "sub" keyA; OpDelete 13 keyA;
             OpGet 14 keyA GetOptions_default].

Definition stored : LocalStorage := (run_ops writes (LocalStorage_in_memory "n1")).2.
Definition contents : gmap StorageKey LocalEntry := (map_ops "n1" writes ∅).2.

Lemma ops_ok : Forall (op_ok in_use) ops.
Proof. repeat constructor; unfold in_use; simpl; set_solver || (unfold is_u64; lia). Qed.

Lemma stored_represents : represents in_use stored contents.
Proof.
  apply (run_ops_refine in_use in_use_sound writes (LocalStorage_in_memory "n1") ∅);
    [apply in_memory_represents|].
  apply (admissible_ok in_use); [done| |vm_compute; reflexivity].
  repeat constructor; unfold in_use; simpl; set_solver || (unfold is_u64; lia).
Qed.

Lemma local_store_refines_map_witness :
  (run_ops ops (LocalStorage_in_memory "n1")).1 = (map_ops "n1" ops ∅).1 /\
  last (map_ops "n1" ops ∅).1 = Some (Ok (AnsValue None)).
Proof.
  assert (Ha : admissible_run in_use "n1" ops ∅).
  { apply (admissible_ok in_use); [done|exact ops_ok|vm_compute; reflexivity]. }
  split; [exact (proj1 (local_store_refines_map in_use "n1" ops in_use_sound Ha))|].
  vm_compute. reflexivity.
Defined.

(** Block 5 comes before block 7, though it was written later. *)
Definition range_keys : list StorageKey :=
  match (local_list_range 20 "sub" 0 10 5 stored).1 with
  | Ok r => (qr_items r).*1
  | Err _ => []
  end.

Lemma block_queries_exact_witness :
  range_keys = [keyB; keyA] /\
  exists L, block_listing 20 contents "sub" None (fun b => 0 <= b <= 10) L /\
    local_list_range 20 "sub" 0 10 5 stored = (Ok (block_page 5 (take 5 L)), stored).
Proof.
  assert (Hn : plain_namespace "sub") by by_compute. assert (Hl : (0 < 5)%nat) by lia.
  assert (Hlo : is_u64 0) by (unfold is_u64; lia). assert (Hhi : 0 <= 10 < u64_max) by (vm_compute; split; congruence).
  split; [vm_compute; reflexivity|].
  exact (proj2 (proj2 (block_queries_exact in_use in_use_plain stored contents 20 "sub" 5 stored_represents
    Hn Hl)) 0 10 Hlo Hhi).
Defined.

Definition recent : QueryBuilder :=
  qb_with_limit 1 (after_block 6 (key_prefix [97] (QueryBuilder_new "sub"))).

Lemma query_exact_witness :
  exists L r, block_listing 20 contents "sub" (build_filter recent) (fun _ => True) L /\
    local_query 20 recent stored = (Ok r, stored) /\ qr_items r = drop_block <$> take 1 L /\
    qr_has_more r = (1 <? length L)%nat /\
    (qb_include_count recent = true -> qr_total_count r = Some (Z.of_nat (size (of_namespace "sub" contents)))).
Proof.
  assert (Hn : plain_namespace (qb_namespace recent)) by by_compute.
  exact (query_exact in_use in_use_plain stored contents 20 recent stored_represents Hn eq_refl eq_refl eq_refl
    eq_refl).
Defined.

Lemma list_prefix_exact_witness :
  exists L token, NoDup L.*1 /\
    (forall k v, (k, v) ∈ L <-> exists e, contents !! k = Some e /\ sk_namespace k = "sub"%string /\
       bytes_starts_with [97] (sk_key k) = true /\ v = le_value e /\ is_expired 20 (sv_metadata v) = false) /\
    local_list_prefix 20 "sub" (Some [97]) 10 None stored =
      (Ok (mk_ListResult (take 10 L) (10 <=? length L)%nat token), stored).
Proof.
  assert (Hn : plain_namespace "sub") by by_compute. assert (Hl : (0 < 10)%nat) by lia.
  assert (Hp : Forall is_u8 [97]) by (repeat constructor; lia).
  exact (list_prefix_exact in_use in_use_plain in_use_bytes stored contents 20 "sub" [97] 10
    stored_represents Hn Hp Hl).
Defined.

(** Pagination loses keys: after the page that ends with key "a" the next one
    starts behind every key that extends it, so "ab" is on neither page. *)
Lemma continuation_skips_extensions :
  match (local_list_prefix 20 "sub" None 1 None stored).1 with
  | Ok page1 =>
      (lr_items page1).*1 = [keyA] /\ lr_has_more page1 = true /\
      match (local_list_prefix 20 "sub" None 1 (lr_continuation_token page1) stored).1 with
      | Ok page2 => lr_items page2 = []
      | Err _ => False
      end
  | Err _ => False
  end.
Proof. vm_compute. done. Qed.

(** The last block is not reachable through a range: the exclusive end
    saturates at it. *)
Lemma last_block_excluded :
  match run_ops [OpPutWithBlock 10 keyA [1] u64_max PutOptions_default] (LocalStorage_in_memory "n1") with
  | (_, s) => match (local_list_range 20 "sub" 0 u64_max 5 s).1 with
              | Ok r => qr_items r = []
              | Err _ => False
              end
  end.
Proof. vm_compute. reflexivity. Qed.

Lemma cursor_position_witness :
  bytes_lt (block_index_key "sub" 7 keyA) (cursor_start "sub" (Some (from_last_item "sub" 7 keyA)) []).
Proof.
  assert (Hx : last (key_hash keyA) = Some 0) by by_compute.
  assert (Hlt : 0 < 255) by lia.
  exact (proj1 (proj1 (cursor_position "sub" 7 keyA 0 [] Hx) Hlt)).
Defined.

Definition with_ttl (ttl : Z) : PutOptions := mk_PutOptions false false None ttl None.

(** Ten seconds to live, rewritten after twenty. *)
Definition expiring : LocalStorage :=
  (run_ops [OpPut 0 keyA [1] (with_ttl 10)] (LocalStorage_in_memory "n1")).2.
Definition expiring_contents : gmap StorageKey LocalEntry :=
  (map_ops "n1" [OpPut 0 keyA [1] (with_ttl 10)] ∅).2.
Definition expired_entry : LocalEntry :=
  default (mk_LocalEntry (StoredValue_new 0 [] None) ReplicationInfo_default None)
    (expiring_contents !! keyA).

Lemma rewrite_after_expiry_lost_witness :
  exists meta s1 s2, local_put 20000 keyA [2] PutOptions_default expiring = (Ok meta, s1) /\
    local_get 20001 keyA GetOptions_default s1 = (Ok None, s2).
Proof.
  assert (Hops : Forall (op_ok in_use) [OpPut 0 keyA [1] (with_ttl 10); OpPut 20000 keyA [2] PutOptions_default]).
  { repeat constructor; unfold in_use; simpl; set_solver. }
  assert (Hadm := admissible_ok in_use "n1" _ ∅ ltac:(done) Hops ltac:(vm_compute; reflexivity)).
  assert (Hr : represents in_use expiring expiring_contents).
  { exact (proj2 (run_ops_refine in_use in_use_sound [OpPut 0 keyA [1] (with_ttl 10)]
      (LocalStorage_in_memory "n1") ∅ (in_memory_represents in_use "n1") (conj (proj1 Hadm) I))). }
  assert (Hk : expiring_contents !! keyA = Some expired_entry) by by_compute.
  assert (Hexp : is_expired 20000 (sv_metadata (le_value expired_entry)) = true) by by_compute.
  assert (Hle : 20000 <= 20001) by lia.
  exact (rewrite_after_expiry_lost in_use expiring expiring_contents keyA expired_entry 20000 20001 [2]
    PutOptions_default GetOptions_default in_use_sound Hr Hk Hexp Hle eq_refl eq_refl
    (proj1 (proj2 Hadm))).
Defined.
End StorageToy.

(** ** Large entries *)

Module LargeEntry.
Import Toy.

(** A codec whose entries are all larger than the limit. *)
#[local] Instance large_codec : EntryCodec := {|
  encode_entry := fun _ => Ok (replicate (S (Z.to_nat MAX_ENTRY_SIZE)) 0);
  decode_entry := fun _ => Err "size limit"%string
|}.

Lemma large_length : MAX_ENTRY_SIZE < Z.of_nat (length (replicate (S (Z.to_nat MAX_ENTRY_SIZE)) 0)).
Proof. rewrite length_replicate. unfold MAX_ENTRY_SIZE. lia. Qed.

#[local] Instance large_codec_laws : EntryCodecLaws.
Proof.
  split; [|done]. intros e b He Hlen. exfalso. pose proof large_length as Hl.
  change (Ok (E := string) (replicate (S (Z.to_nat MAX_ENTRY_SIZE)) 0) = Ok b) in He.
  assert (b = replicate (S (Z.to_nat MAX_ENTRY_SIZE)) 0) as -> by congruence. lia.
Qed.

Definition big_key : StorageKey := mk_StorageKey "sub" [97].
Definition big_entry : LocalEntry :=
  mk_LocalEntry (StoredValue_new 0 [1] None) ReplicationInfo_default None.

Lemma oversized_entry_stuck_witness :
  exists s1 x, put_entry big_key big_entry (LocalStorage_in_memory "n1") = (Ok tt, s1) /\
    local_get 0 big_key GetOptions_default s1 = (Err x, s1).
Proof.
  assert (Hnone : get_entry big_key (LocalStorage_in_memory "n1") = Ok None) by reflexivity.
  destruct (oversized_entry_stuck big_key big_entry _ (LocalStorage_in_memory "n1") Hnone eq_refl
    large_length) as (s1 & x & Hp & Hall).
  exists s1, x. split; [exact Hp|]. exact (proj1 (Hall 0 GetOptions_default [] PutOptions_default 0 ""%string)).
Defined.
End LargeEntry.
