(* ===== verification/Replication.v ===== *)
(** * Replication policies and their bookkeeping

    Models [crates/distributed-storage/src/replication.rs]: configurations,
    conflict resolution, the acknowledgements of a key, the manager of all
    tracked keys and the quorum calculator.  The clock is an argument, in
    seconds. *)

From S2P Require Import Prelude Float64 Crypto RustStrings RustBytes DStore.

(** ** Configuration *)

Record ReplicationConfig : Type := mk_ReplicationConfig {
  rc_replication_factor : nat;
  rc_write_quorum : nat;
  rc_read_quorum : nat;
  rc_retry_interval_secs : Z;
  rc_max_retries : Z;
  rc_node_timeout_secs : Z
}.

Definition ReplicationConfig_default : ReplicationConfig := mk_ReplicationConfig 3 2 2 30 3 10.
Definition strong_consistency : ReplicationConfig := mk_ReplicationConfig 3 3 2 10 5 5.
Definition high_availability : ReplicationConfig := mk_ReplicationConfig 3 1 1 5 10 30.
Definition single_node : ReplicationConfig := mk_ReplicationConfig 1 1 1 0 0 0.

Definition ReplicationConfig_validate (c : ReplicationConfig) : result string unit :=
  let show (n : nat) := Z_to_string (Z.of_nat n) in
  if (rc_replication_factor c <? rc_write_quorum c)%nat then
    Err ("Write quorum (" +:+ show (rc_write_quorum c) +:+ ") cannot exceed replication factor (" +:+
         show (rc_replication_factor c) +:+ ")")
  else if (rc_replication_factor c <? rc_read_quorum c)%nat then
    Err ("Read quorum (" +:+ show (rc_read_quorum c) +:+ ") cannot exceed replication factor (" +:+
         show (rc_replication_factor c) +:+ ")")
  else if (rc_write_quorum c =? 0)%nat then Err "Write quorum must be at least 1"
  else if (rc_read_quorum c =? 0)%nat then Err "Read quorum must be at least 1"
  else Ok tt.

Inductive ConflictResolution : Type := LastWriteWins | HighestVersion | Custom.

Record ReplicationPolicy : Type := mk_ReplicationPolicy {
  rpo_config : ReplicationConfig;
  rpo_conflict_resolution : ConflictResolution;
  rpo_enable_anti_entropy : bool;
  rpo_anti_entropy_interval_secs : Z
}.

Definition ReplicationPolicy_default : ReplicationPolicy :=
  mk_ReplicationPolicy ReplicationConfig_default LastWriteWins true 300.
Definition with_config (c : ReplicationConfig) (p : ReplicationPolicy) : ReplicationPolicy :=
  mk_ReplicationPolicy c (rpo_conflict_resolution p) (rpo_enable_anti_entropy p)
    (rpo_anti_entropy_interval_secs p).
Definition with_conflict_resolution (r : ConflictResolution) (p : ReplicationPolicy) :
    ReplicationPolicy :=
  mk_ReplicationPolicy (rpo_config p) r (rpo_enable_anti_entropy p) (rpo_anti_entropy_interval_secs p).
Definition with_anti_entropy (b : bool) (p : ReplicationPolicy) : ReplicationPolicy :=
  mk_ReplicationPolicy (rpo_config p) (rpo_conflict_resolution p) b (rpo_anti_entropy_interval_secs p).

(** ** Conflicts *)

(** [max_by_key]: the last of the largest. *)
Definition max_by_key (key : StoredValue -> Z) (values : list StoredValue) : option StoredValue :=
  fold_left (fun best v =>
    match best with
    | None => Some v
    | Some b => if key b <=? key v then Some v else best
    end) values None.

Definition resolve_lww : list StoredValue -> option StoredValue :=
  max_by_key (fun v => vm_updated_at (sv_metadata v)).
Definition resolve_version : list StoredValue -> option StoredValue :=
  max_by_key (fun v => vm_version (sv_metadata v)).

Definition resolve (strategy : ConflictResolution) (values : list StoredValue) : option StoredValue :=
  match values with
  | [] => None
  | [v] => Some v
  | _ =>
      match strategy with
      | LastWriteWins => resolve_lww values
      | HighestVersion => resolve_version values
      | Custom => resolve_lww values
      end
  end.

(** ** Acknowledgements *)

Record ReplicationState : Type := mk_ReplicationState {
  rs_key : string;
  rs_acknowledged_by : list string;
  rs_pending : list string;
  rs_last_attempt : option Z;
  rs_attempt_count : Z;
  rs_is_complete : bool
}.

Definition ReplicationState_new (key : string) (target_nodes : list string) : ReplicationState :=
  mk_ReplicationState key [] target_nodes None 0 false.

(** Removes the first occurrence of the node from the pending list. *)
Fixpoint remove_first (x : string) (l : list string) : option (list string) :=
  match l with
  | [] => None
  | y :: l' => if decide (y = x) then Some l'
               else match remove_first x l' with Some r => Some (y :: r) | None => None end
  end.

Definition state_acknowledge (node_id : string) (s : ReplicationState) : ReplicationState :=
  match remove_first node_id (rs_pending s) with
  | Some pending => mk_ReplicationState (rs_key s) (rs_acknowledged_by s ++ [node_id]) pending
      (rs_last_attempt s) (rs_attempt_count s) (rs_is_complete s)
  | None => s
  end.

Definition mark_attempt (now : Z) (s : ReplicationState) : ReplicationState :=
  mk_ReplicationState (rs_key s) (rs_acknowledged_by s) (rs_pending s) (Some now)
    ((rs_attempt_count s + 1) mod 2 ^ 32) (rs_is_complete s).

Definition state_has_quorum (quorum_size : nat) (s : ReplicationState) : bool :=
  (quorum_size <=? length (rs_acknowledged_by s))%nat.

Definition should_retry (now : Z) (c : ReplicationConfig) (s : ReplicationState) : bool :=
  if rs_is_complete s then false
  else if rc_max_retries c <=? rs_attempt_count s then false
  else match rs_pending s with
  | [] => false
  | _ =>
      match rs_last_attempt s with
      | Some last => rc_retry_interval_secs c <=? now - last
      | None => true
      end
  end.

Definition state_complete (s : ReplicationState) : ReplicationState :=
  mk_ReplicationState (rs_key s) (rs_acknowledged_by s) (rs_pending s) (rs_last_attempt s)
    (rs_attempt_count s) true.

(** ** The manager *)

Record ReplicationManager : Type := mk_ReplicationManager {
  rmg_policy : ReplicationPolicy;
  rmg_states : gmap string ReplicationState;
  rmg_resolver : ConflictResolution
}.

Definition ReplicationManager_new (policy : ReplicationPolicy) : ReplicationManager :=
  mk_ReplicationManager policy ∅ (rpo_conflict_resolution policy).

Definition set_states (m : gmap string ReplicationState) (r : ReplicationManager) :
    ReplicationManager :=
  mk_ReplicationManager (rmg_policy r) m (rmg_resolver r).

Definition rm_track (key : string) (target_nodes : list string) (r : ReplicationManager) :
    ReplicationManager :=
  set_states (<[key := ReplicationState_new key target_nodes]> (rmg_states r)) r.

Definition rm_untrack (key : string) (r : ReplicationManager) : ReplicationManager :=
  set_states (delete key (rmg_states r)) r.

Definition rm_acknowledge (key node_id : string) (r : ReplicationManager) : ReplicationManager :=
  match rmg_states r !! key with
  | Some s =>
      let s := state_acknowledge node_id s in
      let s := if state_has_quorum (rc_write_quorum (rpo_config (rmg_policy r))) s
               then state_complete s else s in
      set_states (<[key := s]> (rmg_states r)) r
  | None => r
  end.

Definition get_pending_retries `{!HashOrder string} (now : Z) (r : ReplicationManager) : list string :=
  (filter (fun '(_, s) => should_retry now (rpo_config (rmg_policy r)) s = true)
     (hm_iter (rmg_states r))).*1.

Definition rm_get_state (key : string) (r : ReplicationManager) : option ReplicationState :=
  rmg_states r !! key.

Definition resolve_conflict (values : list StoredValue) (r : ReplicationManager) :
    option StoredValue := resolve (rmg_resolver r) values.

Definition tracked_count (r : ReplicationManager) : nat := size (rmg_states r).
Definition completed_count (r : ReplicationManager) : nat :=
  size (filter (fun '(_, s) => rs_is_complete s = true) (rmg_states r)).
Definition pending_count (r : ReplicationManager) : nat :=
  size (filter (fun '(_, s) => rs_is_complete s = false) (rmg_states r)).

Definition keep_state (now max_age_secs : Z) (s : ReplicationState) : bool :=
  if negb (rs_is_complete s) then true
  else match rs_last_attempt s with
  | Some last => now - last <? max_age_secs
  | None => true
  end.

Definition cleanup_completed (now max_age_secs : Z) (r : ReplicationManager) : ReplicationManager :=
  set_states (filter (fun '(_, s) => keep_state now max_age_secs s = true) (rmg_states r)) r.

(** ** Quorums *)

Record QuorumCalculator : Type := mk_QuorumCalculator {
  qca_min_quorum : nat;
  qca_target_quorum : nat;
  qca_total_nodes : nat
}.

Definition calculate (q : QuorumCalculator) (available_nodes : nat) : nat :=
  if (available_nodes =? 0)%nat then qca_min_quorum q
  else Nat.max (Nat.min (available_nodes / 2 + 1) (qca_target_quorum q)) (qca_min_quorum q).

Definition can_achieve_quorum (q : QuorumCalculator) (available_nodes : nat) : bool :=
  (qca_min_quorum q <=? available_nodes)%nat.

(** ** Properties *)

Lemma remove_first_perm x l r : remove_first x l = Some r -> l ≡ₚ x :: r.
Proof.
  revert r. induction l as [|y l IH]; intros r; simpl; [done|]. case_decide as Hd.
  - intros [= <-]. by subst.
  - destruct (remove_first x l) as [r'|]; [|done]. intros [= <-]. rewrite (IH r' eq_refl). constructor.
Qed.

Lemma remove_first_None x l : remove_first x l = None -> x ∉ l.
Proof.
  induction l as [|y l IH]; simpl; [set_solver|]. case_decide; [done|].
  destruct (remove_first x l); [done|]. set_solver.
Qed.

Lemma acknowledge_perm node s :
  rs_acknowledged_by (state_acknowledge node s) ++ rs_pending (state_acknowledge node s) ≡ₚ
  rs_acknowledged_by s ++ rs_pending s.
Proof.
  unfold state_acknowledge. destruct (remove_first node (rs_pending s)) as [r|] eqn:Hr; [|done].
  simpl. rewrite (remove_first_perm _ _ _ Hr), <- (assoc_L (++)). done.
Qed.

(** A tracked state: acknowledgements and pending nodes are the targets, it is
    complete exactly when a quorum has acknowledged, and no attempt is
    recorded. *)
Record tracked_ok (quorum : nat) (targets : list string) (s : ReplicationState) : Prop := {
  to_targets : rs_acknowledged_by s ++ rs_pending s ≡ₚ targets;
  to_complete : rs_is_complete s = true -> (quorum <= length (rs_acknowledged_by s))%nat;
  to_incomplete : rs_is_complete s = false -> (length (rs_acknowledged_by s) < quorum)%nat;
  to_attempt : rs_last_attempt s = None /\ rs_attempt_count s = 0
}.

(** The steps of a manager, with the targets each key was last tracked with. *)
Inductive manager_step : ReplicationManager * gmap string (list string) ->
    ReplicationManager * gmap string (list string) -> Prop :=
| StepTrack key targets r g : manager_step (r, g) (rm_track key targets r, <[key := targets]> g)
| StepUntrack key r g : manager_step (r, g) (rm_untrack key r, g)
| StepAcknowledge key node r g : manager_step (r, g) (rm_acknowledge key node r, g)
| StepCleanup now age r g : manager_step (r, g) (cleanup_completed now age r, g).

Definition manager_ok (policy : ReplicationPolicy)
    (x : ReplicationManager * gmap string (list string)) : Prop :=
  rmg_policy x.1 = policy /\
  forall key s, rmg_states x.1 !! key = Some s ->
    exists targets, x.2 !! key = Some targets /\
      tracked_ok (rc_write_quorum (rpo_config policy)) targets s.

Lemma acknowledge_ok quorum targets node s :
  tracked_ok quorum targets s ->
  tracked_ok quorum targets
    (if state_has_quorum quorum (state_acknowledge node s) then state_complete (state_acknowledge node s)
     else state_acknowledge node s).
Proof.
  intros [Ht Hc Hi [Ha1 Ha2]]. pose proof (acknowledge_perm node s) as Hp. rewrite Ht in Hp.
  assert (Hmono : (length (rs_acknowledged_by s) <= length (rs_acknowledged_by (state_acknowledge node s)))%nat /\
    rs_is_complete (state_acknowledge node s) = rs_is_complete s /\
    rs_last_attempt (state_acknowledge node s) = None /\ rs_attempt_count (state_acknowledge node s) = 0).
  { unfold state_acknowledge. destruct (remove_first node (rs_pending s)); simpl; rewrite ?length_app;
      auto with lia. }
  destruct Hmono as (Hlen & Hcomp & Hla & Hac). unfold state_has_quorum.
  destruct (Nat.leb_spec quorum (length (rs_acknowledged_by (state_acknowledge node s)))) as [Hle|Hlt].
  - by split.
  - split; [done| |done|done]. rewrite Hcomp. intros Htrue%Hc. lia.
Qed.

Lemma manager_step_ok policy x y :
  (0 < rc_write_quorum (rpo_config policy))%nat -> manager_step x y -> manager_ok policy x ->
  manager_ok policy y.
Proof.
  intros Hq Hstep [Hpol Hok].
  destruct Hstep as [key targets r g|key r g|key node r g|now age r g]; cbn [fst snd] in *.
  - split; [done|]. intros k s. simpl. destruct (decide (k = key)) as [->|Hne].
    + rewrite !lookup_insert_eq. intros [= <-]. exists targets. split; [done|]. by split.
    + rewrite !lookup_insert_ne by done. apply Hok.
  - split; [done|]. intros k s. simpl. intros [_ Hl]%lookup_delete_Some. by apply Hok.
  - unfold rm_acknowledge. destruct (rmg_states r !! key) as [s0|] eqn:Hs0; [|done].
    split; [done|]. intros k s. simpl. intros [[<- <-]|[_ Hl]]%lookup_insert_Some; [|by apply Hok].
    destruct (Hok _ _ Hs0) as (targets & Hg & Ht). exists targets. split; [done|].
    rewrite Hpol. by apply acknowledge_ok.
  - split; [done|]. intros k s. simpl. intros [Hl _]%map_lookup_filter_Some. by apply Hok.
Qed.

(** Replication bookkeeping: whatever is tracked, acknowledged, untracked and
    cleaned up, an acknowledgement moves one target from pending to
    acknowledged, so that the two together are always the targets the key was
    tracked with (none is counted twice), and a key is complete exactly when a
    write quorum of its targets has acknowledged.  The manager records no
    attempts, so cleaning up never removes a completed key, whatever its age, and
    every incomplete key with pending nodes is retried without a pause (if
    retries are allowed at all). *)
Theorem replication_bookkeeping policy r targets_of now age :
  (0 < rc_write_quorum (rpo_config policy))%nat ->
  rtc manager_step (ReplicationManager_new policy, ∅) (r, targets_of) ->
  (forall key s, rmg_states r !! key = Some s -> exists targets, targets_of !! key = Some targets /\
     rs_acknowledged_by s ++ rs_pending s ≡ₚ targets /\
     (rs_is_complete s = true <-> (rc_write_quorum (rpo_config policy) <= length (rs_acknowledged_by s))%nat) /\
     should_retry now (rpo_config policy) s =
       negb (rs_is_complete s) && (0 <? rc_max_retries (rpo_config policy)) &&
       negb (bool_decide (rs_pending s = []))) /\
  rmg_states (cleanup_completed now age r) = rmg_states r.
Proof.
  intros Hq Hsteps.
  assert (Hinv : manager_ok policy (r, targets_of)).
  { revert Hsteps. apply (rtc_ind_r (manager_ok policy)).
    - split; [done|]. intros k s Hl. cbn in Hl. by rewrite lookup_empty in Hl.
    - intros x y _ Hstep Hx. by eapply manager_step_ok. }
  destruct Hinv as [Hpol Hok]. cbn [fst snd] in *. split.
  - intros key s Hs. destruct (Hok _ _ Hs) as (targets & Hg & [Ht Hc Hi [Ha1 Ha2]]). exists targets.
    split; [done|]. split; [done|]. split.
    + split; [done|]. intros Hle. destruct (rs_is_complete s); [done|]. specialize (Hi eq_refl). lia.
    + unfold should_retry. rewrite Ha1, Ha2. destruct (rs_is_complete s); [done|]. simpl.
      destruct (Z.leb_spec (rc_max_retries (rpo_config policy)) 0) as [Hz|Hz].
      { by rewrite (proj2 (Z.ltb_ge _ _)). }
      rewrite (proj2 (Z.ltb_lt _ _)) by done. by destruct (rs_pending s).
  - simpl. apply map_filter_id. intros key s Hs. destruct (Hok _ _ Hs) as (targets & _ & [_ _ _ [Ha1 _]]).
    unfold keep_state. rewrite Ha1. by destruct (rs_is_complete s).
Qed.

Lemma fold_max_spec (key : StoredValue -> Z) (l : list StoredValue) (b : StoredValue) :
  exists v, fold_left (fun best v => match best with None => Some v
      | Some b => if key b <=? key v then Some v else best end) l (Some b) = Some v /\
    (v = b \/ v ∈ l) /\ key b <= key v /\ forall w, w ∈ l -> key w <= key v.
Proof.
  revert b. induction l as [|x l IH]; intros b; simpl.
  - exists b. split; [done|]. split; [by left|]. split; [lia|]. set_solver.
  - destruct (Z.leb_spec (key b) (key x)) as [Hle|Hgt].
    + destruct (IH x) as (v & Hv & Hin & Hx & Hl). exists v. split; [done|].
      split; [right; set_solver|]. split; [lia|]. intros w [->|Hw]%elem_of_cons; auto.
    + destruct (IH b) as (v & Hv & Hin & Hx & Hl). exists v. split; [done|].
      split; [set_solver|]. split; [lia|]. intros w [->|Hw]%elem_of_cons; [lia|auto].
Qed.

Lemma max_by_key_spec (key : StoredValue -> Z) (l : list StoredValue) :
  match max_by_key key l with
  | None => l = []
  | Some v => v ∈ l /\ forall w, w ∈ l -> key w <= key v
  end.
Proof.
  destruct l as [|x l]; [done|]. unfold max_by_key. cbn [fold_left].
  destruct (fold_max_spec key l x) as (v & -> & Hin & Hx & Hl).
  split; [set_solver|]. intros w [->|Hw]%elem_of_cons; auto.
Qed.

(** Conflict resolution returns one of the values, and none that it loses to:
    under last-write-wins no value is younger, under highest-version none has a
    higher version; it fails only on no values at all. *)
Theorem resolve_picks_maximum strategy values :
  match resolve strategy values with
  | None => values = []
  | Some v => v ∈ values /\
      forall w, w ∈ values ->
        match strategy with
        | HighestVersion => vm_version (sv_metadata w) <= vm_version (sv_metadata v)
        | _ => vm_updated_at (sv_metadata w) <= vm_updated_at (sv_metadata v)
        end
  end.
Proof.
  destruct values as [|v [|w values]]; [done| |].
  - simpl. split; [by left|]. intros w Hw%list_elem_of_singleton. subst. destruct strategy; lia.
  - cbn [resolve]. destruct strategy.
    + apply (max_by_key_spec (fun v => vm_updated_at (sv_metadata v))).
    + apply (max_by_key_spec (fun v => vm_version (sv_metadata v))).
    + apply (max_by_key_spec (fun v => vm_updated_at (sv_metadata v))).
Qed.

(** A calculated quorum can be met whenever a minimum is available, is never
    below the minimum, and is a majority of the available nodes unless the target
    is smaller. *)
Theorem calculate_bounds q available :
  (qca_min_quorum q <= calculate q available)%nat /\
  (can_achieve_quorum q available = true -> (0 < qca_min_quorum q)%nat ->
   (calculate q available <= available)%nat /\
   ((available / 2 + 1 <= qca_target_quorum q)%nat -> (available < 2 * calculate q available)%nat)).
Proof.
  unfold calculate, can_achieve_quorum. destruct (Nat.eqb_spec available 0) as [->|Hne].
  - split; [lia|]. intros Hle Hpos. apply Nat.leb_le in Hle. lia.
  - split; [lia|]. intros Hle Hpos. apply Nat.leb_le in Hle.
    pose proof (Nat.div_mod available 2 ltac:(lia)) as Hd.
    pose proof (Nat.mod_upper_bound available 2 ltac:(lia)). lia.
Qed.

Module ReplicationExamples.
(** Three targets, one of them acknowledging twice: not complete. *)
Definition acked : ReplicationManager :=
  rm_acknowledge "k" "a" (rm_acknowledge "k" "a"
    (rm_track "k" ["a"; "b"; "c"]%string (ReplicationManager_new ReplicationPolicy_default))).

Lemma replication_bookkeeping_witness :
  (rs_is_complete <$> rmg_states acked !! "k"%string) = Some false /\
  rmg_states (cleanup_completed 1000 1 acked) = rmg_states acked.
Proof.
  assert (Hq : (0 < rc_write_quorum (rpo_config ReplicationPolicy_default))%nat) by (simpl; lia).
  assert (Hr : rtc manager_step (ReplicationManager_new ReplicationPolicy_default, ∅)
    (acked, {[ "k"%string := ["a"; "b"; "c"]%string ]})).
  { eapply rtc_l; [apply (StepTrack "k" ["a"; "b"; "c"]%string)|].
    eapply rtc_l; [apply (StepAcknowledge "k" "a")|].
    eapply rtc_l; [apply (StepAcknowledge "k" "a")|]. apply rtc_refl. }
  split; [vm_compute; reflexivity|].
  exact (proj2 (replication_bookkeeping ReplicationPolicy_default acked _ 1000 1 Hq Hr)).
Defined.
End ReplicationExamples.
