(* ===== verification/Dht.v ===== *)
(** * The DHT storage

    Models [crates/distributed-storage/src/dht.rs]: the routing table with its
    XOR metric, the trait [DhtNetworkHandler] (a record of operations on the
    state of the network) and [DhtStorage], the local storage with quorum reads
    and writes on the closest nodes. *)

From S2P Require Import Prelude Float64 Crypto RustStrings RustBytes DStore LocalStore Replication.

(** ** Nodes *)

Record DhtNode : Type := mk_DhtNode {
  dn_id : string;
  dn_address : string;
  dn_distance : option bytes;
  dn_last_seen : Z;
  dn_is_online : bool
}.

#[global] Instance DhtNode_eq_dec : EqDecision DhtNode.
Proof. solve_decision. Defined.

Definition DhtNode_new (now : Z) (id address : string) : DhtNode :=
  mk_DhtNode id address None now true.

Definition xor_distance (a b : bytes) : bytes := zip_with Z.lxor a b.

Definition distance_cmp : bytes -> bytes -> comparison := bytes_compare.

Definition hash_node_id `{External} (node_id : string) : bytes := sha256 (str_bytes node_id).

(** ** The routing table *)

Record RoutingTable : Type := mk_RoutingTable {
  rt_nodes : gmap string DhtNode;
  rt_buckets : list (gset string)
}.

Definition RoutingTable_new : RoutingTable := mk_RoutingTable ∅ (replicate 256 ∅).

Definition rt_add_node (node : DhtNode) (t : RoutingTable) : RoutingTable :=
  mk_RoutingTable (<[dn_id node := node]> (rt_nodes t)) (rt_buckets t).

Definition rt_remove_node (node_id : string) (t : RoutingTable) : RoutingTable :=
  mk_RoutingTable (delete node_id (rt_nodes t)) ((fun b => b ∖ {[ node_id ]}) <$> rt_buckets t).

Definition get_node (node_id : string) (t : RoutingTable) : option DhtNode := rt_nodes t !! node_id.
Definition rt_node_count (t : RoutingTable) : nat := size (rt_nodes t).

Definition set_online (online : bool) (last_seen : Z) (n : DhtNode) : DhtNode :=
  mk_DhtNode (dn_id n) (dn_address n) (dn_distance n) last_seen online.

Definition mark_offline (node_id : string) (t : RoutingTable) : RoutingTable :=
  mk_RoutingTable (alter (fun n => set_online false (dn_last_seen n) n) node_id (rt_nodes t))
    (rt_buckets t).
Definition mark_online (now : Z) (node_id : string) (t : RoutingTable) : RoutingTable :=
  mk_RoutingTable (alter (set_online true now) node_id (rt_nodes t)) (rt_buckets t).

Section routing.
Context `{External} {HS : HashOrder string}.

Definition node_distance (key_hash : bytes) (n : DhtNode) : bytes :=
  xor_distance (hash_node_id (dn_id n)) key_hash.

Definition closer (key_hash : bytes) (a b : DhtNode) : Prop :=
  bytes_le (node_distance key_hash a) (node_distance key_hash b).
#[global] Instance closer_dec key_hash : RelDecision (closer key_hash) :=
  fun a b => bytes_le_dec (node_distance key_hash a) (node_distance key_hash b).

Definition find_closest (key_hash : bytes) (k : nat) (t : RoutingTable) : list DhtNode :=
  take k (stable_sort (closer key_hash) (hm_values (rt_nodes t))).

Definition online_nodes (t : RoutingTable) : list DhtNode :=
  filter (fun n => dn_is_online n = true) (hm_values (rt_nodes t)).
End routing.

(** ** The network *)

Record DhtNetworkHandler (N : Type) : Type := mk_DhtNetworkHandler {
  nh_find_nodes : bytes -> SE N StorageError (list DhtNode);
  nh_get_value : DhtNode -> StorageKey -> SE N StorageError (option StoredValue);
  nh_put_value : DhtNode -> StorageKey -> StoredValue -> SE N StorageError unit;
  nh_delete_value : DhtNode -> StorageKey -> SE N StorageError bool;
  nh_ping : DhtNode -> SE N StorageError bool
}.
Arguments nh_find_nodes {N}.
Arguments nh_get_value {N}.
Arguments nh_put_value {N}.
Arguments nh_delete_value {N}.
Arguments nh_ping {N}.

Definition LocalOnlyHandler : DhtNetworkHandler unit :=
  {| nh_find_nodes := fun _ => mret [];
     nh_get_value := fun _ _ => mret None;
     nh_put_value := fun _ _ _ => mret tt;
     nh_delete_value := fun _ _ => mret false;
     nh_ping := fun _ => mret false |}.

(** ** The storage *)

Record DhtStorage (N : Type) : Type := mk_DhtStorage {
  dht_local : LocalStorage;
  dht_routing_table : RoutingTable;
  dht_network : N;
  dht_replication_config : ReplicationConfig;
  dht_enabled : bool
}.
Arguments mk_DhtStorage {N}.
Arguments dht_local {N}.
Arguments dht_routing_table {N}.
Arguments dht_network {N}.
Arguments dht_replication_config {N}.
Arguments dht_enabled {N}.

Definition dht_local_only (local : LocalStorage) : DhtStorage unit :=
  mk_DhtStorage local RoutingTable_new tt ReplicationConfig_default false.

Definition with_network {N} (local : LocalStorage) (network : N) (config : ReplicationConfig) :
    DhtStorage N :=
  mk_DhtStorage local RoutingTable_new network config true.

Section dht.
Context `{External} `{EntryCodec} {HS : HashOrder string}.
Context {N : Type} (net : DhtNetworkHandler N).

Abbreviation DhtM := (SE (DhtStorage N) StorageError).

Definition on_local {A} (m : SE LocalStorage StorageError A) : DhtM A := fun d =>
  let '(r, l) := m (dht_local d) in
  (r, mk_DhtStorage l (dht_routing_table d) (dht_network d) (dht_replication_config d) (dht_enabled d)).
Definition on_network {A} (m : SE N StorageError A) : DhtM (result StorageError A) := fun d =>
  let '(r, n) := m (dht_network d) in
  (Ok r, mk_DhtStorage (dht_local d) (dht_routing_table d) n (dht_replication_config d) (dht_enabled d)).
Definition on_table (f : RoutingTable -> RoutingTable) : DhtM unit :=
  modify (fun d => mk_DhtStorage (dht_local d) (f (dht_routing_table d)) (dht_network d)
    (dht_replication_config d) (dht_enabled d)).

Definition dht_add_node (node : DhtNode) : DhtM unit := on_table (rt_add_node node).
Definition dht_remove_node (node_id : string) : DhtM unit := on_table (rt_remove_node node_id).

Definition find_closest_nodes (d : DhtStorage N) (key : StorageKey) (count : nat) : list DhtNode :=
  find_closest (key_hash key) count (dht_routing_table d).

(** The loop of a quorum read. *)
Fixpoint read_nodes (key : StorageKey) (quorum_size : nat) (nodes : list DhtNode)
    (values : list StoredValue) : DhtM (list StoredValue) :=
  match nodes with
  | [] => mret values
  | node :: nodes' =>
      r ← on_network (nh_get_value net node key);
      _ ← (match r with Err _ => on_table (mark_offline (dn_id node)) | Ok _ => mret tt end);
      let values := match r with Ok (Some v) => values ++ [v] | _ => values end in
      if (quorum_size <=? length values)%nat then mret values
      else read_nodes key quorum_size nodes' values
  end.

(** [max_by] with [is_newer_than]. *)
Definition newest (values : list StoredValue) : option StoredValue :=
  match values with
  | [] => None
  | v :: vs => Some (fold_left (fun x y => if is_newer_than x y then x else y) vs v)
  end.

Definition quorum_read (now : Z) (key : StorageKey) (quorum_size : nat) : DhtM (option StoredValue) :=
  local_result ← on_local (local_get now key (mk_GetOptions true false None));
  d ← get_state;
  if negb (dht_enabled d) then mret local_result
  else
    match find_closest_nodes d key (rc_replication_factor (dht_replication_config d)) with
    | [] => mret local_result
    | nodes =>
        values ← read_nodes key quorum_size nodes
          (match local_result with Some v => [v] | None => [] end);
        mret (newest values)
    end.

(** The loop of a quorum write. *)
Fixpoint write_nodes (now : Z) (key : StorageKey) (value : StoredValue) (nodes : list DhtNode)
    (success_count : nat) : DhtM nat :=
  match nodes with
  | [] => mret success_count
  | node :: nodes' =>
      r ← on_network (nh_put_value net node key value);
      match r with
      | Ok _ =>
          _ ← on_local (mark_replicated now key (dn_id node));
          write_nodes now key value nodes' (S success_count)
      | Err _ =>
          _ ← on_table (mark_offline (dn_id node));
          write_nodes now key value nodes' success_count
      end
  end.

Definition quorum_write (now : Z) (key : StorageKey) (value : StoredValue) (quorum_size : nat) :
    DhtM nat :=
  d ← get_state;
  if negb (dht_enabled d) then mret 1%nat
  else
    count ← write_nodes now key value
      (find_closest_nodes d key (rc_replication_factor (dht_replication_config d))) 1;
    if (quorum_size <=? count)%nat then mret count else throw (QuorumNotReached quorum_size count).

Definition dht_get (now : Z) (key : StorageKey) (options : GetOptions) : DhtM (option StoredValue) :=
  d ← get_state;
  if go_local_only options || negb (dht_enabled d) then on_local (local_get now key options)
  else if go_quorum_read options then
    quorum_read now key (default (rc_read_quorum (dht_replication_config d)) (go_quorum_size options))
  else
    local_result ← on_local (local_get now key GetOptions_default);
    match local_result with
    | Some v => mret (Some v)
    | None => quorum_read now key 1
    end.

Definition as_local (options : PutOptions) : PutOptions :=
  mk_PutOptions true (po_quorum_write options) (po_quorum_size options) (po_ttl_seconds options)
    (po_expected_version options).

(** Replication after the local write; without [quorum_write] its outcome is
    dropped. *)
Definition replicate_put (now : Z) (key : StorageKey) (value : bytes) (options : PutOptions)
    (metadata : ValueMetadata) : DhtM ValueMetadata :=
  d ← get_state;
  if po_local_only options || negb (dht_enabled d) then mret metadata
  else
    let stored := mk_StoredValue value metadata in
    if po_quorum_write options then
      _ ← quorum_write now key stored
            (default (rc_write_quorum (dht_replication_config d)) (po_quorum_size options));
      mret metadata
    else fun d => let '(_, d) := quorum_write now key stored 1 d in (Ok metadata, d).

Definition dht_put (now : Z) (key : StorageKey) (value : bytes) (options : PutOptions) :
    DhtM ValueMetadata :=
  metadata ← on_local (local_put now key value (as_local options));
  replicate_put now key value options metadata.

Definition dht_put_with_block (now : Z) (key : StorageKey) (value : bytes) (block_id : Z)
    (options : PutOptions) : DhtM ValueMetadata :=
  metadata ← on_local (local_put_with_block now key value block_id (as_local options));
  replicate_put now key value options metadata.

Fixpoint delete_nodes (key : StorageKey) (nodes : list DhtNode) : DhtM unit :=
  match nodes with
  | [] => mret tt
  | node :: nodes' => _ ← on_network (nh_delete_value net node key); delete_nodes key nodes'
  end.

Definition dht_delete (now : Z) (key : StorageKey) : DhtM bool :=
  deleted ← on_local (local_delete now key);
  d ← get_state;
  if negb (dht_enabled d) then mret deleted
  else
    _ ← delete_nodes key
          (find_closest_nodes d key (rc_replication_factor (dht_replication_config d)));
    mret deleted.

Definition dht_stats : DhtM StorageStats :=
  stats ← on_local local_stats;
  d ← get_state;
  mret (mk_StorageStats (ss_total_keys stats) (ss_total_bytes stats) (ss_keys_per_namespace stats)
    (ss_local_replicas stats) (Z.of_nat (rt_node_count (dht_routing_table d)))).

#[export] Instance dht_store : DistributedStore (DhtStorage N) := {|
  ds_get := dht_get;
  ds_put := dht_put;
  ds_delete := dht_delete;
  ds_exists := fun key => on_local (local_exists key);
  ds_list_prefix := fun now ns prefix limit token => on_local (local_list_prefix now ns prefix limit token);
  ds_stats := dht_stats;
  ds_list_before_block := fun now ns block limit => on_local (local_list_before_block now ns block limit);
  ds_list_after_block := fun now ns block limit => on_local (local_list_after_block now ns block limit);
  ds_list_range := fun now ns lo hi limit => on_local (local_list_range now ns lo hi limit);
  ds_count_by_namespace := fun ns => on_local (local_count_by_namespace ns);
  ds_query := fun now q => on_local (local_query now q);
  ds_put_with_block := dht_put_with_block
|}.
End dht.

(** ** The builder *)

Record DhtStorageBuilder (N : Type) : Type := mk_DhtStorageBuilder {
  dsb_local : option LocalStorage;
  dsb_network : option N;
  dsb_replication_config : ReplicationConfig
}.
Arguments mk_DhtStorageBuilder {N}.
Arguments dsb_local {N}.
Arguments dsb_network {N}.
Arguments dsb_replication_config {N}.

Definition build_local_only {N} (b : DhtStorageBuilder N) : result StorageError (DhtStorage unit) :=
  match dsb_local b with
  | Some local => Ok (dht_local_only local)
  | None => Err (InvalidData "Local storage is required")
  end.

Definition dht_build {N} (b : DhtStorageBuilder N) : result StorageError (DhtStorage N) :=
  match dsb_local b with
  | Some local =>
      match dsb_network b with
      | Some network => Ok (with_network local network (dsb_replication_config b))
      | None => Err (InvalidData "Network handler is required for DHT mode")
      end
  | None => Err (InvalidData "Local storage is required")
  end.
