(* ===== verification/DhtProps.v ===== *)
(** * Theorems about the DHT storage

    Routing by the XOR metric, quorum writes and reads, reading one's own
    writes, and what a storage without DHT does. *)

From S2P Require Import Prelude Float64 Crypto RustStrings RustBytes DStore LocalStore LocalStoreProps StorageExamples Replication Dht.

(** ** The metric *)

Lemma small_high_bits k b i : 0 <= b < 2 ^ k -> 0 <= k <= i -> Z.testbit b i = false.
Proof. intros Hb Hi. rewrite <- (Z.mod_small b (2 ^ k)) by done. by apply Z.mod_pow2_bits_high. Qed.

Lemma lxor_small k u v : 0 <= k -> 0 <= u < 2 ^ k -> 0 <= v < 2 ^ k -> 0 <= Z.lxor u v < 2 ^ k.
Proof.
  intros Hk Hu Hv. assert (Heq : Z.lxor u v = Z.lxor u v mod 2 ^ k).
  { apply Z.bits_inj'. intros i Hi. destruct (Z.lt_ge_cases i k) as [Hlt|Hge].
    - by rewrite Z.mod_pow2_bits_low.
    - rewrite Z.mod_pow2_bits_high, Z.lxor_spec by done.
      by rewrite (small_high_bits k u), (small_high_bits k v) by lia. }
  rewrite Heq. apply Z.mod_pos_bound. lia.
Qed.

Lemma add_shifted k a b : 0 <= k -> 0 <= b < 2 ^ k -> a * 2 ^ k + b = Z.lxor (Z.shiftl a k) b.
Proof.
  intros Hk Hb. rewrite <- Z.shiftl_mul_pow2 by done. apply Z.add_nocarry_lxor.
  apply Z.bits_inj'. intros i Hi. rewrite Z.land_spec, Z.bits_0, Z.shiftl_spec by done.
  destruct (Z.lt_ge_cases i k); [by rewrite Z.testbit_neg_r by lia|].
  rewrite (small_high_bits k b) by lia. apply andb_false_r.
Qed.

Lemma lxor_shift x y u v k :
  0 <= k -> 0 <= u < 2 ^ k -> 0 <= v < 2 ^ k ->
  Z.lxor (x * 2 ^ k + u) (y * 2 ^ k + v) = Z.lxor x y * 2 ^ k + Z.lxor u v.
Proof.
  intros Hk Hu Hv. rewrite !add_shifted by auto using lxor_small. rewrite Z.shiftl_lxor.
  apply Z.bits_inj'. intros i Hi. rewrite !Z.lxor_spec.
  by destruct (Z.testbit (Z.shiftl x k) i), (Z.testbit (Z.shiftl y k) i), (Z.testbit u i), (Z.testbit v i).
Qed.

Lemma from_be_bytes_cons x b :
  from_be_bytes (x :: b) = x * 2 ^ (8 * Z.of_nat (length b)) + from_be_bytes b.
Proof.
  unfold from_be_bytes at 1. cbn [fold_left]. rewrite from_be_bytes_acc, Z.pow_mul_r by lia.
  change (2 ^ 8) with 256. lia.
Qed.

Lemma from_be_bytes_range b :
  Forall (fun x => 0 <= x < 256) b -> 0 <= from_be_bytes b < 2 ^ (8 * Z.of_nat (length b)).
Proof.
  induction 1 as [|x b Hx _ IH]; [by cbn|]. rewrite from_be_bytes_cons. cbn [length].
  rewrite Nat2Z.inj_succ. replace (8 * Z.succ (Z.of_nat (length b))) with (8 + 8 * Z.of_nat (length b)) by lia.
  rewrite Z.pow_add_r by lia. change (2 ^ 8) with 256. nia.
Qed.

Abbreviation byte_list := (Forall (fun x => 0 <= x < 256)).

(** As a number, the distance is the exclusive or of the numbers. *)
Lemma xor_distance_value a b :
  byte_list a -> byte_list b -> length a = length b ->
  from_be_bytes (xor_distance a b) = Z.lxor (from_be_bytes a) (from_be_bytes b).
Proof.
  intros Ha. revert b. induction Ha as [|x a Hx Ha IH]; intros b Hb Hlen.
  { by destruct b. }
  destruct b as [|y b]; [done|]. apply list.Forall_cons in Hb as [Hy Hb]. injection Hlen as Hlen.
  unfold xor_distance. cbn [zip_with]. rewrite !from_be_bytes_cons, length_zip_with, <- Hlen, Nat.min_id.
  rewrite lxor_shift; [|lia|by apply from_be_bytes_range|rewrite Hlen; by apply from_be_bytes_range].
  f_equal. by apply IH.
Qed.

Lemma xor_distance_bytes a b : byte_list a -> byte_list b -> byte_list (xor_distance a b).
Proof.
  intros Ha Hb. apply list.Forall_forall. intros z Hz. unfold xor_distance in Hz.
  apply list_elem_of_lookup in Hz as [i Hi]. apply lookup_zip_with_Some in Hi as (x & y & -> & Hx & Hy).
  rewrite list.Forall_lookup in Ha, Hb. apply (lxor_small 8); [lia|by eapply Ha|by eapply Hb].
Qed.

Lemma xor_distance_assoc a b c :
  length a = length b -> length b = length c ->
  xor_distance a c = xor_distance (xor_distance a b) (xor_distance b c).
Proof.
  revert b c. induction a as [|x a IH]; intros [|y b] [|z c] H1 H2; simplify_eq/=; [done|].
  unfold xor_distance. cbn [zip_with]. f_equal; [|by apply IH].
  rewrite Z.lxor_assoc, <- (Z.lxor_assoc y y z), Z.lxor_nilpotent. by rewrite Z.lxor_0_l.
Qed.

Lemma xor_distance_comm a b : xor_distance a b = xor_distance b a.
Proof.
  unfold xor_distance. revert b. induction a as [|x a IH]; intros [|y b]; [done..|].
  cbn [zip_with]. by rewrite Z.lxor_comm, IH.
Qed.

Lemma xor_distance_zero a b :
  length a = length b -> xor_distance a b = replicate (length a) 0 <-> a = b.
Proof.
  revert b. induction a as [|x a IH]; intros [|y b] Hlen; simplify_eq/=; [done|].
  unfold xor_distance. cbn [zip_with replicate]. split.
  - intros [= Hxy Hab]. apply Z.lxor_eq in Hxy as ->. f_equal. by apply IH.
  - intros [= -> ->]. rewrite Z.lxor_nilpotent. f_equal. by apply IH.
Qed.

Lemma bytes_compare_value a b :
  byte_list a -> byte_list b -> length a = length b ->
  bytes_compare a b = Z.compare (from_be_bytes a) (from_be_bytes b).
Proof.
  intros Ha. revert b. induction Ha as [|x a Hx Ha IH]; intros b Hb Hlen; [by destruct b|].
  destruct b as [|y b]; [done|]. apply list.Forall_cons in Hb as [Hy Hb]. injection Hlen as Hlen.
  cbn [bytes_compare]. rewrite !from_be_bytes_cons, <- Hlen, (IH b Hb Hlen).
  pose proof (from_be_bytes_range a Ha) as Hra. pose proof (from_be_bytes_range b Hb) as Hrb.
  rewrite <- Hlen in Hrb.
  destruct (Z.compare_spec x y) as [->|Hlt|Hlt].
  - destruct (Z.compare_spec (from_be_bytes a) (from_be_bytes b));
      symmetry; [apply Z.compare_eq_iff|apply Z.compare_lt_iff|apply Z.compare_gt_iff]; lia.
  - symmetry. apply Z.compare_lt_iff. nia.
  - symmetry. apply Z.compare_gt_iff. nia.
Qed.

(** The XOR distance of the DHT is the metric its documentation claims: on
    digests of equal length it is zero exactly between equal ones, symmetric, and
    as a number satisfies the triangle inequality; the lexicographic comparison
    of distances is the comparison of those numbers. *)
Theorem xor_metric a b c :
  byte_list a -> byte_list b -> byte_list c -> length a = length b -> length b = length c ->
  (xor_distance a b = replicate (length a) 0 <-> a = b) /\
  xor_distance a b = xor_distance b a /\
  from_be_bytes (xor_distance a c) <=
    from_be_bytes (xor_distance a b) + from_be_bytes (xor_distance b c) /\
  (distance_cmp (xor_distance a b) (xor_distance a c) =
   Z.compare (from_be_bytes (xor_distance a b)) (from_be_bytes (xor_distance a c))).
Proof.
  intros Ha Hb Hc Hab Hbc. split; [by apply xor_distance_zero|]. split; [apply xor_distance_comm|].
  assert (Hlab : length (xor_distance a b) = length (xor_distance b c))
    by (unfold xor_distance; rewrite !length_zip_with; lia).
  split.
  - rewrite (xor_distance_assoc a b c) by done.
    rewrite xor_distance_value by auto using xor_distance_bytes.
    pose proof (from_be_bytes_range _ (xor_distance_bytes _ _ Ha Hb)).
    pose proof (from_be_bytes_range _ (xor_distance_bytes _ _ Hb Hc)).
    pose proof (Z.add_lxor_2land (from_be_bytes (xor_distance a b)) (from_be_bytes (xor_distance b c))).
    assert (0 <= Z.land (from_be_bytes (xor_distance a b)) (from_be_bytes (xor_distance b c)))
      by (apply Z.land_nonneg; lia). lia.
  - unfold distance_cmp. apply bytes_compare_value; auto using xor_distance_bytes.
    unfold xor_distance. rewrite !length_zip_with. lia.
Qed.

(** ** Routing *)

Section routing.
Context `{External} {HS : HashOrder string} (h : bytes).

#[global] Instance closer_total : Total (closer h).
Proof. intros a b. apply bytes_le_total. Qed.
#[global] Instance closer_trans : Transitive (closer h).
Proof. intros a b c. apply bytes_le_trans. Qed.
End routing.

Lemma StronglySorted_take {A} (R : A -> A -> Prop) k l :
  StronglySorted R l ->
  StronglySorted R (take k l) /\ forall x y, x ∈ take k l -> y ∈ drop k l -> R x y.
Proof.
  intros Hl. rewrite <- (take_drop k l) in Hl. split.
  - by apply StronglySorted_app_1_l in Hl.
  - intros x y Hx Hy. by eapply StronglySorted_app_1_elem_of.
Qed.

(** Routing is exact: of the known nodes [find_closest] returns as many as
    asked for (all, when there are fewer), in order of distance, and no node
    left out is closer to the key than one returned. *)
Theorem closest_nodes_exact `{External} `{!HashOrder string} h k t :
  let r := find_closest h k t in
  length r = (k `min` size (rt_nodes t))%nat /\
  StronglySorted (closer h) r /\
  (forall n, n ∈ r -> exists id, rt_nodes t !! id = Some n) /\
  forall id n n', n ∈ r -> rt_nodes t !! id = Some n' -> n' ∉ r -> closer h n n'.
Proof.
  intros r. set (l := stable_sort (closer h) (hm_values (rt_nodes t))).
  assert (Hp : l ≡ₚ hm_values (rt_nodes t)) by apply stable_sort_perm.
  destruct (StronglySorted_take (closer h) k l (StronglySorted_stable_sort _ _)) as [Hs Hrest].
  change (take k l) with r in *. split_and!; [|done| |].
  - unfold r, find_closest. fold l. by rewrite length_take, Hp, length_hm_values.
  - intros n Hn. apply elem_of_hm_values. rewrite <- Hp. rewrite <- (take_drop k l).
    apply elem_of_app. by left.
  - intros id n n' Hn Hid Hout. apply Hrest; [done|].
    assert (Hin : n' ∈ l) by (rewrite Hp; apply elem_of_hm_values; by exists id).
    rewrite <- (take_drop k l) in Hin. by apply elem_of_app in Hin as [?|?].
Qed.

(** ** The newest of several values *)

Lemma newer_trans a b c : is_newer_than b a = false -> is_newer_than c b = false -> is_newer_than c a = false.
Proof.
  unfold is_newer_than. destruct (Z.eqb_spec (vm_version (sv_metadata b)) (vm_version (sv_metadata a))),
    (Z.eqb_spec (vm_version (sv_metadata c)) (vm_version (sv_metadata b))),
    (Z.eqb_spec (vm_version (sv_metadata c)) (vm_version (sv_metadata a))); simpl;
    rewrite !Z.ltb_ge; lia.
Qed.

Lemma newer_irrefl a : is_newer_than a a = false.
Proof. unfold is_newer_than. rewrite Z.eqb_refl. apply Z.ltb_irrefl. Qed.

Lemma newer_asym a b : is_newer_than a b = true -> is_newer_than b a = false.
Proof.
  unfold is_newer_than. rewrite (Z.eqb_sym (vm_version (sv_metadata b))).
  destruct (Z.eqb_spec (vm_version (sv_metadata a)) (vm_version (sv_metadata b))); simpl;
    rewrite Z.ltb_lt, Z.ltb_ge; lia.
Qed.

Lemma fold_newest vs v :
  let r := fold_left (fun x y => if is_newer_than x y then x else y) vs v in
  r ∈ v :: vs /\ forall w, w ∈ v :: vs -> is_newer_than w r = false.
Proof.
  revert v. induction vs as [|y vs IH]; intros v; simpl.
  - split; [by left|]. intros w ->%list_elem_of_singleton. apply newer_irrefl.
  - destruct (IH (if is_newer_than v y then v else y)) as [Hin Hmax]. split.
    { apply elem_of_cons in Hin as [-> |Hin]; [case_match; repeat constructor|by do 2 right]. }
    assert (Hv : is_newer_than v (if is_newer_than v y then v else y) = false).
    { destruct (is_newer_than v y) eqn:Hvy; [apply newer_irrefl|done]. }
    assert (Hy : is_newer_than y (if is_newer_than v y then v else y) = false).
    { destruct (is_newer_than v y) eqn:Hvy; [by apply newer_asym|apply newer_irrefl]. }
    pose proof (Hmax _ (list_elem_of_here _ _)) as Hb. intros w Hw.
    rewrite !elem_of_cons in Hw. destruct Hw as [-> |[-> |Hw]].
    + by eapply newer_trans.
    + by eapply newer_trans.
    + apply Hmax. by right.
Qed.

Lemma newest_spec vs :
  match newest vs with
  | Some r => r ∈ vs /\ forall w, w ∈ vs -> is_newer_than w r = false
  | None => vs = []
  end.
Proof. destruct vs as [|v vs]; [done|]. apply fold_newest. Qed.

(** ** Quorum writes *)

(** What the nodes answer when they are asked, in order, to store a value. *)
Fixpoint put_answers {N} (net : DhtNetworkHandler N) (key : StorageKey) (value : StoredValue)
    (nodes : list DhtNode) (n : N) : list (DhtNode * bool) * N :=
  match nodes with
  | [] => ([], n)
  | node :: nodes' =>
      let '(r, n) := nh_put_value net node key value n in
      let '(l, n) := put_answers net key value nodes' n in
      ((node, match r with Ok _ => true | Err _ => false end) :: l, n)
  end.

Definition accepting (l : list (DhtNode * bool)) : list string :=
  (fun x => dn_id x.1) <$> filter (fun x => x.2 = true) l.
Definition refusing (l : list (DhtNode * bool)) : list string :=
  (fun x => dn_id x.1) <$> filter (fun x => x.2 = false) l.

Lemma next_value_eta `{External} now node old value ttl :
  mk_StoredValue value (sv_metadata (next_value now node old value ttl)) = next_value now node old value ttl.
Proof. unfold next_value. by destruct old, (0 <? ttl). Qed.

Section quorum_write.
Context `{External} `{!ExternalLaws} `{EntryCodec} `{!EntryCodecLaws} `{!HashOrder string}.
Context {N : Type} (net : DhtNetworkHandler N).
Context (K : StorageKey -> Prop) (HK : sound_keys K).

(** The entry of a value after nodes [ids] accepted it. *)
Definition marked (v : StoredValue) (block : option Z) (now : Z) (ids : list string) : LocalEntry :=
  mk_LocalEntry v (foldl (fun r id => info_mark_replicated now id r) (mk_ReplicationInfo ∅ 0 0 false) ids)
    block.

Lemma marked_needs_nothing v block now ids :
  ri_needs_replication (le_replication (marked v block now ids)) = false.
Proof.
  unfold marked. cbn [le_replication]. induction ids as [|id ids IH] using rev_ind; [done|].
  by rewrite foldl_snoc.
Qed.

Definition can_mark (v : StoredValue) (block : option Z) (now : Z) (ids : list string) : Prop :=
  (forall b, block = Some b -> is_u64 b) /\
  forall l, l `sublist_of` ids -> exists b, stored_as (marked v block now l) b.

Lemma mark_replicated_step now key id v block done m s :
  represents K s m -> K key -> Z.of_nat (size m) < u64_max ->
  (forall b, block = Some b -> is_u64 b) ->
  (exists b, stored_as (marked v block now (done ++ [id])) b) ->
  m !! key = Some (marked v block now done) ->
  exists s', mark_replicated now key id s = (Ok tt, s') /\
    represents K s' (<[key := marked v block now (done ++ [id])]> m).
Proof.
  intros Hr Hk Hsize Hu [b Hb] Hm. unfold mark_replicated, mbind, SE_bind, lift, get_state.
  rewrite (get_entry_represents K HK _ _ _ Hr Hk), Hm.
  assert (Heq : mk_LocalEntry (le_value (marked v block now done))
     (info_mark_replicated now id (le_replication (marked v block now done)))
     (le_block_id (marked v block now done)) = marked v block now (done ++ [id])).
  { unfold marked. cbn [le_value le_replication le_block_id]. by rewrite foldl_snoc. }
  rewrite Heq. destruct (put_entry_represents K HK _ _ _ _ _ Hr Hk Hb Hu Hsize) as (s' & -> & Hr' & _).
  by exists s'.
Qed.

Lemma write_nodes_effect now key v block nodes done count d m :
  represents K (dht_local d) m -> K key -> Z.of_nat (size m) < u64_max ->
  can_mark v block now (done ++ (dn_id <$> nodes)) -> m !! key = Some (marked v block now done) ->
  let '(l, n) := put_answers net key v nodes (dht_network d) in
  exists s', write_nodes net now key v nodes count d =
      (Ok (count + length (accepting l))%nat,
       mk_DhtStorage s' (foldl (fun t id => mark_offline id t) (dht_routing_table d) (refusing l)) n
         (dht_replication_config d) (dht_enabled d)) /\
    represents K s' (<[key := marked v block now (done ++ accepting l)]> m).
Proof.
  intros Hr Hk. revert done count d m Hr.
  induction nodes as [|node nodes IH]; intros done count d m Hr Hsize [Hu Hfit] Hm; cbn [put_answers write_nodes].
  { exists (dht_local d). cbn. rewrite Nat.add_0_r, app_nil_r, insert_id by done. by destruct d. }
  unfold mbind at 1, SE_bind at 1, on_network.
  destruct (nh_put_value net node key v (dht_network d)) as [r n1] eqn:Hput. destruct r as [[]|e].
  - destruct (mark_replicated_step now key (dn_id node) v block done m (dht_local d)) as (s1 & Hs1 & Hr1);
      [done..| |done|].
    { apply Hfit. apply sublist_app; [done|]. cbn. by apply sublist_skip, sublist_nil_l. }
    unfold mbind, SE_bind, on_local. cbn [dht_local]. rewrite Hs1. cbn [dht_routing_table dht_network].
    specialize (IH (done ++ [dn_id node]) (S count)
      (mk_DhtStorage s1 (dht_routing_table d) n1 (dht_replication_config d) (dht_enabled d)) _ Hr1).
    cbn [dht_network dht_routing_table dht_replication_config dht_enabled] in *.
    destruct (put_answers net key v nodes n1) as [l n]. destruct IH as (s' & Hs' & Hr').
    { by rewrite map_size_insert_Some. }
    { split; [done|]. intros l' Hl'. apply Hfit. by rewrite <- app_assoc in Hl'. }
    { by rewrite lookup_insert_eq. }
    exists s'. rewrite Hs'. unfold accepting, refusing. rewrite !filter_cons. simpl.
    rewrite insert_insert_eq, <- app_assoc in Hr'. split; [|done]. by rewrite Nat.add_succ_r.
  - unfold mbind, SE_bind, on_table, modify.
    specialize (IH done count (mk_DhtStorage (dht_local d) (mark_offline (dn_id node) (dht_routing_table d)) n1
      (dht_replication_config d) (dht_enabled d)) m Hr Hsize).
    cbn [dht_local dht_network dht_routing_table dht_replication_config dht_enabled] in *.
    destruct (put_answers net key v nodes n1) as [l n]. destruct IH as (s' & Hs' & Hr'); [|done|].
    { split; [done|]. intros l' Hl'. apply Hfit. etransitivity; [exact Hl'|].
      apply sublist_app; [done|]. cbn. by apply sublist_cons. }
    exists s'. rewrite Hs'. done.
Qed.

Lemma local_put_effect now key value options s m :
  represents K s m -> check_version (m !! key) (po_expected_version options) = Ok tt ->
  admissible K (ls_node_id s) (OpPut now key value options) m ->
  let v := next_value now (ls_node_id s) (m !! key) value (po_ttl_seconds options) in
  exists s', local_put now key value options s = (Ok (sv_metadata v), s') /\
    represents K s' (<[key := mk_LocalEntry v (mk_ReplicationInfo ∅ 0 0 (negb (po_local_only options))) None]> m).
Proof.
  intros Hr Hver Hadm v. pose proof (run_op_refines K HK _ _ _ Hr Hadm) as Hput.
  cbn [map_op run_op] in Hput. unfold map_put in Hput. rewrite Hver in Hput. fold v in Hput.
  destruct Hput as (s' & Hs' & Hr' & _). exists s'. split; [|done].
  unfold mbind at 1, SE_bind at 1 in Hs'.
  destruct (local_put now key value options s) as [[meta|e] s1]; [|done].
  by injection Hs' as -> ->.
Qed.

Lemma quorum_write_effect now key v block quorum d m :
  represents K (dht_local d) m -> dht_enabled d = true -> K key -> Z.of_nat (size m) < u64_max ->
  m !! key = Some (marked v block now []) ->
  let nodes := find_closest_nodes d key (rc_replication_factor (dht_replication_config d)) in
  can_mark v block now (dn_id <$> nodes) ->
  let '(l, n) := put_answers net key v nodes (dht_network d) in
  let stored := S (length (accepting l)) in
  exists s', quorum_write net now key v quorum d =
      (if (stored <? quorum)%nat then Err (QuorumNotReached quorum stored) else Ok stored,
       mk_DhtStorage s' (foldl (fun t id => mark_offline id t) (dht_routing_table d) (refusing l)) n
         (dht_replication_config d) true) /\
    represents K s' (<[key := marked v block now (accepting l)]> m).
Proof.
  intros Hr Hen Hk Hsize Hm nodes Hmark.
  pose proof (write_nodes_effect now key v block nodes [] 1 d m Hr Hk Hsize Hmark Hm) as Hw.
  destruct (put_answers net key v nodes (dht_network d)) as [l n]. destruct Hw as (s' & Hw & Hr').
  exists s'. split; [|done]. unfold quorum_write, mbind, SE_bind, get_state. rewrite Hen.
  cbn [negb]. fold nodes. rewrite Hw, Hen, Nat.leb_antisym. cbn [Nat.add].
  by destruct (S (length (accepting l)) <? quorum)%nat.
Qed.

(** An ordinary read finds a stored value before asking anyone. *)
Lemma dht_get_local now key d m e :
  represents K (dht_local d) m -> K key -> m !! key = Some e ->
  is_expired now (sv_metadata (le_value e)) = false ->
  dht_get net now key GetOptions_default d = (Ok (Some (le_value e)), d).
Proof.
  intros Hr Hk Hm Hexp.
  assert (Hl : local_get now key GetOptions_default (dht_local d) = (Ok (Some (le_value e)), dht_local d)).
  { unfold local_get, mbind, SE_bind, lift, get_state.
    by rewrite (get_entry_represents K HK _ _ _ Hr Hk), Hm, Hexp. }
  unfold dht_get, mbind, SE_bind, get_state, on_local.
  destruct d as [l t n c []]; cbn [dht_local dht_enabled go_local_only go_quorum_read orb negb] in *; simpl;
    rewrite Hl; done.
Qed.
End quorum_write.

(** C21. A write to the DHT: the value is stored locally with the next version,
    the closest nodes are asked in order, those that accept are recorded with the
    entry and those that fail are taken offline. With [quorum_write] the answer is
    [QuorumNotReached] exactly when this node and the accepting ones are fewer than
    the quorum, otherwise the metadata. In either case - a failed quorum included -
    the value stays stored, an ordinary read returns it, and the entry is not
    marked for later replication. *)
Theorem dht_put_effect `{External} `{!ExternalLaws} `{EntryCodec} `{!EntryCodecLaws} `{!HashOrder string}
    {N} (net : DhtNetworkHandler N) K now key value options (d : DhtStorage N) m :
  sound_keys K -> represents K (dht_local d) m -> dht_enabled d = true ->
  po_local_only options = false ->
  check_version (m !! key) (po_expected_version options) = Ok tt ->
  admissible K (ls_node_id (dht_local d)) (OpPut now key value (as_local options)) m ->
  let cfg := dht_replication_config d in
  let nodes := find_closest_nodes d key (rc_replication_factor cfg) in
  let v := next_value now (ls_node_id (dht_local d)) (m !! key) value (po_ttl_seconds options) in
  can_mark v None now (dn_id <$> nodes) -> Z.of_nat (S (size m)) < u64_max ->
  let '(l, n) := put_answers net key v nodes (dht_network d) in
  let stored := S (length (accepting l)) in
  let quorum := default (rc_write_quorum cfg) (po_quorum_size options) in
  exists s', let d' := mk_DhtStorage s' (foldl (fun t id => mark_offline id t) (dht_routing_table d)
                         (refusing l)) n cfg true in
    dht_put net now key value options d =
      (if po_quorum_write options && (stored <? quorum)%nat
       then Err (QuorumNotReached quorum stored) else Ok (sv_metadata v), d') /\
    represents K s' (<[key := marked v None now (accepting l)]> m) /\
    ri_needs_replication (le_replication (marked v None now (accepting l))) = false /\
    forall later, is_expired later (sv_metadata v) = false ->
      dht_get net later key GetOptions_default d' = (Ok (Some v), d').
Proof.
  intros HK Hr Hen Hlo Hver Hadm cfg nodes v Hmark Hsize.
  destruct (local_put_effect K HK now key value (as_local options) _ _ Hr Hver Hadm) as (s1 & Hs1 & Hr1).
  change (next_value now _ _ value _) with v in Hs1, Hr1.
  change (mk_LocalEntry v _ None) with (marked v None now []) in Hr1.
  pose proof (map_size_insert_le m key (marked v None now [])) as Hle. destruct Hadm as [Hk _].
  pose (d1 := mk_DhtStorage s1 (dht_routing_table d) (dht_network d) cfg true).
  assert (Hsize1 : Z.of_nat (size (<[key := marked v None now []]> m)) < u64_max) by lia.
  pose proof (fun quorum => quorum_write_effect net K HK now key v None quorum d1 _ Hr1 eq_refl Hk
    Hsize1 (lookup_insert_eq _ _ _) Hmark) as Hw.
  change (find_closest_nodes d1 key _) with nodes in Hw. cbn [dht_network d1 dht_routing_table dht_replication_config] in Hw.
  destruct (put_answers net key v nodes (dht_network d)) as [l n].
  intros stored quorum. pose proof (Hw (if po_quorum_write options then quorum else 1%nat)) as (s' & Hs' & Hr').
  rewrite insert_insert_eq in Hr'. exists s'. split_and!; [|done| |].
  - unfold dht_put, mbind at 1, SE_bind at 1, on_local. rewrite Hs1, Hen. fold cfg. fold d1.
    unfold replicate_put, mbind at 1, SE_bind at 1, get_state. rewrite Hlo.
    cbn [dht_enabled d1 negb orb dht_replication_config]. fold d1 quorum.
    assert (Hv : mk_StoredValue value (sv_metadata v) = v) by apply next_value_eta. rewrite Hv.
    destruct (po_quorum_write options); cbn [andb].
    + unfold mbind, SE_bind, stored. rewrite Hs'. by destruct (S (length (accepting l)) <? quorum)%nat.
    + by rewrite Hs'.
  - apply marked_needs_nothing.
  - intros later Hexp. apply (dht_get_local net K HK later key (mk_DhtStorage s' _ _ _ _) _ (marked v None now (accepting l)) Hr' Hk
      (lookup_insert_eq _ _ _) Hexp).
Qed.

(** ** Quorum reads *)

(** What the nodes answer when they are asked, in order, for a value, until
    the quorum is full; also whom that takes offline. *)
Fixpoint get_answers {N} (net : DhtNetworkHandler N) (key : StorageKey) (missing : nat)
    (nodes : list DhtNode) (n : N) : list (DhtNode * result StorageError (option StoredValue)) * N :=
  match nodes with
  | [] => ([], n)
  | node :: nodes' =>
      let '(r, n) := nh_get_value net node key n in
      let missing' := match r with Ok (Some _) => pred missing | _ => missing end in
      match missing' with
      | O => ([(node, r)], n)
      | _ => let '(l, n) := get_answers net key missing' nodes' n in ((node, r) :: l, n)
      end
  end.

Definition found (l : list (DhtNode * result StorageError (option StoredValue))) : list StoredValue :=
  omap (fun x => match x.2 with Ok v => v | Err _ => None end) l.
Definition failing (l : list (DhtNode * result StorageError (option StoredValue))) : list string :=
  omap (fun x => match x.2 with Ok _ => None | Err _ => Some (dn_id x.1) end) l.

Lemma read_nodes_effect `{External} `{EntryCodec} {N} (net : DhtNetworkHandler N) key quorum nodes values
    (d : DhtStorage N) :
  let '(l, n) := get_answers net key (quorum - length values) nodes (dht_network d) in
  read_nodes net key quorum nodes values d =
    (Ok (values ++ found l),
     mk_DhtStorage (dht_local d) (foldl (fun t id => mark_offline id t) (dht_routing_table d) (failing l)) n
       (dht_replication_config d) (dht_enabled d)).
Proof.
  revert values d. induction nodes as [|node nodes IH]; intros values d; cbn [get_answers read_nodes].
  { cbn. rewrite app_nil_r. by destruct d. }
  unfold mbind at 1, SE_bind at 1, on_network.
  destruct (nh_get_value net node key (dht_network d)) as [r n1].
  set (values' := match r with Ok (Some v) => values ++ [v] | _ => values end).
  set (t' := match r with Err _ => mark_offline (dn_id node) (dht_routing_table d) | Ok _ => dht_routing_table d end).
  assert (Hm : match r with Ok (Some _) => pred (quorum - length values) | _ => quorum - length values end%nat
               = (quorum - length values')%nat).
  { unfold values'. destruct r as [[v|]|e]; rewrite ?length_app; simpl; lia. }
  assert (Hf : forall l, values ++ found ((node, r) :: l) = values' ++ found l).
  { intros l. unfold values'. destruct r as [[v|]|e]; cbn; rewrite <- ?app_assoc; done. }
  assert (Ht : forall l, foldl (fun t id => mark_offline id t) (dht_routing_table d) (failing ((node, r) :: l))
               = foldl (fun t id => mark_offline id t) t' (failing l)) by (intros l; by destruct r).
  rewrite Hm. unfold mbind, SE_bind.
  set (d' := mk_DhtStorage (dht_local d) t' n1 (dht_replication_config d) (dht_enabled d)).
  assert (Hoff : (match r with Ok _ => mret tt | Err _ => on_table (mark_offline (dn_id node)) end :
      SE (DhtStorage N) StorageError unit) (mk_DhtStorage (dht_local d) (dht_routing_table d) n1
      (dht_replication_config d) (dht_enabled d)) = (Ok tt, d')) by (by destruct r).
  rewrite Hoff. specialize (IH values' d'). cbn [d' dht_network dht_local dht_routing_table dht_replication_config dht_enabled] in IH.
  destruct (Nat.leb_spec quorum (length values')) as [Hq|Hq].
  - replace (quorum - length values')%nat with 0%nat by lia. rewrite Hf, Ht. cbn. by rewrite app_nil_r.
  - destruct (quorum - length values')%nat as [|missing] eqn:Hmiss; [lia|].
    destruct (get_answers net key (S missing) nodes n1) as [l n]. rewrite Hf, Ht. exact IH.
Qed.

(** A quorum read asks the closest nodes in order until the quorum of values
    is reached, takes the nodes that fail offline, and answers with the newest of
    the values found, the local one included: no value seen is newer. Too few
    answers are no error: when every node fails, the answer is the local value,
    as if the quorum had been met. *)
Theorem quorum_read_newest `{External} `{EntryCodec} `{!HashOrder string} {N} (net : DhtNetworkHandler N)
    now key quorum (d : DhtStorage N) local s :
  dht_enabled d = true ->
  local_get now key (mk_GetOptions true false None) (dht_local d) = (Ok local, s) ->
  let nodes := find_closest_nodes d key (rc_replication_factor (dht_replication_config d)) in
  nodes <> [] ->
  let mine := option_list local in
  let '(l, n) := get_answers net key (quorum - length mine) nodes (dht_network d) in
  exists r, quorum_read net now key quorum d =
      (Ok r, mk_DhtStorage s (foldl (fun t id => mark_offline id t) (dht_routing_table d) (failing l)) n
               (dht_replication_config d) true) /\
    match r with
    | Some v => v ∈ mine ++ found l /\ forall w, w ∈ mine ++ found l -> is_newer_than w v = false
    | None => mine ++ found l = []
    end /\
    ((forall x, x ∈ l -> exists e, x.2 = Err e) -> r = local).
Proof.
  intros Hen Hl nodes Hnodes mine.
  pose proof (read_nodes_effect net key quorum nodes mine
    (mk_DhtStorage s (dht_routing_table d) (dht_network d) (dht_replication_config d) true)) as Hr.
  cbn [dht_network dht_local dht_routing_table dht_replication_config dht_enabled] in Hr.
  destruct (get_answers net key (quorum - length mine) nodes (dht_network d)) as [l n].
  exists (newest (mine ++ found l)). split; [|split; [apply newest_spec|]].
  - unfold quorum_read, mbind at 1, SE_bind at 1, on_local. rewrite Hl.
    unfold mbind at 1, SE_bind at 1, get_state. cbn [dht_enabled]. rewrite Hen. cbn [negb].
    change (find_closest_nodes _ key _) with nodes. destruct nodes as [|x nodes]; [done|].
    change (match local with Some v => [v] | None => [] end) with mine.
    unfold mbind, SE_bind. by rewrite Hr.
  - intros Hall. assert (Hf : found l = []).
    { clear Hr. unfold found. induction l as [|x l IH]; [done|]. destruct (Hall x (list_elem_of_here _ _)) as [e He].
      cbn. rewrite He. apply IH. intros y Hy. apply Hall. by right. }
    rewrite Hf, app_nil_r. unfold mine. by destruct local.
Qed.

(** Without DHT every operation is the local one. *)
Lemma disabled_is_local `{External} `{EntryCodec} `{!HashOrder string} {N} (net : DhtNetworkHandler N)
    (d : DhtStorage N) now key value gopts popts :
  dht_enabled d = false ->
  dht_get net now key gopts d = on_local (local_get now key gopts) d /\
  dht_put net now key value popts d = on_local (local_put now key value (as_local popts)) d /\
  dht_delete net now key d = on_local (local_delete now key) d.
Proof.
  intros Hen. split_and!.
  - unfold dht_get, mbind, SE_bind, get_state. rewrite Hen. cbn [negb]. by rewrite orb_true_r.
  - unfold dht_put, replicate_put, mbind, SE_bind, get_state, on_local.
    destruct (local_put now key value (as_local popts) (dht_local d)) as [[meta|e] s]; [|done].
    cbn [dht_enabled]. rewrite Hen. cbn [negb]. by rewrite orb_true_r.
  - unfold dht_delete, mbind, SE_bind, get_state, on_local.
    destruct (local_delete now key (dht_local d)) as [[b|e] s]; [|done].
    cbn [dht_enabled]. by rewrite Hen.
Qed.

(** ** A network of two nodes, of which one answers *)

Module DhtExamples.
Import Toy StorageToy.

(** The state of the network counts the calls. *)
Definition two_nodes : DhtNetworkHandler nat :=
  {| nh_find_nodes := fun _ n => (Ok [], S n);
     nh_get_value := fun node _ n =>
       (if decide (dn_id node = "n2"%string) then Ok (Some (StoredValue_new 30 [9] (Some "n2"%string)))
        else Err (DhtError "unreachable"), S n);
     nh_put_value := fun node _ _ n =>
       (if decide (dn_id node = "n2"%string) then Ok tt else Err (DhtError "unreachable"), S n);
     nh_delete_value := fun _ _ n => (Ok false, S n);
     nh_ping := fun _ n => (Ok true, S n) |}.

Definition known : RoutingTable :=
  rt_add_node (DhtNode_new 0 "n3" "b") (rt_add_node (DhtNode_new 0 "n2" "a") RoutingTable_new).
Definition dht : DhtStorage nat := mk_DhtStorage stored known 0%nat ReplicationConfig_default true.

Definition all_three : PutOptions := mk_PutOptions false true (Some 3%nat) 0 None.

Lemma xor_metric_witness :
  from_be_bytes (xor_distance [1; 200] [7; 7]) <=
    from_be_bytes (xor_distance [1; 200] [0; 3]) + from_be_bytes (xor_distance [0; 3] [7; 7]).
Proof.
  assert (Ha : byte_list [1; 200]) by (repeat constructor; lia).
  assert (Hb : byte_list [0; 3]) by (repeat constructor; lia).
  assert (Hc : byte_list [7; 7]) by (repeat constructor; lia).
  exact (proj1 (proj2 (proj2 (xor_metric [1; 200] [0; 3] [7; 7] Ha Hb Hc eq_refl eq_refl)))).
Defined.

(** Of the quorum of three, this node and "n2" have the value: the write fails,
    and is readable. *)
Lemma dht_put_effect_witness :
  exists d', dht_put two_nodes 40 keyA [5] all_three dht = (Err (QuorumNotReached 3 2), d') /\
    exists v, sv_data v = [5] /\ dht_get two_nodes 50 keyA GetOptions_default d' = (Ok (Some v), d').
Proof.
  assert (Hadm : admissible in_use "n1" (OpPut 40 keyA [5] (as_local all_three)) contents).
  { split; [by left|]. split; [vm_compute; reflexivity|]. intros e He. split; [apply all_stored|].
    vm_compute in He. injection He as <-. done. }
  assert (Hmark : can_mark (next_value 40 "n1" (contents !! keyA) [5] 0) None 40
     (dn_id <$> find_closest_nodes dht keyA 3)).
  { split; [done|]. intros l _. apply all_stored. }
  assert (Hv : check_version (contents !! keyA) None = Ok tt) by reflexivity.
  assert (Hs : Z.of_nat (S (size contents)) < u64_max) by (vm_compute; reflexivity).
  pose proof (dht_put_effect two_nodes in_use 40 keyA [5] all_three dht contents in_use_sound
    stored_represents eq_refl eq_refl Hv Hadm Hmark Hs) as Heff.
  destruct (put_answers two_nodes keyA _ _ _) as [l n] eqn:Hl.
  assert (Hacc : length (accepting l) = 1%nat).
  { apply (f_equal (fun x => length (accepting x.1))) in Hl. etransitivity; [symmetry; exact Hl|].
    vm_compute. reflexivity. }
  destruct Heff as (s' & Hput & _ & _ & Hget). eexists. split.
  - rewrite Hput, Hacc. reflexivity.
  - eexists. split; [|apply (Hget 50); vm_compute; reflexivity]. vm_compute. reflexivity.
Defined.

(** One node answers, one is taken offline; both were asked. *)
Lemma quorum_read_newest_witness :
  exists r d', quorum_read two_nodes 20 keyA 3 dht = (Ok r, d') /\ dht_network d' = 2%nat.
Proof.
  assert (Hl : local_get 20 keyA (mk_GetOptions true false None) (dht_local dht) =
    (Ok (le_value <$> contents !! keyA), stored)) by (vm_compute; reflexivity).
  assert (Hn : find_closest_nodes dht keyA (rc_replication_factor (dht_replication_config dht)) <> [])
    by (vm_compute; discriminate).
  pose proof (quorum_read_newest two_nodes 20 keyA 3 dht _ _ eq_refl Hl Hn) as Hread. cbv zeta in Hread.
  destruct (get_answers two_nodes keyA _ _ _) as [l n] eqn:Hans.
  apply (f_equal snd) in Hans. vm_compute in Hans. destruct Hread as (r & Hr & _).
  eexists _, _. split; [exact Hr|]. exact (eq_sym Hans).
Defined.
End DhtExamples.
