(* ===== verification/FloatOrder.v ===== *)
(** * The order of [f64]

    [partial_cmp] orders the numbers that are not NaN totally: it compares, in
    lexicographic order, sign class, exponent and mantissa.  With it, facts
    about sorting scores and weights with
    [partial_cmp(..).unwrap_or(Ordering::Equal)]. *)

From Stdlib Require Import SpecFloat.
From S2P Require Import Prelude Float64.

(** ** A key for the comparison *)

Definition f64_class (x : f64) : Z :=
  match x with
  | S754_zero _ | S754_nan => 0
  | S754_infinity s => if s then -2 else 2
  | S754_finite s _ _ => if s then -1 else 1
  end.
Definition f64_exp_key (x : f64) : Z :=
  match x with S754_finite s _ e => if s then - e else e | _ => 0 end.
Definition f64_mantissa_key (x : f64) : Z :=
  match x with S754_finite s m _ => if s then Zneg m else Zpos m | _ => 0 end.

Definition is_nan (x : f64) : bool := match x with S754_nan => true | _ => false end.

Definition lex_lt (x y : f64) : Prop :=
  f64_class x < f64_class y \/
  f64_class x = f64_class y /\
    (f64_exp_key x < f64_exp_key y \/
     f64_exp_key x = f64_exp_key y /\ f64_mantissa_key x < f64_mantissa_key y).

Lemma f64_ltb_lex x y :
  is_nan x = false -> is_nan y = false -> f64_ltb x y = true <-> lex_lt x y.
Proof.
  unfold lex_lt, f64_ltb, SFltb, SFcompare.
  destruct x as [s|s| |s m e], y as [s'|s'| |s' m' e']; try done; intros _ _;
    try destruct s; try destruct s'; simpl; try (split; intros; done || lia).
  - destruct (Z.compare_spec e e') as [->|?|?]; simpl; [|split; intros; done || lia..].
    fold (Pos.compare m m'). destruct (Pos.compare_spec m m') as [->|?|?]; simpl; split; intros; done || lia.
  - destruct (Z.compare_spec e e') as [->|?|?]; simpl; [|split; intros; done || lia..].
    fold (Pos.compare m m'). destruct (Pos.compare_spec m m') as [->|?|?]; simpl; split; intros; done || lia.
Qed.

(** ** Sorting *)

(** [a.partial_cmp(b).unwrap_or(Equal) != Greater]. *)
Definition f64_le (x y : f64) : Prop := f64_ltb y x = false.
#[global] Instance f64_le_dec : RelDecision f64_le := fun x y => bool_eq_dec (f64_ltb y x) false.

Lemma f64_le_lex x y : is_nan x = false -> is_nan y = false -> f64_le x y <-> ~ lex_lt y x.
Proof.
  intros Hx Hy. unfold f64_le. rewrite <- (f64_ltb_lex y x Hy Hx). by destruct (f64_ltb y x).
Qed.

Lemma f64_le_total x y : is_nan x = false -> is_nan y = false -> f64_le x y \/ f64_le y x.
Proof. intros Hx Hy. rewrite !f64_le_lex by done. unfold lex_lt. lia. Qed.

Lemma f64_le_trans x y z :
  is_nan x = false -> is_nan y = false -> is_nan z = false -> f64_le x y -> f64_le y z -> f64_le x z.
Proof. intros Hx Hy Hz. rewrite !f64_le_lex by done. unfold lex_lt. lia. Qed.

Lemma f64_le_leb x y : is_nan x = false -> is_nan y = false -> f64_le x y <-> f64_leb x y = true.
Proof.
  unfold f64_le, f64_ltb, f64_leb, SFltb, SFleb, SFcompare.
  destruct x as [s|s| |s m e], y as [s'|s'| |s' m' e']; try done; intros _ _;
    try destruct s; try destruct s'; simpl; try done.
  - rewrite (Z.compare_antisym e e'). destruct (e ?= e'); simpl; try done.
    fold (Pos.compare m' m). fold (Pos.compare m m').
    rewrite (Pos.compare_antisym m m'). by destruct (m ?= m')%positive.
  - rewrite (Z.compare_antisym e e'). destruct (e ?= e'); simpl; try done.
    fold (Pos.compare m' m). fold (Pos.compare m m').
    rewrite (Pos.compare_antisym m m'). by destruct (m ?= m')%positive.
Qed.

(** Sorting a list on which the relation is total and transitive. *)
Lemma stable_sort_sorted_on {A} (R : A -> A -> Prop) `{!RelDecision R} (P : A -> Prop) l :
  (forall x y, P x -> P y -> R x y \/ R y x) ->
  (forall x y z, P x -> P y -> P z -> R x y -> R y z -> R x z) ->
  Forall P l -> StronglySorted R (stable_sort R l).
Proof.
  intros Htot Htrans Hl. assert (Hin : forall l, Forall P l -> Forall P (stable_sort R l)).
  { intros l' ?. by rewrite stable_sort_perm. }
  induction Hl as [|x l Hx Hl IH]; [constructor|]. simpl. specialize (Hin l Hl).
  revert Hin IH. generalize (stable_sort R l). clear l Hl. intros l Hl Hs.
  induction Hs as [|y l Hs IH Hall]; simpl; [repeat constructor|].
  apply list.Forall_cons in Hl as [Hy Hl]. case_decide as Hxy.
  - constructor; [by constructor|]. constructor; [done|].
    rewrite list.Forall_forall in Hall, Hl |- *. intros z Hz. eapply (Htrans x y z); eauto.
  - constructor; [by apply IH|]. rewrite insert_sorted_perm. constructor; [|done].
    destruct (Htot x y Hx Hy) as [?|?]; done.
Qed.

Lemma f64_sort_sorted l :
  Forall (fun x => is_nan x = false) l -> StronglySorted f64_le (stable_sort f64_le l).
Proof.
  apply stable_sort_sorted_on; [apply f64_le_total|apply f64_le_trans].
Qed.

(** ** The median *)

(** The median of a sorted list that is not empty, as the sources compute it. *)
Definition median (scores : list f64) : f64 :=
  let len := length scores in
  if Nat.even len then
    f64_div (f64_add (nth (len / 2 - 1) scores f64_zero) (nth (len / 2) scores f64_zero)) (f64_of_Z 2)
  else nth (len / 2) scores f64_zero.

Definition between (lo hi x : f64) : Prop := f64_le lo x /\ f64_le x hi.
#[global] Instance between_dec lo hi x : Decision (between lo hi x).
Proof. unfold between. apply _. Defined.

Lemma StronglySorted_lookup {A} (R : A -> A -> Prop) l i j x y :
  StronglySorted R l -> l !! i = Some x -> l !! j = Some y -> (i < j)%nat -> R x y.
Proof.
  intros Hs. revert i j. induction Hs as [|z l Hs IH Hall]; intros i j Hi Hj Hij; [done|].
  destruct j as [|j]; [lia|]. simpl in Hj. destruct i as [|i].
  - injection Hi as ->. rewrite list.Forall_forall in Hall. apply Hall. by eapply list_elem_of_lookup_2.
  - apply (IH i j); [done|done|lia].
Qed.

Section majority.
Context (lo hi : f64) (Hlo : is_nan lo = false) (Hhi : is_nan hi = false).
Context (l : list f64) (Hl : Forall (fun x => is_nan x = false) l) (Hs : StronglySorted f64_le l).

(** If more than half of a sorted list is in an interval, so is its middle. *)
Lemma middle_in_majority i x :
  (length l / 2 < length (filter (between lo hi) l))%nat ->
  l !! i = Some x -> (i = length l / 2 \/ S i = length l / 2 /\ Nat.even (length l) = true)%nat ->
  between lo hi x.
Proof.
  intros Hmaj Hi Hmid. assert (Hlen := lookup_lt_Some _ _ _ Hi).
  pose proof (proj1 (list.Forall_lookup _ _) Hl) as Hnan.
  assert (Hdiv : (2 * (length l / 2) <= length l < 2 * (length l / 2) + 2)%nat).
  { pose proof (Nat.div_mod_eq (length l) 2). pose proof (Nat.mod_upper_bound (length l) 2). lia. }
  assert (Heven : Nat.even (length l) = true -> (length l = 2 * (length l / 2))%nat).
  { intros [n Hn]%Nat.even_spec. rewrite Hn, (Nat.mul_comm 2 n), Nat.div_mul by lia. lia. }
  assert (Hpos : (i = length l / 2 \/ S i = length l / 2 /\ length l = 2 * (length l / 2))%nat) by tauto.
  clear Hmid Heven. assert (Hsplit : filter (between lo hi) l =
    filter (between lo hi) (take i l) ++ filter (between lo hi) (drop i l)).
  { by rewrite <- filter_app, take_drop. }
  rewrite Hsplit, length_app in Hmaj. split.
  - destruct (decide (f64_le lo x)) as [|Hlt]; [done|]. exfalso.
    rewrite filter_none in Hmaj.
    + rewrite (drop_S _ x i) in Hmaj by done.
      rewrite filter_cons_False in Hmaj by (intros [? _]; done).
      pose proof (length_filter (between lo hi) (drop (S i) l)) as Hf. rewrite length_drop in Hf.
      cbn [length] in Hmaj. lia.
    + apply list.Forall_forall. intros y [j [Hy Hj]]%elem_of_take [Hby _]. apply Hlt.
      apply (f64_le_trans lo y x); [done|by eapply Hnan|by eapply Hnan|done|].
      by apply (StronglySorted_lookup _ l j i).
  - destruct (decide (f64_le x hi)) as [|Hlt]; [done|]. exfalso.
    rewrite (filter_none _ (drop i l)) in Hmaj.
    + pose proof (length_filter (between lo hi) (take i l)) as Hf. rewrite length_take in Hf.
      cbn [length] in Hmaj. lia.
    + apply list.Forall_forall. intros y Hy [_ Hby]. apply list_elem_of_lookup in Hy as [j Hj]. rewrite lookup_drop in Hj. apply Hlt.
      destruct j as [|j].
      { rewrite Nat.add_0_r, Hi in Hj. by injection Hj as ->. }
      apply (f64_le_trans x y hi); [by eapply Hnan|by eapply Hnan|done| |done].
      by apply (StronglySorted_lookup _ l i (i + S j)); [| | |lia].
Qed.
End majority.
