(* ===== verification/Submission.v ===== *)
(** * Submissions and evaluations

    Models [crates/distributed-storage/src/submission.rs]: the canonical text of
    JSON values, submissions with their hash, evaluations and the aggregation of
    evaluations by median and by stake.  JSON values are a tree; an object is the
    list of its members in iteration order, with distinct keys.  How serde_json
    writes a scalar or a string is a parameter. *)

From Stdlib Require Import SpecFloat.
From S2P Require Import Prelude Float64 FloatOrder Crypto RustStrings RustBytes.

(** ** JSON *)

Inductive JsonNumber : Type :=
| PosInt (n : Z)
| NegInt (n : Z)
| JsonFloat (x : f64).

Inductive Json : Type :=
| JNull
| JBool (b : bool)
| JNumber (n : JsonNumber)
| JString (s : string)
| JArray (l : list Json)
| JObject (members : list (string * Json)).

(** [value.get(index)] and [value.get(name)]. *)
Definition json_at (i : nat) (v : Json) : option Json := match v with JArray l => l !! i | _ => None end.
Definition json_get (name : string) (v : Json) : option Json :=
  match v with
  | JObject l => snd <$> List.find (fun m => bool_decide (m.1 = name)) l
  | _ => None
  end.

Definition json_str (v : Json) : option string := match v with JString s => Some s | _ => None end.
Definition json_as_u64 (v : Json) : option Z := match v with JNumber (PosInt n) => Some n | _ => None end.
Definition json_as_bool (v : Json) : option bool := match v with JBool b => Some b | _ => None end.
Definition json_as_f64 (v : Json) : option f64 :=
  match v with
  | JNumber (PosInt n) | JNumber (NegInt n) => Some (f64_of_Z n)
  | JNumber (JsonFloat x) => Some x
  | _ => None
  end.

(** [serde_json::to_string] on a value. *)
Class JsonText : Type := { json_to_string : Json -> result string string }.

(** The order of [String]: that of its bytes. *)
Definition member_le {V} (x y : string * V) : Prop := bytes_le (str_bytes x.1) (str_bytes y.1).
#[global] Instance member_le_dec {V} : RelDecision (@member_le V) :=
  fun x y => bytes_le_dec (str_bytes x.1) (str_bytes y.1).

Definition quote : string := String (Ascii.ascii_of_nat 34) EmptyString.

Section json.
Context `{JsonText}.

Definition key_text (k : string) : string :=
  match json_to_string (JString k) with
  | Ok s => s
  | Err _ => quote +:+ k +:+ quote
  end.

(** The members are written and then sorted by key, which is the same as sorting
    them first. *)
Fixpoint canonicalize_json (value : Json) : string :=
  match value with
  | JObject members =>
      let written := map (fun '(k, v) => (k, key_text k +:+ ":" +:+ canonicalize_json v)) members in
      "{" +:+ join "," (stable_sort member_le written).*2 +:+ "}"
  | JArray l => "[" +:+ join "," (map canonicalize_json l) +:+ "]"
  | _ => match json_to_string value with Ok s => s | Err _ => "null" end
  end.
End json.

(** ** Submissions *)

Inductive SubmissionStatus : Type :=
| SubPending
| SubEvaluating
| SubEvaluated
| SubRejected (reason : string)
| SubExpired.

Record StoredSubmission : Type := mk_StoredSubmission {
  sub_challenge_id : string;
  sub_submission_hash : string;
  sub_miner_hotkey : string;
  sub_source_code : option string;
  sub_metadata : Json;
  sub_submitted_at : Z;
  sub_received_by : list string;
  sub_status : SubmissionStatus
}.

Definition submission_hash `{External} `{JsonText} (challenge_id miner_hotkey : string)
    (source_code : option string) (metadata : Json) : string :=
  hex_encode (sha256 (str_bytes challenge_id ++ str_bytes miner_hotkey ++
    match source_code with Some code => str_bytes code | None => [] end ++
    str_bytes (canonicalize_json metadata))).

Definition StoredSubmission_new `{External} `{JsonText} (now : Z) (challenge_id miner_hotkey : string)
    (source_code : option string) (metadata : Json) : StoredSubmission :=
  mk_StoredSubmission challenge_id (submission_hash challenge_id miner_hotkey source_code metadata)
    miner_hotkey source_code metadata now [] SubPending.

Definition mark_received_by (validator_hotkey : string) (s : StoredSubmission) : StoredSubmission :=
  if decide (validator_hotkey ∈ sub_received_by s) then s
  else mk_StoredSubmission (sub_challenge_id s) (sub_submission_hash s) (sub_miner_hotkey s)
         (sub_source_code s) (sub_metadata s) (sub_submitted_at s)
         (sub_received_by s ++ [validator_hotkey]) (sub_status s).

Definition submission_has_quorum (required : nat) (s : StoredSubmission) : bool :=
  (required <=? length (sub_received_by s))%nat.

(** ** Evaluations *)

Inductive EvaluationStatus : Type :=
| EvalCompleted
| EvalFailed (error : string)
| EvalTimedOut
| EvalSkipped.

Record StoredEvaluation : Type := mk_StoredEvaluation {
  sev_challenge_id : string;
  sev_submission_hash : string;
  sev_validator_hotkey : string;
  sev_score : f64;
  sev_execution_time_ms : Z;
  sev_result_data : Json;
  sev_evaluated_at : Z;
  sev_signature : bytes;
  sev_status : EvaluationStatus
}.

Definition StoredEvaluation_new (now : Z) (challenge_id submission_hash validator_hotkey : string)
    (score : f64) (execution_time_ms : Z) (result_data : Json) (signature : bytes) : StoredEvaluation :=
  mk_StoredEvaluation challenge_id submission_hash validator_hotkey (f64_clamp f64_zero f64_one score)
    execution_time_ms result_data now signature EvalCompleted.

Definition evaluation_failed (now : Z) (challenge_id submission_hash validator_hotkey error : string)
    (signature : bytes) : StoredEvaluation :=
  mk_StoredEvaluation challenge_id submission_hash validator_hotkey f64_zero 0 JNull now signature
    (EvalFailed error).

Definition evaluation_timed_out (now : Z) (challenge_id submission_hash validator_hotkey : string)
    (execution_time_ms : Z) (signature : bytes) : StoredEvaluation :=
  mk_StoredEvaluation challenge_id submission_hash validator_hotkey f64_zero execution_time_ms JNull now
    signature EvalTimedOut.

Definition is_successful (e : StoredEvaluation) : bool :=
  match sev_status e with EvalCompleted => true | _ => false end.

Definition evaluation_id (e : StoredEvaluation) : string :=
  sev_challenge_id e +:+ ":" +:+ sev_submission_hash e +:+ ":" +:+ sev_validator_hotkey e.

(** ** Aggregation *)

Record AggregatedEvaluations : Type := mk_AggregatedEvaluations {
  agg_challenge_id : string;
  agg_submission_hash : string;
  agg_miner_hotkey : string;
  agg_evaluations : list StoredEvaluation;
  agg_final_score : option f64;
  agg_confidence : f64;
  agg_aggregated_at : Z
}.

Definition AggregatedEvaluations_new (now : Z) (challenge_id submission_hash miner_hotkey : string)
    (evaluations : list StoredEvaluation) : AggregatedEvaluations :=
  mk_AggregatedEvaluations challenge_id submission_hash miner_hotkey evaluations None f64_zero now.

Definition set_result (score : option f64) (confidence : f64) (at_ : Z) (a : AggregatedEvaluations) :
    AggregatedEvaluations :=
  mk_AggregatedEvaluations (agg_challenge_id a) (agg_submission_hash a) (agg_miner_hotkey a)
    (agg_evaluations a) score confidence at_.

Definition successful (a : AggregatedEvaluations) : list StoredEvaluation :=
  filter (fun e => is_successful e = true) (agg_evaluations a).

(** The confidence: one minus the standard deviation. *)
Definition score_confidence (scores : list f64) : f64 :=
  let len := f64_of_Z (Z.of_nat (length scores)) in
  let mean := f64_div (f64_sum scores) len in
  let square x := f64_mul (f64_sub x mean) (f64_sub x mean) in
  let variance := f64_div (f64_sum (square <$> scores)) len in
  f64_clamp f64_zero f64_one (f64_sub f64_one (SFsqrt 53 1024 variance)).

Definition compute_median_score (now : Z) (a : AggregatedEvaluations) : AggregatedEvaluations :=
  match sev_score <$> successful a with
  | [] => set_result None f64_zero (agg_aggregated_at a) a
  | scores =>
      let scores := stable_sort f64_le scores in
      set_result (Some (median scores)) (score_confidence scores) now a
  end.

(** [stakes.iter().collect()]: of repeated hotkeys the last one counts. *)
Definition stake_map (stakes : list (string * Z)) : gmap string Z :=
  fold_left (fun m '(k, v) => <[k := v]> m) stakes ∅.

Definition compute_weighted_score (now : Z) (stakes : list (string * Z)) (a : AggregatedEvaluations) :
    AggregatedEvaluations :=
  let m := stake_map stakes in
  match successful a with
  | [] => set_result None f64_zero (agg_aggregated_at a) a
  | es =>
      let total_stake := u64_sum (omap (fun e => m !! sev_validator_hotkey e) es) in
      if total_stake =? 0 then compute_median_score now a
      else
        let weighted_sum := f64_sum ((fun e =>
          f64_mul (sev_score e) (f64_of_Z (default 0 (m !! sev_validator_hotkey e)))) <$> es) in
        set_result (Some (f64_div weighted_sum (f64_of_Z total_stake)))
          (f64_clamp f64_zero f64_one (f64_div (f64_of_Z (Z.of_nat (length es)))
             (f64_of_Z (Z.of_nat (length (agg_evaluations a)))))) now a
  end.

Definition aggregated_has_quorum (required : nat) (a : AggregatedEvaluations) : bool :=
  (required <=? length (successful a))%nat.

(** * Theorems about submissions and evaluations

    The canonical text of JSON does not depend on the order of members; the
    hash of a submission does not separate its parts; the median score follows
    the majority of the validators. *)

(** ** Sorting and mapping *)

Lemma stable_sort_fmap {A B} (R : A -> A -> Prop) (R' : B -> B -> Prop) `{!RelDecision R} `{!RelDecision R'}
    (f : A -> B) l :
  (forall x y, R' (f x) (f y) <-> R x y) -> stable_sort R' (f <$> l) = f <$> stable_sort R l.
Proof.
  intros Hf. assert (Hins : forall x l, insert_sorted R' (f x) (f <$> l) = f <$> insert_sorted R x l).
  { intros x l'. induction l' as [|y l' IH]; [done|].
    cbn [fmap list_fmap insert_sorted].
    destruct (decide (R x y)) as [Hxy|Hxy], (decide (R' (f x) (f y))) as [Hfxy|Hfxy];
      rewrite Hf in Hfxy; try done. cbn [fmap list_fmap]. f_equal. apply IH. }
  induction l as [|x l IH]; [done|]. cbn [fmap list_fmap stable_sort foldr]. fold (stable_sort R l).
  fold (stable_sort R' (f <$> l)). rewrite IH. apply Hins.
Qed.

#[global] Instance member_le_total {V} : Total (@member_le V).
Proof. intros x y. apply bytes_le_total. Qed.
#[global] Instance member_le_trans {V} : Transitive (@member_le V).
Proof. intros x y z. apply bytes_le_trans. Qed.

Lemma bytes_le_antisym a b : bytes_le a b -> bytes_le b a -> a = b.
Proof.
  rewrite !bytes_le_lteq. intros [Hab|?] [Hba|?]; try done.
  destruct (bytes_lt_irrefl a). by transitivity b.
Qed.

Lemma NoDup_fst_inj {A B} (l : list (A * B)) x y :
  NoDup l.*1 -> x ∈ l -> y ∈ l -> x.1 = y.1 -> x = y.
Proof.
  intros Hnd Hx Hy Hxy. apply list_elem_of_lookup in Hx as [i Hi], Hy as [j Hj].
  assert (i = j) as ->; [|congruence].
  apply (NoDup_lookup l.*1 i j x.1 Hnd); rewrite list_lookup_fmap, ?Hi, ?Hj; simpl; congruence.
Qed.

(** Sorting members forgets their order. *)
Lemma sort_members_perm {V} (l l' : list (string * V)) :
  l ≡ₚ l' -> NoDup l.*1 -> stable_sort member_le l = stable_sort member_le l'.
Proof.
  intros Hp Hnd. apply (StronglySorted_unique_strong member_le).
  - intros x y Hx Hy Hxy Hyx. apply (elem_of_Permutation_proper _ _ _ (stable_sort_perm member_le l)) in Hx.
    apply (elem_of_Permutation_proper _ _ _ (stable_sort_perm member_le l')) in Hy. rewrite <- Hp in Hy.
    exact (NoDup_fst_inj l x y Hnd Hx Hy (str_bytes_inj _ _ (bytes_le_antisym _ _ Hxy Hyx))).
  - apply (StronglySorted_stable_sort member_le); apply _.
  - apply (StronglySorted_stable_sort member_le); apply _.
  - by rewrite !(stable_sort_perm member_le).
Qed.

(** ** Canonical text *)

(** The same JSON up to the order of members, at every depth. *)
Inductive json_same : Json -> Json -> Prop :=
| same_scalar v : json_same v v
| same_array l l' : Forall2 json_same l l' -> json_same (JArray l) (JArray l')
| same_object m m1 m' : m ≡ₚ m1 -> NoDup m.*1 ->
    Forall2 (fun x y => x.1 = y.1 /\ json_same x.2 y.2) m1 m' -> json_same (JObject m) (JObject m').

Section json.
Context `{JsonText}.

Lemma canonicalize_object m :
  canonicalize_json (JObject m) =
  "{" +:+ join "," ((fun x => key_text x.1 +:+ ":" +:+ canonicalize_json x.2) <$> stable_sort member_le m)
      +:+ "}".
Proof.
  cbn [canonicalize_json]. do 3 f_equal.
  change (map ?f m) with (f <$> m).
  rewrite (stable_sort_fmap member_le member_le) by (intros [] []; done).
  rewrite <- list_fmap_compose. apply list_fmap_ext. by intros i [k v] _.
Qed.

(** Canonical JSON: two values that differ only in the order of the members
    of their objects, at any depth, have the same canonical text, so submissions
    made from them get the same hash. *)
Theorem canonical_text_unique v v' : json_same v v' -> canonicalize_json v = canonicalize_json v'.
Proof.
  revert v v'. fix IH 3. intros v v' [w|l l' Hl|m m1 m' Hp Hnd Hm].
  - done.
  - cbn [canonicalize_json]. do 3 f_equal. induction Hl as [|x y l l' Hxy Hl IHl]; [done|].
    cbn [map]. by rewrite (IH _ _ Hxy), IHl.
  - cbn [canonicalize_json]. do 4 f_equal. change (map ?f m) with (f <$> m). change (map ?f m') with (f <$> m').
    set (w := fun x : string * Json => let '(k, v) := x in (k, key_text k +:+ ":" +:+ canonicalize_json v)).
    assert (Hw : (w <$> m1) = (w <$> m')).
    { clear Hp Hnd. induction Hm as [|[k x] [k' y] l l' [Hk Hxy] Hl IHl]; [done|]. simpl in Hk, Hxy. subst k'.
      cbn [fmap list_fmap]. rewrite IHl. f_equal. unfold w. by rewrite (IH _ _ Hxy). }
    rewrite <- Hw. apply sort_members_perm; [by rewrite Hp|].
    rewrite <- list_fmap_compose. erewrite list_fmap_ext; [exact Hnd|]. by intros i [k x] _.
Qed.

(** The parts of a submission are hashed without separators: characters can
    move from the challenge to the miner, and no source is an empty source. *)
Lemma submission_hash_ambiguous `{External} a b c code meta :
  submission_hash (a +:+ b) c code meta = submission_hash a (b +:+ c) code meta /\
  submission_hash a b None meta = submission_hash a b (Some EmptyString) meta.
Proof. unfold submission_hash. rewrite !str_bytes_app, <- !app_assoc. done. Qed.
End json.

(** ** Receipts *)

Lemma mark_received_set v s :
  NoDup (sub_received_by s) ->
  NoDup (sub_received_by (mark_received_by v s)) /\
  forall w, w ∈ sub_received_by (mark_received_by v s) <-> w = v \/ w ∈ sub_received_by s.
Proof.
  intros Hnd. unfold mark_received_by. case_decide as Hv; simpl.
  - split; [done|]. intros w. split; [by right|]. by intros [-> |?].
  - split.
    + apply NoDup_app. split; [done|]. split; [|apply NoDup_singleton].
      intros w Hw ->%list_elem_of_singleton. done.
    + intros w. rewrite elem_of_app, list_elem_of_singleton. tauto.
Qed.

(** ** The median score *)

(** C29. The median follows the majority: when more than half of the successful
    scores (none of them NaN) lie in an interval whose ends are not NaN, the middle
    scores - the one in the middle of the sorted scores, and for an even number of
    them the one before it - lie in it too.  The final score is the middle one for
    an odd number of scores; for an even number it is the floating-point mean of
    the two, whose sum can overflow ([SubmissionExamples.even_median_overflows]). *)
Theorem median_follows_majority now a lo hi :
  let scores := sev_score <$> successful a in
  let n := length scores in
  Forall (fun x => is_nan x = false) scores -> is_nan lo = false -> is_nan hi = false ->
  (n / 2 < length (filter (between lo hi) scores))%nat ->
  exists l x y, l ≡ₚ scores /\ StronglySorted f64_le l /\ l !! (n / 2)%nat = Some y /\
    (Nat.even n = true -> l !! (n / 2 - 1)%nat = Some x) /\
    between lo hi x /\ between lo hi y /\
    agg_final_score (compute_median_score now a) =
      Some (if Nat.even n then f64_div (f64_add x y) (f64_of_Z 2) else y).
Proof.
  intros scores n Hnan Hlo Hhi Hmaj. set (l := stable_sort f64_le scores).
  assert (Hp : l ≡ₚ scores) by apply stable_sort_perm.
  assert (Hln : length l = n) by (by rewrite Hp).
  assert (Hs : StronglySorted f64_le l) by by apply f64_sort_sorted.
  assert (Hnl : Forall (fun x => is_nan x = false) l) by by rewrite Hp.
  assert (Hml : (length l / 2 < length (filter (between lo hi) l))%nat) by (by rewrite Hln, Hp).
  assert (Hn : (0 < n)%nat).
  { pose proof (length_filter (between lo hi) scores) as Hf. fold n in Hf. lia. }
  assert (Hn2 : (n / 2 < n)%nat) by (apply Nat.div_lt; lia).
  destruct (lookup_lt_is_Some_2 l (n / 2)) as [y Hy]; [lia|].
  destruct (lookup_lt_is_Some_2 l (n / 2 - 1)) as [x Hx]; [lia|].
  assert (Hby : between lo hi y).
  { apply (middle_in_majority lo hi Hlo Hhi l Hnl Hs (n / 2)%nat); [done..|]. left. by rewrite Hln. }
  assert (Hfs : agg_final_score (compute_median_score now a) = Some (median l)).
  { unfold compute_median_score. fold scores. unfold l. destruct scores; [simpl in *; lia|done]. }
  unfold median in Hfs.
  rewrite Hln, (nth_lookup_Some l (n / 2) f64_zero y Hy), (nth_lookup_Some l (n / 2 - 1) f64_zero x Hx) in Hfs.
  exists l. destruct (Nat.even n) eqn:He; [exists x, y|exists y, y]; split_and!; try done.
  apply (middle_in_majority lo hi Hlo Hhi l Hnl Hs (n / 2 - 1)%nat); [done..|].
  right. rewrite Hln. split; [|done].
  assert (n <> 1%nat) by (intros Heq; by rewrite Heq in He).
  assert (0 < n / 2)%nat by (apply Nat.div_str_pos; lia). lia.
Qed.

(** ** Examples *)

Module SubmissionExamples.

(** Texts of scalars in a small JSON. *)
#[local] Instance plain_text : JsonText :=
  {| json_to_string v := match v with
       | JNull => Ok "null"%string
       | JBool b => Ok (if b then "true" else "false")%string
       | JNumber (PosInt n) | JNumber (NegInt n) => Ok (Z_to_string n)
       | JString s => Ok (quote +:+ s +:+ quote)
       | _ => Err "unsupported"%string
       end |}.

Definition one : Json := JObject [("b"%string, JNumber (PosInt 2)); ("a"%string, JBool true)].
Definition other : Json := JObject [("a"%string, JBool true); ("b"%string, JNumber (PosInt 2))].

Lemma canonical_text_unique_witness :
  canonicalize_json (JArray [one; JNull]) = canonicalize_json (JArray [other; JNull]) /\
  chars (canonicalize_json (JArray [one; JNull])) <> [].
Proof.
  assert (Hsame : json_same (JArray [one; JNull]) (JArray [other; JNull])).
  { apply same_array. constructor; [|repeat constructor].
    apply (same_object _ [("a"%string, JBool true); ("b"%string, JNumber (PosInt 2))]).
    - apply Permutation_swap.
    - by_compute.
    - repeat constructor. }
  split; [exact (canonical_text_unique _ _ Hsame)|]. vm_compute. discriminate.
Defined.

(** Two of three validators score between 0.4 and 0.6, one scores 1. *)
Definition scored (v : string) (score : f64) : StoredEvaluation :=
  StoredEvaluation_new 0 "c" "h" v score 1 JNull [].
Definition three : AggregatedEvaluations :=
  AggregatedEvaluations_new 0 "c" "h" "m"
    [scored "v1" (f64_lit 1 2); scored "v2" f64_one; scored "v3" (f64_lit 9 20)].

Lemma median_follows_majority_witness :
  exists y, between (f64_lit 2 5) (f64_lit 3 5) y /\
    agg_final_score (compute_median_score 1 three) = Some y.
Proof.
  assert (Hnan : Forall (fun x => is_nan x = false) (sev_score <$> successful three)) by by_compute.
  assert (Hmaj : (length (sev_score <$> successful three) / 2 <
    length (filter (between (f64_lit 2 5) (f64_lit 3 5)) (sev_score <$> successful three)))%nat) by by_compute.
  destruct (median_follows_majority 1 three (f64_lit 2 5) (f64_lit 3 5) Hnan eq_refl eq_refl Hmaj)
    as (l & x & y & _ & _ & _ & _ & _ & Hy & Hfinal).
  exists y. split; [exact Hy|exact Hfinal].
Defined.

(** Scores are clamped to [0, 1] when an evaluation is made, but not when one is
    read: the mean of two equal scores near the largest number is infinite. *)
Definition huge (v : string) : StoredEvaluation :=
  mk_StoredEvaluation "c" "h" v (SpecFloat.S754_finite false 9007199254740991 971) 1 JNull 0 []
    EvalCompleted.

Lemma even_median_overflows :
  agg_final_score (compute_median_score 1
    (AggregatedEvaluations_new 0 "c" "h" "m" [huge "v1"; huge "v2"])) =
  Some (SpecFloat.S754_infinity false).
Proof. by_compute. Qed.
End SubmissionExamples.
