(* ===== verification/StoredWeights.v ===== *)
(** * Stored weights, votes and their aggregation

    Models [crates/distributed-storage/src/weights.rs]: the weights of an epoch
    with their hash, the votes of validators, the two aggregations of votes and
    the history of a miner's weights.  [exp] of [f64] is a parameter; the bincode
    form of stored weights is that of the challenge store. *)

From Stdlib Require Import SpecFloat.
From Equations Require Import Equations.
From S2P Require Import Prelude Float64 FloatOrder Crypto RustStrings RustBytes.

(** ** Votes and weights *)

Record ValidatorWeightVote : Type := mk_ValidatorWeightVote {
  vw_validator_hotkey : string;
  vw_weights : list (string * f64);
  vw_signature : bytes;
  vw_timestamp : Z;
  vw_epoch : Z;
  vw_challenge_id : string;
  vw_stake : Z
}.

Record StoredWeights : Type := mk_StoredWeights {
  stw_challenge_id : string;
  stw_epoch : Z;
  stw_weights : list (string * f64);
  stw_validator_votes : list ValidatorWeightVote;
  stw_aggregated_at : Z;
  stw_weights_hash : bytes;
  stw_submitted_to_chain : bool;
  stw_submission_block : option Z
}.

(** [iter().find(|(k, _)| k == key).map(|(_, v)| *v)]. *)
Fixpoint find_value {K V} `{EqDecision K} (l : list (K * V)) (key : K) : option V :=
  match l with
  | [] => None
  | (k, v) :: l' => if decide (k = key) then Some v else find_value l' key
  end.

Definition get_weight (weights : list (string * f64)) (hotkey : string) : option f64 :=
  find_value weights hotkey.

(** Descending by weight: [b.1.partial_cmp(&a.1).unwrap_or(Equal)]. *)
Definition heavier (a b : string * f64) : Prop := f64_le b.2 a.2.
#[global] Instance heavier_dec : RelDecision heavier := fun a b => f64_le_dec b.2 a.2.

Definition weight_bytes (weights : list (string * f64)) : bytes :=
  weights ≫= fun x => str_bytes x.1 ++ f64_to_le_bytes x.2.

Section weights.
Context `{External}.

Definition compute_weights_hash (weights : list (string * f64)) : bytes := sha256 (weight_bytes weights).

Definition StoredWeights_new (now : Z) (challenge_id : string) (epoch : Z) (weights : list (string * f64))
    (validator_votes : list ValidatorWeightVote) : StoredWeights :=
  mk_StoredWeights challenge_id epoch weights validator_votes now (compute_weights_hash weights) false None.

Definition mark_submitted (block : Z) (w : StoredWeights) : StoredWeights :=
  mk_StoredWeights (stw_challenge_id w) (stw_epoch w) (stw_weights w) (stw_validator_votes w)
    (stw_aggregated_at w) (stw_weights_hash w) true (Some block).

Definition verify_weights_hash (w : StoredWeights) : bool :=
  bool_decide (compute_weights_hash (stw_weights w) = stw_weights_hash w).

Definition stored_get_weight (w : StoredWeights) (hotkey : string) : option f64 :=
  get_weight (stw_weights w) hotkey.

Definition top_n (n : nat) (w : StoredWeights) : list (string * f64) :=
  take n (stable_sort heavier (stw_weights w)).

Definition set_weights (weights : list (string * f64)) (w : StoredWeights) : StoredWeights :=
  mk_StoredWeights (stw_challenge_id w) (stw_epoch w) weights (stw_validator_votes w)
    (stw_aggregated_at w) (compute_weights_hash weights) (stw_submitted_to_chain w)
    (stw_submission_block w).

Definition weights_normalize (w : StoredWeights) : StoredWeights :=
  let total := f64_sum (stw_weights w).*2 in
  set_weights
    (if f64_ltb f64_zero total then (fun x => (x.1, f64_div x.2 total)) <$> stw_weights w
     else stw_weights w) w.

Definition apply_softmax (exp : f64 -> f64) (temperature : f64) (w : StoredWeights) : StoredWeights :=
  match stw_weights w with
  | [] => w
  | weights =>
      let max_weight := fold_left f64_max weights.*2 (S754_infinity true) in
      let exp_weights := (fun x => exp (f64_div (f64_sub x max_weight) temperature)) <$> weights.*2 in
      let sum_exp := f64_sum exp_weights in
      set_weights (zip_with (fun x e => (x.1, f64_div e sum_exp)) weights exp_weights) w
  end.

(** ** Votes *)

Definition ValidatorWeightVote_new (now : Z) (validator_hotkey challenge_id : string) (epoch : Z)
    (weights : list (string * f64)) (signature : bytes) (stake : Z) : ValidatorWeightVote :=
  mk_ValidatorWeightVote validator_hotkey weights signature now epoch challenge_id stake.

Definition signing_message (v : ValidatorWeightVote) : bytes :=
  str_bytes (vw_challenge_id v) ++ to_le_bytes 8 (vw_epoch v) ++ weight_bytes (vw_weights v).

Definition vote_hash (v : ValidatorWeightVote) : bytes :=
  sha256 (signing_message v ++ to_le_bytes 8 (vw_timestamp v)).

(** ** The aggregator *)

Record WeightAggregator : Type := mk_WeightAggregator {
  wag_challenge_id : string;
  wag_epoch : Z;
  wag_votes : list ValidatorWeightVote
}.

Definition WeightAggregator_new (challenge_id : string) (epoch : Z) : WeightAggregator :=
  mk_WeightAggregator challenge_id epoch [].

Definition add_vote (vote : ValidatorWeightVote) (a : WeightAggregator) : WeightAggregator :=
  if bool_decide (vw_challenge_id vote = wag_challenge_id a) && (vw_epoch vote =? wag_epoch a) then
    if existsb (fun v => bool_decide (vw_validator_hotkey v = vw_validator_hotkey vote)) (wag_votes a)
    then a
    else mk_WeightAggregator (wag_challenge_id a) (wag_epoch a) (wag_votes a ++ [vote])
  else a.

Definition vote_count (a : WeightAggregator) : nat := length (wag_votes a).
Definition votes_have_quorum (required : nat) (a : WeightAggregator) : bool :=
  (required <=? length (wag_votes a))%nat.

Definition all_hotkeys (votes : list ValidatorWeightVote) : gset string :=
  list_to_set (votes ≫= fun v => (vw_weights v).*1).

Section aggregation.
Context {HS : HashOrder string}.

(** The votes for a hotkey. *)
Definition weights_for (votes : list ValidatorWeightVote) (hotkey : string) : list f64 :=
  omap (fun v => get_weight (vw_weights v) hotkey) votes.

Definition stake_weighted (votes : list ValidatorWeightVote) (total_stake : Z) (hotkey : string) : f64 :=
  let weighted_sum := fold_left (fun acc v =>
    match get_weight (vw_weights v) hotkey with
    | Some weight => f64_add acc (f64_mul weight (f64_of_Z (vw_stake v)))
    | None => acc
    end) votes f64_zero in
  if 0 <? total_stake then f64_div weighted_sum (f64_of_Z total_stake)
  else f64_div (f64_sum (weights_for votes hotkey)) (f64_of_Z (Z.of_nat (length votes))).

Definition aggregate_stake_weighted (now : Z) (a : WeightAggregator) : StoredWeights :=
  match wag_votes a with
  | [] => StoredWeights_new now (wag_challenge_id a) (wag_epoch a) [] []
  | votes =>
      let total_stake := u64_sum (vw_stake <$> votes) in
      let final_weights := (fun h => (h, stake_weighted votes total_stake h)) <$>
        key_order (all_hotkeys votes) in
      StoredWeights_new now (wag_challenge_id a) (wag_epoch a) (stable_sort heavier final_weights) votes
  end.

Definition aggregate_median (now : Z) (a : WeightAggregator) : StoredWeights :=
  match wag_votes a with
  | [] => StoredWeights_new now (wag_challenge_id a) (wag_epoch a) [] []
  | votes =>
      let final_weights := omap (fun h =>
        match weights_for votes h with
        | [] => None
        | weights => Some (h, median (stable_sort f64_le weights))
        end) (key_order (all_hotkeys votes)) in
      StoredWeights_new now (wag_challenge_id a) (wag_epoch a) (stable_sort heavier final_weights) votes
  end.
End aggregation.
End weights.

(** ** The history of a miner *)

Record WeightHistory : Type := mk_WeightHistory {
  wh_challenge_id : string;
  wh_hotkey : string;
  wh_weights_by_epoch : list (Z * f64)
}.

Definition WeightHistory_new (challenge_id hotkey : string) : WeightHistory :=
  mk_WeightHistory challenge_id hotkey [].

(** The loop of [binary_search_by]: halves the window until one element is left;
    [cmp i] compares the element at [i] with the key. *)
Equations? narrow (cmp : nat -> comparison) (base size : nat) : nat by wf size lt :=
  narrow cmp base size with decide (1 < size)%nat => {
    | left _ => narrow cmp (match cmp (base + size / 2)%nat with Gt => base | _ => base + size / 2 end)%nat
                  (size - size / 2)
    | right _ => base }.
Proof. pose proof (Nat.div_str_pos size 2). lia. Qed.

(** [binary_search_by_key(&key, |(e, _)| *e).unwrap_or_else(|p| p)]. *)
Definition search_position (l : list (Z * f64)) (key : Z) : nat :=
  let cmp i := match l !! i with Some x => Z.compare x.1 key | None => Gt end in
  match l with
  | [] => 0%nat
  | _ => let base := narrow cmp 0 (length l) in
         match cmp base with Lt => S base | _ => base end
  end.

Definition add_weight (epoch : Z) (weight : f64) (h : WeightHistory) : WeightHistory :=
  let l := wh_weights_by_epoch h in
  let pos := search_position l epoch in
  mk_WeightHistory (wh_challenge_id h) (wh_hotkey h)
    match l !! pos with
    | Some (e, _) => if e =? epoch then <[pos := (e, weight)]> l else take pos l ++ (epoch, weight) :: drop pos l
    | None => take pos l ++ (epoch, weight) :: drop pos l
    end.

Definition latest_weight (h : WeightHistory) : option (Z * f64) := last (wh_weights_by_epoch h).

Definition weight_at_epoch (h : WeightHistory) (epoch : Z) : option f64 :=
  find_value (wh_weights_by_epoch h) epoch.

Definition moving_average (n : nat) (h : WeightHistory) : option f64 :=
  match drop (length (wh_weights_by_epoch h) - n) (wh_weights_by_epoch h) with
  | [] => None
  | ws => Some (f64_div (f64_sum ws.*2) (f64_of_Z (Z.of_nat (length ws))))
  end.

(** * Theorems about stored weights

    The history of a miner is a map from epochs to weights; the aggregator
    counts one vote per validator; an aggregation lists every hotkey once and
    carries the hash of its weights; the median weight follows the majority. *)

(** ** Binary search *)

Definition epoch_lt (x y : Z * f64) : Prop := x.1 < y.1.

Lemma narrow_spec cmp base size :
  (0 < size)%nat -> (forall i j, (i <= j)%nat -> cmp i = Gt -> cmp j = Gt) ->
  (forall i, (base + size <= i)%nat -> cmp i = Gt) -> (base = 0%nat \/ cmp base <> Gt) ->
  let r := narrow cmp base size in
  (r = 0%nat \/ cmp r <> Gt) /\ forall i, (r < i)%nat -> cmp i = Gt.
Proof.
  intros Hs Hmono. funelim (narrow cmp base size); intros Hright Hbase; cbv zeta.
  - apply H; clear H Heqcall.
    + pose proof (Nat.div_lt size 2). lia.
    + done.
    + intros i Hi. destruct (cmp (base + size / 2)%nat) eqn:Hc.
      * apply Hright. lia.
      * apply Hright. lia.
      * apply (Hmono (base + size / 2)%nat); [|done].
        pose proof (Nat.Div0.mul_div_le size 2). lia.
    + destruct (cmp (base + size / 2)%nat) eqn:Hc; [right|right|done]; by rewrite Hc.
  - split; [done|]. intros i Hi. apply Hright. lia.
Qed.

(** The position splits a sorted history at the epoch. *)
Lemma search_position_split l key :
  StronglySorted epoch_lt l ->
  let pos := search_position l key in
  (forall x, x ∈ take pos l -> x.1 < key) /\ (forall x, x ∈ drop pos l -> key <= x.1).
Proof.
  intros Hs. set (cmp i := match l !! i with Some x => Z.compare x.1 key | None => Gt end).
  assert (Hlt : forall i j x y, l !! i = Some x -> l !! j = Some y -> (i < j)%nat -> x.1 < y.1).
  { intros i j x y. by apply (StronglySorted_lookup epoch_lt). }
  assert (Hmono : forall i j, (i <= j)%nat -> cmp i = Gt -> cmp j = Gt).
  { intros i j Hij. unfold cmp. destruct (l !! j) as [y|] eqn:Hj; [|done].
    destruct (l !! i) as [x|] eqn:Hi; [|by apply lookup_lt_Some in Hj; apply lookup_ge_None in Hi; lia].
    rewrite !Z.compare_gt_iff. intros Hx. destruct (decide (i = j)) as [->|]; [congruence|].
    specialize (Hlt i j x y Hi Hj). lia. }
  destruct l as [|z l0]; [by split; intros x Hx; apply not_elem_of_nil in Hx|].
  set (l := z :: l0) in *.
  destruct (narrow_spec cmp 0 (length l)) as [Hr Hright]; [simpl; lia|done| |by left|].
  { intros i Hi. unfold cmp. by rewrite lookup_ge_None_2. }
  set (r := narrow cmp 0 (length l)) in *.
  assert (Hpos : search_position l key = match cmp r with Lt => S r | _ => r end) by done.
  cbv zeta. rewrite Hpos. clear Hpos. split.
  - intros x [i [Hi Hir]]%elem_of_take. destruct (cmp r) eqn:Hc.
    + unfold cmp in Hc. destruct (l !! r) as [y|] eqn:Hy; [|done]. apply Z.compare_eq in Hc.
      specialize (Hlt i r x y Hi Hy Hir). lia.
    + unfold cmp in Hc. destruct (l !! r) as [y|] eqn:Hy; [|done]. rewrite Z.compare_lt_iff in Hc.
      destruct (decide (i = r)) as [->|]; [congruence|]. specialize (Hlt i r x y Hi Hy). lia.
    + destruct Hr as [->|]; [lia|done].
  - intros x Hx. apply list_elem_of_lookup in Hx as [i Hi]. rewrite lookup_drop in Hi.
    assert (Hge : cmp (match cmp r with Lt => S r | _ => r end + i)%nat <> Lt).
    { destruct (cmp r) eqn:Hc; [|rewrite Hright by lia; done|].
      - destruct i; [rewrite Nat.add_0_r, Hc; done|rewrite Hright by lia; done].
      - rewrite (Hmono r) by (lia || done). done. }
    unfold cmp in Hge at 1. rewrite Hi in Hge. by apply Z.compare_ge_iff in Hge.
Qed.

(** ** The history is a map *)

Lemma add_weight_split epoch w h :
  StronglySorted epoch_lt (wh_weights_by_epoch h) ->
  exists l1 l2, wh_weights_by_epoch (add_weight epoch w h) = l1 ++ (epoch, w) :: l2 /\
    (wh_weights_by_epoch h = l1 ++ l2 \/ exists w0, wh_weights_by_epoch h = l1 ++ (epoch, w0) :: l2) /\
    (forall x, x ∈ l1 -> x.1 < epoch) /\ (forall x, x ∈ l2 -> epoch < x.1).
Proof.
  intros Hs. destruct (search_position_split _ epoch Hs) as [Hl Hr]. unfold add_weight.
  set (l := wh_weights_by_epoch h) in *. set (pos := search_position l epoch) in *.
  cbn [wh_weights_by_epoch]. rewrite <- (take_drop pos l) in Hs at 1.
  destruct (l !! pos) as [[e w0]|] eqn:Hp.
  - pose proof (drop_S l _ _ Hp) as Hd. rewrite Hd in Hs, Hr.
    apply StronglySorted_app_1_r, StronglySorted_inv in Hs as [_ Hall].
    rewrite list.Forall_forall in Hall. unfold epoch_lt in Hall. simpl in Hall.
    destruct (Z.eqb_spec e epoch) as [->|Hne].
    + exists (take pos l), (drop (S pos) l). split; [|split; [|split; [done|]]].
      * rewrite insert_take_drop by (by eapply lookup_lt_Some). done.
      * right. exists w0. by rewrite <- Hd, take_drop.
      * intros x Hx. by apply Hall.
    + exists (take pos l), (drop pos l). split; [done|]. split; [left; by rewrite take_drop|].
      split; [done|]. intros x Hx. rewrite Hd in Hx.
      assert (epoch < e) by (specialize (Hr (e, w0) (list_elem_of_here _ _)); simpl in Hr; lia).
      apply elem_of_cons in Hx as [-> |Hx]; [done|]. specialize (Hall x Hx). lia.
  - apply lookup_ge_None in Hp. exists (take pos l), (drop pos l).
    split; [done|]. split; [left; by rewrite take_drop|]. split; [done|].
    intros x Hx. rewrite drop_ge in Hx by done. by apply not_elem_of_nil in Hx.
Qed.

Lemma find_value_app {K V} `{EqDecision K} (l1 l2 : list (K * V)) k :
  find_value (l1 ++ l2) k = match find_value l1 k with Some v => Some v | None => find_value l2 k end.
Proof. induction l1 as [|[k' v] l1 IH]; [done|]. simpl. by case_decide. Qed.

Lemma find_value_None {K V} `{EqDecision K} (l : list (K * V)) k :
  (forall x, x ∈ l -> x.1 <> k) -> find_value l k = None.
Proof.
  induction l as [|[k' v] l IH]; intros Hl; [done|]. simpl. case_decide as Hk.
  - destruct (Hl (k', v)); [left|done].
  - apply IH. intros x Hx. apply Hl. by right.
Qed.

Lemma StronglySorted_insert l1 l2 x :
  StronglySorted epoch_lt (l1 ++ l2) -> (forall y, y ∈ l1 -> epoch_lt y x) -> (forall y, y ∈ l2 -> epoch_lt x y) ->
  StronglySorted epoch_lt (l1 ++ x :: l2).
Proof.
  intros Hs H1 H2. apply StronglySorted_app. split_and!.
  - intros y z Hy [-> |Hz]%elem_of_cons; [by apply H1|]. by eapply StronglySorted_app_1_elem_of.
  - by eapply StronglySorted_app_1_l.
  - constructor; [by eapply StronglySorted_app_1_r|]. by apply list.Forall_forall.
Qed.

Lemma add_weight_correct epoch w h :
  StronglySorted epoch_lt (wh_weights_by_epoch h) ->
  StronglySorted epoch_lt (wh_weights_by_epoch (add_weight epoch w h)) /\
  forall e, weight_at_epoch (add_weight epoch w h) e =
    if decide (e = epoch) then Some w else weight_at_epoch h e.
Proof.
  intros Hs. destruct (add_weight_split epoch w h Hs) as (l1 & l2 & Hl & Hold & H1 & H2).
  unfold weight_at_epoch. rewrite Hl. split.
  - apply StronglySorted_insert; [|done|done]. destruct Hold as [Ho|[w0 Ho]]; rewrite Ho in Hs; [done|].
    apply StronglySorted_app in Hs as (Hx & Hy & Hz). apply StronglySorted_inv in Hz as [Hz _].
    apply StronglySorted_app. split_and!; [|done|done]. intros x y Hx' Hy'. apply Hx; [done|by right].
  - intros e. case_decide as He.
    + subst e. rewrite find_value_app, find_value_None by (intros x Hx; specialize (H1 x Hx); lia).
      simpl. by rewrite decide_True.
    + destruct Hold as [Ho|[w0 Ho]]; rewrite Ho, !find_value_app; simpl; by rewrite ?decide_False.
Qed.

Definition add_weights (l : list (Z * f64)) (h : WeightHistory) : WeightHistory :=
  fold_left (fun h x => add_weight x.1 x.2 h) l h.

(** The weights recorded last, per epoch. *)
Definition recorded (l : list (Z * f64)) : gmap Z f64 := fold_left (fun m x => <[x.1 := x.2]> m) l ∅.

(** The history of a miner is a map: whatever the order in which weights are
    added, the list stays strictly sorted by epoch, each epoch has the weight
    added last for it, and the latest weight is that of the highest epoch. *)
Theorem weight_history_is_map challenge_id hotkey l :
  let h := add_weights l (WeightHistory_new challenge_id hotkey) in
  StronglySorted epoch_lt (wh_weights_by_epoch h) /\
  (forall e, weight_at_epoch h e = recorded l !! e) /\
  match latest_weight h with
  | Some (e, w) => recorded l !! e = Some w /\ forall e', is_Some (recorded l !! e') -> e' <= e
  | None => recorded l = ∅
  end.
Proof.
  intros h. assert (Hboth : StronglySorted epoch_lt (wh_weights_by_epoch h) /\
    forall e, weight_at_epoch h e = recorded l !! e).
  { unfold h, add_weights, recorded. induction l as [|x l IH] using rev_ind.
    - split; [constructor|]. intros e. cbn [fold_left]. by rewrite lookup_empty.
    - rewrite !fold_left_app. simpl. destruct IH as [Hs Hw].
      destruct (add_weight_correct x.1 x.2 _ Hs) as [Hs' Hw']. split; [done|].
      intros e. rewrite Hw'. case_decide as He; [subst e; by rewrite lookup_insert_eq|].
      rewrite lookup_insert_ne by done. apply Hw. }
  destruct Hboth as [Hs Hw]. split_and!; [done|done|]. unfold latest_weight.
  set (wl := wh_weights_by_epoch h) in *. destruct (last wl) as [[e w]|] eqn:Hlast.
  - apply last_Some in Hlast as [wl' Hwl]. split.
    + rewrite <- Hw. unfold weight_at_epoch. fold wl. rewrite Hwl, find_value_app, find_value_None.
      * simpl. by rewrite decide_True.
      * intros x Hx. assert (Hlt : epoch_lt x (e, w)); [|unfold epoch_lt in Hlt; simpl in Hlt; lia].
        rewrite Hwl in Hs. eapply StronglySorted_app_1_elem_of; [exact Hs|done|by left].
    + intros e'. rewrite <- Hw. unfold weight_at_epoch. fold wl. intros [w' Hf].
      destruct (decide (e' <= e)) as [|Hgt]; [done|]. rewrite find_value_None in Hf; [done|].
      intros x Hx. rewrite Hwl in Hx. apply elem_of_app in Hx as [Hx|Hx].
      * assert (Hlt : epoch_lt x (e, w)); [|unfold epoch_lt in Hlt; simpl in Hlt; lia].
        rewrite Hwl in Hs. eapply StronglySorted_app_1_elem_of; [exact Hs|done|by left].
      * apply list_elem_of_singleton in Hx as ->. simpl. lia.
  - apply last_None in Hlast. apply map_eq. intros e. rewrite <- Hw, lookup_empty.
    unfold weight_at_epoch. fold wl. by rewrite Hlast.
Qed.

(** ** Votes *)

Definition collect_votes (votes : list ValidatorWeightVote) (a : WeightAggregator) : WeightAggregator :=
  fold_left (fun a v => add_vote v a) votes a.

Record votes_ok (a : WeightAggregator) : Prop := {
  vo_once : NoDup (vw_validator_hotkey <$> wag_votes a);
  vo_ours : forall v, v ∈ wag_votes a -> vw_challenge_id v = wag_challenge_id a /\ vw_epoch v = wag_epoch a
}.

(** The first of the votes that a validator cast in a challenge and epoch. *)
Definition first_vote (c : string) (e : Z) (votes : list ValidatorWeightVote) (hotkey : string) :
    option ValidatorWeightVote :=
  head (filter (fun v => vw_validator_hotkey v = hotkey /\ vw_challenge_id v = c /\ vw_epoch v = e) votes).

Lemma existsb_hotkey hotkey (votes : list ValidatorWeightVote) :
  existsb (fun v => bool_decide (vw_validator_hotkey v = hotkey)) votes = true <->
  hotkey ∈ vw_validator_hotkey <$> votes.
Proof.
  rewrite existsb_exists, list_elem_of_fmap. setoid_rewrite bool_decide_eq_true.
  split; intros (v & H1 & H2); exists v.
  - by rewrite list_elem_of_In.
  - by rewrite <- list_elem_of_In.
Qed.

Lemma add_vote_cases v a :
  add_vote v a =
    if decide (vw_challenge_id v = wag_challenge_id a /\ vw_epoch v = wag_epoch a /\
               vw_validator_hotkey v ∉ vw_validator_hotkey <$> wag_votes a)
    then mk_WeightAggregator (wag_challenge_id a) (wag_epoch a) (wag_votes a ++ [v]) else a.
Proof.
  unfold add_vote. pose proof (existsb_hotkey (vw_validator_hotkey v) (wag_votes a)) as He.
  case_bool_decide as Hc; simpl; [|case_decide; naive_solver].
  destruct (Z.eqb_spec (vw_epoch v) (wag_epoch a)); [|case_decide; naive_solver].
  destruct (existsb _ _); case_decide; naive_solver.
Qed.

Lemma add_vote_ok v a : votes_ok a -> votes_ok (add_vote v a).
Proof.
  intros [H1 H2]. rewrite add_vote_cases. case_decide as Hd; [|done]. destruct Hd as (Hc & He & Hn).
  split; simpl.
  - rewrite fmap_app. apply NoDup_app. split; [done|]. split; [|apply NoDup_singleton].
    intros x Hx ->%list_elem_of_singleton. done.
  - intros w [Hw| ->%list_elem_of_singleton]%elem_of_app; [by apply H2|done].
Qed.

Lemma collect_votes_id votes a :
  wag_challenge_id (collect_votes votes a) = wag_challenge_id a /\
  wag_epoch (collect_votes votes a) = wag_epoch a.
Proof.
  revert a. induction votes as [|v votes IH]; intros a; [done|]. cbn [collect_votes fold_left].
  fold (collect_votes votes (add_vote v a)). destruct (IH (add_vote v a)) as [-> ->].
  rewrite add_vote_cases. by case_decide.
Qed.

(** The votes kept are the first ones. *)
Definition keeps_first (c : string) (e : Z) (votes : list ValidatorWeightVote) (a : WeightAggregator) : Prop :=
  forall v, v ∈ wag_votes a <-> first_vote c e votes (vw_validator_hotkey v) = Some v.

Lemma first_vote_snoc c e votes v hotkey :
  first_vote c e (votes ++ [v]) hotkey =
    match first_vote c e votes hotkey with
    | Some x => Some x
    | None => if decide (vw_validator_hotkey v = hotkey /\ vw_challenge_id v = c /\ vw_epoch v = e)
              then Some v else None
    end.
Proof.
  unfold first_vote. rewrite filter_app, head_app, filter_cons, filter_nil.
  destruct (head (filter _ votes)); [done|]. by case_decide.
Qed.

Lemma keeps_first_None c e votes a hotkey :
  keeps_first c e votes a ->
  hotkey ∉ vw_validator_hotkey <$> wag_votes a <-> first_vote c e votes hotkey = None.
Proof.
  intros Hk. rewrite list_elem_of_fmap. split.
  - intros Hn. destruct (first_vote c e votes hotkey) as [x|] eqn:Hx; [|done].
    assert (Hxw : vw_validator_hotkey x = hotkey).
    { unfold first_vote in Hx. apply head_Some_elem_of, list_elem_of_filter in Hx as [[? _] _]. done. }
    destruct Hn. exists x. split; [done|]. apply Hk. by rewrite Hxw.
  - intros Hn (x & Hx & Hxin). apply Hk in Hxin. rewrite <- Hx in Hxin. congruence.
Qed.

Lemma add_vote_keeps_first votes v a :
  keeps_first (wag_challenge_id a) (wag_epoch a) votes a ->
  keeps_first (wag_challenge_id a) (wag_epoch a) (votes ++ [v]) (add_vote v a).
Proof.
  intros Hk w. rewrite first_vote_snoc, add_vote_cases.
  pose proof (fun h => keeps_first_None _ _ _ _ h Hk) as Hnone. case_decide as Hd; cbn [wag_votes].
  - destruct Hd as (Hvc & Hve & Hvn). rewrite elem_of_app, list_elem_of_singleton, (Hk w). split.
    + intros [Hw| ->]; [by rewrite Hw|]. rewrite (proj1 (Hnone _) Hvn). by rewrite decide_True.
    + destruct (first_vote _ _ votes (vw_validator_hotkey w)); [by left|].
      case_decide; [|done]. intros [= ->]. by right.
  - rewrite (Hk w). destruct (first_vote _ _ votes (vw_validator_hotkey w)) as [x|] eqn:Hx; [done|].
    case_decide as Hd2; [|done]. split; [done|]. intros [= ->]. destruct Hd.
    destruct Hd2 as (_ & ? & ?). split_and!; [done|done|]. by apply Hnone.
Qed.

(** The aggregator counts one vote per validator: of all votes offered it keeps,
    for each validator, exactly the first one cast for its challenge and epoch. *)
Theorem one_vote_per_validator c e votes :
  let a := collect_votes votes (WeightAggregator_new c e) in
  NoDup (vw_validator_hotkey <$> wag_votes a) /\
  forall v, v ∈ wag_votes a <-> first_vote c e votes (vw_validator_hotkey v) = Some v.
Proof.
  intros a. assert (Hall : votes_ok a /\ keeps_first c e votes a); [|by destruct Hall as [[H1 _] H2]].
  unfold a. induction votes as [|v votes IH] using rev_ind.
  - split; [split; [constructor|]; intros v Hv; by apply not_elem_of_nil in Hv|].
    intros v. simpl. split; [intros Hv; by apply not_elem_of_nil in Hv|done].
  - destruct IH as [Hok Hk]. destruct (collect_votes_id votes (WeightAggregator_new c e)) as [Hc He].
    unfold collect_votes in *. rewrite fold_left_app. cbn [fold_left].
    split; [by apply add_vote_ok|]. cbn in Hc, He.
    pose proof (add_vote_keeps_first votes v (fold_left (fun a v => add_vote v a) votes
      (WeightAggregator_new c e))) as Hstep. rewrite Hc, He in Hstep. by apply Hstep.
Qed.

(** ** Aggregations *)

Section aggregation.
Context `{External} `{HS : !HashOrder string}.

Lemma elem_of_all_hotkeys votes h :
  h ∈ all_hotkeys votes <-> exists v, v ∈ votes /\ h ∈ (vw_weights v).*1.
Proof.
  unfold all_hotkeys. rewrite elem_of_list_to_set, list_elem_of_bind.
  split; intros (v & H1 & H2); exists v; done.
Qed.

Lemma find_value_is_Some {V} (l : list (string * V)) k : k ∈ l.*1 -> is_Some (find_value l k).
Proof.
  induction l as [|[k' v] l IH]; simpl; [intros Hk; by apply not_elem_of_nil in Hk|].
  intros [-> |Hk]%elem_of_cons; [rewrite decide_True by done; by eexists|]. case_decide; [by eexists|auto].
Qed.

Lemma weights_for_nonempty votes h : h ∈ all_hotkeys votes -> weights_for votes h <> [].
Proof.
  intros (v & Hv & Hh)%elem_of_all_hotkeys Hnil. destruct (find_value_is_Some _ _ Hh) as [w Hw].
  apply (not_elem_of_nil w). rewrite <- Hnil. unfold weights_for. apply list_elem_of_omap. by exists v.
Qed.

Lemma median_entries votes :
  omap (fun h => match weights_for votes h with
    | [] => None
    | weights => Some (h, median (stable_sort f64_le weights))
    end) (key_order (all_hotkeys votes)) =
  (fun h => (h, median (stable_sort f64_le (weights_for votes h)))) <$> key_order (all_hotkeys votes).
Proof.
  assert (Hin : forall h, h ∈ key_order (all_hotkeys votes) -> weights_for votes h <> []).
  { intros h Hh. apply weights_for_nonempty. apply elem_of_elements. by rewrite <- key_order_perm. }
  induction (key_order (all_hotkeys votes)) as [|h l IH]; [done|]. cbn [omap list_omap fmap list_fmap].
  destruct (weights_for votes h) as [|w ws] eqn:Hw; [by destruct (Hin h (list_elem_of_here _ _))|].
  rewrite <- Hw. f_equal. apply IH. intros h' Hh'. apply Hin. by right.
Qed.

Lemma find_value_perm {V} (l l' : list (string * V)) k :
  NoDup l.*1 -> l ≡ₚ l' -> find_value l k = find_value l' k.
Proof.
  intros Hnd Hp. revert Hnd. induction Hp as [|[x v] l l' Hp IH|[x v] [y w] l|l l' l'' Hp1 IH1 Hp2 IH2]; intros Hnd.
  - done.
  - simpl in *. apply NoDup_cons in Hnd as [_ Hnd]. by rewrite IH.
  - simpl in *. apply NoDup_cons in Hnd as [Hx _]. do 2 case_decide; try done. subst. set_solver.
  - rewrite IH1 by done. apply IH2. by rewrite <- Hp1.
Qed.

Lemma find_value_fmap (f : string -> f64) l k :
  find_value ((fun h => (h, f h)) <$> l) k = if decide (k ∈ l) then Some (f k) else None.
Proof.
  induction l as [|h l IH]; [done|]. cbn [fmap list_fmap find_value].
  destruct (decide (h = k)) as [->|Hne]; [by rewrite decide_True by left|].
  rewrite IH. destruct (decide (k ∈ l)), (decide (k ∈ h :: l)); set_solver.
Qed.

(** The entries of an aggregation, whatever the order of the hash set. *)
Lemma aggregated_entries (votes : list ValidatorWeightVote) (f : string -> f64) :
  let ws := stable_sort heavier ((fun h => (h, f h)) <$> key_order (all_hotkeys votes)) in
  NoDup ws.*1 /\
  forall h, find_value ws h = if decide (h ∈ all_hotkeys votes) then Some (f h) else None.
Proof.
  intros ws. set (l := (fun h => (h, f h)) <$> key_order (all_hotkeys votes)) in *.
  assert (Hnd : NoDup l.*1).
  { unfold l. rewrite <- list_fmap_compose, list_fmap_id by done. rewrite key_order_perm. apply NoDup_elements. }
  assert (Hp : ws ≡ₚ l) by apply stable_sort_perm. split; [by rewrite Hp|].
  intros h. rewrite (find_value_perm ws l) by (by rewrite Hp). unfold l. rewrite find_value_fmap.
  apply decide_ext. rewrite key_order_perm. apply elem_of_elements.
Qed.

(** Both aggregations give every hotkey that some vote weighs exactly one
    weight - its stake-weighted mean or its median - and no other hotkey any,
    whatever the iteration order of the set of hotkeys; the stored hash is that
    of the weights. *)
Theorem aggregation_exact now a :
  let sw := aggregate_stake_weighted now a in
  let md := aggregate_median now a in
  verify_weights_hash sw = true /\ verify_weights_hash md = true /\
  NoDup (stw_weights sw).*1 /\ NoDup (stw_weights md).*1 /\
  forall h,
    stored_get_weight sw h =
      (if decide (h ∈ all_hotkeys (wag_votes a))
       then Some (stake_weighted (wag_votes a) (u64_sum (vw_stake <$> wag_votes a)) h) else None) /\
    stored_get_weight md h =
      (if decide (h ∈ all_hotkeys (wag_votes a))
       then Some (median (stable_sort f64_le (weights_for (wag_votes a) h))) else None).
Proof.
  intros sw md. unfold sw, md, aggregate_stake_weighted, aggregate_median, verify_weights_hash, stored_get_weight, get_weight.
  destruct (wag_votes a) as [|v votes].
  - split_and!; [by apply bool_decide_eq_true_2..|constructor|constructor|].
    intros h. simpl. split; by case_decide.
  - set (vs := v :: votes). rewrite median_entries.
    destruct (aggregated_entries vs (stake_weighted vs (u64_sum (vw_stake <$> vs)))) as [Hs1 Hs2].
    destruct (aggregated_entries vs (fun h => median (stable_sort f64_le (weights_for vs h)))) as [Hm1 Hm2].
    split_and!; [by apply bool_decide_eq_true_2..|done|done|]. intros h. split; [apply Hs2|apply Hm2].
Qed.
End aggregation.

(** Changing stored weights through their operations keeps their hash right. *)
Lemma weights_hash_kept `{External} exp temperature block w :
  verify_weights_hash w = true ->
  verify_weights_hash (weights_normalize w) = true /\
  verify_weights_hash (apply_softmax exp temperature w) = true /\
  verify_weights_hash (mark_submitted block w) = true.
Proof.
  intros Hw. split_and!; [by apply bool_decide_eq_true_2| |done].
  unfold apply_softmax. destruct (stw_weights w); [done|by apply bool_decide_eq_true_2].
Qed.

(** What a vote signs covers neither its stake nor its validator. *)
Lemma stake_not_signed v stake hotkey :
  signing_message (mk_ValidatorWeightVote hotkey (vw_weights v) (vw_signature v) (vw_timestamp v)
    (vw_epoch v) (vw_challenge_id v) stake) = signing_message v.
Proof. done. Qed.

(** ** Examples *)

Module WeightExamples.
Import Toy.

Definition tie : WeightAggregator :=
  add_vote (ValidatorWeightVote_new 0 "v" "c" 1 [("m1"%string, f64_one); ("m2"%string, f64_one)] [] 1)
    (WeightAggregator_new "c" 1).

(** Equal weights are ordered as the set of hotkeys is iterated, so the stored
    hash of the same votes differs between nodes. *)
Lemma tie_order_dependent :
  (stw_weights (aggregate_median (HS := elements_order string) 0 tie)).*1 <>
  (stw_weights (aggregate_median (HS := reverse_order string) 0 tie)).*1.
Proof. vm_compute. discriminate. Qed.
End WeightExamples.
