(* ===== verification/ChallengeStore.v ===== *)
(** * The challenge store

    Models [crates/distributed-storage/src/challenge_store.rs]: the store of one
    challenge on top of any [DistributedStore], with the cache of leaf hashes, the
    Merkle proofs of everything it writes, the rebuilding of the cache, and the
    registry of the stores of all challenges on one shared storage.  A
    [BTreeMap] is a finite map iterated in the order of its keys.  The JSON and
    bincode forms of the records are a parameter. *)

From S2P Require Import Prelude Float64 Crypto RustStrings RustBytes Messages Merkle DStore Submission StoredWeights.

(** ** Ordered maps *)

(** A [BTreeMap<String, V>] in iteration order. *)
Definition string_iter {V} (m : gmap string V) : list (string * V) := stable_sort member_le (map_to_list m).

(** [keys().position(|k| k == key)]. *)
Definition position {K} `{EqDecision K} (key : K) (keys : list K) : option nat :=
  fst <$> list_find (fun k => k = key) keys.

(** ** Proofs *)

Definition hash_bytes `{External} (data : bytes) : bytes := sha256 data.

Record ChallengeProof : Type := mk_ChallengeProof {
  cp_root : bytes;
  cp_path : list MerkleNode;
  cp_leaf_index : nat;
  cp_leaf_hash : bytes
}.

Section proofs.
Context `{External}.

Definition proof_verify (proof : ChallengeProof) (data : bytes) : bool :=
  if decide (hash_bytes data <> cp_leaf_hash proof) then false
  else bool_decide (fold_left verify_step (cp_path proof) (cp_leaf_hash proof) = cp_root proof).

Definition build_challenge_proof (leaves : list bytes) (leaf_index : nat) (data : bytes) : ChallengeProof :=
  match leaves !! leaf_index with
  | None => mk_ChallengeProof zero32 [] leaf_index (hash_bytes data)
  | Some leaf_hash =>
      mk_ChallengeProof (compute_merkle_root leaves) (merkle_path leaves leaf_index) leaf_index leaf_hash
  end.
End proofs.

(** ** The cache of leaves *)

Record LeafCache : Type := mk_LeafCache {
  lc_submissions : gmap string bytes;
  lc_evaluations : gmap string bytes;
  lc_weights : gmap Z bytes
}.

Definition LeafCache_new : LeafCache := mk_LeafCache ∅ ∅ ∅.

Definition all_leaves (c : LeafCache) : list bytes :=
  (string_iter (lc_submissions c)).*2 ++ (string_iter (lc_evaluations c)).*2 ++
  (number_iter (lc_weights c)).*2.

Definition submission_index (c : LeafCache) (key : string) : option nat :=
  position key (string_iter (lc_submissions c)).*1.
Definition evaluation_index (c : LeafCache) (key : string) : option nat :=
  (fun idx => size (lc_submissions c) + idx)%nat <$> position key (string_iter (lc_evaluations c)).*1.
Definition weights_index (c : LeafCache) (epoch : Z) : option nat :=
  (fun idx => size (lc_submissions c) + size (lc_evaluations c) + idx)%nat <$>
    position epoch (number_iter (lc_weights c)).*1.

(** ** Stored forms *)

Class StoreCodec : Type := {
  encode_submission : StoredSubmission -> result string bytes;
  decode_submission : bytes -> result string StoredSubmission;
  encode_evaluation : StoredEvaluation -> result string bytes;
  decode_evaluation : bytes -> result string StoredEvaluation;
  encode_weights : StoredWeights -> result string bytes;
  decode_weights : bytes -> result string StoredWeights
}.

Definition MAX_DESERIALIZE_SIZE : Z := 10 * 1024 * 1024.

(** What is written can be read back; weights only up to the size limit that
    reading has. *)
Class StoreCodecLaws `{StoreCodec} : Prop := {
  decode_encode_submission : forall x b, encode_submission x = Ok b -> decode_submission b = Ok x;
  decode_encode_evaluation : forall x b, encode_evaluation x = Ok b -> decode_evaluation b = Ok x;
  decode_encode_weights : forall x b, encode_weights x = Ok b ->
    Z.of_nat (length b) <= MAX_DESERIALIZE_SIZE -> decode_weights b = Ok x
}.

(** ** The store of a challenge *)

Record ChallengeStore (S : Type) : Type := mk_ChallengeStore {
  cs_inner : S;
  cs_challenge_id : string;
  cs_leaf_cache : LeafCache
}.
Arguments mk_ChallengeStore {S}.
Arguments cs_inner {S}.
Arguments cs_challenge_id {S}.
Arguments cs_leaf_cache {S}.

Definition ChallengeStore_new {S} (store : S) (challenge_id : string) : ChallengeStore S :=
  mk_ChallengeStore store challenge_id LeafCache_new.

Definition challenge_namespace (challenge_id category : string) : string :=
  category +:+ ":" +:+ challenge_id.
Definition submission_key (challenge_id hash : string) : StorageKey :=
  StorageKey_new (challenge_namespace challenge_id "submissions") (str_bytes hash).
Definition evaluation_key (challenge_id submission_hash validator : string) : StorageKey :=
  StorageKey_new (challenge_namespace challenge_id "evaluations")
    (str_bytes (submission_hash +:+ ":" +:+ validator)).
Definition evaluations_prefix (submission_hash : string) : string := submission_hash +:+ ":".
Definition weights_key (challenge_id : string) (epoch : Z) : StorageKey :=
  StorageKey_new (challenge_namespace challenge_id "weights") (str_bytes (Z_to_string epoch)).

Section store.
Context `{External} `{StoreCodec} {S : Type} `{DistributedStore S}.

Abbreviation StoreM := (SE (ChallengeStore S) StorageError).

Definition on_inner {A} (m : SE S StorageError A) : StoreM A := fun c =>
  let '(r, s) := m (cs_inner c) in (r, mk_ChallengeStore s (cs_challenge_id c) (cs_leaf_cache c)).
Definition update_cache (f : LeafCache -> LeafCache) : StoreM unit :=
  modify (fun c => mk_ChallengeStore (cs_inner c) (cs_challenge_id c) (f (cs_leaf_cache c))).

Definition encode_with {A} (encode : A -> result string bytes) (x : A) : StoreM bytes :=
  lift (result_map_err SerializationError (encode x)).

(** The [generate_proof_for_*] functions: they differ in the index and the
    message. *)
Definition generate_proof (index : LeafCache -> option nat) (missing : string) (data : bytes) :
    StoreM ChallengeProof :=
  c ← get_state;
  leaf_index ← lift (ok_or (index (cs_leaf_cache c)) (InternalStorageError missing));
  mret (build_challenge_proof (all_leaves (cs_leaf_cache c)) leaf_index data).

Definition generate_proof_for_submission (hash : string) (data : bytes) : StoreM ChallengeProof :=
  generate_proof (fun c => submission_index c hash) "Submission not in cache" data.
Definition generate_proof_for_evaluation (cache_key : string) (data : bytes) : StoreM ChallengeProof :=
  generate_proof (fun c => evaluation_index c cache_key) "Evaluation not in cache" data.
Definition generate_proof_for_weights (epoch : Z) (data : bytes) : StoreM ChallengeProof :=
  generate_proof (fun c => weights_index c epoch) "Weights not in cache" data.

Definition store_submission (now : Z) (hash : string) (data : StoredSubmission) : StoreM ChallengeProof :=
  c ← get_state;
  b ← encode_with encode_submission data;
  _ ← on_inner (ds_put now (submission_key (cs_challenge_id c) hash) b PutOptions_default);
  _ ← update_cache (fun l => mk_LeafCache (<[hash := hash_bytes b]> (lc_submissions l))
        (lc_evaluations l) (lc_weights l));
  generate_proof_for_submission hash b.

Definition get_submission (now : Z) (hash : string) : StoreM (option StoredSubmission) :=
  c ← get_state;
  r ← on_inner (ds_get now (submission_key (cs_challenge_id c) hash) GetOptions_default);
  match r with
  | Some stored =>
      x ← lift (result_map_err SerializationError (decode_submission (sv_data stored)));
      mret (Some x)
  | None => mret None
  end.

Definition decoded {A} (decode : bytes -> result string A) (items : list (StorageKey * StoredValue)) :
    list A :=
  omap (fun x => match decode (sv_data x.2) with Ok a => Some a | Err _ => None end) items.

Definition list_submissions (now : Z) (limit : nat) : StoreM (list StoredSubmission) :=
  c ← get_state;
  r ← on_inner (ds_list_prefix now (challenge_namespace (cs_challenge_id c) "submissions") None limit None);
  mret (decoded decode_submission (lr_items r)).

Definition store_evaluation (now : Z) (submission_hash validator : string) (eval : StoredEvaluation) :
    StoreM ChallengeProof :=
  c ← get_state;
  b ← encode_with encode_evaluation eval;
  _ ← on_inner (ds_put now (evaluation_key (cs_challenge_id c) submission_hash validator) b
        PutOptions_default);
  let cache_key := submission_hash +:+ ":" +:+ validator in
  _ ← update_cache (fun l => mk_LeafCache (lc_submissions l)
        (<[cache_key := hash_bytes b]> (lc_evaluations l)) (lc_weights l));
  generate_proof_for_evaluation cache_key b.

Definition get_evaluations (now : Z) (submission_hash : string) : StoreM (list StoredEvaluation) :=
  c ← get_state;
  r ← on_inner (ds_list_prefix now (challenge_namespace (cs_challenge_id c) "evaluations")
        (Some (str_bytes (evaluations_prefix submission_hash))) 1000 None);
  mret (decoded decode_evaluation (lr_items r)).

Definition store_weights (now : Z) (epoch : Z) (weights : StoredWeights) : StoreM ChallengeProof :=
  c ← get_state;
  b ← encode_with encode_weights weights;
  _ ← on_inner (ds_put now (weights_key (cs_challenge_id c) epoch) b PutOptions_default);
  _ ← update_cache (fun l => mk_LeafCache (lc_submissions l) (lc_evaluations l)
        (<[epoch := hash_bytes b]> (lc_weights l)));
  generate_proof_for_weights epoch b.

Definition get_weights (now : Z) (epoch : Z) : StoreM (option StoredWeights) :=
  c ← get_state;
  r ← on_inner (ds_get now (weights_key (cs_challenge_id c) epoch) GetOptions_default);
  match r with
  | Some stored =>
      x ← lift (result_map_err SerializationError (decode_weights (sv_data stored)));
      mret (Some x)
  | None => mret None
  end.

Definition verify_submission (now : Z) (hash : string) (proof : ChallengeProof) : StoreM bool := fun c =>
  match on_inner (ds_get now (submission_key (cs_challenge_id c) hash) GetOptions_default) c with
  | (Ok (Some stored), c) => (Ok (proof_verify proof (sv_data stored)), c)
  | (_, c) => (Ok false, c)
  end.

Definition compute_state_root (c : ChallengeStore S) : bytes :=
  match all_leaves (cs_leaf_cache c) with
  | [] => zero32
  | leaves => compute_merkle_root leaves
  end.

(** The loops of [rebuild_cache]. *)
Definition load_strings (items : list (StorageKey * StoredValue)) (m : gmap string bytes) :
    gmap string bytes :=
  fold_left (fun m x => match key_string x.1 with
    | Some k => <[k := hash_bytes (sv_data x.2)]> m
    | None => m
    end) items m.
Definition load_weights (items : list (StorageKey * StoredValue)) (m : gmap Z bytes) : gmap Z bytes :=
  fold_left (fun m x => match key_string x.1 ≫= parse_uint u64_max with
    | Some epoch => <[epoch := hash_bytes (sv_data x.2)]> m
    | None => m
    end) items m.

Definition rebuild_cache (now : Z) : StoreM unit :=
  _ ← update_cache (fun _ => LeafCache_new);
  c ← get_state;
  let ns category := challenge_namespace (cs_challenge_id c) category in
  submissions ← on_inner (ds_list_prefix now (ns "submissions") None 10000 None);
  _ ← update_cache (fun l => mk_LeafCache (load_strings (lr_items submissions) (lc_submissions l))
        (lc_evaluations l) (lc_weights l));
  evaluations ← on_inner (ds_list_prefix now (ns "evaluations") None (10 * 10000) None);
  _ ← update_cache (fun l => mk_LeafCache (lc_submissions l)
        (load_strings (lr_items evaluations) (lc_evaluations l)) (lc_weights l));
  weights ← on_inner (ds_list_prefix now (ns "weights") None 10000 None);
  update_cache (fun l => mk_LeafCache (lc_submissions l) (lc_evaluations l)
    (load_weights (lr_items weights) (lc_weights l))).
End store.

(** ** The registry

    All stores share the storage; each has its own cache. *)

Record ChallengeStoreRegistry (S : Type) : Type := mk_ChallengeStoreRegistry {
  rg_inner : S;
  rg_stores : gmap string LeafCache
}.
Arguments mk_ChallengeStoreRegistry {S}.
Arguments rg_inner {S}.
Arguments rg_stores {S}.

Definition Registry_new {S} (store : S) : ChallengeStoreRegistry S := mk_ChallengeStoreRegistry store ∅.

(** The registry with a store for the challenge, and that store. *)
Definition get_or_create {S} (challenge_id : string) (r : ChallengeStoreRegistry S) :
    ChallengeStore S * ChallengeStoreRegistry S :=
  match rg_stores r !! challenge_id with
  | Some cache => (mk_ChallengeStore (rg_inner r) challenge_id cache, r)
  | None => (ChallengeStore_new (rg_inner r) challenge_id,
             mk_ChallengeStoreRegistry (rg_inner r) (<[challenge_id := LeafCache_new]> (rg_stores r)))
  end.

(** An operation on the store that [get_or_create] returns. *)
Definition in_challenge {S A} (challenge_id : string) (m : SE (ChallengeStore S) StorageError A) :
    SE (ChallengeStoreRegistry S) StorageError A := fun r =>
  let '(c, r) := get_or_create challenge_id r in
  let '(a, c) := m c in
  (a, mk_ChallengeStoreRegistry (cs_inner c) (<[challenge_id := cs_leaf_cache c]> (rg_stores r))).

Definition list_challenges {S} (r : ChallengeStoreRegistry S) : list string :=
  (string_iter (rg_stores r)).*1.
