(* ===== verification/ChallengeStoreProps.v ===== *)
(** * Theorems about the challenge store

    The proofs it returns verify against its state root; on a storage that
    behaves as a map the registry of challenge stores refines one table of
    contents per challenge. *)

From S2P Require Import Prelude Float64 Crypto RustStrings RustBytes Messages Merkle DStore Submission StoredWeights ChallengeStore.

(** ** Positions *)

Lemma position_lookup {K V} `{EqDecision K} (l : list (K * V)) k v :
  NoDup l.*1 -> (k, v) ∈ l -> exists i, position k l.*1 = Some i /\ l.*2 !! i = Some v.
Proof.
  intros Hnd Hin. unfold position.
  destruct (list_find_elem_of (fun x => x = k) l.*1 k) as [[i k'] Hf]; [|done|].
  { apply list_elem_of_fmap. by exists (k, v). }
  rewrite Hf. apply list_find_Some in Hf as (Hi & -> & _). exists i. split; [done|].
  apply list_elem_of_lookup in Hin as [j Hj].
  assert (i = j) as ->; [|by rewrite list_lookup_fmap, Hj].
  apply (NoDup_lookup l.*1 i j k Hnd Hi). by rewrite list_lookup_fmap, Hj.
Qed.

Lemma string_iter_perm {V} (m : gmap string V) : string_iter m ≡ₚ map_to_list m.
Proof. apply stable_sort_perm. Qed.

Lemma length_string_iter {V} (m : gmap string V) : length (string_iter m) = size m.
Proof. by rewrite string_iter_perm, length_map_to_list. Qed.

Lemma string_position {V} (m : gmap string V) k v :
  m !! k = Some v ->
  exists i, position k (string_iter m).*1 = Some i /\ (string_iter m).*2 !! i = Some v.
Proof.
  intros Hm. apply position_lookup.
  - rewrite string_iter_perm. apply NoDup_fst_map_to_list.
  - rewrite string_iter_perm. by apply elem_of_map_to_list.
Qed.

Lemma number_position {V} (m : gmap Z V) k v :
  m !! k = Some v ->
  exists i, position k (number_iter m).*1 = Some i /\ (number_iter m).*2 !! i = Some v.
Proof.
  intros Hm. apply position_lookup.
  - rewrite number_iter_perm. apply NoDup_fst_map_to_list.
  - rewrite number_iter_perm. by apply elem_of_map_to_list.
Qed.

(** The index of each kind of leaf is its place among all leaves. *)
Lemma submission_leaf c k h : lc_submissions c !! k = Some h ->
  exists i, submission_index c k = Some i /\ all_leaves c !! i = Some h.
Proof.
  intros (i & Hi & Hl)%string_position. exists i. split; [done|].
  unfold all_leaves. by apply lookup_app_l_Some.
Qed.

Lemma evaluation_leaf c k h : lc_evaluations c !! k = Some h ->
  exists i, evaluation_index c k = Some i /\ all_leaves c !! i = Some h.
Proof.
  intros (i & Hi & Hl)%string_position. unfold evaluation_index. rewrite Hi. eexists. split; [done|].
  unfold all_leaves. rewrite lookup_app_r by (rewrite length_fmap, length_string_iter; lia).
  rewrite length_fmap, length_string_iter. apply lookup_app_l_Some. by rewrite Nat.add_comm, Nat.add_sub.
Qed.

Lemma weights_leaf c e h : lc_weights c !! e = Some h ->
  exists i, weights_index c e = Some i /\ all_leaves c !! i = Some h.
Proof.
  intros (i & Hi & Hl)%number_position. unfold weights_index. rewrite Hi. eexists. split; [done|].
  unfold all_leaves. rewrite !lookup_app_r; rewrite !length_fmap, !length_string_iter; [|lia..].
  rewrite <- Hl. f_equal. lia.
Qed.

(** ** Proofs *)

Section proofs.
Context `{External} `{StoreCodec} {S : Type} `{DistributedStore S}.

Lemma state_root_eq (c : ChallengeStore S) :
  compute_state_root c = compute_merkle_root (all_leaves (cs_leaf_cache c)).
Proof. unfold compute_state_root. by destruct (all_leaves (cs_leaf_cache c)). Qed.

Lemma built_proof leaves i data :
  leaves !! i = Some (hash_bytes data) ->
  proof_verify (build_challenge_proof leaves i data) data = true /\
  cp_root (build_challenge_proof leaves i data) = compute_merkle_root leaves.
Proof.
  intros Hi. unfold build_challenge_proof, proof_verify. rewrite Hi. cbn [cp_root cp_path cp_leaf_hash].
  split; [|done]. rewrite decide_False by (intros Hne; by apply Hne). apply bool_decide_eq_true_2.
  rewrite compute_merkle_root_reduce. by apply merkle_path_verifies.
Qed.

(** What [generate_proof] answers for a leaf that is there. *)
Lemma generate_proof_ok index missing data (c : ChallengeStore S) i :
  index (cs_leaf_cache c) = Some i -> all_leaves (cs_leaf_cache c) !! i = Some (hash_bytes data) ->
  exists p, generate_proof index missing data c = (Ok p, c) /\
    p = build_challenge_proof (all_leaves (cs_leaf_cache c)) i data /\
    proof_verify p data = true /\ cp_root p = compute_state_root c.
Proof.
  intros Hidx Hleaf. eexists. split; [|split; [done|]].
  - unfold generate_proof, mbind, SE_bind, get_state, lift. rewrite Hidx. done.
  - rewrite state_root_eq. by apply built_proof.
Qed.

(** A write that succeeds: the proof verifies for the written bytes and has the
    new state root; a write that fails leaves the cache alone. *)
Definition proof_ok {A} (encode : A -> result string bytes) (x : A) (c : ChallengeStore S)
    (out : result StorageError ChallengeProof * ChallengeStore S) : Prop :=
  match out with
  | (Ok p, c') => exists b, encode x = Ok b /\ proof_verify p b = true /\ cp_root p = compute_state_root c'
  | (Err _, c') => cs_leaf_cache c' = cs_leaf_cache c
  end.

(** Every write encodes, puts, updates the cache and generates the proof. *)
Lemma store_proof_ok {A} (encode : A -> result string bytes) (x : A) now key f index missing c :
  (forall b l, exists i, index (f b l) = Some i /\ all_leaves (f b l) !! i = Some (hash_bytes b)) ->
  proof_ok encode x c
    ((b ← encode_with encode x;
      _ ← on_inner (ds_put now key b PutOptions_default);
      _ ← update_cache (f b);
      generate_proof index missing b) c).
Proof.
  intros Hindex. unfold encode_with, lift, mbind, SE_bind. destruct (encode x) as [b|e] eqn:He; [|done].
  cbn [result_map_err]. unfold on_inner.
  destruct (ds_put now key b PutOptions_default (cs_inner c)) as [[meta|e] s]; [|done].
  unfold update_cache, modify. cbn [cs_inner cs_challenge_id cs_leaf_cache].
  destruct (Hindex b (cs_leaf_cache c)) as (i & Hi & Hleaf).
  destruct (generate_proof_ok index missing b
    (mk_ChallengeStore s (cs_challenge_id c) (f b (cs_leaf_cache c))) i Hi Hleaf) as (p & -> & _ & Hv & Hr).
  by exists b.
Qed.

(** C23. Every proof the challenge store hands out is good: storing a submission,
    an evaluation or weights either fails, leaving the tree of leaves as it was, or
    returns a Merkle proof that verifies for the bytes written and whose root is the
    state root of the challenge after the write - on any storage. *)
Theorem stored_proofs_verify now (c : ChallengeStore S) :
  (forall hash x, proof_ok encode_submission x c (store_submission now hash x c)) /\
  (forall hash validator x, proof_ok encode_evaluation x c (store_evaluation now hash validator x c)) /\
  (forall epoch x, proof_ok encode_weights x c (store_weights now epoch x c)).
Proof.
  split_and!; intros; apply store_proof_ok; intros b l; cbn.
  - apply submission_leaf. cbn. by rewrite lookup_insert_eq.
  - apply evaluation_leaf. cbn. by rewrite lookup_insert_eq.
  - apply weights_leaf. cbn. by rewrite lookup_insert_eq.
Qed.
End proofs.

(** ** A storage that is a map

    What the challenge store needs of its storage: on keys in use and values
    that fit, writing and reading act as on one map. *)
Class KeyValueStore (S : Type) `{DistributedStore S} (K : StorageKey -> Prop) (fits : bytes -> Prop)
    (inv : S -> gmap StorageKey bytes -> Prop) : Prop := {
  kv_put : forall now k v s m, inv s m -> K k -> fits v -> Z.of_nat (size m) < u64_max ->
    exists meta s', ds_put now k v PutOptions_default s = (Ok meta, s') /\ inv s' (<[k := v]> m);
  kv_get : forall now k s m, inv s m -> K k ->
    exists r s', ds_get now k GetOptions_default s = (Ok r, s') /\ sv_data <$> r = m !! k /\ inv s' m
}.

(** ** The contents of the challenges *)

Record Contents : Type := mk_Contents {
  ct_submissions : gmap string StoredSubmission;
  ct_evaluations : gmap string StoredEvaluation;
  ct_weights : gmap Z StoredWeights
}.
Definition no_contents : Contents := mk_Contents ∅ ∅ ∅.

Inductive registry_op : Type :=
| StoreSubmission (now : Z) (c hash : string) (x : StoredSubmission)
| GetSubmission (now : Z) (c hash : string)
| StoreEvaluation (now : Z) (c hash validator : string) (x : StoredEvaluation)
| StoreWeights (now : Z) (c : string) (epoch : Z) (x : StoredWeights)
| GetWeights (now : Z) (c : string) (epoch : Z).

Inductive registry_answer : Type :=
| AnsProof (p : ChallengeProof)
| AnsSubmission (x : option StoredSubmission)
| AnsWeights (x : option StoredWeights).

Section registry.
Context `{External} `{StoreCodec} `{!StoreCodecLaws}.
Context {S : Type} `{DistributedStore S} (K : StorageKey -> Prop) (fits : bytes -> Prop)
  (inv : S -> gmap StorageKey bytes -> Prop) `{!KeyValueStore S K fits inv}.

Definition run_registry_op (o : registry_op) : SE (ChallengeStoreRegistry S) StorageError registry_answer :=
  match o with
  | StoreSubmission now c hash x => p ← in_challenge c (store_submission now hash x); mret (AnsProof p)
  | GetSubmission now c hash => x ← in_challenge c (get_submission now hash); mret (AnsSubmission x)
  | StoreEvaluation now c hash validator x =>
      p ← in_challenge c (store_evaluation now hash validator x); mret (AnsProof p)
  | StoreWeights now c epoch x => p ← in_challenge c (store_weights now epoch x); mret (AnsProof p)
  | GetWeights now c epoch => x ← in_challenge c (get_weights now epoch); mret (AnsWeights x)
  end.

(** *** The specification *)

Definition encoded {A} (encode : A -> result string bytes) (x : A) : bytes :=
  match encode x with Ok b => b | Err _ => [] end.
Definition leaf {A} (encode : A -> result string bytes) (x : A) : bytes := hash_bytes (encoded encode x).

Definition cache_of (ct : Contents) : LeafCache :=
  mk_LeafCache (leaf encode_submission <$> ct_submissions ct) (leaf encode_evaluation <$> ct_evaluations ct)
    (leaf encode_weights <$> ct_weights ct).

Implicit Type cts : gmap string Contents.
Definition contents_of cts (c : string) : Contents := default no_contents (cts !! c).

Definition spec_proof (ct : Contents) (index : LeafCache -> option nat) (data : bytes) : registry_answer :=
  AnsProof (build_challenge_proof (all_leaves (cache_of ct)) (default 0%nat (index (cache_of ct))) data).

Definition spec_registry_op (o : registry_op) cts : registry_answer * gmap string Contents :=
  match o with
  | StoreSubmission _ c hash x =>
      let old := contents_of cts c in
      let ct := mk_Contents (<[hash := x]> (ct_submissions old)) (ct_evaluations old) (ct_weights old) in
      (spec_proof ct (fun l => submission_index l hash) (encoded encode_submission x), <[c := ct]> cts)
  | GetSubmission _ c hash => (AnsSubmission (ct_submissions (contents_of cts c) !! hash), cts)
  | StoreEvaluation _ c hash validator x =>
      let old := contents_of cts c in
      let key := hash +:+ ":" +:+ validator in
      let ct := mk_Contents (ct_submissions old) (<[key := x]> (ct_evaluations old)) (ct_weights old) in
      (spec_proof ct (fun l => evaluation_index l key) (encoded encode_evaluation x), <[c := ct]> cts)
  | StoreWeights _ c epoch x =>
      let old := contents_of cts c in
      let ct := mk_Contents (ct_submissions old) (ct_evaluations old) (<[epoch := x]> (ct_weights old)) in
      (spec_proof ct (fun l => weights_index l epoch) (encoded encode_weights x), <[c := ct]> cts)
  | GetWeights _ c epoch => (AnsWeights (ct_weights (contents_of cts c) !! epoch), cts)
  end.

(** The key of an operation is in use, and what it stores can be stored. *)
Definition writable {A} (encode : A -> result string bytes) (x : A) : Prop :=
  exists b, encode x = Ok b /\ fits b.

Definition registry_op_ok (o : registry_op) : Prop :=
  match o with
  | StoreSubmission _ c hash x => K (submission_key c hash) /\ writable encode_submission x
  | GetSubmission _ c hash => K (submission_key c hash)
  | StoreEvaluation _ c hash validator x =>
      K (evaluation_key c hash validator) /\ writable encode_evaluation x
  | StoreWeights _ c epoch x => K (weights_key c epoch) /\ writable encode_weights x /\
      Z.of_nat (length (encoded encode_weights x)) <= MAX_DESERIALIZE_SIZE
  | GetWeights _ c epoch => K (weights_key c epoch)
  end.

(** *** The relation *)

(** The map holds the contents: each record under its key. *)
Record in_map (m : gmap StorageKey bytes) cts : Prop := {
  im_submissions : forall c hash,
    m !! submission_key c hash = encoded encode_submission <$> ct_submissions (contents_of cts c) !! hash;
  im_evaluations : forall c key,
    m !! StorageKey_new (challenge_namespace c "evaluations") (str_bytes key) =
      encoded encode_evaluation <$> ct_evaluations (contents_of cts c) !! key;
  im_weights : forall c epoch,
    m !! weights_key c epoch = encoded encode_weights <$> ct_weights (contents_of cts c) !! epoch
}.

(** Stored records can be read back. *)
Record readable cts : Prop := {
  rd_submissions : forall c hash x, ct_submissions (contents_of cts c) !! hash = Some x ->
    decode_submission (encoded encode_submission x) = Ok x;
  rd_weights : forall c epoch x, ct_weights (contents_of cts c) !! epoch = Some x ->
    decode_weights (encoded encode_weights x) = Ok x
}.

Record registry_holds (r : ChallengeStoreRegistry S) cts (n : nat) : Prop := {
  rh_storage : exists m, inv (rg_inner r) m /\ (size m <= n)%nat /\ in_map m cts;
  rh_caches : forall c, default LeafCache_new (rg_stores r !! c) = cache_of (contents_of cts c);
  rh_readable : readable cts
}.

Lemma contents_of_insert cts c ct c' :
  contents_of (<[c := ct]> cts) c' = if decide (c = c') then ct else contents_of cts c'.
Proof.
  unfold contents_of. case_decide; [subst; by rewrite lookup_insert_eq|by rewrite lookup_insert_ne].
Qed.

Lemma challenge_namespace_inj c c' a b :
  a ∈ ["submissions"; "evaluations"; "weights"]%string -> b ∈ ["submissions"; "evaluations"; "weights"]%string ->
  challenge_namespace c a = challenge_namespace c' b -> a = b /\ c = c'.
Proof.
  rewrite !elem_of_cons. unfold challenge_namespace.
  intros [-> |[-> |[-> |Ha%not_elem_of_nil]]] [-> |[-> |[-> |Hb%not_elem_of_nil]]]; try done;
    simpl; intros Heq; simplify_eq; done.
Qed.

Lemma StorageKey_new_inj ns k ns' k' : StorageKey_new ns k = StorageKey_new ns' k' -> ns = ns' /\ k = k'.
Proof. intros Heq. split; [exact (f_equal sk_namespace Heq)|exact (f_equal sk_key Heq)]. Qed.

(** A write under one category and challenge reaches no other record. *)
Lemma namespaced_key_inj c a k c' b k' :
  a ∈ ["submissions"; "evaluations"; "weights"]%string -> b ∈ ["submissions"; "evaluations"; "weights"]%string ->
  StorageKey_new (challenge_namespace c a) (str_bytes k) = StorageKey_new (challenge_namespace c' b) (str_bytes k') ->
  a = b /\ c = c' /\ k = k'.
Proof.
  intros Ha Hb [Hn Hk]%StorageKey_new_inj. apply (challenge_namespace_inj _ _ _ _ Ha Hb) in Hn as [-> ->].
  by apply str_bytes_inj in Hk as ->.
Qed.

Lemma insert_namespaced {V} (m : gmap StorageKey V) c a k c' b k' v :
  a ∈ ["submissions"; "evaluations"; "weights"]%string -> b ∈ ["submissions"; "evaluations"; "weights"]%string ->
  <[StorageKey_new (challenge_namespace c a) (str_bytes k) := v]> m !!
    StorageKey_new (challenge_namespace c' b) (str_bytes k') =
  if decide (a = b /\ c = c' /\ k = k') then Some v
  else m !! StorageKey_new (challenge_namespace c' b) (str_bytes k').
Proof.
  intros Ha Hb. case_decide as Hd.
  - destruct Hd as (-> & -> & ->). by rewrite lookup_insert_eq.
  - rewrite lookup_insert_ne; [done|]. intros Heq. apply Hd. by apply namespaced_key_inj.
Qed.

Lemma in_map_submission m cts c hash x :
  in_map m cts ->
  let old := contents_of cts c in
  in_map (<[submission_key c hash := encoded encode_submission x]> m)
    (<[c := mk_Contents (<[hash := x]> (ct_submissions old)) (ct_evaluations old) (ct_weights old)]> cts).
Proof.
  intros [Hs He Hw] old. split; intros c' k; rewrite contents_of_insert.
  - unfold submission_key at 1 2. rewrite insert_namespaced by set_solver.
    destruct (decide (c = c')) as [<-|Hc]; cbn [ct_submissions].
    + destruct (decide (hash = k)) as [<-|Hk]; [by rewrite decide_True, lookup_insert_eq|].
      rewrite decide_False, lookup_insert_ne by naive_solver. apply Hs.
    + rewrite decide_False by naive_solver. apply Hs.
  - unfold submission_key. rewrite insert_namespaced by set_solver. rewrite decide_False by naive_solver.
    rewrite He. by case_decide; subst.
  - unfold submission_key, weights_key. rewrite insert_namespaced by set_solver.
    rewrite decide_False by naive_solver. fold (weights_key c' k). rewrite Hw. by case_decide; subst.
Qed.

Lemma in_map_evaluation m cts c key x :
  in_map m cts ->
  let old := contents_of cts c in
  in_map (<[StorageKey_new (challenge_namespace c "evaluations") (str_bytes key) := encoded encode_evaluation x]> m)
    (<[c := mk_Contents (ct_submissions old) (<[key := x]> (ct_evaluations old)) (ct_weights old)]> cts).
Proof.
  intros [Hs He Hw] old. split; intros c' k; rewrite contents_of_insert.
  - unfold submission_key. rewrite insert_namespaced by set_solver. rewrite decide_False by naive_solver.
    fold (submission_key c' k). rewrite Hs. by case_decide; subst.
  - rewrite insert_namespaced by set_solver.
    destruct (decide (c = c')) as [<-|Hc]; cbn [ct_evaluations].
    + destruct (decide (key = k)) as [<-|Hk]; [by rewrite decide_True, lookup_insert_eq|].
      rewrite decide_False, lookup_insert_ne by naive_solver. apply He.
    + rewrite decide_False by naive_solver. apply He.
  - unfold weights_key. rewrite insert_namespaced by set_solver.
    rewrite decide_False by naive_solver. fold (weights_key c' k). rewrite Hw. by case_decide; subst.
Qed.

Lemma in_map_weights m cts c epoch x :
  in_map m cts ->
  let old := contents_of cts c in
  in_map (<[weights_key c epoch := encoded encode_weights x]> m)
    (<[c := mk_Contents (ct_submissions old) (ct_evaluations old) (<[epoch := x]> (ct_weights old))]> cts).
Proof.
  intros [Hs He Hw] old. split; intros c' k; rewrite contents_of_insert.
  - unfold submission_key, weights_key. rewrite insert_namespaced by set_solver. rewrite decide_False by naive_solver.
    fold (submission_key c' k). rewrite Hs. by case_decide; subst.
  - unfold weights_key. rewrite insert_namespaced by set_solver. rewrite decide_False by naive_solver.
    rewrite He. by case_decide; subst.
  - unfold weights_key at 1 2. rewrite insert_namespaced by set_solver.
    destruct (decide (c = c')) as [<-|Hc]; cbn [ct_weights].
    + destruct (decide (epoch = k)) as [<-|Hk]; [by rewrite decide_True, lookup_insert_eq|].
      rewrite decide_False, lookup_insert_ne; [apply Hw|done|].
      intros (_ & _ & Hz). by apply (inj Z_to_string) in Hz.
    + rewrite decide_False by naive_solver. apply Hw.
Qed.

(** *** Steps *)

Lemma in_challenge_eq {A} c (m : SE (ChallengeStore S) StorageError A) (r : ChallengeStoreRegistry S) :
  in_challenge c m r =
    let '(a, c') := m (mk_ChallengeStore (rg_inner r) c (default LeafCache_new (rg_stores r !! c))) in
    (a, mk_ChallengeStoreRegistry (cs_inner c') (<[c := cs_leaf_cache c']> (rg_stores r))).
Proof.
  unfold in_challenge, get_or_create, ChallengeStore_new. destruct (rg_stores r !! c); simpl;
    destruct (m _) as [a c']; [done|]. by rewrite insert_insert_eq.
Qed.

(** A write, as all three operations do it. *)
Lemma store_step {A} (encode : A -> result string bytes) (x : A) now key c f index missing r cts n ct' :
  registry_holds r cts n -> K key -> writable encode x -> Z.of_nat n < u64_max ->
  f (encoded encode x) (cache_of (contents_of cts c)) = cache_of ct' ->
  (exists i, index (cache_of ct') = Some i /\ all_leaves (cache_of ct') !! i = Some (leaf encode x)) ->
  (forall m, in_map m cts -> in_map (<[key := encoded encode x]> m) (<[c := ct']> cts)) ->
  readable (<[c := ct']> cts) ->
  exists p r', in_challenge c (b ← encode_with encode x;
      _ ← on_inner (ds_put now key b PutOptions_default);
      _ ← update_cache (f b);
      generate_proof index missing b) r = (Ok p, r') /\
    AnsProof p = spec_proof ct' index (encoded encode x) /\ registry_holds r' (<[c := ct']> cts) (Datatypes.S n).
Proof.
  intros [(m & Hinv & Hsize & Hmap) Hcaches _] HKk (b & Hb & Hfits) Hn Hf (i & Hi & Hleaf) Hmap' Hread.
  assert (Henc : encoded encode x = b) by (unfold encoded; by rewrite Hb).
  unfold leaf in Hleaf. rewrite Henc in *.
  destruct (kv_put now key b _ _ Hinv HKk Hfits) as (meta & s' & Hput & Hinv'); [lia|].
  rewrite in_challenge_eq. unfold encode_with, lift, mbind at 1, SE_bind at 1. rewrite Hb. cbn [result_map_err].
  unfold mbind, SE_bind, on_inner. cbn [cs_inner]. rewrite Hput. unfold update_cache, modify.
  cbn [cs_inner cs_challenge_id cs_leaf_cache]. rewrite Hcaches, Hf.
  destruct (generate_proof_ok index missing b (mk_ChallengeStore s' c (cache_of ct')) i Hi Hleaf)
    as (p & -> & -> & _). eexists _, _. split; [done|]. split.
  - unfold spec_proof. by rewrite Hi.
  - split; cbn [rg_inner rg_stores cs_inner cs_leaf_cache].
    + exists (<[key := b]> m). split; [done|]. split; [|by apply Hmap'].
      pose proof (map_size_insert_le m key b). lia.
    + intros c'. rewrite contents_of_insert. case_decide as Hc; [subst; by rewrite lookup_insert_eq|].
      by rewrite lookup_insert_ne.
    + done.
Qed.

Lemma registry_holds_le r cts n n' : registry_holds r cts n -> (n <= n')%nat -> registry_holds r cts n'.
Proof.
  intros [(m & Hinv & Hsize & Hmap) Hc Hr] Hle. split; [|done|done]. exists m. split_and!; [done|lia|done].
Qed.

(** A read, as both operations do it. *)
Lemma read_step {A} (decode : bytes -> result string A) now key c r cts n x :
  registry_holds r cts n -> K key ->
  (forall m, in_map m cts -> match m !! key with Some b => exists y, decode b = Ok y /\ x = Some y | None => x = None end) ->
  exists r', in_challenge c (v ← on_inner (ds_get now key GetOptions_default);
      match v with
      | Some stored => y ← lift (result_map_err SerializationError (decode (sv_data stored))); mret (Some y)
      | None => mret None
      end) r = (Ok x, r') /\ registry_holds r' cts (Datatypes.S n).
Proof.
  intros [(m & Hinv & Hsize & Hmap) Hcaches Hread] HKk Hx.
  destruct (kv_get now key _ _ Hinv HKk) as (v & s' & Hget & Hv & Hinv').
  rewrite in_challenge_eq. unfold mbind at 1, SE_bind at 1, on_inner. cbn [cs_inner]. rewrite Hget.
  specialize (Hx m Hmap). rewrite <- Hv in Hx.
  exists (mk_ChallengeStoreRegistry s' (<[c := default LeafCache_new (rg_stores r !! c)]> (rg_stores r))). split.
  - destruct v as [stored|]; simpl in Hx.
    + destruct Hx as (y & Hy & ->). unfold mbind, SE_bind, lift. rewrite Hy. done.
    + rewrite Hx. done.
  - apply (registry_holds_le _ _ n); [|lia]. split; cbn [rg_inner rg_stores]; [by exists m| |done].
    intros c'. rewrite <- Hcaches. destruct (decide (c = c')) as [<-|]; [by rewrite lookup_insert_eq|].
    by rewrite lookup_insert_ne.
Qed.

Lemma readable_insert cts c ct :
  readable cts ->
  (forall hash x, ct_submissions ct !! hash = Some x -> decode_submission (encoded encode_submission x) = Ok x) ->
  (forall epoch x, ct_weights ct !! epoch = Some x -> decode_weights (encoded encode_weights x) = Ok x) ->
  readable (<[c := ct]> cts).
Proof. intros [Hrs Hrw] Hs Hw. split; intros c' k x; rewrite contents_of_insert; case_decide; eauto. Qed.

Lemma writable_submission x :
  writable encode_submission x -> decode_submission (encoded encode_submission x) = Ok x.
Proof. intros (b & Hb & _). unfold encoded. rewrite Hb. by apply decode_encode_submission. Qed.

Lemma writable_weights x :
  writable encode_weights x -> Z.of_nat (length (encoded encode_weights x)) <= MAX_DESERIALIZE_SIZE ->
  decode_weights (encoded encode_weights x) = Ok x.
Proof. intros (b & Hb & _). unfold encoded. rewrite Hb. by apply decode_encode_weights. Qed.

(** The challenge an operation runs in is the one it was asked for. *)
Lemma in_challenge_state {A} c (m : ChallengeStore S -> SE (ChallengeStore S) StorageError A)
    (m' : SE (ChallengeStore S) StorageError A) r :
  (forall s l, m (mk_ChallengeStore s c l) (mk_ChallengeStore s c l) = m' (mk_ChallengeStore s c l)) ->
  in_challenge c (st ← get_state; m st) r = in_challenge c m' r.
Proof. intros Heq. rewrite !in_challenge_eq. unfold mbind, SE_bind, get_state. by rewrite Heq. Qed.

Lemma bind_answer {A} (m : SE (ChallengeStoreRegistry S) StorageError A) (f : A -> registry_answer) r a r' :
  m r = (Ok a, r') -> (x ← m; mret (f x)) r = (Ok (f a), r').
Proof. intros Hm. unfold mbind, SE_bind. by rewrite Hm. Qed.

Definition step_ok (o : registry_op) : Prop := forall r cts n,
  registry_holds r cts n -> Z.of_nat n < u64_max ->
  exists r', run_registry_op o r = (Ok (spec_registry_op o cts).1, r') /\
    registry_holds r' (spec_registry_op o cts).2 (Datatypes.S n).

Lemma store_submission_step now c hash x :
  K (submission_key c hash) -> writable encode_submission x -> step_ok (StoreSubmission now c hash x).
Proof.
  intros Hk Hx r cts n Hr Hn. pose proof (rh_readable _ _ _ Hr) as Hread. pose proof Hread as [Hrs Hrw].
  cbn [run_registry_op spec_registry_op fst snd]. set (old := contents_of cts c).
  set (ct' := mk_Contents (<[hash := x]> (ct_submissions old)) (ct_evaluations old) (ct_weights old)).
  destruct (store_step encode_submission x now (submission_key c hash) c
    (fun b l => mk_LeafCache (<[hash := hash_bytes b]> (lc_submissions l)) (lc_evaluations l) (lc_weights l))
    (fun l => submission_index l hash) "Submission not in cache" r cts n ct') as (p & r' & Hp & Hans & Hr'); try done.
  - unfold cache_of. cbn. by rewrite fmap_insert.
  - apply submission_leaf. cbn. by rewrite fmap_insert, lookup_insert_eq.
  - intros m. apply in_map_submission.
  - apply readable_insert; [done| |by apply Hrw]. cbn. intros k y [[<- <-]|[_ Hy]]%lookup_insert_Some.
    + by apply writable_submission.
    + by eapply Hrs.
  - exists r'. split; [|done]. rewrite <- Hans. apply bind_answer. rewrite <- Hp.
    by apply in_challenge_state.
Qed.

Lemma store_evaluation_step now c hash v x :
  K (evaluation_key c hash v) -> writable encode_evaluation x -> step_ok (StoreEvaluation now c hash v x).
Proof.
  intros Hk Hx r cts n Hr Hn. pose proof (rh_readable _ _ _ Hr) as Hread. pose proof Hread as [Hrs Hrw].
  cbn [run_registry_op spec_registry_op fst snd]. set (old := contents_of cts c). set (key := hash +:+ ":" +:+ v).
  set (ct' := mk_Contents (ct_submissions old) (<[key := x]> (ct_evaluations old)) (ct_weights old)).
  destruct (store_step encode_evaluation x now (evaluation_key c hash v) c
    (fun b l => mk_LeafCache (lc_submissions l) (<[key := hash_bytes b]> (lc_evaluations l)) (lc_weights l))
    (fun l => evaluation_index l key) "Evaluation not in cache" r cts n ct') as (p & r' & Hp & Hans & Hr'); try done.
  - unfold cache_of. cbn. by rewrite fmap_insert.
  - apply evaluation_leaf. cbn. by rewrite fmap_insert, lookup_insert_eq.
  - intros m. apply in_map_evaluation.
  - apply readable_insert; [done|by apply Hrs|by apply Hrw].
  - exists r'. split; [|done]. rewrite <- Hans. apply bind_answer. rewrite <- Hp.
    by apply in_challenge_state.
Qed.

Lemma store_weights_step now c e x :
  K (weights_key c e) -> writable encode_weights x ->
  Z.of_nat (length (encoded encode_weights x)) <= MAX_DESERIALIZE_SIZE -> step_ok (StoreWeights now c e x).
Proof.
  intros Hk Hx Hlen r cts n Hr Hn. pose proof (rh_readable _ _ _ Hr) as Hread. pose proof Hread as [Hrs Hrw].
  cbn [run_registry_op spec_registry_op fst snd]. set (old := contents_of cts c).
  set (ct' := mk_Contents (ct_submissions old) (ct_evaluations old) (<[e := x]> (ct_weights old))).
  destruct (store_step encode_weights x now (weights_key c e) c
    (fun b l => mk_LeafCache (lc_submissions l) (lc_evaluations l) (<[e := hash_bytes b]> (lc_weights l)))
    (fun l => weights_index l e) "Weights not in cache" r cts n ct') as (p & r' & Hp & Hans & Hr'); try done.
  - unfold cache_of. cbn. by rewrite fmap_insert.
  - apply weights_leaf. cbn. by rewrite fmap_insert, lookup_insert_eq.
  - intros m. apply in_map_weights.
  - apply readable_insert; [done|by apply Hrs|]. cbn. intros k y [[<- <-]|[_ Hy]]%lookup_insert_Some.
    + by apply writable_weights.
    + by eapply Hrw.
  - exists r'. split; [|done]. rewrite <- Hans. apply bind_answer. rewrite <- Hp.
    by apply in_challenge_state.
Qed.

Lemma get_submission_step now c hash : K (submission_key c hash) -> step_ok (GetSubmission now c hash).
Proof.
  intros Hk r cts n Hr Hn. cbn [run_registry_op spec_registry_op fst snd].
  set (x := ct_submissions (contents_of cts c) !! hash).
  destruct (read_step decode_submission now (submission_key c hash) c r cts n x Hr Hk) as (r' & Hp & Hr').
  - intros m Hm. rewrite (im_submissions _ _ Hm). fold x. destruct x as [y|] eqn:Hx; simpl; [|done].
    exists y. split; [|done]. by apply (rd_submissions _ (rh_readable _ _ _ Hr) c hash).
  - exists r'. split; [|done]. apply (bind_answer _ AnsSubmission). rewrite <- Hp. by apply in_challenge_state.
Qed.

Lemma get_weights_step now c e : K (weights_key c e) -> step_ok (GetWeights now c e).
Proof.
  intros Hk r cts n Hr Hn. cbn [run_registry_op spec_registry_op fst snd].
  set (x := ct_weights (contents_of cts c) !! e).
  destruct (read_step decode_weights now (weights_key c e) c r cts n x Hr Hk) as (r' & Hp & Hr').
  - intros m Hm. rewrite (im_weights _ _ Hm). fold x. destruct x as [y|] eqn:Hx; simpl; [|done].
    exists y. split; [|done]. by apply (rd_weights _ (rh_readable _ _ _ Hr) c e).
  - exists r'. split; [|done]. apply (bind_answer _ AnsWeights). rewrite <- Hp. by apply in_challenge_state.
Qed.

Lemma registry_step o : registry_op_ok o -> step_ok o.
Proof.
  destruct o; cbn [registry_op_ok].
  - intros [? ?]. by apply store_submission_step.
  - apply get_submission_step.
  - intros [? ?]. by apply store_evaluation_step.
  - intros (? & ? & ?). by apply store_weights_step.
  - apply get_weights_step.
Qed.

(** *** Runs *)

Fixpoint run_registry (os : list registry_op) (r : ChallengeStoreRegistry S) :
    list (result StorageError registry_answer) * ChallengeStoreRegistry S :=
  match os with
  | [] => ([], r)
  | o :: os' => let '(a, r) := run_registry_op o r in let '(l, r) := run_registry os' r in (a :: l, r)
  end.

Fixpoint spec_registry (os : list registry_op) cts : list registry_answer * gmap string Contents :=
  match os with
  | [] => ([], cts)
  | o :: os' => let '(a, cts) := spec_registry_op o cts in
                let '(l, cts) := spec_registry os' cts in (a :: l, cts)
  end.

Lemma registry_run os r cts n :
  registry_holds r cts n -> Forall registry_op_ok os -> Z.of_nat (n + length os) < u64_max ->
  (run_registry os r).1 = Ok <$> (spec_registry os cts).1 /\
  registry_holds (run_registry os r).2 (spec_registry os cts).2 (n + length os).
Proof.
  intros Hr Hok. revert r cts n Hr. induction Hok as [|o os Ho Hok IH]; intros r cts n Hr Hn.
  { cbn. by rewrite Nat.add_0_r. }
  cbn [length run_registry spec_registry] in *.
  destruct (registry_step o Ho r cts n Hr) as (r' & Hrun & Hr'); [lia|]. rewrite Hrun.
  destruct (spec_registry_op o cts) as [a cts'] eqn:Hspec. cbn [fst snd] in *.
  destruct (IH r' cts' _ Hr') as [IH1 IH2]; [lia|].
  destruct (run_registry os r') as [l r2], (spec_registry os cts') as [l' cts2]. cbn [fst snd] in *.
  rewrite IH1. split; [done|]. by rewrite Nat.add_succ_r.
Qed.

Lemma empty_registry_holds s : inv s ∅ -> registry_holds (Registry_new s) ∅ 0.
Proof.
  intros Hs. assert (Hc : forall c, contents_of ∅ c = no_contents).
  { intros c. unfold contents_of. by rewrite lookup_empty. }
  split.
  - exists ∅. split; [done|]. split; [done|]. split; intros c k; by rewrite Hc, !lookup_empty.
  - intros c. cbn. rewrite lookup_empty, Hc. unfold cache_of. cbn. by rewrite !fmap_empty.
  - split; intros c k x; rewrite Hc; cbn; by rewrite lookup_empty.
Qed.
End registry.

(** C20. The registry of challenge stores keeps one table of submissions, evaluations
    and weights per challenge: on an empty storage that behaves as a map, any
    sequence of writes and reads in any challenges answers what those tables
    answer - reads return the record written last, other challenges are not
    affected - and every proof is the proof of the leaf in the tree of exactly the
    challenge's current records, whose root is its state root. *)
Theorem registry_refines_contents `{External} `{StoreCodec} `{!StoreCodecLaws} {S} `{DistributedStore S}
    (K : StorageKey -> Prop) (fits : bytes -> Prop) (inv : S -> gmap StorageKey bytes -> Prop)
    `{!KeyValueStore S K fits inv} s os :
  inv s ∅ -> Forall (registry_op_ok K fits) os -> Z.of_nat (length os) < u64_max ->
  (run_registry os (Registry_new s)).1 = Ok <$> (spec_registry os ∅).1 /\
  forall c, compute_state_root (get_or_create c (run_registry os (Registry_new s)).2).1 =
    compute_merkle_root (all_leaves (cache_of (contents_of (spec_registry os ∅).2 c))).
Proof.
  intros Hs Hok Hn. destruct (registry_run K fits inv os _ _ 0 (empty_registry_holds inv s Hs) Hok Hn) as [Ha Hr].
  split; [done|]. intros c. rewrite state_root_eq. rewrite <- (rh_caches _ _ _ _ Hr c).
  unfold get_or_create. by destruct (rg_stores _ !! c).
Qed.
