(* ===== verification/ChallengeStoreLocal.v ===== *)
(** * The challenge store on the local storage

    The local storage provides the map that the challenge store needs, for
    challenges whose ids have no colon; with a colon the records of two challenges
    can be the same ones.  Rebuilding the cache of leaves from the local storage
    loses the weights. *)

From Stdlib Require Import Ascii.
From S2P Require Import Prelude Float64 Crypto RustStrings RustBytes Messages Merkle DStore LocalStore LocalStoreProps StorageExamples Submission StoredWeights ChallengeStore ChallengeStoreProps.

Section local.
Context `{External} `{!ExternalLaws} `{EntryCodec} `{!EntryCodecLaws}.

(** ** Keys of challenges *)

Record challenge_keys (K : StorageKey -> Prop) : Prop := {
  ck_namespace : forall k, K k -> exists category c, sk_namespace k = challenge_namespace c category /\
    plain_namespace category /\ plain_namespace c;
  ck_hash_inj : forall k k', K k -> K k' -> key_hash k = key_hash k' -> k = k';
  ck_hex_inj : forall k k', K k -> K k' -> hex_encode (sk_key k) = hex_encode (sk_key k') -> sk_key k = sk_key k'
}.

Lemma namespaced_bytes_inj category c category' c' (x x' : bytes) :
  plain_namespace category -> plain_namespace c -> plain_namespace category' -> plain_namespace c' ->
  str_bytes (challenge_namespace c category) ++ colon :: x =
    str_bytes (challenge_namespace c' category') ++ colon :: x' ->
  category = category' /\ c = c' /\ x = x'.
Proof.
  intros Hcat Hc Hcat' Hc'. unfold challenge_namespace. rewrite !str_bytes_app, <- !app_assoc.
  intros Heq. apply (app_sep_inj colon) in Heq as [Ha%str_bytes_inj Heq]; [|done|done].
  cbn [app str_bytes] in Heq. apply (app_sep_inj colon) in Heq as [Hb%str_bytes_inj Heq]; done.
Qed.

Lemma challenge_keys_sound K : challenge_keys K -> sound_keys K.
Proof.
  intros HK. split.
  - intros [ns k] [ns' k'] Hk Hk' Heq. destruct (ck_namespace _ HK _ Hk) as (a & c & Hns & Ha & Hc).
    destruct (ck_namespace _ HK _ Hk') as (a' & c' & Hns' & Ha' & Hc'). simpl in *. subst.
    apply namespaced_bytes_inj in Heq as (-> & -> & Heq); [|done..]. simpl in Heq. by subst.
  - intros [ns k] [ns' k'] Hk Hk' Heq. destruct (ck_namespace _ HK _ Hk) as (a & c & Hns & Ha & Hc).
    destruct (ck_namespace _ HK _ Hk') as (a' & c' & Hns' & Ha' & Hc'). simpl in *. subst.
    unfold index_key in Heq. simpl in Heq. rewrite !(str_bytes_app (challenge_namespace _ _)) in Heq.
    apply namespaced_bytes_inj in Heq as (-> & -> & Heq%str_bytes_inj); [|done..].
    by apply (ck_hex_inj _ HK _ _ Hk Hk') in Heq as [= ->].
  - intros k b k' b' Hk Hk' Hb Hb' Heq. unfold block_index_key in Heq.
    apply app_inj_2 in Heq as [_ Heq].
    2: { cbn [length]. rewrite !length_app, !length_to_be_bytes. cbn [length]. by rewrite !length_key_hash. }
    apply (f_equal tail) in Heq. cbn [tail] in Heq.
    apply app_inj_1 in Heq as [Hbe Hh]; [|by rewrite !length_to_be_bytes]. apply (f_equal tail) in Hh. split; [by apply (ck_hash_inj _ HK)|].
    apply (f_equal from_be_bytes) in Hbe. by rewrite !from_to_be_bytes, !Z.mod_small in Hbe.
Qed.

(** ** The local storage as a map *)

Context (K : StorageKey -> Prop) (HK : sound_keys K) (node : string).

Definition local_fits (v : bytes) : Prop := forall meta,
  vm_origin_node meta = Some node -> vm_ttl_seconds meta = 0 ->
  exists b, stored_as (mk_LocalEntry (mk_StoredValue v meta) (mk_ReplicationInfo ∅ 0 0 true) None) b.

Definition entry_data (e : LocalEntry) : bytes := sv_data (le_value e).

Definition local_inv (s : LocalStorage) (m : gmap StorageKey bytes) : Prop :=
  ls_node_id s = node /\ exists ents, represents K s ents /\ m = entry_data <$> ents /\
    forall k e, ents !! k = Some e -> vm_ttl_seconds (sv_metadata (le_value e)) = 0.

Lemma next_value_lasting now old v :
  (forall e, old = Some e -> vm_ttl_seconds (sv_metadata (le_value e)) = 0) ->
  exists meta, next_value now node old v 0 = mk_StoredValue v meta /\
    vm_origin_node meta = Some node /\ vm_ttl_seconds meta = 0.
Proof.
  intros Hold. unfold next_value. destruct old as [e|]; cbn; eexists; (split; [done|]); cbn; auto.
Qed.

#[export] Instance local_key_value_store : KeyValueStore LocalStorage K local_fits local_inv.
Proof.
  split.
  - intros now k v s m (Hnode & ents & Hr & -> & Httl) Hk Hfits Hsize. rewrite map_size_fmap in Hsize.
    destruct (next_value_lasting now (ents !! k) v (fun e => Httl k e)) as (meta & Hv & Ho & Ht).
    set (entry := mk_LocalEntry (mk_StoredValue v meta) (mk_ReplicationInfo ∅ 0 0 true) None).
    assert (Hmap : map_op (ls_node_id s) (OpPut now k v PutOptions_default) ents =
      (Ok (AnsMeta meta), <[k := entry]> ents)).
    { cbn [map_op]. unfold map_put. cbn [check_version po_expected_version PutOptions_default po_ttl_seconds].
      by rewrite Hnode, Hv. }
    assert (Hadm : admissible K (ls_node_id s) (OpPut now k v PutOptions_default) ents).
    { split; [done|]. split; [done|]. intros e. rewrite Hmap. cbn [snd op_key]. rewrite lookup_insert_eq.
      intros [= <-]. split; [by apply Hfits|done]. }
    pose proof (run_op_refines K HK _ _ _ Hr Hadm) as Hrun. rewrite Hmap in Hrun.
    destruct Hrun as (s' & Hs' & Hr' & Hn'). cbn [run_op] in Hs'. unfold mbind at 1, SE_bind at 1 in Hs'.
    change (@ds_put LocalStorage _) with local_put.
    destruct (local_put now k v PutOptions_default s) as [[meta'|x] s1]; [|done]. injection Hs' as -> ->.
    exists meta, s'. split; [done|]. split; [congruence|]. exists (<[k := entry]> ents). split; [done|].
    split; [by rewrite fmap_insert|]. intros k' e [[<- <-]|[_ He]]%lookup_insert_Some; [done|by eapply Httl].
  - intros now k s m (Hnode & ents & Hr & -> & Httl) Hk. change (@ds_get LocalStorage _) with local_get.
    unfold local_get, mbind, SE_bind, lift, get_state. rewrite (get_entry_represents K HK _ _ _ Hr Hk), lookup_fmap.
    destruct (ents !! k) as [e|] eqn:He.
    + unfold is_expired. rewrite (Httl k e He). cbn. eexists _, s. split; [done|]. split; [done|].
      split; [done|]. by exists ents.
    + exists None, s. split; [done|]. split; [done|]. split; [done|]. by exists ents.
Qed.

Lemma in_memory_inv : local_inv (LocalStorage_in_memory node) ∅.
Proof.
  split; [done|]. exists ∅. split; [apply in_memory_represents|]. split; [by rewrite fmap_empty|].
  intros k e. by rewrite lookup_empty.
Qed.
End local.

(** ** Rebuilding the cache *)

Section rebuild.
Context `{External} `{!ExternalLaws} `{EntryCodec} `{!EntryCodecLaws}.

(** The keys of a page come from the database keys scanned. *)
Lemma scan_prefix_keys now prefix limit data l items last items' last' :
  scan_prefix now prefix limit data l items last = Ok (items', last') ->
  forall x, x ∈ items' -> x ∈ items \/ exists dk, dk ∈ l.*2 /\ parse_db_key dk = Some x.1.
Proof.
  revert items last. induction l as [|[ik dk] l IH]; intros items last Hscan x Hx; cbn [scan_prefix] in Hscan.
  { injection Hscan as <- _. by left. }
  assert (Hskip : forall i la, scan_prefix now prefix limit data l i la = Ok (items', last') ->
    x ∈ i \/ exists dk', dk' ∈ ((ik, dk) :: l).*2 /\ parse_db_key dk' = Some x.1).
  { intros i la Hs. destruct (IH i la Hs x Hx) as [?|(dk' & Hdk & Hp)]; [by left|]. right. exists dk'.
    split; [by right|done]. }
  destruct (bytes_starts_with prefix ik); cbn [negb] in Hscan; [|injection Hscan as <- _; by left].
  destruct (data !! dk) as [b|]; [|by apply (Hskip _ _ Hscan)].
  destruct (decode b) as [entry|e]; [|done]. cbn [mbind result_bind] in Hscan.
  destruct (is_expired _ _); [by apply (Hskip _ _ Hscan)|].
  destruct (parse_db_key dk) as [key|] eqn:Hkey; [|by apply (Hskip _ _ Hscan)].
  assert (Hnew : x ∈ items ++ [(key, le_value entry)] ->
    x ∈ items \/ exists dk', dk' ∈ ((ik, dk) :: l).*2 /\ parse_db_key dk' = Some x.1).
  { intros [?| ->%list_elem_of_singleton]%elem_of_app; [by left|]. right. exists dk. split; [left|done]. }
  destruct (limit <=? _)%nat.
  - injection Hscan as <- _. by apply Hnew.
  - destruct (Hskip _ _ Hscan) as [Hi|Hd]; [by apply Hnew|by right].
Qed.

Lemma digits_value_digits acc l n : digits_value acc l = Some n -> forall a, a ∈ l -> is_Some (digit_value a).
Proof.
  revert acc. induction l as [|a l IH]; intros acc Hd; [intros a Ha; by apply not_elem_of_nil in Ha|].
  cbn [digits_value] in Hd. destruct (digit_value a) as [d|] eqn:Ha; [|done].
  intros b [-> |Hb]%elem_of_cons; [by eexists|]. by eapply IH.
Qed.

(** No number has a colon in it. *)
Lemma colon_not_a_number key : colon ∈ sk_key key -> key_string key ≫= parse_uint u64_max = None.
Proof.
  intros Hc. unfold key_string. destruct (utf8_valid (sk_key key)); [|done]. cbn [mbind option_bind].
  assert (Hin : ":"%char ∈ chars (bytes_str (sk_key key))).
  { unfold bytes_str. rewrite chars_of_chars. apply list_elem_of_fmap. by exists colon. }
  unfold parse_uint. set (l := chars (bytes_str (sk_key key))) in *.
  assert (Hin' : ":"%char ∈ match l with a :: l' => if decide (a = "+"%char) then l' else l | [] => l end).
  { destruct l as [|a l']; [done|]. case_decide as Ha; [|done]. subst a.
    by apply elem_of_cons in Hin as [?|?]. }
  destruct (match l with a :: l' => if decide (a = "+"%char) then l' else l | [] => l end) as [|a l'] eqn:Hl; [done|].
  destruct (digits_value 0 (a :: l')) as [n|] eqn:Hd; [|done].
  by destruct (digits_value_digits _ _ _ Hd _ Hin') as [d Hdig].
Qed.

(** A key of a challenge is read back as a key of its category alone. *)
Lemma parse_challenge_key K k key :
  challenge_keys K -> K k -> parse_db_key (db_key k) = Some key -> colon ∈ sk_key key.
Proof.
  intros HK Hk Hp. destruct (ck_namespace _ HK _ Hk) as (a & c & Hns & Ha & Hc).
  unfold parse_db_key, db_key, key_to_bytes in Hp. rewrite Hns in Hp. unfold challenge_namespace in Hp.
  rewrite !str_bytes_app, <- !app_assoc in Hp. destruct (utf8_valid _); [|done].
  change (str_bytes ":") with [colon] in Hp. cbn [app] in Hp. rewrite split_once_app in Hp by done. injection Hp as <-. cbn [sk_key StorageKey_new].
  apply elem_of_app. right. by left.
Qed.

Lemma load_weights_none items m :
  (forall x, x ∈ items -> colon ∈ sk_key x.1) -> load_weights items m = m.
Proof.
  unfold load_weights. induction items as [|x items IH]; intros Hx; [done|]. cbn [fold_left].
  rewrite (colon_not_a_number x.1) by (apply Hx; left). apply IH. intros y Hy. apply Hx. by right.
Qed.

Lemma list_prefix_colon K s ents now ns prefix limit token r s' :
  challenge_keys K -> represents K s ents -> local_list_prefix now ns prefix limit token s = (Ok r, s') ->
  s' = s /\ forall x, x ∈ lr_items r -> colon ∈ sk_key x.1.
Proof.
  intros HK Hr. unfold local_list_prefix, mbind, SE_bind, get_state, lift.
  destruct (scan_prefix _ _ _ _ _ _ _) as [[items last]|e] eqn:Hscan; [|done].
  intros [= <- <-]. split; [done|]. intros x Hx. cbn [lr_items] in Hx.
  destruct (scan_prefix_keys _ _ _ _ _ _ _ _ _ Hscan x Hx) as [Hn%not_elem_of_nil|(dk & Hdk & Hp)]; [done|].
  apply list_elem_of_fmap in Hdk as ([ik dk'] & -> & Hin). apply elem_of_tree_range in Hin as [Hin _].
  apply (rp_index _ _ _ Hr) in Hin as (k & [e He] & _ & ->).
  by apply (parse_challenge_key K k); [|eapply (rp_keys _ _ _ Hr)|].
Qed.

(** What listing answers, success or not, the storage stays. *)
Lemma list_prefix_pure now ns prefix limit token (s : LocalStorage) :
  exists r, local_list_prefix now ns prefix limit token s = (r, s).
Proof.
  unfold local_list_prefix, mbind, SE_bind, get_state, lift.
  destruct (scan_prefix _ _ _ _ _ _ _) as [[items last]|e]; by eexists.
Qed.
End rebuild.

(** C30. Rebuilding loses the weights: whatever a local storage holds for challenges
    (with ids without a colon), after [rebuild_cache] no weights are in the tree of
    leaves, because the keys read back are "challenge:epoch", which is no
    number; so the state root of a challenge that has weights does not survive a
    restart. *)
Theorem weights_lost_on_rebuild `{External} `{!ExternalLaws} `{EntryCodec} `{!EntryCodecLaws} `{StoreCodec}
    K now (c : ChallengeStore LocalStorage) ents :
  challenge_keys K -> represents K (cs_inner c) ents ->
  lc_weights (cs_leaf_cache (rebuild_cache now c).2) = ∅.
Proof.
  intros HK Hr. destruct c as [s id cache]. cbn [cs_inner] in Hr.
  unfold rebuild_cache, mbind, SE_bind, update_cache, modify, get_state, on_inner.
  cbn [cs_inner cs_challenge_id cs_leaf_cache]. change (@ds_list_prefix LocalStorage _) with local_list_prefix.
  destruct (list_prefix_pure now (challenge_namespace id "submissions") None 10000 None s) as [[r1|e1] Hl1];
    rewrite Hl1; [|done]. cbn [cs_inner cs_challenge_id cs_leaf_cache].
  destruct (list_prefix_pure now (challenge_namespace id "evaluations") None (10 * 10000) None s) as [[r2|e2] Hl2];
    rewrite Hl2; [|done]. cbn [cs_inner cs_challenge_id cs_leaf_cache].
  destruct (list_prefix_pure now (challenge_namespace id "weights") None 10000 None s) as [[r3|e3] Hl3];
    rewrite Hl3; [|done]. cbn [cs_inner cs_challenge_id cs_leaf_cache lc_weights snd LeafCache_new].
  apply load_weights_none. by apply (list_prefix_colon K _ _ _ _ _ _ _ _ _ HK Hr Hl3).
Qed.

(** ** Colons in challenge ids *)

(** Two challenges share records when the id of one extends the id of the
    other at a colon: what one stores under "b:x" the other reads as "x". *)
Lemma challenges_share_records `{External} `{EntryCodec} now a b x options s :
  (local_get now (submission_key a (b +:+ ":" +:+ x)) options s).1 =
  (local_get now (submission_key (a +:+ ":" +:+ b) x) options s).1.
Proof.
  assert (Hkey : db_key (submission_key a (b +:+ ":" +:+ x)) = db_key (submission_key (a +:+ ":" +:+ b) x)).
  { unfold db_key, key_to_bytes, submission_key, StorageKey_new, challenge_namespace. cbn [sk_namespace sk_key].
    rewrite !str_bytes_app, <- !app_assoc. done. }
  unfold local_get, mbind, SE_bind, get_state, lift, get_entry. rewrite Hkey.
  destruct (ls_data s !! _) as [bs|]; [|done]. destruct (decode bs) as [e|]; [|done]. cbn.
  destruct (is_expired _ _); [|done]. unfold delete_entry, mbind, SE_bind, get_state, lift, get_entry. rewrite Hkey.
  destruct (ls_data s !! _) as [bs'|] eqn:Hbs; cbn.
  - destruct (decode bs') as [e'|]; [|done]. cbn. destruct (le_block_id e'); done.
  - done.
Qed.

(** ** A registry with two challenges *)

Lemma Json_eq_dec (x y : Json) : {x = y} + {x <> y}.
Proof.
  revert x y. fix IH 1. intros x y. destruct x as [|b|n|s|l|m], y as [|b'|n'|s'|l'|m']; try (right; congruence).
  - by left.
  - destruct (bool_eq_dec b b'); [left|right]; congruence.
  - assert (Hn : {n = n'} + {n <> n'}) by (repeat decide equality). destruct Hn; [left|right]; congruence.
  - destruct (String.string_dec s s'); [left|right]; congruence.
  - destruct (List.list_eq_dec IH l l'); [left|right]; congruence.
  - destruct (List.list_eq_dec (fun p q : string * Json => ltac:(destruct p as [k v], q as [k' v'];
      destruct (String.string_dec k k'), (IH v v'); [left|right..]; congruence)) m m'); [left|right]; congruence.
Defined.

Module ChallengeExamples.
Import Toy StorageToy.

#[local] Instance Json_EqDecision : EqDecision Json := Json_eq_dec.
#[local] Instance SubmissionStatus_eq_dec : EqDecision SubmissionStatus.
Proof. solve_decision. Defined.
#[local] Instance StoredSubmission_eq_dec : EqDecision StoredSubmission.
Proof. solve_decision. Defined.
#[local] Instance ValidatorWeightVote_eq_dec : EqDecision ValidatorWeightVote.
Proof. solve_decision. Defined.
#[local] Instance StoredWeights_eq_dec : EqDecision StoredWeights.
Proof. solve_decision. Defined.

Definition sub : StoredSubmission := mk_StoredSubmission "c1" "h" "m" None JNull 0 [] SubPending.
Definition wts : StoredWeights := StoredWeights_new 0 "c1" 5 [("m"%string, f64_one)] [].

(** A codec that knows one submission and one set of weights. *)
#[local] Instance table_codec : StoreCodec := {|
  encode_submission x := if decide (x = sub) then Ok [1] else Err "unknown"%string;
  decode_submission b := if decide (b = [1]) then Ok sub else Err "unknown"%string;
  encode_evaluation _ := Err "unknown"%string;
  decode_evaluation _ := Err "unknown"%string;
  encode_weights x := if decide (x = wts) then Ok [2] else Err "unknown"%string;
  decode_weights b := if decide (b = [2]) then Ok wts else Err "unknown"%string
|}.

#[local] Instance table_codec_laws : StoreCodecLaws.
Proof. split; simpl; intros x b; try done; case_decide; try done; intros [= <-]; by subst. Qed.

Definition used : list StorageKey := [submission_key "c1" "h"; submission_key "c2" "h"; weights_key "c1" 5].
Definition in_registry (k : StorageKey) : Prop := k ∈ used.

Lemma in_registry_keys : challenge_keys in_registry.
Proof.
  split; unfold in_registry, used.
  - intros k. rewrite !elem_of_cons. intros [-> |[-> |[-> |Hk%not_elem_of_nil]]]; [..|done].
    + exists "submissions"%string, "c1"%string. split; [done|]. split; by_compute.
    + exists "submissions"%string, "c2"%string. split; [done|]. split; by_compute.
    + exists "weights"%string, "c1"%string. split; [done|]. split; by_compute.
  - intros k k' Hk Hk'.
    assert (Hall : Forall (fun k => Forall (fun k' => key_hash k = key_hash k' -> k = k') used) used) by by_compute.
    exact (proj1 (list.Forall_forall _ _) (proj1 (list.Forall_forall _ _) Hall k Hk) k' Hk').
  - intros k k' Hk Hk'.
    assert (Hall : Forall (fun k => Forall (fun k' => hex_encode (sk_key k) = hex_encode (sk_key k') ->
      sk_key k = sk_key k') used) used) by by_compute.
    exact (proj1 (list.Forall_forall _ _) (proj1 (list.Forall_forall _ _) Hall k Hk) k' Hk').
Qed.

Lemma in_registry_sound : sound_keys in_registry.
Proof. apply challenge_keys_sound, in_registry_keys. Qed.

Definition registry_ops : list registry_op :=
  [StoreSubmission 1 "c1" "h" sub; StoreWeights 2 "c1" 5 wts; GetSubmission 3 "c1" "h";
   GetSubmission 4 "c2" "h"; GetWeights 5 "c1" 5].

Lemma all_fit v : local_fits "n1" v.
Proof. intros meta _ _. apply all_stored. Qed.

Lemma registry_refines_contents_witness :
  (run_registry registry_ops (Registry_new (LocalStorage_in_memory "n1"))).1 =
    Ok <$> (spec_registry registry_ops ∅).1 /\
  drop 2 (spec_registry registry_ops ∅).1 =
    [AnsSubmission (Some sub); AnsSubmission None; AnsWeights (Some wts)].
Proof.
  assert (Hok : Forall (registry_op_ok in_registry (local_fits "n1")) registry_ops).
  { constructor; [|constructor; [|repeat constructor]].
    - split; [left|]. exists [1]. split; [vm_compute; reflexivity|apply all_fit].
    - split; [do 2 right; left|]. split; [|vm_compute; discriminate].
      exists [2]. split; [vm_compute; reflexivity|apply all_fit]. }
  assert (Hn : Z.of_nat (length registry_ops) < u64_max) by by_compute.
  pose proof (local_key_value_store in_registry in_registry_sound "n1") as Hkv.
  split; [|vm_compute; reflexivity].
  exact (proj1 (registry_refines_contents in_registry (local_fits "n1") (local_inv in_registry "n1")
    (LocalStorage_in_memory "n1") registry_ops (in_memory_inv in_registry "n1") Hok Hn)).
Defined.

(** The storage after the weights of epoch 5 were written. *)
Definition with_weights : LocalStorage :=
  (run_ops [OpPut 2 (weights_key "c1" 5) [2] PutOptions_default] (LocalStorage_in_memory "n1")).2.

Lemma weights_lost_on_rebuild_witness :
  lc_weights (cs_leaf_cache (rebuild_cache 9 (ChallengeStore_new with_weights "c1")).2) = ∅ /\
  (get_weights 9 5 (ChallengeStore_new with_weights "c1")).1 = Ok (Some wts).
Proof.
  assert (Hops : Forall (op_ok in_registry) [OpPut 2 (weights_key "c1" 5) [2] PutOptions_default]).
  { repeat constructor. }
  pose proof (admissible_ok in_registry "n1" _ ∅ ltac:(done) Hops ltac:(vm_compute; reflexivity)) as Hadm.
  pose proof (proj2 (run_ops_refine in_registry in_registry_sound _ _ _
    (in_memory_represents in_registry "n1") Hadm)) as Hr.
  split; [|vm_compute; reflexivity].
  exact (weights_lost_on_rebuild in_registry 9 (ChallengeStore_new with_weights "c1") _ in_registry_keys Hr).
Defined.
End ChallengeExamples.
