(* ===== verification/Bittensor.v ===== *)
(** * The Bittensor client

    Models [crates/bittensor-integration/src/config.rs] and [client.rs].  The
    chain itself and its client library ([bittensor_rs], [sp_core]) are the
    class [Subtensor]: one operation per library function the sources call,
    each reading and changing an abstract [Chain] (the chain, the network and
    the library's random generator) and possibly failing with a text. *)

From S2P Require Import Prelude Float64 Crypto.

(** ** The chain's interface *)

(** What the sources read of a neuron and of the metagraph; [mg_neurons] is in
    iteration order. *)
Record NeuronInfo : Type := mk_NeuronInfo {
  nu_hotkey : bytes;
  nu_stake : Z;
  nu_root_stake : Z;
  nu_incentive : f64;
  nu_trust : f64;
  nu_consensus : f64
}.
Record Metagraph : Type := mk_Metagraph { mg_neurons : list (Z * NeuronInfo) }.

Inductive ChainPhase : Type := Evaluation | CommitWindow | RevealWindow | OtherPhase.

Record EpochInfo : Type := mk_EpochInfo {
  ei_current_block : Z;
  ei_epoch_number : Z;
  ei_phase : ChainPhase;
  ei_blocks_remaining : Z;
  ei_tempo : Z
}.

(** What [prepare_commit_reveal] and its mechanism variant return. *)
Record CommitData : Type := mk_CommitData {
  cd_commit_hash : string;
  cd_uids : list Z;
  cd_weights : list Z;
  cd_salt : list Z;
  cd_version_key : Z
}.

Inductive BatchCall : Type :=
| commit_mechanism_call (netuid mechanism_id : Z) (commit_hash : bytes).

Abbreviation mechanism_batch := (list (Z * list Z * list Z)).

#[global] Instance ChainPhase_eq_dec : EqDecision ChainPhase.
Proof. solve_decision. Defined.
#[global] Instance EpochInfo_eq_dec : EqDecision EpochInfo.
Proof. solve_decision. Defined.
#[global] Instance BatchCall_eq_dec : EqDecision BatchCall.
Proof. solve_decision. Defined.

(** [f32] values, as the same executable floats at single precision. *)
Abbreviation f32 := f64 (only parsing).
Definition f32_of_Z (n : Z) : f32 := SpecFloat.binary_normalize 24 128 n 0 false.
Definition f32_div : f32 -> f32 -> f32 := SpecFloat.SFdiv 24 128.

Class Subtensor : Type := {
  Chain : Type;
  BittensorClient : Type;
  BittensorSigner : Type;
  account_id : BittensorSigner -> bytes;
  signer_from_seed : string -> result string BittensorSigner;
  from_ss58check : string -> option bytes;
  open_client : string -> SE Chain string BittensorClient;
  fetch_metagraph : BittensorClient -> Z -> SE Chain string Metagraph;
  fetch_mechanism_count : BittensorClient -> Z -> SE Chain string Z;
  current_epoch_info : BittensorClient -> Z -> SE Chain string EpochInfo;
  get_next_epoch_start_block : BittensorClient -> Z -> SE Chain string (option Z);
  block_number : BittensorClient -> SE Chain string Z;
  listener_init : BittensorClient -> Z -> SE Chain string unit;
  listener_start : BittensorClient -> Z -> SE Chain string unit;
  (* plain and per-mechanism weights *)
  set_weights : BittensorClient -> BittensorSigner -> Z -> list Z -> list f32 -> option Z ->
    SE Chain string string;
  set_mechanism_weights : BittensorClient -> BittensorSigner -> Z -> Z -> list Z -> list f32 ->
    option Z -> SE Chain string string;
  batch_set_mechanism_weights : BittensorClient -> BittensorSigner -> Z -> mechanism_batch -> Z ->
    SE Chain string string;
  (* hash-based commit and reveal *)
  generate_salt : nat -> Chain -> list Z * Chain;
  generate_mechanism_commit_hash : bytes -> Z -> Z -> list Z -> list Z -> list Z -> Z -> bytes;
  commit_hash_to_hex : bytes -> string;
  prepare_commit_reveal : bytes -> Z -> list Z -> list Z -> Z -> nat -> Chain -> CommitData * Chain;
  prepare_mechanism_commit_reveal : bytes -> Z -> Z -> list Z -> list Z -> Z -> nat -> Chain ->
    CommitData * Chain;
  commit_weights : BittensorClient -> BittensorSigner -> Z -> string -> SE Chain string string;
  commit_mechanism_weights : BittensorClient -> BittensorSigner -> Z -> Z -> string ->
    SE Chain string string;
  batch_all : BittensorClient -> BittensorSigner -> list BatchCall -> SE Chain string string;
  reveal_weights : BittensorClient -> BittensorSigner -> Z -> list Z -> list Z -> list Z -> Z ->
    SE Chain string string;
  reveal_mechanism_weights : BittensorClient -> BittensorSigner -> Z -> Z -> list Z -> list Z ->
    list Z -> Z -> SE Chain string string;
  (* timelocked commits *)
  DEFAULT_COMMIT_REVEAL_VERSION : Z;
  get_commit_reveal_version : BittensorClient -> SE Chain string Z;
  get_tempo : BittensorClient -> Z -> SE Chain string Z;
  get_reveal_period : BittensorClient -> Z -> SE Chain string Z;
  get_last_drand_round : BittensorClient -> SE Chain string Z;
  get_mechid_storage_index : Z -> Z -> Z;
  calculate_reveal_round : Z -> Z -> Z -> Z -> f64 -> Z -> Z;
  prepare_crv4_commit : bytes -> list Z -> list Z -> Z -> Z -> SE Chain string bytes;
  commit_timelocked_mechanism_weights : BittensorClient -> BittensorSigner -> Z -> Z -> bytes -> Z ->
    Z -> SE Chain string string
}.

(** A library call that cannot fail. *)
Definition infallible {C A} (f : C -> A * C) : SE C string A :=
  fun c => let '(a, c') := f c in (Ok a, c').

(** [call.await.unwrap_or(d)]: the error is dropped, what it did stays. *)
Definition unwrap_or {C A} (d : A) (m : SE C string A) : SE C string A :=
  fun c => match m c with (Ok a, c') => (Ok a, c') | (Err _, c') => (Ok d, c') end.

(** ** Configuration *)

Definition DEFAULT_NETUID : Z := 100.

Record BittensorConfig : Type := mk_BittensorConfig {
  bc_endpoint : string;
  bc_netuid : Z;
  bc_use_commit_reveal : bool;
  bc_version_key : Z
}.

Definition BittensorConfig_default : BittensorConfig :=
  mk_BittensorConfig "wss://entrypoint-finney.opentensor.ai:443" DEFAULT_NETUID true 1.
Definition testnet (netuid : Z) : BittensorConfig :=
  mk_BittensorConfig "wss://test.finney.opentensor.ai:443" netuid true 1.
Definition local (netuid : Z) : BittensorConfig :=
  mk_BittensorConfig "ws://127.0.0.1:9944" netuid false 1.
Definition mainnet : BittensorConfig := BittensorConfig_default.

(** ** The client *)

Section client.
Context `{Subtensor}.

Record SubtensorClient : Type := mk_SubtensorClient {
  sc_config : BittensorConfig;
  sc_client : option BittensorClient;
  sc_signer : option BittensorSigner;
  sc_metagraph : option Metagraph;
  sc_uid_overrides : gmap string Z
}.

Definition SubtensorClient_new (config : BittensorConfig) : SubtensorClient :=
  mk_SubtensorClient config None None None ∅.

(** Methods that take [&mut self] change the client and the chain. *)
Definition ClientM := SE (SubtensorClient * Chain) string.

(** A call of the library. *)
Definition on_chain {X A} (m : SE Chain string A) : SE (X * Chain) string A :=
  fun '(x, c) => let '(r, c') := m c in (r, (x, c')).

Definition connect : ClientM unit :=
  '(sc, _) ← get_state;
  client ← on_chain (open_client (bc_endpoint (sc_config sc)));
  modify (fun '(sc, c) =>
    (mk_SubtensorClient (sc_config sc) (Some client) (sc_signer sc) (sc_metagraph sc)
       (sc_uid_overrides sc), c)).

Definition set_signer (seed : string) (sc : SubtensorClient) : result string unit * SubtensorClient :=
  match signer_from_seed seed with
  | Ok signer =>
      (Ok tt, mk_SubtensorClient (sc_config sc) (sc_client sc) (Some signer) (sc_metagraph sc)
                (sc_uid_overrides sc))
  | Err e => (Err e, sc)
  end.

Definition client (sc : SubtensorClient) : result string BittensorClient :=
  ok_or (sc_client sc) "Not connected to Subtensor".
Definition signer (sc : SubtensorClient) : result string BittensorSigner :=
  ok_or (sc_signer sc) "Signer not set".
Definition get_signer (sc : SubtensorClient) : option BittensorSigner := sc_signer sc.
Definition netuid (sc : SubtensorClient) : Z := bc_netuid (sc_config sc).
Definition version_key (sc : SubtensorClient) : Z := bc_version_key (sc_config sc).
Definition use_commit_reveal (sc : SubtensorClient) : bool := bc_use_commit_reveal (sc_config sc).

Definition set_metagraph (m : Metagraph) (sc : SubtensorClient) : SubtensorClient :=
  mk_SubtensorClient (sc_config sc) (sc_client sc) (sc_signer sc) (Some m) (sc_uid_overrides sc).

Definition sync_metagraph : ClientM Metagraph :=
  '(sc, _) ← get_state;
  cl ← lift (client sc);
  m ← on_chain (fetch_metagraph cl (bc_netuid (sc_config sc)));
  _ ← modify (fun '(sc, c) => (set_metagraph m sc, c));
  mret m.

Definition metagraph (sc : SubtensorClient) : option Metagraph := sc_metagraph sc.

(** The first neuron, in iteration order, whose hotkey the address names. *)
Definition lookup_uid_in_metagraph (sc : SubtensorClient) (hotkey : string) : option Z :=
  m ← sc_metagraph sc;
  account ← from_ss58check hotkey;
  (fun '(uid, _) => u64_as_u16 uid) <$>
    head (filter (fun '(_, n) => nu_hotkey n = account) (mg_neurons m)).

Definition get_uid_for_hotkey (sc : SubtensorClient) (hotkey : string) : option Z :=
  match sc_uid_overrides sc !! hotkey with
  | Some uid => Some uid
  | None => lookup_uid_in_metagraph sc hotkey
  end.

Definition get_uids_for_hotkeys (sc : SubtensorClient) (hotkeys : list string) : list (string * Z) :=
  omap (fun h => (fun uid => (h, uid)) <$> get_uid_for_hotkey sc h) hotkeys.

(** Queries that leave the client as it is. *)
Definition get_mechanism_count (sc : SubtensorClient) : SE Chain string Z :=
  cl ← lift (client sc); fetch_mechanism_count cl (netuid sc).

Definition get_current_epoch_info (sc : SubtensorClient) : SE Chain string EpochInfo :=
  cl ← lift (client sc); current_epoch_info cl (netuid sc).

Definition get_current_epoch (sc : SubtensorClient) : SE Chain string Z :=
  info ← get_current_epoch_info sc; mret (ei_epoch_number info).

Definition is_in_reveal_phase (sc : SubtensorClient) : SE Chain string bool :=
  info ← get_current_epoch_info sc; mret (bool_decide (ei_phase info = RevealWindow)).
End client.
