(* ===== verification/WeightSubmission.v ===== *)
(** * Submission of weights to Bittensor

    Models [crates/bittensor-integration/src/weights.rs]: the
    [WeightSubmitter], which keeps its commits on disk until they are revealed,
    and the [MechanismWeightManager], which keeps them in memory.  The disk is
    that of [SubnetManager]; JSON and hexadecimal decoding are the class
    [CommitCodec]. *)

From S2P Require Import Prelude Float64 Crypto RustStrings RustBytes CommitReveal SubnetManager Bittensor.

(** ** Pending commits *)

Definition u32_add (x y : Z) : Z := (x + y) mod 2 ^ 32.
Definition u16_saturating_add (x y : Z) : Z := Z.min u16_max (x + y).

Record PendingMechanismCommit : Type := mk_PendingMechanismCommit {
  pmc_mechanism_id : Z;
  pmc_hash : string;
  pmc_uids : list Z;
  pmc_weights : list Z;
  pmc_salt_hex : string;
  pmc_version_key : Z;
  pmc_epoch : Z
}.

Record PendingCommitV2 : Type := mk_PendingCommitV2 {
  pc_hash : string;
  pc_uids : list Z;
  pc_weights : list Z;
  pc_salt_hex : string;
  pc_version_key : Z;
  pc_epoch : Z
}.

Record PersistedCommitState : Type := mk_PersistedCommitState {
  ps_committed_epoch : option Z;
  ps_pending_mechanism_commits : gmap Z PendingMechanismCommit;
  ps_pending_commit : option PendingCommitV2;
  ps_last_revealed_epoch : gmap Z Z
}.

#[global] Instance PendingMechanismCommit_eq_dec : EqDecision PendingMechanismCommit.
Proof. solve_decision. Defined.
#[global] Instance PendingCommitV2_eq_dec : EqDecision PendingCommitV2.
Proof. solve_decision. Defined.
#[global] Instance PersistedCommitState_eq_dec : EqDecision PersistedCommitState.
Proof. solve_decision. Defined.

Class CommitCodec : Type := {
  hex_decode : string -> result string bytes;
  commits_to_json : PersistedCommitState -> result string string;
  commits_from_json : string -> result string PersistedCommitState
}.

(** [bytes.chunks(2).map(..)]: two bytes make a number, a last odd byte is
    taken as it is. *)
Fixpoint u16_chunks (b : bytes) : list Z :=
  match b with
  | [] => []
  | [x] => [x]
  | lo :: hi :: b' => (lo + 256 * hi) :: u16_chunks b'
  end.

Section salts.
Context `{External} `{CommitCodec}.

Definition salt_of_hex (salt_hex : string) : list Z :=
  u16_chunks (match hex_decode salt_hex with Ok b => b | Err _ => [] end).

Definition pmc_get_salt (c : PendingMechanismCommit) : list Z := salt_of_hex (pmc_salt_hex c).
Definition pc_get_salt (c : PendingCommitV2) : list Z := salt_of_hex (pc_salt_hex c).

Definition salt_to_hex (salt : list Z) : string := hex_encode (mjoin (to_le_bytes 2 <$> salt)).
End salts.

(** ** The persisted state *)

Definition PersistedCommitState_default : PersistedCommitState :=
  mk_PersistedCommitState None ∅ None ∅.

Definition set_pending_mechanism (x : gmap Z PendingMechanismCommit) (s : PersistedCommitState) :
    PersistedCommitState :=
  mk_PersistedCommitState (ps_committed_epoch s) x (ps_pending_commit s) (ps_last_revealed_epoch s).
Definition set_pending_commit (x : option PendingCommitV2) (s : PersistedCommitState) :
    PersistedCommitState :=
  mk_PersistedCommitState (ps_committed_epoch s) (ps_pending_mechanism_commits s) x
    (ps_last_revealed_epoch s).

Definition has_commits_for_epoch (s : PersistedCommitState) (epoch : Z) : bool :=
  bool_decide (ps_committed_epoch s = Some epoch) &&
  negb (bool_decide (ps_pending_mechanism_commits s = ∅)).

Definition has_revealed_for_epoch (s : PersistedCommitState) (mechanism_id epoch : Z) : bool :=
  match ps_last_revealed_epoch s !! mechanism_id with
  | Some e => epoch <=? e
  | None => false
  end.

Definition new_epoch (epoch : Z) (s : PersistedCommitState) : PersistedCommitState :=
  if decide (ps_committed_epoch s = Some epoch) then s
  else set_pending_commit None (set_pending_mechanism ∅ s).

Section persistence.
Context `{DiskIO} `{CommitCodec}.

(** [read_to_string]: the file must be UTF-8. *)
Definition read_to_string (path : Path) (d : Disk) : result string string :=
  b ← fs_read path d;
  if utf8_valid b then Ok (bytes_str b) else Err "stream did not contain valid UTF-8"%string.

Definition commits_load (path : Path) (d : Disk) : PersistedCommitState :=
  match read_to_string path d with
  | Ok content =>
      match commits_from_json content with
      | Ok s => s
      | Err _ => PersistedCommitState_default
      end
  | Err _ => PersistedCommitState_default
  end.

Definition commits_save (s : PersistedCommitState) (path : Path) : SE Disk string unit :=
  content ← lift (commits_to_json s);
  fs_write path (str_bytes content).
End persistence.

(** ** Preparing weights *)

(** [(w.clamp(0.0, 1.0) * 65535.0) as u16]. *)
Definition weight_as_u16 (w : f64) : Z :=
  f64_as_u16 (f64_mul (f64_clamp f64_zero f64_one w) (f64_of_Z 65535)).

Definition normalize_to_u16 (weights : list f64) : list Z :=
  let sum := f64_sum weights in
  if f64_eqb sum f64_zero then replicate (length weights) 0
  else (fun w => f64_as_u16 (f64_mul (f64_div w sum) (f64_of_Z 65535))) <$> weights.

(** UIDs, weights and unresolved hotkeys, in the order of the assignments. *)
Definition convert_assignments_with_lookup (weights : list WeightAssignment)
    (uid_lookup : gmap string Z) : list Z * list Z * list string :=
  (omap (fun w => uid_lookup !! wa_hotkey w) weights,
   omap (fun w => (fun _ => weight_as_u16 (wa_weight w)) <$> uid_lookup !! wa_hotkey w) weights,
   omap (fun w => match uid_lookup !! wa_hotkey w with
                  | Some _ => None | None => Some (wa_hotkey w) end) weights).

Definition TARGET_SUM : Z := 65535.

Fixpoint position (u : Z) (l : list Z) : option nat :=
  match l with
  | [] => None
  | x :: l' => if x =? u then Some O else S <$> position u l'
  end.

Definition fill_with_burn (uids weight_values : list Z) : list Z * list Z :=
  match uids with
  | [] => ([0], [TARGET_SUM])
  | _ =>
      let sum := fold_left u32_add weight_values 0 in
      if sum <? TARGET_SUM then
        let remaining := u64_as_u16 (TARGET_SUM - sum) in
        if 0 <? remaining then
          match position 0 uids with
          | Some pos => (uids, alter (fun w => u16_saturating_add w remaining) pos weight_values)
          | None => (uids ++ [0], weight_values ++ [remaining])
          end
        else (uids, weight_values)
      else (uids, weight_values)
  end.

Section submitter.
Context `{External} `{Subtensor} `{DiskIO} `{CommitCodec} `{HO : !HashOrder Z}.

(** What is found for a hotkey is the first pair with it. *)
Definition find_uid (hotkey : string) (uid_map : list (string * Z)) : option Z :=
  snd <$> head (filter (fun p => p.1 = hotkey) uid_map).

Definition ws_prepare_weights (sc : SubtensorClient) (weights : list WeightAssignment) :
    list Z * list Z :=
  let uid_map := get_uids_for_hotkeys sc (wa_hotkey <$> weights) in
  (omap (fun w => find_uid (wa_hotkey w) uid_map) weights,
   omap (fun w => (fun _ => weight_as_u16 (wa_weight w)) <$> find_uid (wa_hotkey w) uid_map) weights).

(** ** The submitter *)

Record WeightSubmitter : Type := mk_WeightSubmitter {
  ws_client : SubtensorClient;
  ws_state : PersistedCommitState;
  ws_persist_path : Path;
  ws_current_epoch : Z;
  ws_cached_crv_version : option Z
}.

(** The submitter with the disk and the chain it works on. *)
Record Env : Type := mk_Env { en_sub : WeightSubmitter; en_disk : Disk; en_chain : Chain }.

Definition SubmitM := SE Env string.

Definition DEFAULT_COMMITS_FILE : string := "pending_commits.json".

Definition WeightSubmitter_new (sc : SubtensorClient) (data_dir : option Path) (d : Disk) :
    WeightSubmitter :=
  let persist_path := default [] data_dir ++ [DEFAULT_COMMITS_FILE] in
  mk_WeightSubmitter sc (commits_load persist_path d) persist_path 0 None.

(** Field updates and lifting. *)
Definition set_ws_state (x : PersistedCommitState) (w : WeightSubmitter) : WeightSubmitter :=
  mk_WeightSubmitter (ws_client w) x (ws_persist_path w) (ws_current_epoch w)
    (ws_cached_crv_version w).
Definition chain_call {A} (m : SE Chain string A) : SubmitM A :=
  fun e => let '(r, c) := m (en_chain e) in (r, mk_Env (en_sub e) (en_disk e) c).
Definition update_state (f : PersistedCommitState -> PersistedCommitState) : SubmitM unit :=
  modify (fun e => mk_Env (set_ws_state (f (ws_state (en_sub e))) (en_sub e)) (en_disk e) (en_chain e)).
Definition the_client : SubmitM SubtensorClient :=
  e ← get_state; mret (ws_client (en_sub e)).

(** A failure to save is logged only. *)
Definition persist : SubmitM unit := fun e =>
  let '(_, d) := commits_save (ws_state (en_sub e)) (ws_persist_path (en_sub e)) (en_disk e) in
  (Ok tt, mk_Env (en_sub e) d (en_chain e)).

Definition get_crv_version : SubmitM Z :=
  e ← get_state;
  match ws_cached_crv_version (en_sub e) with
  | Some v => mret v
  | None =>
      cl ← lift (client (ws_client (en_sub e)));
      version ← chain_call (unwrap_or DEFAULT_COMMIT_REVEAL_VERSION (get_commit_reveal_version cl));
      _ ← modify (fun e => mk_Env
            (mk_WeightSubmitter (ws_client (en_sub e)) (ws_state (en_sub e))
               (ws_persist_path (en_sub e)) (ws_current_epoch (en_sub e)) (Some version))
            (en_disk e) (en_chain e));
      mret version
  end.

(** [self.get_crv_version().await.unwrap_or(0)]. *)
Definition crv_version_or_zero : SubmitM Z := unwrap_or 0 get_crv_version.

Definition is_crv4_enabled : SubmitM bool :=
  v ← crv_version_or_zero; mret (4 <=? v).

Definition set_epoch (epoch : Z) : SubmitM unit :=
  e ← get_state;
  if decide (epoch = ws_current_epoch (en_sub e)) then mret tt
  else
    _ ← modify (fun e => mk_Env
          (mk_WeightSubmitter (ws_client (en_sub e)) (new_epoch epoch (ws_state (en_sub e)))
             (ws_persist_path (en_sub e)) epoch (ws_cached_crv_version (en_sub e)))
          (en_disk e) (en_chain e));
    persist.

Definition has_committed_for_epoch (w : WeightSubmitter) (epoch : Z) : bool :=
  has_commits_for_epoch (ws_state w) epoch.
Definition has_pending_commit (w : WeightSubmitter) : bool :=
  bool_decide (is_Some (ps_pending_commit (ws_state w))).
Definition has_pending_mechanism_commits (w : WeightSubmitter) : bool :=
  negb (bool_decide (ps_pending_mechanism_commits (ws_state w) = ∅)).

Definition pending_commits_info (w : WeightSubmitter) : string :=
  if decide (ps_pending_mechanism_commits (ws_state w) = ∅) then "none"%string
  else
    let ids := hm_keys (ps_pending_mechanism_commits (ws_state w)) in
    let epoch := match ps_committed_epoch (ws_state w) with
                 | Some e => "Some(" +:+ Z_to_string e +:+ ")"
                 | None => "None"%string
                 end in
    Z_to_string (Z.of_nat (length ids)) +:+ " mechanisms [" +:+ join ", " (Z_to_string <$> ids)
      +:+ "] (epoch " +:+ epoch +:+ ")".

(** [*w as f32 / 65535.0]. *)
Definition weight_f32 (w : Z) : f32 := f32_div (f32_of_Z w) (f32_of_Z 65535).

Definition submit_direct (weights : list WeightAssignment) : SubmitM string :=
  sc ← the_client;
  let '(uids, weight_values) := ws_prepare_weights sc weights in
  _ ← require (negb (bool_decide (uids = []))) "No valid UIDs found for weights"%string;
  cl ← lift (client sc);
  sg ← lift (signer sc);
  chain_call (set_weights cl sg (netuid sc) uids (weight_f32 <$> weight_values)
                (Some (version_key sc))).

Definition reveal_pending_v2 (pending : PendingCommitV2) : SubmitM string :=
  sc ← the_client;
  cl ← lift (client sc);
  sg ← lift (signer sc);
  chain_call (reveal_weights cl sg (netuid sc) (pc_uids pending) (pc_weights pending)
                (pc_get_salt pending) (pc_version_key pending)).

Definition submit_with_commit_reveal (weights : list WeightAssignment) : SubmitM string :=
  e ← get_state;
  match ps_pending_commit (ws_state (en_sub e)) with
  | Some pending =>
      _ ← update_state (set_pending_commit None);
      _ ← persist;
      reveal_pending_v2 pending
  | None =>
      sc ← the_client;
      let '(uids, weight_values) := ws_prepare_weights sc weights in
      _ ← require (negb (bool_decide (uids = []))) "No valid UIDs found for weights"%string;
      let uids_u16 := u64_as_u16 <$> uids in
      sg ← lift (signer sc);
      commit_data ← chain_call (infallible (prepare_commit_reveal (account_id sg) (netuid sc)
                      uids_u16 weight_values (version_key sc) 8));
      cl ← lift (client sc);
      tx_hash ← chain_call (commit_weights cl sg (netuid sc) (cd_commit_hash commit_data));
      _ ← update_state (set_pending_commit (Some (mk_PendingCommitV2 (cd_commit_hash commit_data)
            (cd_uids commit_data) (cd_weights commit_data) (salt_to_hex (cd_salt commit_data))
            (cd_version_key commit_data) (ws_current_epoch (en_sub e)))));
      _ ← persist;
      mret tx_hash
  end.

Definition submit_weights (weights : list WeightAssignment) : SubmitM string :=
  sc ← the_client;
  if use_commit_reveal sc then submit_with_commit_reveal weights else submit_direct weights.

Definition force_reveal : SubmitM (option string) :=
  e ← get_state;
  match ps_pending_commit (ws_state (en_sub e)) with
  | Some pending =>
      _ ← update_state (set_pending_commit None);
      _ ← persist;
      tx ← reveal_pending_v2 pending;
      mret (Some tx)
  | None => mret None
  end.

(** ** Batches of mechanism weights *)

Definition submit_mechanism_weights_batch_direct (mechanism_weights : mechanism_batch) :
    SubmitM string :=
  sc ← the_client;
  cl ← lift (client sc);
  sg ← lift (signer sc);
  chain_call (batch_set_mechanism_weights cl sg (netuid sc) mechanism_weights (version_key sc)).

Fixpoint crv4_commit_each (cl : BittensorClient) (sg : BittensorSigner) (netuid version_key : Z)
    (tempo current_block reveal_period crv_version chain_last_drand_round : Z)
    (mechanism_weights : mechanism_batch) (last_tx : string) : SubmitM string :=
  match mechanism_weights with
  | [] => mret last_tx
  | (mechanism_id, uids, weights) :: rest =>
      let storage_index := get_mechid_storage_index netuid mechanism_id in
      let reveal_round := calculate_reveal_round tempo current_block storage_index reveal_period
                            (f64_of_Z 12) chain_last_drand_round in
      encrypted ← chain_call (prepare_crv4_commit (account_id sg) uids weights version_key
                                reveal_round);
      tx_hash ← chain_call (commit_timelocked_mechanism_weights cl sg netuid mechanism_id encrypted
                              reveal_round crv_version);
      crv4_commit_each cl sg netuid version_key tempo current_block reveal_period crv_version
        chain_last_drand_round rest tx_hash
  end.

Definition submit_mechanism_weights_batch_crv4 (mechanism_weights : mechanism_batch) :
    SubmitM string :=
  sc ← the_client;
  cl ← lift (client sc);
  sg ← lift (signer sc);
  current_block ← chain_call (block_number cl);
  tempo ← chain_call (unwrap_or 360 (get_tempo cl (netuid sc)));
  reveal_period ← chain_call (unwrap_or 1 (get_reveal_period cl (netuid sc)));
  e ← get_state;
  let crv_version := default DEFAULT_COMMIT_REVEAL_VERSION (ws_cached_crv_version (en_sub e)) in
  chain_last_drand_round ← chain_call (get_last_drand_round cl);
  crv4_commit_each cl sg (netuid sc) (version_key sc) tempo current_block reveal_period crv_version
    chain_last_drand_round mechanism_weights EmptyString.

(** The loop that draws salts: the calls of the batch and the commits to keep. *)
Fixpoint prepare_commits (account : bytes) (netuid version_key epoch : Z)
    (mechanism_weights : mechanism_batch) : SubmitM (list BatchCall * list PendingMechanismCommit) :=
  match mechanism_weights with
  | [] => mret ([], [])
  | (mechanism_id, uids, weights) :: rest =>
      salt ← chain_call (infallible (generate_salt 8));
      let commit_hash := generate_mechanism_commit_hash account netuid mechanism_id uids weights salt
                           version_key in
      let pending := mk_PendingMechanismCommit mechanism_id (commit_hash_to_hex commit_hash) uids
                       weights (salt_to_hex salt) version_key epoch in
      '(batch_calls, pending_commits) ← prepare_commits account netuid version_key epoch rest;
      mret (commit_mechanism_call netuid mechanism_id commit_hash :: batch_calls,
            pending :: pending_commits)
  end.

(** The loop of insertions, in order. *)
Definition insert_commits (l : list PendingMechanismCommit) (m : gmap Z PendingMechanismCommit) :
    gmap Z PendingMechanismCommit :=
  fold_left (fun m c => <[pmc_mechanism_id c := c]> m) l m.

Definition submit_mechanism_weights_batch_commit_reveal (mechanism_weights : mechanism_batch) :
    SubmitM string :=
  sc ← the_client;
  sg ← lift (signer sc);
  e ← get_state;
  let epoch := ws_current_epoch (en_sub e) in
  '(batch_calls, pending_commits) ←
    prepare_commits (account_id sg) (netuid sc) (version_key sc) epoch mechanism_weights;
  cl ← lift (client sc);
  tx_hash ← chain_call (batch_all cl sg batch_calls);
  _ ← update_state (fun s =>
        mk_PersistedCommitState (Some epoch)
          (insert_commits pending_commits (ps_pending_mechanism_commits s))
          (ps_pending_commit s) (ps_last_revealed_epoch s));
  _ ← persist;
  mret tx_hash.

Definition submit_mechanism_weights_batch (mechanism_weights : mechanism_batch) : SubmitM string :=
  _ ← require (negb (bool_decide (mechanism_weights = []))) "No mechanism weights to submit"%string;
  sc ← the_client;
  if negb (use_commit_reveal sc) then submit_mechanism_weights_batch_direct mechanism_weights
  else
    crv_version ← crv_version_or_zero;
    if 4 <=? crv_version then submit_mechanism_weights_batch_crv4 mechanism_weights
    else submit_mechanism_weights_batch_commit_reveal mechanism_weights.

(** ** Revealing *)

Fixpoint reveal_each (pending : list (Z * PendingMechanismCommit)) (revealed : list (Z * Z))
    (last_tx : string) : SubmitM (list (Z * Z) * string) :=
  match pending with
  | [] => mret (revealed, last_tx)
  | (_, commit) :: rest =>
      sc ← the_client;
      cl ← lift (client sc);
      sg ← lift (signer sc);
      tx_hash ← chain_call (reveal_mechanism_weights cl sg (netuid sc) (pmc_mechanism_id commit)
                  (pmc_uids commit) (pmc_weights commit) (pmc_get_salt commit)
                  (pmc_version_key commit));
      reveal_each rest (revealed ++ [(pmc_mechanism_id commit, pmc_epoch commit)]) tx_hash
  end.

Definition reveal_pending_mechanism_commits : SubmitM (option string) :=
  e ← get_state;
  if decide (ps_pending_mechanism_commits (ws_state (en_sub e)) = ∅) then mret None
  else
    let pending := hm_iter (ps_pending_mechanism_commits (ws_state (en_sub e))) in
    _ ← update_state (set_pending_mechanism ∅);
    _ ← persist;
    '(revealed, last_tx) ← reveal_each pending [] EmptyString;
    _ ← update_state (fun s =>
          mk_PersistedCommitState (ps_committed_epoch s) (ps_pending_mechanism_commits s)
            (ps_pending_commit s)
            (fold_left (fun m '(id, epoch) => <[id := epoch]> m) revealed
               (ps_last_revealed_epoch s)));
    _ ← persist;
    mret (Some last_tx).
End submitter.

(** ** The manager of mechanism weights *)

Record PendingMechanismCommitV2 : Type := mk_PendingMechanismCommitV2 {
  p2_mechanism_id : Z;
  p2_hash : string;
  p2_uids : list Z;
  p2_weights : list Z;
  p2_salt : list Z;
  p2_version_key : Z;
  p2_epoch : Z
}.

Section manager.
Context `{Subtensor} `{HO : !HashOrder Z}.

Record MechanismWeightManager : Type := mk_MechanismWeightManager {
  mw_client : SubtensorClient;
  mw_last_weight_epoch : gmap Z Z;
  mw_pending : gmap Z PendingMechanismCommitV2
}.

Definition MechanismWeightManager_new (sc : SubtensorClient) : MechanismWeightManager :=
  mk_MechanismWeightManager sc ∅ ∅.

Definition ManagerM := SE (MechanismWeightManager * Chain) string.

Definition mw_get_client : ManagerM SubtensorClient :=
  '(m, _) ← get_state; mret (mw_client m).
Definition set_mw_pending (f : gmap Z PendingMechanismCommitV2 -> gmap Z PendingMechanismCommitV2) :
    ManagerM unit :=
  modify (fun '(m, c) =>
    (mk_MechanismWeightManager (mw_client m) (mw_last_weight_epoch m) (f (mw_pending m)), c)).
Definition mark_epoch (mechanism_id epoch : Z) : ManagerM unit :=
  modify (fun '(m, c) =>
    (mk_MechanismWeightManager (mw_client m) (<[mechanism_id := epoch]> (mw_last_weight_epoch m))
       (mw_pending m), c)).

Definition get_next_epoch (m : MechanismWeightManager) : SE Chain string Z :=
  cl ← lift (client (mw_client m));
  next ← get_next_epoch_start_block cl (netuid (mw_client m));
  mret (default 0 next).

Definition has_set_weights_for_epoch (m : MechanismWeightManager) (mechanism_id epoch : Z) : bool :=
  match mw_last_weight_epoch m !! mechanism_id with
  | Some e => epoch <=? e
  | None => false
  end.

(** The lookup is collected into a map, later pairs replacing earlier ones. *)
Definition mw_prepare_weights (sc : SubtensorClient) (weights : list WeightAssignment) :
    list Z * list Z :=
  let uid_lookup := fold_left (fun m '(h, uid) => <[h := uid]> m)
                      (get_uids_for_hotkeys sc (wa_hotkey <$> weights)) ∅ in
  let '(uids, weight_values, _) := convert_assignments_with_lookup weights uid_lookup in
  (uids, weight_values).

Definition prepare_weights_with_fallback (sc : SubtensorClient) (weights : list WeightAssignment) :
    list Z * list Z :=
  let '(uids, weight_values) := mw_prepare_weights sc weights in fill_with_burn uids weight_values.

Definition submit_mechanism_direct (mechanism_id : Z) (uids weights : list Z) (epoch : Z) :
    ManagerM (option string) :=
  sc ← mw_get_client;
  cl ← lift (client sc);
  sg ← lift (signer sc);
  tx_hash ← on_chain (set_mechanism_weights cl sg (netuid sc) mechanism_id uids
              (weight_f32 <$> weights) (Some (version_key sc)));
  _ ← mark_epoch mechanism_id epoch;
  mret (Some tx_hash).

Definition reveal_mechanism_pending_v2 (pending : PendingMechanismCommitV2) :
    ManagerM (option string) :=
  sc ← mw_get_client;
  cl ← lift (client sc);
  sg ← lift (signer sc);
  tx_hash ← on_chain (reveal_mechanism_weights cl sg (netuid sc) (p2_mechanism_id pending)
              (p2_uids pending) (p2_weights pending) (p2_salt pending) (p2_version_key pending));
  _ ← mark_epoch (p2_mechanism_id pending) (p2_epoch pending);
  mret (Some tx_hash).

Definition submit_mechanism_with_commit_reveal (mechanism_id : Z) (uids weights : list Z)
    (epoch : Z) : ManagerM (option string) :=
  '(m, _) ← get_state;
  match mw_pending m !! mechanism_id with
  | Some pending =>
      _ ← set_mw_pending (delete mechanism_id);
      reveal_mechanism_pending_v2 pending
  | None =>
      sc ← mw_get_client;
      sg ← lift (signer sc);
      commit_data ← on_chain (infallible (prepare_mechanism_commit_reveal (account_id sg) (netuid sc)
                      mechanism_id (u64_as_u16 <$> uids) weights (version_key sc) 8));
      cl ← lift (client sc);
      tx_hash ← on_chain (commit_mechanism_weights cl sg (netuid sc) mechanism_id
                  (cd_commit_hash commit_data));
      _ ← set_mw_pending (<[mechanism_id := mk_PendingMechanismCommitV2 mechanism_id
            (cd_commit_hash commit_data) (cd_uids commit_data) (cd_weights commit_data)
            (cd_salt commit_data) (cd_version_key commit_data) epoch]>);
      mret (Some tx_hash)
  end.

Definition submit_mechanism_weights (mechanism_id : Z) (weights : list WeightAssignment)
    (epoch : Z) : ManagerM (option string) :=
  '(m, _) ← get_state;
  if has_set_weights_for_epoch m mechanism_id epoch then mret None
  else
    let '(uids, weight_values) := prepare_weights_with_fallback (mw_client m) weights in
    if use_commit_reveal (mw_client m)
    then submit_mechanism_with_commit_reveal mechanism_id uids weight_values epoch
    else submit_mechanism_direct mechanism_id uids weight_values epoch.

Definition has_pending_commits (m : MechanismWeightManager) : bool :=
  negb (bool_decide (mw_pending m = ∅)).
Definition pending_mechanism_ids (m : MechanismWeightManager) : list Z := hm_keys (mw_pending m).

Fixpoint reveal_ids (ids : list Z) (results : list (Z * string)) : ManagerM (list (Z * string)) :=
  match ids with
  | [] => mret results
  | id :: rest =>
      '(m, _) ← get_state;
      match mw_pending m !! id with
      | Some pending =>
          _ ← set_mw_pending (delete id);
          tx ← reveal_mechanism_pending_v2 pending;
          reveal_ids rest (match tx with Some t => results ++ [(id, t)] | None => results end)
      | None => reveal_ids rest results
      end
  end.

Definition reveal_all_pending : ManagerM (list (Z * string)) :=
  '(m, _) ← get_state; reveal_ids (pending_mechanism_ids m) [].

Definition reset_epoch_tracking (m : MechanismWeightManager) : MechanismWeightManager :=
  mk_MechanismWeightManager (mw_client m) ∅ (mw_pending m).
End manager.
