(* ===== verification/WeightSubmissionProps.v ===== *)
(** * What the submission of weights guarantees

    A salt survives its hexadecimal form; every commit kept for a reveal, in
    memory or on disk, opens the hash that was committed, through any sequence
    of operations and restarts; mechanism commits survive a restart within their
    epoch and plain ones do not; a reveal that fails loses its commits; and the
    weights sent to the chain are filled up to the full 16 bits. *)

From S2P Require Import Prelude Float64 Crypto RustStrings RustBytes CommitReveal SubnetManager Bittensor WeightSubmission LocalListProps.

(** ** Salts *)

Class CommitCodecLaws `{External} `{CommitCodec} : Prop := {
  hex_decode_encode : forall b, Forall is_u8 b -> hex_decode (hex_encode b) = Ok b;
  commits_json_round_trip : forall s t, commits_to_json s = Ok t ->
    utf8_valid (str_bytes t) = true /\ commits_from_json t = Ok s
}.

Lemma u16_chunks_le_bytes salt :
  Forall is_u16 salt -> u16_chunks (mjoin (to_le_bytes 2 <$> salt)) = salt.
Proof.
  induction 1 as [|x l Hx _ IH]; [done|].
  cbn [fmap list_fmap mjoin list_join to_le_bytes app u16_chunks]. f_equal; [|exact IH].
  unfold is_u16 in Hx. rewrite (Z.mod_small (x / 256)).
  - pose proof (Z.div_mod x 256). lia.
  - split; [apply Z.div_pos; lia|]. apply Z.div_lt_upper_bound; lia.
Qed.

Lemma le_bytes_u8 k n : Forall is_u8 (to_le_bytes k n).
Proof.
  revert n. induction k as [|k IH]; intros n; cbn [to_le_bytes]; constructor; [|done].
  apply Z.mod_pos_bound. lia.
Qed.

Lemma mjoin_le_bytes_u8 salt : Forall is_u8 (mjoin (to_le_bytes 2 <$> salt)).
Proof.
  induction salt as [|x l IH]; [constructor|].
  cbn [fmap list_fmap mjoin list_join]. apply Forall_app. split; [apply le_bytes_u8|exact IH].
Qed.

Lemma salt_round_trip `{CommitCodecLaws} salt :
  Forall is_u16 salt -> salt_of_hex (salt_to_hex salt) = salt.
Proof.
  intros Hs. unfold salt_of_hex, salt_to_hex. rewrite hex_decode_encode by apply mjoin_le_bytes_u8.
  by apply u16_chunks_le_bytes.
Qed.

(** ** Filling up with the burn weight *)

Definition Z_sum (l : list Z) : Z := foldr Z.add 0 l.

Lemma Z_sum_nonneg l : Forall is_u16 l -> 0 <= Z_sum l.
Proof. induction 1 as [|x l Hx _ IH]; cbn; [lia|]. unfold is_u16 in Hx. unfold Z_sum in IH. lia. Qed.

Lemma u32_sum_exact l acc :
  Forall is_u16 l -> 0 <= acc -> acc + Z_sum l < 2 ^ 32 -> fold_left u32_add l acc = acc + Z_sum l.
Proof.
  intros Hl. revert acc. induction Hl as [|x l Hx Hl IH]; intros acc Hacc Hlt; cbn [fold_left Z_sum foldr] in *.
  - lia.
  - fold (Z_sum l) in *. unfold is_u16 in Hx.
    pose proof (Z_sum_nonneg l Hl).
    assert (u32_add acc x = acc + x) as -> by (unfold u32_add; rewrite Z.mod_small; lia).
    rewrite IH; lia.
Qed.

Lemma mechanism_position_Some u l i : position u l = Some i -> l !! i = Some u.
Proof.
  revert i. induction l as [|x l IH]; intros i; [done|]. cbn [position].
  destruct (Z.eqb_spec x u) as [->|?]; [by intros [= <-]|].
  destruct (position u l) as [j|]; [|done]. intros [= <-]. simpl. by apply IH.
Qed.

Lemma Z_sum_alter f i l x :
  l !! i = Some x -> Z_sum (alter f i l) = Z_sum l - x + f x.
Proof.
  revert i. induction l as [|y l IH]; intros [|i]; try done.
  - intros [= ->]. cbn. lia.
  - intros Hi. change (alter f (S i) (y :: l)) with (y :: alter f i l). cbn [Z_sum foldr].
    fold (Z_sum l) (Z_sum (alter f i l)). rewrite (IH i Hi). lia.
Qed.

Lemma Z_sum_elem_le l i x : Forall is_u16 l -> l !! i = Some x -> x <= Z_sum l.
Proof.
  intros Hl. revert i. induction Hl as [|y l Hy Hl IH]; intros [|i]; try done; cbn [Z_sum foldr].
  - intros [= ->]. pose proof (Z_sum_nonneg l Hl). unfold Z_sum in *. lia.
  - intros Hi. unfold is_u16 in Hy. specialize (IH i Hi). unfold Z_sum in *. lia.
Qed.

Lemma Z_sum_app k l : Z_sum (k ++ l) = Z_sum k + Z_sum l.
Proof. induction k as [|x k IH]; cbn; [done|]. unfold Z_sum in *. lia. Qed.

Lemma fill_total uids ws uids' ws' :
  length uids = length ws -> Forall is_u16 ws -> Z_sum ws <= TARGET_SUM ->
  fill_with_burn uids ws = (uids', ws') ->
  length uids' = length ws' /\ Forall is_u16 ws' /\ Z_sum ws' = TARGET_SUM /\
  (forall i u, u <> 0 -> uids !! i = Some u -> uids' !! i = Some u /\ ws' !! i = ws !! i).
Proof.
  intros Hlen Hr Hle. unfold fill_with_burn. destruct uids as [|u0 us].
  { intros [= <- <-]. split_and!; [done|by repeat constructor|done|done]. }
  pose proof (Z_sum_nonneg ws Hr) as Hnn. unfold TARGET_SUM in *.
  rewrite (u32_sum_exact ws 0) by (done || lia). rewrite Z.add_0_l.
  destruct (Z.ltb_spec (Z_sum ws) 65535) as [Hlt|Hge].
  2:{ intros [= <- <-]. split_and!; [done|done|lia|done]. }
  unfold u64_as_u16. rewrite Z.mod_small by lia.
  rewrite (proj2 (Z.ltb_lt _ _)) by lia.
  destruct (position 0 (u0 :: us)) as [pos|] eqn:Hpos; intros [= <- <-].
  - apply mechanism_position_Some in Hpos.
    destruct (lookup_lt_is_Some_2 ws pos) as [w Hw];
      [rewrite <- Hlen; by eapply lookup_lt_Some|].
    pose proof (Z_sum_elem_le ws pos w Hr Hw) as Hwle.
    assert (Hwr : is_u16 w) by (by eapply Forall_lookup_1). unfold is_u16 in Hwr.
    split; [by rewrite length_alter|]. split; [|split].
    + apply Forall_alter; [done|]. intros y Hy _. rewrite Hw in Hy. injection Hy as <-.
      unfold is_u16, u16_saturating_add, u16_max. lia.
    + rewrite (Z_sum_alter _ _ _ _ Hw). unfold u16_saturating_add, u16_max. lia.
    + intros i u Hu Hi. split; [done|]. apply list_lookup_alter_ne. intros ->. congruence.
  - split; [cbn [length app] in *; rewrite !length_app; cbn [length]; lia|]. split; [|split].
    + apply Forall_app. split; [done|]. constructor; [unfold is_u16; lia|constructor].
    + rewrite Z_sum_app. cbn. lia.
    + intros i u Hu Hi. pose proof (lookup_lt_Some _ _ _ Hi) as Hil.
      change (u0 :: us ++ [0]) with ((u0 :: us) ++ [0]).
      by rewrite !lookup_app_l by (rewrite <- ?Hlen; exact Hil).
Qed.

(** ** The two ways of preparing weights agree *)

Section prepare.
Context `{Subtensor}.
Implicit Types (sc : SubtensorClient) (hs : list string).

Lemma find_uid_get sc hs h :
  h ∈ hs -> find_uid h (get_uids_for_hotkeys sc hs) = get_uid_for_hotkey sc h.
Proof.
  unfold find_uid, get_uids_for_hotkeys. induction hs as [|x hs IH]; intros Hin; [by inversion Hin|].
  cbn [omap list_omap]. destruct (get_uid_for_hotkey sc x) as [u|] eqn:Hx; simpl.
  - rewrite filter_cons. simpl. destruct (decide (x = h)) as [->|Hne]; [done|].
    apply IH. apply elem_of_cons in Hin as [->|Hin]; [congruence|done].
  - destruct (decide (h ∈ hs)) as [Hhs|Hhs]; [by apply IH|].
    apply elem_of_cons in Hin as [->|Hin]; [|done]. rewrite Hx. clear IH Hx.
    replace (filter _ _) with (@nil (string * Z)); [done|]. symmetry.
    induction hs as [|y hs IH]; [done|]. apply not_elem_of_cons in Hhs as [Hy Hhs]. cbn [omap list_omap].
    destruct (get_uid_for_hotkey sc y); simpl; [rewrite filter_cons; simpl; rewrite decide_False by done|];
      by apply IH.
Qed.

Lemma lookup_uids_get sc hs (m : gmap string Z) h :
  (forall x u, m !! x = Some u -> get_uid_for_hotkey sc x = Some u) ->
  h ∈ hs \/ is_Some (m !! h) ->
  fold_left (fun m '(h, uid) => <[h := uid]> m) (get_uids_for_hotkeys sc hs) m !! h =
  get_uid_for_hotkey sc h.
Proof.
  unfold get_uids_for_hotkeys. revert m. induction hs as [|x hs IH]; intros m Hm Hin; simpl.
  - destruct Hin as [Hin|[u Hu]]; [by inversion Hin|]. rewrite Hu. symmetry. by apply Hm.
  - destruct (get_uid_for_hotkey sc x) as [u|] eqn:Hx; simpl.
    + apply IH.
      * intros y v Hy. destruct (decide (x = y)) as [->|Hne].
        -- rewrite lookup_insert_eq in Hy. by injection Hy as <-.
        -- rewrite lookup_insert_ne in Hy by done. by apply Hm.
      * destruct (decide (x = h)) as [->|Hne]; [right; rewrite lookup_insert_eq; by eexists|].
        rewrite lookup_insert_ne by done. destruct Hin as [Hin|Hin]; [left|by right].
        apply elem_of_cons in Hin as [->|Hin]; done.
    + destruct (decide (h ∈ hs)) as [Hhs|Hhs]; [apply IH; [done|by left]|].
      destruct Hin as [Hin|Hin]; [|apply IH; [done|by right]].
      apply elem_of_cons in Hin as [->|Hin]; [|done].
      destruct (m !! x) as [v|] eqn:Hv; [apply Hm in Hv; congruence|].
      rewrite Hx. clear IH Hx Hm. revert m Hv. induction hs as [|y hs IH]; intros m Hv; [done|].
      apply not_elem_of_cons in Hhs as [Hy Hhs]. simpl.
      destruct (get_uid_for_hotkey sc y); simpl; apply IH; [done|by rewrite lookup_insert_ne|done..].
Qed.

Lemma omap_agree {A B} (f g : A -> option B) (l : list A) :
  (forall x, x ∈ l -> f x = g x) -> omap f l = omap g l.
Proof.
  induction l as [|x l IH]; intros Hfg; [done|]. simpl. rewrite (Hfg x (list_elem_of_here _ _)).
  assert (Htl : forall y, y ∈ l -> f y = g y) by (intros y Hy; apply Hfg; by right).
  destruct (g x); [f_equal|]; by apply IH.
Qed.

Lemma prepare_weights_spec sc (ws : list WeightAssignment) :
  ws_prepare_weights sc ws =
  (omap (fun w => get_uid_for_hotkey sc (wa_hotkey w)) ws,
   omap (fun w => (fun _ => weight_as_u16 (wa_weight w)) <$> get_uid_for_hotkey sc (wa_hotkey w)) ws).
Proof.
  unfold ws_prepare_weights. f_equal; apply omap_agree; intros w Hw;
    (rewrite find_uid_get; [done|]; by apply list_elem_of_fmap_2).
Qed.

Lemma mw_prepare_weights_spec sc (ws : list WeightAssignment) :
  mw_prepare_weights sc ws = ws_prepare_weights sc ws.
Proof.
  rewrite prepare_weights_spec. unfold mw_prepare_weights, convert_assignments_with_lookup.
  f_equal; apply omap_agree; intros w Hw;
    (rewrite lookup_uids_get; [done|done|left; by apply list_elem_of_fmap_2]).
Qed.

Lemma weight_as_u16_range w : is_u16 (weight_as_u16 w).
Proof. apply f64_as_u16_range. Qed.

Lemma ws_prepare_shape sc (ws : list WeightAssignment) :
  length (ws_prepare_weights sc ws).1 = length (ws_prepare_weights sc ws).2 /\
  Forall is_u16 (ws_prepare_weights sc ws).2.
Proof.
  rewrite prepare_weights_spec. simpl. split.
  - induction ws as [|w ws IH]; [done|]. simpl. destruct (get_uid_for_hotkey sc (wa_hotkey w)); simpl; [f_equal|]; exact IH.
  - apply list.Forall_forall. intros x Hx. apply list_elem_of_omap in Hx as (w & _ & Hw).
    destruct (get_uid_for_hotkey sc (wa_hotkey w)); [|done]. injection Hw as <-. apply weight_as_u16_range.
Qed.
End prepare.

(** ** Every kept commit can be opened *)

(** What the library documents of its commit data: the salt is made of [u16]s
    and the hash of a plain commit is a function of what is revealed later. *)
Class SubtensorLaws `{Subtensor} : Type := {
  plain_commit_hash : bytes -> Z -> list Z -> list Z -> list Z -> Z -> string;
  generate_salt_u16 : forall n c, Forall is_u16 (generate_salt n c).1;
  prepare_commit_data : forall account netuid uids weights vk n c,
    let d := (prepare_commit_reveal account netuid uids weights vk n c).1 in
    Forall is_u16 (cd_salt d) /\
    cd_commit_hash d = plain_commit_hash account netuid (cd_uids d) (cd_weights d) (cd_salt d)
                         (cd_version_key d)
}.

Section opening.
Context `{Ext : External} `{Sub : Subtensor} `{Disk_ : DiskIO} `{Codec : CommitCodec}.
Context `{HO : !HashOrder Z} `{SL : !SubtensorLaws} `{CL : !CommitCodecLaws}.
Variables (sc : SubtensorClient) (data_dir : option Path).

Definition commits_path : Path := default [] data_dir ++ [DEFAULT_COMMITS_FILE].

(** The reveal of the commit has the preimage of the committed hash. *)
Definition opens (c : PendingMechanismCommit) : Prop :=
  match sc_signer sc with
  | Some sg => pmc_hash c = commit_hash_to_hex (generate_mechanism_commit_hash (account_id sg)
      (netuid sc) (pmc_mechanism_id c) (pmc_uids c) (pmc_weights c) (pmc_get_salt c)
      (pmc_version_key c))
  | None => False
  end.
Definition opens_plain (c : PendingCommitV2) : Prop :=
  match sc_signer sc with
  | Some sg => pc_hash c = plain_commit_hash (account_id sg) (netuid sc) (pc_uids c) (pc_weights c)
      (pc_get_salt c) (pc_version_key c)
  | None => False
  end.

Definition state_opens (s : PersistedCommitState) : Prop :=
  map_Forall (fun id c => pmc_mechanism_id c = id /\ opens c) (ps_pending_mechanism_commits s) /\
  (forall c, ps_pending_commit s = Some c -> opens_plain c).

Definition env_opens (e : Env) : Prop :=
  ws_client (en_sub e) = sc /\ ws_persist_path (en_sub e) = commits_path /\
  state_opens (ws_state (en_sub e)) /\ state_opens (commits_load commits_path (en_disk e)).

(** A restart of the process, with the same configuration. *)
Definition restart (e : Env) : Env :=
  mk_Env (WeightSubmitter_new sc data_dir (en_disk e)) (en_disk e) (en_chain e).

Inductive submitter_op : Type :=
| OpSetEpoch (epoch : Z)
| OpSubmit (weights : list WeightAssignment)
| OpForceReveal
| OpBatch (mechanism_weights : mechanism_batch)
| OpReveal
| OpCrvVersion
| OpRestart.

Definition run_submitter (o : submitter_op) (e : Env) : Env :=
  match o with
  | OpSetEpoch epoch => (set_epoch epoch e).2
  | OpSubmit weights => (submit_weights weights e).2
  | OpForceReveal => (force_reveal e).2
  | OpBatch b => (submit_mechanism_weights_batch b e).2
  | OpReveal => (reveal_pending_mechanism_commits e).2
  | OpCrvVersion => (get_crv_version e).2
  | OpRestart => restart e
  end.

(** What loading gives after a save. *)
Lemma load_after_write s path d t :
  commits_to_json s = Ok t -> (fs_write path (str_bytes t) d).1 = Ok tt ->
  commits_load path (fs_write path (str_bytes t) d).2 = s.
Proof.
  intros Ht. destruct (commits_json_round_trip s t Ht) as [Hutf Hfrom].
  unfold fs_write. unfold mbind, SE_bind, get_state, require, modify.
  destruct (io_ok path && dir_exists d (parent path)) eqn:Hok; simpl; [intros _|done].
  apply andb_true_iff in Hok as [Hok _].
  unfold commits_load, read_to_string, fs_read, mbind, result_bind. simpl. rewrite Hok.
  rewrite lookup_insert_eq. simpl. by rewrite Hutf, bytes_str_bytes, Hfrom.
Qed.

Lemma write_fails_same path b d x : (fs_write path b d).1 = Err x -> (fs_write path b d).2 = d.
Proof.
  unfold fs_write, mbind, SE_bind, get_state, require, modify. by destruct (_ && _).
Qed.

Lemma load_after_save s path d :
  let d' := (commits_save s path d).2 in d' = d \/ commits_load path d' = s.
Proof.
  unfold commits_save, mbind, SE_bind, lift. simpl.
  destruct (commits_to_json s) as [t|x] eqn:Ht; simpl; [|by left].
  destruct (fs_write path (str_bytes t) d).1 as [[]|x] eqn:Hw.
  - right. by apply load_after_write.
  - left. by eapply write_fails_same.
Qed.

(** What each step keeps. *)
Definition keeps {A} (m : SubmitM A) : Prop := forall e, env_opens e -> env_opens (m e).2.

Lemma keeps_bind {A B} (m : SubmitM A) (f : A -> SubmitM B) :
  keeps m -> (forall a, keeps (f a)) -> keeps (m ≫= f).
Proof.
  intros Hm Hf e He. unfold mbind, SE_bind. specialize (Hm e He).
  destruct (m e) as [[a|x] e']; [by apply Hf|done].
Qed.
Lemma keeps_ret {A} (a : A) : keeps (mret a). Proof. by intros e. Qed.
Lemma keeps_lift {A} (r : result string A) : keeps (lift r). Proof. by intros e. Qed.
Lemma keeps_get : keeps get_state. Proof. by intros e. Qed.
Lemma keeps_require b (x : string) : keeps (require b x).
Proof. intros e. unfold require. by destruct b. Qed.
Lemma keeps_call {A} (m : SE Chain string A) : keeps (chain_call m).
Proof. intros [su d c] He. unfold chain_call. simpl. by destruct (m c). Qed.
Lemma keeps_client : keeps the_client.
Proof. by intros e. Qed.
Lemma keeps_persist : keeps persist.
Proof.
  intros [su d c] (Hc & Hp & Hs & Hd). unfold persist. simpl in *.
  destruct (commits_save _ _ d) as [r d'] eqn:Hsave. split_and!; try done. simpl.
  destruct (load_after_save (ws_state su) (ws_persist_path su) d) as [Heq|Heq];
    rewrite Hsave in Heq; simpl in Heq; [by subst|]. by rewrite <- Hp, Heq.
Qed.
Lemma keeps_update f : (forall s, state_opens s -> state_opens (f s)) -> keeps (update_state f).
Proof. intros Hf e (Hc & Hp & Hs & Hd). split_and!; simpl; try done. by apply Hf. Qed.
Lemma keeps_unwrap (v : Z) (m : SubmitM Z) : keeps m -> keeps (unwrap_or v m).
Proof. intros Hm e He. unfold unwrap_or. specialize (Hm e He). by destruct (m e) as [[]]. Qed.

Lemma opens_clear_plain s : state_opens s -> state_opens (set_pending_commit None s).
Proof. by intros [Hm _]. Qed.
Lemma opens_clear_mechanism s : state_opens s -> state_opens (set_pending_mechanism ∅ s).
Proof. intros [_ Hp]. split; [apply map_Forall_empty|done]. Qed.
Lemma opens_default : state_opens PersistedCommitState_default.
Proof. split; [apply map_Forall_empty|done]. Qed.

Lemma opens_new_epoch epoch s : state_opens s -> state_opens (new_epoch epoch s).
Proof.
  intros Hs. unfold new_epoch. case_decide; [done|]. by apply opens_clear_plain, opens_clear_mechanism.
Qed.

(** Binds that pass on what is known of the value. *)
Lemma keeps_bind_client {B} (f : SubtensorClient -> SubmitM B) :
  keeps (f sc) -> keeps (the_client ≫= f).
Proof. intros Hf e He. pose proof He as (Hc & _). unfold mbind, SE_bind. simpl. rewrite Hc. by apply Hf. Qed.
Lemma keeps_bind_lift {A B} (r : result string A) (f : A -> SubmitM B) :
  (forall a, r = Ok a -> keeps (f a)) -> keeps (lift r ≫= f).
Proof. intros Hf e He. unfold mbind, SE_bind, lift. destruct r; [by apply Hf|done]. Qed.
Lemma keeps_bind_infallible {A B} (g : Chain -> A * Chain) (f : A -> SubmitM B) :
  (forall c, keeps (f (g c).1)) -> keeps (chain_call (infallible g) ≫= f).
Proof.
  intros Hf e He. unfold mbind, SE_bind, chain_call, infallible. specialize (Hf (en_chain e)).
  destruct (g (en_chain e)) as [a c]. by apply Hf.
Qed.
Lemma signer_Some sg : signer sc = Ok sg -> sc_signer sc = Some sg.
Proof. unfold signer, ok_or. by destruct (sc_signer sc); intros [= <-]. Qed.

Ltac keep :=
  repeat first
    [ apply keeps_bind; [|intros ?] | apply keeps_ret | apply keeps_lift | apply keeps_get
    | apply keeps_require | apply keeps_call | apply keeps_client | apply keeps_persist
    | apply keeps_unwrap | apply keeps_update
    | progress case_match | progress case_decide ].

Lemma keeps_set_epoch epoch : keeps (set_epoch epoch).
Proof.
  unfold set_epoch. keep; apply opens_new_epoch.
Qed.

Lemma keeps_get_crv_version : keeps get_crv_version.
Proof. unfold get_crv_version. keep; done. Qed.

Lemma keeps_reveal_pending_v2 p : keeps (reveal_pending_v2 p).
Proof. unfold reveal_pending_v2. keep. Qed.

Lemma keeps_force_reveal : keeps force_reveal.
Proof.
  unfold force_reveal. keep; apply opens_clear_plain.
Qed.

(** A new plain commit opens. *)
Lemma new_plain_opens sg uids weights c epoch :
  sc_signer sc = Some sg ->
  let d := (prepare_commit_reveal (account_id sg) (netuid sc) uids weights (version_key sc) 8 c).1 in
  opens_plain (mk_PendingCommitV2 (cd_commit_hash d) (cd_uids d) (cd_weights d)
    (salt_to_hex (cd_salt d)) (cd_version_key d) epoch).
Proof.
  intros Hsg. simpl. pose proof (prepare_commit_data (account_id sg) (netuid sc) uids weights
    (version_key sc) 8 c) as Hd. cbv zeta in Hd. destruct Hd as [Hsalt Hhash].
  unfold opens_plain, pc_get_salt. simpl. by rewrite Hsg, salt_round_trip, Hhash.
Qed.

Lemma opens_store_plain c s :
  opens_plain c -> state_opens s -> state_opens (set_pending_commit (Some c) s).
Proof. intros Hc [Hm _]. split; [done|]. by intros ? [= <-]. Qed.

Lemma keeps_submit_with_commit_reveal ws : keeps (submit_with_commit_reveal ws).
Proof.
  unfold submit_with_commit_reveal. apply keeps_bind; [apply keeps_get|]. intros e0.
  destruct (ps_pending_commit (ws_state (en_sub e0))) as [p|].
  { keep; apply opens_clear_plain. }
  apply keeps_bind_client. destruct (ws_prepare_weights sc ws) as [uids vals].
  apply keeps_bind; [apply keeps_require|]. intros _.
  apply keeps_bind_lift. intros sg Hsg. apply signer_Some in Hsg.
  apply keeps_bind_infallible. intros c. keep. intros s. by apply opens_store_plain, new_plain_opens.
Qed.

Lemma keeps_submit_weights ws : keeps (submit_weights ws).
Proof.
  unfold submit_weights, submit_direct. apply keeps_bind_client.
  destruct (use_commit_reveal sc); [apply keeps_submit_with_commit_reveal|]. keep.
Qed.

(** *** Batches *)

(** What a kept commit is of an entry of the batch. *)
Definition commit_of (epoch : Z) (b : Z * list Z * list Z) (c : PendingMechanismCommit) : Prop :=
  pmc_mechanism_id c = b.1.1 /\ pmc_uids c = b.1.2 /\ pmc_weights c = b.2 /\
  pmc_version_key c = version_key sc /\ pmc_epoch c = epoch /\ opens c.

Lemma prepare_commits_spec sg epoch b e :
  sc_signer sc = Some sg ->
  exists calls cs c',
    prepare_commits (account_id sg) (netuid sc) (version_key sc) epoch b e =
      (Ok (calls, cs), mk_Env (en_sub e) (en_disk e) c') /\
    Forall2 (commit_of epoch) b cs.
Proof.
  intros Hsg. revert e. induction b as [|[[id u] w] b IH]; intros e.
  { exists [], [], (en_chain e). by destruct e. }
  cbn [prepare_commits]. unfold mbind at 1, SE_bind at 1, chain_call at 1, infallible.
  pose proof (generate_salt_u16 8 (en_chain e)) as Hsalt.
  destruct (generate_salt 8 (en_chain e)) as [salt c1]. simpl in Hsalt.
  destruct (IH (mk_Env (en_sub e) (en_disk e) c1)) as (calls & cs & c' & Heq & Hall).
  unfold mbind, SE_bind. rewrite Heq. eexists _, _, _. split; [reflexivity|].
  constructor; [|done]. split_and!; try done. unfold opens, pmc_get_salt. simpl.
  by rewrite Hsg, salt_round_trip.
Qed.

Lemma insert_commits_lookup cs m id :
  insert_commits cs m !! id =
  match last (filter (fun c => pmc_mechanism_id c = id) cs) with
  | Some c => Some c
  | None => m !! id
  end.
Proof.
  unfold insert_commits. revert m. induction cs as [|c cs IH] using rev_ind; intros m; [done|].
  rewrite fold_left_app, filter_app, last_app. simpl. rewrite filter_cons, filter_nil.
  case_decide as Hid; [subst; by rewrite lookup_insert_eq|].
  simpl. rewrite lookup_insert_ne by done. apply IH.
Qed.

Lemma insert_commits_open epoch b cs m :
  Forall2 (commit_of epoch) b cs ->
  map_Forall (fun id c => pmc_mechanism_id c = id /\ opens c) m ->
  map_Forall (fun id c => pmc_mechanism_id c = id /\ opens c) (insert_commits cs m).
Proof.
  intros Hall Hm id c. rewrite insert_commits_lookup. case_match eqn:Hl; [|apply Hm].
  intros [= <-]. apply last_Some_elem_of in Hl. apply list_elem_of_filter in Hl as [<- Hin].
  split; [done|]. apply list_elem_of_lookup in Hin as [i Hi].
  destruct (Forall2_lookup_r _ _ _ _ _ Hall Hi) as (x & _ & Hx). apply Hx.
Qed.

Lemma keeps_batch_commit_reveal b : keeps (submit_mechanism_weights_batch_commit_reveal b).
Proof.
  unfold submit_mechanism_weights_batch_commit_reveal. apply keeps_bind_client.
  apply keeps_bind_lift. intros sg Hsg. apply signer_Some in Hsg.
  apply keeps_bind; [apply keeps_get|]. intros e0 e He.
  destruct (prepare_commits_spec sg (ws_current_epoch (en_sub e0)) b e Hsg)
    as (calls & cs & c' & Heq & Hall).
  unfold mbind at 1, SE_bind at 1. rewrite Heq.
  match goal with |- env_opens (?m ?e').2 => assert (Hk : keeps m); [|by apply (Hk e')] end.
  keep. intros s [Hm Hp]. split; [|done]. by eapply insert_commits_open.
Qed.

Lemma keeps_crv4_each cl sg n vk t cb rp cv dr b tx :
  keeps (crv4_commit_each cl sg n vk t cb rp cv dr b tx).
Proof. revert tx. induction b as [|[[id u] w] b IH]; intros tx; cbn [crv4_commit_each]; keep. apply IH. Qed.

Lemma keeps_batch b : keeps (submit_mechanism_weights_batch b).
Proof.
  unfold submit_mechanism_weights_batch, crv_version_or_zero.
  apply keeps_bind; [apply keeps_require|]. intros _. apply keeps_bind; [apply keeps_client|]. intros sc'.
  destruct (use_commit_reveal sc'); simpl; [|unfold submit_mechanism_weights_batch_direct; keep].
  apply keeps_bind; [apply keeps_unwrap, keeps_get_crv_version|]. intros v.
  destruct (4 <=? v); [|apply keeps_batch_commit_reveal].
  unfold submit_mechanism_weights_batch_crv4. keep. apply keeps_crv4_each.
Qed.

Lemma keeps_reveal_each l r tx : keeps (reveal_each l r tx).
Proof. revert r tx. induction l as [|[id c] l IH]; intros r tx; cbn [reveal_each]; keep. apply IH. Qed.

Lemma keeps_reveal : keeps reveal_pending_mechanism_commits.
Proof.
  unfold reveal_pending_mechanism_commits. keep; try apply keeps_reveal_each; try done.
  all: by intros s; apply opens_clear_mechanism.
Qed.

Lemma keeps_restart e : env_opens e -> env_opens (restart e).
Proof. by intros (Hc & Hp & Hs & Hd). Qed.

Lemma keeps_run o e : env_opens e -> env_opens (run_submitter o e).
Proof.
  intros He. destruct o; cbn [run_submitter].
  - by apply keeps_set_epoch.
  - by apply keeps_submit_weights.
  - by apply keeps_force_reveal.
  - by apply keeps_batch.
  - by apply keeps_reveal.
  - by apply keeps_get_crv_version.
  - by apply keeps_restart.
Qed.

(** ** Restarts *)

Definition writable (d : Disk) : Prop :=
  io_ok commits_path = true /\ dir_exists d (parent commits_path) = true /\
  forall s, is_ok (commits_to_json s) = true.

Lemma save_writable s d :
  writable d ->
  (commits_save s commits_path d).1 = Ok tt /\
  commits_load commits_path (commits_save s commits_path d).2 = s /\
  writable (commits_save s commits_path d).2.
Proof.
  intros (Hio & Hdir & Hjson). unfold commits_save, mbind, SE_bind, lift.
  specialize (Hjson s) as Hs. destruct (commits_to_json s) as [t|x] eqn:Ht; [|done].
  assert (Hw : (fs_write commits_path (str_bytes t) d).1 = Ok tt).
  { unfold fs_write, mbind, SE_bind, get_state, require, modify. by rewrite Hio, Hdir. }
  split; [done|]. split; [by apply load_after_write|].
  unfold fs_write, mbind, SE_bind, get_state, require, modify. rewrite Hio, Hdir. done.
Qed.

Lemma persist_writable e :
  ws_persist_path (en_sub e) = commits_path -> writable (en_disk e) ->
  exists d, persist e = (Ok tt, mk_Env (en_sub e) d (en_chain e)) /\
    commits_load commits_path d = ws_state (en_sub e) /\ writable d.
Proof.
  intros Hp Hw. unfold persist. rewrite Hp.
  destruct (save_writable (ws_state (en_sub e)) (en_disk e) Hw) as (_ & Hl & Hw').
  destruct (commits_save _ _ _) as [r d]. by exists d.
Qed.

(** Setting the epoch of a restarted submitter. *)
Lemma restart_set_epoch epoch e :
  writable (en_disk e) ->
  let e' := (set_epoch epoch (restart e)).2 in
  let s := commits_load commits_path (en_disk e) in
  ws_state (en_sub e') = (if decide (epoch = 0) then s else new_epoch epoch s) /\
  commits_load commits_path (en_disk e') = (if decide (epoch = 0) then s else new_epoch epoch s).
Proof.
  intros Hw. unfold set_epoch, mbind, SE_bind, get_state, modify. simpl.
  fold commits_path. case_decide; [done|].
  match goal with |- context [persist ?e] => destruct (persist_writable e) as (d & Heq & Hl & _); [done..|] end.
  by rewrite Heq.
Qed.

Lemma new_epoch_same epoch s : ps_committed_epoch s = Some epoch -> new_epoch epoch s = s.
Proof. intros Hs. unfold new_epoch. by rewrite decide_True. Qed.

(** What a successful batch leaves. *)
Lemma batch_commit_effect b e tx e1 :
  env_opens e -> writable (en_disk e) ->
  submit_mechanism_weights_batch_commit_reveal b e = (Ok tx, e1) ->
  exists cs, Forall2 (commit_of (ws_current_epoch (en_sub e))) b cs /\
    ws_state (en_sub e1) = mk_PersistedCommitState (Some (ws_current_epoch (en_sub e)))
      (insert_commits cs (ps_pending_mechanism_commits (ws_state (en_sub e))))
      (ps_pending_commit (ws_state (en_sub e))) (ps_last_revealed_epoch (ws_state (en_sub e))) /\
    commits_load commits_path (en_disk e1) = ws_state (en_sub e1) /\ writable (en_disk e1).
Proof.
  intros (Hc & Hp & _ & _) Hw. unfold submit_mechanism_weights_batch_commit_reveal.
  unfold mbind at 1, SE_bind at 1. simpl. rewrite Hc.
  unfold mbind at 1, SE_bind at 1, lift at 1. destruct (signer sc) as [sg|x] eqn:Hsg; [|done].
  apply signer_Some in Hsg. unfold mbind at 1, SE_bind at 1. simpl.
  destruct (prepare_commits_spec sg (ws_current_epoch (en_sub e)) b e Hsg)
    as (calls & cs & c' & Heq & Hall).
  unfold mbind at 1, SE_bind at 1. rewrite Heq.
  unfold mbind at 1, SE_bind at 1, lift at 1. destruct (client sc) as [cl|x]; [|done].
  unfold mbind at 1, SE_bind at 1, chain_call at 1. simpl.
  destruct (batch_all cl sg calls c') as [[t|x] c2]; [|done].
  unfold mbind at 1, SE_bind at 1, update_state, modify. simpl.
  unfold mbind at 1, SE_bind at 1.
  match goal with |- context [persist ?e] => destruct (persist_writable e) as (d & Hpe & Hl & Hw'); [done..|] end.
  rewrite Hpe. intros [= <- <-]. exists cs. done.
Qed.

Lemma Forall2_last_filter {A B} (R : A -> B -> Prop) (P : A -> Prop) (Q : B -> Prop)
    `{forall x, Decision (P x)} `{forall x, Decision (Q x)} l k x :
  (forall a b, R a b -> P a <-> Q b) -> Forall2 R l k -> last (filter P l) = Some x ->
  exists y, last (filter Q k) = Some y /\ R x y.
Proof.
  intros HPQ Hall. assert (Hf : Forall2 R (filter P l) (filter Q k)).
  { induction Hall as [|a b l k Hab _ IH]; [constructor|]. rewrite !filter_cons.
    specialize (HPQ a b Hab). destruct (decide (P a)), (decide (Q b)); try tauto. by constructor. }
  rewrite !last_lookup, <- (Forall2_length _ _ _ Hf). intros Hx.
  destruct (Forall2_lookup_l _ _ _ _ _ Hf Hx) as (y & Hy & HR). by exists y.
Qed.

(** C33. A batch committed with hash-based commit and reveal survives a restart of
    the validator: once the new process is told the epoch in which the batch was
    committed, it holds for every mechanism of the batch the committed UIDs and
    weights together with a salt that opens the committed hash. *)
Theorem batch_survives_restart b e tx e1 id uids weights :
  env_opens e -> writable (en_disk e) ->
  submit_mechanism_weights_batch_commit_reveal b e = (Ok tx, e1) ->
  last (filter (fun x => x.1.1 = id) b) = Some (id, uids, weights) ->
  let e2 := (set_epoch (ws_current_epoch (en_sub e)) (restart e1)).2 in
  exists c, ps_pending_mechanism_commits (ws_state (en_sub e2)) !! id = Some c /\
    commit_of (ws_current_epoch (en_sub e)) (id, uids, weights) c.
Proof.
  intros He Hw Hrun Hlast. destruct (batch_commit_effect b e tx e1 He Hw Hrun)
    as (cs & Hall & Hstate & Hload & Hw1).
  destruct (Forall2_last_filter (commit_of (ws_current_epoch (en_sub e))) (fun x => x.1.1 = id)
    (fun c => pmc_mechanism_id c = id) b cs (id, uids, weights)) as (c & Hc & Hof); [|done..|].
  { intros x c [Hid _]. by rewrite Hid. }
  exists c. split; [|done].
  destruct (restart_set_epoch (ws_current_epoch (en_sub e)) e1 Hw1) as [Hst _]. cbv zeta in Hst |- *.
  assert (Hsame : ws_state (en_sub (set_epoch (ws_current_epoch (en_sub e)) (restart e1)).2) =
    ws_state (en_sub e1)).
  { rewrite Hst, Hload. case_decide; [done|]. apply new_epoch_same. by rewrite Hstate. }
  rewrite Hsame, Hstate. simpl. by rewrite insert_commits_lookup, Hc.
Qed.

(** However the submitter is used - epoch changes, plain and batched
    submissions, reveals that succeed or fail, restarts in between - every
    commit it keeps for a reveal, in memory and on disk, opens the hash it
    committed with: the salt read back from its hexadecimal form is the one
    that was hashed. *)
Theorem kept_commits_open ops e :
  en_sub e = WeightSubmitter_new sc data_dir (en_disk e) ->
  files (en_disk e) !! commits_path = None ->
  let e' := fold_left (fun e o => run_submitter o e) ops e in
  state_opens (ws_state (en_sub e')) /\ state_opens (commits_load commits_path (en_disk e')).
Proof.
  intros Hnew Hfile.
  assert (Hdefault : commits_load commits_path (en_disk e) = PersistedCommitState_default).
  { unfold commits_load, read_to_string, fs_read. rewrite Hfile. by destruct (io_ok commits_path). }
  assert (He : env_opens e).
  { unfold env_opens. rewrite Hnew. unfold WeightSubmitter_new. cbn [ws_client ws_persist_path ws_state].
    fold commits_path. rewrite Hdefault. split_and!; done || apply opens_default. }
  assert (Hrun : env_opens (fold_left (fun e o => run_submitter o e) ops e)).
  { clear Hnew Hfile Hdefault. revert e He. induction ops as [|o ops IH]; intros e He; [done|].
    simpl. by apply IH, keeps_run. }
  by destruct Hrun as (_ & _ & Hs & Hd).
Qed.

(** A plain commit does not survive a restart: the epoch of the commit is not
    recorded, so the first epoch the new process is told - the committed one
    included - discards the commit, on disk too, and it is never revealed. *)
Theorem plain_commit_lost_on_restart ws e tx e1 epoch :
  ws_client (en_sub e) = sc -> ws_persist_path (en_sub e) = commits_path -> writable (en_disk e) ->
  ps_committed_epoch (ws_state (en_sub e)) = None -> ps_pending_commit (ws_state (en_sub e)) = None ->
  submit_with_commit_reveal ws e = (Ok tx, e1) -> epoch <> 0 ->
  is_Some (ps_pending_commit (commits_load commits_path (en_disk e1))) /\
  let e2 := (set_epoch epoch (restart e1)).2 in
  ps_pending_commit (ws_state (en_sub e2)) = None /\
  ps_pending_commit (commits_load commits_path (en_disk e2)) = None.
Proof.
  intros Hc Hp Hw Hep Hnone Hrun Hne. revert Hrun. unfold submit_with_commit_reveal.
  unfold mbind at 1, SE_bind at 1. simpl. rewrite Hnone.
  unfold mbind at 1, SE_bind at 1. simpl. rewrite Hc.
  destruct (ws_prepare_weights sc ws) as [uids vals].
  unfold mbind at 1, SE_bind at 1, require. destruct (negb _); [|done].
  unfold mbind at 1, SE_bind at 1, lift at 1. destruct (signer sc) as [sg|x]; [|done].
  unfold mbind at 1, SE_bind at 1, chain_call at 1, infallible.
  destruct (prepare_commit_reveal _ _ _ _ _ _ _) as [d c'].
  unfold mbind at 1, SE_bind at 1, lift at 1. destruct (client sc) as [cl|x]; [|done].
  unfold mbind at 1, SE_bind at 1, chain_call at 1. simpl.
  destruct (commit_weights _ _ _ _ _) as [[t|x] c2]; [|done].
  unfold mbind at 1, SE_bind at 1, update_state, modify. simpl. unfold mbind at 1, SE_bind at 1.
  match goal with |- context [persist ?e] => destruct (persist_writable e) as (d' & Hpe & Hl & Hw'); [done..|] end.
  rewrite Hpe. intros [= <- <-]. simpl in Hl |- *.
  split; [rewrite Hl; by eexists|].
  match goal with |- context [restart ?e] => destruct (restart_set_epoch epoch e Hw') as [Hst Hld] end.
  cbv zeta in Hst, Hld |- *. simpl in Hst, Hld. rewrite Hst, Hld, Hl, decide_False by done.
  unfold new_epoch. simpl. rewrite Hep. by rewrite decide_False.
Qed.

Lemma reveal_each_keeps l r tx e x e1 :
  reveal_each l r tx e = (x, e1) -> en_sub e1 = en_sub e /\ en_disk e1 = en_disk e.
Proof.
  revert r tx e. induction l as [|[id c] l IH]; intros r tx e; cbn [reveal_each]; [by intros [= <- <-]|].
  unfold mbind at 1, SE_bind at 1. simpl. unfold mbind at 1, SE_bind at 1, lift at 1.
  destruct (client _); [|by intros [= <- <-]]. unfold mbind at 1, SE_bind at 1, lift at 1.
  destruct (signer _); [|by intros [= <- <-]]. unfold mbind at 1, SE_bind at 1, chain_call at 1.
  destruct (reveal_mechanism_weights _ _ _ _ _ _ _ _ _) as [[t|y] c'].
  - intros Hrun. by apply IH in Hrun.
  - by intros [= <- <-].
Qed.

(** A failed reveal loses every commit: when one of the pending mechanism
    reveals fails, the pending commits - those already revealed, the failed one
    and those not tried yet - are gone from memory and from disk, and no reveal
    is recorded. *)
Theorem failed_reveal_loses_commits e x e1 :
  ws_persist_path (en_sub e) = commits_path -> writable (en_disk e) ->
  reveal_pending_mechanism_commits e = (Err x, e1) ->
  ps_pending_mechanism_commits (ws_state (en_sub e1)) = ∅ /\
  ps_pending_mechanism_commits (commits_load commits_path (en_disk e1)) = ∅ /\
  ps_last_revealed_epoch (ws_state (en_sub e1)) = ps_last_revealed_epoch (ws_state (en_sub e)).
Proof.
  intros Hp Hw. unfold reveal_pending_mechanism_commits. unfold mbind at 1, SE_bind at 1. simpl.
  case_decide as Hem; [done|]. unfold mbind at 1, SE_bind at 1, update_state at 1, modify at 1.
  unfold mbind at 1, SE_bind at 1.
  match goal with |- context [persist ?e] => destruct (persist_writable e) as (d & Hpe & Hl & Hw'); [done..|] end.
  rewrite Hpe. unfold mbind at 1, SE_bind at 1.
  destruct (reveal_each _ _ _ _) as [[[r t]|y] e2] eqn:Hrun;
    apply reveal_each_keeps in Hrun as [Hsub Hdisk].
  - unfold mbind, SE_bind, update_state, modify, persist. by destruct (commits_save _ _ _).
  - intros [= <- <-]. rewrite Hsub, Hdisk. simpl in *. by rewrite Hl.
Qed.
End opening.

(** ** The manager *)

Section manager_props.
Context `{Sub : Subtensor} `{HO : !HashOrder Z}.

(** The weights the manager sends for a mechanism - resolved hotkeys with
    their 16-bit weights, UID 0 taking the rest - have one weight per UID, stay
    within 16 bits and sum to exactly 65535, unless the resolved weights alone
    already exceed that sum; and no resolved miner's weight is changed. *)
Theorem manager_weights_full (sc : SubtensorClient) (ws : list WeightAssignment) uids vals :
  Z_sum (ws_prepare_weights sc ws).2 <= TARGET_SUM ->
  prepare_weights_with_fallback sc ws = (uids, vals) ->
  length uids = length vals /\ Forall is_u16 vals /\ Z_sum vals = TARGET_SUM /\
  forall i u, u <> 0 -> (ws_prepare_weights sc ws).1 !! i = Some u ->
    uids !! i = Some u /\ vals !! i = (ws_prepare_weights sc ws).2 !! i.
Proof.
  intros Hle. unfold prepare_weights_with_fallback. rewrite mw_prepare_weights_spec.
  destruct (ws_prepare_shape sc ws) as [Hlen Hr].
  destruct (ws_prepare_weights sc ws) as [u v]. by apply fill_total.
Qed.

(** Direct submissions: once per mechanism and epoch, also for an earlier one. *)
Lemma manager_submits_once id ws epoch st tx st' ws' epoch' :
  use_commit_reveal (mw_client st.1) = false ->
  submit_mechanism_weights id ws epoch st = (Ok (Some tx), st') -> epoch' <= epoch ->
  submit_mechanism_weights id ws' epoch' st' = (Ok None, st').
Proof.
  destruct st as [m c]. simpl. intros Hcr. unfold submit_mechanism_weights.
  unfold mbind at 1, SE_bind at 1. simpl. destruct (has_set_weights_for_epoch m id epoch); [done|].
  destruct (prepare_weights_with_fallback (mw_client m) ws) as [uids vals]. rewrite Hcr.
  unfold submit_mechanism_direct, mbind, SE_bind, lift, get_state, modify. simpl.
  destruct (client (mw_client m)) as [cl|]; [|done]. destruct (signer (mw_client m)) as [sg|]; [|done].
  destruct (set_mechanism_weights _ _ _ _ _ _ _ _) as [[t|] c']; [|done].
  intros [= <- <-] Hle. simpl. unfold has_set_weights_for_epoch. simpl.
  rewrite lookup_insert_eq, (proj2 (Z.leb_le _ _) Hle). done.
Qed.

(** In commit-and-reveal mode a submission while a commit is pending reveals the
    commit and drops the weights it was given; the mark is the epoch of the
    commit. *)
Lemma manager_reveal_drops_weights id ws ws' epoch st p r st' :
  use_commit_reveal (mw_client st.1) = true ->
  has_set_weights_for_epoch st.1 id epoch = false -> mw_pending st.1 !! id = Some p ->
  submit_mechanism_weights id ws epoch st = (r, st') ->
  submit_mechanism_weights id ws' epoch st = (r, st') /\ mw_pending st'.1 !! id = None.
Proof.
  destruct st as [m c]. simpl. intros Hcr Hset Hp.
  unfold submit_mechanism_weights, submit_mechanism_with_commit_reveal, mbind, SE_bind. simpl. rewrite Hset.
  destruct (prepare_weights_with_fallback (mw_client m) ws) as [uids vals].
  destruct (prepare_weights_with_fallback (mw_client m) ws') as [uids' vals']. rewrite Hcr, Hp.
  intros Hrun. split; [exact Hrun|]. revert Hrun.
  unfold reveal_mechanism_pending_v2, mbind, SE_bind, lift, set_mw_pending, get_state, modify. simpl.
  destruct (client (mw_client m)) as [cl|]; [|intros [= <- <-]; simpl; by rewrite lookup_delete_eq].
  destruct (signer (mw_client m)) as [sg|]; [|intros [= <- <-]; simpl; by rewrite lookup_delete_eq].
  destruct (reveal_mechanism_weights _ _ _ _ _ _ _ _ _) as [[t|] c'];
    intros [= <- <-]; simpl; by rewrite lookup_delete_eq.
Qed.
End manager_props.
