(* ===== verification/BittensorExamples.v ===== *)
(** * A concrete chain

    Instances of the parameters of the Bittensor integration - a chain on which
    every call succeeds as long as reveals are left in its budget, a codec for
    the persisted commits, hexadecimal decoding - and the theorems of
    [WeightSubmissionProps] evaluated on them. *)

From Stdlib Require Import Ascii.
From S2P Require Import Prelude Float64 Crypto RustStrings RustBytes CommitReveal SubnetManager Bittensor WeightSubmission LocalListProps WeightSubmissionProps StorageExamples.

Module BittensorToy.
Export StorageToy.

Definition tx {A} (n : A) (s : string) : SE nat string string := fun c => (Ok s, c).

Definition toy_data (uids weights salt : list Z) (vk : Z) : CommitData :=
  mk_CommitData (hex uids) uids weights salt vk.

Definition toy_salt : list Z := [1; 2; 3; 4; 5; 6; 700; 65535].

(** A reveal uses up one unit of the budget. *)
Definition toy_reveal : SE nat string string := fun c =>
  match c with O => (Err "chain unavailable"%string, O) | S c' => (Ok "revealed"%string, c') end.

#[export] Instance toy_subtensor : Subtensor := {|
  Chain := nat;
  BittensorClient := string;
  BittensorSigner := bytes;
  account_id := fun s => s;
  signer_from_seed := fun s => Ok (str_bytes s);
  from_ss58check := fun s => Some (str_bytes s);
  open_client := fun e c => (Ok e, c);
  fetch_metagraph := fun _ _ c => (Ok (mk_Metagraph
    [(7, mk_NeuronInfo (str_bytes "alice") 5 5 f64_one f64_one f64_one);
     (0, mk_NeuronInfo (str_bytes "owner") 0 0 f64_zero f64_zero f64_zero)]), c);
  fetch_mechanism_count := fun _ _ c => (Ok 2, c);
  current_epoch_info := fun _ _ c => (Ok (mk_EpochInfo 720 2 Evaluation 10 360), c);
  get_next_epoch_start_block := fun _ _ c => (Ok (Some 720), c);
  block_number := fun _ c => (Ok 700, c);
  listener_init := fun _ _ c => (Ok tt, c);
  listener_start := fun _ _ c =>
    match c with O => (Err "chain unavailable"%string, 1%nat) | S _ => (Ok tt, c) end;
  set_weights := fun _ _ _ _ _ _ => tx 0 "set";
  set_mechanism_weights := fun _ _ _ _ _ _ _ => tx 0 "set mechanism";
  batch_set_mechanism_weights := fun _ _ _ _ _ => tx 0 "batch";
  generate_salt := fun n c => (take n toy_salt, c);
  generate_mechanism_commit_hash := fun a n m u w s v => a ++ [n; m] ++ u ++ w ++ s ++ [v];
  commit_hash_to_hex := fun b => hex (take 2 b);
  prepare_commit_reveal := fun a n u w v k c => (toy_data u w (take k toy_salt) v, c);
  prepare_mechanism_commit_reveal := fun a n m u w v k c => (toy_data u w (take k toy_salt) v, c);
  commit_weights := fun _ _ _ _ => tx 0 "committed";
  commit_mechanism_weights := fun _ _ _ _ _ => tx 0 "committed";
  batch_all := fun _ _ _ => tx 0 "batch committed";
  reveal_weights := fun _ _ _ _ _ _ _ => toy_reveal;
  reveal_mechanism_weights := fun _ _ _ _ _ _ _ _ => toy_reveal;
  DEFAULT_COMMIT_REVEAL_VERSION := 3;
  get_commit_reveal_version := fun _ c => (Ok 3, c);
  get_tempo := fun _ _ c => (Ok 360, c);
  get_reveal_period := fun _ _ c => (Ok 1, c);
  get_last_drand_round := fun _ c => (Ok 1000, c);
  get_mechid_storage_index := fun n m => n + 4096 * m;
  calculate_reveal_round := fun _ b _ _ _ r => r + b;
  prepare_crv4_commit := fun a u w v r c => (Ok (a ++ u ++ w ++ [v; r]), c);
  commit_timelocked_mechanism_weights := fun _ _ _ _ _ _ _ => tx 0 "timelocked"
|}.

Lemma toy_salt_u16 k : Forall is_u16 (take k toy_salt).
Proof. apply Forall_take. by_compute. Qed.

#[export] Instance toy_subtensor_laws : SubtensorLaws.
Proof.
  refine {| plain_commit_hash := fun _ _ u w s _ => hex u |}.
  - intros n c. apply toy_salt_u16.
  - intros. split; [apply toy_salt_u16|done].
Defined.

(** ** Text of the persisted state: a number in base two *)

#[local] Instance pmc_countable : Countable PendingMechanismCommit.
Proof.
  refine (inj_countable' (fun c => (pmc_mechanism_id c, pmc_hash c, pmc_uids c, pmc_weights c,
      pmc_salt_hex c, pmc_version_key c, pmc_epoch c))
    (fun '(a, b, c, d, e, f, g) => mk_PendingMechanismCommit a b c d e f g) _). by intros [].
Defined.
#[local] Instance pc_countable : Countable PendingCommitV2.
Proof.
  refine (inj_countable' (fun c => (pc_hash c, pc_uids c, pc_weights c, pc_salt_hex c,
      pc_version_key c, pc_epoch c))
    (fun '(b, c, d, e, f, g) => mk_PendingCommitV2 b c d e f g) _). by intros [].
Defined.
#[local] Instance ps_countable : Countable PersistedCommitState.
Proof.
  refine (inj_countable' (fun s => (ps_committed_epoch s, ps_pending_mechanism_commits s,
      ps_pending_commit s, ps_last_revealed_epoch s))
    (fun '(a, b, c, d) => mk_PersistedCommitState a b c d) _). by intros [].
Defined.

Fixpoint pos_text (p : positive) : string :=
  match p with
  | xH => "1"
  | xO p => String "0" (pos_text p)
  | xI p => String "1" (pos_text p)
  end.
Fixpoint text_pos (s : string) : option positive :=
  match s with
  | "1"%string => Some xH
  | String c s' => p ← text_pos s'; if Ascii.eqb c "1" then Some (xI p) else Some (xO p)
  | EmptyString => None
  end.

Lemma text_pos_text p : text_pos (pos_text p) = Some p.
Proof.
  induction p as [p IH|p IH|]; [| |done].
  - cbn [pos_text text_pos]. destruct (pos_text p) eqn:Hp; [by destruct p|]. by rewrite IH.
  - cbn [pos_text text_pos]. by rewrite IH.
Qed.

Lemma pos_text_utf8 p : utf8_valid (str_bytes (pos_text p)) = true.
Proof. by induction p as [p IH|p IH|]. Qed.

(** ** Hexadecimal decoding *)

Definition hex_value (a : ascii) : option Z :=
  let n := Z.of_nat (nat_of_ascii a) in
  if (48 <=? n) && (n <=? 57) then Some (n - 48)
  else if (97 <=? n) && (n <=? 102) then Some (n - 87) else None.

Fixpoint unhex (l : list ascii) : option bytes :=
  match l with
  | [] => Some []
  | a :: b :: l' => x ← hex_value a; y ← hex_value b; r ← unhex l'; Some (16 * x + y :: r)
  | _ => None
  end.

Lemma hex_value_digit i : 0 <= i < 16 -> hex_value (hex_digit i) = Some i.
Proof.
  intros Hi. assert (Hall : Forall (fun i => hex_value (hex_digit i) = Some i) (Z.of_nat <$> seq 0 16))
    by by_compute.
  eapply list.Forall_forall in Hall; [exact Hall|]. apply list_elem_of_fmap. exists (Z.to_nat i).
  split; [lia|]. apply elem_of_seq. lia.
Qed.

Lemma unhex_hex b : Forall is_u8 b -> unhex (chars (hex b)) = Some b.
Proof.
  unfold hex. rewrite chars_of_chars. induction 1 as [|x b Hx _ IH]; [done|].
  rewrite bind_cons. revert IH. generalize (b ≫= hex_byte). intros r IH. unfold hex_byte. cbn [app unhex]. unfold is_u8 in Hx.
  rewrite (Z.mod_small (x / 16)) by (split; [apply Z.div_pos|apply Z.div_lt_upper_bound]; lia).
  rewrite (hex_value_digit (x / 16)) by (split; [apply Z.div_pos|apply Z.div_lt_upper_bound]; lia).
  rewrite (hex_value_digit (x mod 16)) by (apply Z.mod_pos_bound; lia). simpl. rewrite IH. simpl.
  by rewrite <- (Z.div_mod x 16) by lia.
Qed.

#[export] Instance toy_commit_codec : CommitCodec := {|
  hex_decode := fun s => ok_or (unhex (chars s)) "odd length"%string;
  commits_to_json := fun s => Ok (pos_text (encode s));
  commits_from_json := fun t => ok_or (text_pos t ≫= decode) "expected value"%string
|}.

#[export] Instance toy_commit_codec_laws : CommitCodecLaws.
Proof.
  split; simpl.
  - intros b Hb. by rewrite unhex_hex.
  - intros s t [= <-]. split; [apply pos_text_utf8|]. rewrite text_pos_text.
    unfold mbind, option_bind. by rewrite decode_encode.
Qed.

#[export] Instance toy_disk : DiskIO := {| io_ok := fun _ => true |}.

(** ** A validator *)

Definition the_signer : bytes := str_bytes "v".
Definition toy_client : SubtensorClient :=
  mk_SubtensorClient (testnet 100) (Some "ws"%string) (Some the_signer)
    (Some (mk_Metagraph [(7, mk_NeuronInfo (str_bytes "alice") 5 5 f64_one f64_one f64_one)])) ∅.
Definition fresh_disk : Disk := mk_Disk ∅ ∅.
Definition fresh : Env :=
  mk_Env (WeightSubmitter_new toy_client None fresh_disk) fresh_disk (1%nat : Chain).
Definition at_epoch (n : Z) : Env := (set_epoch n fresh).2.
Definition the_batch : mechanism_batch := [(1, [7; 0], [30000; 35535]); (2, [7], [65535])].

(** ** Witnesses *)

Lemma toy_writable : writable None fresh_disk.
Proof. split_and!; [done|done|by intros s]. Qed.

Lemma toy_opens : env_opens toy_client None (at_epoch 5).
Proof.
  apply keeps_set_epoch. split_and!; [done|done|..]; apply opens_default.
Qed.

Lemma batch_survives_restart_witness :
  exists c, ps_pending_mechanism_commits (ws_state (en_sub (set_epoch 5 (restart toy_client None
      (submit_mechanism_weights_batch_commit_reveal the_batch (at_epoch 5)).2)).2)) !! 1 = Some c /\
    commit_of toy_client 5 (1, [7; 0], [30000; 35535]) c.
Proof.
  assert (Hw : writable None (en_disk (at_epoch 5))).
  { split_and!; [done|done|by intros s]. }
  assert (Hrun : submit_mechanism_weights_batch_commit_reveal the_batch (at_epoch 5) =
    (Ok "batch committed"%string,
     (submit_mechanism_weights_batch_commit_reveal the_batch (at_epoch 5)).2)).
  { apply run_result. vm_compute. reflexivity. }
  assert (Hlast : last (filter (fun x => x.1.1 = 1) the_batch) = Some (1, [7; 0], [30000; 35535]))
    by reflexivity.
  exact (batch_survives_restart toy_client None the_batch (at_epoch 5) _ _ 1 _ _
    toy_opens Hw Hrun Hlast).
Defined.

Lemma kept_commits_open_witness :
  let e' := fold_left (fun e o => run_submitter toy_client None o e)
    [OpSetEpoch 5; OpBatch the_batch; OpRestart; OpReveal; OpSubmit []] fresh in
  state_opens toy_client (ws_state (en_sub e')) /\
  state_opens toy_client (commits_load (commits_path None) (en_disk e')).
Proof.
  assert (Hfile : files (en_disk fresh) !! commits_path None = None) by reflexivity.
  exact (kept_commits_open toy_client None _ fresh eq_refl Hfile).
Defined.

Definition the_weights : list WeightAssignment := [mk_WeightAssignment "alice" f64_one].

Lemma plain_commit_lost_on_restart_witness :
  let e1 := (submit_with_commit_reveal the_weights (at_epoch 5)).2 in
  is_Some (ps_pending_commit (commits_load (commits_path None) (en_disk e1))) /\
  let e2 := (set_epoch 5 (restart toy_client None e1)).2 in
  ps_pending_commit (ws_state (en_sub e2)) = None /\
  ps_pending_commit (commits_load (commits_path None) (en_disk e2)) = None.
Proof.
  assert (Hw : writable None (en_disk (at_epoch 5))).
  { split_and!; [done|done|by intros s]. }
  assert (Hrun : submit_with_commit_reveal the_weights (at_epoch 5) =
    (Ok "committed"%string, (submit_with_commit_reveal the_weights (at_epoch 5)).2)).
  { apply run_result. vm_compute. reflexivity. }
  assert (Hne : 5 <> 0) by lia.
  exact (plain_commit_lost_on_restart toy_client None the_weights (at_epoch 5) _ _ 5
    eq_refl eq_refl Hw eq_refl eq_refl Hrun Hne).
Defined.

(** Two commits, and a chain that accepts one reveal. *)
Definition committed : Env :=
  (submit_mechanism_weights_batch_commit_reveal the_batch (at_epoch 5)).2.

Lemma failed_reveal_loses_commits_witness :
  let e1 := (reveal_pending_mechanism_commits committed).2 in
  size (ps_pending_mechanism_commits (ws_state (en_sub committed))) = 2%nat /\
  ps_pending_mechanism_commits (ws_state (en_sub e1)) = ∅ /\
  ps_pending_mechanism_commits (commits_load (commits_path None) (en_disk e1)) = ∅ /\
  ps_last_revealed_epoch (ws_state (en_sub e1)) = ps_last_revealed_epoch (ws_state (en_sub committed)).
Proof.
  assert (Hw : writable None (en_disk committed)).
  { split_and!; [done|vm_compute; reflexivity|by intros s]. }
  assert (Hp : ws_persist_path (en_sub committed) = commits_path None) by (vm_compute; reflexivity).
  assert (Hrun : reveal_pending_mechanism_commits committed =
    (Err "chain unavailable"%string, (reveal_pending_mechanism_commits committed).2)).
  { apply injective_projections; [vm_compute; reflexivity|reflexivity]. }
  split; [vm_compute; reflexivity|].
  exact (failed_reveal_loses_commits None committed _ _ Hp Hw Hrun).
Defined.

Lemma manager_weights_full_witness :
  prepare_weights_with_fallback toy_client [mk_WeightAssignment "alice" (f64_lit 1 4); mk_WeightAssignment "bob" f64_one]
    = ([7; 0], [16383; 49152]) /\
  length [7; 0] = length [16383; 49152] /\ Forall is_u16 [16383; 49152] /\ Z_sum [16383; 49152] = TARGET_SUM /\
  forall i u, u <> 0 -> (ws_prepare_weights toy_client [mk_WeightAssignment "alice" (f64_lit 1 4); mk_WeightAssignment "bob" f64_one]).1 !! i = Some u ->
    [7; 0] !! i = Some u /\ [16383; 49152] !! i = (ws_prepare_weights toy_client [mk_WeightAssignment "alice" (f64_lit 1 4); mk_WeightAssignment "bob" f64_one]).2 !! i.
Proof.
  assert (Hle : Z_sum (ws_prepare_weights toy_client
    [mk_WeightAssignment "alice" (f64_lit 1 4); mk_WeightAssignment "bob" f64_one]).2 <= TARGET_SUM)
    by by_compute.
  assert (Heq : prepare_weights_with_fallback toy_client
    [mk_WeightAssignment "alice" (f64_lit 1 4); mk_WeightAssignment "bob" f64_one] = ([7; 0], [16383; 49152]))
    by (vm_compute; reflexivity).
  split; [exact Heq|]. exact (manager_weights_full toy_client _ _ _ Hle Heq).
Defined.
End BittensorToy.
