(* ===== verification/WeightCollector.v ===== *)
(** * Collecting the weights of the challenges

    Models [crates/bittensor-integration/src/challenge_weight_collector.rs]:
    the registered endpoints, the conversion of weights per hotkey to weights
    per UID, the collection from all active endpoints and the batch sent to the
    chain.  What an HTTP request returns is the class [Http]; the clock and the
    measured durations are arguments. *)

From S2P Require Import Prelude Float64 Crypto RustStrings Bittensor WeightSubmission WeightSubmissionProps StorageExamples BittensorExamples.

Definition DEFAULT_CHALLENGE_TIMEOUT_SECS : Z := 60.
Definition BURN_UID : Z := 0.
Definition MAX_WEIGHT : Z := 65535.

Record ChallengeEndpoint : Type := mk_ChallengeEndpoint {
  ce_name : string;
  ce_mechanism_id : Z;
  ce_endpoint : string;
  ce_timeout_secs : Z;
  ce_active : bool
}.

Record HotkeyWeightEntry : Type := mk_HotkeyWeightEntry { he_hotkey : string; he_weight : f64 }.

Record ChallengeWeightsResponse : Type := mk_ChallengeWeightsResponse {
  cr_epoch : Z;
  cr_weights : list HotkeyWeightEntry;
  cr_uids : list Z;
  cr_weight_values : list Z;
  cr_challenge_name : option string;
  cr_mechanism_id : option Z
}.

Record ChallengeWeightResult : Type := mk_ChallengeWeightResult {
  wr_mechanism_id : Z;
  wr_challenge_name : string;
  wr_uids : list Z;
  wr_weights : list Z;
  wr_success : bool;
  wr_error : option string;
  wr_duration_ms : Z
}.

Record CollectorStatus : Type := mk_CollectorStatus {
  cs_last_epoch : Z;
  cs_last_collection_time : option Z;
  cs_successful_challenges : nat;
  cs_failed_challenges : nat;
  cs_last_tx_hash : option string
}.

Definition CollectorStatus_default : CollectorStatus := mk_CollectorStatus 0 None 0 0 None.

(** ** HTTP *)

Record HttpReply : Type := mk_HttpReply {
  hr_status : Z;
  hr_status_text : string;
  hr_body : result string string
}.

(** [http_get url timeout] is [None] when the time runs out. *)
Class Http : Type := {
  http_get : string -> Z -> option (result string HttpReply);
  parse_response : string -> result string ChallengeWeightsResponse
}.

Definition is_success (r : HttpReply) : bool := (200 <=? hr_status r) && (hr_status r <=? 299).

(** ** Weights per UID *)

(** [(w.clamp(0.0, 1.0) * MAX_WEIGHT as f64) as u64]. *)
Definition weight_as_u64 (w : f64) : Z :=
  f64_as_u64 (f64_mul (f64_clamp f64_zero f64_one w) (f64_of_Z MAX_WEIGHT)).

(** One turn of the loop over the entries. *)
Definition convert_step (resolver : string -> option Z)
    (st : gmap Z Z * f64 * nat) (entry : HotkeyWeightEntry) : gmap Z Z * f64 * nat :=
  let '(uid_weight_map, burn_weight, unresolved) := st in
  match resolver (he_hotkey entry) with
  | Some uid =>
      if uid =? BURN_UID then (uid_weight_map, f64_add burn_weight (he_weight entry), unresolved)
      else (<[uid := u64_add (default 0 (uid_weight_map !! uid)) (weight_as_u64 (he_weight entry))]>
              uid_weight_map, burn_weight, unresolved)
  | None => (uid_weight_map, f64_add burn_weight (he_weight entry), S unresolved)
  end.

Definition convert_hotkeys_with_resolver (hotkey_weights : list HotkeyWeightEntry)
    (resolver : string -> option Z) : list Z * list Z :=
  match hotkey_weights with
  | [] => ([BURN_UID], [MAX_WEIGHT])
  | _ =>
      let '(uid_weight_map, burn_weight, unresolved_count) :=
        fold_left (convert_step resolver) hotkey_weights (∅, f64_zero, O) in
      let total_assigned := u64_sum (number_iter uid_weight_map).*2 in
      let burn_weight_u16 := weight_as_u64 burn_weight in
      let final_burn :=
        if (0 <? burn_weight_u16) || (0 <? unresolved_count)%nat then
          let remaining := MAX_WEIGHT - Z.min total_assigned MAX_WEIGHT in
          u64_as_u16 (Z.min remaining burn_weight_u16)
        else 0 in
      let empty := bool_decide (uid_weight_map = ∅) in
      let first := if (0 <? final_burn) || empty
                   then [(BURN_UID, if empty then MAX_WEIGHT else final_burn)] else [] in
      let entries := first ++
        ((fun '(uid, weight) => (uid, u64_as_u16 (Z.min weight MAX_WEIGHT))) <$>
           number_iter uid_weight_map) in
      (entries.*1, entries.*2)
  end.

Section collector.
Context `{Subtensor} `{Http}.

Record ChallengeWeightCollector : Type := mk_ChallengeWeightCollector {
  cc_client : SubtensorClient;
  cc_endpoints : list ChallengeEndpoint;
  cc_status : CollectorStatus
}.

Definition ChallengeWeightCollector_new (sc : SubtensorClient) : ChallengeWeightCollector :=
  mk_ChallengeWeightCollector sc [] CollectorStatus_default.

(** A mechanism has one endpoint: a new one replaces the old. *)
Definition register_endpoint (endpoint : ChallengeEndpoint) (c : ChallengeWeightCollector) :
    ChallengeWeightCollector :=
  let kept :=
    if existsb (fun e => ce_mechanism_id e =? ce_mechanism_id endpoint) (cc_endpoints c)
    then filter (fun e => ce_mechanism_id e <> ce_mechanism_id endpoint) (cc_endpoints c)
    else cc_endpoints c in
  mk_ChallengeWeightCollector (cc_client c) (kept ++ [endpoint]) (cc_status c).

Definition register_endpoints (endpoints : list ChallengeEndpoint) (c : ChallengeWeightCollector) :
    ChallengeWeightCollector :=
  fold_left (fun c e => register_endpoint e c) endpoints c.

Definition get_endpoints (c : ChallengeWeightCollector) : list ChallengeEndpoint := cc_endpoints c.
Definition status (c : ChallengeWeightCollector) : CollectorStatus := cc_status c.

Definition convert_hotkeys_to_uids (sc : SubtensorClient) (hotkey_weights : list HotkeyWeightEntry) :
    list Z * list Z :=
  convert_hotkeys_with_resolver hotkey_weights (get_uid_for_hotkey sc).

(** ** Fetching *)

Definition challenge_url (endpoint : string) (epoch : Z) : string :=
  if contains "?" endpoint then endpoint +:+ "&epoch=" +:+ Z_to_string epoch
  else endpoint +:+ "?epoch=" +:+ Z_to_string epoch.

(** The request within its time limit. *)
Definition request_weights (url : string) (timeout_secs : Z) :
    option (result string ChallengeWeightsResponse) :=
  match http_get url timeout_secs with
  | None => None
  | Some (Err e) => Some (Err e)
  | Some (Ok reply) =>
      Some (if negb (is_success reply) then
              Err ("HTTP error: " +:+ hr_status_text reply +:+ " - " +:+
                   match hr_body reply with Ok t => t | Err _ => EmptyString end)
            else body ← hr_body reply; parse_response body)
  end.

Definition failure (endpoint : ChallengeEndpoint) (duration_ms : Z) (error : string) :
    ChallengeWeightResult :=
  mk_ChallengeWeightResult (ce_mechanism_id endpoint) (ce_name endpoint) [] [] false (Some error)
    duration_ms.

Definition fetch_challenge_weights (sc : SubtensorClient) (duration_ms : Z)
    (endpoint : ChallengeEndpoint) (epoch : Z) : ChallengeWeightResult :=
  match request_weights (challenge_url (ce_endpoint endpoint) epoch) (ce_timeout_secs endpoint) with
  | Some (Ok response) =>
      let success '(uids, weights) :=
        mk_ChallengeWeightResult (ce_mechanism_id endpoint) (ce_name endpoint) uids weights true None
          duration_ms in
      if negb (bool_decide (cr_weights response = [])) then
        success (convert_hotkeys_to_uids sc (cr_weights response))
      else if negb (bool_decide (cr_uids response = [])) &&
              negb (bool_decide (cr_weight_values response = [])) then
        if (length (cr_uids response) =? length (cr_weight_values response))%nat
        then success (cr_uids response, cr_weight_values response)
        else failure endpoint duration_ms "UIDs and weights length mismatch"
      else success ([BURN_UID], [MAX_WEIGHT])
  | Some (Err e) => failure endpoint duration_ms e
  | None => failure endpoint duration_ms ("Timeout after " +:+ Z_to_string (ce_timeout_secs endpoint) +:+ "s")
  end.

(** ** Collecting and submitting *)

Definition CollectorM := SE (ChallengeWeightCollector * Chain) string.

Definition set_status (f : CollectorStatus -> CollectorStatus) : CollectorM unit :=
  modify (fun '(c, ch) =>
    (mk_ChallengeWeightCollector (cc_client c) (cc_endpoints c) (f (cc_status c)), ch)).

(** [duration e] is the time the request to [e] took. *)
Definition collect_all_weights (now : Z) (duration : ChallengeEndpoint -> Z) (epoch : Z) :
    CollectorM (list ChallengeWeightResult) :=
  '(c, _) ← get_state;
  let active_endpoints := filter (fun e => ce_active e = true) (cc_endpoints c) in
  match active_endpoints with
  | [] => mret []
  | _ =>
      let results := (fun e => fetch_challenge_weights (cc_client c) (duration e) e epoch)
                       <$> active_endpoints in
      let successful := length (filter (fun r => wr_success r = true) results) in
      let failed := (length results - successful)%nat in
      _ ← set_status (fun s => mk_CollectorStatus epoch (Some now) successful failed
                                 (cs_last_tx_hash s));
      mret results
  end.

(** The entry of the batch for a result. *)
Definition batch_entry (r : ChallengeWeightResult) : Z * list Z * list Z :=
  if wr_success r && negb (bool_decide (wr_uids r = []))
  then (wr_mechanism_id r, wr_uids r, wr_weights r)
  else (wr_mechanism_id r, [0], [65535]).

Definition collect_and_submit (now : Z) (duration : ChallengeEndpoint -> Z) (epoch : Z) :
    CollectorM string :=
  results ← collect_all_weights now duration epoch;
  _ ← require (negb (bool_decide (length results = 0%nat))) "No challenge endpoints registered"%string;
  let all_weights := batch_entry <$> results in
  '(c, _) ← get_state;
  cl ← lift (client (cc_client c));
  sg ← lift (signer (cc_client c));
  tx_hash ← on_chain (batch_set_mechanism_weights cl sg (netuid (cc_client c)) all_weights
              (version_key (cc_client c)));
  _ ← set_status (fun s => mk_CollectorStatus (cs_last_epoch s) (cs_last_collection_time s)
        (cs_successful_challenges s) (cs_failed_challenges s) (Some tx_hash));
  mret tx_hash.

Definition collector_sync_metagraph : CollectorM unit :=
  fun '(c, ch) =>
    let '(r, (sc, ch')) := sync_metagraph (cc_client c, ch) in
    (match r with Ok _ => Ok tt | Err e => Err e end,
     (mk_ChallengeWeightCollector sc (cc_endpoints c) (cc_status c), ch')).

Definition on_new_epoch (now : Z) (duration : ChallengeEndpoint -> Z) (epoch : Z) :
    CollectorM string :=
  _ ← collector_sync_metagraph;
  collect_and_submit now duration epoch.

(** ** The builder *)

Record ChallengeWeightCollectorBuilder : Type := mk_ChallengeWeightCollectorBuilder {
  cb_client : SubtensorClient;
  cb_endpoints : list ChallengeEndpoint
}.

Definition Builder_new (sc : SubtensorClient) : ChallengeWeightCollectorBuilder :=
  mk_ChallengeWeightCollectorBuilder sc [].
Definition add_endpoint (e : ChallengeEndpoint) (b : ChallengeWeightCollectorBuilder) :
    ChallengeWeightCollectorBuilder :=
  mk_ChallengeWeightCollectorBuilder (cb_client b) (cb_endpoints b ++ [e]).
Definition add_endpoints (l : list ChallengeEndpoint) (b : ChallengeWeightCollectorBuilder) :
    ChallengeWeightCollectorBuilder :=
  mk_ChallengeWeightCollectorBuilder (cb_client b) (cb_endpoints b ++ l).
Definition build (b : ChallengeWeightCollectorBuilder) : ChallengeWeightCollector :=
  register_endpoints (cb_endpoints b) (ChallengeWeightCollector_new (cb_client b)).
End collector.

(** * What the collector of weights sends

    The conversion from hotkeys to UIDs is a sum per UID, in increasing order
    of the UIDs with the burn entry first; every active mechanism is in the
    batch exactly once, with a non-empty, well-formed weight vector, whatever
    the challenges answer. *)

(** ** The conversion *)

Section convert.
Variable resolver : string -> option Z.

(** The weights of the entries that resolve to a UID. *)
Definition entries_of (uid : Z) (l : list HotkeyWeightEntry) : list Z :=
  (fun e => weight_as_u64 (he_weight e)) <$> filter (fun e => resolver (he_hotkey e) = Some uid) l.

Definition miner_map (l : list HotkeyWeightEntry) : gmap Z Z :=
  (fold_left (convert_step resolver) l (∅, f64_zero, O)).1.1.

Lemma u64_sum_app l x : u64_sum (l ++ [x]) = u64_add (u64_sum l) x.
Proof. unfold u64_sum. by rewrite fold_left_app. Qed.

Lemma u64_sum_nonneg l : 0 <= u64_sum l.
Proof.
  unfold u64_sum. assert (Hk : forall acc, 0 <= acc -> 0 <= fold_left u64_add l acc); [|by apply Hk].
  induction l as [|x k IH]; intros acc Hacc; [done|]. simpl. apply IH. apply u64_wrap_range.
Qed.

Lemma miner_map_lookup l uid :
  miner_map l !! uid =
  if decide (uid <> BURN_UID /\ entries_of uid l <> []) then Some (u64_sum (entries_of uid l)) else None.
Proof.
  unfold miner_map. induction l as [|e l IH] using rev_ind.
  { simpl. rewrite lookup_empty. case_decide as Hc; [|done]. by destruct Hc. }
  rewrite fold_left_app. cbn [fold_left]. unfold entries_of in *. rewrite filter_app, fmap_app.
  destruct (fold_left (convert_step resolver) l (∅, f64_zero, 0%nat)) as [[m b] n]. simpl in IH.
  unfold convert_step. rewrite filter_cons, filter_nil.
  destruct (resolver (he_hotkey e)) as [u|] eqn:Hr.
  2:{ destruct (decide (None = Some uid)) as [?|_]; [done|]. rewrite app_nil_r. exact IH. }
  destruct (Z.eqb_spec u BURN_UID) as [->|Hu].
  - simpl. destruct (decide (Some BURN_UID = Some uid)) as [[= <-]|Hne].
    + rewrite IH. rewrite !decide_False; [done|tauto|tauto].
    + rewrite app_nil_r. exact IH.
  - simpl. destruct (decide (Some u = Some uid)) as [[= <-]|Hne].
    + rewrite lookup_insert_eq. simpl. rewrite u64_sum_app, IH.
      rewrite (decide_True (P := _ /\ _ ++ _ <> [])) by (split; [done|by intros [_ ?]%app_nil]).
      case_decide as Hc; [done|]. f_equal. f_equal.
      destruct ((fun e0 => weight_as_u64 (he_weight e0)) <$> filter _ l) eqn:Hf; [done|].
      exfalso. apply Hc. by split.
    + rewrite lookup_insert_ne by congruence. rewrite app_nil_r. exact IH.
Qed.

(** The entries of the result before it is split in two lists. *)
Lemma convert_shape l :
  l <> [] -> exists first,
    let entries := first ++ ((fun '(uid, weight) => (uid, u64_as_u16 (Z.min weight MAX_WEIGHT))) <$>
                               number_iter (miner_map l)) in
    convert_hotkeys_with_resolver l resolver = (entries.*1, entries.*2) /\
    (first = [] /\ miner_map l <> ∅ \/
     exists w, first = [(BURN_UID, w)] /\ 0 < w <= MAX_WEIGHT /\
       (miner_map l <> ∅ -> w <= MAX_WEIGHT - Z.min (u64_sum (number_iter (miner_map l)).*2) MAX_WEIGHT)).
Proof.
  intros Hl. unfold miner_map, convert_hotkeys_with_resolver. destruct l as [|e l]; [done|].
  destruct (fold_left _ _ _) as [[m b] n]. cbn [fst].
  assert (Hb : 0 <= weight_as_u64 b) by apply f64_as_u64_range.
  set (burn := weight_as_u64 b) in *. set (total := u64_sum (number_iter m).*2).
  set (final := if (0 <? burn) || (0 <? n)%nat then _ else 0).
  assert (Htotal : 0 <= total) by apply u64_sum_nonneg.
  assert (Hfinal : 0 <= final <= MAX_WEIGHT - Z.min total MAX_WEIGHT).
  { unfold final, MAX_WEIGHT, u64_as_u16 in *. case_match; [|lia]. rewrite Z.mod_small; lia. }
  case_bool_decide as Hm.
  - exists [(BURN_UID, MAX_WEIGHT)]. rewrite orb_true_r. split; [done|].
    right. exists MAX_WEIGHT. by split_and!.
  - rewrite orb_false_r. destruct (Z.ltb_spec 0 final) as [Hpos|Hpos].
    + exists [(BURN_UID, final)]. split; [done|]. right. exists final. unfold MAX_WEIGHT in *.
      split_and!; [done|lia|lia|intros _; lia].
    + exists []. split; [done|]. by left.
Qed.

Lemma converted_fst (m : gmap Z Z) :
  ((fun '(uid, weight) => (uid, u64_as_u16 (Z.min weight MAX_WEIGHT))) <$> number_iter m).*1 =
  (number_iter m).*1.
Proof. rewrite <- list_fmap_compose. apply list_fmap_ext. by intros i [u w] _. Qed.

Lemma miner_map_keys l uid v :
  (forall h u, resolver h = Some u -> is_u16 u) -> miner_map l !! uid = Some v -> BURN_UID < uid.
Proof.
  intros Hr. rewrite miner_map_lookup. case_decide as Hc; [|done]. intros _. destruct Hc as [Hne Hin].
  unfold entries_of in Hin. destruct (filter _ l) as [|e k] eqn:Hf; [done|].
  assert (He : e ∈ filter (fun e => resolver (he_hotkey e) = Some uid) l) by (rewrite Hf; left).
  apply list_elem_of_filter in He as [He _]. apply Hr in He. unfold is_u16, BURN_UID in *. lia.
Qed.

Lemma map_value_range l uid v : miner_map l !! uid = Some v -> 0 <= v.
Proof.
  rewrite miner_map_lookup. case_decide; [|done]. intros [= <-]. apply u64_sum_nonneg.
Qed.

Lemma capped_u16 v : 0 <= v -> u64_as_u16 (Z.min v MAX_WEIGHT) = Z.min v MAX_WEIGHT.
Proof. intros Hv. unfold u64_as_u16, MAX_WEIGHT. apply Z.mod_small. lia. Qed.

(** The weight vector made from a challenge's answer has one 16-bit weight per
    UID, UIDs strictly increasing and so distinct; a miner's UID is in it exactly
    when some hotkey of the answer resolves to it, with the sum of the weights of
    those hotkeys, capped at 65535. *)
Theorem converted_weights l uids ws :
  (forall h u, resolver h = Some u -> is_u16 u) -> l <> [] ->
  convert_hotkeys_with_resolver l resolver = (uids, ws) ->
  length uids = length ws /\ StronglySorted Z.lt uids /\ Forall is_u16 ws /\
  forall uid w, uid <> BURN_UID ->
    (uid, w) ∈ zip uids ws <->
    (exists e, e ∈ l /\ resolver (he_hotkey e) = Some uid) /\
    w = Z.min (u64_sum (entries_of uid l)) MAX_WEIGHT.
Proof.
  intros Hr Hl Hconv. destruct (convert_shape l Hl) as (first & Heq & Hfirst). cbv zeta in Heq.
  rewrite Heq in Hconv. injection Hconv as <- <-.
  assert (Hcap : forall uid v, (uid, v) ∈ number_iter (miner_map l) -> 0 <= v).
  { intros uid v Hin. apply elem_of_number_iter in Hin. by eapply map_value_range. }
  split; [by rewrite !length_fmap|]. split; [|split].
  - rewrite fmap_app, converted_fst. pose proof (number_iter_sorted (miner_map l)) as Hs.
    destruct Hfirst as [[-> _]|(w & -> & _ & _)]; [done|]. simpl. constructor; [done|].
    apply list.Forall_forall. intros k Hk. apply list_elem_of_fmap in Hk as ([k' v] & -> & Hk).
    apply elem_of_number_iter in Hk. by eapply miner_map_keys.
  - apply list.Forall_forall. intros x Hx. rewrite fmap_app in Hx.
    apply elem_of_app in Hx as [Hx|Hx].
    + destruct Hfirst as [[-> _]|(w & -> & Hw & _)]; [by inversion Hx|].
      apply list_elem_of_singleton in Hx as ->. unfold is_u16, MAX_WEIGHT in *. simpl. lia.
    + apply list_elem_of_fmap in Hx as (p & -> & Hx). apply list_elem_of_fmap in Hx as ([k v] & -> & Hx).
      simpl. apply Z.mod_pos_bound. lia.
  - intros uid w Hne. rewrite zip_fst_snd, elem_of_app, list_elem_of_fmap.
    split.
    + intros [Hin|([k v] & [= -> ->] & Hin)].
      * exfalso. destruct Hfirst as [[-> _]|(w' & -> & _ & _)]; [by inversion Hin|].
        apply list_elem_of_singleton in Hin as [= -> _]. done.
      * pose proof (Hcap _ _ Hin) as Hv. apply elem_of_number_iter in Hin. rewrite capped_u16 by done.
        rewrite miner_map_lookup in Hin. case_decide as Hc; [|done]. injection Hin as <-. split; [|done].
        destruct Hc as [_ Hc]. unfold entries_of in Hc. destruct (filter _ l) as [|e es] eqn:Hf; [done|].
        assert (He : e ∈ filter (fun e => resolver (he_hotkey e) = Some k) l) by (rewrite Hf; left).
        apply list_elem_of_filter in He as [He Hin]. by exists e.
    + intros [(e & He & Hre) ->]. right. exists (uid, u64_sum (entries_of uid l)).
      assert (Hin : miner_map l !! uid = Some (u64_sum (entries_of uid l))).
      { rewrite miner_map_lookup, decide_True; [done|]. split; [done|]. unfold entries_of.
        intros Hnil%fmap_nil_inv. apply (not_elem_of_nil e). rewrite <- Hnil. by apply list_elem_of_filter. }
      rewrite capped_u16 by (by eapply map_value_range). split; [done|]. by apply elem_of_number_iter.
Qed.
End convert.

(** The burn entry takes at most what the miners leave. *)
Lemma converted_total resolver l uids ws :
  l <> [] -> Z_sum (number_iter (miner_map resolver l)).*2 <= MAX_WEIGHT ->
  convert_hotkeys_with_resolver l resolver = (uids, ws) -> Z_sum ws <= MAX_WEIGHT.
Proof.
  intros Hl Hsum Hconv. destruct (convert_shape resolver l Hl) as (first & Heq & Hfirst).
  cbv zeta in Heq. rewrite Heq in Hconv. injection Hconv as _ <-.
  rewrite fmap_app, Z_sum_app.
  assert (Hnn : Forall (fun v => 0 <= v) (number_iter (miner_map resolver l)).*2).
  { apply list.Forall_forall. intros v Hv. apply list_elem_of_fmap in Hv as ([k v'] & -> & Hv).
    apply elem_of_number_iter in Hv. by eapply map_value_range. }
  set (it := number_iter (miner_map resolver l)) in *.
  assert (Hcap : Z_sum ((fun '(uid, weight) => (uid, u64_as_u16 (Z.min weight MAX_WEIGHT))) <$> it).*2
      <= Z_sum it.*2).
  { clear -Hnn. induction it as [|[k v] it IH]; [done|]. cbn [fmap list_fmap Z_sum foldr] in *.
    apply list.Forall_cons in Hnn as [Hv Hnn]. specialize (IH Hnn). simpl in *.
    rewrite capped_u16 by done. unfold Z_sum in IH. lia. }
  destruct Hfirst as [[-> _]|(w & -> & Hw & Hle)]; [change (Z_sum ([] : list (Z * Z)).*2) with 0; lia|].
  change (Z_sum [(BURN_UID, w)].*2) with (w + 0).
  destruct (decide (miner_map resolver l = ∅)) as [He|He].
  - unfold it. rewrite He. change (number_iter (∅ : gmap Z Z)) with (@nil (Z * Z)). change (Z_sum _) with 0. lia.
  - assert (Hex : u64_sum it.*2 = Z_sum it.*2).
    { unfold u64_sum. clear -Hnn Hsum. assert (Hg : forall acc, 0 <= acc -> acc + Z_sum it.*2 <= MAX_WEIGHT ->
        fold_left u64_add it.*2 acc = acc + Z_sum it.*2); [|rewrite Hg; lia].
      clear Hsum. induction it as [|[k v] it IH]; intros acc Hacc Hle; cbn [fmap list_fmap fold_left Z_sum foldr snd] in *; [lia|].
      apply list.Forall_cons in Hnn as [Hv Hnn]. simpl in Hv. unfold MAX_WEIGHT, Z_sum in *.
      assert (0 <= foldr Z.add 0 it.*2). { clear -Hnn. induction Hnn; simpl; lia. }
      rewrite u64_add_small by lia. rewrite IH; [lia|done|lia|lia]. }
    specialize (Hle He). fold it in Hle. rewrite Hex in Hle. unfold MAX_WEIGHT in *. lia.
Qed.

(** ** The batch *)

Section batch.
Context `{Sub : Subtensor} `{Web : Http}.

Definition active_endpoints (c : ChallengeWeightCollector) : list ChallengeEndpoint :=
  filter (fun e => ce_active e = true) (cc_endpoints c).

(** What is sent for the answers of the active endpoints. *)
Definition submitted_batch (c : ChallengeWeightCollector) (duration : ChallengeEndpoint -> Z)
    (epoch : Z) : mechanism_batch :=
  (fun e => batch_entry (fetch_challenge_weights (cc_client c) (duration e) e epoch))
    <$> active_endpoints c.

Lemma convert_well_formed resolver l :
  (convert_hotkeys_with_resolver l resolver).1 <> [] /\
  length (convert_hotkeys_with_resolver l resolver).1 = length (convert_hotkeys_with_resolver l resolver).2.
Proof.
  destruct l as [|e l]; [done|]. destruct (convert_shape resolver (e :: l)) as (first & Heq & Hfirst); [done|].
  cbv zeta in Heq. rewrite Heq. cbn [fst snd]. split; [|by rewrite !length_fmap].
  rewrite fmap_app, converted_fst. destruct Hfirst as [[-> Hne]|(w & -> & _)]; [|done]. simpl.
  intros Hnil%fmap_nil_inv. apply Hne. apply map_to_list_empty_iff. apply Permutation_nil.
  by rewrite <- Hnil, number_iter_perm.
Qed.

Lemma batch_entry_well_formed (c : ChallengeWeightCollector) d e epoch :
  let b := batch_entry (fetch_challenge_weights (cc_client c) d e epoch) in
  b.1.1 = ce_mechanism_id e /\ b.1.2 <> [] /\ length b.1.2 = length b.2.
Proof.
  unfold fetch_challenge_weights, failure. destruct (request_weights _ _) as [[r|x]|]; [|done|done].
  case_bool_decide as Hw; simpl.
  - case_bool_decide as Hu; [by case_bool_decide|]. case_bool_decide as Hv; [done|]. simpl.
    destruct (Nat.eqb_spec (length (cr_uids r)) (length (cr_weight_values r))); [|done].
    unfold batch_entry. simpl. by rewrite bool_decide_false.
  - unfold convert_hotkeys_to_uids. destruct (convert_well_formed (get_uid_for_hotkey (cc_client c)) (cr_weights r)) as [Hne Hlen].
    destruct (convert_hotkeys_with_resolver _ _) as [u w]. unfold batch_entry. simpl in *.
    by rewrite bool_decide_false.
Qed.

Lemma NoDup_fmap_filter {A B} (f : A -> B) (P : A -> Prop) `{forall x, Decision (P x)} (l : list A) :
  NoDup (f <$> l) -> NoDup (f <$> filter P l).
Proof.
  induction l as [|x l IH]; [done|]. cbn [fmap list_fmap]. intros [Hx Hl]%NoDup_cons.
  rewrite filter_cons. case_decide; [|by apply IH]. cbn [fmap list_fmap]. apply NoDup_cons.
  split; [|by apply IH]. intros Hin. apply Hx. apply list_elem_of_fmap in Hin as (y & -> & Hy).
  apply list_elem_of_filter in Hy as [_ Hy]. by apply list_elem_of_fmap_2.
Qed.

(** One endpoint per mechanism. *)
Lemma register_endpoint_NoDup e (c : ChallengeWeightCollector) :
  NoDup (ce_mechanism_id <$> cc_endpoints c) ->
  NoDup (ce_mechanism_id <$> cc_endpoints (register_endpoint e c)).
Proof.
  intros Hnd. unfold register_endpoint. simpl. rewrite fmap_app. simpl.
  set (kept := if existsb _ _ then _ else _).
  assert (Hkept : NoDup (ce_mechanism_id <$> kept) /\
    Forall (fun x => ce_mechanism_id x <> ce_mechanism_id e) kept).
  { unfold kept. destruct (existsb _ _) eqn:Hex.
    - split; [|apply list.Forall_forall; intros x Hx; by apply list_elem_of_filter in Hx as [? _]].
      by apply NoDup_fmap_filter.
    - split; [done|]. apply list.Forall_forall. intros x Hx Heq.
      assert (existsb (fun y => ce_mechanism_id y =? ce_mechanism_id e) (cc_endpoints c) = true); [|congruence].
      apply existsb_exists. exists x. split; [by apply list_elem_of_In|by apply Z.eqb_eq]. }
  destruct Hkept as [Hk Hne]. apply NoDup_app. split; [done|]. split; [|apply NoDup_singleton].
  intros m Hm Hm'. apply list_elem_of_singleton in Hm' as ->. apply list_elem_of_fmap in Hm as (x & Hx & Hin).
  eapply list.Forall_forall in Hne; [|exact Hin]. congruence.
Qed.

Lemma register_endpoints_NoDup l (c : ChallengeWeightCollector) :
  NoDup (ce_mechanism_id <$> cc_endpoints c) ->
  NoDup (ce_mechanism_id <$> cc_endpoints (register_endpoints l c)).
Proof.
  unfold register_endpoints. revert c. induction l as [|e l IH]; intros c Hc; [done|].
  simpl. by apply IH, register_endpoint_NoDup.
Qed.

Lemma register_endpoints_client l (c : ChallengeWeightCollector) :
  cc_client (register_endpoints l c) = cc_client c.
Proof. unfold register_endpoints. revert c. induction l as [|e l IH]; intros c; [done|]. simpl. by rewrite IH. Qed.

(** Whatever the challenges answer - weights by hotkey, by UID, malformed,
    errors, nothing in time - a collector that is connected sends the chain one
    batch with exactly one entry for each active mechanism, in the order of the
    endpoints, each with a non-empty list of UIDs and as many weights; and the
    result is the chain's. *)
Theorem every_mechanism_submitted sc endpoints now duration epoch cl sg ch :
  sc_client sc = Some cl -> sc_signer sc = Some sg ->
  let c := register_endpoints endpoints (ChallengeWeightCollector_new sc) in
  active_endpoints c <> [] ->
  let batch := submitted_batch c duration epoch in
  (collect_and_submit now duration epoch (c, ch)).1 =
    (batch_set_mechanism_weights cl sg (netuid sc) batch (version_key sc) ch).1 /\
  batch.*1.*1 = ce_mechanism_id <$> active_endpoints c /\ NoDup batch.*1.*1 /\
  Forall (fun b => b.1.2 <> [] /\ length b.1.2 = length b.2) batch.
Proof.
  intros Hcl Hsg c Hact batch.
  assert (Hsc : cc_client c = sc) by apply register_endpoints_client.
  split.
  - unfold collect_and_submit, collect_all_weights. unfold mbind, SE_bind, get_state, set_status, modify.
    cbn [fst snd]. unfold batch, submitted_batch. fold (active_endpoints c).
    destruct (active_endpoints c) as [|e es]; [done|].
    unfold mret, SE_ret, require. rewrite bool_decide_false by done.
    unfold lift, client, signer. cbn [negb cc_client]. rewrite Hsc, Hcl, Hsg. cbn [ok_or].
    unfold on_chain. rewrite <- list_fmap_compose. unfold compose.
    by destruct (batch_set_mechanism_weights _ _ _ _ _ ch) as [[t|x] ch'].
  - assert (Hids : batch.*1.*1 = ce_mechanism_id <$> active_endpoints c).
    { unfold batch, submitted_batch. rewrite <- !list_fmap_compose. apply list_fmap_ext.
      intros i e _. apply (batch_entry_well_formed c). }
    split; [done|]. split.
    + rewrite Hids. apply NoDup_fmap_filter.
      apply (register_endpoints_NoDup endpoints (ChallengeWeightCollector_new sc)), NoDup_nil_2.
    + apply list.Forall_forall. intros b Hb. apply list_elem_of_fmap in Hb as (e & -> & _).
      apply (batch_entry_well_formed c).
Qed.
End batch.

(** ** Concrete answers *)

Module CollectorExamples.
Import BittensorToy.

Definition half : f64 := f64_lit 1 2.
Definition answer : list HotkeyWeightEntry :=
  [mk_HotkeyWeightEntry "alice" half; mk_HotkeyWeightEntry "bob" half; mk_HotkeyWeightEntry "alice" (f64_lit 1 4)].

Definition known (h : string) : option Z := if String.eqb h "alice" then Some 7 else None.

Lemma converted_weights_witness :
  let '(uids, ws) := ([0; 7], [16385; 49150]) in
  length uids = length ws /\ StronglySorted Z.lt uids /\ Forall is_u16 ws /\
  forall uid w, uid <> BURN_UID ->
    (uid, w) ∈ zip uids ws <->
    (exists e, e ∈ answer /\ known (he_hotkey e) = Some uid) /\
    w = Z.min (u64_sum (entries_of known uid answer)) MAX_WEIGHT.
Proof.
  assert (Hr : forall h u, known h = Some u -> is_u16 u).
  { intros h u. unfold known. destruct (String.eqb h "alice"); [|done]. intros [= <-]. unfold is_u16. lia. }
  assert (Hne : answer <> []) by done.
  assert (Hconv : convert_hotkeys_with_resolver answer known = ([0; 7], [16385; 49150]))
    by (vm_compute; reflexivity).
  exact (converted_weights known answer _ _ Hr Hne Hconv).
Defined.

(** An unresolved hotkey's weight is lost when the miners use up the sum. *)
Example unresolved_weight_lost :
  convert_hotkeys_with_resolver
    [mk_HotkeyWeightEntry "alice" f64_one; mk_HotkeyWeightEntry "bob" f64_one] known = ([7], [65535]).
Proof. vm_compute. reflexivity. Qed.

(** One challenge answers, one is down, one is too slow. *)
#[local] Instance toy_http : Http := {|
  http_get := fun url timeout =>
    if starts_with "http://up" url then Some (Ok (mk_HttpReply 200 "200 OK" (Ok "answer"%string)))
    else if starts_with "http://down" url then Some (Ok (mk_HttpReply 503 "503 Service Unavailable" (Ok "sorry"%string)))
    else None;
  parse_response := fun b => Ok (mk_ChallengeWeightsResponse 5 answer [] [] None None)
|}.

Definition endpoints : list ChallengeEndpoint :=
  [mk_ChallengeEndpoint "a" 1 "http://up" 60 true; mk_ChallengeEndpoint "b" 2 "http://down" 60 true;
   mk_ChallengeEndpoint "c" 3 "http://slow" 60 true; mk_ChallengeEndpoint "d" 4 "http://off" 60 false;
   mk_ChallengeEndpoint "a2" 1 "http://up?x=1" 60 true].

Lemma every_mechanism_submitted_witness :
  let c := register_endpoints endpoints (ChallengeWeightCollector_new toy_client) in
  let batch := submitted_batch c (fun _ => 0) 5 in
  batch = [(2, [0], [65535]); (3, [0], [65535]); (1, [0; 7], [16385; 49150])] /\
  (collect_and_submit 0 (fun _ => 0) 5 (c, 0%nat)).1 =
    (batch_set_mechanism_weights "ws"%string the_signer (netuid toy_client) batch
       (version_key toy_client) 0%nat).1 /\
  batch.*1.*1 = ce_mechanism_id <$> active_endpoints c /\ NoDup batch.*1.*1 /\
  Forall (fun b => b.1.2 <> [] /\ length b.1.2 = length b.2) batch.
Proof.
  assert (Hact : active_endpoints (register_endpoints endpoints (ChallengeWeightCollector_new toy_client)) <> [])
    by (vm_compute; done).
  split; [vm_compute; reflexivity|].
  exact (every_mechanism_submitted toy_client endpoints 0 (fun _ => 0) 5 "ws"%string the_signer 0%nat
    eq_refl eq_refl Hact).
Defined.
End CollectorExamples.
