(* ===== verification/ChainSync.v ===== *)
(** * Following the Bittensor chain

    Models [crates/bittensor-integration/src/validator_sync.rs], which brings the
    validators of the chain state in line with the metagraph, and
    [block_sync.rs], which turns the events of the block listener into those of
    the platform.  The block listener is part of the client library; its events
    are the type [BlockEvent]. *)

From S2P Require Import Prelude Float64 Crypto CoreTypes CoreState Bittensor RustStrings RustBytes WeightSubmission StorageExamples BittensorExamples.

(** ** Validators *)

Record MetagraphValidator : Type := mk_MetagraphValidator {
  mv_hotkey : Hotkey;
  mv_uid : Z;
  mv_stake : Z;
  mv_active : bool;
  mv_incentive : f64;
  mv_trust : f64;
  mv_consensus : f64
}.

Record ValidatorSync : Type := mk_ValidatorSync {
  vs_netuid : Z;
  vs_min_stake : Z;
  vs_last_sync_block : Z;
  vs_sync_interval : Z
}.

Record SyncResult : Type := mk_SyncResult {
  sr_added : nat;
  sr_removed : nat;
  sr_updated : nat;
  sr_skipped_banned : nat;
  sr_total : nat
}.

Record SyncStatus : Type := mk_SyncStatus {
  ss_last_sync_block : Z;
  ss_sync_interval : Z;
  ss_netuid : Z;
  ss_min_stake : Z
}.

Inductive SyncError : Type :=
| ClientError (msg : string)
| ParseError (msg : string)
| StateError (msg : string).

Definition ValidatorSync_new (netuid min_stake : Z) : ValidatorSync :=
  mk_ValidatorSync netuid min_stake 0 100.
Definition with_sync_interval (blocks : Z) (v : ValidatorSync) : ValidatorSync :=
  mk_ValidatorSync (vs_netuid v) (vs_min_stake v) (vs_last_sync_block v) blocks.

Definition needs_sync (v : ValidatorSync) (current_block : Z) : bool :=
  u64_add (vs_last_sync_block v) (vs_sync_interval v) <=? current_block.

Definition sync_status (v : ValidatorSync) : SyncStatus :=
  mk_SyncStatus (vs_last_sync_block v) (vs_sync_interval v) (vs_netuid v) (vs_min_stake v).

Definition u128_saturating_add (x y : Z) : Z := Z.min (2 ^ 128 - 1) (x + y).

Definition effective_stake (n : NeuronInfo) : Z :=
  Z.min (u128_saturating_add (nu_stake n) (nu_root_stake n)) u64_max.

(** The validators above the minimum stake, and all hotkeys. *)
Definition parse_metagraph (v : ValidatorSync) (m : Metagraph) :
    result SyncError (list MetagraphValidator * gset Hotkey) :=
  Ok (omap (fun '(uid, n) =>
              let stake := effective_stake n in
              if vs_min_stake v <=? stake then
                Some (mk_MetagraphValidator (mk_Hotkey (nu_hotkey n)) (u64_as_u16 uid) stake (0 <? stake)
                        (f64_div (nu_incentive n) (f64_of_Z u16_max))
                        (f64_div (nu_trust n) (f64_of_Z u16_max))
                        (f64_div (nu_consensus n) (f64_of_Z u16_max)))
              else None) (mg_neurons m),
      list_to_set ((fun '(_, n) => mk_Hotkey (nu_hotkey n)) <$> mg_neurons m)).

Section update.
Context `{External} `{HO : !HashOrder Hotkey}.

Definition bt_map (l : list MetagraphValidator) : gmap Hotkey MetagraphValidator :=
  fold_left (fun m v => <[mv_hotkey v := v]> m) l ∅.

(** The first loop: drop what the metagraph no longer has. *)
Definition remove_absent (bt : gmap Hotkey MetagraphValidator) (st : SyncResult * ChainState)
    (hotkey : Hotkey) : SyncResult * ChainState :=
  let '(r, s) := st in
  if bool_decide (bt !! hotkey = None) && negb (is_sudo s hotkey) then
    (mk_SyncResult (sr_added r) (S (sr_removed r)) (sr_updated r) (sr_skipped_banned r) (sr_total r),
     set_validators (delete hotkey (st_validators s)) s)
  else (r, s).

Definition set_stake (stake : Stake) (active : bool) (v : ValidatorInfo) : ValidatorInfo :=
  mk_ValidatorInfo (vi_hotkey v) stake active (vi_last_seen v) (vi_peer_id v) (vi_x25519_pubkey v).

(** The second loop: add and update. *)
Definition apply_validator (now : DateTime) (banned_validators : option (gset string))
    (st : SyncResult * ChainState) (x : Hotkey * MetagraphValidator) : SyncResult * ChainState :=
  let '(r, s) := st in
  let '(hotkey, bt_val) := x in
  if match banned_validators with Some banned => bool_decide (Hotkey_to_hex hotkey ∈ banned) | None => false end
  then (mk_SyncResult (sr_added r) (sr_removed r) (sr_updated r) (S (sr_skipped_banned r)) (sr_total r), s)
  else
    match st_validators s !! hotkey with
    | Some existing =>
        let new_stake := mk_Stake (mv_stake bt_val) in
        if decide (vi_stake existing <> new_stake) then
          (mk_SyncResult (sr_added r) (sr_removed r) (S (sr_updated r)) (sr_skipped_banned r) (sr_total r),
           set_validators (<[hotkey := set_stake new_stake (mv_active bt_val) existing]>
                             (st_validators s)) s)
        else (r, s)
    | None =>
        let info := ValidatorInfo_new now hotkey (mk_Stake (mv_stake bt_val)) in
        let '(res, s') := add_validator now info s in
        if is_ok res then
          (mk_SyncResult (S (sr_added r)) (sr_removed r) (sr_updated r) (sr_skipped_banned r) (sr_total r), s')
        else (r, s')
    end.

Definition update_state (now : DateTime) (bt_validators : list MetagraphValidator)
    (banned_validators : option (gset string)) (s : ChainState) : SyncResult * ChainState :=
  let bt := bt_map bt_validators in
  let st := fold_left (remove_absent bt) (hm_keys (st_validators s)) (mk_SyncResult 0 0 0 0 0, s) in
  let '(r, s') := fold_left (apply_validator now banned_validators) (hm_iter bt) st in
  (mk_SyncResult (sr_added r) (sr_removed r) (sr_updated r) (sr_skipped_banned r)
     (size (st_validators s')), s').

Definition set_registered_hotkeys (x : gset Hotkey) (s : ChainState) : ChainState :=
  mk_ChainState (st_block_height s) (st_epoch s) (st_config s) (st_sudo_key s) (st_validators s)
    (st_challenges s) (st_challenge_configs s) (st_mechanism_configs s) (st_challenge_weights s)
    (st_required_version s) (st_pending_jobs s) (st_state_hash s) (st_last_updated s) x.

(** [sync] on the manager, the client with the chain, and the chain state. *)
Definition sync `{Subtensor} (now : DateTime) (banned_validators : option (gset string))
    (v : ValidatorSync) (cl : SubtensorClient * Chain) (s : ChainState) :
    result SyncError SyncResult * ValidatorSync * (SubtensorClient * Chain) * ChainState :=
  match sync_metagraph cl with
  | (Err e, cl') => (Err (ClientError e), v, cl', s)
  | (Ok metagraph, cl') =>
      match parse_metagraph v metagraph with
      | Err e => (Err e, v, cl', s)
      | Ok (bt_validators, all_hotkeys) =>
          let s := set_registered_hotkeys all_hotkeys s in
          let '(result, s) := update_state now bt_validators banned_validators s in
          (Ok result,
           mk_ValidatorSync (vs_netuid v) (vs_min_stake v) (st_block_height s) (vs_sync_interval v),
           cl', s)
      end
  end.
End update.

(** ** Blocks *)

Inductive EpochTransition : Type := NewEpoch (old_epoch new_epoch block : Z).

(** The events of the block listener. *)
Inductive BlockEvent : Type :=
| LNewBlock (block_number : Z) (epoch_info : EpochInfo)
| LEpochTransition (t : EpochTransition)
| LPhaseChange (block_number : Z) (old_phase new_phase : ChainPhase) (epoch : Z)
| LConnectionError (e : string)
| LStopped.

Inductive BlockSyncEvent : Type :=
| ENewBlock (block_number : Z) (epoch_info : EpochInfo)
| EEpochTransition (old_epoch new_epoch block : Z)
| EPhaseChange (block_number : Z) (old_phase new_phase : ChainPhase) (epoch : Z)
| ECommitWindowOpen (epoch block : Z)
| ERevealWindowOpen (epoch block : Z)
| EDisconnected (e : string)
| EReconnected.

Record BlockSyncConfig : Type := mk_BlockSyncConfig { bs_netuid : Z; bs_channel_capacity : Z }.
Definition BlockSyncConfig_default : BlockSyncConfig := mk_BlockSyncConfig 1 100.

Section block_sync.
Context `{Subtensor}.

(** What the handler shares with the rest of the node, and what it has sent. *)
Record BlockSync : Type := mk_BlockSync {
  bs_config : BlockSyncConfig;
  bs_client : option BittensorClient;
  bs_running : bool;
  bs_current_block : Z;
  bs_current_epoch : Z;
  bs_current_phase : ChainPhase;
  bs_tempo : Z;
  bs_was_disconnected : bool;
  bs_receiver_open : bool;
  bs_sent : list BlockSyncEvent
}.

Definition BlockSync_new (config : BlockSyncConfig) : BlockSync :=
  mk_BlockSync config None false 0 0 Evaluation 360 false true [].

(** [event_tx.send(..)]: an event is lost, with a warning, once the receiver is
    gone. *)
Definition send (ev : BlockSyncEvent) (b : BlockSync) : BlockSync :=
  mk_BlockSync (bs_config b) (bs_client b) (bs_running b) (bs_current_block b) (bs_current_epoch b)
    (bs_current_phase b) (bs_tempo b) (bs_was_disconnected b) (bs_receiver_open b)
    (if bs_receiver_open b then bs_sent b ++ [ev] else bs_sent b).

Definition set_disconnected (x : bool) (b : BlockSync) : BlockSync :=
  mk_BlockSync (bs_config b) (bs_client b) (bs_running b) (bs_current_block b) (bs_current_epoch b)
    (bs_current_phase b) (bs_tempo b) x (bs_receiver_open b) (bs_sent b).
Definition set_running (x : bool) (b : BlockSync) : BlockSync :=
  mk_BlockSync (bs_config b) (bs_client b) x (bs_current_block b) (bs_current_epoch b)
    (bs_current_phase b) (bs_tempo b) (bs_was_disconnected b) (bs_receiver_open b) (bs_sent b).

(** [true] asks the loop to stop. *)
Definition handle_block_event (event : BlockEvent) (b : BlockSync) : bool * BlockSync :=
  match event with
  | LNewBlock block_number epoch_info =>
      let b := mk_BlockSync (bs_config b) (bs_client b) (bs_running b) block_number (ei_epoch_number epoch_info)
                 (ei_phase epoch_info) (bs_tempo b) (bs_was_disconnected b) (bs_receiver_open b)
                 (bs_sent b) in
      let b := send (ENewBlock block_number epoch_info) b in
      (false, if bs_was_disconnected b then send EReconnected (set_disconnected false b) else b)
  | LEpochTransition (NewEpoch old_epoch new_epoch block) =>
      (false, send (EEpochTransition old_epoch new_epoch block) b)
  | LPhaseChange block_number old_phase new_phase epoch =>
      let b := send (EPhaseChange block_number old_phase new_phase epoch) b in
      (false, match new_phase with
              | CommitWindow => send (ECommitWindowOpen epoch block_number) b
              | RevealWindow => send (ERevealWindowOpen epoch block_number) b
              | _ => b
              end)
  | LConnectionError e => (false, send (EDisconnected e) (set_disconnected true b))
  | LStopped => (true, b)
  end.

(** The loop over what the listener delivers, while [running] is set. *)
Fixpoint run_events (events : list BlockEvent) (b : BlockSync) : BlockSync :=
  if bs_running b then
    match events with
    | [] => b
    | ev :: rest => let '(stop, b') := handle_block_event ev b in if stop then b' else run_events rest b'
    end
  else b.

Definition BlockSyncM := SE (BlockSync * Chain) string.

(** [connect] takes the block, epoch, phase and tempo of the chain. *)
Definition connect_sync (cl : BittensorClient) : BlockSyncM unit :=
  '(b, _) ← get_state;
  _ ← on_chain (listener_init cl (bs_netuid (bs_config b)));
  info ← on_chain (current_epoch_info cl (bs_netuid (bs_config b)));
  modify (fun '(b, ch) =>
    (mk_BlockSync (bs_config b) (Some cl) (bs_running b) (ei_current_block info) (ei_epoch_number info)
       (ei_phase info) (ei_tempo info) (bs_was_disconnected b) (bs_receiver_open b) (bs_sent b), ch)).

(** [start]: once the listener runs, a loop is spawned, which begins with no
    disconnection noted.  The result tells whether this call spawned one. *)
Definition start : BlockSyncM bool :=
  '(b, _) ← get_state;
  cl ← lift (ok_or (bs_client b) "Not connected - call connect() first"%string);
  if bs_running b then mret false
  else
    _ ← modify (fun '(b, ch) => (set_running true b, ch));
    _ ← on_chain (listener_start cl (bs_netuid (bs_config b)));
    _ ← modify (fun '(b, ch) => (set_disconnected false b, ch));
    mret true.

Definition stop (b : BlockSync) : BlockSync := set_running false b.
Definition is_connected (b : BlockSync) : bool := bool_decide (is_Some (bs_client b)).
End block_sync.

(** * What following the chain guarantees

    After a synchronisation the validators are those of the metagraph, sudo's
    own entry and the banned ones apart; the state hash is refreshed only when a
    validator is added.  The block events tell of a reconnection exactly once
    after each run of disconnections, and a failed start cannot be repeated. *)

Section update_props.
Context `{External} `{HO : !HashOrder Hotkey}.
Implicit Types (bt : gmap Hotkey MetagraphValidator) (s : ChainState) (r : SyncResult).

Definition is_banned (banned : option (gset string)) (hk : Hotkey) : bool :=
  match banned with Some b => bool_decide (Hotkey_to_hex hk ∈ b) | None => false end.

(** The entry of a validator the metagraph has. *)
Definition merged (now : DateTime) (hk : Hotkey) (v : MetagraphValidator) (old : option ValidatorInfo) :
    ValidatorInfo :=
  match old with
  | Some i => if decide (vi_stake i <> mk_Stake (mv_stake v))
              then set_stake (mk_Stake (mv_stake v)) (mv_active v) i else i
  | None => ValidatorInfo_new now hk (mk_Stake (mv_stake v))
  end.

(** The validators after a synchronisation. *)
Definition expected (now : DateTime) bt (banned : option (gset string)) s (hk : Hotkey) :
    option ValidatorInfo :=
  match bt !! hk with
  | None => if is_sudo s hk then st_validators s !! hk else None
  | Some v => if is_banned banned hk then st_validators s !! hk
              else Some (merged now hk v (st_validators s !! hk))
  end.

Lemma set_validators_same s : set_validators (st_validators s) s = s.
Proof. by destruct s. Qed.
Lemma set_validators_twice x y s : set_validators x (set_validators y s) = set_validators x s.
Proof. by destruct s. Qed.

(** *** The first loop *)

Definition gone bt s hk : Prop := bt !! hk = None /\ is_sudo s hk = false.
#[local] Instance gone_dec bt s hk : Decision (gone bt s hk).
Proof. unfold gone. apply _. Defined.

Lemma size_delete (m : gmap Hotkey ValidatorInfo) k v :
  m !! k = Some v -> size m = S (size (delete k m)).
Proof.
  intros Hk. rewrite <- (insert_delete_id m k v Hk) at 1. apply map_size_insert_None. apply lookup_delete_eq.
Qed.

Lemma remove_fold bt l r s r' s' :
  NoDup l -> (forall hk, hk ∈ l -> is_Some (st_validators s !! hk)) ->
  fold_left (remove_absent bt) l (r, s) = (r', s') ->
  (forall hk, st_validators s' !! hk =
     if decide (hk ∈ l /\ gone bt s hk) then None else st_validators s !! hk) /\
  s' = set_validators (st_validators s') s /\
  (sr_removed r' + size (st_validators s') = sr_removed r + size (st_validators s))%nat /\
  sr_added r' = sr_added r.
Proof.
  intros Hnd. revert r s. induction Hnd as [|x l Hx Hnd IH]; intros r s Hin.
  { intros [= <- <-]. split_and!; [|by rewrite set_validators_same|done|done]. intros hk.
    rewrite decide_False; [done|]. intros [Hin' _]. by inversion Hin'. }
  cbn [fold_left]. unfold remove_absent at 2. destruct (decide (gone bt s x)) as [Hg|Hg].
  - destruct Hg as [Hbt Hsudo] eqn:HG. rewrite bool_decide_true, Hsudo by done. cbn [andb negb].
    intros Hrun. apply IH in Hrun as (Hl & Hs & Hc & Ha).
    2:{ intros hk Hhk. simpl. rewrite lookup_delete_ne; [apply Hin; by right|]. by intros ->. }
    cbn [st_validators set_validators sr_removed sr_added] in *. rewrite set_validators_twice in Hs.
    destruct (Hin x) as [v Hv]; [left|].
    split_and!; [|done|pose proof (size_delete _ _ _ Hv); lia|done].
    intros hk. rewrite Hl. change (gone bt (set_validators (delete x (st_validators s)) s) hk)
      with (gone bt s hk). destruct (decide (hk = x)) as [->|Hne].
    + rewrite lookup_delete_eq, (decide_True (P := x ∈ x :: l /\ _)) by (split; [left|done]). by case_decide.
    + rewrite lookup_delete_ne by done. apply decide_ext. rewrite elem_of_cons. tauto.
  - intros Hrun. assert (Heq : bool_decide (bt !! x = None) && negb (is_sudo s x) = false).
    { case_bool_decide; [|done]. destruct (is_sudo s x) eqn:E; [done|]. exfalso. by apply Hg. }
    rewrite Heq in Hrun. apply IH in Hrun as (Hl & Hs & Hc & Ha); [|intros hk Hhk; apply Hin; by right].
    split_and!; [|done..]. intros hk. rewrite Hl. apply decide_ext. rewrite elem_of_cons.
    split; [tauto|]. intros [[->|?] ?]; [done|tauto].
Qed.

(** *** The second loop *)

Lemma add_validator_room now info s :
  (size (st_validators s) < nc_max_validators (st_config s))%nat ->
  stake_rao (nc_min_stake (st_config s)) <= stake_rao (vi_stake info) ->
  add_validator now info s =
    (Ok tt, update_hash now (set_validators (<[vi_hotkey info := info]> (st_validators s)) s)).
Proof.
  intros Hroom Hstake. unfold add_validator, mbind, SE_bind, get_state, require, modify.
  by rewrite (proj2 (Nat.ltb_lt _ _) Hroom), (proj2 (Z.leb_le _ _) Hstake).
Qed.

Lemma apply_fold now banned l r s r' s' :
  NoDup l.*1 -> (size (st_validators s) + length l <= nc_max_validators (st_config s))%nat ->
  Forall (fun x => stake_rao (nc_min_stake (st_config s)) <= mv_stake x.2) l ->
  fold_left (apply_validator now banned) l (r, s) = (r', s') ->
  (forall hk, st_validators s' !! hk =
     match (list_to_map l : gmap Hotkey MetagraphValidator) !! hk with
     | Some v => if is_banned banned hk then st_validators s !! hk
                 else Some (merged now hk v (st_validators s !! hk))
     | None => st_validators s !! hk
     end) /\
  (sr_added r' + size (st_validators s) = sr_added r + size (st_validators s'))%nat /\
  sr_removed r' = sr_removed r.
Proof.
  revert r s. induction l as [|[x v] l IH]; intros r s Hnd Hroom Hst.
  { intros [= <- <-]. split_and!; [|lia|done]. intros hk. by change (list_to_map [] : gmap Hotkey MetagraphValidator) with (∅ : gmap Hotkey MetagraphValidator); rewrite lookup_empty. }
  apply NoDup_cons in Hnd as [Hx Hnd]. apply list.Forall_cons in Hst as [Hv Hst]. cbn [length snd] in *.
  cbn [fold_left]. unfold apply_validator at 2. fold (is_banned banned x). intros Hrun.
  assert (Hstep : exists r1 s1, fold_left (apply_validator now banned) l (r1, s1) = (r', s') /\
    st_config s1 = st_config s /\ (size (st_validators s1) <= S (size (st_validators s)))%nat /\
    st_validators s1 = (if is_banned banned x then st_validators s
      else <[x := merged now x v (st_validators s !! x)]> (st_validators s)) /\
    (sr_added r1 + size (st_validators s) = sr_added r + size (st_validators s1))%nat /\
    sr_removed r1 = sr_removed r).
  { revert Hrun. destruct (is_banned banned x).
    { intros Hrun. eexists _, _. split; [exact Hrun|]. split_and!; (done || lia). }
    destruct (st_validators s !! x) as [i|] eqn:Hi.
    - cbn [merged]. destruct (decide (vi_stake i <> mk_Stake (mv_stake v))) as [Hd|Hd];
        intros Hrun; (eexists _, _; split; [exact Hrun|]).
      + cbn [st_validators set_validators sr_added sr_removed st_config].
        rewrite map_size_insert_Some by (rewrite Hi; by eexists). split_and!; (done || lia).
      + rewrite insert_id by done. split_and!; (done || lia).
    - rewrite add_validator_room by (simpl; lia). cbn [is_ok]. intros Hrun.
      eexists _, _. split; [exact Hrun|].
      cbn [st_validators set_validators update_hash set_state_hash vi_hotkey ValidatorInfo_new st_config sr_added sr_removed merged].
      rewrite map_size_insert_None by done. split_and!; (done || lia). }
  destruct Hstep as (r1 & s1 & Hrun1 & Hcfg & Hsz & Hval & Hadd & Hrem).
  apply IH in Hrun1 as (Hl & Ha & Hr); [|done|rewrite Hcfg; lia|by rewrite Hcfg].
  split_and!; [|lia|congruence]. intros hk. rewrite Hl. cbn [list_to_map foldr uncurry].
  destruct (decide (hk = x)) as [->|Hne].
  - rewrite not_elem_of_list_to_map_1 by done. simpl. rewrite lookup_insert_eq, Hval.
    by destruct (is_banned banned x); [|rewrite lookup_insert_eq].
  - simpl. rewrite lookup_insert_ne by done. assert (Hsame : st_validators s1 !! hk = st_validators s !! hk).
    { rewrite Hval. destruct (is_banned banned x); [done|]. by rewrite lookup_insert_ne. }
    by rewrite Hsame.
Qed.

Lemma list_to_map_hm_iter bt : list_to_map (hm_iter bt) = bt.
Proof.
  rewrite (list_to_map_proper (hm_iter bt) (map_to_list bt)).
  - apply list_to_map_to_list.
  - rewrite fst_hm_iter. apply hm_keys_NoDup.
  - apply hm_iter_perm.
Qed.

(** A synchronisation with room for everybody makes the validators exactly
    those of the metagraph, whatever the iteration order of the maps: a validator
    the metagraph lacks is removed unless it is sudo's; one it has is added, or
    has its stake brought up to date; a banned one is left as it was, present or
    absent; and the counters account for the change in number. *)
Theorem synced_validators now l banned s r s' :
  (size (st_validators s) + size (bt_map l) <= nc_max_validators (st_config s))%nat ->
  (forall hk v, bt_map l !! hk = Some v -> stake_rao (nc_min_stake (st_config s)) <= mv_stake v) ->
  update_state now l banned s = (r, s') ->
  (forall hk, st_validators s' !! hk = expected now (bt_map l) banned s hk) /\
  sr_total r = size (st_validators s') /\
  (sr_total r + sr_removed r = size (st_validators s) + sr_added r)%nat.
Proof.
  intros Hroom Hstake. unfold update_state. set (bt := bt_map l) in *.
  destruct (fold_left (remove_absent bt) _ _) as [r1 s1] eqn:Hrem.
  destruct (fold_left (apply_validator now banned) (hm_iter bt) (r1, s1)) as [r2 s2] eqn:Hadd.
  intros [= <- <-]. cbn [sr_total sr_removed sr_added].
  apply remove_fold in Hrem as (Hl1 & Hs1 & Hc1 & Ha1);
    [|apply hm_keys_NoDup|intros hk; apply elem_of_hm_keys].
  assert (Hcfg : st_config s1 = st_config s) by (rewrite Hs1; done). cbn [sr_removed sr_added] in *.
  apply apply_fold in Hadd as (Hl2 & Ha2 & Hr2).
  - split_and!; [|done|lia]. intros hk. rewrite Hl2, list_to_map_hm_iter, Hl1.
    unfold expected. destruct (bt !! hk) as [v|] eqn:Hbt.
    + rewrite decide_False; [done|]. intros [_ [Hn _]]. congruence.
    + destruct (st_validators s !! hk) as [i|] eqn:Hi; [|by case_decide; destruct (is_sudo s hk)].
      destruct (is_sudo s hk) eqn:Hsudo.
      * rewrite decide_False; [done|]. intros [_ [_ Hn]]. congruence.
      * rewrite decide_True; [done|]. split; [|done]. apply elem_of_hm_keys. rewrite Hi. by eexists.
  - rewrite fst_hm_iter. apply hm_keys_NoDup.
  - rewrite Hcfg, length_hm_iter. lia.
  - rewrite Hcfg. apply list.Forall_forall. intros [hk v] Hin. apply elem_of_hm_iter in Hin. by eapply Hstake.
Qed.

(** *** The state hash *)

Lemma remove_absent_hash bt st hk :
  st_state_hash (remove_absent bt st hk).2 = st_state_hash st.2 /\
  sr_added (remove_absent bt st hk).1 = sr_added st.1.
Proof. destruct st as [r s]. unfold remove_absent. by destruct (_ && _). Qed.

Lemma add_validator_err now info s x s' : add_validator now info s = (Err x, s') -> s' = s.
Proof.
  unfold add_validator, mbind, SE_bind, get_state, require, modify.
  destruct (_ <? _)%nat; [|by intros [= _ <-]]. destruct (_ <=? _); [done|by intros [= _ <-]].
Qed.

Lemma apply_validator_hash now banned st x :
  (sr_added st.1 <= sr_added (apply_validator now banned st x).1)%nat /\
  (sr_added (apply_validator now banned st x).1 = sr_added st.1 ->
   st_state_hash (apply_validator now banned st x).2 = st_state_hash st.2).
Proof.
  destruct st as [r s], x as [hk v]. unfold apply_validator. fold (is_banned banned hk).
  destruct (is_banned banned hk); [done|]. destruct (st_validators s !! hk) as [i|].
  - by destruct (decide _).
  - destruct (add_validator now _ s) as [[u|x] s'] eqn:Hadd; cbn [is_ok fst snd sr_added].
    + split; [lia|]. intros. lia.
    + apply add_validator_err in Hadd as ->. done.
Qed.

Lemma apply_fold_hash now banned l st :
  (sr_added st.1 <= sr_added (fold_left (apply_validator now banned) l st).1)%nat /\
  (sr_added (fold_left (apply_validator now banned) l st).1 = sr_added st.1 ->
   st_state_hash (fold_left (apply_validator now banned) l st).2 = st_state_hash st.2).
Proof.
  revert st. induction l as [|x l IH]; intros st; [done|]. cbn [fold_left].
  destruct (IH (apply_validator now banned st x)) as [Hle Hh].
  destruct (apply_validator_hash now banned st x) as [Hle' Hh']. split; [lia|].
  intros Heq. rewrite Hh by lia. apply Hh'. lia.
Qed.

(** A synchronisation that adds nobody leaves the state hash as it was, also
    when it removes validators - although the hash covers their number. *)
Theorem removal_keeps_stale_hash now l banned s r s' :
  update_state now l banned s = (r, s') -> sr_added r = 0%nat -> st_state_hash s' = st_state_hash s.
Proof.
  unfold update_state. set (st := fold_left (remove_absent (bt_map l)) _ _).
  assert (Hst : st_state_hash st.2 = st_state_hash s /\ sr_added st.1 = 0%nat).
  { unfold st. generalize (hm_keys (st_validators s)) as ks. intros ks.
    assert (Hg : forall st0, st_state_hash (fold_left (remove_absent (bt_map l)) ks st0).2 = st_state_hash st0.2 /\
      sr_added (fold_left (remove_absent (bt_map l)) ks st0).1 = sr_added st0.1); [|apply Hg].
    induction ks as [|k ks IH]; intros st0; [done|]. cbn [fold_left].
    destruct (IH (remove_absent (bt_map l) st0 k)) as [-> ->]. apply remove_absent_hash. }
  destruct (apply_fold_hash now banned (hm_iter (bt_map l)) st) as [_ Hh].
  destruct (fold_left (apply_validator now banned) _ st) as [r2 s2]. intros [= <- <-] Hadd.
  cbn [sr_added fst snd] in *. destruct Hst as [<- Hz]. apply Hh. congruence.
Qed.
End update_props.

(** ** Block events *)

(** Follows a trace of the link's events: a reconnection only after a
    disconnection. *)
Fixpoint link (disconnected : bool) (l : list BlockSyncEvent) : option bool :=
  match l with
  | [] => Some disconnected
  | EDisconnected _ :: l' => link true l'
  | EReconnected :: l' => if disconnected then link false l' else None
  | _ :: l' => link disconnected l'
  end.

(** The block of the last [NewBlock] sent. *)
Definition last_block (init : Z) (l : list BlockSyncEvent) : Z :=
  fold_left (fun b ev => match ev with ENewBlock n _ => n | _ => b end) l init.

Section block_props.
Context `{Sub : Subtensor}.
Implicit Type b : BlockSync.

Lemma link_app d l k : link d (l ++ k) = d' ← link d l; link d' k.
Proof.
  revert d. induction l as [|ev l IH]; intros d; [done|]. destruct ev; simpl; try apply IH.
  destruct d; [apply IH|done].
Qed.

Definition trace_ok (init : Z) b : Prop :=
  bs_receiver_open b = true /\ link false (bs_sent b) = Some (bs_was_disconnected b) /\
  bs_current_block b = last_block init (bs_sent b).

Lemma handle_trace_ok init ev b : trace_ok init b -> trace_ok init (handle_block_event ev b).2.
Proof.
  intros (Ho & Hl & Hb). unfold trace_ok, last_block in *.
  destruct ev as [n info|[o e blk]|n p1 p2 e|x|]; cbn [handle_block_event fst snd].
  - unfold send. cbn. rewrite Ho. destruct (bs_was_disconnected b) eqn:Hd; cbn;
      rewrite ?Ho, <- ?app_assoc, ?link_app, ?fold_left_app, Hl; done.
  - unfold send. cbn. by rewrite Ho, link_app, fold_left_app, Hl.
  - destruct p2; unfold send; cbn; rewrite ?Ho, <- ?app_assoc, ?link_app, ?fold_left_app, Hl; done.
  - unfold send. cbn. by rewrite Ho, link_app, fold_left_app, Hl.
  - done.
Qed.

(** Whatever the listener delivers, the node hears of a reconnection only
    after a disconnection and once for each run of them, and the current block is
    that of the last new-block event it heard. *)
Theorem block_events_consistent events b :
  bs_receiver_open b = true -> bs_sent b = [] -> bs_was_disconnected b = false ->
  let b' := run_events events b in
  link false (bs_sent b') = Some (bs_was_disconnected b') /\
  bs_current_block b' = last_block (bs_current_block b) (bs_sent b').
Proof.
  intros Ho Hs Hd. assert (Hok : trace_ok (bs_current_block b) b).
  { split; [done|]. by rewrite Hs, Hd. }
  assert (Hall : trace_ok (bs_current_block b) (run_events events b)); [|by destruct Hall as (_ & ? & ?)].
  clear Ho Hs Hd. revert Hok. generalize (bs_current_block b) as init. intros init. revert b.
  induction events as [|ev events IH]; intros b Hok; cbn [run_events]; [by destruct (bs_running b)|].
  destruct (bs_running b); [|done]. pose proof (handle_trace_ok init ev b Hok) as Hok'.
  destruct (handle_block_event ev b) as [[] b']; [done|by apply IH].
Qed.

(** A start that fails leaves the synchroniser marked as running: every later
    start succeeds without starting anything, until it is stopped. *)
Theorem failed_start_blocks_retries b ch x b' ch' ch2 :
  bs_client b <> None -> start (b, ch) = (Err x, (b', ch')) ->
  start (b', ch2) = (Ok false, (b', ch2)).
Proof.
  intros Hcl. unfold start, mbind, SE_bind, get_state, lift, modify, on_chain. simpl.
  destruct (bs_client b) as [cl|] eqn:Hc; [|done]. simpl. destruct (bs_running b); [done|].
  destruct (listener_start _ _ ch) as [[[]|y] c1]; [done|]. intros [= -> <- <-]. simpl. by rewrite Hc.
Qed.
End block_props.

(** ** A concrete synchronisation *)

Module SyncExamples.
Import BittensorToy.

Definition key (n : Z) : Hotkey := mk_Hotkey (replicate 32 n).
Definition stake_of (n : Z) : Z := 1000000000000 + n.
Definition info (n : Z) : ValidatorInfo := ValidatorInfo_new 0 (key n) (mk_Stake (stake_of 0)).
Definition neuron (n : Z) : MetagraphValidator :=
  mk_MetagraphValidator (key n) n (stake_of n) true f64_zero f64_zero f64_zero.

(** Validators 1, 2 and 3; the metagraph has 2, 3 and 4, and 3 is banned. *)
Definition before : ChainState :=
  set_validators (list_to_map ((fun n => (key n, info n)) <$> [1; 2; 3])) (ChainState_default 0).
Definition banned : option (gset string) := Some {[Hotkey_to_hex (key 3)]}.
Definition there : list MetagraphValidator := neuron <$> [2; 3; 4].
Definition after : SyncResult * ChainState := update_state 7 there banned before.

Lemma synced_validators_witness :
  (forall hk, st_validators after.2 !! hk = expected 7 (bt_map there) banned before hk) /\
  sr_total after.1 = size (st_validators after.2) /\
  (sr_total after.1 + sr_removed after.1 = size (st_validators before) + sr_added after.1)%nat.
Proof.
  assert (Hroom : (size (st_validators before) + size (bt_map there) <=
    nc_max_validators (st_config before))%nat) by by_compute.
  assert (Hstake : forall hk v, bt_map there !! hk = Some v ->
    stake_rao (nc_min_stake (st_config before)) <= mv_stake v).
  { assert (Hall : map_Forall (fun _ v => stake_rao (nc_min_stake (st_config before)) <= mv_stake v)
      (bt_map there)) by by_compute. exact Hall. }
  exact (synced_validators 7 _ banned before after.1 after.2 Hroom Hstake (surjective_pairing _)).
Defined.

(** Only validator 2 is left on the chain. *)
Definition shrunk : SyncResult * ChainState := update_state 7 [neuron 2] None before.

Lemma removal_keeps_stale_hash_witness :
  size (st_validators shrunk.2) = 1%nat /\ st_state_hash shrunk.2 = st_state_hash before.
Proof.
  assert (Hadd : sr_added shrunk.1 = 0%nat) by (vm_compute; reflexivity).
  split; [vm_compute; reflexivity|].
  exact (removal_keeps_stale_hash 7 [neuron 2] None before shrunk.1 shrunk.2 (surjective_pairing _) Hadd).
Defined.

Definition running : BlockSync :=
  mk_BlockSync (mk_BlockSyncConfig 100 16) (Some "ws"%string) true 700 1 Evaluation 360 false true [].
Definition the_events : list BlockEvent :=
  [LConnectionError "a"; LConnectionError "b"; LNewBlock 701 (mk_EpochInfo 701 1 CommitWindow 9 360);
   LPhaseChange 701 Evaluation CommitWindow 1; LNewBlock 702 (mk_EpochInfo 702 1 CommitWindow 8 360);
   LStopped; LNewBlock 703 (mk_EpochInfo 703 1 CommitWindow 7 360)].

Lemma block_events_consistent_witness :
  let b' := run_events the_events running in
  length (bs_sent b') = 7%nat /\ link false (bs_sent b') = Some (bs_was_disconnected b') /\
  bs_current_block b' = last_block (bs_current_block running) (bs_sent b').
Proof.
  split; [reflexivity|].
  exact (block_events_consistent the_events running eq_refl eq_refl eq_refl).
Defined.

Definition idle : BlockSync :=
  mk_BlockSync (mk_BlockSyncConfig 100 16) (Some "ws"%string) false 700 1 Evaluation 360 false true [].

Lemma failed_start_blocks_retries_witness :
  start (set_running true idle, 1%nat) = (Ok false, (set_running true idle, 1%nat)).
Proof.
  assert (Hcl : bs_client idle <> None) by done.
  assert (Hrun : start (idle, 0%nat) = (Err "chain unavailable"%string, (set_running true idle, 1%nat)))
    by reflexivity.
  exact (failed_start_blocks_retries idle 0%nat _ _ _ 1%nat Hcl Hrun).
Defined.
End SyncExamples.
