(* ===== verification/DynamicStore.v ===== *)
(** * Dynamic storage

    Models [crates/storage/src/types.rs] and [dynamic.rs]: keys with a
    namespace and an optional validator, typed values, entries with a version
    and a time to live, and the storage with its write-through cache, its
    change notifications and the handles scoped to a challenge or a validator.

    A sled tree is the ordered map of [RustBytes]; what listeners receive is the
    list of changes notified so far.  Instants and durations are numbers of
    nanoseconds; an operation reads the clock once, as its argument [now].  The
    bincode form of an entry and the text of a UUID are the class
    [DynamicCodec]. *)

From Stdlib Require Import Ascii.
From S2P Require Import Prelude Float64 Crypto RustStrings RustBytes CoreTypes Submission.

(** ** Keys *)

Record StorageKey : Type := mk_StorageKey {
  sk_namespace : string;
  sk_validator : option Hotkey;
  sk_key : string
}.

#[global] Instance StorageKey_eq_dec : EqDecision StorageKey.
Proof. solve_decision. Defined.

(** ** Values *)

Inductive StorageValue : Type :=
| VBool (v : bool)
| VU64 (v : Z)
| VI64 (v : Z)
| VU128 (v : Z)
| VF64 (v : f64)
| VString (v : string)
| VBytes (v : bytes)
| VJson (v : Json)
| VList (v : list StorageValue)
| VMap (v : gmap string StorageValue)
| VNull.

Definition as_bool (v : StorageValue) : option bool := match v with VBool b => Some b | _ => None end.
Definition as_u64 (v : StorageValue) : option Z :=
  match v with
  | VU64 n => Some n
  | VI64 n => if 0 <=? n then Some n else None
  | _ => None
  end.
Definition as_i64 (v : StorageValue) : option Z :=
  match v with
  | VI64 n => Some n
  | VU64 n => if n <=? 2 ^ 63 - 1 then Some n else None
  | _ => None
  end.
Definition as_u128 (v : StorageValue) : option Z :=
  match v with VU128 n | VU64 n => Some n | _ => None end.
Definition as_f64 (v : StorageValue) : option f64 :=
  match v with VF64 x => Some x | VU64 n | VI64 n => Some (f64_of_Z n) | _ => None end.
Definition as_str (v : StorageValue) : option string := match v with VString s => Some s | _ => None end.
Definition as_bytes (v : StorageValue) : option bytes := match v with VBytes b => Some b | _ => None end.
Definition as_json (v : StorageValue) : option Json := match v with VJson j => Some j | _ => None end.
Definition as_list (v : StorageValue) : option (list StorageValue) :=
  match v with VList l => Some l | _ => None end.
Definition as_map (v : StorageValue) : option (gmap string StorageValue) :=
  match v with VMap m => Some m | _ => None end.
Definition is_null (v : StorageValue) : bool := match v with VNull => true | _ => false end.

(** ** Entries *)

Record StorageEntry : Type := mk_StorageEntry {
  se_value : StorageValue;
  se_created_at : Z;
  se_modified_at : Z;
  se_ttl : option Z;
  se_version : Z;
  se_writer : option Hotkey
}.

Definition StorageEntry_new (now : Z) (value : StorageValue) (writer : option Hotkey) : StorageEntry :=
  mk_StorageEntry value now now None 1 writer.

Definition with_ttl (ttl : Z) (e : StorageEntry) : StorageEntry :=
  mk_StorageEntry (se_value e) (se_created_at e) (se_modified_at e) (Some ttl) (se_version e)
    (se_writer e).

(** [created_at.elapsed()] fails when the clock was set back. *)
Definition entry_expired (now : Z) (e : StorageEntry) : bool :=
  match se_ttl e with
  | Some ttl => (se_created_at e <=? now) && (ttl <? now - se_created_at e)
  | None => false
  end.

Definition entry_update (now : Z) (value : StorageValue) (writer : option Hotkey) (e : StorageEntry) :
    StorageEntry :=
  mk_StorageEntry value (se_created_at e) now (se_ttl e) (u64_add (se_version e) 1) writer.

Record StorageChange : Type := mk_StorageChange {
  sg_key : StorageKey;
  sg_old_value : option StorageValue;
  sg_new_value : option StorageValue;
  sg_block_height : Z;
  sg_timestamp : Z
}.

Record NamespaceStats : Type := mk_NamespaceStats {
  ns_key_count : Z;
  ns_size_bytes : Z;
  ns_validator_count : Z
}.
Definition NamespaceStats_default : NamespaceStats := mk_NamespaceStats 0 0 0.

Record StorageStats : Type := mk_StorageStats {
  st_total_keys : Z;
  st_total_size_bytes : Z;
  st_namespaces : gmap string NamespaceStats
}.

Class DynamicCodec : Type := {
  uuid_to_string : Uuid -> string;
  encode_storage_entry : StorageEntry -> result string bytes;
  decode_storage_entry : bytes -> result string StorageEntry;
  key_debug : StorageKey -> string
}.

(** ** Bytes of keys *)

Definition system (key : string) : StorageKey := mk_StorageKey "system" None key.
Definition global_validator (validator : Hotkey) (key : string) : StorageKey :=
  mk_StorageKey "validators" (Some validator) key.

Definition namespace_prefix (namespace : string) : bytes := str_bytes namespace ++ [0].

Definition key_bytes (k : StorageKey) : bytes :=
  str_bytes (sk_namespace k) ++ [0] ++
  match sk_validator k with Some v => hk_bytes v | None => [] end ++ [0] ++ str_bytes (sk_key k).

(** [parts] is the lossy text split at the zero bytes. *)
Definition key_parts (b : bytes) : list string := split "000"%char (bytes_str (utf8_lossy b)).

Definition parse_key (b : bytes) : option StorageKey :=
  let parts := key_parts b in
  if (2 <=? length parts)%nat then
    let namespace := default EmptyString (parts !! 0%nat) in
    let validator :=
      match parts !! 1%nat with
      | Some p =>
          if (2 <? length parts)%nat && negb (is_empty p) then
            if (length (str_bytes p) =? 32)%nat then Some (mk_Hotkey (str_bytes p)) else None
          else None
      | None => None
      end in
    key ← last parts;
    Some (mk_StorageKey namespace validator key)
  else None.

(** ** The storage *)

Section dynamic.
Context `{Codec : DynamicCodec}.

Definition challenge_key (challenge_id : ChallengeId) (key : string) : StorageKey :=
  mk_StorageKey (uuid_to_string challenge_id) None key.
Definition validator_key (challenge_id : ChallengeId) (validator : Hotkey) (key : string) : StorageKey :=
  mk_StorageKey (uuid_to_string challenge_id) (Some validator) key.

Record DynamicStorage : Type := mk_DynamicStorage {
  dy_tree : Tree bytes;
  dy_cache : gmap bytes StorageEntry;
  dy_cache_enabled : bool;
  dy_max_cache_size : nat;
  dy_block_height : Z;
  dy_notified : list StorageChange
}.

Definition DynamicStorage_new (tree : Tree bytes) : DynamicStorage :=
  mk_DynamicStorage tree ∅ true 10000 0 [].
Definition with_cache (enabled : bool) (max_size : nat) (s : DynamicStorage) : DynamicStorage :=
  mk_DynamicStorage (dy_tree s) (dy_cache s) enabled max_size (dy_block_height s) (dy_notified s).
Definition dyn_set_block_height (height : Z) (s : DynamicStorage) : DynamicStorage :=
  mk_DynamicStorage (dy_tree s) (dy_cache s) (dy_cache_enabled s) (dy_max_cache_size s) height
    (dy_notified s).

Definition set_tree (f : Tree bytes -> Tree bytes) (s : DynamicStorage) : DynamicStorage :=
  mk_DynamicStorage (f (dy_tree s)) (dy_cache s) (dy_cache_enabled s) (dy_max_cache_size s)
    (dy_block_height s) (dy_notified s).
(** A write to the cache, when there is one. *)
Definition on_cache (f : gmap bytes StorageEntry -> gmap bytes StorageEntry) (s : DynamicStorage) :
    DynamicStorage :=
  if dy_cache_enabled s then
    mk_DynamicStorage (dy_tree s) (f (dy_cache s)) (dy_cache_enabled s) (dy_max_cache_size s)
      (dy_block_height s) (dy_notified s)
  else s.
Definition notify (c : StorageChange) (s : DynamicStorage) : DynamicStorage :=
  mk_DynamicStorage (dy_tree s) (dy_cache s) (dy_cache_enabled s) (dy_max_cache_size s)
    (dy_block_height s) (dy_notified s ++ [c]).

Definition DynM := SE DynamicStorage MiniChainError.

(** The entry in the cache that may answer a read. *)
Definition cache_hit (now : Z) (kb : bytes) (s : DynamicStorage) : option StorageEntry :=
  if dy_cache_enabled s then
    match dy_cache s !! kb with
    | Some e => if entry_expired now e then None else Some e
    | None => None
    end
  else None.

Definition dyn_get (now : Z) (key : StorageKey) : DynM (option StorageEntry) :=
  let kb := key_bytes key in
  s ← get_state;
  match cache_hit now kb s with
  | Some e => mret (Some e)
  | None =>
      match dy_tree s !! kb with
      | Some data =>
          e ← lift (result_map_err Serialization (decode_storage_entry data));
          if entry_expired now e then
            _ ← modify (set_tree (delete kb));
            _ ← modify (on_cache (delete kb));
            mret None
          else
            _ ← modify (on_cache (fun c =>
                  if (size c <? dy_max_cache_size s)%nat then <[kb := e]> c else c));
            mret (Some e)
      | None => mret None
      end
  end.

Definition dyn_get_value (now : Z) (key : StorageKey) : DynM (option StorageValue) :=
  e ← dyn_get now key; mret (se_value <$> e).

Definition dyn_set_with_options (now : Z) (key : StorageKey) (value : StorageValue)
    (writer : option Hotkey) (ttl : option Z) : DynM unit :=
  let kb := key_bytes key in
  old_entry ← dyn_get now key;
  let old_value := se_value <$> old_entry in
  let base := match old_entry with
              | Some existing => entry_update now value writer existing
              | None => StorageEntry_new now value writer
              end in
  let entry := match ttl with Some t => with_ttl t base | None => base end in
  data ← lift (result_map_err Serialization (encode_storage_entry entry));
  _ ← modify (set_tree (<[kb := data]>));
  s ← get_state;
  _ ← modify (on_cache (fun c =>
        if (size c <? dy_max_cache_size s)%nat || bool_decide (is_Some (c !! kb))
        then <[kb := entry]> c else c));
  modify (notify (mk_StorageChange key old_value (Some value) (dy_block_height s) now)).

Definition dyn_set (now : Z) (key : StorageKey) (value : StorageValue) (writer : option Hotkey) :
    DynM unit := dyn_set_with_options now key value writer None.
Definition dyn_set_with_ttl (now : Z) (key : StorageKey) (value : StorageValue)
    (writer : option Hotkey) (ttl : Z) : DynM unit :=
  dyn_set_with_options now key value writer (Some ttl).

Definition dyn_delete (now : Z) (key : StorageKey) : DynM (option StorageValue) :=
  let kb := key_bytes key in
  old_entry ← dyn_get now key;
  let old_value := se_value <$> old_entry in
  _ ← modify (set_tree (delete kb));
  _ ← modify (on_cache (delete kb));
  s ← get_state;
  match old_value with
  | Some _ =>
      _ ← modify (notify (mk_StorageChange key old_value None (dy_block_height s) now));
      mret old_value
  | None => mret old_value
  end.

Definition dyn_exists (now : Z) (key : StorageKey) (s : DynamicStorage) : bool :=
  let kb := key_bytes key in
  match (if dy_cache_enabled s then dy_cache s !! kb else None) with
  | Some e => negb (entry_expired now e)
  | None => bool_decide (is_Some (dy_tree s !! kb))
  end.

Definition i64_wrap (x : Z) : Z := (x + 2 ^ 63) mod 2 ^ 64 - 2 ^ 63.

Definition increment (now : Z) (key : StorageKey) (delta : Z) (writer : option Hotkey) : DynM Z :=
  v ← dyn_get_value now key;
  let current := default 0 (v ≫= as_i64) in
  let new_value := i64_wrap (current + delta) in
  _ ← dyn_set now key (VI64 new_value) writer;
  mret new_value.

Definition list_push (now : Z) (key : StorageKey) (value : StorageValue) (writer : option Hotkey) :
    DynM nat :=
  existing ← dyn_get_value now key;
  l ← (match existing with
       | None => mret []
       | Some (VList l) => mret l
       | Some _ => throw (TypeMismatch ("Cannot push to non-list value at key " +:+ key_debug key +:+
                            ". Existing value is not a list."))
       end);
  let l := l ++ [value] in
  _ ← dyn_set now key (VList l) writer;
  mret (length l).

Definition map_set (now : Z) (key : StorageKey) (field : string) (value : StorageValue)
    (writer : option Hotkey) : DynM unit :=
  existing ← dyn_get_value now key;
  m ← (match existing with
       | None => mret ∅
       | Some (VMap m) => mret m
       | Some _ => throw (TypeMismatch ("Cannot set map field on non-map value at key " +:+
                            key_debug key +:+ ". Existing value is not a map."))
       end);
  dyn_set now key (VMap (<[field := value]> m)) writer.

Definition map_get (now : Z) (key : StorageKey) (field : string) : DynM (option StorageValue) :=
  v ← dyn_get_value now key;
  mret (m ← v ≫= as_map; m !! field).

(** ** Scans *)

Fixpoint scan_items (now : Z) (items : list (bytes * bytes)) :
    result MiniChainError (list (StorageKey * StorageEntry)) :=
  match items with
  | [] => Ok []
  | (kb, data) :: rest =>
      e ← result_map_err Serialization (decode_storage_entry data);
      r ← scan_items now rest;
      if entry_expired now e then Ok r
      else match parse_key kb with Some k => Ok ((k, e) :: r) | None => Ok r end
  end.

Definition scan_namespace (now : Z) (namespace : string) (s : DynamicStorage) :
    result MiniChainError (list (StorageKey * StorageEntry)) :=
  scan_items now (tree_scan_prefix (namespace_prefix namespace) (dy_tree s)).

(** The expired entries are found first and removed then. *)
Definition expired_keys (now : Z) (t : Tree bytes) : list bytes :=
  omap (fun '(kb, data) =>
    match decode_storage_entry data with
    | Ok e => if entry_expired now e then Some kb else None
    | Err _ => None
    end) (tree_iter t).

Definition cleanup_expired (now : Z) (s : DynamicStorage) : nat * DynamicStorage :=
  let to_remove := expired_keys now (dy_tree s) in
  let s := set_tree (fun t => fold_left (fun t k => delete k t) to_remove t) s in
  (length to_remove, on_cache (filter (fun '(_, e) => entry_expired now e = false)) s).

Definition add_key_stats (size : Z) (k : StorageKey) (n : NamespaceStats) : NamespaceStats :=
  mk_NamespaceStats (ns_key_count n + 1) (ns_size_bytes n + size)
    (if bool_decide (is_Some (sk_validator k)) then ns_validator_count n + 1 else ns_validator_count n).

Definition dyn_stats (s : DynamicStorage) : StorageStats :=
  fold_left (fun st '(kb, data) =>
    let size := Z.of_nat (length kb) + Z.of_nat (length data) in
    mk_StorageStats (st_total_keys st + 1) (st_total_size_bytes st + size)
      match parse_key kb with
      | Some k =>
          <[sk_namespace k := add_key_stats size k
              (default NamespaceStats_default (st_namespaces st !! sk_namespace k))]> (st_namespaces st)
      | None => st_namespaces st
      end)
    (tree_iter (dy_tree s)) (mk_StorageStats 0 0 ∅).

Definition clear_cache (s : DynamicStorage) : DynamicStorage :=
  mk_DynamicStorage (dy_tree s) ∅ (dy_cache_enabled s) (dy_max_cache_size s) (dy_block_height s)
    (dy_notified s).

(** ** Scoped handles *)

Section challenge_storage.
Variable challenge_id : ChallengeId.

Definition cs_get (now : Z) (key : string) := dyn_get_value now (challenge_key challenge_id key).
Definition cs_set (now : Z) (key : string) (value : StorageValue) :=
  dyn_set now (challenge_key challenge_id key) value None.
Definition cs_set_with_ttl (now : Z) (key : string) (value : StorageValue) (ttl : Z) :=
  dyn_set_with_ttl now (challenge_key challenge_id key) value None ttl.
Definition cs_delete (now : Z) (key : string) := dyn_delete now (challenge_key challenge_id key).
Definition cs_increment (now : Z) (key : string) (delta : Z) :=
  increment now (challenge_key challenge_id key) delta None.
Definition cs_map_set (now : Z) (key field : string) (value : StorageValue) :=
  map_set now (challenge_key challenge_id key) field value None.
Definition cs_map_get (now : Z) (key field : string) :=
  map_get now (challenge_key challenge_id key) field.

(** Only the keys without a validator. *)
Definition cs_scan (now : Z) (s : DynamicStorage) : result MiniChainError (list (string * StorageEntry)) :=
  match scan_namespace now (uuid_to_string challenge_id) s with
  | Ok entries => Ok ((fun x => (sk_key x.1, x.2)) <$> filter (fun x => sk_validator x.1 = None) entries)
  | Err e => Err e
  end.
End challenge_storage.

Section validator_storage.
Variables (validator : Hotkey) (challenge_id : option ChallengeId).

Definition make_key (key : string) : StorageKey :=
  match challenge_id with
  | Some cid => validator_key cid validator key
  | None => global_validator validator key
  end.

Definition vs_get (now : Z) (key : string) := dyn_get_value now (make_key key).
Definition vs_set (now : Z) (key : string) (value : StorageValue) :=
  dyn_set now (make_key key) value (Some validator).
Definition vs_set_with_ttl (now : Z) (key : string) (value : StorageValue) (ttl : Z) :=
  dyn_set_with_ttl now (make_key key) value (Some validator) ttl.
Definition vs_delete (now : Z) (key : string) := dyn_delete now (make_key key).
End validator_storage.
End dynamic.
