(* ===== verification/DynamicStoreProps.v ===== *)
(** * What the dynamic storage guarantees

    Distinct keys have distinct bytes; the storage refines a finite map of
    entries with a time to live, whatever its cache holds; and three ways in
    which it departs from what it documents: a time to live set on an older
    entry, values that can be written but not read, and scans that return
    validator-scoped entries. *)

From Stdlib Require Import Ascii.
From S2P Require Import Prelude Float64 Crypto RustStrings RustBytes CoreTypes Submission DynamicStore.

(** ** Keys *)

Definition nul_free (s : string) : Prop := 0 ∉ str_bytes s.

(** Two storage keys without zero bytes in their texts, with 32-byte hotkeys,
    never share their bytes, though the hotkey itself may contain the separator. *)
Theorem key_bytes_injective (j k : StorageKey) :
  nul_free (sk_namespace j) -> nul_free (sk_namespace k) ->
  nul_free (sk_key j) -> nul_free (sk_key k) ->
  (forall v, sk_validator j = Some v -> length (hk_bytes v) = 32%nat) ->
  (forall v, sk_validator k = Some v -> length (hk_bytes v) = 32%nat) ->
  key_bytes j = key_bytes k -> j = k.
Proof.
  unfold key_bytes. destruct j as [n [v|] t], k as [n' [v'|] t']; cbn [sk_namespace sk_key sk_validator app];
    intros Hn Hn' Ht Ht' Hv Hv' Heq;
    apply app_sep_inj in Heq as [Hns Heq]; try done; apply str_bytes_inj in Hns as ->.
  - apply app_inj_1 in Heq as [Hb Heq]; [|rewrite (Hv v), (Hv' v') by done; done].
    apply (f_equal tail) in Heq; cbn [tail] in Heq. apply str_bytes_inj in Heq as ->.
    destruct v, v'. simpl in Hb. by subst.
  - exfalso. specialize (Hv v eq_refl). destruct v as [[|x b]]; [done|]. cbn [hk_bytes app] in Heq.
    apply (f_equal tail) in Heq; cbn [tail] in Heq. apply Ht'. rewrite <- Heq. apply elem_of_app. right. left.
  - exfalso. specialize (Hv' v' eq_refl). destruct v' as [[|x b]]; [done|]. cbn [hk_bytes app] in Heq.
    apply (f_equal tail) in Heq; cbn [tail] in Heq. apply Ht. rewrite Heq. apply elem_of_app. right. left.
  - apply (f_equal tail) in Heq; cbn [tail] in Heq. by apply str_bytes_inj in Heq as ->.
Qed.

(** ** The codec *)

(** Values bincode can read back: those without self-describing JSON. *)
Inductive json_free : StorageValue -> Prop :=
| jf_bool b : json_free (VBool b)
| jf_u64 n : json_free (VU64 n)
| jf_i64 n : json_free (VI64 n)
| jf_u128 n : json_free (VU128 n)
| jf_f64 x : json_free (VF64 x)
| jf_string s : json_free (VString s)
| jf_bytes b : json_free (VBytes b)
| jf_list l : (forall v, v ∈ l -> json_free v) -> json_free (VList l)
| jf_map m : (forall k v, m !! k = Some v -> json_free v) -> json_free (VMap m)
| jf_null : json_free VNull.

Create HintDb dynamic.
#[export] Hint Constructors json_free : dynamic.

(** The documented behaviour of bincode: everything can be serialized; what has
    no self-describing part can be read back; JSON values cannot. *)
Class DynamicCodecLaws `{DynamicCodec} : Prop := {
  encode_entry_total : forall e, is_ok (encode_storage_entry e) = true;
  decode_plain_entry : forall e b, json_free (se_value e) -> encode_storage_entry e = Ok b ->
    decode_storage_entry b = Ok e;
  decode_json_entry : forall e j b, se_value e = VJson j -> encode_storage_entry e = Ok b ->
    is_ok (decode_storage_entry b) = false
}.

(** ** The abstract storage: a map with times to live *)

Abbreviation Table := (gmap bytes StorageEntry).

(** A read drops what it finds expired. *)
Definition spec_get (now : Z) (kb : bytes) (m : Table) : option StorageEntry * Table :=
  match m !! kb with
  | Some e => if entry_expired now e then (None, delete kb m) else (Some e, m)
  | None => (None, m)
  end.

Definition spec_entry (now : Z) (value : StorageValue) (writer : option Hotkey) (ttl : option Z)
    (old : option StorageEntry) : StorageEntry :=
  let base := match old with
              | Some e => entry_update now value writer e
              | None => StorageEntry_new now value writer
              end in
  match ttl with Some t => with_ttl t base | None => base end.

Definition spec_set (now : Z) (kb : bytes) (value : StorageValue) (writer : option Hotkey)
    (ttl : option Z) (m : Table) : Table :=
  let '(old, m') := spec_get now kb m in <[kb := spec_entry now value writer ttl old]> m'.

(** Operations and their answers. *)
Inductive dyn_op : Type :=
| DGet (key : StorageKey)
| DSet (key : StorageKey) (value : StorageValue) (writer : option Hotkey) (ttl : option Z)
| DDelete (key : StorageKey)
| DIncrement (key : StorageKey) (delta : Z) (writer : option Hotkey)
| DListPush (key : StorageKey) (value : StorageValue) (writer : option Hotkey)
| DMapSet (key : StorageKey) (field : string) (value : StorageValue) (writer : option Hotkey)
| DMapGet (key : StorageKey) (field : string)
| DCleanup
| DClearCache.

Inductive dyn_answer : Type :=
| AEntry (e : option StorageEntry)
| ADone
| AValue (v : option StorageValue)
| ANumber (n : Z)
| AError (e : MiniChainError).

Definition op_json_free (o : dyn_op) : Prop :=
  match o with
  | DSet _ v _ _ | DListPush _ v _ | DMapSet _ _ v _ => json_free v
  | _ => True
  end.

Section refinement.
Context `{Codec : DynamicCodec}.

Definition answer {A} (f : A -> dyn_answer) (r : result MiniChainError A * DynamicStorage) :
    dyn_answer * DynamicStorage :=
  (match r.1 with Ok a => f a | Err e => AError e end, r.2).

Definition run_dyn (now : Z) (o : dyn_op) (s : DynamicStorage) : dyn_answer * DynamicStorage :=
  match o with
  | DGet key => answer AEntry (dyn_get now key s)
  | DSet key value writer ttl => answer (fun _ => ADone) (dyn_set_with_options now key value writer ttl s)
  | DDelete key => answer AValue (dyn_delete now key s)
  | DIncrement key delta writer => answer ANumber (increment now key delta writer s)
  | DListPush key value writer => answer (fun n => ANumber (Z.of_nat n)) (list_push now key value writer s)
  | DMapSet key field value writer => answer (fun _ => ADone) (map_set now key field value writer s)
  | DMapGet key field => answer AValue (map_get now key field s)
  | DCleanup => let '(n, s') := cleanup_expired now s in (ANumber (Z.of_nat n), s')
  | DClearCache => (ADone, clear_cache s)
  end.

(** The value of a live entry, then an update of it. *)
Definition spec_update (now : Z) (key : StorageKey) (writer : option Hotkey) (v : StorageValue) (m : Table) :=
  spec_set now (key_bytes key) v writer None m.

Definition spec_run (now : Z) (o : dyn_op) (m : Table) : dyn_answer * Table :=
  match o with
  | DGet key => let '(e, m') := spec_get now (key_bytes key) m in (AEntry e, m')
  | DSet key value writer ttl => (ADone, spec_set now (key_bytes key) value writer ttl m)
  | DDelete key =>
      let '(e, m') := spec_get now (key_bytes key) m in (AValue (se_value <$> e), delete (key_bytes key) m')
  | DIncrement key delta writer =>
      let '(e, m') := spec_get now (key_bytes key) m in
      let n := i64_wrap (default 0 ((se_value <$> e) ≫= as_i64) + delta) in
      (ANumber n, spec_update now key writer (VI64 n) m')
  | DListPush key value writer =>
      let '(e, m') := spec_get now (key_bytes key) m in
      match se_value <$> e with
      | None => (ANumber 1, spec_update now key writer (VList [value]) m')
      | Some (VList l) =>
          (ANumber (Z.of_nat (length (l ++ [value]))), spec_update now key writer (VList (l ++ [value])) m')
      | Some _ => (AError (TypeMismatch ("Cannot push to non-list value at key " +:+ key_debug key +:+
                            ". Existing value is not a list.")), m')
      end
  | DMapSet key field value writer =>
      let '(e, m') := spec_get now (key_bytes key) m in
      match se_value <$> e with
      | None => (ADone, spec_update now key writer (VMap {[field := value]}) m')
      | Some (VMap f) => (ADone, spec_update now key writer (VMap (<[field := value]> f)) m')
      | Some _ => (AError (TypeMismatch ("Cannot set map field on non-map value at key " +:+
                            key_debug key +:+ ". Existing value is not a map.")), m')
      end
  | DMapGet key field =>
      let '(e, m') := spec_get now (key_bytes key) m in
      (AValue (f ← (se_value <$> e) ≫= as_map; f !! field), m')
  | DCleanup =>
      (ANumber (Z.of_nat (size (filter (fun '(_, e) => entry_expired now e = true) m))),
       filter (fun '(_, e) => entry_expired now e = false) m)
  | DClearCache => (ADone, m)
  end.

(** The storage represents the table: the tree holds exactly its entries, and
    the cache some of them. *)
Record represents (s : DynamicStorage) (m : Table) : Prop := {
  rep_tree : forall kb, match m !! kb with
    | Some e => exists b, dy_tree s !! kb = Some b /\ decode_storage_entry b = Ok e
    | None => dy_tree s !! kb = None
    end;
  rep_cache : dy_cache_enabled s = true -> forall kb e, dy_cache s !! kb = Some e -> m !! kb = Some e;
  rep_plain : forall kb e, m !! kb = Some e -> json_free (se_value e)
}.

Lemma dyn_represents_cache s m f :
  represents s m ->
  (forall c, (forall kb e, c !! kb = Some e -> m !! kb = Some e) ->
    forall kb e, f c !! kb = Some e -> m !! kb = Some e) ->
  represents (on_cache f s) m.
Proof.
  intros Hrep Hf. pose proof Hrep as [Ht Hc Hp]. unfold on_cache. destruct (dy_cache_enabled s) eqn:He; [|exact Hrep].
  split; [done| |done]. simpl. intros _ kb e. by apply Hf, Hc.
Qed.

Lemma represents_notify s m c : represents s m -> represents (notify c s) m.
Proof. by intros [Ht Hc Hp]. Qed.

Lemma lookup_delete_Some_other {V} (m : gmap bytes V) kb x v :
  delete kb m !! x = Some v -> x <> kb /\ m !! x = Some v.
Proof. intros Hx. apply lookup_delete_Some in Hx as [Hne Hx]. by split. Qed.

Lemma represents_delete s m kb :
  represents s m -> represents (on_cache (delete kb) (set_tree (delete kb) s)) (delete kb m).
Proof.
  intros [Ht Hc Hp]. split.
  - intros x. assert (Htree : dy_tree (on_cache (delete kb) (set_tree (delete kb) s)) = delete kb (dy_tree s)).
    { unfold on_cache. simpl. by destruct (dy_cache_enabled s). }
    rewrite Htree. destruct (decide (x = kb)) as [->|Hne]; [by rewrite !lookup_delete_eq|].
    rewrite !lookup_delete_ne by done. apply Ht.
  - unfold on_cache. simpl. destruct (dy_cache_enabled s) eqn:He; simpl; [|congruence].
    intros _ x e [Hne Hx]%lookup_delete_Some_other. rewrite lookup_delete_ne by done. by apply Hc.
  - intros x e [Hne Hx]%lookup_delete_Some_other. by eapply Hp.
Qed.

Lemma represents_insert s m kb e b f :
  represents s m -> decode_storage_entry b = Ok e -> json_free (se_value e) ->
  (forall c, f c = <[kb := e]> c \/ f c = c /\ c !! kb = None) ->
  represents (on_cache f (set_tree (<[kb := b]>) s)) (<[kb := e]> m).
Proof.
  intros [Ht Hc Hp] Hb He Hf. split.
  - intros x. assert (Htree : dy_tree (on_cache f (set_tree (<[kb := b]>) s)) = <[kb := b]> (dy_tree s)).
    { unfold on_cache. simpl. by destruct (dy_cache_enabled s). }
    rewrite Htree. destruct (decide (x = kb)) as [->|Hne].
    + rewrite !lookup_insert_eq. by exists b.
    + rewrite !lookup_insert_ne by done. apply Ht.
  - unfold on_cache. simpl. destruct (dy_cache_enabled s) eqn:Hen; simpl; [|congruence].
    intros _ x e' Hx. destruct (Hf (dy_cache s)) as [Heq|[Heq Hnone]]; rewrite Heq in Hx;
      destruct (decide (x = kb)) as [->|Hne].
    + by rewrite lookup_insert_eq in Hx |- *.
    + rewrite lookup_insert_ne in Hx |- * by done. by apply Hc.
    + congruence.
    + rewrite lookup_insert_ne by done. by apply Hc.
  - intros x e' Hx. destruct (decide (x = kb)) as [->|Hne].
    + rewrite lookup_insert_eq in Hx. by injection Hx as <-.
    + rewrite lookup_insert_ne in Hx by done. by eapply Hp.
Qed.

(** *** Reads *)

Lemma dyn_get_refines now key s m :
  represents s m ->
  exists s', dyn_get now key s = (Ok (spec_get now (key_bytes key) m).1, s') /\
    represents s' (spec_get now (key_bytes key) m).2.
Proof.
  intros Hrep. pose proof Hrep as [Ht Hc Hp]. unfold dyn_get, spec_get.
  unfold mbind, SE_bind, get_state, lift, modify. specialize (Ht (key_bytes key)).
  destruct (cache_hit now (key_bytes key) s) as [e|] eqn:Hhit.
  { unfold cache_hit in Hhit. destruct (dy_cache_enabled s) eqn:He; [|done].
    destruct (dy_cache s !! key_bytes key) as [e'|] eqn:Hk; [|done].
    destruct (entry_expired now e') eqn:Hex; [done|]. injection Hhit as <-.
    rewrite (Hc eq_refl _ _ Hk), Hex. by exists s. }
  destruct (m !! key_bytes key) as [e|] eqn:Hm; [|rewrite Ht; by exists s].
  destruct Ht as (b & -> & ->). cbn [result_map_err].
  destruct (entry_expired now e) eqn:Hex.
  - eexists. split; [reflexivity|]. by apply represents_delete.
  - eexists. split; [reflexivity|]. simpl. apply dyn_represents_cache; [done|].
    intros c Hcm kb e'. destruct (_ <? _)%nat; [|apply Hcm].
    destruct (decide (kb = key_bytes key)) as [->|Hne].
    + rewrite lookup_insert_eq. by intros [= <-].
    + rewrite lookup_insert_ne by done. apply Hcm.
Qed.

Lemma spec_get_idempotent now kb m :
  spec_get now kb (spec_get now kb m).2 = ((spec_get now kb m).1, (spec_get now kb m).2).
Proof.
  unfold spec_get. destruct (m !! kb) as [e|] eqn:Hm; simpl; [|by rewrite Hm].
  destruct (entry_expired now e) eqn:Hex; simpl; [by rewrite lookup_delete_eq|by rewrite Hm, Hex].
Qed.

(** *** Writes *)

Lemma entry_value now v w ttl old : se_value (spec_entry now v w ttl old) = v.
Proof. unfold spec_entry. by destruct old, ttl. Qed.

Lemma dyn_set_refines `{!DynamicCodecLaws} now key v w ttl s m :
  represents s m -> json_free v ->
  exists s', dyn_set_with_options now key v w ttl s = (Ok tt, s') /\
    represents s' (spec_set now (key_bytes key) v w ttl m).
Proof.
  intros Hrep Hv. unfold dyn_set_with_options, spec_set.
  destruct (dyn_get_refines now key s m Hrep) as (s1 & Hget & Hrep1).
  unfold mbind at 1, SE_bind at 1. rewrite Hget.
  destruct (spec_get now (key_bytes key) m) as [old m1]. cbn [fst snd] in *.
  fold (spec_entry now v w ttl old). set (e := spec_entry now v w ttl old).
  assert (He : json_free (se_value e)) by (unfold e; by rewrite entry_value).
  pose proof (encode_entry_total e) as Hok. destruct (encode_storage_entry e) as [b|x] eqn:Hb; [|done].
  pose proof (decode_plain_entry e b He Hb) as Hdec.
  unfold mbind, SE_bind, lift, modify, get_state. cbn [result_map_err].
  eexists. split; [reflexivity|]. apply represents_notify. apply represents_insert; [done..|].
  intros c. destruct ((size c <? _)%nat) eqn:Hsz; [by left|]. cbn [orb].
  case_bool_decide as Hk; [by left|]. right. split; [done|]. by apply eq_None_not_Some.
Qed.

Lemma dyn_get_value_refines now key s m :
  represents s m ->
  exists s', dyn_get_value now key s = (Ok (se_value <$> (spec_get now (key_bytes key) m).1), s') /\
    represents s' (spec_get now (key_bytes key) m).2.
Proof.
  intros Hrep. destruct (dyn_get_refines now key s m Hrep) as (s1 & Hget & Hrep1).
  unfold dyn_get_value, mbind, SE_bind. rewrite Hget. by exists s1.
Qed.

Lemma spec_get_plain now kb m e s :
  represents s m -> (spec_get now kb m).1 = Some e -> json_free (se_value e).
Proof.
  intros Hrep. unfold spec_get. destruct (m !! kb) as [e'|] eqn:Hm; [|done].
  destruct (entry_expired now e'); [done|]. intros [= <-]. by eapply rep_plain.
Qed.

(** *** Cleaning up *)

Lemma elem_of_expired_keys now s m kb :
  represents s m ->
  kb ∈ expired_keys now (dy_tree s) <-> exists e, m !! kb = Some e /\ entry_expired now e = true.
Proof.
  intros [Ht _ _]. unfold expired_keys. rewrite list_elem_of_omap. split.
  - intros ([k b] & Hin & Hk). apply elem_of_tree_iter in Hin.
    specialize (Ht k). destruct (m !! k) as [e|] eqn:Hm; [|congruence].
    destruct Ht as (b' & Hb' & Hdec). rewrite Hin in Hb'. injection Hb' as <-. rewrite Hdec in Hk.
    destruct (entry_expired now e) eqn:Hex; [|done]. injection Hk as <-. by exists e.
  - intros (e & Hm & Hex). specialize (Ht kb). rewrite Hm in Ht. destruct Ht as (b & Hb & Hdec).
    exists (kb, b). split; [by apply elem_of_tree_iter|]. by rewrite Hdec, Hex.
Qed.

Lemma expired_keys_NoDup (now : Z) (t : Tree bytes) : NoDup (expired_keys now t).
Proof.
  apply omap_keys_NoDup. intros [kb b] k. destruct (decode_storage_entry b) as [e|]; [|done].
  destruct (entry_expired now e); [|done]. by intros [= <-].
Qed.

Lemma dyn_cleanup_refines now s m :
  represents s m ->
  Z.of_nat (cleanup_expired now s).1 =
    Z.of_nat (size (filter (fun '(_, e) => entry_expired now e = true) m)) /\
  represents (cleanup_expired now s).2 (filter (fun '(_, e) => entry_expired now e = false) m).
Proof.
  intros Hrep. pose proof Hrep as [Ht Hc Hp]. unfold cleanup_expired. cbn [fst snd]. split.
  - f_equal. rewrite <- (size_dom (D := gset bytes)).
    rewrite <- (size_list_to_set (C := gset bytes) (expired_keys now (dy_tree s))) by apply expired_keys_NoDup.
    f_equal. apply set_eq. intros kb. rewrite elem_of_list_to_set, elem_of_dom.
    rewrite (elem_of_expired_keys now s m kb Hrep). unfold is_Some.
    setoid_rewrite map_lookup_filter_Some. done.
  - assert (Hlook : forall kb e, filter (fun '(_, e) => entry_expired now e = false) m !! kb = Some e <->
      m !! kb = Some e /\ entry_expired now e = false).
    { intros kb e. by rewrite map_lookup_filter_Some. }
    set (s1 := set_tree _ s). split.
    + intros kb. assert (Htree : dy_tree (on_cache (filter (fun '(_, e) => entry_expired now e = false)) s1) = dy_tree s1).
      { unfold on_cache. by destruct (dy_cache_enabled s1). }
      rewrite Htree. unfold s1. simpl. rewrite delete_all_lookup.
      specialize (Ht kb). destruct (m !! kb) as [e|] eqn:Hm.
      * destruct (entry_expired now e) eqn:Hex.
        -- assert (Hnone : filter (fun '(_, e) => entry_expired now e = false) m !! kb = None).
           { apply eq_None_not_Some. intros [e' He']. apply Hlook in He' as [He' ?]. congruence. }
           rewrite Hnone, decide_True; [done|]. apply (elem_of_expired_keys now s m kb Hrep). by exists e.
        -- rewrite (proj2 (Hlook kb e) (conj Hm Hex)), decide_False; [done|].
           intros Hin. apply (elem_of_expired_keys now s m kb Hrep) in Hin as (e' & He' & ?). congruence.
      * assert (Hnone : filter (fun '(_, e) => entry_expired now e = false) m !! kb = None).
        { apply eq_None_not_Some. intros [e' He']. apply Hlook in He' as [He' ?]. congruence. }
        rewrite Hnone. by case_decide.
    + unfold on_cache, s1. simpl. destruct (dy_cache_enabled s) eqn:He; simpl; [|congruence].
      intros _ kb e Hk. apply map_lookup_filter_Some in Hk as [Hk Hex]. apply Hlook. split; [by apply Hc|done].
    + intros kb e [He _]%Hlook. by eapply Hp.
Qed.

(** *** All operations *)

Lemma run_dyn_refines `{!DynamicCodecLaws} now o s m :
  represents s m -> op_json_free o ->
  (run_dyn now o s).1 = (spec_run now o m).1 /\ represents (run_dyn now o s).2 (spec_run now o m).2.
Proof.
  intros Hrep Ho. destruct o as [key|key v w ttl|key|key d w|key v w|key f v w|key f| |]; cbn [run_dyn spec_run].
  - destruct (dyn_get_refines now key s m Hrep) as (s1 & -> & Hrep1).
    by destruct (spec_get now (key_bytes key) m).
  - by destruct (dyn_set_refines now key v w ttl s m Hrep Ho) as (s1 & -> & Hrep1).
  - unfold dyn_delete, mbind, SE_bind. destruct (dyn_get_refines now key s m Hrep) as (s1 & -> & Hrep1).
    destruct (spec_get now (key_bytes key) m) as [e m1]. cbn [fst snd] in *.
    unfold modify, get_state. destruct e as [e|]; cbn [fmap option_fmap option_map];
      (split; [done|]); [apply represents_notify|]; by apply represents_delete.
  - unfold increment, mbind, SE_bind. destruct (dyn_get_value_refines now key s m Hrep) as (s1 & -> & Hrep1).
    destruct (spec_get now (key_bytes key) m) as [e m1]. cbn [fst snd] in *. unfold dyn_set.
    edestruct (dyn_set_refines now key (VI64 (i64_wrap (default 0 ((se_value <$> e) ≫= as_i64) + d))) w None s1 m1)
      as (s2 & Hset & Hrep2); [done|constructor|].
    unfold mbind in Hset |- *. rewrite Hset. done.
  - pose proof (spec_get_plain now (key_bytes key) m) as Hplain.
    unfold list_push, mbind, SE_bind. destruct (dyn_get_value_refines now key s m Hrep) as (s1 & -> & Hrep1).
    destruct (spec_get now (key_bytes key) m) as [e m1]. cbn [fst snd] in *. unfold dyn_set, throw.
    destruct e as [e|]; cbn [fmap option_fmap option_map].
    + specialize (Hplain e s Hrep eq_refl). destruct (se_value e) eqn:Hv; try done.
      destruct (dyn_set_refines now key (VList (v0 ++ [v])) w None s1 m1) as (s2 & Hset & Hrep2); [done| |].
      * constructor. inversion Hplain as [| | | | | | |? Hl| |]; subst.
        intros x [Hx|Hx%list_elem_of_singleton]%elem_of_app; [by apply Hl|by subst].
      * unfold mret, SE_ret. by rewrite Hset.
    + destruct (dyn_set_refines now key (VList [v]) w None s1 m1) as (s2 & Hset & Hrep2);
        [done|constructor; by intros x ->%list_elem_of_singleton|]. unfold mret, SE_ret. simpl app. by rewrite Hset.
  - pose proof (spec_get_plain now (key_bytes key) m) as Hplain.
    unfold map_set, mbind, SE_bind. destruct (dyn_get_value_refines now key s m Hrep) as (s1 & -> & Hrep1).
    destruct (spec_get now (key_bytes key) m) as [e m1]. cbn [fst snd] in *. unfold dyn_set, throw.
    destruct e as [e|]; cbn [fmap option_fmap option_map].
    + specialize (Hplain e s Hrep eq_refl). destruct (se_value e) as [| | | | | | | | |fs|] eqn:Hv; try done.
      destruct (dyn_set_refines now key (VMap (<[f := v]> fs)) w None s1 m1) as (s2 & Hset & Hrep2); [done| |].
      * constructor. intros k x Hx. inversion Hplain as [| | | | | | | |? Hfs|]; subst.
        destruct (decide (k = f)) as [->|Hne].
        -- rewrite lookup_insert_eq in Hx. by injection Hx as <-.
        -- rewrite lookup_insert_ne in Hx by done. by eapply Hfs.
      * unfold mret, SE_ret. by rewrite Hset.
    + destruct (dyn_set_refines now key (VMap {[f := v]}) w None s1 m1) as (s2 & Hset & Hrep2); [done| |].
      * constructor. intros k x Hx. apply lookup_singleton_Some in Hx as [_ <-]. done.
      * unfold mret, SE_ret. rewrite <- insert_empty in Hset. by rewrite Hset.
  - unfold map_get, mbind, SE_bind. destruct (dyn_get_value_refines now key s m Hrep) as (s1 & -> & Hrep1).
    by destruct (spec_get now (key_bytes key) m) as [e m1].
  - destruct (dyn_cleanup_refines now s m Hrep) as [Hn Hr]. destruct (cleanup_expired now s) as [n s'].
    cbn [fst snd] in *. split; [by rewrite Hn|done].
  - split; [done|]. destruct Hrep as [Ht Hc Hp]. by split.
Qed.

(** Running a list of timed operations, collecting the answers. *)
Fixpoint run_all {S} (run : Z -> dyn_op -> S -> dyn_answer * S) (ops : list (Z * dyn_op)) (s : S) :
    list dyn_answer * S :=
  match ops with
  | [] => ([], s)
  | (now, o) :: rest =>
      let '(a, s1) := run now o s in
      let '(l, s2) := run_all run rest s1 in (a :: l, s2)
  end.

(** C31. The dynamic storage refines a finite map of entries with times to live,
    for values that contain no JSON value: over any sequence of reads, writes,
    deletions, increments, list and map updates and clean-ups of such values, at
    any times, it gives the answers of the map - with any cache size, and also with
    the cache cleared in between or switched off.  A JSON value cannot be read back
    once it is stored ([json_value_unreadable]), so that the sequence must store
    none. *)
Theorem dynamic_storage_refines_table `{!DynamicCodecLaws} ops enabled max_size :
  Forall (fun x => op_json_free x.2) ops ->
  (run_all run_dyn ops (with_cache enabled max_size (DynamicStorage_new ∅))).1 =
  (run_all spec_run ops (∅ : Table)).1.
Proof.
  intros Hops.
  assert (Hrep : represents (with_cache enabled max_size (DynamicStorage_new ∅)) (∅ : Table)).
  { split; simpl; [intros kb; by rewrite !lookup_empty|intros _ kb e; by rewrite lookup_empty|
      intros kb e; by rewrite lookup_empty]. }
  revert Hrep. generalize (∅ : Table). generalize (with_cache enabled max_size (DynamicStorage_new ∅)).
  induction Hops as [|[now o] ops Ho _ IH]; intros s m Hrep; [done|].
  cbn [run_all]. destruct (run_dyn_refines now o s m Hrep Ho) as [Ha Hr].
  destruct (run_dyn now o s) as [a s1], (spec_run now o m) as [a' m1]. cbn [fst snd] in *. subst a'.
  specialize (IH s1 m1 Hr). destruct (run_all run_dyn ops s1), (run_all spec_run ops m1).
  cbn [fst] in *. by subst.
Qed.

(** ** Departures from the documentation *)

(** A time to live counts from the creation of an entry, not from the write
    that sets it: giving an existing entry that is older than the time to live a
    new value with that time to live makes it expired at once - the very next
    read finds nothing. *)
Theorem ttl_on_older_entry_expires `{!DynamicCodecLaws} now key v w ttl s m e :
  represents s m -> json_free v ->
  m !! key_bytes key = Some e -> entry_expired now e = false -> se_created_at e + ttl < now -> 0 <= ttl ->
  exists s1, dyn_set_with_ttl now key v w ttl s = (Ok tt, s1) /\ (dyn_get now key s1).1 = Ok None.
Proof.
  intros Hrep Hv Hm Hex Hold Httl. unfold dyn_set_with_ttl.
  destruct (dyn_set_refines now key v w (Some ttl) s m Hrep Hv) as (s1 & Hset & Hrep1).
  exists s1. split; [done|]. destruct (dyn_get_refines now key s1 _ Hrep1) as (s2 & -> & _). cbn [fst].
  f_equal. unfold spec_set, spec_get. rewrite Hm, Hex. rewrite lookup_insert_eq.
  replace (entry_expired now _) with true; [done|]. symmetry. cbn.
  apply andb_true_iff. split; [apply Z.leb_le|apply Z.ltb_lt]; lia.
Qed.

(** A JSON value can be written but not read back: once it has left the
    cache, reads, writes and deletions of its key all fail. *)
Theorem json_value_unreadable `{!DynamicCodecLaws} now key j w s now' v' w' ttl' :
  dy_tree s !! key_bytes key = None -> dy_cache s !! key_bytes key = None ->
  exists s1, dyn_set now key (VJson j) w s = (Ok tt, s1) /\
    let s2 := clear_cache s1 in
    is_ok (dyn_get now' key s2).1 = false /\ is_ok (dyn_set_with_options now' key v' w' ttl' s2).1 = false /\
    is_ok (dyn_delete now' key s2).1 = false.
Proof.
  intros Ht Hc. unfold dyn_set, dyn_set_with_options.
  assert (Hget : dyn_get now key s = (Ok None, s)).
  { unfold dyn_get, mbind, SE_bind, get_state, cache_hit. rewrite Hc, Ht. by destruct (dy_cache_enabled s). }
  unfold mbind at 1, SE_bind at 1. rewrite Hget. set (e := StorageEntry_new now (VJson j) w).
  pose proof (encode_entry_total e) as Hok. destruct (encode_storage_entry e) as [b|x] eqn:Hb; [|done].
  pose proof (decode_json_entry e j b eq_refl Hb) as Hdec.
  unfold mbind at 1, SE_bind at 1, lift at 1. cbn [result_map_err].
  unfold mbind at 1 2 3, SE_bind at 1 2 3, modify, get_state at 1.
  eexists. split; [reflexivity|]. cbv zeta. set (s2 := clear_cache _).
  assert (Hbad : is_ok (dyn_get now' key s2).1 = false).
  { assert (Ht2 : dy_tree s2 !! key_bytes key = Some b).
    { unfold s2, clear_cache, notify, on_cache. simpl. destruct (dy_cache_enabled s); simpl; apply lookup_insert_eq. }
    assert (Hh : cache_hit now' (key_bytes key) s2 = None).
    { unfold cache_hit, s2. simpl. rewrite lookup_empty. by destruct (dy_cache_enabled _). }
    unfold dyn_get, mbind, SE_bind, get_state, lift. rewrite Hh, Ht2.
    by destruct (decode_storage_entry b). }
  split; [done|].
  split; [unfold dyn_set_with_options, mbind, SE_bind|unfold dyn_delete, mbind, SE_bind];
    destruct (dyn_get now' key s2) as [[]]; done.
Qed.
End refinement.
