(* ===== verification/DynamicStoreExamples.v ===== *)
(** * A concrete dynamic storage

    A codec for storage entries that reads back everything but JSON, as a number
    of a tree of integers, and the theorems of [DynamicStoreProps] evaluated
    with it. *)

From Stdlib Require Import Ascii SpecFloat.
From stdpp Require Import countable.
From S2P Require Import Prelude Float64 Crypto RustStrings RustBytes CoreTypes Submission DynamicStore DynamicStoreProps.

Module DynamicToy.

(** ** Values as trees *)

Definition leaves (l : list Z) : list (gen_tree Z) := GenLeaf <$> l.
Definition unleaves (l : list (gen_tree Z)) : option (list Z) :=
  mapM (fun t => match t with GenLeaf n => Some n | GenNode _ _ => None end) l.

Lemma unleaves_leaves l : unleaves (leaves l) = Some l.
Proof. by apply mapM_fmap_Some. Qed.

Definition sgn (s : bool) : Z := if s then 1 else 0.
Definition float_code (x : f64) : list Z :=
  match x with
  | S754_zero s => [0; sgn s]
  | S754_infinity s => [1; sgn s]
  | S754_nan => [2]
  | S754_finite s m e => [3; sgn s; Zpos m; e]
  end.
Definition float_decode (l : list Z) : option f64 :=
  match l with
  | [0; s] => Some (S754_zero (s =? 1))
  | [1; s] => Some (S754_infinity (s =? 1))
  | [2] => Some S754_nan
  | [3; s; m; e] => Some (S754_finite (s =? 1) (Z.to_pos m) e)
  | _ => None
  end.

Lemma float_decode_code x : float_decode (float_code x) = Some x.
Proof. destruct x as [[]|[]| |[] m e]; done. Qed.

Fixpoint enc (v : StorageValue) : gen_tree Z :=
  match v with
  | VBool b => GenNode 0 (leaves [sgn b])
  | VU64 n => GenNode 1 (leaves [n])
  | VI64 n => GenNode 2 (leaves [n])
  | VU128 n => GenNode 3 (leaves [n])
  | VF64 x => GenNode 4 (leaves (float_code x))
  | VString s => GenNode 5 (leaves (str_bytes s))
  | VBytes b => GenNode 6 (leaves b)
  | VJson _ => GenNode 7 []
  | VList l => GenNode 8 (enc <$> l)
  | VMap m => GenNode 9 (map_fold (fun k v acc => GenNode 0 [GenNode 0 (leaves (str_bytes k)); enc v] :: acc) [] m)
  | VNull => GenNode 10 []
  end.

Fixpoint dec (t : gen_tree Z) : option StorageValue :=
  match t with
  | GenNode 0 l => match unleaves l with Some [b] => Some (VBool (b =? 1)) | _ => None end
  | GenNode 1 l => match unleaves l with Some [n] => Some (VU64 n) | _ => None end
  | GenNode 2 l => match unleaves l with Some [n] => Some (VI64 n) | _ => None end
  | GenNode 3 l => match unleaves l with Some [n] => Some (VU128 n) | _ => None end
  | GenNode 4 l => x ← unleaves l; VF64 <$> float_decode x
  | GenNode 5 l => b ← unleaves l; Some (VString (bytes_str b))
  | GenNode 6 l => VBytes <$> unleaves l
  | GenNode 8 l => VList <$> mapM dec l
  | GenNode 9 l =>
      VMap ∘ list_to_map <$> mapM (fun e =>
        match e with
        | GenNode _ [GenNode _ k; t] => k' ← unleaves k; v ← dec t; Some (bytes_str k', v)
        | _ => None
        end) l
  | GenNode 10 _ => Some VNull
  | _ => None
  end.

Lemma dec_enc v : json_free v -> dec (enc v) = Some v.
Proof.
  induction 1 as [b|n|n|n|x|s|b|l _ IH|m _ IH|]; cbn [enc dec]; rewrite ?unleaves_leaves; try done.
  - by destruct b.
  - simpl. by rewrite float_decode_code.
  - simpl. by rewrite bytes_str_bytes.
  - replace (mapM dec (enc <$> l)) with (Some l); [done|]. symmetry. apply mapM_Some. 
    apply Forall2_fmap_l. apply Forall_Forall2_diag. by apply list.Forall_forall.
  - rewrite map_fold_foldr.
    replace (mapM _ _) with (Some (map_to_list m)); [simpl; by rewrite list_to_map_to_list|].
    assert (Hall : forall k v, (k, v) ∈ map_to_list m -> dec (enc v) = Some v).
    { intros k v Hin. apply (IH k). by apply elem_of_map_to_list. }
    induction (map_to_list m) as [|[k v] l IHl]; [done|]. simpl.
    rewrite unleaves_leaves. simpl. rewrite (Hall k v) by left. simpl. rewrite <- IHl; [simpl; by rewrite bytes_str_bytes|].
    intros k' v' Hin. apply (Hall k'). by right.
Qed.

(** ** Entries *)

Definition option_tree {A} (f : A -> list Z) (o : option A) : gen_tree Z :=
  match o with None => GenNode 0 [] | Some a => GenNode 1 (leaves (f a)) end.
Definition option_untree {A} (f : list Z -> option A) (t : gen_tree Z) : option (option A) :=
  match t with
  | GenNode 0 _ => Some None
  | GenNode 1 l => x ← unleaves l; Some <$> f x
  | _ => None
  end.

Lemma option_untree_tree {A} (f : A -> list Z) g o :
  (forall a, g (f a) = Some a) -> option_untree g (option_tree f o) = Some o.
Proof. intros Hg. destruct o as [a|]; [|done]. cbn. rewrite unleaves_leaves. simpl. by rewrite Hg. Qed.

Definition entry_tree (e : StorageEntry) : gen_tree Z :=
  GenNode 0 [enc (se_value e); GenNode 0 (leaves [se_created_at e; se_modified_at e; se_version e]);
             option_tree (fun t => [t]) (se_ttl e); option_tree hk_bytes (se_writer e)].
Definition entry_untree (t : gen_tree Z) : option StorageEntry :=
  match t with
  | GenNode _ [v; GenNode _ n; ttl; w] =>
      v ← dec v;
      n ← unleaves n;
      ttl ← option_untree (fun l => match l with [t] => Some t | _ => None end) ttl;
      w ← option_untree (fun b => Some (mk_Hotkey b)) w;
      match n with [c; m; ver] => Some (mk_StorageEntry v c m ttl ver w) | _ => None end
  | _ => None
  end.

Lemma dyn_untree_tree e : json_free (se_value e) -> entry_untree (entry_tree e) = Some e.
Proof.
  intros Hv. destruct e as [v c m ttl ver w]. cbn [se_value] in Hv.
  unfold entry_untree, entry_tree. cbn [se_value se_created_at se_modified_at se_version se_ttl se_writer].
  rewrite dec_enc, unleaves_leaves by done. unfold mbind, option_bind.
  rewrite (option_untree_tree (fun t => [t])) by done.
  by rewrite (option_untree_tree hk_bytes) by (by intros []).
Qed.

#[export] Instance toy_dynamic_codec : DynamicCodec := {|
  uuid_to_string := fun u => "challenge-" +:+ Z_to_string u;
  encode_storage_entry := fun e => Ok [Zpos (encode (entry_tree e))];
  decode_storage_entry := fun b =>
    match b with
    | [Zpos p] => ok_or (decode p ≫= entry_untree) "deserialize_any is not supported"%string
    | _ => Err "unexpected end"%string
    end;
  key_debug := fun k => sk_key k
|}.

#[export] Instance toy_dynamic_codec_laws : DynamicCodecLaws.
Proof.
  split; cbn [encode_storage_entry decode_storage_entry toy_dynamic_codec].
  - done.
  - intros e b He [= <-]. rewrite decode_encode. unfold mbind, option_bind. by rewrite dyn_untree_tree.
  - intros e j b He [= <-]. rewrite decode_encode. unfold mbind, option_bind, entry_tree. by rewrite He.
Qed.

(** ** Witnesses *)

Definition counter : StorageKey := system "counter".
Definition hotkey (n : Z) : Hotkey := mk_Hotkey (replicate 32 n).

Lemma key_bytes_injective_witness :
  key_bytes (validator_key 7 (hotkey 0) "k") <> key_bytes (challenge_key 7 "k").
Proof.
  intros Heq. assert (Hns : nul_free (uuid_to_string 7)) by (unfold nul_free; by_compute).
  assert (Hk : nul_free "k") by (unfold nul_free; by_compute).
  assert (Hv : forall v, Some (hotkey 0) = Some v -> length (hk_bytes v) = 32%nat) by (by intros v [= <-]).
  assert (Hn : forall v, (None : option Hotkey) = Some v -> length (hk_bytes v) = 32%nat) by done.
  pose proof (key_bytes_injective (validator_key 7 (hotkey 0) "k") (challenge_key 7 "k")
    Hns Hns Hk Hk Hv Hn Heq) as Hbad.
  discriminate Hbad.
Defined.

Definition session : list (Z * dyn_op) :=
  [(1, DIncrement counter 5 None); (2, DIncrement counter 7 None); (3, DClearCache);
   (4, DSet (system "t") (VString "x") None (Some 10)); (20, DGet (system "t")); (21, DCleanup);
   (22, DListPush counter VNull None); (23, DDelete counter); (24, DMapSet counter "f" (VU64 3) None);
   (25, DMapGet counter "f")].

Lemma dynamic_storage_refines_table_witness :
  (run_all run_dyn session (with_cache true 1 (DynamicStorage_new ∅))).1 =
  (run_all spec_run session (∅ : gmap bytes StorageEntry)).1.
Proof.
  assert (Hops : Forall (fun x => op_json_free x.2) session) by (repeat constructor).
  exact (dynamic_storage_refines_table session true 1 Hops).
Defined.

(** An entry written at time 1, given a time to live of 10 at time 100. *)
Definition old_entry : StorageEntry := StorageEntry_new 1 (VU64 1) None.
Definition stored : DynamicStorage := (dyn_set 1 counter (VU64 1) None (DynamicStorage_new ∅)).2.

Lemma ttl_on_older_entry_expires_witness :
  exists s1, dyn_set_with_ttl 100 counter (VU64 2) None 10 stored = (Ok tt, s1) /\
    (dyn_get 100 counter s1).1 = Ok None.
Proof.
  assert (Hrep : represents stored {[key_bytes counter := old_entry]}).
  { assert (He : represents (DynamicStorage_new ∅) (∅ : gmap bytes StorageEntry)).
    { split; simpl; [intros kb; by rewrite !lookup_empty|intros _ kb e; by rewrite lookup_empty|
        intros kb e; by rewrite lookup_empty]. }
    destruct (dyn_set_refines 1 counter (VU64 1) None None _ _ He (jf_u64 1)) as (s1 & Hset & Hrep).
    unfold stored, dyn_set. rewrite Hset. exact Hrep. }
  assert (Hm : ({[key_bytes counter := old_entry]} : gmap bytes StorageEntry) !! key_bytes counter = Some old_entry)
    by apply lookup_singleton_eq.
  assert (Hold : se_created_at old_entry + 10 < 100) by (vm_compute; reflexivity).
  assert (Hnn : 0 <= 10) by lia.
  exact (ttl_on_older_entry_expires 100 counter (VU64 2) None 10 stored _ old_entry Hrep (jf_u64 2) Hm eq_refl
    Hold Hnn).
Defined.

Lemma json_value_unreadable_witness :
  exists s1, dyn_set 1 counter (VJson JNull) None (DynamicStorage_new ∅) = (Ok tt, s1) /\
    let s2 := clear_cache s1 in
    is_ok (dyn_get 2 counter s2).1 = false /\
    is_ok (dyn_set_with_options 2 counter VNull None None s2).1 = false /\
    is_ok (dyn_delete 2 counter s2).1 = false.
Proof.
  exact (json_value_unreadable 1 counter JNull None (DynamicStorage_new ∅) 2 VNull None None eq_refl eq_refl).
Defined.

(** What a validator stores under its own scope of a challenge shows up in the
    challenge's own scan: the bytes of the hotkey are read as text, and a hotkey
    that is not valid UTF-8 is taken for no validator at all. *)
Theorem validator_entries_leak_into_scan :
  let s := (vs_set (hotkey 255) (Some 7) 1 "secret" (VU64 42) (DynamicStorage_new ∅)).2 in
  cs_scan 7 2 s = Ok [("secret"%string, StorageEntry_new 1 (VU64 42) (Some (hotkey 255)))] /\
  (cs_get 7 2 "secret" s).1 = Ok None.
Proof. by vm_compute. Qed.

(** [exists] depends on what the cache holds. *)
Example exists_depends_on_cache :
  let s := (dyn_set_with_ttl 1 counter VNull None 10 (DynamicStorage_new ∅)).2 in
  dyn_exists 100 counter s = false /\ dyn_exists 100 counter (clear_cache s) = true.
Proof. by vm_compute. Qed.
End DynamicToy.
