(* ===== verification/Migrations.v ===== *)
(** * Migrations of the storage schema

    Models [crates/storage/src/migration.rs]: the context a migration reads and
    writes through, the runner that applies pending migrations in order and
    rolls them back, and the two built-in migrations.  The three sled trees
    involved are one record; the binary forms are the class [MigrationCodec];
    the clock is an argument. *)

From S2P Require Import Prelude Float64 Crypto RustStrings RustBytes CoreTypes DynamicStore.

(** ** Changes and records *)

Record MigrationChange : Type := mk_MigrationChange {
  mc_key : StorageKey;
  mc_old_value : option StorageValue;
  mc_new_value : option StorageValue
}.

Record MigrationRecord : Type := mk_MigrationRecord {
  mr_version : Z;
  mr_name : string;
  mr_applied_at : Z;
  mr_block_height : Z;
  mr_checksum : bytes
}.

Class MigrationCodec : Type := {
  encode_value : StorageValue -> result string bytes;
  decode_value : bytes -> result string StorageValue;
  encode_version : Z -> result string bytes;
  decode_version : bytes -> result string Z;
  encode_record : MigrationRecord -> result string bytes;
  decode_record : bytes -> result string MigrationRecord
}.

(** ** The trees and the context *)

Record MigrationDb : Type := mk_MigrationDb {
  md_migrations : Tree bytes;
  md_storage : Tree bytes;
  md_state : Tree bytes
}.

Record MigrationContext : Type := mk_MigrationContext {
  cx_storage : Tree bytes;
  cx_state : Tree bytes;
  cx_block_height : Z;
  cx_changes : list MigrationChange
}.

Definition MigM := SE MigrationContext MiniChainError.

Definition set_cx_storage (f : Tree bytes -> Tree bytes) : MigM unit :=
  modify (fun c => mk_MigrationContext (f (cx_storage c)) (cx_state c) (cx_block_height c) (cx_changes c)).
Definition push_change (x : MigrationChange) : MigM unit :=
  modify (fun c => mk_MigrationContext (cx_storage c) (cx_state c) (cx_block_height c) (cx_changes c ++ [x])).

Section context.
Context `{MigrationCodec}.

Definition MigrationContext_new (storage_tree state_tree : Tree bytes) (block_height : Z) :
    MigrationContext := mk_MigrationContext storage_tree state_tree block_height [].

Definition ctx_get (key : StorageKey) (c : MigrationContext) : result MiniChainError (option StorageValue) :=
  match cx_storage c !! key_bytes key with
  | Some data => v ← result_map_err Serialization (decode_value data); Ok (Some v)
  | None => Ok None
  end.

Definition ctx_set (key : StorageKey) (value : StorageValue) : MigM unit :=
  c ← get_state;
  old_value ← lift (ctx_get key c);
  data ← lift (result_map_err Serialization (encode_value value));
  _ ← set_cx_storage (<[key_bytes key := data]>);
  push_change (mk_MigrationChange key old_value (Some value)).

Definition ctx_delete (key : StorageKey) : MigM (option StorageValue) :=
  c ← get_state;
  old_value ← lift (ctx_get key c);
  _ ← set_cx_storage (delete (key_bytes key));
  match old_value with
  | Some _ => _ ← push_change (mk_MigrationChange key old_value None); mret old_value
  | None => mret old_value
  end.

(** The validator of a key is not parsed. *)
Fixpoint ctx_scan_items (items : list (bytes * bytes)) :
    result MiniChainError (list (StorageKey * StorageValue)) :=
  match items with
  | [] => Ok []
  | (kb, data) :: rest =>
      let parts := key_parts kb in
      if (2 <=? length parts)%nat then
        v ← result_map_err Serialization (decode_value data);
        r ← ctx_scan_items rest;
        Ok ((mk_StorageKey (default EmptyString (parts !! 0%nat)) None (default EmptyString (last parts)), v) :: r)
      else ctx_scan_items rest
  end.

Definition ctx_scan_prefix (namespace : string) (c : MigrationContext) :
    result MiniChainError (list (StorageKey * StorageValue)) :=
  ctx_scan_items (tree_scan_prefix (namespace_prefix namespace) (cx_storage c)).

Definition get_state_raw (key : string) (c : MigrationContext) : option bytes :=
  cx_state c !! str_bytes key.
Definition set_state_raw (key : string) (value : bytes) : MigM unit :=
  modify (fun c => mk_MigrationContext (cx_storage c) (<[str_bytes key := value]> (cx_state c))
                     (cx_block_height c) (cx_changes c)).

(** ** Migrations *)

Record Migration : Type := mk_Migration {
  mg_version : Z;
  mg_name : string;
  mg_description : string;
  mg_up : MigM unit;
  mg_down : MigM unit;
  mg_reversible : bool
}.

(** The default [down]. *)
Definition no_rollback : MigM unit := throw (Storage "Rollback not supported").

Definition InitialMigration (unix_secs : Z) : Migration :=
  mk_Migration 1 "initial_setup" "Initial storage schema setup"
    (_ ← ctx_set (system "schema_version") (VU64 1);
     _ ← ctx_set (system "created_at") (VU64 unix_secs);
     _ ← ctx_set (system "total_challenges") (VU64 0);
     _ ← ctx_set (system "total_validators") (VU64 0);
     ctx_set (system "total_jobs") (VU64 0))
    no_rollback false.

Definition AddChallengeMetricsMigration : Migration :=
  mk_Migration 2 "add_challenge_metrics" "Add per-challenge metrics storage"
    (_ ← ctx_set (system "metrics_enabled") (VBool true);
     ctx_set (system "metrics_retention_secs") (VU64 (7 * 24 * 60 * 60)))
    (_ ← ctx_delete (system "metrics_enabled");
     _ ← ctx_delete (system "metrics_retention_secs");
     mret tt)
    true.
End context.

(** ** The runner *)

Section runner.
Context `{External} `{MigrationCodec}.

(** The registered migrations, a [BTreeMap] by version. *)
Abbreviation Migrations := (gmap Z Migration).

Definition register (m : Migration) (ms : Migrations) : Migrations :=
  match ms !! mg_version m with Some _ => ms | None => <[mg_version m := m]> ms end.

Definition RunM := SE MigrationDb MiniChainError.

Definition current_version_key : bytes := str_bytes "current_version".
Definition applied_key (version : Z) : bytes := str_bytes ("applied:" +:+ Z_to_string version).

Definition set_migrations_tree (f : Tree bytes -> Tree bytes) : RunM unit :=
  modify (fun d => mk_MigrationDb (f (md_migrations d)) (md_storage d) (md_state d)).

Definition current_version (d : MigrationDb) : result MiniChainError Z :=
  match md_migrations d !! current_version_key with
  | Some data => result_map_err Serialization (decode_version data)
  | None => Ok 0
  end.

Definition set_current_version (version : Z) : RunM unit :=
  data ← lift (result_map_err Serialization (encode_version version));
  set_migrations_tree (<[current_version_key := data]>).

(** The records in the order of the tree, sorted by version. *)
Definition record_le (x y : MigrationRecord) : Prop := mr_version x <= mr_version y.
#[global] Instance record_le_dec : RelDecision record_le := fun x y => Z_le_dec (mr_version x) (mr_version y).

Definition applied_migrations (d : MigrationDb) : result MiniChainError (list MigrationRecord) :=
  records ← mapM (fun '(_, data) => result_map_err Serialization (decode_record data))
              (tree_scan_prefix (str_bytes "applied:") (md_migrations d));
  Ok (stable_sort record_le records).

Definition is_applied (version : Z) (d : MigrationDb) : bool :=
  bool_decide (is_Some (md_migrations d !! applied_key version)).

Definition record_applied (r : MigrationRecord) : RunM unit :=
  data ← lift (result_map_err Serialization (encode_record r));
  set_migrations_tree (<[applied_key (mr_version r) := data]>).

Definition pending_migrations (ms : Migrations) (d : MigrationDb) : result MiniChainError (list Z) :=
  current ← current_version d;
  Ok (filter (fun v => current < v) (number_iter ms).*1).

(** What an update contributes to the checksum; what cannot be serialized
    contributes nothing. *)
Definition value_bytes (v : option StorageValue) : bytes :=
  match v with
  | Some v => match encode_value v with Ok b => b | Err _ => [] end
  | None => []
  end.
Definition calculate_checksum (changes : list MigrationChange) : bytes :=
  sha256 (mjoin ((fun c => key_bytes (mc_key c) ++ value_bytes (mc_old_value c) ++ value_bytes (mc_new_value c))
                   <$> changes)).

(** A migration's step in a fresh context; what it wrote stays, also when it
    fails. *)
Definition in_context {A} (block_height : Z) (m : MigM A) : RunM (A * list MigrationChange) := fun d =>
  let '(r, c) := m (MigrationContext_new (md_storage d) (md_state d) block_height) in
  (match r with Ok a => Ok (a, cx_changes c) | Err e => Err e end,
   mk_MigrationDb (md_migrations d) (cx_storage c) (cx_state c)).

Fixpoint run_versions (now : Z) (block_height : Z) (ms : Migrations) (pending applied : list Z) :
    RunM (list Z) :=
  match pending with
  | [] => mret applied
  | version :: rest =>
      match ms !! version with
      | Some migration =>
          '(_, changes) ← in_context block_height (mg_up migration);
          _ ← record_applied (mk_MigrationRecord version (mg_name migration) now block_height
                (calculate_checksum changes));
          _ ← set_current_version version;
          run_versions now block_height ms rest (applied ++ [version])
      | None => run_versions now block_height ms rest applied
      end
  end.

Definition run_pending (now : Z) (block_height : Z) (ms : Migrations) : RunM (list Z) :=
  d ← get_state;
  pending ← lift (pending_migrations ms d);
  match pending with
  | [] => mret []
  | _ => run_versions now block_height ms pending []
  end.

(** [(target_version + 1..=current).rev()]. *)
Definition versions_down (target current : Z) : list Z := reverse (seqZ (target + 1) (current - target)).

Fixpoint rollback_versions (block_height : Z) (ms : Migrations) (versions rolled_back : list Z) :
    RunM (list Z) :=
  match versions with
  | [] => mret rolled_back
  | version :: rest =>
      match ms !! version with
      | Some migration =>
          _ ← require (mg_reversible migration)
                (Storage ("Migration " +:+ Z_to_string version +:+ " is not reversible"));
          _ ← in_context block_height (mg_down migration);
          _ ← set_migrations_tree (delete (applied_key version));
          rollback_versions block_height ms rest (rolled_back ++ [version])
      | None => rollback_versions block_height ms rest rolled_back
      end
  end.

Definition rollback_to (target_version : Z) (block_height : Z) (ms : Migrations) : RunM (list Z) :=
  d ← get_state;
  current ← lift (current_version d);
  _ ← require (target_version <? current)
        (Storage ("Cannot rollback to version " +:+ Z_to_string target_version +:+ " (current is " +:+
                  Z_to_string current +:+ ")"));
  rolled_back ← rollback_versions block_height ms (versions_down target_version current) [];
  _ ← set_current_version target_version;
  mret rolled_back.
End runner.
