(* ===== verification/MigrationProps.v ===== *)
(** * What running migrations guarantees

    Pending migrations are applied once, in increasing order; a rollback that
    meets an irreversible migration leaves the later ones undone but not
    pending; and what a migration writes cannot be read through the dynamic
    storage that shares its tree. *)

From stdpp Require Import pretty.
From S2P Require Import Prelude Float64 Crypto RustStrings RustBytes CoreTypes Submission DynamicStore DynamicStoreProps DynamicStoreExamples StorageExamples Migrations.

(** Documented behaviour of bincode on the types of the runner. *)
Class MigrationCodecLaws `{MigrationCodec} : Prop := {
  version_round_trip : forall v, is_u64 v -> exists b, encode_version v = Ok b /\ decode_version b = Ok v;
  encode_record_total : forall r, is_ok (encode_record r) = true;
  encode_value_total : forall v, is_ok (encode_value v) = true;
  decode_plain_value : forall v b, json_free v -> encode_value v = Ok b -> decode_value b = Ok v
}.

Section runner_props.
Context `{Ext : External} `{Codec : MigrationCodec} `{Laws : !MigrationCodecLaws}.
Implicit Types (ms : gmap Z Migration) (d : MigrationDb).

(** ** Keys of the migrations tree *)

Lemma applied_key_not_current v : applied_key v <> current_version_key.
Proof. unfold applied_key, current_version_key. rewrite str_bytes_app. discriminate. Qed.

Lemma applied_key_inj v w : applied_key v = applied_key w -> v = w.
Proof.
  unfold applied_key. rewrite !str_bytes_app. intros Heq%app_inv_head%str_bytes_inj.
  by apply (inj pretty) in Heq.
Qed.

(** ** Applying *)

(** Every registered migration succeeds on trees of a certain kind and leaves
    trees of that kind. *)
Definition ups_succeed (I : Tree bytes -> Tree bytes -> Prop) ms : Prop :=
  forall v m, ms !! v = Some m -> is_u64 v /\
    forall c, I (cx_storage c) (cx_state c) ->
      exists c', mg_up m c = (Ok tt, c') /\ I (cx_storage c') (cx_state c').

(** The trees that result from running the migrations of a list of versions in
    order, each on what the previous one left. *)
Inductive migrates (bh : Z) ms : list Z -> Tree bytes * Tree bytes -> Tree bytes * Tree bytes -> Prop :=
| migrates_nil t : migrates bh ms [] t t
| migrates_cons v m l storage state c t :
    ms !! v = Some m -> mg_up m (MigrationContext_new storage state bh) = (Ok tt, c) ->
    migrates bh ms l (cx_storage c, cx_state c) t -> migrates bh ms (v :: l) (storage, state) t.

(** One applied migration. *)
Lemma apply_one I now bh ms v m d :
  ups_succeed I ms -> I (md_storage d) (md_state d) -> ms !! v = Some m ->
  exists d', (forall rest applied, run_versions now bh ms (v :: rest) applied d =
                run_versions now bh ms rest (applied ++ [v]) d') /\
    (exists c, mg_up m (MigrationContext_new (md_storage d) (md_state d) bh) = (Ok tt, c) /\
       md_storage d' = cx_storage c /\ md_state d' = cx_state c) /\
    I (md_storage d') (md_state d') /\ current_version d' = Ok v /\ is_applied v d' = true /\
    (forall w, is_applied w d = true -> is_applied w d' = true).
Proof.
  intros Hups HI Hm. destruct (Hups v m Hm) as [Hv Hup].
  destruct (version_round_trip v Hv) as (vb & Henc & Hdec).
  destruct (Hup (MigrationContext_new (md_storage d) (md_state d) bh) HI) as (c & Hrun & HI').
  pose proof (encode_record_total (mk_MigrationRecord v (mg_name m) now bh (calculate_checksum (cx_changes c)))) as Hrec.
  destruct (encode_record _) as [rb|x] eqn:Hrb; [|done].
  exists (mk_MigrationDb (<[current_version_key := vb]> (<[applied_key v := rb]> (md_migrations d)))
            (cx_storage c) (cx_state c)).
  split; [|split; [by exists c|]]; [|split_and!; [done|..]].
  - intros rest applied. cbn [run_versions]. rewrite Hm. unfold mbind at 1, SE_bind at 1, in_context. rewrite Hrun.
    unfold record_applied, set_current_version, mbind, SE_bind, lift, set_migrations_tree, modify.
    rewrite Hrb, Henc. done.
  - unfold current_version. simpl. rewrite lookup_insert_eq, Hdec. done.
  - unfold is_applied. simpl. rewrite lookup_insert_ne by (symmetry; apply applied_key_not_current).
    rewrite lookup_insert_eq. by apply bool_decide_true.
  - intros w Hw. unfold is_applied in *. simpl.
    rewrite lookup_insert_ne by (symmetry; apply applied_key_not_current).
    destruct (decide (v = w)) as [->|Hne]; [rewrite lookup_insert_eq; by apply bool_decide_true|].
    by rewrite lookup_insert_ne by (intros ?%applied_key_inj; done).
Qed.

Lemma run_versions_all I now bh ms l applied d :
  ups_succeed I ms -> I (md_storage d) (md_state d) -> (forall v, v ∈ l -> is_Some (ms !! v)) ->
  exists d', run_versions now bh ms l applied d = (Ok (applied ++ l), d') /\
    current_version d' = match last l with Some v => Ok v | None => current_version d end /\
    (forall v, v ∈ l -> is_applied v d' = true) /\
    (forall w, is_applied w d = true -> is_applied w d' = true) /\
    migrates bh ms l (md_storage d, md_state d) (md_storage d', md_state d').
Proof.
  intros Hups. revert applied d. induction l as [|v l IH]; intros applied d HI Hl.
  { exists d. rewrite app_nil_r. split_and!; [done|done| |done|constructor]. intros v Hv. by inversion Hv. }
  destruct (Hl v) as [m Hm]; [left|].
  destruct (apply_one I now bh ms v m d Hups HI Hm) as (d1 & Hrun & (c & Hup & Hst & Hsta) & HI1 & Hcur & Happ & Hkeep).
  destruct (IH (applied ++ [v]) d1) as (d2 & Hrun2 & Hcur2 & Happ2 & Hkeep2 & Hmig); [done|intros w Hw; apply Hl; by right|].
  exists d2. split_and!.
  - rewrite Hrun, Hrun2. by rewrite <- app_assoc.
  - rewrite last_cons. rewrite Hcur2. destruct (last l); [done|by rewrite Hcur].
  - intros w [->|Hw]%elem_of_cons; [by apply Hkeep2|by apply Happ2].
  - intros w Hw. by apply Hkeep2, Hkeep.
  - eapply migrates_cons; [done..|]. by rewrite <- Hst, <- Hsta.
Qed.

(** In an increasing list nothing exceeds the last element. *)
Lemma sorted_last_max (l : list Z) x : StronglySorted Z.lt l -> last l = Some x -> forall y, y ∈ l -> y <= x.
Proof.
  induction 1 as [|a l Hs IH Hall]; [done|]. rewrite last_cons. intros Hx y [->|Hy]%elem_of_cons.
  - destruct (last l) as [z|] eqn:Hz; [|by injection Hx as <-; lia]. injection Hx as <-.
    apply last_Some_elem_of in Hz. eapply list.Forall_forall in Hall; [|exact Hz]. lia.
  - destruct (last l) as [z|] eqn:Hz; [injection Hx as <-; by apply IH|].
    apply last_None in Hz. subst. by inversion Hy.
Qed.

(** C34. When no migration fails, running the pending migrations runs exactly the
    registered ones above the current version, in increasing order: the storage
    and the state become what running their [up] steps one after the other makes
    of them, each is recorded as applied, as those recorded before stay, and
    running again does nothing. *)
Theorem migrations_run_once I now bh ms d current now' bh' :
  ups_succeed I ms -> I (md_storage d) (md_state d) -> current_version d = Ok current ->
  let pending := filter (fun v => current < v) (number_iter ms).*1 in
  exists d', run_pending now bh ms d = (Ok pending, d') /\
    StronglySorted Z.lt pending /\
    migrates bh ms pending (md_storage d, md_state d) (md_storage d', md_state d') /\
    (forall v, is_Some (ms !! v) -> current < v -> v ∈ pending /\ is_applied v d' = true) /\
    (forall v, is_applied v d = true -> is_applied v d' = true) /\
    run_pending now' bh' ms d' = (Ok [], d').
Proof.
  intros Hups HI Hcur pending.
  assert (Hin : forall v, v ∈ pending <-> is_Some (ms !! v) /\ current < v).
  { intros v. unfold pending. rewrite list_elem_of_filter, list_elem_of_fmap. split.
    - intros [Hv ([k m] & -> & Hk)]. apply elem_of_number_iter in Hk. split; [by eexists|done].
    - intros [[m Hm] Hv]. split; [done|]. exists (v, m). split; [done|]. by apply elem_of_number_iter. }
  assert (Hs : StronglySorted Z.lt pending) by (apply filter_sorted, number_iter_sorted).
  destruct (run_versions_all I now bh ms pending [] d Hups HI) as (d' & Hrun & Hcur' & Happ & Hkeep & Hmig).
  { intros v Hv. by apply Hin in Hv as [? _]. }
  assert (Hfirst : run_pending now bh ms d = (Ok pending, d')).
  { unfold run_pending, mbind, SE_bind, get_state, lift, pending_migrations. unfold mbind, result_bind.
    rewrite Hcur. fold pending. destruct pending; [|exact Hrun].
    cbn in Hrun. unfold mret, SE_ret in *. exact Hrun. }
  exists d'. split; [done|]. split; [done|]. split; [done|]. split; [|split; [done|]].
  - intros v Hv Hlt. assert (Hp : v ∈ pending) by (by apply Hin). split; [done|by apply Happ].
  - assert (Hnone : pending_migrations ms d' = Ok []).
    { unfold pending_migrations, mbind, result_bind. rewrite Hcur'.
      destruct (last pending) as [x|] eqn:Hlast.
      - f_equal. apply filter_none. apply list.Forall_forall. intros v Hv Hlt.
        apply list_elem_of_fmap in Hv as ([k m] & -> & Hk). apply elem_of_number_iter in Hk. simpl in Hlt.
        assert (Hx : x ∈ pending) by (by apply last_Some_elem_of). apply Hin in Hx as [_ Hx].
        assert (Hp : k ∈ pending) by (apply Hin; split; [by eexists|lia]).
        pose proof (sorted_last_max pending x Hs Hlast k Hp). lia.
      - apply last_None in Hlast. rewrite Hcur. f_equal. exact Hlast. }
    unfold run_pending, mbind, SE_bind, get_state, lift. by rewrite Hnone.
Qed.

(** ** Rolling back *)

Lemma rollback_versions_current bh ms l acc d :
  md_migrations (rollback_versions bh ms l acc d).2 !! current_version_key =
  md_migrations d !! current_version_key.
Proof.
  revert acc d. induction l as [|v l IH]; intros acc d; [done|]. cbn [rollback_versions].
  destruct (ms !! v) as [m|]; [|apply IH].
  unfold mbind, SE_bind, require. destruct (mg_reversible m); [|done]. unfold in_context.
  destruct (mg_down m _) as [[[]|x] c]; [|done]. unfold set_migrations_tree, modify. cbn [fst snd].
  rewrite IH. simpl. apply lookup_delete_ne. apply applied_key_not_current.
Qed.

(** A rollback that fails - at an irreversible migration, say - keeps the
    current version, so the migrations it has already undone are not pending
    and no later run applies them again. *)
Theorem failed_rollback_keeps_version target bh ms d e d' :
  rollback_to target bh ms d = (Err e, d') ->
  current_version d' = current_version d /\ pending_migrations ms d' = pending_migrations ms d.
Proof.
  intros Hrun. assert (Hc : current_version d' = current_version d).
  2:{ split; [done|]. unfold pending_migrations. by rewrite Hc. }
  revert Hrun. unfold rollback_to. unfold mbind at 1, SE_bind at 1, get_state at 1.
  unfold mbind at 1, SE_bind at 1, lift at 1.
  destruct (current_version d) as [cur|x] eqn:Hcur; [|intros [= _ <-]; done].
  unfold mbind at 1, SE_bind at 1, require at 1. destruct (target <? cur); [|intros [= _ <-]; done].
  unfold mbind at 1, SE_bind at 1.
  pose proof (rollback_versions_current bh ms (versions_down target cur) [] d) as Hk.
  destruct (rollback_versions bh ms (versions_down target cur) [] d) as [[l|y] d1]; cbn [snd] in Hk.
  - unfold set_current_version, mbind, SE_bind, lift, set_migrations_tree, modify.
    destruct (encode_version target) as [b|y]; [done|]. intros [= _ <-].
    unfold current_version in *. by rewrite Hk.
  - intros [= _ <-]. unfold current_version in *. by rewrite Hk.
Qed.

(** ** The built-in migrations *)

(** Every value of the storage tree can be read. *)
Definition readable (storage state : Tree bytes) : Prop :=
  forall k b, storage !! k = Some b -> is_ok (decode_value b) = true.

Lemma ctx_set_readable key v c :
  json_free v -> readable (cx_storage c) (cx_state c) ->
  exists c', ctx_set key v c = (Ok tt, c') /\ readable (cx_storage c') (cx_state c') /\
    (forall k, k <> key_bytes key -> cx_storage c' !! k = cx_storage c !! k) /\
    exists b, cx_storage c' !! key_bytes key = Some b /\ encode_value v = Ok b.
Proof.
  intros Hv Hr. unfold ctx_set, mbind, SE_bind, get_state, lift, set_cx_storage, push_change, modify.
  assert (Hget : exists o, ctx_get key c = Ok o).
  { unfold ctx_get. destruct (cx_storage c !! key_bytes key) as [b|] eqn:Hb; [|by eexists].
    specialize (Hr _ _ Hb). unfold mbind, result_bind. destruct (decode_value b); [by eexists|done]. }
  destruct Hget as [o ->]. pose proof (encode_value_total v) as Hok.
  destruct (encode_value v) as [b|x] eqn:Hb; [|done]. cbn [result_map_err].
  eexists. split; [reflexivity|]. cbn [cx_storage cx_state]. split_and!.
  - intros k b' Hk. destruct (decide (k = key_bytes key)) as [->|Hne].
    + rewrite lookup_insert_eq in Hk. injection Hk as <-. by rewrite (decode_plain_value v b Hv Hb).
    + rewrite lookup_insert_ne in Hk by done. by eapply Hr.
  - intros k Hne. by rewrite lookup_insert_ne.
  - exists b. by rewrite lookup_insert_eq.
Qed.

Lemma initial_up_readable secs c :
  readable (cx_storage c) (cx_state c) ->
  exists c', mg_up (InitialMigration secs) c = (Ok tt, c') /\ readable (cx_storage c') (cx_state c') /\
    exists b, cx_storage c' !! key_bytes (system "schema_version") = Some b /\ encode_value (VU64 1) = Ok b.
Proof.
  intros Hr. cbn [mg_up InitialMigration].
  destruct (ctx_set_readable (system "schema_version") (VU64 1) c) as (c1 & H1 & Hr1 & _ & b & Hb & Henc);
    [constructor|done|].
  destruct (ctx_set_readable (system "created_at") (VU64 secs) c1) as (c2 & H2 & Hr2 & Hk2 & _); [constructor|done|].
  destruct (ctx_set_readable (system "total_challenges") (VU64 0) c2) as (c3 & H3 & Hr3 & Hk3 & _); [constructor|done|].
  destruct (ctx_set_readable (system "total_validators") (VU64 0) c3) as (c4 & H4 & Hr4 & Hk4 & _); [constructor|done|].
  destruct (ctx_set_readable (system "total_jobs") (VU64 0) c4) as (c5 & H5 & Hr5 & Hk5 & _); [constructor|done|].
  exists c5. unfold mbind, SE_bind. rewrite H1, H2, H3, H4, H5. split; [done|]. split; [done|].
  exists b. rewrite Hk5, Hk4, Hk3, Hk2 by discriminate. done.
Qed.

Lemma metrics_up_readable c :
  readable (cx_storage c) (cx_state c) ->
  exists c', mg_up AddChallengeMetricsMigration c = (Ok tt, c') /\ readable (cx_storage c') (cx_state c').
Proof.
  intros Hr. cbn [mg_up AddChallengeMetricsMigration].
  destruct (ctx_set_readable (system "metrics_enabled") (VBool true) c) as (c1 & H1 & Hr1 & _); [constructor|done|].
  destruct (ctx_set_readable (system "metrics_retention_secs") (VU64 (7 * 24 * 60 * 60)) c1) as (c2 & H2 & Hr2 & _);
    [constructor|done|].
  exists c2. unfold mbind, SE_bind. by rewrite H1, H2.
Qed.

(** The migrations [run_migrations] registers. *)
Definition built_in (secs : Z) : gmap Z Migration :=
  register AddChallengeMetricsMigration (register (InitialMigration secs) ∅).

Lemma built_in_lookup secs v m :
  built_in secs !! v = Some m -> v = 1 /\ m = InitialMigration secs \/ v = 2 /\ m = AddChallengeMetricsMigration.
Proof.
  unfold built_in, register. cbn [mg_version InitialMigration AddChallengeMetricsMigration].
  rewrite lookup_empty, lookup_insert_ne, lookup_empty by lia. intros Hm.
  apply lookup_insert_Some in Hm as [[<- <-]|[_ Hm]]; [by right|].
  apply lookup_insert_Some in Hm as [[<- <-]|[_ Hm]]; [by left|]. by rewrite lookup_empty in Hm.
Qed.

Lemma built_in_succeed secs : ups_succeed readable (built_in secs).
Proof.
  intros v m [[-> ->]|[-> ->]]%built_in_lookup; (split; [unfold is_u64; lia|]); intros c Hr.
  - destruct (initial_up_readable secs c Hr) as (c' & ? & ? & _). by exists c'.
  - by apply metrics_up_readable.
Qed.

(** What a migration writes cannot be read through the dynamic storage on the
    same tree: after the initial migration, reading the schema version fails. *)
Theorem migrated_values_unreadable `{DynamicCodec} now secs c :
  readable (cx_storage c) (cx_state c) ->
  (forall v b, encode_value v = Ok b -> is_ok (decode_storage_entry b) = false) ->
  exists c', mg_up (InitialMigration secs) c = (Ok tt, c') /\
    ctx_get (system "schema_version") c' = Ok (Some (VU64 1)) /\
    is_ok (dyn_get now (system "schema_version") (DynamicStorage_new (cx_storage c'))).1 = false.
Proof.
  intros Hr Hlayout. destruct (initial_up_readable secs c Hr) as (c' & Hup & _ & b & Hb & Henc).
  exists c'. split; [done|]. split.
  - unfold ctx_get. rewrite Hb. unfold mbind, result_bind.
    by rewrite (decode_plain_value (VU64 1) b (jf_u64 1) Henc).
  - unfold dyn_get, mbind, SE_bind, get_state, lift, cache_hit. cbn [dy_cache_enabled dy_cache dy_tree DynamicStorage_new].
    rewrite lookup_empty, Hb. specialize (Hlayout _ _ Henc). by destruct (decode_storage_entry b).
Qed.
End runner_props.

(** ** A concrete database *)

Module MigrationExamples.
Import DynamicToy.

#[local] Instance toy_migration_codec : MigrationCodec := {|
  encode_value := fun v => Ok [0; Zpos (encode (enc v))];
  decode_value := fun b =>
    match b with
    | [0; Zpos p] => ok_or (decode p ≫= dec) "invalid value"%string
    | _ => Err "unexpected end"%string
    end;
  encode_version := fun v => Ok [v];
  decode_version := fun b => match b with [v] => Ok v | _ => Err "unexpected end"%string end;
  encode_record := fun r => Ok [mr_version r];
  decode_record := fun b => match b with [v] => Ok (mk_MigrationRecord v "" 0 0 []) | _ => Err "eof"%string end
|}.

#[local] Instance toy_migration_laws : MigrationCodecLaws.
Proof.
  split; cbn [encode_value decode_value encode_version decode_version encode_record toy_migration_codec].
  - intros v _. by exists [v].
  - done.
  - done.
  - intros v b Hv [= <-]. rewrite decode_encode. unfold mbind, option_bind. by rewrite dec_enc.
Qed.

Definition empty_db : MigrationDb := mk_MigrationDb ∅ ∅ ∅.

Lemma empty_readable : readable ∅ ∅.
Proof. intros k b Hk. by rewrite lookup_empty in Hk. Qed.

Lemma migrations_run_once_witness :
  exists d', run_pending (H := StorageToy.hex_external) 9 100 (built_in 5) empty_db = (Ok [1; 2], d') /\
    migrates 100 (built_in 5) [1; 2] (∅, ∅) (md_storage d', md_state d') /\
    is_applied 1 d' = true /\ is_applied 2 d' = true /\
    run_pending (H := StorageToy.hex_external) 10 101 (built_in 5) d' = (Ok [], d').
Proof.
  destruct (migrations_run_once (Ext := StorageToy.hex_external) readable 9 100 (built_in 5) empty_db 0 10 101
    (built_in_succeed 5) empty_readable eq_refl) as (d' & Hrun & _ & Hmig & Happ & _ & Hagain).
  exists d'. split; [exact Hrun|]. split; [exact Hmig|].
  split; [apply Happ; by_compute|]. split; [apply Happ; by_compute|exact Hagain].
Defined.

(** Rolled back to version 0: the metrics keys are gone, nothing is pending. *)
Definition migrated : MigrationDb := (run_pending (H := StorageToy.hex_external) 9 100 (built_in 5) empty_db).2.
Definition rolled : MigrationDb := (rollback_to 0 100 (built_in 5) migrated).2.

Lemma failed_rollback_keeps_version_witness :
  md_storage rolled !! key_bytes (system "metrics_enabled") = None /\ is_applied 2 rolled = false /\
  current_version rolled = Ok 2 /\
  current_version rolled = current_version migrated /\
  pending_migrations (built_in 5) rolled = pending_migrations (built_in 5) migrated.
Proof.
  assert (Herr : (rollback_to 0 100 (built_in 5) migrated).1 = Err (Storage "Migration 1 is not reversible"))
    by (vm_compute; reflexivity).
  assert (Hrun : rollback_to 0 100 (built_in 5) migrated =
    (Err (Storage "Migration 1 is not reversible"), rolled))
    by (unfold rolled; rewrite <- Herr; apply surjective_pairing).
  split; [vm_compute; reflexivity|]. split; [vm_compute; reflexivity|]. split; [vm_compute; reflexivity|].
  exact (failed_rollback_keeps_version 0 100 (built_in 5) migrated _ rolled Hrun).
Defined.

Lemma migrated_values_unreadable_witness :
  exists c', mg_up (InitialMigration 5) (MigrationContext_new ∅ ∅ 100) = (Ok tt, c') /\
    ctx_get (system "schema_version") c' = Ok (Some (VU64 1)) /\
    is_ok (dyn_get 7 (system "schema_version") (DynamicStorage_new (cx_storage c'))).1 = false.
Proof.
  assert (Hlayout : forall v b, encode_value v = Ok b -> is_ok (decode_storage_entry b) = false)
    by (intros v b [= <-]; reflexivity).
  exact (migrated_values_unreadable 7 5 (MigrationContext_new ∅ ∅ 100) empty_readable Hlayout).
Defined.
End MigrationExamples.
