(* ===== verification/ConsensusStore.v ===== *)
(** * Storage written by consensus

    Models [crates/storage/src/distributed.rs]: compressed entries with a
    header, write operations that wait for the votes of the validators, and the
    storage with its data tree, its index, its pending operations, its cache
    and its queries.

    A sled tree is the ordered map of [RustBytes], without I/O errors; a
    [HashSet] of validators is a finite set; instants are nanoseconds, read once
    per operation as the argument [now].  LZ4 and the bincode form of an entry
    are the class [ConsensusCodec]; the serialization of the caller's value
    type is the class [StoreValue]. *)

From Stdlib Require Import Ascii.
From S2P Require Import Prelude Float64 Crypto RustStrings RustBytes.

(** ** Constants and errors *)

Definition CONSENSUS_THRESHOLD : f64 := f64_lit 1 2.
Definition MAX_RAW_SIZE : Z := 10 * 1024 * 1024.
Definition MAX_COMPRESSED_SIZE : Z := 5 * 1024 * 1024.
Definition MAX_ENTRIES_PER_CATEGORY : nat := Z.to_nat 100000.
Definition MAX_STORED_ENTRY_SIZE : Z := 6 * 1024 * 1024.

Inductive StorageError : Type :=
| DatabaseError (msg : string)
| SerializationError (msg : string)
| DecompressionError (msg : string)
| TooLarge (size max : Z)
| EntryNotFound (key : string)
| ConsensusNotReached
| InvalidEntry (msg : string)
| ValidationFailed (reason : string).

Definition StorageError_display (e : StorageError) : string :=
  match e with
  | DatabaseError e => "Database error: " +:+ e
  | SerializationError e => "Serialization error: " +:+ e
  | DecompressionError e => "Decompression error: " +:+ e
  | TooLarge size max => "Entry too large: " +:+ Z_to_string size +:+ " > " +:+ Z_to_string max
  | EntryNotFound k => "Not found: " +:+ k
  | ConsensusNotReached => "Consensus not reached"
  | InvalidEntry e => "Invalid entry: " +:+ e
  | ValidationFailed e => "Validation failed: " +:+ e
  end.

(** ** Categories *)

Inductive Category : Type :=
| Submission
| Agent
| Evaluation
| ConsensusCategory
| Log
| Index
| Meta.

#[global] Instance Category_eq_dec : EqDecision Category.
Proof. solve_decision. Defined.

(** [category as u8]. *)
Definition category_number (c : Category) : Z :=
  match c with
  | Submission => 0 | Agent => 1 | Evaluation => 2 | ConsensusCategory => 3
  | Log => 4 | Index => 5 | Meta => 6
  end.

Definition category_prefix (c : Category) : string :=
  match c with
  | Submission => "sub:"
  | Agent => "agt:"
  | Evaluation => "evl:"
  | ConsensusCategory => "cns:"
  | Log => "log:"
  | Index => "idx:"
  | Meta => "met:"
  end.

(** ** Validation by a challenge's rules *)

Record WriteRequestInfo : Type := mk_WriteRequestInfo {
  wr_category : Category;
  wr_challenge_id : string;
  wr_key : string;
  wr_value : bytes;
  wr_size : Z;
  wr_creator : string;
  wr_creator_stake : Z;
  wr_block : Z;
  wr_is_update : bool;
  wr_previous_hash : option bytes;
  wr_writes_this_epoch : Z;
  wr_category_entry_count : Z;
  wr_total_validators : Z
}.

Inductive WriteValidationResult : Type :=
| Accept
| Reject (reason : string).

Definition is_accepted (r : WriteValidationResult) : bool :=
  match r with Accept => true | Reject _ => false end.

(** ** Entries *)

Record EntryHeader : Type := mk_EntryHeader {
  eh_category : Category;
  eh_challenge_id : string;
  eh_key : string;
  eh_version : Z;
  eh_created_block : Z;
  eh_updated_block : Z;
  eh_expires_block : Z;
  eh_creator : string;
  eh_value_hash : bytes;
  eh_raw_size : Z;
  eh_compressed_size : Z;
  eh_acks : gset string;
  eh_consensus_reached : bool
}.

Record StoredEntry : Type := mk_StoredEntry {
  en_header : EntryHeader;
  en_compressed_value : bytes
}.

Class ConsensusCodec : Type := {
  compress_prepend_size : bytes -> bytes;
  decompress_size_prepended : bytes -> result string bytes;
  encode_stored : StoredEntry -> result string bytes;
  decode_stored : Z -> bytes -> result string StoredEntry
}.

(** Bincode with a limit on the bytes read, and JSON, of the value type. *)
Class StoreValue (T : Type) : Type := {
  value_to_bincode : T -> result string bytes;
  value_from_bincode : Z -> bytes -> result string T;
  value_to_json : T -> result string bytes;
  value_from_json : bytes -> result string T
}.

Definition deserialize_value `{StoreValue T} (r : WriteRequestInfo) : result string T :=
  value_from_json (wr_value r).

Definition set_acks (acks : gset string) (reached : bool) (h : EntryHeader) : EntryHeader :=
  mk_EntryHeader (eh_category h) (eh_challenge_id h) (eh_key h) (eh_version h) (eh_created_block h)
    (eh_updated_block h) (eh_expires_block h) (eh_creator h) (eh_value_hash h) (eh_raw_size h)
    (eh_compressed_size h) acks reached.

Definition build_key (category : Category) (challenge_id key : string) : bytes :=
  str_bytes (category_prefix category) ++ str_bytes challenge_id ++ str_bytes ":" ++ str_bytes key.

Definition storage_key (e : StoredEntry) : bytes :=
  build_key (eh_category (en_header e)) (eh_challenge_id (en_header e)) (eh_key (en_header e)).

Definition entry_is_expired (current_block : Z) (e : StoredEntry) : bool :=
  (0 <? eh_expires_block (en_header e)) && (eh_expires_block (en_header e) <=? current_block).

(** [((total as f64) * CONSENSUS_THRESHOLD).ceil() as usize]. *)
Definition required_votes (total_validators : Z) : Z :=
  f64_as_u64 (f64_ceil (f64_mul (f64_of_Z total_validators) CONSENSUS_THRESHOLD)).

Definition entry_check_consensus (total_validators : Z) (e : StoredEntry) : StoredEntry :=
  mk_StoredEntry
    (set_acks (eh_acks (en_header e))
       (required_votes total_validators <=? Z.of_nat (size (eh_acks (en_header e)))) (en_header e))
    (en_compressed_value e).

Definition add_ack (validator : string) (total_validators : Z) (e : StoredEntry) : StoredEntry :=
  entry_check_consensus total_validators
    (mk_StoredEntry
       (set_acks ({[validator]} ∪ eh_acks (en_header e)) (eh_consensus_reached (en_header e)) (en_header e))
       (en_compressed_value e)).

Section entries.
Context `{Ext : External} `{Codec : ConsensusCodec}.

Definition StoredEntry_new `{StoreValue T} (category : Category) (challenge_id key : string) (value : T)
    (creator : string) (block : Z) (ttl_blocks : option Z) : result StorageError StoredEntry :=
  raw_bytes ← result_map_err SerializationError (value_to_bincode value);
  if MAX_RAW_SIZE <? Z.of_nat (length raw_bytes)
  then Err (TooLarge (Z.of_nat (length raw_bytes)) MAX_RAW_SIZE)
  else
    let compressed := compress_prepend_size raw_bytes in
    if MAX_COMPRESSED_SIZE <? Z.of_nat (length compressed)
    then Err (TooLarge (Z.of_nat (length compressed)) MAX_COMPRESSED_SIZE)
    else
      let expires_block := default 0 ((fun t => u64_add block t) <$> ttl_blocks) in
      Ok (mk_StoredEntry
            (mk_EntryHeader category challenge_id key 1 block block expires_block creator
               (sha256 raw_bytes) (Z.of_nat (length raw_bytes) mod 2 ^ 32)
               (Z.of_nat (length compressed) mod 2 ^ 32) ∅ false)
            compressed).

Definition decompress_raw (e : StoredEntry) : result StorageError bytes :=
  result_map_err DecompressionError (decompress_size_prepended (en_compressed_value e)).

Definition decompress `{StoreValue T} (e : StoredEntry) : result StorageError T :=
  raw ← decompress_raw e;
  if Z.of_nat (length raw) =? eh_raw_size (en_header e)
  then result_map_err SerializationError (value_from_bincode MAX_RAW_SIZE raw)
  else Err (DecompressionError ("Decompressed size mismatch: expected " +:+
              Z_to_string (eh_raw_size (en_header e)) +:+ ", got " +:+
              Z_to_string (Z.of_nat (length raw)))).

Definition verify (e : StoredEntry) : bool :=
  match decompress_size_prepended (en_compressed_value e) with
  | Ok raw => bool_decide (sha256 raw = eh_value_hash (en_header e))
  | Err _ => false
  end.

Definition to_bytes (e : StoredEntry) : result StorageError bytes :=
  result_map_err SerializationError (encode_stored e).
Definition from_bytes (b : bytes) : result StorageError StoredEntry :=
  result_map_err SerializationError (decode_stored MAX_STORED_ENTRY_SIZE b).
End entries.

(** ** Write operations *)

Record WriteOp : Type := mk_WriteOp {
  wo_op_id : bytes;
  wo_entry : StoredEntry;
  wo_initiator : string;
  wo_proposed_block : Z;
  wo_votes_yes : gset string;
  wo_votes_no : gset string;
  wo_committed : bool
}.

Definition op_id_bytes (e : StoredEntry) (block : Z) : bytes :=
  str_bytes (eh_challenge_id (en_header e)) ++ str_bytes (eh_key (en_header e)) ++
  eh_value_hash (en_header e) ++ to_le_bytes 8 block.

Definition WriteOp_new `{External} (entry : StoredEntry) (initiator : string) (block : Z) : WriteOp :=
  mk_WriteOp (sha256 (op_id_bytes entry block)) entry initiator block {[initiator]} ∅ false.

Definition op_vote (validator : string) (approve : bool) (op : WriteOp) : WriteOp :=
  if approve then
    mk_WriteOp (wo_op_id op) (wo_entry op) (wo_initiator op) (wo_proposed_block op)
      ({[validator]} ∪ wo_votes_yes op) (wo_votes_no op ∖ {[validator]}) (wo_committed op)
  else
    mk_WriteOp (wo_op_id op) (wo_entry op) (wo_initiator op) (wo_proposed_block op)
      (wo_votes_yes op ∖ {[validator]}) ({[validator]} ∪ wo_votes_no op) (wo_committed op).

Definition op_check_consensus (total_validators : Z) (op : WriteOp) : option bool :=
  let required := required_votes total_validators in
  if required <=? Z.of_nat (size (wo_votes_yes op)) then Some true
  else if required <=? Z.of_nat (size (wo_votes_no op)) then Some false
  else None.

(** ** The storage *)

Record StorageStats : Type := mk_StorageStats {
  ss_total_entries : Z;
  ss_total_bytes_raw : Z;
  ss_total_bytes_compressed : Z;
  ss_compression_ratio : f64;
  ss_cache_hits : Z;
  ss_cache_misses : Z;
  ss_write_ops_pending : Z;
  ss_write_ops_committed : Z;
  ss_write_ops_rejected : Z
}.
Definition StorageStats_default : StorageStats := mk_StorageStats 0 0 0 f64_zero 0 0 0 0 0.

Record DistributedStorage : Type := mk_DistributedStorage {
  ds_data_tree : Tree bytes;
  ds_index_tree : Tree bytes;
  ds_pending_ops : gmap bytes WriteOp;
  ds_current_block : Z;
  ds_total_validators : Z;
  ds_our_validator : string;
  ds_cache : gmap bytes (StoredEntry * Z);
  ds_cache_ttl_secs : Z;
  ds_stats : StorageStats
}.

(** The trees of the database survive; the rest starts empty. *)
Definition open (data index : Tree bytes) (our_validator : string) : DistributedStorage :=
  mk_DistributedStorage data index ∅ 0 1 our_validator ∅ 60 StorageStats_default.

Definition set_block (block : Z) (s : DistributedStorage) : DistributedStorage :=
  mk_DistributedStorage (ds_data_tree s) (ds_index_tree s) (ds_pending_ops s) block
    (ds_total_validators s) (ds_our_validator s) (ds_cache s) (ds_cache_ttl_secs s) (ds_stats s).
Definition set_validators (count : Z) (s : DistributedStorage) : DistributedStorage :=
  mk_DistributedStorage (ds_data_tree s) (ds_index_tree s) (ds_pending_ops s) (ds_current_block s)
    count (ds_our_validator s) (ds_cache s) (ds_cache_ttl_secs s) (ds_stats s).
Definition on_trees (f g : Tree bytes -> Tree bytes) (s : DistributedStorage) : DistributedStorage :=
  mk_DistributedStorage (f (ds_data_tree s)) (g (ds_index_tree s)) (ds_pending_ops s) (ds_current_block s)
    (ds_total_validators s) (ds_our_validator s) (ds_cache s) (ds_cache_ttl_secs s) (ds_stats s).
Definition on_pending (f : gmap bytes WriteOp -> gmap bytes WriteOp) (s : DistributedStorage) :
    DistributedStorage :=
  mk_DistributedStorage (ds_data_tree s) (ds_index_tree s) (f (ds_pending_ops s)) (ds_current_block s)
    (ds_total_validators s) (ds_our_validator s) (ds_cache s) (ds_cache_ttl_secs s) (ds_stats s).
Definition on_entry_cache (f : gmap bytes (StoredEntry * Z) -> gmap bytes (StoredEntry * Z))
    (s : DistributedStorage) : DistributedStorage :=
  mk_DistributedStorage (ds_data_tree s) (ds_index_tree s) (ds_pending_ops s) (ds_current_block s)
    (ds_total_validators s) (ds_our_validator s) (f (ds_cache s)) (ds_cache_ttl_secs s) (ds_stats s).
Definition on_stats (f : StorageStats -> StorageStats) (s : DistributedStorage) : DistributedStorage :=
  mk_DistributedStorage (ds_data_tree s) (ds_index_tree s) (ds_pending_ops s) (ds_current_block s)
    (ds_total_validators s) (ds_our_validator s) (ds_cache s) (ds_cache_ttl_secs s) (f (ds_stats s)).

(** [stats.write_ops_committed += 1] and its like. *)
Definition count_stats (hits misses committed rejected : Z) (st : StorageStats) : StorageStats :=
  mk_StorageStats (ss_total_entries st) (ss_total_bytes_raw st) (ss_total_bytes_compressed st)
    (ss_compression_ratio st) (u64_add (ss_cache_hits st) hits) (u64_add (ss_cache_misses st) misses)
    (ss_write_ops_pending st) (u64_add (ss_write_ops_committed st) committed)
    (u64_add (ss_write_ops_rejected st) rejected).
(** [stats.write_ops_pending = pending_ops.len()]. *)
Definition stats_pending (s : DistributedStorage) : DistributedStorage :=
  on_stats (fun st => mk_StorageStats (ss_total_entries st) (ss_total_bytes_raw st)
    (ss_total_bytes_compressed st) (ss_compression_ratio st) (ss_cache_hits st) (ss_cache_misses st)
    (Z.of_nat (size (ds_pending_ops s))) (ss_write_ops_committed st) (ss_write_ops_rejected st)) s.
Definition stats_written (h : EntryHeader) (st : StorageStats) : StorageStats :=
  let raw := u64_add (ss_total_bytes_raw st) (eh_raw_size h) in
  let compressed := u64_add (ss_total_bytes_compressed st) (eh_compressed_size h) in
  mk_StorageStats (u64_add (ss_total_entries st) 1) raw compressed
    (if 0 <? raw then f64_div (f64_of_Z compressed) (f64_of_Z raw) else ss_compression_ratio st)
    (ss_cache_hits st) (ss_cache_misses st) (ss_write_ops_pending st) (ss_write_ops_committed st)
    (ss_write_ops_rejected st).

Definition StoreM := SE DistributedStorage StorageError.

(** [cached_at.elapsed().as_secs()]. *)
Definition elapsed_secs (now cached_at : Z) : Z := Z.max 0 (now - cached_at) / 10 ^ 9.

(** ** Indexes *)

Definition category_index_prefix (challenge_id : string) (category : Category) : string :=
  challenge_id +:+ ":" +:+ Z_to_string (category_number category) +:+ ":".
Definition creator_index_prefix (creator challenge_id : string) : string :=
  "creator:" +:+ creator +:+ ":" +:+ challenge_id +:+ ":".

Definition update_indexes (h : EntryHeader) (index : Tree bytes) : Tree bytes :=
  <[str_bytes (creator_index_prefix (eh_creator h) (eh_challenge_id h) +:+ eh_key h) := str_bytes (eh_key h)]>
    (<[str_bytes (category_index_prefix (eh_challenge_id h) (eh_category h) +:+ eh_key h) :=
         str_bytes (eh_key h)]> index).

Section store.
Context `{Ext : External} `{Codec : ConsensusCodec}.

(** ** Writes *)

Definition mark_committed (op : WriteOp) : WriteOp :=
  mk_WriteOp (wo_op_id op)
    (mk_StoredEntry (set_acks (eh_acks (en_header (wo_entry op))) true (en_header (wo_entry op)))
       (en_compressed_value (wo_entry op)))
    (wo_initiator op) (wo_proposed_block op) (wo_votes_yes op) (wo_votes_no op) true.

Definition write_direct (now : Z) (entry : StoredEntry) : StoreM unit :=
  let key := storage_key entry in
  value ← lift (to_bytes entry);
  _ ← modify (on_trees (<[key := value]>) (fun i => i));
  _ ← modify (on_trees (fun d => d) (update_indexes (en_header entry)));
  modify (on_entry_cache (<[key := (entry, now)]>)).

Definition commit_write (now : Z) (op : WriteOp) : StoreM unit :=
  let op := mark_committed op in
  let key := storage_key (wo_entry op) in
  value ← lift (to_bytes (wo_entry op));
  _ ← modify (on_trees (<[key := value]>) (fun i => i));
  _ ← modify (on_trees (fun d => d) (update_indexes (en_header (wo_entry op))));
  _ ← modify (on_entry_cache (<[key := (wo_entry op, now)]>));
  modify (on_stats (stats_written (en_header (wo_entry op)))).

(** Commits an operation its own vote decides, or files it as pending. *)
Definition submit_op (now total : Z) (op : WriteOp) : StoreM WriteOp :=
  match op_check_consensus total op with
  | Some true =>
      _ ← commit_write now op;
      _ ← modify (on_stats (count_stats 0 0 1 0));
      mret op
  | _ =>
      _ ← modify (on_pending (<[wo_op_id op := op]>));
      _ ← modify stats_pending;
      mret op
  end.

Definition propose_write `{StoreValue T} (now : Z) (category : Category) (challenge_id key : string)
    (value : T) (ttl_blocks : option Z) : StoreM WriteOp :=
  s ← get_state;
  let block := ds_current_block s in
  entry ← lift (StoredEntry_new category challenge_id key value (ds_our_validator s) block ttl_blocks);
  submit_op now (ds_total_validators s) (WriteOp_new entry (ds_our_validator s) block).

Definition count_writes_this_epoch (challenge_id validator : string) : Z := 0.

Definition count_category (challenge_id : string) (category : Category) (s : DistributedStorage) : Z :=
  Z.of_nat (length (tree_scan_prefix (str_bytes (challenge_id +:+ ":" +:+ category_prefix category))
                      (ds_data_tree s))).

Definition get_raw (category : Category) (challenge_id key : string) (s : DistributedStorage) :
    result StorageError (option StoredEntry) :=
  match ds_data_tree s !! str_bytes (challenge_id +:+ ":" +:+ category_prefix category +:+ ":" +:+ key) with
  | Some b => e ← from_bytes b; Ok (Some e)
  | None => Ok None
  end.

Definition write_request (category : Category) (challenge_id key : string) (value_bytes : bytes)
    (creator_stake : Z) (existing : option StoredEntry) (s : DistributedStorage) : WriteRequestInfo :=
  mk_WriteRequestInfo category challenge_id key value_bytes (Z.of_nat (length value_bytes))
    (ds_our_validator s) creator_stake (ds_current_block s)
    (bool_decide (is_Some existing)) ((fun e => eh_value_hash (en_header e)) <$> existing)
    (count_writes_this_epoch challenge_id (ds_our_validator s))
    (count_category challenge_id category s) (ds_total_validators s).

Definition propose_write_validated `{StoreValue T} (now : Z) (category : Category)
    (challenge_id key : string) (value : T) (creator_stake : Z)
    (validate_fn : WriteRequestInfo -> WriteValidationResult) : StoreM WriteOp :=
  s ← get_state;
  let block := ds_current_block s in
  value_bytes ← lift (result_map_err SerializationError (value_to_json value));
  existing ← lift (get_raw category challenge_id key s);
  match validate_fn (write_request category challenge_id key value_bytes creator_stake existing s) with
  | Reject reason => throw (ValidationFailed reason)
  | Accept =>
      entry ← lift (StoredEntry_new category challenge_id key value (ds_our_validator s) block None);
      submit_op now (ds_total_validators s) (WriteOp_new entry (ds_our_validator s) block)
  end.

Definition vote_write (now : Z) (op_id : bytes) (validator : string) (approve : bool)
    (s : DistributedStorage) : option bool * DistributedStorage :=
  match ds_pending_ops s !! op_id with
  | None => (None, s)
  | Some op =>
      let op := op_vote validator approve op in
      let s := on_pending (<[op_id := op]>) s in
      match op_check_consensus (ds_total_validators s) op with
      | None => (None, s)
      | Some true =>
          match commit_write now op (on_pending (delete op_id) s) with
          | (Err _, s) => (Some false, s)
          | (Ok _, s) => (Some true, stats_pending (on_stats (count_stats 0 0 1 0) s))
          end
      | Some false =>
          (Some false, stats_pending (on_stats (count_stats 0 0 0 1) (on_pending (delete op_id) s)))
      end
  end.

Definition get_pending_op (op_id : bytes) (s : DistributedStorage) : option WriteOp :=
  ds_pending_ops s !! op_id.
Definition pending_operations {HO : HashOrder bytes} (s : DistributedStorage) : list WriteOp :=
  hm_values (ds_pending_ops s).
Definition get_pending_ops {HO : HashOrder bytes} (challenge_id : string) (s : DistributedStorage) :
    list WriteOp :=
  filter (fun op => eh_challenge_id (en_header (wo_entry op)) = challenge_id) (pending_operations s).

(** ** Reads *)

Definition ds_get (now : Z) (category : Category) (challenge_id key : string) :
    StoreM (option StoredEntry) :=
  let storage_key := build_key category challenge_id key in
  s ← get_state;
  match (match ds_cache s !! storage_key with
         | Some (entry, cached_at) =>
             if elapsed_secs now cached_at <? ds_cache_ttl_secs s then Some entry else None
         | None => None
         end) with
  | Some entry => _ ← modify (on_stats (count_stats 1 0 0 0)); mret (Some entry)
  | None =>
      _ ← modify (on_stats (count_stats 0 1 0 0));
      match ds_data_tree s !! storage_key with
      | Some b =>
          entry ← lift (from_bytes b);
          _ ← modify (on_entry_cache (<[storage_key := (entry, now)]>));
          mret (Some entry)
      | None => mret None
      end
  end.

Definition get_value `{StoreValue T} (now : Z) (category : Category) (challenge_id key : string) :
    StoreM (option T) :=
  entry ← ds_get now category challenge_id key;
  match entry with
  | Some entry => v ← lift (decompress entry); mret (Some v)
  | None => mret None
  end.

(** The text of the key an index entry holds. *)
Definition index_text (key_bytes : bytes) : string := bytes_str (utf8_lossy key_bytes).

Fixpoint list_category_loop (now : Z) (category : Category) (challenge_id : string) (limit : nat)
    (items : list (bytes * bytes)) (results : list StoredEntry) : StoreM (list StoredEntry) :=
  match items with
  | [] => mret results
  | (_, key_bytes) :: rest =>
      if (limit <=? length results)%nat then mret results
      else
        entry ← ds_get now category challenge_id (index_text key_bytes);
        list_category_loop now category challenge_id limit rest
          (match entry with Some e => results ++ [e] | None => results end)
  end.

Definition list_by_category (now : Z) (category : Category) (challenge_id : string) (limit : nat) :
    StoreM (list StoredEntry) :=
  s ← get_state;
  list_category_loop now category challenge_id limit
    (tree_scan_prefix (str_bytes (category_index_prefix challenge_id category)) (ds_index_tree s)) [].

(** The first of the categories that holds the key. *)
Fixpoint first_category (now : Z) (categories : list Category) (challenge_id key : string) :
    StoreM (option StoredEntry) :=
  match categories with
  | [] => mret None
  | cat :: rest =>
      entry ← ds_get now cat challenge_id key;
      match entry with
      | Some e => mret (Some e)
      | None => first_category now rest challenge_id key
      end
  end.

Definition listed_categories (category : option Category) : list Category :=
  match category with
  | Some c => [c]
  | None => [Submission; Agent; Evaluation; ConsensusCategory; Log]
  end.

Fixpoint list_creator_loop (now : Z) (categories : list Category) (challenge_id : string) (limit : nat)
    (items : list (bytes * bytes)) (results : list StoredEntry) : StoreM (list StoredEntry) :=
  match items with
  | [] => mret results
  | (_, key_bytes) :: rest =>
      if (limit <=? length results)%nat then mret results
      else
        entry ← first_category now categories challenge_id (index_text key_bytes);
        list_creator_loop now categories challenge_id limit rest
          (match entry with Some e => results ++ [e] | None => results end)
  end.

Definition list_by_creator (now : Z) (creator challenge_id : string) (category : option Category)
    (limit : nat) : StoreM (list StoredEntry) :=
  s ← get_state;
  list_creator_loop now (listed_categories category) challenge_id limit
    (tree_scan_prefix (str_bytes (creator_index_prefix creator challenge_id)) (ds_index_tree s)) [].

(** ** Queries *)

Definition get_submissions (now : Z) (challenge_id : string) : StoreM (list StoredEntry) :=
  list_by_category now Submission challenge_id MAX_ENTRIES_PER_CATEGORY.
Definition get_agents (now : Z) (challenge_id : string) : StoreM (list StoredEntry) :=
  list_by_category now Agent challenge_id MAX_ENTRIES_PER_CATEGORY.

Definition get_evaluations_for_agent (challenge_id agent_hash : string) (s : DistributedStorage) :
    result StorageError (list StoredEntry) :=
  mapM (fun x => from_bytes x.2)
    (tree_scan_prefix (build_key Evaluation challenge_id agent_hash) (ds_data_tree s)).

Definition get_evaluations_by_validator (now : Z) (challenge_id validator : string) :
    StoreM (list StoredEntry) :=
  list_by_creator now validator challenge_id (Some Evaluation) MAX_ENTRIES_PER_CATEGORY.

Definition entry_key (e : StoredEntry) : string := eh_key (en_header e).

Definition get_pending_submissions (now : Z) (challenge_id : string) : StoreM (list StoredEntry) :=
  submissions ← get_submissions now challenge_id;
  agents ← get_agents now challenge_id;
  let agent_hashes := entry_key <$> agents in
  mret (filter (fun s => entry_key s ∉ agent_hashes) submissions).

Definition get_agents_evaluated_by (now : Z) (challenge_id validator : string) : StoreM (list string) :=
  evaluations ← get_evaluations_by_validator now challenge_id validator;
  mret ((fun e => default EmptyString (head (split ":"%char (entry_key e)))) <$> evaluations).

Definition get_agents_not_evaluated_by (now : Z) (challenge_id validator : string) :
    StoreM (list StoredEntry) :=
  agents ← get_agents now challenge_id;
  evaluated ← get_agents_evaluated_by now challenge_id validator;
  mret (filter (fun a => entry_key a ∉ evaluated) agents).

(** ** Maintenance *)

Definition pending_timeout : Z := 100.

Definition expired_data_keys (block : Z) (t : Tree bytes) : list bytes :=
  omap (fun '(k, b) =>
    match from_bytes b with
    | Ok e => if entry_is_expired block e then Some k else None
    | Err _ => None
    end) (tree_iter t).

Definition delete_keys {V} (l : list bytes) (m : gmap bytes V) : gmap bytes V :=
  fold_left (fun m k => delete k m) l m.

Definition cleanup_expired (now : Z) (s : DistributedStorage) : nat * DistributedStorage :=
  let block := ds_current_block s in
  let expired := expired_data_keys block (ds_data_tree s) in
  let s := on_trees (delete_keys expired) (fun i => i) s in
  let s := on_entry_cache (fun c =>
    filter (fun '(_, (entry, cached_at)) =>
      entry_is_expired block entry = false /\ elapsed_secs now cached_at < u64_mul (ds_cache_ttl_secs s) 2)
      (delete_keys expired c)) s in
  let s := on_pending (filter (fun '(_, op) =>
    u64_sub block (wo_proposed_block op) < pending_timeout)) s in
  (length expired, s).

Definition merkle_root (challenge_id : string) (s : DistributedStorage) : bytes :=
  sha256 (concat ((fun x => x.1 ++ x.2) <$>
    tree_scan_prefix (str_bytes challenge_id) (ds_data_tree s))).
End store.

(** ** Messages between validators *)

Inductive SyncMessage : Type :=
| ProposeWrite (op : WriteOp)
| VoteWrite (op_id : bytes) (voter : string) (approve : bool)
| CommittedWrite (entry : StoredEntry)
| RequestMerkleRoot (challenge_id : string)
| MerkleRoot (challenge_id : string) (root : bytes) (entry_count : Z)
| RequestEntries (challenge_id : string) (category : Category) (from_key : option string) (limit : Z)
| Entries (challenge_id : string) (entries : list StoredEntry) (has_more : bool).
