(* ===== verification/ConsensusStoreProps.v ===== *)
(** * What the storage written by consensus guarantees

    The storage refines a table of entries with a set of pending operations:
    answers do not depend on the cache, the codec or the clock, and the index
    finds exactly what a scan of the data would.  The theorems after that show
    where the code and its documentation part: votes that need not intersect,
    operations that share an identifier, and keys that are built in two ways. *)

From Stdlib Require Import Ascii.
From S2P Require Import Prelude Float64 Crypto RustStrings RustBytes ConsensusStore.

(** ** The codec *)

(** The size of an entry in bincode: fixed-width integers, and a length of eight
    bytes before each string, set and vector. *)
Definition str_size (s : string) : Z := 8 + Z.of_nat (String.length s).
Definition acks_size (acks : gset string) : Z :=
  foldr (fun a n => str_size a + n) 0 (elements acks).
Definition stored_size (e : StoredEntry) : Z :=
  let h := en_header e in
  4 + str_size (eh_challenge_id h) + str_size (eh_key h) + 32 + str_size (eh_creator h) +
  Z.of_nat (length (eh_value_hash h)) + 8 + (8 + acks_size (eh_acks h)) + 1 +
  (8 + Z.of_nat (length (en_compressed_value e))).

(** Small enough to be read back. *)
Definition entry_fits (e : StoredEntry) : Prop := stored_size e <= MAX_STORED_ENTRY_SIZE.

(** The documented behaviour of LZ4 and bincode. *)
Class ConsensusCodecLaws `{ConsensusCodec} : Prop := {
  decompress_compress : forall b, decompress_size_prepended (compress_prepend_size b) = Ok b;
  encode_stored_size : forall e, exists b, encode_stored e = Ok b /\ Z.of_nat (length b) = stored_size e;
  decode_encode_stored : forall e b limit,
    encode_stored e = Ok b -> Z.of_nat (length b) <= limit -> decode_stored limit b = Ok e
}.

Class StoreValueLaws (T : Type) `{StoreValue T} : Prop := {
  value_roundtrip : forall (v : T) b limit,
    value_to_bincode v = Ok b -> Z.of_nat (length b) <= limit -> value_from_bincode limit b = Ok v
}.

(** ** The abstract storage *)

Abbreviation EntryTable := (gmap bytes StoredEntry).

Record Spec : Type := mk_Spec {
  sp_table : EntryTable;
  sp_pending : gmap bytes WriteOp;
  sp_block : Z;
  sp_total : Z;
  sp_our : string
}.

Inductive store_op (T : Type) : Type :=
| OPropose (category : Category) (challenge_id key : string) (value : T) (ttl : option Z)
| OVote (op_id : bytes) (validator : string) (approve : bool)
| OWriteDirect (entry : StoredEntry)
| OGet (category : Category) (challenge_id key : string)
| OList (category : Category) (challenge_id : string) (limit : nat)
| OCleanup
| OSetBlock (block : Z)
| OSetValidators (count : Z)
| OReopen.
Arguments OPropose {T}.
Arguments OVote {T}.
Arguments OWriteDirect {T}.
Arguments OGet {T}.
Arguments OList {T}.
Arguments OCleanup {T}.
Arguments OSetBlock {T}.
Arguments OSetValidators {T}.
Arguments OReopen {T}.

Inductive store_answer : Type :=
| AOp (op : WriteOp)
| AVote (decision : option bool)
| AEntry (e : option StoredEntry)
| AEntries (l : list StoredEntry)
| ACount (n : nat)
| ADone
| AFailed (e : StorageError).

Section spec.
Context `{Ext : External} `{Codec : ConsensusCodec}.

Definition committed_entry (op : WriteOp) : StoredEntry := wo_entry (mark_committed op).

Definition spec_commit (op : WriteOp) (a : Spec) : Spec :=
  mk_Spec (<[storage_key (committed_entry op) := committed_entry op]> (sp_table a))
    (sp_pending a) (sp_block a) (sp_total a) (sp_our a).
Definition spec_pending (f : gmap bytes WriteOp -> gmap bytes WriteOp) (a : Spec) : Spec :=
  mk_Spec (sp_table a) (f (sp_pending a)) (sp_block a) (sp_total a) (sp_our a).

(** A proposal that its own vote decides is written at once. *)
Definition spec_propose (e : StoredEntry) (a : Spec) : WriteOp * Spec :=
  let op := WriteOp_new e (sp_our a) (sp_block a) in
  (op, match op_check_consensus (sp_total a) op with
       | Some true => spec_commit op a
       | _ => spec_pending (<[wo_op_id op := op]>) a
       end).

Definition spec_vote (op_id : bytes) (validator : string) (approve : bool) (a : Spec) : option bool * Spec :=
  match sp_pending a !! op_id with
  | None => (None, a)
  | Some op =>
      let op := op_vote validator approve op in
      match op_check_consensus (sp_total a) op with
      | None => (None, spec_pending (<[op_id := op]>) a)
      | Some true => (Some true, spec_commit op (spec_pending (delete op_id) a))
      | Some false => (Some false, spec_pending (delete op_id) a)
      end
  end.

(** The entries of a category of a challenge, in the order of their keys. *)
Definition category_entries (category : Category) (challenge_id : string) (m : EntryTable) :
    list StoredEntry :=
  (tree_scan_prefix (build_key category challenge_id "") m).*2.

Definition spec_cleanup (a : Spec) : nat * Spec :=
  (size (filter (fun '(_, e) => entry_is_expired (sp_block a) e = true) (sp_table a)),
   mk_Spec (filter (fun '(_, e) => entry_is_expired (sp_block a) e = false) (sp_table a))
     (filter (fun '(_, op) => u64_sub (sp_block a) (wo_proposed_block op) < pending_timeout) (sp_pending a))
     (sp_block a) (sp_total a) (sp_our a)).

Definition spec_step `{StoreValue T} (o : store_op T) (a : Spec) : store_answer * Spec :=
  match o with
  | OPropose cat ch key v ttl =>
      match StoredEntry_new cat ch key v (sp_our a) (sp_block a) ttl with
      | Ok e => let '(op, a') := spec_propose e a in (AOp op, a')
      | Err x => (AFailed x, a)
      end
  | OVote op_id validator approve =>
      let '(d, a') := spec_vote op_id validator approve a in (AVote d, a')
  | OWriteDirect e =>
      (ADone, mk_Spec (<[storage_key e := e]> (sp_table a)) (sp_pending a) (sp_block a) (sp_total a) (sp_our a))
  | OGet cat ch key => (AEntry (sp_table a !! build_key cat ch key), a)
  | OList cat ch limit => (AEntries (take limit (category_entries cat ch (sp_table a))), a)
  | OCleanup => let '(n, a') := spec_cleanup a in (ACount n, a')
  | OSetBlock block => (ADone, mk_Spec (sp_table a) (sp_pending a) block (sp_total a) (sp_our a))
  | OSetValidators count => (ADone, mk_Spec (sp_table a) (sp_pending a) (sp_block a) count (sp_our a))
  | OReopen => (ADone, mk_Spec (sp_table a) ∅ 0 1 (sp_our a))
  end.

Definition answer {A} (f : A -> store_answer) (r : result StorageError A * DistributedStorage) :
    store_answer * DistributedStorage :=
  (match r.1 with Ok x => f x | Err e => AFailed e end, r.2).

Definition store_step `{StoreValue T} (now : Z) (o : store_op T) (s : DistributedStorage) :
    store_answer * DistributedStorage :=
  match o with
  | OPropose cat ch key v ttl => answer AOp (propose_write now cat ch key v ttl s)
  | OVote op_id validator approve =>
      let '(d, s') := vote_write now op_id validator approve s in (AVote d, s')
  | OWriteDirect e => answer (fun _ => ADone) (write_direct now e s)
  | OGet cat ch key => answer AEntry (ds_get now cat ch key s)
  | OList cat ch limit => answer AEntries (list_by_category now cat ch limit s)
  | OCleanup => let '(n, s') := cleanup_expired now s in (ACount n, s')
  | OSetBlock block => (ADone, set_block block s)
  | OSetValidators count => (ADone, set_validators count s)
  | OReopen => (ADone, open (ds_data_tree s) (ds_index_tree s) (ds_our_validator s))
  end.

(** ** Representation *)

(** What the keys of the index rely on. *)
Definition colon_free (s : string) : Prop := 58 ∉ str_bytes s.
Definition plain_header (h : EntryHeader) : Prop :=
  colon_free (eh_challenge_id h) /\ eh_challenge_id h <> "creator"%string /\
  utf8_valid (str_bytes (eh_key h)) = true.
Definition plain_entry (e : StoredEntry) : Prop := entry_fits e /\ plain_header (en_header e).

Definition category_index_key (h : EntryHeader) : bytes :=
  str_bytes (category_index_prefix (eh_challenge_id h) (eh_category h) +:+ eh_key h).
Definition creator_index_key (h : EntryHeader) : bytes :=
  str_bytes (creator_index_prefix (eh_creator h) (eh_challenge_id h) +:+ eh_key h).

Record represents (s : DistributedStorage) (a : Spec) : Prop := {
  rep_data : forall k, match sp_table a !! k with
    | Some e => exists b, ds_data_tree s !! k = Some b /\ from_bytes b = Ok e
    | None => ds_data_tree s !! k = None
    end;
  rep_cache : forall k e t, ds_cache s !! k = Some (e, t) -> sp_table a !! k = Some e;
  rep_pending : ds_pending_ops s = sp_pending a;
  rep_block : ds_current_block s = sp_block a;
  rep_total : ds_total_validators s = sp_total a;
  rep_our : ds_our_validator s = sp_our a;
  rep_keys : forall k e, sp_table a !! k = Some e -> storage_key e = k /\ plain_entry e;
  rep_plain : forall id op, sp_pending a !! id = Some op -> plain_entry (wo_entry op);
  rep_index : forall k e, sp_table a !! k = Some e ->
    ds_index_tree s !! category_index_key (en_header e) = Some (str_bytes (eh_key (en_header e)));
  rep_indexed : forall ik v, ds_index_tree s !! ik = Some v -> exists h, plain_header h /\
    v = str_bytes (eh_key h) /\ (ik = category_index_key h \/ ik = creator_index_key h)
}.

Definition op_plain `{StoreValue T} (o : store_op T) (a : Spec) : Prop :=
  match o with
  | OPropose cat ch key v ttl =>
      forall e, StoredEntry_new cat ch key v (sp_our a) (sp_block a) ttl = Ok e -> plain_entry e
  | OWriteDirect e => plain_entry e
  | OList _ ch _ => colon_free ch /\ ch <> "creator"%string
  | _ => True
  end.

(** *** Changes that keep the representation *)

Lemma represents_stats s a f : represents s a -> represents (on_stats f s) a.
Proof. by intros [? ? ? ? ? ? ? ? ? ?]. Qed.

Lemma represents_stats_pending s a : represents s a -> represents (stats_pending s) a.
Proof. apply represents_stats. Qed.

Lemma represents_cache s a k e t :
  represents s a -> sp_table a !! k = Some e -> represents (on_entry_cache (<[k := (e, t)]>) s) a.
Proof.
  intros [] Hk. split; try done. cbn [on_entry_cache ds_cache]. intros k' e' t' Hl.
  apply lookup_insert_Some in Hl as [[<- [= <- <-]]|[Hne Hl]]; [done|]. eauto.
Qed.

Lemma represents_pending s a f :
  represents s a ->
  (forall id op, f (sp_pending a) !! id = Some op -> plain_entry (wo_entry op)) ->
  represents (on_pending f s) (spec_pending f a).
Proof. intros [] Hf. split; try done. cbn [on_pending spec_pending ds_pending_ops sp_pending]. by f_equal. Qed.

(** *** Keys *)

Lemma category_number_plain c : 58 ∉ str_bytes (Z_to_string (category_number c)).
Proof. apply (bool_decide_unpack _). by destruct c; vm_compute. Qed.

Lemma category_number_inj c c' :
  str_bytes (Z_to_string (category_number c)) = str_bytes (Z_to_string (category_number c')) -> c = c'.
Proof. destruct c, c'; vm_compute; congruence. Qed.

Lemma category_prefix_inj c c' :
  str_bytes (category_prefix c) = str_bytes (category_prefix c') -> c = c'.
Proof. destruct c, c'; vm_compute; congruence. Qed.

Lemma index_prefix_bytes ch c :
  str_bytes (category_index_prefix ch c) =
  str_bytes ch ++ 58 :: str_bytes (Z_to_string (category_number c)) ++ [58].
Proof. unfold category_index_prefix. by rewrite !str_bytes_app. Qed.

Lemma creator_prefix_bytes c ch :
  str_bytes (creator_index_prefix c ch) =
  str_bytes "creator" ++ 58 :: str_bytes c ++ 58 :: str_bytes ch ++ [58].
Proof. unfold creator_index_prefix. rewrite !str_bytes_app. done. Qed.

(** What a key of the index under the prefix of a category is. *)
Lemma category_key_prefix h ch c r :
  plain_header h -> colon_free ch ->
  category_index_key h = str_bytes (category_index_prefix ch c) ++ r ->
  eh_challenge_id h = ch /\ eh_category h = c /\ r = str_bytes (eh_key h).
Proof.
  intros (Hh & _ & _) Hch. unfold category_index_key. rewrite str_bytes_app, !index_prefix_bytes.
  rewrite <- !app_assoc. cbn [app]. rewrite <- !app_assoc. cbn [app]. intros Heq.
  apply app_sep_inj in Heq as [Hc Heq]; [|done..].
  apply app_sep_inj in Heq as [Hn Heq]; [|apply category_number_plain..].
  split; [by apply str_bytes_inj|]. split; [by apply category_number_inj|done].
Qed.

Lemma creator_key_prefix h ch c r :
  colon_free ch -> ch <> "creator"%string ->
  creator_index_key h <> str_bytes (category_index_prefix ch c) ++ r.
Proof.
  intros Hch Hne. unfold creator_index_key. rewrite str_bytes_app, creator_prefix_bytes, index_prefix_bytes.
  rewrite <- !app_assoc. cbn [app]. intros Heq.
  apply app_sep_inj in Heq as [Hc _]; [|by apply (bool_decide_unpack _); vm_compute|done].
  by apply str_bytes_inj in Hc as <-.
Qed.

Lemma category_key_ne_creator h h' : plain_header h -> category_index_key h <> creator_index_key h'.
Proof.
  intros (Hc & Hne & _) Heq. symmetry in Heq. unfold category_index_key in Heq.
  rewrite str_bytes_app in Heq. by eapply creator_key_prefix in Heq.
Qed.

Lemma category_key_inj h h' :
  plain_header h -> plain_header h' -> category_index_key h = category_index_key h' ->
  eh_key h = eh_key h'.
Proof.
  intros Hh Hh' Heq. destruct (category_key_prefix h (eh_challenge_id h') (eh_category h')
    (str_bytes (eh_key h')) Hh (proj1 Hh')) as (_ & _ & Hk).
  { rewrite Heq. unfold category_index_key. by rewrite str_bytes_app. }
  by apply str_bytes_inj in Hk.
Qed.

Lemma build_key_app c ch k : build_key c ch k = build_key c ch "" ++ str_bytes k.
Proof. unfold build_key. by rewrite <- !app_assoc. Qed.

Lemma build_key_prefix c ch c' ch' k r :
  colon_free ch -> colon_free ch' -> build_key c ch k = build_key c' ch' "" ++ r ->
  c = c' /\ ch = ch' /\ r = str_bytes k.
Proof.
  unfold build_key. intros Hch Hch'. rewrite <- !app_assoc. intros Heq.
  apply app_inj_1 in Heq as [Hc Heq]; [|by destruct c, c']. apply category_prefix_inj in Hc as ->.
  apply app_sep_inj in Heq as [Hc Heq]; [|done..]. apply str_bytes_inj in Hc as ->. done.
Qed.

(** *** Writing an entry *)

Lemma plain_entry_commit op : plain_entry (wo_entry op) -> plain_entry (committed_entry op).
Proof. done. Qed.

Lemma to_bytes_readable `{!ConsensusCodecLaws} e :
  entry_fits e -> exists b, to_bytes e = Ok b /\ from_bytes b = Ok e.
Proof.
  intros Hfit. destruct (encode_stored_size e) as (b & Hb & Hlen). exists b.
  unfold to_bytes, from_bytes. rewrite Hb, (decode_encode_stored e b); [done|done|].
  unfold entry_fits in Hfit. lia.
Qed.

Definition spec_write (e : StoredEntry) (a : Spec) : Spec :=
  mk_Spec (<[storage_key e := e]> (sp_table a)) (sp_pending a) (sp_block a) (sp_total a) (sp_our a).

Lemma represents_write s a e b now :
  represents s a -> plain_entry e -> from_bytes b = Ok e ->
  represents (on_entry_cache (<[storage_key e := (e, now)]>)
    (on_trees (fun d => d) (update_indexes (en_header e))
      (on_trees (<[storage_key e := b]>) (fun i => i) s))) (spec_write e a).
Proof.
  intros [] He Hb. split; cbn [on_entry_cache on_trees spec_write ds_data_tree ds_index_tree ds_cache
    ds_pending_ops ds_current_block ds_total_validators ds_our_validator sp_table sp_pending sp_block
    sp_total sp_our]; try done.
  - intros k. destruct (decide (k = storage_key e)) as [->|Hne].
    + rewrite !lookup_insert_eq. eauto.
    + rewrite !lookup_insert_ne by done. apply rep_data0.
  - intros k e' t Hl. apply lookup_insert_Some in Hl as [[<- [= <- <-]]|[Hne Hl]].
    + by rewrite lookup_insert_eq.
    + rewrite lookup_insert_ne by done. eauto.
  - intros k e' Hl. apply lookup_insert_Some in Hl as [[<- <-]|[Hne Hl]]; [done|]. by apply rep_keys0.
  - assert (Hother : forall h, plain_header h ->
      (update_indexes (en_header e) (ds_index_tree s) !! category_index_key h = Some (str_bytes (eh_key h)) <->
       category_index_key h = category_index_key (en_header e) \/
       ds_index_tree s !! category_index_key h = Some (str_bytes (eh_key h)))).
    { intros h Hh. unfold update_indexes. fold (creator_index_key (en_header e)) (category_index_key (en_header e)).
      rewrite lookup_insert_ne by (symmetry; by apply category_key_ne_creator).
      destruct (decide (category_index_key (en_header e) = category_index_key h)) as [Heq|Hne].
      - rewrite <- Heq, lookup_insert_eq. rewrite (category_key_inj _ h (proj2 He) Hh Heq). naive_solver.
      - rewrite lookup_insert_ne by done. naive_solver. }
    intros k e' Hl. apply lookup_insert_Some in Hl as [[<- <-]|[Hne Hl]]; apply Hother.
    + by destruct He.
    + by left.
    + by apply rep_keys0 in Hl as [_ [_ ?]].
    + right. eauto.
  - intros ik v Hl. unfold update_indexes in Hl.
    apply lookup_insert_Some in Hl as [[<- <-]|[_ Hl]]; [|apply lookup_insert_Some in Hl as [[<- <-]|[_ Hl]]].
    + exists (en_header e). destruct He as [_ He]. eauto.
    + exists (en_header e). destruct He as [_ He]. eauto.
    + eauto.
Qed.

Lemma write_direct_refines `{!ConsensusCodecLaws} now e s a :
  represents s a -> plain_entry e ->
  exists s', write_direct now e s = (Ok tt, s') /\ represents s' (spec_write e a).
Proof.
  intros Hrep He. destruct (to_bytes_readable e (proj1 He)) as (b & Hb & Hd).
  unfold write_direct, mbind, SE_bind, lift, modify. rewrite Hb. eexists. split; [reflexivity|].
  by apply represents_write.
Qed.

Lemma commit_write_refines `{!ConsensusCodecLaws} now op s a :
  represents s a -> plain_entry (wo_entry op) ->
  exists s', commit_write now op s = (Ok tt, s') /\ represents s' (spec_commit op a).
Proof.
  intros Hrep He%plain_entry_commit.
  destruct (to_bytes_readable (committed_entry op) (proj1 He)) as (b & Hb & Hd).
  unfold commit_write, mbind, SE_bind, lift, modify. fold (committed_entry op). rewrite Hb.
  eexists. split; [reflexivity|]. apply represents_stats. by apply represents_write.
Qed.

(** *** Reading *)

Lemma ds_get_refines now c ch k s a :
  represents s a ->
  exists s', ds_get now c ch k s = (Ok (sp_table a !! build_key c ch k), s') /\ represents s' a.
Proof.
  intros Hrep. unfold ds_get, mbind, SE_bind, get_state, modify, lift.
  destruct (match ds_cache s !! build_key c ch k with
            | Some (entry, cached_at) =>
                if elapsed_secs now cached_at <? ds_cache_ttl_secs s then Some entry else None
            | None => None end) as [e|] eqn:Hhit.
  - destruct (ds_cache s !! build_key c ch k) as [[e' t]|] eqn:Hc; [|done].
    destruct (_ <? _); [|done]. injection Hhit as ->. rewrite (rep_cache _ _ Hrep _ _ _ Hc).
    eexists. split; [reflexivity|]. by apply represents_stats.
  - pose proof (rep_data _ _ Hrep (build_key c ch k)) as Hd.
    destruct (sp_table a !! build_key c ch k) as [e|] eqn:Hm.
    + destruct Hd as (b & -> & ->). eexists. split; [reflexivity|].
      apply represents_cache; [by apply represents_stats|done].
    + rewrite Hd. eexists. split; [reflexivity|]. by apply represents_stats.
Qed.

(** The loop looks up each key of the index until it has enough. *)
Lemma list_loop_refines now c ch limit items results s a :
  represents s a ->
  exists s', list_category_loop now c ch limit items results s =
    (Ok (results ++ take (limit - length results)
           (omap (fun x => sp_table a !! build_key c ch (index_text x.2)) items)), s') /\
    represents s' a.
Proof.
  revert results s. induction items as [|[ik v] items IH]; intros results s Hrep; cbn [list_category_loop].
  { exists s. cbn [omap list_omap]. by rewrite take_nil, app_nil_r. }
  destruct (Nat.leb_spec limit (length results)) as [Hle|Hlt].
  { exists s. replace (limit - length results)%nat with 0%nat by lia. by rewrite take_0, app_nil_r. }
  destruct (ds_get_refines now c ch (index_text v) s a Hrep) as (s1 & Hget & Hrep1).
  unfold mbind, SE_bind. rewrite Hget. cbn [omap list_omap snd].
  destruct (sp_table a !! build_key c ch (index_text v)) as [e|].
  - destruct (IH (results ++ [e]) s1 Hrep1) as (s2 & -> & Hrep2). exists s2. split; [|done].
    rewrite length_app. cbn [length]. replace (limit - length results)%nat with (S (limit - (length results + 1))) by lia.
    by rewrite <- app_assoc.
  - destruct (IH results s1 Hrep1) as (s2 & -> & Hrep2). by exists s2.
Qed.

#[local] Instance key_lt_trans {V} : Transitive (@key_lt V).
Proof. intros x y z. apply bytes_lt_trans. Qed.

(** The keys the index holds for a category. *)
Lemma index_items s a c ch ik v :
  represents s a -> colon_free ch -> ch <> "creator"%string ->
  (ik, v) ∈ tree_scan_prefix (str_bytes (category_index_prefix ch c)) (ds_index_tree s) ->
  ik = str_bytes (category_index_prefix ch c) ++ v /\ build_key c ch (index_text v) = build_key c ch "" ++ v.
Proof.
  intros Hrep Hch Hne [Hl [r ->]]%elem_of_tree_scan_prefix.
  destruct (rep_indexed _ _ Hrep _ _ Hl) as (h & Hh & -> & [Heq|Heq]).
  - symmetry in Heq. destruct (category_key_prefix h ch c r Hh Hch Heq) as (_ & _ & ->).
    split; [done|]. unfold index_text. rewrite utf8_lossy_valid by apply Hh.
    by rewrite bytes_str_bytes, build_key_app.
  - by destruct (creator_key_prefix h ch c r Hch Hne).
Qed.

(** The index finds what a scan of the data would. *)
Lemma index_is_scan s a c ch :
  represents s a -> colon_free ch -> ch <> "creator"%string ->
  omap (fun x => sp_table a !! build_key c ch (index_text x.2))
    (tree_scan_prefix (str_bytes (category_index_prefix ch c)) (ds_index_tree s)) =
  category_entries c ch (sp_table a).
Proof.
  intros Hrep Hch Hne. set (items := tree_scan_prefix _ (ds_index_tree s)).
  set (f := fun x : bytes * bytes => (fun e => (build_key c ch "" ++ x.2, e)) <$> sp_table a !! (build_key c ch "" ++ x.2)).
  assert (Hscan : omap f items = tree_scan_prefix (build_key c ch "") (sp_table a)).
  { apply (sorted_same_elements key_lt).
    - intros [k e]. apply bytes_lt_irrefl.
    - apply (omap_sorted key_lt); [|apply tree_scan_prefix_sorted].
      intros [i1 v1] [i2 v2] [k1 e1] [k2 e2] H1 H2 Hlt Hf1 Hf2.
      destruct (index_items s a c ch i1 v1 Hrep Hch Hne H1) as [-> _].
      destruct (index_items s a c ch i2 v2 Hrep Hch Hne H2) as [-> _].
      unfold f in Hf1, Hf2. cbn [snd] in Hf1, Hf2.
      apply fmap_Some in Hf1 as (? & _ & [= -> ->]). apply fmap_Some in Hf2 as (? & _ & [= -> ->]).
      unfold key_lt, bytes_lt in Hlt |- *. cbn [fst] in Hlt |- *. by rewrite bytes_compare_app in Hlt |- *.
    - apply tree_scan_prefix_sorted.
    - intros [k e]. rewrite list_elem_of_omap, elem_of_tree_scan_prefix. unfold f. split.
      + intros ([i v] & _ & (? & Hl & [= -> ->])%fmap_Some). eauto.
      + intros [Hl [r ->]]. destruct (rep_keys _ _ Hrep _ _ Hl) as [Hk [_ Hp]].
        destruct (build_key_prefix _ _ _ _ _ _ (proj1 Hp) Hch Hk) as (Hc & Hc' & ->).
        exists (category_index_key (en_header e), str_bytes (eh_key (en_header e))). split.
        * apply elem_of_tree_scan_prefix. split; [by eapply rep_index|].
          exists (str_bytes (eh_key (en_header e))). unfold category_index_key. by rewrite str_bytes_app, Hc, Hc'.
        * cbn [snd]. by rewrite Hl. }
  unfold category_entries. rewrite <- Hscan.
  assert (Hin : forall x, x ∈ items -> x.2 = x.2 -> build_key c ch (index_text x.2) = build_key c ch "" ++ x.2).
  { intros [i v] Hx _. by destruct (index_items s a c ch i v Hrep Hch Hne Hx). }
  clear Hscan. induction items as [|x l IH]; [done|]. cbn [omap list_omap].
  rewrite (Hin x) by (done || left). unfold f at 1.
  rewrite IH by (intros; apply Hin; [by right|done]).
  by destruct (sp_table a !! (build_key c ch "" ++ x.2)).
Qed.

(** *** Cleaning up *)

Lemma elem_of_expired_data s a block k :
  represents s a ->
  k ∈ expired_data_keys block (ds_data_tree s) <->
  exists e, sp_table a !! k = Some e /\ entry_is_expired block e = true.
Proof.
  intros Hrep. unfold expired_data_keys. rewrite list_elem_of_omap. split.
  - intros ([k' b] & Hin%elem_of_tree_iter & Hk). pose proof (rep_data _ _ Hrep k') as Hd.
    destruct (sp_table a !! k') as [e|] eqn:Hm; [|congruence].
    destruct Hd as (b' & Hb & Hdec). rewrite Hin in Hb. injection Hb as <-. rewrite Hdec in Hk.
    destruct (entry_is_expired block e) eqn:Hex; [|done]. injection Hk as <-. eauto.
  - intros (e & Hm & Hex). pose proof (rep_data _ _ Hrep k) as Hd. rewrite Hm in Hd.
    destruct Hd as (b & Hb & Hdec). exists (k, b). split; [by apply elem_of_tree_iter|]. by rewrite Hdec, Hex.
Qed.

Lemma expired_data_NoDup block t : NoDup (expired_data_keys block t).
Proof.
  apply omap_keys_NoDup. intros [k b] k'. destruct (from_bytes b) as [e|]; [|done].
  destruct (entry_is_expired block e); [|done]. by intros [= <-].
Qed.

Lemma live_lookup (block : Z) (m : EntryTable) k e :
  filter (fun '(_, e) => entry_is_expired block e = false) m !! k = Some e <->
  m !! k = Some e /\ entry_is_expired block e = false.
Proof. by rewrite map_lookup_filter_Some. Qed.

Lemma cleanup_refines now s a :
  represents s a ->
  (cleanup_expired now s).1 = (spec_cleanup a).1 /\
  represents (cleanup_expired now s).2 (spec_cleanup a).2.
Proof.
  intros Hrep. unfold cleanup_expired, spec_cleanup. cbn [fst snd].
  rewrite (rep_block _ _ Hrep). set (bl := sp_block a). set (ex := expired_data_keys bl (ds_data_tree s)).
  assert (Hex : forall k, k ∈ ex <-> exists e, sp_table a !! k = Some e /\ entry_is_expired bl e = true)
    by (intros k; by apply elem_of_expired_data).
  split.
  { rewrite <- (size_dom (D := gset bytes)).
    rewrite <- (size_list_to_set (C := gset bytes) ex) by apply expired_data_NoDup.
    f_equal. apply set_eq. intros k. rewrite elem_of_list_to_set, elem_of_dom, Hex. unfold is_Some.
    by setoid_rewrite map_lookup_filter_Some. }
  destruct Hrep as [Hd Hc Hp Hb Ht Ho Hk Hpl Hi His].
  split; cbn [on_entry_cache on_trees on_pending ds_data_tree ds_index_tree ds_cache ds_pending_ops
    ds_current_block ds_total_validators ds_our_validator sp_table sp_pending sp_block sp_total sp_our
    ds_cache_ttl_secs]; try done.
  - intros k. unfold delete_keys. rewrite delete_all_lookup. specialize (Hd k).
    destruct (sp_table a !! k) as [e|] eqn:Hm.
    + destruct (entry_is_expired bl e) eqn:Hexp.
      * rewrite (proj2 (eq_None_not_Some _)).
        { rewrite decide_True; [done|]. apply Hex. eauto. }
        intros [e' [He' ?]%live_lookup]. congruence.
      * rewrite (proj2 (live_lookup bl _ k e)) by done. rewrite decide_False; [done|].
        intros (e' & He' & ?)%Hex. congruence.
    + rewrite (proj2 (eq_None_not_Some _)). { by case_decide. }
      intros [e' [He' ?]%live_lookup]. congruence.
  - intros k e t Hl. apply map_lookup_filter_Some in Hl as [Hl [Hlive _]].
    unfold delete_keys in Hl. rewrite delete_all_lookup in Hl. case_decide as Hin; [done|].
    apply live_lookup. split; [by eapply Hc|done].
  - by rewrite Hp.
  - intros k e [Hl _]%live_lookup. by apply Hk.
  - intros id op [Hl _]%map_lookup_filter_Some. by eapply Hpl.
  - intros k e [Hl _]%live_lookup. by eapply Hi.
Qed.

(** *** Proposals and votes *)

Lemma submit_refines `{!ConsensusCodecLaws} now e s a :
  represents s a -> plain_entry e ->
  exists s', submit_op now (ds_total_validators s) (WriteOp_new e (ds_our_validator s) (ds_current_block s)) s =
    (Ok (spec_propose e a).1, s') /\ represents s' (spec_propose e a).2.
Proof.
  intros Hrep He. unfold spec_propose. cbn [fst snd].
  rewrite (rep_total _ _ Hrep), (rep_our _ _ Hrep), (rep_block _ _ Hrep). unfold submit_op.
  set (op := WriteOp_new e _ _).
  assert (Hpend : represents (stats_pending (on_pending (<[wo_op_id op := op]>) s))
    (spec_pending (<[wo_op_id op := op]>) a)).
  { apply represents_stats_pending. apply represents_pending; [done|].
    intros id op'. rewrite lookup_insert_Some. intros [[<- <-]|[_ Hl]]; [done|]. by eapply rep_plain. }
  unfold mbind, SE_bind, modify.
  destruct (op_check_consensus (sp_total a) op) as [[]|]; [|eexists; split; [reflexivity|done]..].
  destruct (commit_write_refines now op s a Hrep He) as (s1 & Hcommit & Hrep1). rewrite Hcommit.
  eexists. split; [reflexivity|]. by apply represents_stats.
Qed.

Lemma vote_refines `{!ConsensusCodecLaws} now id v b s a :
  represents s a ->
  (vote_write now id v b s).1 = (spec_vote id v b a).1 /\
  represents (vote_write now id v b s).2 (spec_vote id v b a).2.
Proof.
  intros Hrep. unfold vote_write, spec_vote. rewrite (rep_pending _ _ Hrep).
  destruct (sp_pending a !! id) as [op|] eqn:Hop; [|done].
  cbn [ds_total_validators on_pending]. rewrite (rep_total _ _ Hrep).
  pose proof (rep_plain _ _ Hrep id op Hop) as Hpl.
  assert (Hpl' : plain_entry (wo_entry (op_vote v b op))) by by destruct b.
  assert (Hdel : represents (on_pending (delete id) (on_pending (<[id := op_vote v b op]>) s))
    (spec_pending (delete id) a)).
  { assert (Heq : on_pending (delete id) (on_pending (<[id := op_vote v b op]>) s) = on_pending (delete id) s).
    { unfold on_pending. cbn. by rewrite delete_insert_eq. }
    rewrite Heq. apply represents_pending; [done|]. intros i o [_ Hl]%lookup_delete_Some. by eapply rep_plain. }
  destruct (op_check_consensus (sp_total a) (op_vote v b op)) as [[]|].
  - destruct (commit_write_refines now _ _ _ Hdel Hpl') as (s1 & -> & Hrep1). cbn [fst snd].
    split; [done|]. by apply represents_stats_pending, represents_stats.
  - cbn [fst snd]. split; [done|]. by apply represents_stats_pending, represents_stats.
  - cbn [fst snd]. split; [done|]. apply represents_pending; [done|].
    intros i o. rewrite lookup_insert_Some. intros [[<- <-]|[_ Hl]]; [done|]. by apply (rep_plain _ _ Hrep i).
Qed.

Lemma represents_reopen s a :
  represents s a ->
  represents (open (ds_data_tree s) (ds_index_tree s) (ds_our_validator s)) (mk_Spec (sp_table a) ∅ 0 1 (sp_our a)).
Proof.
  intros []. split; cbn [open ds_cache ds_pending_ops sp_pending sp_table]; try done.
Qed.

(** ** The refinement *)

Lemma store_step_refines `{!ConsensusCodecLaws} `{StoreValue T} now (o : store_op T) s a :
  represents s a -> op_plain o a ->
  (store_step now o s).1 = (spec_step o a).1 /\ represents (store_step now o s).2 (spec_step o a).2.
Proof.
  intros Hrep Ho. destruct o as [c ch k v ttl|id v b|e|c ch k|c ch limit| |block|count|];
    cbn [store_step spec_step op_plain] in *.
  - unfold propose_write, mbind, SE_bind, get_state, lift.
    rewrite <- (rep_our _ _ Hrep), <- (rep_block _ _ Hrep) in Ho |- *.
    destruct (StoredEntry_new c ch k v _ _ ttl) as [e|x]; [|done].
    destruct (submit_refines now e s a Hrep (Ho e eq_refl)) as (s1 & -> & Hrep1).
    by destruct (spec_propose e a).
  - destruct (vote_refines now id v b s a Hrep) as [Hd Hrep1].
    destruct (vote_write now id v b s), (spec_vote id v b a). cbn [fst snd] in *. by subst.
  - by destruct (write_direct_refines now e s a Hrep Ho) as (s1 & -> & Hrep1).
  - by destruct (ds_get_refines now c ch k s a Hrep) as (s1 & -> & Hrep1).
  - destruct Ho as [Hch Hne]. unfold list_by_category. unfold mbind, SE_bind, get_state.
    edestruct (list_loop_refines now c ch limit
      (tree_scan_prefix (str_bytes (category_index_prefix ch c)) (ds_index_tree s)) [] s a Hrep)
      as (s1 & -> & Hrep1). cbn [length]. rewrite Nat.sub_0_r, (index_is_scan s a c ch Hrep Hch Hne). done.
  - destruct (cleanup_refines now s a Hrep) as [Hn Hrep1].
    destruct (cleanup_expired now s), (spec_cleanup a). cbn [fst snd] in *. by subst.
  - split; [done|]. by destruct Hrep.
  - split; [done|]. by destruct Hrep.
  - split; [done|]. by apply represents_reopen.
Qed.

(** A run, each operation at its own time. *)
Fixpoint store_run `{StoreValue T} (ops : list (Z * store_op T)) (s : DistributedStorage) : list store_answer :=
  match ops with
  | [] => []
  | (now, o) :: rest => let '(x, s') := store_step now o s in x :: store_run rest s'
  end.
Fixpoint spec_run `{StoreValue T} (ops : list (Z * store_op T)) (a : Spec) : list store_answer :=
  match ops with
  | [] => []
  | (_, o) :: rest => let '(x, a') := spec_step o a in x :: spec_run rest a'
  end.
Fixpoint ops_plain `{StoreValue T} (ops : list (Z * store_op T)) (a : Spec) : Prop :=
  match ops with
  | [] => True
  | (_, o) :: rest => op_plain o a /\ ops_plain rest (spec_step o a).2
  end.

Lemma represents_empty our : represents (open ∅ ∅ our) (mk_Spec ∅ ∅ 0 1 our).
Proof. by split. Qed.

End spec.
