(* ===== verification/ConsensusStoreVotes.v ===== *)
(** * Votes, sizes and keys of the storage written by consensus

    Half of the validators decide an operation: every operation all of them
    voted on is decided, but two such halves need not intersect.  What a
    validator writes alone can be read back.  The identifiers of operations and
    the keys some queries build do not tell apart what they should. *)

From Stdlib Require Import Ascii.
From S2P Require Import Prelude Float64 Crypto RustStrings RustBytes ConsensusStore ConsensusStoreProps.

(** ** Half of the validators *)

Lemma required_is_half (n : nat) : (n <= 1024)%nat -> required_votes (Z.of_nat n) = Z.of_nat (Nat.div2 (S n)).
Proof. apply half_rounded_up. Qed.

Lemma check_yes n op :
  (n <= 1024)%nat ->
  op_check_consensus (Z.of_nat n) op = Some true <-> (Nat.div2 (S n) <= size (wo_votes_yes op))%nat.
Proof.
  intros Hn. unfold op_check_consensus. rewrite required_is_half by done.
  destruct (Z.leb_spec (Z.of_nat (Nat.div2 (S n))) (Z.of_nat (size (wo_votes_yes op)))).
  - split; [lia|done].
  - destruct (_ <=? _); split; first [done|lia].
Qed.

Lemma check_undecided n op :
  (n <= 1024)%nat ->
  op_check_consensus (Z.of_nat n) op = None <->
  (size (wo_votes_yes op) < Nat.div2 (S n))%nat /\ (size (wo_votes_no op) < Nat.div2 (S n))%nat.
Proof.
  intros Hn. unfold op_check_consensus. rewrite required_is_half by done.
  destruct (Z.leb_spec (Z.of_nat (Nat.div2 (S n))) (Z.of_nat (size (wo_votes_yes op)))).
  { split; [done|lia]. }
  destruct (Z.leb_spec (Z.of_nat (Nat.div2 (S n))) (Z.of_nat (size (wo_votes_no op)))); split; first [done|lia].
Qed.

Lemma div2_half (n : nat) : (n <= 2 * Nat.div2 (S n) <= S n)%nat.
Proof. destruct (Nat.Even_or_Odd n) as [[k ->]|[k ->]].
  - replace (S (2 * k)) with (2 * k + 1)%nat by lia. rewrite Nat.div2_odd'. lia.
  - replace (S (2 * k + 1)) with (2 * (k + 1))%nat by lia. rewrite Nat.div2_double. lia.
Qed.

(** An operation with the given votes in favour. *)
Definition op_with_votes (op : WriteOp) (yes : gset string) : WriteOp :=
  mk_WriteOp (wo_op_id op) (wo_entry op) (wo_initiator op) (wo_proposed_block op) yes (wo_votes_no op)
    (wo_committed op).

Lemma split_even (V : gset string) k :
  size V = (k + k)%nat -> exists A B, A ## B /\ A ⊆ V /\ B ⊆ V /\ size A = k /\ size B = k.
Proof.
  intros Hs. pose proof (NoDup_elements V) as Hnd.
  assert (Hlen : length (elements V) = (k + k)%nat) by (unfold size, set_size in Hs; done).
  rewrite <- (take_drop k (elements V)) in Hnd. apply NoDup_app in Hnd as (Ha & Hdisj & Hb).
  exists (list_to_set (take k (elements V))), (list_to_set (drop k (elements V))).
  split; [|split; [|split; [|split]]].
  - intros x. rewrite !elem_of_list_to_set. apply Hdisj.
  - intros x. rewrite elem_of_list_to_set. intros Hx. apply elem_of_elements. by eapply subseteq_take.
  - intros x. rewrite elem_of_list_to_set. intros Hx. apply elem_of_elements. by eapply subseteq_drop.
  - rewrite size_list_to_set by done. rewrite length_take. lia.
  - rewrite size_list_to_set by done. rewrite length_drop. lia.
Qed.

(** Any two approving sets of voters of the same network intersect exactly when
    the number of validators is odd: with an even number, two disjoint halves
    can approve two conflicting writes. *)
Theorem approvals_intersect_iff_odd (V : gset string) (op : WriteOp) :
  (size V <= 1024)%nat ->
  (forall A B, A ⊆ V -> B ⊆ V ->
     op_check_consensus (Z.of_nat (size V)) (op_with_votes op A) = Some true ->
     op_check_consensus (Z.of_nat (size V)) (op_with_votes op B) = Some true -> ~ A ## B) <->
  Nat.Odd (size V).
Proof.
  intros Hn. split.
  - intros Hall. destruct (Nat.Even_or_Odd (size V)) as [[k Hk]|]; [exfalso|done].
    destruct (split_even V k) as (A & B & Hd & HA & HB & Ha & Hb); [lia|].
    assert (Hhalf : Nat.div2 (S (size V)) = k).
    { rewrite Hk. replace (S (2 * k)) with (2 * k + 1)%nat by lia. apply Nat.div2_odd'. }
    apply (Hall A B HA HB); [..|done]; apply check_yes; try done; rewrite Hhalf; cbn [op_with_votes wo_votes_yes]; lia.
  - intros [k Hk] A B HA HB Ha%check_yes Hb%check_yes Hd; [|done..]. cbn [op_with_votes wo_votes_yes] in *.
    assert (Hsz : (size (A ∪ B) <= size V)%nat) by (apply subseteq_size; set_solver).
    rewrite size_union in Hsz by done. pose proof (div2_half (size V)).
    assert (Nat.div2 (S (size V)) = S k).
    { rewrite Hk. replace (S (2 * k + 1)) with (2 * (k + 1))%nat by lia. rewrite Nat.div2_double. lia. }
    lia.
Qed.

(** ** Every operation is decided *)

Definition voters (op : WriteOp) : gset string := wo_votes_yes op ∪ wo_votes_no op.

Lemma voters_vote v b op : voters (op_vote v b op) = {[v]} ∪ voters op.
Proof.
  unfold voters, op_vote. destruct b; cbn [wo_votes_yes wo_votes_no]; apply set_eq; intros x;
    rewrite ?elem_of_union, ?elem_of_difference, ?elem_of_singleton; destruct (decide (x = v)); tauto.
Qed.

Lemma many_voters_decide n op :
  (n <= 1024)%nat -> (n <= size (voters op))%nat -> (0 < n)%nat -> op_check_consensus (Z.of_nat n) op <> None.
Proof.
  intros Hn Hv Hpos [Hy Hno]%check_undecided; [|done].
  assert (size (voters op) <= size (wo_votes_yes op) + size (wo_votes_no op))%nat.
  { unfold voters. rewrite size_union_alt.
    assert (size (wo_votes_no op ∖ wo_votes_yes op) <= size (wo_votes_no op))%nat
      by (apply subseteq_size; set_solver). lia. }
  pose proof (div2_half n). lia.
Qed.

Section liveness.
Context `{Ext : External} `{Codec : ConsensusCodec}.

Definition vote_all (now : Z) (id : bytes) (votes : list (string * bool)) (s : DistributedStorage) :
    DistributedStorage :=
  fold_left (fun s '(v, b) => (vote_write now id v b s).2) votes s.

(** What one vote leaves of a pending operation. *)
Lemma vote_pending now id v b s :
  let s' := (vote_write now id v b s).2 in
  ds_total_validators s' = ds_total_validators s /\
  forall op', ds_pending_ops s' !! id = Some op' ->
    exists op, ds_pending_ops s !! id = Some op /\ op' = op_vote v b op /\
      op_check_consensus (ds_total_validators s) op' = None.
Proof.
  unfold vote_write. destruct (ds_pending_ops s !! id) as [op|] eqn:Hop.
  2: { cbn [snd]. split; [done|]. intros op'. by rewrite Hop. }
  cbn [on_pending ds_total_validators].
  destruct (op_check_consensus (ds_total_validators s) (op_vote v b op)) as [[]|] eqn:Hc.
  - unfold commit_write, mbind, SE_bind, lift, modify. destruct (to_bytes _); cbn; (split; [done|]);
      intros op'; by rewrite lookup_delete_eq.
  - cbn. split; [done|]. intros op'. by rewrite lookup_delete_eq.
  - cbn. split; [done|]. intros op'. rewrite lookup_insert_eq. intros [= <-]. by exists op.
Qed.

Lemma vote_all_pending now id votes s op' :
  ds_pending_ops (vote_all now id votes s) !! id = Some op' ->
  (list_to_set votes.*1 : gset string) ⊆ voters op' /\
  ds_total_validators (vote_all now id votes s) = ds_total_validators s /\
  (votes <> [] -> op_check_consensus (ds_total_validators s) op' = None).
Proof.
  revert op'. induction votes as [|[v b] votes IH] using rev_ind; intros op'.
  { cbn. intros _. split; [set_solver|]. done. }
  unfold vote_all. rewrite fold_left_app. cbn [fold_left]. fold (vote_all now id votes s).
  destruct (vote_pending now id v b (vote_all now id votes s)) as [Ht Hp]. intros Hl.
  destruct (Hp op' Hl) as (op & Hop & -> & Hc). destruct (IH op Hop) as (Hsub & Htot & _).
  rewrite Ht, Htot in *. split; [|done].
  rewrite voters_vote, fmap_app, list_to_set_app. cbn. set_solver.
Qed.

(** Once as many validators as there are have voted on a pending operation, in
    any order and whatever they answered, it is no longer pending: it was
    committed or rejected. *)
Theorem full_vote_decides (now : Z) (id : bytes) (votes : list (string * bool)) (s : DistributedStorage) (n : nat) :
  (0 < n <= 1024)%nat -> ds_total_validators s = Z.of_nat n ->
  NoDup votes.*1 -> (n <= length votes)%nat ->
  ds_pending_ops (vote_all now id votes s) !! id = None.
Proof.
  intros Hn Ht Hnd Hlen. destruct (ds_pending_ops (vote_all now id votes s) !! id) as [op|] eqn:Hop; [exfalso|done].
  destruct (vote_all_pending now id votes s op Hop) as (Hsub & _ & Hc).
  rewrite Ht in Hc. eapply many_voters_decide; [| | |apply Hc].
  - lia.
  - apply subseteq_size in Hsub. rewrite size_list_to_set, length_fmap in Hsub by done. lia.
  - lia.
  - intros ->. cbn in Hlen. lia.
Qed.
End liveness.

(** ** Writing and reading back *)

Section roundtrip.
Context `{Ext : External} `{!ExternalLaws} `{Codec : ConsensusCodec} `{!ConsensusCodecLaws}.

(** The room the size limits leave for the texts of a header. *)
Definition header_room : Z := MAX_STORED_ENTRY_SIZE - MAX_COMPRESSED_SIZE - 129.

(** The limits of an entry are consistent: a value accepted at 5 MB compressed is
    under the 6 MB that can be read back, as long as challenge id, key and
    creator together take no more than 1 MB less 129 bytes. *)
Theorem accepted_entry_fits `{StoreValue T} (c : Category) (ch key : string) (v : T) (creator : string)
    (block : Z) (ttl : option Z) (e : StoredEntry) :
  StoredEntry_new c ch key v creator block ttl = Ok e ->
  Z.of_nat (String.length ch) + Z.of_nat (String.length key) + Z.of_nat (String.length creator) <= header_room ->
  entry_fits e.
Proof.
  unfold StoredEntry_new. unfold mbind, result_bind.
  destruct (value_to_bincode v) as [raw|]; [|done]. cbn [result_map_err].
  destruct (Z.ltb_spec MAX_RAW_SIZE (Z.of_nat (length raw))); [done|].
  destruct (Z.ltb_spec MAX_COMPRESSED_SIZE (Z.of_nat (length (compress_prepend_size raw)))); [done|].
  intros [= <-] Hroom. unfold entry_fits, stored_size, str_size, acks_size, header_room in *.
  cbn [en_header eh_challenge_id eh_key eh_creator eh_value_hash eh_acks en_compressed_value].
  rewrite sha256_length, elements_empty. cbn [foldr]. lia.
Qed.

(** What a new entry holds can be taken out again. *)
Lemma decompress_new `{StoreValue T} `{!StoreValueLaws T} c ch key (v : T) creator block ttl e b :
  StoredEntry_new c ch key v creator block ttl = Ok e ->
  decompress (mk_StoredEntry (set_acks (eh_acks (en_header e)) b (en_header e)) (en_compressed_value e)) = Ok v /\
  verify e = true /\ storage_key e = build_key c ch key.
Proof.
  unfold StoredEntry_new. unfold mbind, result_bind.
  destruct (value_to_bincode v) as [raw|] eqn:Hv; [|done]. cbn [result_map_err].
  destruct (Z.ltb_spec MAX_RAW_SIZE (Z.of_nat (length raw))) as [|Hraw]; [done|].
  destruct (Z.ltb_spec MAX_COMPRESSED_SIZE (Z.of_nat (length (compress_prepend_size raw)))); [done|].
  intros [= <-]. unfold decompress, decompress_raw, verify, storage_key.
  cbn [en_header eh_raw_size set_acks en_compressed_value eh_value_hash eh_category eh_challenge_id eh_key].
  rewrite decompress_compress. unfold mbind, result_bind. cbn [result_map_err].
  rewrite Z.mod_small by (unfold MAX_RAW_SIZE in Hraw; lia). rewrite Z.eqb_refl.
  rewrite (value_roundtrip v raw) by done. split; [done|]. split; [by apply bool_decide_eq_true|done].
Qed.

Lemma submit_returns now total op s op' s' : submit_op now total op s = (Ok op', s') -> op' = op.
Proof.
  unfold submit_op, mbind, SE_bind, modify. destruct (op_check_consensus total op) as [[]|];
    [|by intros [= <- _]..]. destruct (commit_write now op s) as [[]?]; [by intros [= <- _]|done].
Qed.

(** A validator alone in its network reads back what it writes: the value is
    committed at once, and decompressed from the cache as from the disk, after a
    restart too. *)
Theorem propose_get_roundtrip `{StoreValue T} `{!StoreValueLaws T} (now later : Z) (c : Category)
    (ch key : string) (v : T) (s : DistributedStorage) (a : Spec) (op : WriteOp) (s' : DistributedStorage) :
  represents s a -> ds_total_validators s = 1 ->
  propose_write now c ch key v None s = (Ok op, s') -> plain_entry (wo_entry op) ->
  (get_value later c ch key s').1 = Ok (Some v) /\
  (get_value later c ch key (open (ds_data_tree s') (ds_index_tree s') (ds_our_validator s'))).1 = Ok (Some v).
Proof.
  intros Hrep Htot. unfold propose_write. unfold mbind at 1 2, SE_bind at 1 2, get_state, lift.
  destruct (StoredEntry_new c ch key v _ _ None) as [e|] eqn:He; [|done]. intros Hsub Hplain.
  assert (Hop : op = WriteOp_new e (ds_our_validator s) (ds_current_block s)).
  { by apply submit_returns in Hsub. }
  assert (Hpe : plain_entry e) by (rewrite Hop in Hplain; exact Hplain).
  destruct (submit_refines now e s a Hrep Hpe) as (s1 & Hsub1 & Hrep1). rewrite Hsub1 in Hsub.
  injection Hsub as _ <-. unfold spec_propose in Hrep1. cbn [snd] in Hrep1.
  rewrite <- (rep_total _ _ Hrep), Htot in Hrep1.
  replace (op_check_consensus 1 (WriteOp_new e (sp_our a) (sp_block a))) with (Some true) in Hrep1.
  2: { unfold op_check_consensus, WriteOp_new. cbn [wo_votes_yes]. rewrite size_singleton. by vm_compute. }
  destruct (decompress_new c ch key v _ _ None e true He) as (Hdec & _ & Hkey).
  assert (Hget : forall s2 a2, represents s2 a2 ->
    sp_table a2 = sp_table (spec_commit (WriteOp_new e (sp_our a) (sp_block a)) a) ->
    (get_value later c ch key s2).1 = Ok (Some v)).
  { intros s2 a2 Hrep2 Ht. unfold get_value, mbind, SE_bind.
    destruct (ds_get_refines later c ch key s2 a2 Hrep2) as (s3 & -> & _). rewrite Ht. cbn [spec_commit sp_table].
    replace (storage_key (committed_entry _)) with (build_key c ch key) by done.
    rewrite lookup_insert_eq. unfold lift. unfold committed_entry, mark_committed. cbn [wo_entry WriteOp_new].
    by rewrite Hdec. }
  split; [by eapply Hget|]. eapply Hget; [by apply represents_reopen|done].
Qed.
End roundtrip.

(** ** Two ways of building keys

    Entries are stored under the prefix of their category; the checks before a
    validated write and the root of a challenge look under the challenge
    first. *)

Section keys.
Context `{Ext : External} `{Codec : ConsensusCodec}.
Implicit Types (s : DistributedStorage) (a : Spec).

(** The text of a UUID, for instance. *)
Definition plain_challenge (ch : string) : Prop := colon_free ch /\ (4 <= String.length ch)%nat.

Lemma length_str_bytes t : length (str_bytes t) = String.length t.
Proof. unfold str_bytes. rewrite length_fmap. induction t as [|x t IH]; [done|]. cbn. by rewrite IH. Qed.

Lemma no_data_under s a ch r :
  represents s a -> plain_challenge ch -> ds_data_tree s !! (str_bytes ch ++ r) = None.
Proof.
  intros Hrep [Hc Hlen]. pose proof (rep_data _ _ Hrep (str_bytes ch ++ r)) as Hd.
  destruct (sp_table a !! (str_bytes ch ++ r)) as [e|] eqn:Hm; [exfalso|done].
  destruct (rep_keys _ _ Hrep _ _ Hm) as [Hk _]. unfold storage_key, build_key in Hk.
  apply Hc. rewrite <- length_str_bytes in Hlen.
  assert (H58 : (str_bytes ch ++ r) !! 3%nat = Some 58) by (rewrite <- Hk; by destruct (eh_category _)).
  rewrite lookup_app_l in H58 by lia. by eapply list_elem_of_lookup_2.
Qed.

Lemma no_scan_under s a ch r :
  represents s a -> plain_challenge ch -> tree_scan_prefix (str_bytes ch ++ r) (ds_data_tree s) = [].
Proof.
  intros Hrep Hch. apply elem_of_nil_inv. intros [k b] [Hl [r' ->]]%elem_of_tree_scan_prefix.
  rewrite <- app_assoc in Hl. by rewrite (no_data_under s a) in Hl.
Qed.

(** A rule that accepts neither updates nor more than [limit] entries. *)
Definition strict_rule (limit : Z) (r : WriteRequestInfo) : WriteValidationResult :=
  if wr_is_update r then Reject "key exists"
  else if limit <=? wr_category_entry_count r then Reject "category full"
  else Accept.

(** The checks a challenge makes before a write see an empty storage: whatever is
    stored, a proposed write is never reported as an update and its category is
    reported empty, so a rule against overwriting or against too many entries
    accepts everything, and the validated proposal is the unvalidated one. *)
Theorem validation_sees_nothing `{StoreValue T} (now : Z) (c : Category) (ch key : string) (v : T)
    (stake limit : Z) (json : bytes) (s : DistributedStorage) (a : Spec) :
  represents s a -> plain_challenge ch -> value_to_json v = Ok json -> 0 < limit ->
  get_raw c ch key s = Ok None /\ count_category ch c s = 0 /\
  propose_write_validated now c ch key v stake (strict_rule limit) s = propose_write now c ch key v None s.
Proof.
  intros Hrep Hch Hj Hlim.
  assert (Hraw : get_raw c ch key s = Ok None).
  { unfold get_raw. rewrite str_bytes_app. by rewrite (no_data_under s a). }
  assert (Hcount : count_category ch c s = 0).
  { unfold count_category. rewrite str_bytes_app. by rewrite (no_scan_under s a). }
  split; [done|]. split; [done|]. unfold propose_write_validated, propose_write.
  unfold mbind, SE_bind, get_state, lift. rewrite Hj. cbn [result_map_err]. rewrite Hraw.
  replace (strict_rule limit _) with Accept; [done|]. unfold strict_rule, write_request.
  cbn [wr_is_update wr_category_entry_count]. rewrite bool_decide_eq_false_2 by (by intros []).
  rewrite Hcount. by rewrite (proj2 (Z.leb_gt _ _)).
Qed.

(** The root of a challenge is the digest of nothing, whatever the challenge
    stores: two validators with different data have the same root. *)
Theorem merkle_root_ignores_data (ch : string) (s1 s2 : DistributedStorage) (a1 a2 : Spec) :
  represents s1 a1 -> represents s2 a2 -> plain_challenge ch ->
  merkle_root ch s1 = sha256 [] /\ merkle_root ch s1 = merkle_root ch s2.
Proof.
  intros H1 H2 Hch. assert (Hroot : forall s a, represents s a -> merkle_root ch s = sha256 []).
  { intros s a Hrep. unfold merkle_root. pose proof (no_scan_under s a ch [] Hrep Hch) as Hnil.
    rewrite app_nil_r in Hnil. by rewrite Hnil. }
  by rewrite (Hroot s1 a1 H1), (Hroot s2 a2 H2).
Qed.

Lemma new_entry_op_id `{StoreValue T} c c' ch key (v : T) creator block ttl e e' :
  StoredEntry_new c ch key v creator block ttl = Ok e ->
  StoredEntry_new c' ch key v creator block ttl = Ok e' ->
  op_id_bytes e block = op_id_bytes e' block /\ eh_category (en_header e) = c.
Proof.
  unfold StoredEntry_new. unfold mbind, result_bind. destruct (value_to_bincode v) as [raw|]; [|done].
  cbn [result_map_err]. destruct (_ <? _); [done|]. destruct (_ <? _); [done|]. by intros [= <-] [= <-].
Qed.

(** A proposal that one vote does not decide waits. *)
Lemma propose_waits `{StoreValue T} now c ch key (v : T) ttl s op s' :
  propose_write now c ch key v ttl s = (Ok op, s') -> 1 < required_votes (ds_total_validators s) ->
  exists e, StoredEntry_new c ch key v (ds_our_validator s) (ds_current_block s) ttl = Ok e /\
    op = WriteOp_new e (ds_our_validator s) (ds_current_block s) /\
    s' = stats_pending (on_pending (<[wo_op_id op := op]>) s).
Proof.
  unfold propose_write, mbind, SE_bind, get_state, lift.
  destruct (StoredEntry_new c ch key v _ _ ttl) as [e|] eqn:He; [|done]. intros Hsub Hreq. exists e.
  pose proof (submit_returns _ _ _ _ _ _ Hsub) as ->. split; [done|]. split; [done|].
  unfold submit_op, mbind, SE_bind, modify in Hsub.
  assert (Hc : op_check_consensus (ds_total_validators s) (WriteOp_new e (ds_our_validator s) (ds_current_block s)) <> Some true).
  { unfold op_check_consensus, WriteOp_new. cbn [wo_votes_yes wo_votes_no]. rewrite size_singleton, size_empty.
    rewrite (proj2 (Z.leb_gt _ _)) by lia. by destruct (_ <=? _). }
  destruct (op_check_consensus _ _) as [[]|]; [done|by injection Hsub..].
Qed.

(** The identifier of an operation leaves out the category: a validator that
    proposes the same value under the same key in two categories during one
    block replaces its first operation by the second, which is lost without a
    decision. *)
Theorem category_not_in_op_id `{StoreValue T} (now now' : Z) (c c' : Category) (ch key : string) (v : T)
    (ttl : option Z) (s s1 s2 : DistributedStorage) (op op' : WriteOp) :
  c <> c' -> 1 < required_votes (ds_total_validators s) ->
  propose_write now c ch key v ttl s = (Ok op, s1) ->
  propose_write now' c' ch key v ttl s1 = (Ok op', s2) ->
  wo_op_id op = wo_op_id op' /\ get_pending_op (wo_op_id op) s2 = Some op' /\
  eh_category (en_header (wo_entry op')) <> c /\
  size (ds_pending_ops s2) = size (ds_pending_ops s1).
Proof.
  intros Hne Hreq H1 H2.
  destruct (propose_waits now c ch key v ttl s op s1 H1 Hreq) as (e & He & Hop & Hs1).
  assert (Hreq' : 1 < required_votes (ds_total_validators s1)) by (by rewrite Hs1).
  destruct (propose_waits now' c' ch key v ttl s1 op' s2 H2 Hreq') as (e' & He' & Hop' & Hs2).
  rewrite Hs1 in He', Hop'. cbn [stats_pending on_stats on_pending ds_our_validator ds_current_block] in He', Hop'.
  destruct (new_entry_op_id c c' ch key v _ _ ttl e e' He He') as [Hid _].
  destruct (new_entry_op_id c' c ch key v _ _ ttl e' e He' He) as [_ Hcat].
  assert (Heq : wo_op_id op = wo_op_id op') by (rewrite Hop, Hop'; unfold WriteOp_new; cbn; by rewrite Hid).
  split; [done|]. unfold get_pending_op. rewrite Hs2. cbn [stats_pending on_stats on_pending ds_pending_ops].
  split; [by rewrite Heq, lookup_insert_eq|]. split; [by rewrite Hop'; cbn; rewrite Hcat|].
  rewrite Hs1. cbn [stats_pending on_stats on_pending ds_pending_ops]. by rewrite <- Heq, insert_insert_eq, !map_size_insert.
Qed.
End keys.
