(* ===== verification/ConsensusStoreExamples.v ===== *)
(** * A concrete storage written by consensus

    A codec that pads a number to the size bincode would use, plain byte
    strings as values, and the theorems of [ConsensusStoreProps] and
    [ConsensusStoreVotes] evaluated with them. *)

From Stdlib Require Import Ascii.
From stdpp Require Import countable.
From S2P Require Import Prelude Float64 Crypto RustStrings RustBytes StorageExamples DynamicStoreExamples ConsensusStore ConsensusStoreProps ConsensusStoreVotes.

Module ConsensusToy.
#[local] Existing Instance StorageToy.hex_external.
#[local] Existing Instance StorageToy.hex_external_laws.

(** ** The codec *)

Definition text (s : string) : gen_tree Z := GenNode 0 (DynamicToy.leaves (str_bytes s)).
Definition untext (t : gen_tree Z) : option string :=
  match t with GenNode _ l => bytes_str <$> DynamicToy.unleaves l | GenLeaf _ => None end.
Definition untexts (t : gen_tree Z) : option (list string) :=
  match t with GenNode _ l => mapM untext l | GenLeaf _ => None end.
Definition numbers (l : list Z) : gen_tree Z := GenNode 0 (DynamicToy.leaves l).
Definition unnumbers (t : gen_tree Z) : option (list Z) :=
  match t with GenNode _ l => DynamicToy.unleaves l | GenLeaf _ => None end.

Lemma untext_text s : untext (text s) = Some s.
Proof. unfold untext, text. rewrite DynamicToy.unleaves_leaves. cbn. by rewrite bytes_str_bytes. Qed.
Lemma untexts_texts n l : untexts (GenNode n (text <$> l)) = Some l.
Proof. apply mapM_fmap_Some. apply untext_text. Qed.
Lemma unnumbers_numbers l : unnumbers (numbers l) = Some l.
Proof. apply DynamicToy.unleaves_leaves. Qed.

Definition category_of (n : Z) : Category :=
  nth (Z.to_nat n) [Submission; Agent; Evaluation; ConsensusCategory; Log; Index] Meta.

Definition entry_tree (e : StoredEntry) : gen_tree Z :=
  let h := en_header e in
  GenNode 0 [text (eh_challenge_id h); text (eh_key h); text (eh_creator h);
    numbers [category_number (eh_category h); eh_version h; eh_created_block h; eh_updated_block h;
             eh_expires_block h; eh_raw_size h; eh_compressed_size h;
             if eh_consensus_reached h then 1 else 0];
    numbers (eh_value_hash h); numbers (en_compressed_value e); GenNode 0 (text <$> elements (eh_acks h))].

Definition entry_untree (t : gen_tree Z) : option StoredEntry :=
  match t with
  | GenNode _ [ch; key; creator; n; hash; value; acks] =>
      ch ← untext ch; key ← untext key; creator ← untext creator; n ← unnumbers n;
      hash ← unnumbers hash; value ← unnumbers value; acks ← untexts acks;
      match n with
      | [cat; version; created; updated; expires; raw; comp; reached] =>
          Some (mk_StoredEntry (mk_EntryHeader (category_of cat) ch key version created updated expires
            creator hash raw comp (list_to_set acks) (reached =? 1)) value)
      | _ => None
      end
  | _ => None
  end.

Lemma entry_untree_tree e : entry_untree (entry_tree e) = Some e.
Proof.
  destruct e as [[c ch key ver cb ub eb creator hash raw comp acks reached] value].
  unfold entry_untree, entry_tree. cbn [en_header en_compressed_value eh_category eh_challenge_id eh_key eh_version
    eh_created_block eh_updated_block eh_expires_block eh_creator eh_value_hash eh_raw_size eh_compressed_size
    eh_acks eh_consensus_reached].
  rewrite !untext_text, !unnumbers_numbers, untexts_texts. unfold mbind, option_bind.
  rewrite list_to_set_elements_L. by destruct c, reached.
Qed.

Definition pad (e : StoredEntry) : bytes := repeat 0 (Z.to_nat (stored_size e - 1)).

#[export] Instance toy_codec : ConsensusCodec := {|
  compress_prepend_size := fun b => b;
  decompress_size_prepended := fun b => Ok b;
  encode_stored := fun e => Ok (Zpos (encode (entry_tree e)) :: pad e);
  decode_stored := fun limit b =>
    if Z.of_nat (length b) <=? limit then
      match b with
      | Zpos p :: _ => ok_or (decode p ≫= entry_untree) "invalid entry"%string
      | _ => Err "unexpected end"%string
      end
    else Err "size limit"%string
|}.

Lemma stored_size_pos e : 1 <= stored_size e.
Proof.
  unfold stored_size, str_size.
  assert (0 <= acks_size (eh_acks (en_header e))); [|lia]. unfold acks_size, str_size.
  induction (elements (eh_acks (en_header e))) as [|x l IH]; cbn [foldr]; lia.
Qed.

#[export] Instance toy_codec_laws : ConsensusCodecLaws.
Proof.
  split; cbn [compress_prepend_size decompress_size_prepended encode_stored decode_stored toy_codec].
  - done.
  - intros e. eexists. split; [reflexivity|]. cbn [length]. unfold pad. rewrite repeat_length.
    pose proof (stored_size_pos e). lia.
  - intros e b limit [= <-] Hlim. rewrite (proj2 (Z.leb_le _ _)) by exact Hlim.
    rewrite decode_encode. cbn [mbind option_bind]. by rewrite entry_untree_tree.
Qed.

#[export] Instance bytes_value : StoreValue bytes := {|
  value_to_bincode := fun b => Ok b;
  value_from_bincode := fun limit b => if Z.of_nat (length b) <=? limit then Ok b else Err "size limit"%string;
  value_to_json := fun b => Ok b;
  value_from_json := fun b => Ok b
|}.

#[export] Instance bytes_value_laws : StoreValueLaws bytes.
Proof. split. intros v b limit [= <-] Hlim. cbn. by rewrite (proj2 (Z.leb_le _ _)) by exact Hlim. Qed.

#[export] Instance plain_entry_dec e : Decision (plain_entry e).
Proof. unfold plain_entry, plain_header, entry_fits, colon_free. apply _. Defined.

(** ** A network of three *)

Definition chal : string := "0f1e2d3c".
Definition run_ops : list (Z * store_op bytes) :=
  [(5, OPropose Submission chal "agent1" [1; 2; 3] None);
   (6, OSetValidators 3);
   (7, OPropose Submission chal "agent0" [4] (Some 10));
   (8, OGet Submission chal "agent0");
   (9, OVote (sha256 (str_bytes chal ++ str_bytes "agent0" ++ sha256 [4] ++ to_le_bytes 8 0)) "other" true);
   (10, OList Submission chal 5);
   (11, OSetBlock 10);
   (12, OCleanup);
   (13, OReopen);
   (14, OList Submission chal 5)].

Ltac plain_op := let e := fresh "e" in let He := fresh "He" in
  intros e He; vm_compute in He; injection He as <-; apply (bool_decide_unpack _); by vm_compute.

Lemma run_ops_plain : ops_plain run_ops (mk_Spec ∅ ∅ 0 1 "me").
Proof.
  cbn [ops_plain run_ops op_plain].
  repeat (split; [first [exact I | plain_op | (split; [apply (bool_decide_unpack _); by vm_compute|done])]|]).
  exact I.
Qed.

(** The second entry appears with the second vote, and goes when it expires. *)
Definition listed (x : store_answer) : list string :=
  match x with AEntries l => entry_key <$> l | _ => [] end.


(** Two of four validators against the other two. *)
Definition an_op : WriteOp :=
  WriteOp_new (mk_StoredEntry (mk_EntryHeader Agent chal "k" 1 0 0 0 "me" [] 0 0 ∅ false) []) "me" 0.
Definition four : gset string := {["a"; "b"; "c"; "d"]}.

Lemma approvals_intersect_iff_odd_witness :
  size four = 4%nat /\
  ((forall A B, A ⊆ four -> B ⊆ four ->
     op_check_consensus (Z.of_nat (size four)) (op_with_votes an_op A) = Some true ->
     op_check_consensus (Z.of_nat (size four)) (op_with_votes an_op B) = Some true -> ~ A ## B) <->
   Nat.Odd (size four)).
Proof.
  assert (Hs : size four = 4%nat) by (vm_compute; reflexivity). split; [exact Hs|].
  assert (Hle : (size four <= 1024)%nat) by (rewrite Hs; lia).
  exact (approvals_intersect_iff_odd four an_op Hle).
Defined.

(** A proposal in a network of three, and three votes. *)
Definition three : DistributedStorage := set_validators 3 (open ∅ ∅ "me").
Definition proposed := propose_write 1 Agent chal "k" ([7] : bytes) None three.
Definition proposal : WriteOp := match proposed.1 with Ok op => op | Err _ => an_op end.
Definition ballots : list (string * bool) := [("x", false); ("me", true); ("y", false)]%string.

Lemma full_vote_decides_witness :
  ds_pending_ops (vote_all 2 (wo_op_id proposal) (take 2 ballots) proposed.2) !! wo_op_id proposal <> None /\
  ds_pending_ops (vote_all 2 (wo_op_id proposal) ballots proposed.2) !! wo_op_id proposal = None.
Proof.
  split; [vm_compute; discriminate|].
  assert (Hn : (0 < 3 <= 1024)%nat) by lia.
  assert (Ht : ds_total_validators proposed.2 = Z.of_nat 3) by (vm_compute; reflexivity).
  assert (Hnd : NoDup ballots.*1) by (apply (bool_decide_unpack _); vm_compute; exact I).
  assert (Hl : (3 <= length ballots)%nat) by (cbn; lia).
  exact (full_vote_decides 2 (wo_op_id proposal) ballots proposed.2 3 Hn Ht Hnd Hl).
Defined.

Definition new_entry := StoredEntry_new Agent chal "k" ([7; 8] : bytes) "me" 3 (Some 4).
Definition the_entry : StoredEntry := match new_entry with Ok e => e | Err _ => wo_entry an_op end.

Lemma accepted_entry_fits_witness : entry_fits the_entry.
Proof.
  assert (He : StoredEntry_new Agent chal "k" ([7; 8] : bytes) "me" 3 (Some 4) = Ok the_entry)
    by (vm_compute; reflexivity).
  assert (Hroom : Z.of_nat (String.length chal) + Z.of_nat (String.length "k") +
    Z.of_nat (String.length "me") <= header_room) by (vm_compute; discriminate).
  exact (accepted_entry_fits Agent chal "k" ([7; 8] : bytes) "me" 3 (Some 4) the_entry He Hroom).
Defined.

Definition alone := propose_write 1 Agent chal "k" ([7; 8] : bytes) None (open ∅ ∅ "me").
Definition own : WriteOp := match alone.1 with Ok op => op | Err _ => an_op end.

Lemma propose_get_roundtrip_witness :
  (get_value 2 Agent chal "k" alone.2).1 = Ok (Some ([7; 8] : bytes)) /\
  (get_value 2 Agent chal "k" (open (ds_data_tree alone.2) (ds_index_tree alone.2) (ds_our_validator alone.2))).1 =
    Ok (Some ([7; 8] : bytes)).
Proof.
  assert (Hrun : propose_write 1 Agent chal "k" ([7; 8] : bytes) None (open ∅ ∅ "me") = (Ok own, alone.2))
    by (apply run_result; vm_compute; reflexivity).
  assert (Hp : plain_entry (wo_entry own)) by (apply (bool_decide_unpack _); vm_compute; exact I).
  exact (propose_get_roundtrip 1 2 Agent chal "k" [7; 8] (open ∅ ∅ "me") _ own alone.2
    (represents_empty "me") eq_refl Hrun Hp).
Defined.

(** After the write above, the key is there but the checks do not see it. *)
Definition spec_alone : Spec := (spec_step (OPropose Agent chal "k" ([7; 8] : bytes) None) (mk_Spec ∅ ∅ 0 1 "me")).2.

Lemma alone_represents : represents alone.2 spec_alone.
Proof.
  assert (Ho : op_plain (OPropose Agent chal "k" ([7; 8] : bytes) None) (mk_Spec ∅ ∅ 0 1 "me")) by plain_op.
  exact (proj2 (store_step_refines 1 _ _ _ (represents_empty "me") Ho)).
Qed.

Lemma chal_plain : plain_challenge chal.
Proof. split; [apply (bool_decide_unpack _); by vm_compute|cbn; lia]. Qed.

Lemma validation_sees_nothing_witness :
  (ds_get 2 Agent chal "k" alone.2).1 <> Ok None /\
  get_raw Agent chal "k" alone.2 = Ok None /\ count_category chal Agent alone.2 = 0 /\
  propose_write_validated 2 Agent chal "k" ([9] : bytes) 0 (strict_rule 1) alone.2 =
    propose_write 2 Agent chal "k" ([9] : bytes) None alone.2.
Proof.
  split; [vm_compute; discriminate|].
  assert (Hlim : 0 < 1) by lia.
  exact (validation_sees_nothing 2 Agent chal "k" ([9] : bytes) 0 1 [9] alone.2 spec_alone
    alone_represents chal_plain eq_refl Hlim).
Defined.

Lemma merkle_root_ignores_data_witness :
  merkle_root chal alone.2 = sha256 [] /\ merkle_root chal alone.2 = merkle_root chal (open ∅ ∅ "me").
Proof.
  exact (merkle_root_ignores_data chal alone.2 (open ∅ ∅ "me") spec_alone _ alone_represents
    (represents_empty "me") chal_plain).
Defined.

Definition again := propose_write 2 Submission chal "k" ([7] : bytes) None proposed.2.
Definition proposal' : WriteOp := match again.1 with Ok op => op | Err _ => an_op end.

Lemma category_not_in_op_id_witness :
  wo_op_id proposal = wo_op_id proposal' /\ get_pending_op (wo_op_id proposal) again.2 = Some proposal' /\
  eh_category (en_header (wo_entry proposal')) <> Agent /\
  size (ds_pending_ops again.2) = size (ds_pending_ops proposed.2).
Proof.
  assert (Hne : Agent <> Submission) by discriminate.
  assert (Hreq : 1 < required_votes (ds_total_validators three)) by (vm_compute; reflexivity).
  assert (H1 : propose_write 1 Agent chal "k" ([7] : bytes) None three = (Ok proposal, proposed.2))
    by (apply run_result; vm_compute; reflexivity).
  assert (H2 : propose_write 2 Submission chal "k" ([7] : bytes) None proposed.2 = (Ok proposal', again.2))
    by (apply run_result; vm_compute; reflexivity).
  exact (category_not_in_op_id 1 2 Agent Submission chal "k" ([7] : bytes) None three proposed.2 again.2
    proposal proposal' Hne Hreq H1 H2).
Defined.

(** ** Queries that answer something else *)

(** A submission of one validator and an evaluation of another under one key. *)
Definition shared : DistributedStorage :=
  let e1 := mk_StoredEntry (mk_EntryHeader Submission chal "k" 1 0 0 0 "alice" [] 0 0 ∅ true) [] in
  let e2 := mk_StoredEntry (mk_EntryHeader Evaluation chal "k" 1 0 0 0 "bob" [] 0 0 ∅ true) [] in
  (write_direct 0 e2 (write_direct 0 e1 (open ∅ ∅ "me")).2).2.

(** Listing what a validator created, in any category, returns another validator's
    entry when that one used the same key in an earlier category. *)
Theorem creator_listing_mixes_creators :
  match (list_by_creator 1 "bob" chal None 10 shared).1 with
  | Ok l => (fun e => eh_creator (en_header e)) <$> l = ["alice"%string]
  | Err _ => False
  end.
Proof. vm_compute. reflexivity. Qed.

(** Evaluations of the agents [ag1] and [ag10]. *)
Definition evaluated : DistributedStorage :=
  let e key := mk_StoredEntry (mk_EntryHeader Evaluation chal key 1 0 0 0 "bob" [] 0 0 ∅ true) [] in
  (write_direct 0 (e "ag10:bob"%string) (write_direct 0 (e "ag1:bob"%string) (open ∅ ∅ "me")).2).2.

Example agent_prefix_matches_others :
  match get_evaluations_for_agent chal "ag1" evaluated with
  | Ok l => entry_key <$> l = ["ag10:bob"; "ag1:bob"]%string
  | Err _ => False
  end.
Proof. vm_compute. reflexivity. Qed.

(** A read does not look at the expiry block, a clean-up does. *)
Definition expiring : DistributedStorage :=
  set_block 9 (write_direct 0
    (mk_StoredEntry (mk_EntryHeader Log chal "l" 1 0 0 5 "me" [] 0 0 ∅ true) []) (open ∅ ∅ "me")).2.

Example expired_entry_served :
  match (ds_get 1 Log chal "l" expiring).1 with Ok (Some e) => entry_is_expired 9 e = true | _ => False end /\
  (ds_get 1 Log chal "l" (cleanup_expired 1 expiring).2).1 = Ok None.
Proof. split; vm_compute; reflexivity. Qed.
End ConsensusToy.
