(* ===== verification/OptimizedStore.v ===== *)
(** * Batched and cached trees

    Models [crates/storage/src/optimized.rs]: the write buffer over a tree, the
    cache with a bounded number of entries and a time to live, the tree read
    through such a cache, the prefix scanner and the metrics.  Instants and
    durations are nanoseconds; an operation reads the clock once, as [now]. *)

From stdpp Require Import relations.
From S2P Require Import Prelude Float64 Crypto RustStrings RustBytes.

(** [t.elapsed()]. *)
Definition elapsed (now t : Z) : Z := Z.max 0 (now - t).

(** ** The write buffer *)

Record BatchWriter : Type := mk_BatchWriter {
  bw_tree : Tree bytes;
  bw_buffer : list (bytes * bytes);
  bw_buffer_size : Z;
  bw_max_buffer_size : nat;
  bw_last_flush : Z;
  bw_flush_interval : Z
}.

Definition BatchWriter_new (now : Z) (tree : Tree bytes) (max_buffer_size : nat) : BatchWriter :=
  mk_BatchWriter tree [] 0 max_buffer_size now (100 * 10 ^ 6).

(** [tree.apply_batch] of insertions, in their order. *)
Definition apply_batch (batch : list (bytes * bytes)) (t : Tree bytes) : Tree bytes :=
  fold_left (fun t '(k, v) => <[k := v]> t) batch t.

Definition bw_flush (now : Z) (w : BatchWriter) : BatchWriter :=
  match bw_buffer w with
  | [] => w
  | _ => mk_BatchWriter (apply_batch (bw_buffer w) (bw_tree w)) [] 0 (bw_max_buffer_size w) now
           (bw_flush_interval w)
  end.

Definition bw_write (now : Z) (key value : bytes) (w : BatchWriter) : BatchWriter :=
  let w := mk_BatchWriter (bw_tree w) (bw_buffer w ++ [(key, value)])
             (u64_add (bw_buffer_size w) (Z.of_nat (length key) + Z.of_nat (length value)))
             (bw_max_buffer_size w) (bw_last_flush w) (bw_flush_interval w) in
  if (bw_max_buffer_size w <=? length (bw_buffer w))%nat
     || (bw_flush_interval w <? elapsed now (bw_last_flush w))
  then bw_flush now w
  else w.

(** Dropping the writer flushes it; the tree is what remains. *)
Definition bw_drop (now : Z) (w : BatchWriter) : Tree bytes := bw_tree (bw_flush now w).

(** ** The bounded cache *)

Record LruCache (K V : Type) `{Countable K} : Type := mk_LruCache {
  lc_map : gmap K (V * Z);
  lc_max_size : nat;
  lc_ttl : Z
}.
Arguments mk_LruCache {K V _ _} _ _ _.
Arguments lc_map {K V _ _} _.
Arguments lc_max_size {K V _ _} _.
Arguments lc_ttl {K V _ _} _.

Section lru.
Context {K : Type} `{Countable K} {HO : HashOrder K} {V : Type}.

Definition LruCache_new (max_size : nat) (ttl : Z) : LruCache K V := mk_LruCache ∅ max_size ttl.

Definition on_map (f : gmap K (V * Z) -> gmap K (V * Z)) (c : LruCache K V) : LruCache K V :=
  mk_LruCache (f (lc_map c)) (lc_max_size c) (lc_ttl c).

Definition lru_get (now : Z) (key : K) (c : LruCache K V) : option V :=
  '(v, t) ← lc_map c !! key;
  if elapsed now t <? lc_ttl c then Some v else None.

(** [iter().min_by_key(|(_, (_, t))| *t)]: the first entry of least time. *)
Definition oldest (l : list (K * (V * Z))) : option (K * (V * Z)) :=
  match l with
  | [] => None
  | x :: l => Some (fold_left (fun m y => if y.2.2 <? m.2.2 then y else m) l x)
  end.

Definition evict_oldest (c : LruCache K V) : LruCache K V :=
  match oldest (hm_iter (lc_map c)) with
  | Some (k, _) => on_map (delete k) c
  | None => c
  end.

Definition lru_insert (now : Z) (key : K) (value : V) (c : LruCache K V) : LruCache K V :=
  let c := if (lc_max_size c <=? size (lc_map c))%nat then evict_oldest c else c in
  on_map (<[key := (value, now)]>) c.

Definition lru_remove (key : K) (c : LruCache K V) : option V * LruCache K V :=
  (fst <$> lc_map c !! key, on_map (delete key) c).

Definition lru_clear (c : LruCache K V) : LruCache K V := on_map (fun _ => ∅) c.
Definition lru_len (c : LruCache K V) : nat := size (lc_map c).
Definition lru_is_empty (c : LruCache K V) : bool := (lru_len c =? 0)%nat.

Definition lru_cleanup (now : Z) (c : LruCache K V) : LruCache K V :=
  on_map (filter (fun x => elapsed now x.2.2 < lc_ttl c)) c.
End lru.

(** ** The tree behind the cache *)

Record CacheStats : Type := mk_CacheStats { cst_hits : Z; cst_misses : Z; cst_writes : Z }.
Definition CacheStats_default : CacheStats := mk_CacheStats 0 0 0.

Definition hit_rate (st : CacheStats) : f64 :=
  let total := u64_add (cst_hits st) (cst_misses st) in
  if total =? 0 then f64_zero else f64_div (f64_of_Z (cst_hits st)) (f64_of_Z total).

Record CachedTree : Type := mk_CachedTree {
  ct_tree : Tree bytes;
  ct_cache : LruCache bytes bytes;
  ct_stats : CacheStats
}.

Definition CachedTree_new (tree : Tree bytes) (cache_size : nat) (cache_ttl : Z) : CachedTree :=
  mk_CachedTree tree (LruCache_new cache_size cache_ttl) CacheStats_default.

Definition count_cache (hits misses writes : Z) (c : CachedTree) : CachedTree :=
  mk_CachedTree (ct_tree c) (ct_cache c)
    (mk_CacheStats (u64_add (cst_hits (ct_stats c)) hits) (u64_add (cst_misses (ct_stats c)) misses)
       (u64_add (cst_writes (ct_stats c)) writes)).
Definition on_ct_cache (f : LruCache bytes bytes -> LruCache bytes bytes) (c : CachedTree) : CachedTree :=
  mk_CachedTree (ct_tree c) (f (ct_cache c)) (ct_stats c).
Definition on_ct_tree (f : Tree bytes -> Tree bytes) (c : CachedTree) : CachedTree :=
  mk_CachedTree (f (ct_tree c)) (ct_cache c) (ct_stats c).

Section cached.
Context {HO : HashOrder bytes}.

Definition ct_get (now : Z) (key : bytes) (c : CachedTree) : option bytes * CachedTree :=
  match lru_get now key (ct_cache c) with
  | Some value => (Some value, count_cache 1 0 0 c)
  | None =>
      let c := count_cache 0 1 0 c in
      match ct_tree c !! key with
      | Some value => (Some value, on_ct_cache (lru_insert now key value) c)
      | None => (None, c)
      end
  end.

Definition ct_insert (now : Z) (key value : bytes) (c : CachedTree) : CachedTree :=
  count_cache 0 0 1 (on_ct_cache (lru_insert now key value) (on_ct_tree (<[key := value]>) c)).

Definition ct_remove (key : bytes) (c : CachedTree) : option bytes * CachedTree :=
  (ct_tree c !! key,
   on_ct_tree (delete key) (on_ct_cache (fun l => (lru_remove key l).2) c)).

Definition ct_clear_cache (c : CachedTree) : CachedTree := on_ct_cache lru_clear c.

(** ** Interleaved calls

    The methods take [&self] and lock the cache and the tree separately, so a
    call is a sequence of atomic steps.  A call that is under way is what it
    has still to do. *)

Inductive pending_step : Type :=
| ReadTree (key : bytes)
| FillCache (key value : bytes)
| RemoveFromTree (key : bytes).

Definition SharedTree : Type := CachedTree * list pending_step.

Inductive ct_step : SharedTree -> SharedTree -> Prop :=
| step_hit now key c ps v :
    lru_get now key (ct_cache c) = Some v -> ct_step (c, ps) (count_cache 1 0 0 c, ps)
| step_miss now key c ps :
    lru_get now key (ct_cache c) = None -> ct_step (c, ps) (count_cache 0 1 0 c, ReadTree key :: ps)
| step_read key c ps1 ps2 :
    ct_step (c, ps1 ++ ReadTree key :: ps2)
      (c, ps1 ++ match ct_tree c !! key with Some v => FillCache key v :: ps2 | None => ps2 end)
| step_insert key value c ps :
    ct_step (c, ps) (on_ct_tree (<[key := value]>) c, FillCache key value :: ps)
| step_remove key c ps :
    ct_step (c, ps) (on_ct_cache (fun l => (lru_remove key l).2) c, RemoveFromTree key :: ps)
| step_clear c ps : ct_step (c, ps) (ct_clear_cache c, ps)
| step_fill now key value c ps1 ps2 :
    ct_step (c, ps1 ++ FillCache key value :: ps2) (on_ct_cache (lru_insert now key value) c, ps1 ++ ps2)
| step_remove_tree key c ps1 ps2 :
    ct_step (c, ps1 ++ RemoveFromTree key :: ps2) (on_ct_tree (delete key) c, ps1 ++ ps2).
End cached.

(** ** The prefix scanner *)

Section scanner.
Variables (tree : Tree bytes) (prefix : bytes).

Definition ps_count : nat := length (tree_scan_prefix prefix tree).
Definition ps_keys : list bytes := (tree_scan_prefix prefix tree).*1.
Definition ps_values : list bytes := (tree_scan_prefix prefix tree).*2.

(** The callback stops the iteration with [false] and with an error. *)
Fixpoint for_each_loop {S} (f : bytes -> bytes -> SE S MiniChainError bool) (items : list (bytes * bytes)) :
    SE S MiniChainError unit :=
  match items with
  | [] => mret tt
  | (key, value) :: rest =>
      continue ← f key value;
      if continue : bool then for_each_loop f rest else mret tt
  end.
Definition ps_for_each {S} (f : bytes -> bytes -> SE S MiniChainError bool) : SE S MiniChainError unit :=
  for_each_loop f (tree_scan_prefix prefix tree).
End scanner.

(** ** Metrics *)

Record StorageMetrics : Type := mk_StorageMetrics {
  sm_read_ops : Z;
  sm_write_ops : Z;
  sm_read_bytes : Z;
  sm_write_bytes : Z;
  sm_read_latency_us : Z;
  sm_write_latency_us : Z;
  sm_cache_hit_rate : f64
}.

Definition avg_read_latency_us (m : StorageMetrics) : f64 :=
  if sm_read_ops m =? 0 then f64_zero
  else f64_div (f64_of_Z (sm_read_latency_us m)) (f64_of_Z (sm_read_ops m)).
Definition avg_write_latency_us (m : StorageMetrics) : f64 :=
  if sm_write_ops m =? 0 then f64_zero
  else f64_div (f64_of_Z (sm_write_latency_us m)) (f64_of_Z (sm_write_ops m)).

(** * What batching and caching keep

    The write buffer loses nothing and keeps the order of writes; the cache never
    outgrows its bound and gives up its oldest entry; read through the cache, a
    tree answers as without it when calls do not overlap, and can keep a removed
    value when they do. *)

(** ** The write buffer *)

(** Writes at their times. *)
Definition bw_writes (ws : list (Z * (bytes * bytes))) (w : BatchWriter) : BatchWriter :=
  fold_left (fun w '(now, (k, v)) => bw_write now k v w) ws w.

Lemma apply_batch_app l1 l2 t : apply_batch (l1 ++ l2) t = apply_batch l2 (apply_batch l1 t).
Proof. apply fold_left_app. Qed.

(** After some writes the tree has a prefix of them and the buffer the rest. *)
Definition split_at (t : Tree bytes) (max : nat) (ws : list (bytes * bytes)) (w : BatchWriter) : Prop :=
  bw_max_buffer_size w = max /\
  exists done, ws = done ++ bw_buffer w /\ bw_tree w = apply_batch done t /\
    (length (bw_buffer w) < Nat.max 1 max)%nat.

Lemma bw_write_split t max ws now k v w :
  split_at t max ws w -> split_at t max (ws ++ [(k, v)]) (bw_write now k v w).
Proof.
  intros (Hmax & done & -> & Htree & Hlen). unfold bw_write. cbn [bw_max_buffer_size bw_buffer bw_last_flush
    bw_flush_interval]. rewrite Hmax, <- app_assoc. destruct (_ || _) eqn:Hflush.
  - unfold bw_flush. cbn [bw_buffer bw_tree bw_max_buffer_size].
    destruct (bw_buffer w ++ [(k, v)]) eqn:Hb; [exfalso; apply app_nil in Hb as [_ Hb]; discriminate|]. rewrite <- Hb.
    split; [done|]. exists (done ++ bw_buffer w ++ [(k, v)]). cbn [bw_buffer bw_tree length].
    rewrite app_nil_r. split; [done|]. split; [by rewrite (apply_batch_app done), <- Htree|lia].
  - apply orb_false_iff in Hflush as [Hlt%Nat.leb_gt _]. split; [done|]. exists done.
    cbn [bw_buffer bw_tree]. split; [done|]. split; [done|]. lia.
Qed.

Lemma bw_writes_split t max ws w :
  split_at t max [] w -> split_at t max ws.*2 (bw_writes ws w).
Proof.
  intros Hw. induction ws as [|[now [k v]] ws IH] using rev_ind; [done|].
  unfold bw_writes. rewrite fold_left_app, fmap_app. cbn. by apply bw_write_split.
Qed.

(** Whatever the times of the writes, the tree always holds a prefix of them,
    applied in order, fewer than the buffer's bound are waiting, and dropping the
    writer leaves exactly what unbuffered writes would. *)
Theorem batched_writes_arrive (t : Tree bytes) (max : nat) (start now : Z) (ws : list (Z * (bytes * bytes))) :
  let w := bw_writes ws (BatchWriter_new start t max) in
  bw_drop now w = apply_batch ws.*2 t /\
  exists done, ws.*2 = done ++ bw_buffer w /\ bw_tree w = apply_batch done t /\
    (length (bw_buffer w) < Nat.max 1 max)%nat.
Proof.
  intros w. assert (Hw : split_at t max ws.*2 w).
  { apply bw_writes_split. split; [done|]. exists []. cbn. split; [done|]. split; [done|lia]. }
  destruct Hw as (_ & done & Hws & Htree & Hlen). split; [|by exists done].
  unfold bw_drop, bw_flush. rewrite Hws, apply_batch_app, <- Htree. by destruct (bw_buffer w).
Qed.

(** ** The bounded cache *)

Section lru_props.
Context {K : Type} `{Countable K} {HO : HashOrder K} {V : Type}.
Implicit Types c : LruCache K V.

Lemma oldest_fold (l : list (K * (V * Z))) x :
  let m := fold_left (fun m y => if y.2.2 <? m.2.2 then y else m) l x in
  m ∈ x :: l /\ forall y, y ∈ x :: l -> m.2.2 <= y.2.2.
Proof.
  revert x. induction l as [|z l IH]; intros x; cbn [fold_left].
  { split; [left|]. intros y ->%list_elem_of_singleton. lia. }
  destruct (IH (if z.2.2 <? x.2.2 then z else x)) as [Hin Hmin]. destruct (Z.ltb_spec z.2.2 x.2.2).
  - split. { apply elem_of_cons in Hin as [->|?]; [right; left|by right; right]. }
    intros y [->|[->|Hy]%elem_of_cons]%elem_of_cons.
    + transitivity z.2.2; [apply Hmin; left|lia].
    + apply Hmin. left.
    + apply Hmin. by right.
  - split. { apply elem_of_cons in Hin as [->|?]; [left|by right; right]. }
    intros y [->|[->|Hy]%elem_of_cons]%elem_of_cons.
    + apply Hmin. left.
    + transitivity x.2.2; [apply Hmin; left|lia].
    + apply Hmin. by right.
Qed.

(** What is evicted: an entry no other is older than. *)
Lemma evict_oldest_spec c :
  (lc_map c = ∅ /\ evict_oldest c = c) \/
  exists k v t, lc_map c !! k = Some (v, t) /\ evict_oldest c = on_map (delete k) c /\
    forall k' v' t', lc_map c !! k' = Some (v', t') -> t <= t'.
Proof.
  unfold evict_oldest, oldest. destruct (hm_iter (lc_map c)) as [|x l] eqn:Hl.
  - left. split; [|done]. apply map_empty. intros k. apply eq_None_not_Some. intros [v Hv].
    apply elem_of_hm_iter in Hv. rewrite Hl in Hv. by apply not_elem_of_nil in Hv.
  - right. pose proof (oldest_fold l x) as [Hin Hmin].
    destruct (fold_left _ l x) as [k [v t]]. exists k, v, t. rewrite <- Hl in Hin, Hmin.
    split; [by apply elem_of_hm_iter|]. split; [done|].
    intros k' v' t' Hk'. apply elem_of_hm_iter in Hk'. apply (Hmin _ Hk').
Qed.

Definition lru_bound c : nat := Nat.max 1 (lc_max_size c).

Lemma lru_insert_bound now k v c :
  (lru_len c <= lru_bound c)%nat -> (lru_len (lru_insert now k v c) <= lru_bound c)%nat.
Proof.
  unfold lru_bound, lru_len, lru_insert. intros Hb.
  assert (Hsz : forall c', (size (lc_map (on_map (<[k := (v, now)]>) c')) <= S (size (lc_map c')))%nat).
  { intros c'. cbn. rewrite map_size_insert. destruct (lc_map c' !! k); cbn; lia. }
  destruct (Nat.leb_spec (lc_max_size c) (size (lc_map c))) as [Hfull|Hroom].
  2: { specialize (Hsz c). lia. }
  destruct (evict_oldest_spec c) as [[He ->]|(k' & v' & t' & Hk' & -> & _)].
  - specialize (Hsz c). rewrite He, map_size_empty in Hsz. lia.
  - specialize (Hsz (on_map (delete k') c)). cbn [on_map lc_map] in Hsz |- *.
    rewrite (map_size_delete_Some k' (lc_map c) (ex_intro _ _ Hk')) in Hsz.
    assert (size (lc_map c) <> 0%nat).
    { intros Hz. apply map_size_empty_inv in Hz. by rewrite Hz, lookup_empty in Hk'. }
    lia.
Qed.

Lemma lru_get_insert now later k v c :
  elapsed later now < lc_ttl c -> lru_get later k (lru_insert now k v c) = Some v.
Proof.
  intros Ht. unfold lru_get, lru_insert, on_map. cbn [lc_map lc_ttl]. rewrite lookup_insert_eq. cbn.
  assert (Hc : forall b : bool, lc_ttl (if b then evict_oldest c else c) = lc_ttl c).
  { intros []; [|done]. unfold evict_oldest. by destruct (oldest _) as [[]|]. }
  rewrite Hc. by apply Z.ltb_lt in Ht as ->.
Qed.

(** Every entry of a cache after an insertion was there or is the new one. *)
Lemma lru_insert_lookup now k v c k' x :
  lc_map (lru_insert now k v c) !! k' = Some x ->
  (k' = k /\ x = (v, now)) \/ (k' <> k /\ lc_map c !! k' = Some x).
Proof.
  unfold lru_insert. cbn [on_map lc_map]. rewrite lookup_insert_Some. intros [[-> ->]|[Hne Hl]]; [by left|].
  right. split; [done|]. destruct (_ <=? _)%nat; [|done]. unfold evict_oldest in Hl.
  destruct (oldest _) as [[k0 ?]|]; [|done]. cbn in Hl. by apply lookup_delete_Some in Hl as [_ ?].
Qed.
End lru_props.

(** ** Reading through the cache *)

Inductive ct_op : Type :=
| CGet (key : bytes)
| CInsert (key value : bytes)
| CRemove (key : bytes)
| CClear.

Section cached_props.
Context {HO : HashOrder bytes}.

Definition ct_run1 (now : Z) (o : ct_op) (c : CachedTree) : option bytes * CachedTree :=
  match o with
  | CGet k => ct_get now k c
  | CInsert k v => (None, ct_insert now k v c)
  | CRemove k => ct_remove k c
  | CClear => (None, ct_clear_cache c)
  end.
(** The same on the tree alone. *)
Definition tree_run1 (o : ct_op) (t : Tree bytes) : option bytes * Tree bytes :=
  match o with
  | CGet k => (t !! k, t)
  | CInsert k v => (None, <[k := v]> t)
  | CRemove k => (t !! k, delete k t)
  | CClear => (None, t)
  end.

Fixpoint ct_run (ops : list (Z * ct_op)) (c : CachedTree) : list (option bytes) * CachedTree :=
  match ops with
  | [] => ([], c)
  | (now, o) :: rest =>
      let '(x, c) := ct_run1 now o c in let '(xs, c) := ct_run rest c in (x :: xs, c)
  end.
Fixpoint tree_run (ops : list (Z * ct_op)) (t : Tree bytes) : list (option bytes) * Tree bytes :=
  match ops with
  | [] => ([], t)
  | (_, o) :: rest =>
      let '(x, t) := tree_run1 o t in let '(xs, t) := tree_run rest t in (x :: xs, t)
  end.

Definition coherent (c : CachedTree) : Prop :=
  forall k v t, lc_map (ct_cache c) !! k = Some (v, t) -> ct_tree c !! k = Some v.

Lemma ct_run1_refines now o c :
  coherent c ->
  (ct_run1 now o c).1 = (tree_run1 o (ct_tree c)).1 /\
  ct_tree (ct_run1 now o c).2 = (tree_run1 o (ct_tree c)).2 /\ coherent (ct_run1 now o c).2.
Proof.
  intros Hc. destruct o as [k|k v|k|]; cbn [ct_run1 tree_run1].
  - unfold ct_get. destruct (lru_get now k (ct_cache c)) as [v|] eqn:Hhit.
    + unfold lru_get in Hhit. destruct (lc_map (ct_cache c) !! k) as [[v' t]|] eqn:Hk; [|done]. cbn in Hhit.
      destruct (_ <? _); [|done]. injection Hhit as ->. by rewrite (Hc k v t Hk).
    + cbn [count_cache ct_tree]. destruct (ct_tree c !! k) as [v|] eqn:Hk; [|done].
      split; [done|]. split; [done|].
      intros k' v' t' [[-> [= -> _]]|[_ Hl]]%lru_insert_lookup; [done|]. by eapply Hc.
  - split; [done|]. split; [done|]. intros k' v' t' [[-> [= -> _]]|[Hne Hl]]%lru_insert_lookup; cbn.
    + by rewrite lookup_insert_eq.
    + rewrite lookup_insert_ne by done. by eapply Hc.
  - split; [done|]. split; [done|]. intros k' v' t'. cbn. intros [Hne Hl]%lookup_delete_Some.
    rewrite lookup_delete_ne by done. by eapply Hc.
  - split; [done|]. split; [done|]. intros k' v' t'. cbn. by rewrite lookup_empty.
Qed.

(** When calls do not overlap, a tree read through the cache answers exactly as
    the tree alone, for any bound, time to live and clock, and ends with the same
    contents. *)
Theorem cached_tree_transparent (t : Tree bytes) (cache_size : nat) (ttl : Z) (ops : list (Z * ct_op)) :
  let r := ct_run ops (CachedTree_new t cache_size ttl) in
  r.1 = (tree_run ops t).1 /\ ct_tree r.2 = (tree_run ops t).2.
Proof.
  assert (Hc : coherent (CachedTree_new t cache_size ttl)) by (intros k v x; cbn; by rewrite lookup_empty).
  change t with (ct_tree (CachedTree_new t cache_size ttl)) at 2 3. revert Hc.
  generalize (CachedTree_new t cache_size ttl). clear t.
  induction ops as [|[now o] ops IH]; intros c Hc; cbn [ct_run tree_run]; [done|].
  destruct (ct_run1_refines now o c Hc) as (Hx & Ht & Hc').
  destruct (ct_run1 now o c) as [x c'], (tree_run1 o (ct_tree c)) as [y t']. cbn [fst snd] in *. subst.
  destruct (IH c' Hc') as [Hxs Ht']. destruct (ct_run ops c') as [xs c''], (tree_run ops (ct_tree c')) as [ys t''].
  cbn in *. by subst.
Qed.

(** *** Under interleaving *)

Definition cache_bounded (st : SharedTree) : Prop := (lru_len (ct_cache st.1) <= lru_bound (ct_cache st.1))%nat.

Lemma lru_insert_limits {K V} `{Countable K} `{!HashOrder K} now (k : K) (v : V) c :
  lru_bound (lru_insert now k v c) = lru_bound c.
Proof.
  unfold lru_insert, lru_bound. cbn. destruct (_ <=? _)%nat; [|done]. unfold evict_oldest.
  by destruct (oldest _) as [[]|].
Qed.

Lemma ct_step_bounded st st' : ct_step st st' -> cache_bounded st -> cache_bounded st'.
Proof.
  unfold cache_bounded. destruct 1; cbn [fst count_cache on_ct_cache on_ct_tree ct_clear_cache ct_cache]; try done.
  - unfold lru_remove, lru_len, lru_bound. cbn. intros Hb. etransitivity; [|exact Hb].
    rewrite map_size_delete. destruct (_ !! key); unfold id; lia.
  - unfold lru_clear, lru_len. cbn. intros _. rewrite map_size_empty. lia.
  - rewrite lru_insert_limits. apply lru_insert_bound.
Qed.

(** However calls interleave, the cache never holds more entries than its bound
    (one, for a bound of zero). *)
Theorem shared_cache_bounded (t : Tree bytes) (cache_size : nat) (ttl : Z) (st : SharedTree) :
  rtc ct_step (CachedTree_new t cache_size ttl, []) st -> cache_bounded st.
Proof.
  intros Hst. assert (H0 : cache_bounded (CachedTree_new t cache_size ttl, [])).
  { unfold cache_bounded, lru_len. cbn. rewrite map_size_empty. lia. }
  revert H0. induction Hst as [|x y z Hxy _ IH]; [done|]. intros Hx. apply IH. by eapply ct_step_bounded.
Qed.

(** A read that overlaps a removal can put the removed value back into the cache:
    with no call under way any more, the tree does not have the key and the cache
    still answers with its value. *)
Theorem removed_value_stays_cached (key value : bytes) (cache_size : nat) (ttl now : Z) :
  0 < ttl ->
  exists c, rtc ct_step (CachedTree_new {[key := value]} cache_size ttl, []) (c, []) /\
    ct_tree c !! key = None /\ (ct_get now key c).1 = Some value.
Proof.
  intros Httl. set (c0 := CachedTree_new {[key := value]} cache_size ttl).
  set (c1 := count_cache 0 1 0 c0).
  set (c2 := on_ct_cache (fun l => (lru_remove key l).2) c1).
  set (c3 := on_ct_tree (delete key) c2).
  exists (on_ct_cache (lru_insert now key value) c3). split; [|split].
  - eapply rtc_l; [apply (step_miss now key); by unfold lru_get; cbn; rewrite lookup_empty|].
    eapply rtc_l; [apply (step_read key c1 [] [])|]. fold c1. cbn [app].
    replace (ct_tree c1 !! key) with (Some value) by (cbn; by rewrite lookup_singleton_eq).
    eapply rtc_l; [apply (step_remove key)|]. fold c2.
    eapply rtc_l; [apply (step_remove_tree key c2 [] [FillCache key value])|]. fold c3. cbn [app].
    eapply rtc_l; [apply (step_fill now key value c3 [] [])|]. apply rtc_refl.
  - cbn. by rewrite lookup_delete_eq.
  - unfold ct_get. cbn [on_ct_cache ct_cache]. rewrite lru_get_insert; [done|]. cbn. unfold elapsed. lia.
Qed.
End cached_props.

(** ** Examples *)

Module OptimizedExamples.

Definition k1 : bytes := [1].
Definition k2 : bytes := [2].

Lemma shared_cache_bounded_witness :
  cache_bounded (on_ct_tree (<[k1 := k2]>) (CachedTree_new ∅ 0 5), [FillCache k1 k2]).
Proof.
  assert (Hrun : rtc ct_step (CachedTree_new ∅ 0 5, [])
    (on_ct_tree (<[k1 := k2]>) (CachedTree_new ∅ 0 5), [FillCache k1 k2]))
    by (eapply rtc_l; [apply step_insert|apply rtc_refl]).
  exact (shared_cache_bounded ∅ 0 5 _ Hrun).
Defined.

Lemma removed_value_stays_cached_witness :
  exists c, rtc ct_step (CachedTree_new {[k1 := k2]} 8 5, []) (c, []) /\
    ct_tree c !! k1 = None /\ (ct_get 3 k1 c).1 = Some k2.
Proof.
  assert (Httl : 0 < 5) by lia. exact (removed_value_stays_cached k1 k2 8 5 3 Httl).
Defined.

(** The cache is not least recently used: a read does not renew an entry, so the
    entry read last goes first; and replacing an entry of a full cache evicts
    another one. *)
Definition full : LruCache Z Z := lru_insert 2 20 0 (lru_insert 1 10 0 (LruCache_new 2 100)).

Example read_entry_evicted_first :
  lru_get 3 10 full = Some 0 /\ lru_get 4 10 (lru_insert 4 30 0 full) = None /\
  lru_get 4 20 (lru_insert 4 30 0 full) = Some 0.
Proof. repeat split; vm_compute; reflexivity. Qed.

Example replacing_evicts_another :
  lru_get 4 10 (lru_insert 4 20 1 full) = None /\ lru_len (lru_insert 4 20 1 full) = 1%nat.
Proof. repeat split; vm_compute; reflexivity. Qed.
End OptimizedExamples.
