(* ===== verification/ChainStorage.v ===== *)
(** * The storage of a node

    Models [crates/storage/src/lib.rs]: the trees of the database for the chain
    state, the challenges and the validators, the dynamic storage beside them,
    and the run of the built-in migrations over the trees they share.  Flushing
    is the identity.  The bincode forms of a challenge and of a validator are
    the class [RecordCodec]. *)

From S2P Require Import Prelude Float64 Crypto RustStrings RustBytes CoreTypes CoreState StateVersioning Submission DynamicStore Migrations.

Definition MAX_CHALLENGE_SIZE : Z := 10 * 1024 * 1024.
Definition MAX_VALIDATOR_SIZE : Z := 1024 * 1024.

(** [bincode::serialize], and deserialization that reads no more than a limit. *)
Class RecordCodec : Type := {
  encode_challenge : Challenge -> result string bytes;
  decode_challenge : Z -> bytes -> result string Challenge;
  encode_validator : ValidatorInfo -> result string bytes;
  decode_validator : Z -> bytes -> result string ValidatorInfo
}.

(** [uuid.as_bytes()] and [Uuid::from_bytes]. *)
Definition uuid_bytes (id : Uuid) : bytes := to_be_bytes 16 id.
Definition uuid_from_bytes (b : bytes) : Uuid := from_be_bytes b.
#[global] Arguments uuid_bytes : simpl never.

Record ChainStorage : Type := mk_ChainStorage {
  sg_state_tree : Tree bytes;
  sg_challenges_tree : Tree bytes;
  sg_validators_tree : Tree bytes;
  sg_migrations_tree : Tree bytes;
  sg_dynamic : DynamicStorage
}.

(** Opening: the trees of the database, and an empty cache. *)
Definition Storage_open (state challenges validators migrations dynamic : Tree bytes) : ChainStorage :=
  mk_ChainStorage state challenges validators migrations (DynamicStorage_new dynamic).

Definition set_trees (state challenges validators : Tree bytes) (s : ChainStorage) : ChainStorage :=
  mk_ChainStorage state challenges validators (sg_migrations_tree s) (sg_dynamic s).

Definition ChainM := SE ChainStorage MiniChainError.
Definition current_key : bytes := str_bytes "current".

Section storage.
Context `{Ext : External} `{SC : StateCodec} `{RC : RecordCodec} `{MC : MigrationCodec}.

Definition save_state (state : ChainState) : ChainM unit :=
  data ← lift (serialize_state_versioned state);
  modify (fun s => set_trees (<[current_key := data]> (sg_state_tree s)) (sg_challenges_tree s)
                     (sg_validators_tree s) s).

Definition load_state (s : ChainStorage) : result MiniChainError (option ChainState) :=
  match sg_state_tree s !! current_key with
  | Some b => state ← deserialize_state_smart b; Ok (Some state)
  | None => Ok None
  end.

Definition save_challenge (challenge : Challenge) : ChainM unit :=
  data ← lift (result_map_err Serialization (encode_challenge challenge));
  modify (fun s => set_trees (sg_state_tree s) (<[uuid_bytes (ch_id challenge) := data]> (sg_challenges_tree s))
                     (sg_validators_tree s) s).

Definition load_challenge (id : ChallengeId) (s : ChainStorage) : result MiniChainError (option Challenge) :=
  match sg_challenges_tree s !! uuid_bytes id with
  | Some b => c ← result_map_err Serialization (decode_challenge MAX_CHALLENGE_SIZE b); Ok (Some c)
  | None => Ok None
  end.

Definition delete_challenge (id : ChallengeId) (s : ChainStorage) : bool * ChainStorage :=
  (bool_decide (is_Some (sg_challenges_tree s !! uuid_bytes id)),
   set_trees (sg_state_tree s) (delete (uuid_bytes id) (sg_challenges_tree s)) (sg_validators_tree s) s).

Definition list_challenges (s : ChainStorage) : list ChallengeId :=
  omap (fun x => if (length x.1 =? 16)%nat then Some (uuid_from_bytes x.1) else None)
    (tree_iter (sg_challenges_tree s)).

Definition save_validator (info : ValidatorInfo) : ChainM unit :=
  data ← lift (result_map_err Serialization (encode_validator info));
  modify (fun s => set_trees (sg_state_tree s) (sg_challenges_tree s)
                     (<[hk_bytes (vi_hotkey info) := data]> (sg_validators_tree s)) s).

Definition load_validator (hotkey : Hotkey) (s : ChainStorage) : result MiniChainError (option ValidatorInfo) :=
  match sg_validators_tree s !! hk_bytes hotkey with
  | Some b => v ← result_map_err Serialization (decode_validator MAX_VALIDATOR_SIZE b); Ok (Some v)
  | None => Ok None
  end.

(** The runner with the two built-in migrations, over the tree of the dynamic
    storage and the state tree; the cache of the dynamic storage stays as it
    is. *)
Definition run_migrations (now unix_secs block_height : Z) (s : ChainStorage) :
    result MiniChainError (list Z) * ChainStorage :=
  let ms := register AddChallengeMetricsMigration (register (InitialMigration unix_secs) ∅) in
  let '(r, d) := run_pending now block_height ms
    (mk_MigrationDb (sg_migrations_tree s) (dy_tree (sg_dynamic s)) (sg_state_tree s)) in
  (r, mk_ChainStorage (md_state d) (sg_challenges_tree s) (sg_validators_tree s) (md_migrations d)
        (set_tree (fun _ => md_storage d) (sg_dynamic s))).
End storage.

(** * What the storage of a node guarantees

    Saving and loading the chain state, challenges and validators refine finite
    maps, challenges are listed in the order of their identifiers, and migrations
    leave all of them alone; what is larger than the limit of a read can be
    saved all the same. *)

(** The documented behaviour of bincode: values can be serialized, are read back
    within the limit and not beyond it, and contain their byte vectors. *)
Class RecordCodecLaws `{RecordCodec} : Prop := {
  encode_challenge_total : forall c, is_ok (encode_challenge c) = true;
  decode_encode_challenge : forall c b limit,
    encode_challenge c = Ok b -> Z.of_nat (length b) <= limit -> decode_challenge limit b = Ok c;
  decode_challenge_limit : forall c b limit,
    encode_challenge c = Ok b -> limit < Z.of_nat (length b) -> is_ok (decode_challenge limit b) = false;
  encode_challenge_code : forall c b,
    encode_challenge c = Ok b -> (length (ch_wasm_code c) <= length b)%nat;
  encode_validator_total : forall v, is_ok (encode_validator v) = true;
  decode_encode_validator : forall v b limit,
    encode_validator v = Ok b -> Z.of_nat (length b) <= limit -> decode_validator limit b = Ok v
}.

(** ** Identifiers *)

Definition is_uuid (id : Uuid) : Prop := 0 <= id < 2 ^ 128.

Lemma uuid_roundtrip id : is_uuid id -> uuid_from_bytes (uuid_bytes id) = id.
Proof.
  intros Hid. unfold uuid_from_bytes, uuid_bytes. rewrite from_to_be_bytes.
  apply Z.mod_small. by change (256 ^ Z.of_nat 16) with (2 ^ 128).
Qed.

Lemma length_uuid_bytes id : length (uuid_bytes id) = 16%nat.
Proof. apply length_to_be_bytes. Qed.

Lemma uuid_bytes_inj id id' : is_uuid id -> is_uuid id' -> uuid_bytes id = uuid_bytes id' -> id = id'.
Proof. intros H1 H2 Heq. by rewrite <- (uuid_roundtrip id H1), Heq, uuid_roundtrip. Qed.

Lemma uuid_bytes_lt id id' : is_uuid id -> is_uuid id' -> bytes_lt (uuid_bytes id) (uuid_bytes id') <-> id < id'.
Proof.
  intros H1 H2. unfold bytes_lt, uuid_bytes.
  rewrite to_be_bytes_compare by (by change (256 ^ Z.of_nat 16) with (2 ^ 128)). apply Z.compare_lt_iff.
Qed.

(** ** The abstract storage *)

Record Chain : Type := mk_Chain {
  cn_state : option ChainState;
  cn_challenges : gmap Z Challenge;
  cn_validators : gmap Hotkey ValidatorInfo
}.

Inductive chain_op : Type :=
| SaveState (s : ChainState)
| LoadState
| SaveChallenge (c : Challenge)
| LoadChallenge (id : ChallengeId)
| DeleteChallenge (id : ChallengeId)
| ListChallenges
| SaveValidator (v : ValidatorInfo)
| LoadValidator (h : Hotkey).

Inductive chain_answer : Type :=
| RDone
| RState (s : option ChainState)
| RChallenge (c : option Challenge)
| RDeleted (b : bool)
| RIds (l : list ChallengeId)
| RValidator (v : option ValidatorInfo)
| RError (e : MiniChainError).

Definition answer_of {A} (f : A -> chain_answer) (r : result MiniChainError A) : chain_answer :=
  match r with Ok x => f x | Err e => RError e end.

Section refinement.
Context `{Ext : External} `{SC : StateCodec} `{!StateCodecLaws} `{RC : RecordCodec} `{!RecordCodecLaws}
  `{MC : MigrationCodec}.
Implicit Types (s : ChainStorage) (c : Chain).

Definition chain_step (o : chain_op) s : chain_answer * ChainStorage :=
  match o with
  | SaveState st => let '(r, s') := save_state st s in (answer_of (fun _ => RDone) r, s')
  | LoadState => (answer_of RState (load_state s), s)
  | SaveChallenge x => let '(r, s') := save_challenge x s in (answer_of (fun _ => RDone) r, s')
  | LoadChallenge id => (answer_of RChallenge (load_challenge id s), s)
  | DeleteChallenge id => let '(b, s') := delete_challenge id s in (RDeleted b, s')
  | ListChallenges => (RIds (list_challenges s), s)
  | SaveValidator v => let '(r, s') := save_validator v s in (answer_of (fun _ => RDone) r, s')
  | LoadValidator h => (answer_of RValidator (load_validator h s), s)
  end.

(** On the maps: challenges are listed in increasing order. *)
Definition spec_step (o : chain_op) c : chain_answer * Chain :=
  match o with
  | SaveState st => (RDone, mk_Chain (Some st) (cn_challenges c) (cn_validators c))
  | LoadState => (RState (cn_state c), c)
  | SaveChallenge x => (RDone, mk_Chain (cn_state c) (<[ch_id x := x]> (cn_challenges c)) (cn_validators c))
  | LoadChallenge id => (RChallenge (cn_challenges c !! id), c)
  | DeleteChallenge id =>
      (RDeleted (bool_decide (is_Some (cn_challenges c !! id))),
       mk_Chain (cn_state c) (delete id (cn_challenges c)) (cn_validators c))
  | ListChallenges => (RIds (number_iter (cn_challenges c)).*1, c)
  | SaveValidator v =>
      (RDone, mk_Chain (cn_state c) (cn_challenges c) (<[vi_hotkey v := v]> (cn_validators c)))
  | LoadValidator h => (RValidator (cn_validators c !! h), c)
  end.

(** What fits the limits of a read. *)
Definition op_fits (o : chain_op) : Prop :=
  match o with
  | SaveState st => is_ok (serialize_state_versioned st) = true
  | SaveChallenge x => is_uuid (ch_id x) /\
      forall b, encode_challenge x = Ok b -> Z.of_nat (length b) <= MAX_CHALLENGE_SIZE
  | LoadChallenge id | DeleteChallenge id => is_uuid id
  | SaveValidator v => forall b, encode_validator v = Ok b -> Z.of_nat (length b) <= MAX_VALIDATOR_SIZE
  | _ => True
  end.

(** A tree holds a map: at the key of each identifier, what decodes to its value. *)
Definition holds {K V} (key : K -> bytes) (valid : K -> Prop) (dec : bytes -> result string V)
    (lookup : K -> option V) (t : Tree bytes) : Prop :=
  (forall k, valid k -> match lookup k with
    | Some v => exists b, t !! key k = Some b /\ dec b = Ok v
    | None => t !! key k = None
    end) /\
  forall kb b, t !! kb = Some b -> exists k, valid k /\ kb = key k.

Lemma holds_insert {K V} `{Countable K} (key : K -> bytes) valid (dec : bytes -> result string V)
    (m : gmap K V) t k v b :
  (forall k k', valid k -> valid k' -> key k = key k' -> k = k') -> valid k -> dec b = Ok v ->
  holds key valid dec (fun k => m !! k) t ->
  holds key valid dec (fun k' => <[k := v]> m !! k') (<[key k := b]> t).
Proof.
  intros Hinj Hk Hb [Hl Hd]. split.
  - intros k' Hk'. destruct (decide (k' = k)) as [->|Hne].
    + rewrite !lookup_insert_eq. eauto.
    + rewrite !lookup_insert_ne; [by apply Hl|by intros Heq; apply Hne; symmetry; apply Hinj|done].
  - intros kb b'. rewrite lookup_insert_Some. intros [[<- _]|[_ Hkb]]; eauto.
Qed.

Lemma holds_delete {K V} `{Countable K} (key : K -> bytes) valid (dec : bytes -> result string V)
    (m : gmap K V) t k :
  (forall k k', valid k -> valid k' -> key k = key k' -> k = k') -> valid k ->
  holds key valid dec (fun k => m !! k) t ->
  holds key valid dec (fun k' => delete k m !! k') (delete (key k) t).
Proof.
  intros Hinj Hk [Hl Hd]. split.
  - intros k' Hk'. destruct (decide (k' = k)) as [->|Hne].
    + by rewrite !lookup_delete_eq.
    + rewrite !lookup_delete_ne; [by apply Hl|by intros Heq; apply Hne; symmetry; apply Hinj|done].
  - intros kb b'. rewrite lookup_delete_Some. intros [_ Hkb]. eauto.
Qed.

Definition hotkey_valid (h : Hotkey) : Prop := True.

Lemma hotkey_bytes_inj (h h' : Hotkey) : hotkey_valid h -> hotkey_valid h' -> hk_bytes h = hk_bytes h' -> h = h'.
Proof. destruct h, h'. simpl. by intros _ _ ->. Qed.

Record represents s c : Prop := {
  rep_state : match cn_state c with
    | Some st => exists b, sg_state_tree s !! current_key = Some b /\ deserialize_state_smart b = Ok st
    | None => sg_state_tree s !! current_key = None
    end;
  rep_challenges : holds uuid_bytes is_uuid (decode_challenge MAX_CHALLENGE_SIZE)
    (fun id => cn_challenges c !! id) (sg_challenges_tree s);
  rep_ids : forall id x, cn_challenges c !! id = Some x -> is_uuid id;
  rep_validators : holds hk_bytes hotkey_valid (decode_validator MAX_VALIDATOR_SIZE)
    (fun h => cn_validators c !! h) (sg_validators_tree s)
}.

(** *** Listing *)

Lemma list_is_sorted s c : represents s c -> list_challenges s = (number_iter (cn_challenges c)).*1.
Proof.
  intros Hrep. destruct (rep_challenges _ _ Hrep) as [Hl Hd].
  assert (Hkey : forall kb b, (kb, b) ∈ tree_iter (sg_challenges_tree s) ->
    exists id, is_uuid id /\ kb = uuid_bytes id) by (intros kb b Hin%elem_of_tree_iter; eauto).
  apply (sorted_same_elements Z.lt); [lia| |apply number_iter_sorted|].
  - apply (omap_sorted key_lt); [|apply tree_iter_sorted].
    intros [k1 b1] [k2 b2] x1 x2 H1 H2 Hlt Hf1 Hf2. cbn [fst] in Hf1, Hf2. unfold key_lt in Hlt. cbn [fst] in Hlt.
    destruct (Hkey _ _ H1) as (id1 & Hid1 & ->), (Hkey _ _ H2) as (id2 & Hid2 & ->).
    rewrite length_uuid_bytes in Hf1, Hf2. cbn [Nat.eqb] in Hf1, Hf2.
    injection Hf1 as <-. injection Hf2 as <-. rewrite !uuid_roundtrip by done. by apply uuid_bytes_lt in Hlt.
  - intros id. unfold list_challenges. rewrite list_elem_of_omap. split.
    + intros ([kb b] & Hin & Hf). destruct (Hkey _ _ Hin) as (id' & Hid & ->). cbn [fst] in Hf.
      rewrite length_uuid_bytes in Hf. cbn [Nat.eqb] in Hf. injection Hf as <-.
      rewrite uuid_roundtrip by done. apply elem_of_tree_iter in Hin. specialize (Hl id' Hid).
      destruct (cn_challenges c !! id') as [x|] eqn:Hx; [|congruence].
      apply list_elem_of_fmap. exists (id', x). split; [done|]. by apply elem_of_number_iter.
    + intros ([id' x] & -> & Hx%elem_of_number_iter)%list_elem_of_fmap. cbn [fst].
      pose proof (rep_ids _ _ Hrep _ _ Hx) as Hid. specialize (Hl id' Hid). rewrite Hx in Hl.
      destruct Hl as (b & Hb & _). exists (uuid_bytes id', b). split; [by apply elem_of_tree_iter|]. cbn [fst].
      rewrite length_uuid_bytes. cbn [Nat.eqb]. f_equal. by apply uuid_roundtrip.
Qed.

Lemma chain_step_refines o s c :
  represents s c -> op_fits o ->
  (chain_step o s).1 = (spec_step o c).1 /\ represents (chain_step o s).2 (spec_step o c).2.
Proof.
  intros Hrep Ho. pose proof Hrep as [Hst [Hch Hchk] Hids [Hv Hvk]].
  destruct o as [st| |x|id|id| |v|h]; cbn [chain_step spec_step op_fits] in *.
  - unfold save_state, mbind, SE_bind, lift, modify.
    destruct (serialize_state_versioned st) as [b|] eqn:Hb; [|done]. split; [done|].
    split; try done. cbn. exists b. rewrite lookup_insert_eq. split; [done|]. by apply versioned_roundtrip.
  - split; [|done]. unfold load_state. destruct (cn_state c) as [st|].
    + destruct Hst as (b & -> & Hb). unfold mbind, result_bind. by rewrite Hb.
    + by rewrite Hst.
  - destruct Ho as [Hid Hlen]. unfold save_challenge, mbind, SE_bind, lift, modify.
    pose proof (encode_challenge_total x) as Hok. destruct (encode_challenge x) as [b|] eqn:Hb; [|done].
    split; [done|]. split; try done; cbn.
    + apply holds_insert; [apply uuid_bytes_inj|done|by apply decode_encode_challenge, Hlen|done].
    + intros id y. rewrite lookup_insert_Some. intros [[<- _]|[_ Hy]]; eauto.
  - split; [|done]. unfold load_challenge. specialize (Hch id Ho). destruct (cn_challenges c !! id) as [x|].
    + destruct Hch as (b & -> & Hb). unfold mbind, result_bind. by rewrite Hb.
    + by rewrite Hch.
  - split.
    + cbn. f_equal. apply bool_decide_ext. specialize (Hch id Ho). destruct (cn_challenges c !! id).
      * destruct Hch as (b & -> & _). by split; eauto.
      * rewrite Hch. by split; intros [].
    + split; try done; cbn.
      * by apply holds_delete; [apply uuid_bytes_inj| |].
      * intros id' y [_ Hy]%lookup_delete_Some. eauto.
  - split; [|done]. cbn [fst]. f_equal. by apply list_is_sorted.
  - unfold save_validator, mbind, SE_bind, lift, modify.
    pose proof (encode_validator_total v) as Hok. destruct (encode_validator v) as [b|] eqn:Hb; [|done].
    split; [done|]. split; try done; cbn.
    apply holds_insert; [apply hotkey_bytes_inj|done|by apply decode_encode_validator, Ho|done].
  - split; [|done]. unfold load_validator. specialize (Hv h I). destruct (cn_validators c !! h) as [x|].
    + destruct Hv as (b & -> & Hb). unfold mbind, result_bind. by rewrite Hb.
    + by rewrite Hv.
Qed.

Fixpoint chain_run (ops : list chain_op) s : list chain_answer :=
  match ops with
  | [] => []
  | o :: rest => let '(x, s') := chain_step o s in x :: chain_run rest s'
  end.
Fixpoint spec_run (ops : list chain_op) c : list chain_answer :=
  match ops with
  | [] => []
  | o :: rest => let '(x, c') := spec_step o c in x :: spec_run rest c'
  end.

(** The storage of a node is three finite maps: any sequence of saves, loads,
    deletions and listings within the size limits answers as the maps would, and
    challenges come in increasing order of their identifiers. *)
Theorem chain_storage_refines (ops : list chain_op) (migrations dynamic : Tree bytes) :
  Forall op_fits ops ->
  chain_run ops (Storage_open ∅ ∅ ∅ migrations dynamic) = spec_run ops (mk_Chain None ∅ ∅).
Proof.
  assert (Hinit : represents (Storage_open ∅ ∅ ∅ migrations dynamic) (mk_Chain None ∅ ∅)).
  { split; try done; split; intros; by rewrite ?lookup_empty in *. }
  revert Hinit. generalize (Storage_open ∅ ∅ ∅ migrations dynamic) (mk_Chain None ∅ ∅).
  intros s c Hrep Hops. revert s c Hrep.
  induction Hops as [|o ops Ho _ IH]; intros s c Hrep; cbn [chain_run spec_run]; [done|].
  destruct (chain_step_refines o s c Hrep Ho) as [Hx Hrep'].
  destruct (chain_step o s) as [x s'], (spec_step o c) as [y c']. cbn [fst snd] in *. subst.
  f_equal. by apply IH.
Qed.

(** A challenge whose code is larger than 10 MB is saved without an error and can
    never be loaded again. *)
Theorem oversized_challenge_unreadable (x : Challenge) (s : ChainStorage) :
  MAX_CHALLENGE_SIZE < Z.of_nat (length (ch_wasm_code x)) ->
  (save_challenge x s).1 = Ok tt /\
  is_ok (load_challenge (ch_id x) (save_challenge x s).2) = false /\
  (is_uuid (ch_id x) -> ch_id x ∈ list_challenges (save_challenge x s).2).
Proof.
  intros Hbig. unfold save_challenge, mbind, SE_bind, lift, modify.
  pose proof (encode_challenge_total x) as Hok. destruct (encode_challenge x) as [b|] eqn:Hb; [|done].
  cbn [result_map_err fst snd]. split; [done|]. split.
  - unfold load_challenge. cbn [set_trees sg_challenges_tree]. rewrite lookup_insert_eq. unfold mbind, result_bind.
    pose proof (encode_challenge_code x b Hb) as Hlen.
    pose proof (decode_challenge_limit x b MAX_CHALLENGE_SIZE Hb ltac:(lia)) as Hdec.
    by destruct (decode_challenge MAX_CHALLENGE_SIZE b).
  - intros Hid. unfold list_challenges. cbn [set_trees sg_challenges_tree]. apply list_elem_of_omap.
    exists (uuid_bytes (ch_id x), b). split; [apply elem_of_tree_iter; by rewrite lookup_insert_eq|]. cbn [fst].
    rewrite length_uuid_bytes. cbn [Nat.eqb]. f_equal. by apply uuid_roundtrip.
Qed.

(** ** Migrations *)

Definition keeps_state (m : MigM unit) : Prop := forall x, cx_state (m x).2 = cx_state x.

Lemma ctx_set_keeps_state key v : keeps_state (ctx_set key v).
Proof.
  intros x. unfold ctx_set, mbind, SE_bind, get_state, lift, set_cx_storage, push_change, modify.
  destruct (ctx_get key x) as [o|]; [|done]. by destruct (encode_value v).
Qed.

Lemma bind_keeps_state (m : MigM unit) (k : unit -> MigM unit) :
  keeps_state m -> (forall x, keeps_state (k x)) -> keeps_state (mbind k m).
Proof.
  intros Hm Hk x. unfold mbind, SE_bind. specialize (Hm x). destruct (m x) as [[u|e] y]; cbn [snd] in *; [|done].
  by rewrite (Hk u y).
Qed.

Lemma run_versions_keep_state now bh (ms : gmap Z Migration) pending applied d :
  (forall v m, ms !! v = Some m -> keeps_state (mg_up m)) ->
  md_state (run_versions now bh ms pending applied d).2 = md_state d.
Proof.
  intros Hms. revert applied d. induction pending as [|v rest IH]; intros applied d; cbn [run_versions]; [done|].
  destruct (ms !! v) as [m|] eqn:Hm; [|apply IH].
  unfold mbind at 1, SE_bind at 1, in_context. specialize (Hms v m Hm (MigrationContext_new (md_storage d) (md_state d) bh)).
  destruct (mg_up m _) as [[u|e] x]; cbn [snd] in Hms; [|by rewrite Hms].
  unfold record_applied, set_current_version, set_migrations_tree, mbind, SE_bind, lift, modify.
  destruct (encode_record _); cbn [result_map_err]; [|by rewrite Hms].
  destruct (encode_version v); cbn [result_map_err]; [|by rewrite Hms]. rewrite IH. by rewrite Hms.
Qed.

(** Running the built-in migrations, whether it succeeds or not, changes neither
    the chain state nor the challenges nor the validators that are stored. *)
Theorem migrations_keep_chain_data (now unix_secs block_height : Z) (s : ChainStorage) (id : ChallengeId) (h : Hotkey) :
  let s' := (run_migrations now unix_secs block_height s).2 in
  load_state s' = load_state s /\ load_challenge id s' = load_challenge id s /\
  list_challenges s' = list_challenges s /\ load_validator h s' = load_validator h s.
Proof.
  assert (Hms : forall v m, register AddChallengeMetricsMigration (register (InitialMigration unix_secs) ∅) !! v = Some m ->
    keeps_state (mg_up m)).
  { intros v m. unfold register. rewrite lookup_empty. cbn [mg_version InitialMigration AddChallengeMetricsMigration].
    rewrite lookup_insert_ne by done. rewrite lookup_empty, !lookup_insert_Some, lookup_empty.
    intros [[_ <-]|[_ [[_ <-]|[_ [=]]]]]; cbn [mg_up];
      repeat (apply bind_keeps_state; [apply ctx_set_keeps_state|intros _]); apply ctx_set_keeps_state. }
  unfold run_migrations. set (d := mk_MigrationDb _ _ _).
  assert (Hst : md_state (run_pending now block_height
    (register AddChallengeMetricsMigration (register (InitialMigration unix_secs) ∅)) d).2 = md_state d).
  { unfold run_pending, mbind at 1 2, SE_bind at 1 2, get_state, lift.
    destruct (pending_migrations _ d) as [[|v rest]|]; [done| |done]. by apply run_versions_keep_state. }
  destruct (run_pending _ _ _ d) as [r d']. cbn [snd] in Hst |- *.
  unfold load_state. cbn [sg_state_tree]. by rewrite Hst.
Qed.
End refinement.
