(* ===== verification/ChainStorageExamples.v ===== *)
(** * A concrete storage of a node

    A codec for challenges and validators, and the theorems of
    [ChainStorage] evaluated with it. *)

From stdpp Require Import countable.
From S2P Require Import Prelude Float64 Crypto RustStrings RustBytes CoreTypes CoreState StateVersioning StorageExamples DynamicStoreExamples ConsensusStoreExamples ChainStorage.

Module ChainToy.
#[local] Existing Instance VersioningExamples.toy_state_codec.
#[local] Existing Instance VersioningExamples.toy_state_codec_laws.
Import ConsensusToy.

(** ** The codec *)

Definition flag (b : bool) : Z := if b then 1 else 0.

Definition challenge_tree (c : Challenge) : gen_tree Z :=
  let g := ch_config c in
  GenNode 0 [text (ch_name c); text (ch_description c); text (ch_code_hash c); text (chc_params_json g);
    numbers (hk_bytes (ch_owner c));
    numbers [ch_id c; ch_created_at c; ch_updated_at c; flag (ch_is_active c); chc_mechanism_id g;
             chc_timeout_secs g; chc_max_memory_mb g; chc_max_cpu_secs g; Z.of_nat (chc_min_validators g)];
    numbers (DynamicToy.float_code (chc_emission_weight g))].

Definition challenge_untree (code : bytes) (t : gen_tree Z) : option Challenge :=
  match t with
  | GenNode _ [name; description; hash; params; owner; n; weight] =>
      name ← untext name; description ← untext description; hash ← untext hash; params ← untext params;
      owner ← unnumbers owner; n ← unnumbers n; w ← unnumbers weight; weight ← DynamicToy.float_decode w;
      match n with
      | [id; created; updated; active; mech; timeout; mem; cpu; minv] =>
          Some (mk_Challenge id name description code hash (mk_Hotkey owner)
            (mk_ChallengeConfig mech timeout mem cpu weight (Z.to_nat minv) params) created updated (active =? 1))
      | _ => None
      end
  | _ => None
  end.

Lemma challenge_untree_tree c : challenge_untree (ch_wasm_code c) (challenge_tree c) = Some c.
Proof.
  destruct c as [id name desc code hash [owner] [mech timeout mem cpu weight minv params] created updated active].
  unfold challenge_untree, challenge_tree. cbn [ch_id ch_name ch_description ch_wasm_code ch_code_hash ch_owner ch_config
    ch_created_at ch_updated_at ch_is_active chc_mechanism_id chc_timeout_secs chc_max_memory_mb chc_max_cpu_secs
    chc_emission_weight chc_min_validators chc_params_json hk_bytes].
  rewrite !untext_text, !unnumbers_numbers. unfold mbind, option_bind.
  rewrite DynamicToy.float_decode_code, Nat2Z.id. by destruct active.
Qed.

Definition opt_text (o : option string) : gen_tree Z :=
  match o with Some s => GenNode 1 [text s] | None => GenNode 0 [] end.
Definition un_opt_text (t : gen_tree Z) : option (option string) :=
  match t with GenNode _ [x] => Some <$> untext x | GenNode _ [] => Some None | _ => None end.
Lemma un_opt_text_text o : un_opt_text (opt_text o) = Some o.
Proof. destruct o; [|done]. unfold un_opt_text, opt_text. by rewrite untext_text. Qed.

Definition validator_tree (v : ValidatorInfo) : gen_tree Z :=
  GenNode 0 [numbers (hk_bytes (vi_hotkey v)); numbers [flag (vi_is_active v); vi_last_seen v; stake_rao (vi_stake v)];
    opt_text (vi_peer_id v); opt_text (vi_x25519_pubkey v)].
Definition validator_untree (t : gen_tree Z) : option ValidatorInfo :=
  match t with
  | GenNode _ [h; n; p; x] =>
      h ← unnumbers h; n ← unnumbers n; p ← un_opt_text p; x ← un_opt_text x;
      match n with
      | [a; seen; stake] => Some (mk_ValidatorInfo (mk_Hotkey h) (mk_Stake stake) (a =? 1) seen p x)
      | _ => None
      end
  | _ => None
  end.

Lemma validator_untree_tree v : validator_untree (validator_tree v) = Some v.
Proof.
  destruct v as [[h] [stake] active seen peer key]. unfold validator_untree, validator_tree.
  cbn [vi_hotkey vi_stake vi_is_active vi_last_seen vi_peer_id vi_x25519_pubkey hk_bytes stake_rao].
  rewrite !unnumbers_numbers. unfold mbind, option_bind. rewrite !un_opt_text_text. by destruct active.
Qed.

#[export] Instance toy_record_codec : RecordCodec := {|
  encode_challenge := fun c => Ok (Zpos (encode (challenge_tree c)) :: ch_wasm_code c);
  decode_challenge := fun limit b =>
    if Z.of_nat (length b) <=? limit then
      match b with
      | Zpos p :: code => ok_or (decode p ≫= challenge_untree code) "invalid challenge"%string
      | _ => Err "unexpected end"%string
      end
    else Err "size limit"%string;
  encode_validator := fun v => Ok [Zpos (encode (validator_tree v))];
  decode_validator := fun limit b =>
    match b with
    | [Zpos p] => ok_or (decode p ≫= validator_untree) "invalid validator"%string
    | _ => Err "unexpected end"%string
    end
|}.

#[export] Instance toy_record_laws : RecordCodecLaws.
Proof.
  split; cbn [encode_challenge decode_challenge encode_validator decode_validator toy_record_codec]; try done.
  - intros c b limit [= <-] Hlim. rewrite (proj2 (Z.leb_le _ _)) by exact Hlim.
    rewrite decode_encode. cbn [mbind option_bind]. by rewrite challenge_untree_tree.
  - intros c b limit [= <-] Hlim. by rewrite (proj2 (Z.leb_gt _ _)) by exact Hlim.
  - intros c b [= <-]. cbn. lia.
  - intros v b limit [= <-] _. rewrite decode_encode. cbn [mbind option_bind]. by rewrite validator_untree_tree.
Qed.

(** ** A run *)

Definition sample (id : Uuid) : Challenge :=
  mk_Challenge id "c" "d" [1; 2] "h" (mk_Hotkey [5]) ChallengeConfig_default 1 2 true.
Definition a_validator : ValidatorInfo := mk_ValidatorInfo (mk_Hotkey [9]) (mk_Stake 7) true 3 (Some "p"%string) None.

Definition storage_ops : list chain_op :=
  [LoadState; SaveState VersioningExamples.genesis; LoadState; SaveChallenge (sample 300); SaveChallenge (sample 2);
   ListChallenges; DeleteChallenge 300; ListChallenges; LoadChallenge 2; SaveValidator a_validator;
   LoadValidator (mk_Hotkey [9])].

Lemma storage_ops_fit : Forall op_fits storage_ops.
Proof.
  repeat constructor; cbn [op_fits]; try (intros b [= <-]; by vm_compute); try (unfold is_uuid; cbn; lia);
    try (split; [unfold is_uuid; cbn; lia|intros b [= <-]; by vm_compute]).
  all: by vm_compute.
Qed.

Definition ids_of (x : chain_answer) : option (list ChallengeId) :=
  match x with RIds l => Some l | _ => None end.

Lemma chain_storage_refines_witness :
  omap ids_of (chain_run storage_ops (Storage_open ∅ ∅ ∅ ∅ ∅)) = [[2; 300]; [2]] /\
  chain_run storage_ops (Storage_open ∅ ∅ ∅ ∅ ∅) = spec_run storage_ops (mk_Chain None ∅ ∅).
Proof.
  split; [vm_compute; reflexivity|].
  exact (chain_storage_refines storage_ops ∅ ∅ storage_ops_fit).
Defined.

Definition huge : Challenge :=
  mk_Challenge 5 "c" "d" (repeat 0 (Z.to_nat (MAX_CHALLENGE_SIZE + 1))) "h" (mk_Hotkey [5]) ChallengeConfig_default 1 2 true.

Lemma oversized_challenge_unreadable_witness :
  (save_challenge huge (Storage_open ∅ ∅ ∅ ∅ ∅)).1 = Ok tt /\
  is_ok (load_challenge (ch_id huge) (save_challenge huge (Storage_open ∅ ∅ ∅ ∅ ∅)).2) = false /\
  (is_uuid (ch_id huge) -> ch_id huge ∈ list_challenges (save_challenge huge (Storage_open ∅ ∅ ∅ ∅ ∅)).2).
Proof.
  assert (Hbig : MAX_CHALLENGE_SIZE < Z.of_nat (length (ch_wasm_code huge))).
  { cbn [ch_wasm_code huge]. rewrite repeat_length, Z2Nat.id; unfold MAX_CHALLENGE_SIZE; lia. }
  exact (oversized_challenge_unreadable huge (Storage_open ∅ ∅ ∅ ∅ ∅) Hbig).
Defined.
End ChainToy.
