(* ===== verification/ChallengeRoutes.v ===== *)
(** * Routes of a challenge

    Models [crates/challenge-sdk/src/routes.rs]: the manifest of a challenge's
    routes, path patterns with parameters and their matching, requests,
    responses and the registry.  Header and parameter maps are finite maps; a
    handler's body is JSON. *)

From Stdlib Require Import Ascii.
From S2P Require Import Prelude Float64 FloatOrder Crypto RustStrings RustBytes Submission.

(** ** Names *)

(** [char::is_alphanumeric], for ASCII. *)
Definition is_alphanumeric (a : ascii) : bool :=
  let n := nat_of_ascii a in
  ((48 <=? n) && (n <=? 57) || (65 <=? n) && (n <=? 90) || (97 <=? n) && (n <=? 122))%nat.

(** [s.trim_matches(c)]. *)
Fixpoint drop_char (c : ascii) (l : list ascii) : list ascii :=
  match l with
  | a :: l' => if decide (a = c) then drop_char c l' else l
  | [] => []
  end.
Definition trim_matches (c : ascii) (s : string) : string :=
  of_chars (reverse (drop_char c (reverse (drop_char c (chars s))))).

Definition normalize_name (name : string) : string :=
  let s := to_lowercase (trim name) in
  let s := replace_char "_"%char "-"%char (replace_char " "%char "-"%char s) in
  trim_matches "-"%char
    (of_chars (filter (fun a => is_alphanumeric a || bool_decide (a = "-"%char) = true) (chars s))).

(** ** Routes *)

Inductive HttpMethod : Type := Get | Post | Put | Delete | Patch.

#[global] Instance HttpMethod_eq_dec : EqDecision HttpMethod.
Proof. solve_decision. Defined.

Definition method_as_str (m : HttpMethod) : string :=
  match m with
  | Get => "GET" | Post => "POST" | Put => "PUT" | Delete => "DELETE" | Patch => "PATCH"
  end.

Record ChallengeRoute : Type := mk_ChallengeRoute {
  cr_method : HttpMethod;
  cr_path : string;
  cr_description : string;
  cr_requires_auth : bool;
  cr_rate_limit : Z
}.

#[global] Instance ChallengeRoute_eq_dec : EqDecision ChallengeRoute.
Proof. solve_decision. Defined.

Definition ChallengeRoute_new (method : HttpMethod) (path description : string) : ChallengeRoute :=
  mk_ChallengeRoute method path description false 0.
Definition route_get := ChallengeRoute_new Get.
Definition route_post := ChallengeRoute_new Post.
Definition route_put := ChallengeRoute_new Put.
Definition route_delete := ChallengeRoute_new Delete.
Definition route_with_auth (r : ChallengeRoute) : ChallengeRoute :=
  mk_ChallengeRoute (cr_method r) (cr_path r) (cr_description r) true (cr_rate_limit r).
Definition with_rate_limit (rpm : Z) (r : ChallengeRoute) : ChallengeRoute :=
  mk_ChallengeRoute (cr_method r) (cr_path r) (cr_description r) (cr_requires_auth r) rpm.

(** [pattern.strip_prefix(':')]. *)
Definition param_name (pattern : string) : option string :=
  match pattern with
  | String a rest => if decide (a = ":"%char) then Some rest else None
  | EmptyString => None
  end.

Fixpoint match_parts (patterns actuals : list string) (params : gmap string string) :
    option (gmap string string) :=
  match patterns, actuals with
  | pattern :: patterns, actual :: actuals =>
      match param_name pattern with
      | Some name => match_parts patterns actuals (<[name := actual]> params)
      | None => if decide (pattern = actual) then match_parts patterns actuals params else None
      end
  | _, _ => Some params
  end.

Definition matches (r : ChallengeRoute) (method path : string) : option (gmap string string) :=
  if negb (bool_decide (method = method_as_str (cr_method r))) then None
  else
    let pattern_parts := split "/"%char (cr_path r) in
    let path_parts := split "/"%char path in
    if negb (length pattern_parts =? length path_parts)%nat then None
    else match_parts pattern_parts path_parts ∅.

(** ** The manifest *)

Record RoutesManifest : Type := mk_RoutesManifest {
  rm_name : string;
  rm_version : string;
  rm_description : string;
  rm_routes : list ChallengeRoute;
  rm_metadata : gmap string Json
}.

Definition RoutesManifest_new (name version : string) : RoutesManifest :=
  mk_RoutesManifest (normalize_name name) version "" [] ∅.
Definition with_description (d : string) (m : RoutesManifest) : RoutesManifest :=
  mk_RoutesManifest (rm_name m) (rm_version m) d (rm_routes m) (rm_metadata m).
Definition with_routes (routes : list ChallengeRoute) (m : RoutesManifest) : RoutesManifest :=
  mk_RoutesManifest (rm_name m) (rm_version m) (rm_description m) (rm_routes m ++ routes) (rm_metadata m).
Definition add_route (route : ChallengeRoute) (m : RoutesManifest) : RoutesManifest :=
  with_routes [route] m.
Definition with_metadata (key : string) (value : Json) (m : RoutesManifest) : RoutesManifest :=
  mk_RoutesManifest (rm_name m) (rm_version m) (rm_description m) (rm_routes m)
    (<[key := value]> (rm_metadata m)).

Definition standard_routes : list ChallengeRoute :=
  [route_post "/submit" "Submit an agent for evaluation";
   route_get "/status/:hash" "Get agent evaluation status";
   route_get "/leaderboard" "Get current leaderboard";
   route_get "/config" "Get challenge configuration";
   route_get "/stats" "Get challenge statistics";
   route_get "/health" "Health check endpoint"].
Definition with_standard_routes (m : RoutesManifest) : RoutesManifest := with_routes standard_routes m.

(** ** Requests and responses *)

Record RouteRequest : Type := mk_RouteRequest {
  rq_method : string;
  rq_path : string;
  rq_params : gmap string string;
  rq_query : gmap string string;
  rq_headers : gmap string string;
  rq_body : Json;
  rq_auth_hotkey : option string
}.

Definition RouteRequest_new (method path : string) : RouteRequest :=
  mk_RouteRequest method path ∅ ∅ ∅ JNull None.
Definition rq_with_params (params : gmap string string) (r : RouteRequest) : RouteRequest :=
  mk_RouteRequest (rq_method r) (rq_path r) params (rq_query r) (rq_headers r) (rq_body r) (rq_auth_hotkey r).
Definition rq_with_query (query : gmap string string) (r : RouteRequest) : RouteRequest :=
  mk_RouteRequest (rq_method r) (rq_path r) (rq_params r) query (rq_headers r) (rq_body r) (rq_auth_hotkey r).
Definition rq_with_body (body : Json) (r : RouteRequest) : RouteRequest :=
  mk_RouteRequest (rq_method r) (rq_path r) (rq_params r) (rq_query r) (rq_headers r) body (rq_auth_hotkey r).
Definition rq_with_auth (hotkey : string) (r : RouteRequest) : RouteRequest :=
  mk_RouteRequest (rq_method r) (rq_path r) (rq_params r) (rq_query r) (rq_headers r) (rq_body r) (Some hotkey).
Definition param (name : string) (r : RouteRequest) : option string := rq_params r !! name.
Definition query_param (name : string) (r : RouteRequest) : option string := rq_query r !! name.

Record RouteResponse : Type := mk_RouteResponse {
  rr_status : Z;
  rr_headers : gmap string string;
  rr_body : Json
}.

Definition RouteResponse_new (status : Z) (body : Json) : RouteResponse := mk_RouteResponse status ∅ body.
Definition error_body (error message : string) : Json :=
  JObject [("error", JString error); ("message", JString message)]%string.
Definition ok_response (body : Json) : RouteResponse := RouteResponse_new 200 body.
Definition created (body : Json) : RouteResponse := RouteResponse_new 201 body.
Definition no_content : RouteResponse := RouteResponse_new 204 JNull.
Definition bad_request (message : string) : RouteResponse :=
  RouteResponse_new 400 (error_body "bad_request" message).
Definition unauthorized : RouteResponse :=
  RouteResponse_new 401 (error_body "unauthorized" "Authentication required").
Definition forbidden (message : string) : RouteResponse :=
  RouteResponse_new 403 (error_body "forbidden" message).
Definition not_found : RouteResponse := RouteResponse_new 404 (error_body "not_found" "Route not found").
Definition rate_limited : RouteResponse :=
  RouteResponse_new 429 (error_body "rate_limited" "Too many requests").
Definition internal_error (message : string) : RouteResponse :=
  RouteResponse_new 500 (error_body "internal_error" message).
Definition with_header (name value : string) (r : RouteResponse) : RouteResponse :=
  mk_RouteResponse (rr_status r) (<[name := value]> (rr_headers r)) (rr_body r).
Definition is_success (r : RouteResponse) : bool := (200 <=? rr_status r) && (rr_status r <? 300).

(** ** The registry *)

Record RouteRegistry : Type := mk_RouteRegistry { reg_routes : list ChallengeRoute }.
Definition RouteRegistry_new : RouteRegistry := mk_RouteRegistry [].
Definition register_route (route : ChallengeRoute) (r : RouteRegistry) : RouteRegistry :=
  mk_RouteRegistry (reg_routes r ++ [route]).
Definition register_all (routes : list ChallengeRoute) (r : RouteRegistry) : RouteRegistry :=
  mk_RouteRegistry (reg_routes r ++ routes).

Fixpoint find_in (routes : list ChallengeRoute) (method path : string) :
    option (ChallengeRoute * gmap string string) :=
  match routes with
  | [] => None
  | route :: rest =>
      match matches route method path with
      | Some params => Some (route, params)
      | None => find_in rest method path
      end
  end.
Definition find_route (r : RouteRegistry) (method path : string) :
    option (ChallengeRoute * gmap string string) := find_in (reg_routes r) method path.
Definition registry_is_empty (r : RouteRegistry) : bool := bool_decide (reg_routes r = []).

(** [RouteBuilder]: the routes in the order they were added. *)
Definition RouteBuilder : Type := list ChallengeRoute.
Definition RouteBuilder_new : RouteBuilder := [].
Definition builder_get (path desc : string) (b : RouteBuilder) : RouteBuilder := b ++ [route_get path desc].
Definition builder_post (path desc : string) (b : RouteBuilder) : RouteBuilder := b ++ [route_post path desc].
Definition builder_put (path desc : string) (b : RouteBuilder) : RouteBuilder := b ++ [route_put path desc].
Definition builder_delete (path desc : string) (b : RouteBuilder) : RouteBuilder := b ++ [route_delete path desc].
Definition builder_build (b : RouteBuilder) : list ChallengeRoute := b.

(** * What route matching and name normalisation guarantee

    A path matches a pattern exactly when it is the pattern with values in the
    place of its parameters, and the values found are those; the registry answers
    with the first route that matches; a normalised name is normal. *)

(** ** Splitting and joining *)

Lemma split_on_nonempty c l : split_on c l <> [].
Proof. destruct l as [|a l]; cbn; [done|]. destruct (split_on c l); [done|]. by case_decide. Qed.

Definition sep (c : ascii) : string := String c EmptyString.

Lemma join_cons s t w ws : join s (t :: w :: ws) = t +:+ s +:+ join s (w :: ws).
Proof. done. Qed.

Lemma join_split_on c l : join (sep c) (of_chars <$> split_on c l) = of_chars l.
Proof.
  induction l as [|a l IH]; [done|]. cbn [split_on]. pose proof (split_on_nonempty c l) as Hne.
  destruct (split_on c l) as [|w ws]; [done|]. destruct (decide (a = c)) as [->|Hac].
  - change (of_chars <$> [] :: w :: ws) with (EmptyString :: (of_chars <$> w :: ws)).
    change (of_chars <$> w :: ws) with (of_chars w :: (of_chars <$> ws)) in IH |- *.
    rewrite join_cons, IH. done.
  - change (of_chars <$> (a :: w) :: ws) with (String a (of_chars w) :: (of_chars <$> ws)).
    change (of_chars <$> w :: ws) with (of_chars w :: (of_chars <$> ws)) in IH.
    change (of_chars (a :: l)) with (String a (of_chars l)). rewrite <- IH. by destruct ws.
Qed.

Lemma join_split c s : join (sep c) (split c s) = s.
Proof. unfold split. by rewrite join_split_on, of_chars_chars. Qed.

Lemma split_on_app c u l : c ∉ u -> split_on c (u ++ c :: l) = u :: split_on c l.
Proof.
  intros Hu. induction u as [|a u IH]; cbn [app split_on].
  - pose proof (split_on_nonempty c l). destruct (split_on c l); [done|]. by rewrite decide_True.
  - apply not_elem_of_cons in Hu as [Hne Hu]. rewrite IH by done. by rewrite decide_False by congruence.
Qed.

Lemma split_on_free c u : c ∉ u -> split_on c u = [u].
Proof.
  intros Hu. induction u as [|a u IH]; [done|]. apply not_elem_of_cons in Hu as [Hne Hu]. cbn [split_on].
  rewrite IH by done. by rewrite decide_False by congruence.
Qed.

Definition free_of (c : ascii) (s : string) : Prop := c ∉ chars s.

Lemma split_join c l : l <> [] -> Forall (free_of c) l -> split c (join (sep c) l) = l.
Proof.
  intros Hne Hall. unfold split. induction Hall as [|s l Hs Hl IH]; [done|]. destruct l as [|t l].
  - cbn [join]. rewrite split_on_free by done. cbn. by rewrite of_chars_chars.
  - rewrite join_cons, !chars_app. change (chars (sep c)) with [c]. cbn [app].
    rewrite split_on_app by done. cbn [fmap list_fmap]. rewrite of_chars_chars. f_equal. by apply IH.
Qed.

Lemma split_pieces_free c s : Forall (free_of c) (split c s).
Proof.
  unfold split. apply list.Forall_forall. intros t (w & -> & Hw)%list_elem_of_fmap.
  unfold free_of. rewrite chars_of_chars. revert w Hw.
  induction (chars s) as [|a l IH]; intros w Hw; cbn [split_on] in Hw.
  - apply list_elem_of_singleton in Hw as ->. apply not_elem_of_nil.
  - pose proof (split_on_nonempty c l). destruct (split_on c l) as [|v ws]; [done|].
    case_decide as Hac.
    + apply elem_of_cons in Hw as [->|Hw]; [apply not_elem_of_nil|by apply IH].
    + apply elem_of_cons in Hw as [->|Hw]; [|apply IH; by right].
      apply not_elem_of_cons. split; [congruence|]. apply IH. left.
Qed.

(** ** Patterns *)

Definition param_names (patterns : list string) : list string := omap param_name patterns.

(** A pattern with its parameters replaced. *)
Definition fill (params : gmap string string) (pattern : string) : string :=
  match param_name pattern with
  | Some name => default EmptyString (params !! name)
  | None => pattern
  end.

Lemma fill_param params p n : param_name p = Some n -> fill params p = default EmptyString (params !! n).
Proof. unfold fill. by intros ->. Qed.
Lemma fill_literal params p : param_name p = None -> fill params p = p.
Proof. unfold fill. by intros ->. Qed.

(** The parameters found are bindings of the pattern's names, in order. *)
Lemma match_parts_spec patterns actuals acc params :
  length patterns = length actuals ->
  match_parts patterns actuals acc = Some params ->
  NoDup (param_names patterns) ->
  actuals = fill params <$> patterns /\
  forall n, n ∉ param_names patterns -> params !! n = acc !! n.
Proof.
  revert actuals acc. induction patterns as [|p patterns IH]; intros [|x actuals] acc Hlen; try done.
  { intros [= <-] _. done. }
  cbn [length] in Hlen. injection Hlen as Hlen. cbn [match_parts]. unfold param_names. cbn [omap list_omap fmap list_fmap].
  destruct (param_name p) as [n|] eqn:Hp.
  - intros Hm [Hn Hnd]%NoDup_cons. destruct (IH _ _ Hlen Hm Hnd) as [-> Hacc]. split.
    + f_equal. unfold fill. by rewrite Hp, (Hacc n Hn), lookup_insert_eq.
    + intros n' Hn'. apply not_elem_of_cons in Hn' as [Hne Hn']. rewrite (Hacc n' Hn'). by rewrite lookup_insert_ne.
  - case_decide as Hx; [|done]. intros Hm Hnd. destruct (IH _ _ Hlen Hm Hnd) as [-> Hacc]. split; [|done].
    f_equal. unfold fill. by rewrite Hp.
Qed.

Lemma match_parts_complete (params : gmap string string) patterns acc :
  exists params', match_parts patterns (fill params <$> patterns) acc = Some params' /\
    forall n, n ∈ param_names patterns -> params' !! n = Some (default EmptyString (params !! n)) .
Proof.
  revert acc. induction patterns as [|p patterns IH]; intros acc; cbn [fmap list_fmap match_parts].
  { exists acc. split; [done|]. intros n Hn. by apply not_elem_of_nil in Hn. }
  unfold param_names. cbn [omap list_omap]. destruct (param_name p) as [n|] eqn:Hp.
  - rewrite (fill_param params p n Hp). assert (Hkeep : forall qs acc params', match_parts qs (fill params <$> qs) acc = Some params' ->
      n ∉ param_names qs -> params' !! n = acc !! n).
    { clear. induction qs as [|q qs IH]; intros acc params'; cbn [fmap list_fmap match_parts]; [by intros [= <-]|].
      unfold param_names. cbn [omap list_omap]. destruct (param_name q) as [k|] eqn:Hq.
      - intros Hm [Hne Hn]%not_elem_of_cons. rewrite (IH _ _ Hm Hn). by rewrite lookup_insert_ne.
      - rewrite (fill_literal params q Hq), decide_True by done. apply IH. }
    destruct (IH (<[n := default EmptyString (params !! n)]> acc)) as (params' & Hm & Hl).
    exists params'. split; [done|]. intros k [->|Hk]%elem_of_cons; [|by apply Hl].
    destruct (decide (n ∈ param_names patterns)) as [Hin|Hin]; [by apply Hl|].
    rewrite (Hkeep _ _ _ Hm Hin). by rewrite lookup_insert_eq.
  - rewrite (fill_literal params p Hp), decide_True by done. apply IH.
Qed.

(** A request matches a route exactly when the method is the route's and the path
    is its pattern with a value, without slashes, in the place of each parameter;
    the values the match returns put back into the pattern give the path. *)
Theorem match_is_substitution (r : ChallengeRoute) (method path : string) :
  NoDup (param_names (split "/" (cr_path r))) ->
  (forall params, matches r method path = Some params ->
     method = method_as_str (cr_method r) /\
     path = join "/" (fill params <$> split "/" (cr_path r))) /\
  (forall values : gmap string string,
     method = method_as_str (cr_method r) ->
     (forall n, n ∈ param_names (split "/" (cr_path r)) -> free_of "/" (default EmptyString (values !! n))) ->
     path = join "/" (fill values <$> split "/" (cr_path r)) ->
     exists params, matches r method path = Some params /\
       forall n, n ∈ param_names (split "/" (cr_path r)) ->
         params !! n = Some (default EmptyString (values !! n))).
Proof.
  intros Hnd. set (ps := split "/" (cr_path r)) in *. split.
  - intros params. unfold matches. fold ps. case_bool_decide as Hm; [|done]. cbn [negb].
    destruct (Nat.eqb_spec (length ps) (length (split "/" path))) as [Hlen|]; [|done]. cbn [negb].
    intros Hmatch. split; [done|].
    destruct (match_parts_spec ps (split "/" path) ∅ params Hlen Hmatch Hnd) as [Hparts _].
    change "/"%string with (sep "/"). rewrite <- (join_split "/" path) at 1. by rewrite Hparts.
  - intros values Hm Hfree Hpath. unfold matches. fold ps. rewrite bool_decide_true by done. cbn [negb].
    assert (Hps : ps <> []).
    { unfold ps, split. intros He%fmap_nil_inv. by apply split_on_nonempty in He. }
    assert (Hsplit : split "/" path = fill values <$> ps).
    { rewrite Hpath. change "/"%string with (sep "/"). apply split_join.
      - by intros He%fmap_nil_inv.
      - apply list.Forall_forall. intros t (p & -> & Hp)%list_elem_of_fmap. unfold fill.
        destruct (param_name p) as [n|] eqn:Hn.
        + apply Hfree. apply list_elem_of_omap. by exists p.
        + pose proof (split_pieces_free "/" (cr_path r)) as Hall. rewrite list.Forall_forall in Hall. by apply Hall. }
    rewrite Hsplit, length_fmap, Nat.eqb_refl. cbn [negb]. apply match_parts_complete.
Qed.

(** The registry answers with the first route that matches. *)
Lemma find_in_first routes method path route params :
  find_in routes method path = Some (route, params) <->
  exists before after, routes = before ++ route :: after /\ matches route method path = Some params /\
    Forall (fun r => matches r method path = None) before.
Proof.
  induction routes as [|x routes IH]; cbn [find_in].
  - split; [done|]. intros (before & after & Heq & _). by destruct before.
  - destruct (matches x method path) as [p|] eqn:Hx.
    + split.
      * intros [= <- <-]. exists [], routes. split; [done|]. split; [done|constructor].
      * intros (before & after & Heq & Hm & Hall). destruct before as [|y before]; injection Heq as <- ->.
        -- by rewrite Hx in Hm; injection Hm as <-.
        -- apply Forall_cons in Hall as [Hy _]. congruence.
    + rewrite IH. split.
      * intros (before & after & -> & Hm & Hall). exists (x :: before), after. split; [done|]. split; [done|by constructor].
      * intros (before & after & Heq & Hm & Hall). destruct before as [|y before]; injection Heq as <- ->.
        -- congruence.
        -- apply Forall_cons in Hall as [_ Hall]. eauto.
Qed.

(** ** Normal names *)

(** Lower-case letters, digits and dashes, without a dash at either end. *)
Definition name_char (a : ascii) : bool :=
  let n := nat_of_ascii a in ((48 <=? n) && (n <=? 57) || (97 <=? n) && (n <=? 122) || (n =? 45))%nat.

Definition normal (s : string) : Prop :=
  Forall (fun a => name_char a = true) (chars s) /\
  head (chars s) <> Some "-"%char /\ last (chars s) <> Some "-"%char.

Lemma drop_char_suffix c l : exists u, l = u ++ drop_char c l.
Proof.
  induction l as [|a l [u IH]]; cbn [drop_char]; [by exists []|]. case_decide.
  - exists (a :: u). cbn. by f_equal.
  - by exists [].
Qed.

Lemma drop_char_head c l : head (drop_char c l) <> Some c.
Proof. induction l as [|a l IH]; cbn [drop_char]; [done|]. case_decide; [done|]. cbn. congruence. Qed.

Lemma drop_char_last c l : last (drop_char c l) = last l \/ drop_char c l = [].
Proof.
  destruct (drop_char_suffix c l) as [u Hu]. destruct (drop_char c l) as [|a l'] eqn:Hd; [by right|].
  left. rewrite Hu, last_app. destruct (last (a :: l')) eqn:Hlast; [done|]. by apply last_None in Hlast.
Qed.

Lemma drop_char_id c l : head l <> Some c -> drop_char c l = l.
Proof. destruct l as [|a l]; [done|]. cbn. intros Hne. rewrite decide_False; [done|]. congruence. Qed.

Lemma drop_spaces_id l : Forall (fun a => is_whitespace a = false) l -> drop_spaces l = l.
Proof. destruct l as [|a l]; [done|]. intros [Ha _]%Forall_cons. cbn. by rewrite Ha. Qed.

Lemma name_char_facts a : name_char a = true ->
  is_whitespace a = false /\ char_to_lower a = a /\ a <> "_"%char /\ a <> " "%char /\
  is_alphanumeric a || bool_decide (a = "-"%char) = true.
Proof. destruct a as [[] [] [] [] [] [] [] []]; vm_compute; intros Hn; first [discriminate | done]. Qed.

Lemma lower_kept a : is_alphanumeric (char_to_lower a) || bool_decide (char_to_lower a = "-"%char) = true ->
  name_char (char_to_lower a) = true.
Proof. destruct a as [[] [] [] [] [] [] [] []]; vm_compute; intros Hn; first [discriminate | done]. Qed.

Lemma map_id_on {A} (f : A -> A) l : Forall (fun a => f a = a) l -> f <$> l = l.
Proof. induction 1 as [|a l Ha _ IH]; [done|]. cbn. by rewrite Ha, IH. Qed.

Lemma normalize_normal name : normal (normalize_name name).
Proof.
  unfold normalize_name, trim_matches, normal, replace_char, to_lowercase. rewrite !chars_of_chars.
  set (l := chars (trim name)).
  set (kept := filter _ _).
  assert (Hkept : Forall (fun a => name_char a = true) kept).
  { apply list.Forall_forall. unfold kept. intros a [Ha Hin]%list_elem_of_filter.
    apply list_elem_of_fmap in Hin as (b & Hb & Hin). apply list_elem_of_fmap in Hin as (d & Hd & Hin).
    apply list_elem_of_fmap in Hin as (e & He & _).
    destruct (decide (b = "_"%char)) as [_|_]; [by rewrite Hb|].
    destruct (decide (d = " "%char)) as [_|_]; [by rewrite Hb, Hd|].
    rewrite Hb, Hd, He in Ha |- *. by apply lower_kept. }
  assert (Hsub : forall c m, Forall (fun a => name_char a = true) m -> Forall (fun a => name_char a = true) (drop_char c m)).
  { intros c m Hm. destruct (drop_char_suffix c m) as [u Hu]. rewrite Hu in Hm. by apply Forall_app in Hm as [_ ?]. }
  split; [|split].
  - apply Forall_reverse, Hsub, Forall_reverse, Hsub, Hkept.
  - rewrite head_reverse. destruct (drop_char_last "-" (reverse (drop_char "-" kept))) as [->| ->]; [|done].
    rewrite last_reverse. apply drop_char_head.
  - rewrite last_reverse. apply drop_char_head.
Qed.

(** Normalising a challenge name yields lower-case letters, digits and inner
    dashes only, and leaves every such name as it is, so that it can be applied
    any number of times. *)
Theorem normalize_idempotent (name : string) :
  normal (normalize_name name) /\
  (forall s, normal s -> normalize_name s = s) /\
  normalize_name (normalize_name name) = normalize_name name.
Proof.
  assert (Hid : forall s, normal s -> normalize_name s = s).
  { intros s (Hall & Hh & Hl). unfold normalize_name.
    assert (Hchars : forall a, a ∈ chars s -> is_whitespace a = false /\ char_to_lower a = a /\ a <> "_"%char /\
      a <> " "%char /\ is_alphanumeric a || bool_decide (a = "-"%char) = true).
    { intros a Ha. apply name_char_facts. rewrite list.Forall_forall in Hall. by apply Hall. }
    assert (Htrim : trim s = s).
    { unfold trim. assert (Hws : Forall (fun a => is_whitespace a = false) (chars s))
        by (apply list.Forall_forall; intros a Ha; by apply Hchars).
      rewrite (drop_spaces_id (chars s) Hws), drop_spaces_id by by apply Forall_reverse.
      by rewrite reverse_involutive, of_chars_chars. }
    rewrite Htrim. unfold to_lowercase, replace_char. rewrite !chars_of_chars.
    rewrite (map_id_on char_to_lower) by (apply list.Forall_forall; intros a Ha; by apply Hchars).
    rewrite (map_id_on (fun c => if decide (c = " "%char) then _ else c))
      by (apply list.Forall_forall; intros a Ha; rewrite decide_False; [done|by apply Hchars]).
    rewrite (map_id_on (fun c => if decide (c = "_"%char) then _ else c))
      by (apply list.Forall_forall; intros a Ha; rewrite decide_False; [done|by apply Hchars]).
    rewrite filter_all by (apply list.Forall_forall; intros a Ha; by apply Hchars).
    unfold trim_matches. rewrite chars_of_chars, (drop_char_id _ (chars s)) by done.
    rewrite drop_char_id by (by rewrite head_reverse). by rewrite reverse_involutive, of_chars_chars. }
  split; [apply normalize_normal|]. split; [done|]. apply Hid, normalize_normal.
Qed.

(** ** Examples *)

Module RouteExamples.

Definition status_route : ChallengeRoute := route_get "/status/:hash" "status".

Lemma match_is_substitution_witness :
  matches status_route "GET" "/status/abc" = Some {["hash"%string := "abc"%string]} /\
  matches status_route "GET" "/status/a/b" = None /\
  (forall params, matches status_route "GET" "/status/abc" = Some params ->
     "GET"%string = method_as_str (cr_method status_route) /\
     "/status/abc"%string = join "/" (fill params <$> split "/" (cr_path status_route))).
Proof.
  assert (Hnd : NoDup (param_names (split "/" (cr_path status_route))))
    by (apply (bool_decide_unpack _); vm_compute; exact I).
  split; [vm_compute; reflexivity|]. split; [vm_compute; reflexivity|].
  exact (proj1 (match_is_substitution status_route "GET" "/status/abc" Hnd)).
Defined.

Example normalized : normalize_name " My_Great Challenge!- " = "my-great-challenge"%string.
Proof. reflexivity. Qed.
End RouteExamples.
