(* ===== verification/RpcHandlers.v ===== *)
(** * Authentication and HTTP handlers of the RPC server

    Models [crates/rpc-server/src/auth.rs], [types.rs] and [handlers.rs]: the
    verification of a validator's signature, and the handlers over the shared
    chain state and ban list.  Each handler takes its reading of the clock as
    [now], in milliseconds; hexadecimal and SS58 decoding, the text of
    identifiers, dates and floats, and the bincode form of a signed message are
    the class [RpcText]. *)

From S2P Require Import Prelude Float64 Crypto RustStrings RustBytes CoreTypes CoreState CoreMessages SubnetConfig Submission.

Class RpcText : Type := {
  hex_decode : string -> result string bytes;
  from_ss58check : string -> option bytes;
  uuid_string : Uuid -> string;
  to_rfc3339 : DateTime -> string;
  f64_display : f64 -> string;
  decode_signed : bytes -> result string SignedNetworkMessage;
  encode_signed : SignedNetworkMessage -> result string bytes
}.

(** ** Authentication *)

Inductive AuthError : Type := InvalidHotkey | AuthInvalidSignature | VerificationFailed | MessageExpired.

Definition AuthError_display (e : AuthError) : string :=
  match e with
  | InvalidHotkey => "Invalid hotkey format"
  | AuthInvalidSignature => "Invalid signature format"
  | VerificationFailed => "Signature verification failed"
  | MessageExpired => "Message expired"
  end.

Section auth.
Context `{Ext : External} `{Text : RpcText}.

Definition Hotkey_from_hex (s : string) : option Hotkey :=
  match hex_decode s with
  | Ok b => if (length b =? 32)%nat then Some (mk_Hotkey b) else None
  | Err _ => None
  end.
Definition Hotkey_from_ss58 (address : string) : option Hotkey := mk_Hotkey <$> from_ss58check address.

Definition verify_validator_signature (hotkey_hex message signature_hex : string) : result AuthError bool :=
  hotkey ← ok_or (Hotkey_from_hex hotkey_hex) InvalidHotkey;
  signature ← result_map_err (fun _ => AuthInvalidSignature) (hex_decode signature_hex);
  if negb (length signature =? 64)%nat then Err AuthInvalidSignature
  else Ok (sr25519_verify signature (str_bytes message) (hk_bytes hotkey)).

Definition create_auth_message (action : string) (timestamp : Z) (nonce : string) : string :=
  action +:+ ":" +:+ Z_to_string timestamp +:+ ":" +:+ nonce.

(** [now] and [timestamp] in seconds. *)
Definition verify_timestamp (now timestamp : Z) : bool := Z.abs (now - timestamp) <? 300.
End auth.

(** ** Requests and responses *)

Record RpcResponse (T : Type) : Type := mk_RpcResponse {
  rp_success : bool;
  rp_data : option T;
  rp_error : option string;
  rp_timestamp : DateTime
}.
Arguments mk_RpcResponse {T}.
Arguments rp_success {T}.
Arguments rp_data {T}.
Arguments rp_error {T}.
Arguments rp_timestamp {T}.

Definition rpc_ok {T} (now : DateTime) (data : T) : RpcResponse T := mk_RpcResponse true (Some data) None now.
Definition rpc_error {T} (now : DateTime) (msg : string) : RpcResponse T := mk_RpcResponse false None (Some msg) now.

Record HealthResponse : Type := mk_HealthResponse { hr_status : string; hr_version : string; hr_uptime_secs : Z }.

Record StatusResponse : Type := mk_StatusResponse {
  sr_netuid : Z;
  sr_name : string;
  sr_version : string;
  sr_block_height : Z;
  sr_epoch : Z;
  sr_validators_count : nat;
  sr_challenges_count : nat;
  sr_pending_jobs : nat;
  sr_is_paused : bool
}.

Record ValidatorResponse : Type := mk_ValidatorResponse {
  vr_hotkey : string;
  vr_stake : Z;
  vr_stake_tao : f64;
  vr_is_active : bool;
  vr_last_seen : DateTime;
  vr_peer_id : option string;
  vr_x25519_pubkey : option string
}.

Record ChallengeResponse : Type := mk_ChallengeResponse {
  cp_id : string;
  cp_name : string;
  cp_description : string;
  cp_code_hash : string;
  cp_is_active : bool;
  cp_emission_weight : f64;
  cp_timeout_secs : Z
}.

Record RegisterRequest : Type := mk_RegisterRequest {
  rg_hotkey : string;
  rg_signature : string;
  rg_message : string;
  rg_peer_id : option string
}.
Record RegisterResponse : Type := mk_RegisterResponse {
  rgr_accepted : bool;
  rgr_uid : option Z;
  rgr_reason : option string
}.

Record HeartbeatRequest : Type := mk_HeartbeatRequest {
  hbq_hotkey : string;
  hbq_signature : string;
  hbq_block_height : Z;
  hbq_peer_id : option string
}.
Record HeartbeatResponse : Type := mk_HeartbeatResponse {
  hbr_accepted : bool;
  hbr_current_block : Z;
  hbr_current_epoch : Z;
  hbr_next_sync_block : option Z
}.

Record JobResponse : Type := mk_JobResponse {
  jr_id : string;
  jr_challenge_id : string;
  jr_agent_hash : string;
  jr_status : string;
  jr_created_at : DateTime;
  jr_assigned_validator : option string
}.
Record JobResultRequest : Type := mk_JobResultRequest {
  jq_job_id : string;
  jq_hotkey : string;
  jq_signature : string;
  jq_score : f64;
  jq_metadata : option Json
}.
Record JobResultResponse : Type := mk_JobResultResponse { jrr_accepted : bool; jrr_job_id : string }.

Record RpcWeightEntry : Type := mk_RpcWeightEntry { rwe_hotkey : string; rwe_weight : f64 }.
Record WeightsResponse : Type := mk_WeightsResponse {
  wsr_epoch : Z;
  wsr_challenge_id : string;
  wsr_weights : list RpcWeightEntry;
  wsr_finalized : bool
}.
Record WeightCommitRequest : Type := mk_WeightCommitRequest {
  wcr_hotkey : string;
  wcr_signature : string;
  wcr_challenge_id : string;
  wcr_commitment_hash : string;
  wcr_epoch : Z
}.
Record WeightRevealRequest : Type := mk_WeightRevealRequest {
  wrr_hotkey : string;
  wrr_signature : string;
  wrr_challenge_id : string;
  wrr_weights : list RpcWeightEntry;
  wrr_salt : string;
  wrr_epoch : Z
}.

Record EpochResponse : Type := mk_EpochResponse {
  er_current_epoch : Z;
  er_current_block : Z;
  er_blocks_per_epoch : Z;
  er_phase : string;
  er_phase_progress : f64;
  er_blocks_until_next_phase : Z
}.

Record SyncResponse : Type := mk_SyncResponse {
  syr_block_height : Z;
  syr_epoch : Z;
  syr_state_hash : string;
  syr_validators : list ValidatorResponse;
  syr_challenges : list ChallengeResponse
}.

Record PaginationParams : Type := mk_PaginationParams { pg_offset : option Z; pg_limit : option Z }.
Definition PaginationParams_default : PaginationParams := mk_PaginationParams (Some 0) (Some 100).

(** ** The handlers *)

Record RpcState : Type := mk_RpcState {
  rs_chain : ChainState;
  rs_bans : BanList;
  rs_start_time : Z;
  rs_version : string;
  rs_netuid : Z;
  rs_name : string;
  rs_min_stake : Z
}.

Definition RpcState_new (now : Z) (version : string) (chain : ChainState) (bans : BanList) (netuid : Z)
    (name : string) (min_stake : Z) : RpcState :=
  mk_RpcState chain bans now version netuid name min_stake.

Definition set_chain (c : ChainState) (s : RpcState) : RpcState :=
  mk_RpcState c (rs_bans s) (rs_start_time s) (rs_version s) (rs_netuid s) (rs_name s) (rs_min_stake s).

(** [iter().skip(offset).take(limit)]. *)
Definition page {A} (p : PaginationParams) (l : list A) : list A :=
  take (Z.to_nat (Z.min (default 100 (pg_limit p)) 1000)) (drop (Z.to_nat (default 0 (pg_offset p))) l).

Definition status_debug (s : JobStatus) : string :=
  match s with
  | JobPending => "Pending" | JobRunning => "Running" | JobCompleted => "Completed"
  | JobFailed => "Failed" | JobTimeout => "Timeout"
  end.

Section handlers.
Context `{Ext : External} `{Text : RpcText} `{Ids : IdSource} {HH : HashOrder Hotkey} {HZ : HashOrder Z}.
Implicit Type s : RpcState.

Definition validator_response (v : ValidatorInfo) : ValidatorResponse :=
  mk_ValidatorResponse (Hotkey_to_hex (vi_hotkey v)) (stake_rao (vi_stake v)) (as_tao (vi_stake v))
    (vi_is_active v) (vi_last_seen v) (vi_peer_id v) (vi_x25519_pubkey v).
Definition challenge_response (c : Challenge) : ChallengeResponse :=
  mk_ChallengeResponse (uuid_string (ch_id c)) (ch_name c) (ch_description c) (ch_code_hash c) (ch_is_active c)
    (chc_emission_weight (ch_config c)) (chc_timeout_secs (ch_config c)).
Definition job_response (j : Job) : JobResponse :=
  mk_JobResponse (uuid_string (job_id j)) (uuid_string (job_challenge_id j)) (job_agent_hash j)
    (status_debug (job_status j)) (job_created_at j) (Hotkey_to_hex <$> job_assigned_validator j).

Definition health_handler (now : Z) s : RpcResponse HealthResponse :=
  rpc_ok now (mk_HealthResponse "healthy" (rs_version s) (Z.max 0 (now - rs_start_time s) / 1000)).

Definition status_handler (now : Z) s : RpcResponse StatusResponse :=
  let chain := rs_chain s in
  rpc_ok now (mk_StatusResponse (rs_netuid s) (rs_name s) (rs_version s) (st_block_height chain) (st_epoch chain)
    (size (st_validators chain)) (size (st_challenges chain)) (length (st_pending_jobs chain)) false).

Definition validators_handler (now : Z) (p : PaginationParams) s : RpcResponse (list ValidatorResponse) :=
  rpc_ok now (validator_response <$> page p (hm_values (st_validators (rs_chain s)))).

Definition challenges_handler (now : Z) s : RpcResponse (list ChallengeResponse) :=
  rpc_ok now (challenge_response <$> hm_values (st_challenges (rs_chain s))).

(** The first challenge of that identifier or name. *)
Definition named_challenge (id : string) (chain : ChainState) : option Challenge :=
  List.find (fun c => bool_decide (uuid_string (ch_id c) = id) || bool_decide (ch_name c = id))
    (hm_values (st_challenges chain)).

(** [Err(StatusCode::NOT_FOUND)] is [None]. *)
Definition challenge_handler (now : Z) (id : string) s : option (RpcResponse ChallengeResponse) :=
  (fun c => rpc_ok now (challenge_response c)) <$> named_challenge id (rs_chain s).

Definition refused (reason : string) : RegisterResponse := mk_RegisterResponse false None (Some reason).

Definition register_handler (now : DateTime) (req : RegisterRequest) s : RpcResponse RegisterResponse * RpcState :=
  match verify_validator_signature (rg_hotkey req) (rg_message req) (rg_signature req) with
  | Ok true =>
      match Hotkey_from_hex (rg_hotkey req) with
      | None => (rpc_ok now (refused "Invalid hotkey format"), s)
      | Some hotkey =>
          if is_validator_banned (rs_bans s) hotkey then (rpc_ok now (refused "Validator is banned"), s)
          else if bool_decide (is_Some (st_validators (rs_chain s) !! hotkey)) then
            (rpc_ok now (mk_RegisterResponse true (Some 0) (Some "Already registered"%string)), s)
          else
            let info := ValidatorInfo_new now hotkey (mk_Stake (rs_min_stake s)) in
            match add_validator now info (rs_chain s) with
            | (Ok _, chain) => (rpc_ok now (mk_RegisterResponse true (Some 0) None), set_chain chain s)
            | (Err e, chain) =>
                (rpc_ok now (refused ("Registration failed: " +:+ MiniChainError_to_string e)), set_chain chain s)
            end
      end
  | Ok false => (rpc_ok now (refused "Invalid signature"), s)
  | Err e => (rpc_ok now (refused ("Auth error: " +:+ AuthError_display e)), s)
  end.

(** [validator.last_seen = now], and the peer identifier when one is given. *)
Definition seen (now : DateTime) (peer_id : option string) (v : ValidatorInfo) : ValidatorInfo :=
  mk_ValidatorInfo (vi_hotkey v) (vi_stake v) (vi_is_active v) now
    (match peer_id with Some p => Some p | None => vi_peer_id v end) (vi_x25519_pubkey v).

Definition heartbeat_handler (now : DateTime) (req : HeartbeatRequest) s : RpcResponse HeartbeatResponse * RpcState :=
  match Hotkey_from_hex (hbq_hotkey req) with
  | None => (rpc_error now "Invalid hotkey", s)
  | Some hotkey =>
      let chain := rs_chain s in
      match st_validators chain !! hotkey with
      | Some v =>
          (rpc_ok now (mk_HeartbeatResponse true (st_block_height chain) (st_epoch chain) None),
           set_chain (set_validators (<[hotkey := seen now (hbq_peer_id req) v]> (st_validators chain)) chain) s)
      | None => (rpc_ok now (mk_HeartbeatResponse false (st_block_height chain) (st_epoch chain) None), s)
      end
  end.

Definition jobs_handler (now : Z) (p : PaginationParams) s : RpcResponse (list JobResponse) :=
  rpc_ok now (job_response <$> page p (st_pending_jobs (rs_chain s))).

Definition complete_job (score : f64) (j : Job) : Job :=
  mk_Job (job_id j) (job_challenge_id j) (job_agent_hash j) JobCompleted (job_created_at j)
    (job_assigned_validator j) (Some (Score_new score f64_one)).

Definition job_result_handler (now : DateTime) (id : string) (req : JobResultRequest) s :
    RpcResponse JobResultResponse * RpcState :=
  let msg := ("result:" +:+ id +:+ ":" +:+ f64_display (jq_score req))%string in
  match verify_validator_signature (jq_hotkey req) msg (jq_signature req) with
  | Ok true =>
      match uuid_parse_str id with
      | None => (rpc_error now "Invalid job ID", s)
      | Some uuid =>
          let chain := rs_chain s in
          match list_find (fun j => job_id j = uuid) (st_pending_jobs chain) with
          | Some (pos, job) =>
              (rpc_ok now (mk_JobResultResponse true id),
               set_chain (set_pending_jobs (<[pos := complete_job (jq_score req) job]> (st_pending_jobs chain)) chain) s)
          | None => (rpc_ok now (mk_JobResultResponse false id), s)
          end
      end
  | _ => (rpc_ok now (mk_JobResultResponse false id), s)
  end.

(** The phase of an epoch of 100 blocks, its length so far and what is left. *)
Definition epoch_phase (block_in_epoch : Z) : string * Z * Z * Z :=
  if block_in_epoch <? 75 then ("evaluation"%string, 0, 75, 75 - block_in_epoch)
  else if block_in_epoch <? 88 then ("commit"%string, 75, 88, 88 - block_in_epoch)
  else ("reveal"%string, 88, 100, 100 - block_in_epoch).

Definition epoch_handler (now : Z) s : RpcResponse EpochResponse :=
  let chain := rs_chain s in
  let blocks_per_epoch := 100 in
  let block_in_epoch := st_block_height chain mod blocks_per_epoch in
  let '(phase, phase_start, phase_end, remaining) := epoch_phase block_in_epoch in
  rpc_ok now (mk_EpochResponse (st_epoch chain) (st_block_height chain) blocks_per_epoch phase
    (f64_div (f64_of_Z (block_in_epoch - phase_start)) (f64_of_Z (phase_end - phase_start))) remaining).

Definition sync_handler (now : Z) s : RpcResponse SyncResponse :=
  let chain := rs_chain s in
  rpc_ok now (mk_SyncResponse (st_block_height chain) (st_epoch chain) (hex_encode (st_state_hash chain))
    (validator_response <$> hm_values (st_validators chain))
    (challenge_response <$> hm_values (st_challenges chain))).

Definition weight_commit_handler (now : Z) (req : WeightCommitRequest) : RpcResponse bool :=
  let msg := ("commit:" +:+ wcr_challenge_id req +:+ ":" +:+ Z_to_string (wcr_epoch req) +:+ ":" +:+
              wcr_commitment_hash req)%string in
  match verify_validator_signature (wcr_hotkey req) msg (wcr_signature req) with
  | Ok true => rpc_ok now true
  | _ => rpc_error now "Invalid signature"
  end.

Definition weight_reveal_handler (now : Z) (req : WeightRevealRequest) : RpcResponse bool :=
  let weights_str := join "," ((fun w => rwe_hotkey w +:+ ":" +:+ f64_display (rwe_weight w)) <$> wrr_weights req) in
  let msg := ("reveal:" +:+ wrr_challenge_id req +:+ ":" +:+ Z_to_string (wrr_epoch req) +:+ ":" +:+
              weights_str +:+ ":" +:+ wrr_salt req)%string in
  match verify_validator_signature (wrr_hotkey req) msg (wrr_signature req) with
  | Ok true => rpc_ok now true
  | _ => rpc_error now "Invalid signature"
  end.
End handlers.
