(* ===== verification/JsonRpc.v ===== *)
(** * The JSON-RPC handler

    Models [crates/rpc-server/src/jsonrpc.rs]: requests and responses, the
    handler's state with its channels, and every method of the dispatch,
    [sudo_submit] with what it applies locally, sends to the orchestrator and
    broadcasts.  A channel is the list of what was sent and whether its receiver
    still exists.  The members of a JSON object are listed in the order the code
    writes them. *)

From Stdlib Require Import SpecFloat.
From S2P Require Import Prelude Float64 FloatOrder Crypto RustStrings RustBytes CoreTypes CoreState CoreMessages SubnetConfig Submission ChallengeRoutes RpcHandlers.

(** ** JSON values *)

(** [json!] of scalars; what is not finite becomes null. *)
Definition jn (n : Z) : Json := JNumber (PosInt n).
Definition jlen (n : nat) : Json := jn (Z.of_nat n).
Definition jf (x : f64) : Json :=
  match x with
  | S754_nan | S754_infinity _ => JNull
  | _ => JNumber (JsonFloat x)
  end.
Definition js (s : string) : Json := JString s.
Definition jopt {A} (f : A -> Json) (o : option A) : Json := match o with Some a => f a | None => JNull end.

(** ** Requests and responses *)

Record JsonRpcRequest : Type := mk_JsonRpcRequest {
  jq_jsonrpc : string;
  jq_method : string;
  jq_params : Json;
  jq_id : Json
}.

Record JsonRpcError : Type := mk_JsonRpcError {
  je_code : Z;
  je_message : string;
  je_data : option Json
}.

Record JsonRpcResponse : Type := mk_JsonRpcResponse {
  jp_jsonrpc : string;
  jp_result : option Json;
  jp_error : option JsonRpcError;
  jp_id : Json
}.

Definition resp_result (id result : Json) : JsonRpcResponse := mk_JsonRpcResponse "2.0" (Some result) None id.
Definition resp_error (id : Json) (code : Z) (message : string) : JsonRpcResponse :=
  mk_JsonRpcResponse "2.0" None (Some (mk_JsonRpcError code message None)) id.
Definition resp_error_with_data (id : Json) (code : Z) (message : string) (data : Json) : JsonRpcResponse :=
  mk_JsonRpcResponse "2.0" None (Some (mk_JsonRpcError code message (Some data))) id.

Definition PARSE_ERROR : Z := -32700.
Definition INVALID_REQUEST : Z := -32600.
Definition METHOD_NOT_FOUND : Z := -32601.
Definition INVALID_PARAMS : Z := -32602.
Definition INTERNAL_ERROR : Z := -32603.
Definition CHALLENGE_NOT_FOUND : Z := -32000.
Definition VALIDATOR_NOT_FOUND : Z := -32001.
Definition JOB_NOT_FOUND : Z := -32002.
Definition ROUTE_NOT_FOUND : Z := -32003.
Definition INSUFFICIENT_STAKE : Z := -32004.
Definition UNAUTHORIZED : Z := -32005.

(** ** The handler's state *)

Record ChallengeRouteInfo : Type := mk_ChallengeRouteInfo {
  cri_method : string;
  cri_path : string;
  cri_full_path : string;
  cri_description : string;
  cri_requires_auth : bool;
  cri_rate_limit : Z
}.
Record RegisteredChallengeRoute : Type := mk_RegisteredChallengeRoute {
  rcr_challenge_id : string;
  rcr_challenge_name : string;
  rcr_route : ChallengeRouteInfo
}.

Inductive OrchestratorCommand : Type :=
| AddContainer (config : ChallengeContainerConfig)
| UpdateContainer (config : ChallengeContainerConfig)
| RemoveContainer (id : ChallengeId).

Record Channel (A : Type) : Type := mk_Channel { chan_open : bool; chan_sent : list A }.
Arguments mk_Channel {A}.
Arguments chan_open {A}.
Arguments chan_sent {A}.

(** [tx.send(x)], and whether it succeeded. *)
Definition chan_send {A} (x : A) (c : Channel A) : bool * Channel A :=
  if chan_open c then (true, mk_Channel true (chan_sent c ++ [x])) else (false, c).

Section handler.
Context `{Ext : External} `{Text : RpcText} `{Ids : IdSource}.
Context {HH : HashOrder Hotkey} {HZ : HashOrder Z} {HS : HashOrder string}.

Record RpcHandler : Type := mk_RpcHandler {
  rh_chain : ChainState;
  rh_version : string;
  rh_netuid : Z;
  rh_chain_name : string;
  rh_peers : list string;
  rh_routes : gmap string (list ChallengeRoute);
  rh_route_handler : option (string -> RouteRequest -> RouteResponse);
  rh_broadcast : option (Channel bytes);
  rh_keypair : option Keypair;
  rh_orchestrator : option (Channel OrchestratorCommand)
}.
Implicit Type h : RpcHandler.

Definition RpcHandler_new (version : string) (chain : ChainState) (netuid : Z) : RpcHandler :=
  mk_RpcHandler chain version netuid ("MiniChain-" +:+ Z_to_string netuid) [] ∅ None None None None.

Definition on_chain (f : ChainState -> ChainState) h : RpcHandler :=
  mk_RpcHandler (f (rh_chain h)) (rh_version h) (rh_netuid h) (rh_chain_name h) (rh_peers h) (rh_routes h)
    (rh_route_handler h) (rh_broadcast h) (rh_keypair h) (rh_orchestrator h).
Definition on_peers (f : list string -> list string) h : RpcHandler :=
  mk_RpcHandler (rh_chain h) (rh_version h) (rh_netuid h) (rh_chain_name h) (f (rh_peers h)) (rh_routes h)
    (rh_route_handler h) (rh_broadcast h) (rh_keypair h) (rh_orchestrator h).
Definition on_routes (f : gmap string (list ChallengeRoute) -> gmap string (list ChallengeRoute)) h : RpcHandler :=
  mk_RpcHandler (rh_chain h) (rh_version h) (rh_netuid h) (rh_chain_name h) (rh_peers h) (f (rh_routes h))
    (rh_route_handler h) (rh_broadcast h) (rh_keypair h) (rh_orchestrator h).
Definition set_channels (b : option (Channel bytes)) (k : option Keypair) (o : option (Channel OrchestratorCommand)) h :
    RpcHandler :=
  mk_RpcHandler (rh_chain h) (rh_version h) (rh_netuid h) (rh_chain_name h) (rh_peers h) (rh_routes h)
    (rh_route_handler h) b k o.

Definition set_keypair (k : Keypair) h : RpcHandler := set_channels (rh_broadcast h) (Some k) (rh_orchestrator h) h.
Definition set_broadcast_tx (tx : Channel bytes) h : RpcHandler :=
  set_channels (Some tx) (rh_keypair h) (rh_orchestrator h) h.
Definition set_orchestrator_tx (tx : Channel OrchestratorCommand) h : RpcHandler :=
  set_channels (rh_broadcast h) (rh_keypair h) (Some tx) h.
Definition set_route_handler (f : string -> RouteRequest -> RouteResponse) h : RpcHandler :=
  mk_RpcHandler (rh_chain h) (rh_version h) (rh_netuid h) (rh_chain_name h) (rh_peers h) (rh_routes h)
    (Some f) (rh_broadcast h) (rh_keypair h) (rh_orchestrator h).

Definition set_peers (peers : list string) h : RpcHandler := on_peers (fun _ => peers) h.
Definition add_peer (peer : string) h : RpcHandler := on_peers (fun l => l ++ [peer]) h.
Definition remove_peer (peer : string) h : RpcHandler := on_peers (filter (fun p => p <> peer)) h.

Definition normalize_challenge_name : string -> string := normalize_name.

Definition register_challenge_routes (challenge_id : string) (routes : list ChallengeRoute) h : RpcHandler :=
  match routes with
  | [] => h
  | _ => on_routes (<[challenge_id := routes]>) h
  end.
Definition unregister_challenge_routes (challenge_id : string) h : RpcHandler := on_routes (delete challenge_id) h.

Definition get_all_challenge_routes h : list RegisteredChallengeRoute :=
  '(challenge_id, routes) ← hm_iter (rh_routes h);
  let challenge_name :=
    match List.find (fun c => bool_decide (uuid_string (ch_id c) = challenge_id))
            (hm_values (st_challenges (rh_chain h))) with
    | Some c => ch_name c
    | None => challenge_id
    end in
  (fun route => mk_RegisteredChallengeRoute challenge_id challenge_name
     (mk_ChallengeRouteInfo (method_as_str (cr_method route)) (cr_path route)
        ("/challenge/" +:+ challenge_id +:+ cr_path route) (cr_description route) (cr_requires_auth route)
        (cr_rate_limit route))) <$> routes.

(** ** Parameters *)

Definition get_param_str (params : Json) (index : nat) (name : string) : option string :=
  match json_at index params ≫= json_str with
  | Some s => Some s
  | None => json_get name params ≫= json_str
  end.
Definition get_param_u64 (params : Json) (index : nat) (name : string) : option Z :=
  match json_at index params ≫= json_as_u64 with
  | Some n => Some n
  | None => json_get name params ≫= json_as_u64
  end.
Definition get_param_bool (params : Json) (name : string) : option bool := json_get name params ≫= json_as_bool.

(** ** System methods *)

Definition rpc_methods (id : Json) : JsonRpcResponse :=
  resp_result id (JObject [("version", jn 1);
    ("methods", JArray (js <$>
      ["system_health"; "system_version"; "system_name"; "system_properties"; "system_peers"; "system_networkState";
       "chain_getHead"; "chain_getBlock"; "chain_getBlockHash"; "chain_getFinalizedHead"; "chain_getState";
       "state_getStorage"; "state_getKeys"; "state_getMetadata"; "state_getRuntimeVersion";
       "validator_list"; "validator_get"; "validator_count";
       "challenge_list"; "challenge_get"; "challenge_getRoutes"; "challenge_listAllRoutes";
       "job_list"; "job_get"; "epoch_current"; "epoch_getPhase"; "rpc_methods";
       "monitor_getChallengeHealth"; "monitor_getChallengeLogs"]))])%string.

Definition system_health (id : Json) h : JsonRpcResponse :=
  let peers_count := length (rh_peers h) in
  resp_result id (JObject [("isSyncing", JBool false); ("peers", jlen peers_count); ("shouldHavePeers", JBool true);
    ("health", js (if (0 <? peers_count)%nat || negb (size (st_validators (rh_chain h)) =? 0)%nat
                   then "healthy" else "degraded"))])%string.
Definition system_version (id : Json) h : JsonRpcResponse := resp_result id (js (rh_version h)).
Definition system_name (id : Json) h : JsonRpcResponse := resp_result id (js (rh_chain_name h)).
Definition system_properties (id : Json) h : JsonRpcResponse :=
  let config := st_config (rh_chain h) in
  resp_result id (JObject [("netuid", jn (rh_netuid h)); ("tokenSymbol", js "TAO"); ("tokenDecimals", jn 9);
    ("ss58Format", jn 42); ("minStake", jn (stake_rao (nc_min_stake config)));
    ("minStakeTao", jf (as_tao (nc_min_stake config))); ("consensusThreshold", jf (nc_consensus_threshold config));
    ("blockTimeMs", jn (nc_block_time_ms config))])%string.
Definition system_peers (id : Json) h : JsonRpcResponse := resp_result id (JArray (js <$> rh_peers h)).
Definition system_network_state (id : Json) h : JsonRpcResponse :=
  resp_result id (JObject [("peerId", JNull); ("listenedAddresses", JArray []);
    ("connectedPeers", jlen (length (rh_peers h))); ("notConnectedPeers", JArray []); ("averagePing", JNull);
    ("validators", jlen (size (st_validators (rh_chain h))))])%string.

(** ** Chain methods *)

Definition zero_hash_text : string := "0x0000000000000000000000000000000000000000000000000000000000000000".
Definition state_hash_text h : string := "0x" +:+ hex_encode (st_state_hash (rh_chain h)).

Definition chain_get_head (id : Json) h : JsonRpcResponse :=
  resp_result id (JObject [("number", jn (st_block_height (rh_chain h))); ("hash", js (state_hash_text h));
    ("parentHash", js zero_hash_text); ("stateRoot", js (state_hash_text h));
    ("extrinsicsRoot", js zero_hash_text)])%string.

(** No number, or the current one. *)
Definition is_current (params : Json) h : bool :=
  match get_param_u64 params 0 "number" with Some n => n =? st_block_height (rh_chain h) | None => true end.

Definition chain_get_block (id params : Json) h : JsonRpcResponse :=
  if is_current params h then
    resp_result id (JObject [("block", JObject [
        ("header", JObject [("number", jn (st_block_height (rh_chain h))); ("hash", js (state_hash_text h));
           ("parentHash", js zero_hash_text); ("stateRoot", js (state_hash_text h))]);
        ("extrinsics", JArray [])]);
      ("justifications", JNull)])%string
  else resp_error id INVALID_PARAMS "Block not found (only current block available)".

Definition chain_get_block_hash (id params : Json) h : JsonRpcResponse :=
  if is_current params h then resp_result id (js (state_hash_text h)) else resp_result id JNull.

Definition chain_get_finalized_head (id : Json) h : JsonRpcResponse := resp_result id (js (state_hash_text h)).

Definition config_json (cid : ChallengeId) (c : ChallengeContainerConfig) : Json :=
  JObject [("challenge_id", js (uuid_string cid)); ("name", js (ccc_name c)); ("docker_image", js (ccc_docker_image c));
    ("mechanism_id", jn (ccc_mechanism_id c)); ("emission_weight", jf (ccc_emission_weight c));
    ("timeout_secs", jn (ccc_timeout_secs c)); ("cpu_cores", jf (ccc_cpu_cores c));
    ("memory_mb", jn (ccc_memory_mb c)); ("gpu_required", JBool (ccc_gpu_required c))]%string.
Definition mechanism_json (c : MechanismWeightConfig) : Json :=
  JObject [("mechanism_id", jn (mwc_mechanism_id c)); ("base_burn_rate", jf (mwc_base_burn_rate c));
    ("equal_distribution", JBool (mwc_equal_distribution c)); ("min_weight_threshold", jf (mwc_min_weight_threshold c));
    ("max_weight_cap", jf (mwc_max_weight_cap c)); ("is_active", JBool (mwc_active c))]%string.
Definition allocation_json (cid : ChallengeId) (a : ChallengeWeightAllocation) : Json :=
  JObject [("challenge_id", js (uuid_string cid)); ("mechanism_id", jn (cwa_mechanism_id a));
    ("weight_ratio", jf (cwa_weight_ratio a)); ("active", JBool (cwa_active a))]%string.
Definition stake_json (hotkey : Hotkey) (v : ValidatorInfo) : Json :=
  JObject [("hotkey", js (Hotkey_to_hex hotkey)); ("stake", jn (stake_rao (vi_stake v)));
    ("stake_tao", jf (as_tao (vi_stake v)))]%string.

Definition chain_get_state (id : Json) h : JsonRpcResponse :=
  let chain := rh_chain h in
  let config := st_config chain in
  resp_result id (JObject [("blockHeight", jn (st_block_height chain)); ("epoch", jn (st_epoch chain));
    ("stateHash", js (state_hash_text h)); ("sudoKey", js (Hotkey_to_hex (st_sudo_key chain)));
    ("validators", JObject ((fun x => (Hotkey_to_hex x.1, stake_json x.1 x.2)) <$> hm_iter (st_validators chain)));
    ("challenges", jlen (size (st_challenges chain)));
    ("challenge_configs", JObject ((fun x => (uuid_string x.1, config_json x.1 x.2)) <$> hm_iter (st_challenge_configs chain)));
    ("mechanism_configs", JObject ((fun x => (Z_to_string x.1, mechanism_json x.2)) <$> hm_iter (st_mechanism_configs chain)));
    ("challenge_weights", JObject ((fun x => (uuid_string x.1, allocation_json x.1 x.2)) <$> hm_iter (st_challenge_weights chain)));
    ("pendingJobs", jlen (length (st_pending_jobs chain)));
    ("config", JObject [("subnetId", jn (nc_subnet_id config)); ("minStake", jn (stake_rao (nc_min_stake config)));
       ("minStakeTao", jf (as_tao (nc_min_stake config))); ("consensusThreshold", jf (nc_consensus_threshold config));
       ("blockTimeMs", jn (nc_block_time_ms config)); ("maxValidators", jlen (nc_max_validators config))])])%string.

(** ** State methods *)

Definition validator_json (v : ValidatorInfo) : Json :=
  JObject [("hotkey", js (Hotkey_to_hex (vi_hotkey v))); ("stake", jn (stake_rao (vi_stake v)));
    ("stakeTao", jf (as_tao (vi_stake v))); ("isActive", JBool (vi_is_active v));
    ("lastSeen", js (to_rfc3339 (vi_last_seen v))); ("peerId", jopt js (vi_peer_id v))]%string.

Definition challenge_json (c : Challenge) : Json :=
  JObject [("id", js (uuid_string (ch_id c))); ("name", js (ch_name c)); ("description", js (ch_description c));
    ("codeHash", js (ch_code_hash c)); ("isActive", JBool (ch_is_active c));
    ("mechanismId", jn (chc_mechanism_id (ch_config c))); ("emissionWeight", jf (chc_emission_weight (ch_config c)));
    ("timeoutSecs", jn (chc_timeout_secs (ch_config c)))]%string.

(** What [&k[10..]] leaves of a key. *)
Definition after_prefix (k : string) : string := of_chars (drop 10 (chars k)).

Definition state_get_storage (id params : Json) h : JsonRpcResponse :=
  let chain := rh_chain h in
  match get_param_str params 0 "key" with
  | None => resp_error id INVALID_PARAMS "Missing 'key' parameter"
  | Some key =>
      if bool_decide (key = "blockHeight"%string) then resp_result id (jn (st_block_height chain))
      else if bool_decide (key = "epoch"%string) then resp_result id (jn (st_epoch chain))
      else if bool_decide (key = "stateHash"%string) then resp_result id (js (state_hash_text h))
      else if bool_decide (key = "sudoKey"%string) then resp_result id (js (Hotkey_to_hex (st_sudo_key chain)))
      else if bool_decide (key = "validatorCount"%string) then resp_result id (jlen (size (st_validators chain)))
      else if bool_decide (key = "challengeCount"%string) then resp_result id (jlen (size (st_challenges chain)))
      else if bool_decide (key = "jobCount"%string) then resp_result id (jlen (length (st_pending_jobs chain)))
      else if starts_with "validator:" key then
        match Hotkey_from_hex (after_prefix key) with
        | Some hk => resp_result id (jopt validator_json (st_validators chain !! hk))
        | None => resp_error id INVALID_PARAMS "Invalid hotkey format"
        end
      else if starts_with "challenge:" key then
        resp_result id (jopt challenge_json (named_challenge (after_prefix key) chain))
      else resp_error id INVALID_PARAMS ("Unknown storage key: " +:+ key +:+
             ". Available: blockHeight, epoch, stateHash, sudoKey, validatorCount, challengeCount, jobCount, validator:<hotkey>, challenge:<id>")
  end.

Definition storage_keys h : list string :=
  ["blockHeight"; "epoch"; "stateHash"; "sudoKey"; "validatorCount"; "challengeCount"; "jobCount"]%string ++
  ((fun v => "validator:" +:+ Hotkey_to_hex v) <$> hm_keys (st_validators (rh_chain h))) ++
  (hm_values (st_challenges (rh_chain h)) ≫= (fun c =>
     ["challenge:" +:+ uuid_string (ch_id c); "challenge:" +:+ ch_name c])).

Definition state_get_keys (id params : Json) h : JsonRpcResponse :=
  let prefix := default EmptyString (get_param_str params 0 "prefix") in
  resp_result id (JArray (js <$> filter (fun k => starts_with prefix k = true) (storage_keys h))).

Definition state_get_metadata (id : Json) h : JsonRpcResponse :=
  let pallet (name : string) (storage calls : list string) :=
    JObject ([("name", js name); ("storage", JArray (js <$> storage))]%string ++
             match calls with [] => [] | _ => [("calls"%string, JArray (js <$> calls))] end) in
  resp_result id (JObject [("version", js (rh_version h));
    ("pallets", JArray [pallet "System" ["blockHeight"; "epoch"; "stateHash"] [];
       pallet "Validators" ["validatorCount"] ["validator_list"; "validator_get"];
       pallet "Challenges" ["challengeCount"] ["challenge_list"; "challenge_get"; "challenge_getRoutes"];
       pallet "Jobs" ["jobCount"] ["job_list"; "job_get"]]);
    ("extrinsics", JArray []);
    ("constants", JObject [("netuid", jn (rh_netuid h)); ("minStake", jn (stake_rao (nc_min_stake (st_config (rh_chain h)))))]);
    ("challengeRoutes", jlen (size (rh_routes h)))])%string.

Definition state_get_runtime_version (id : Json) : JsonRpcResponse :=
  resp_result id (JObject [("specName", js "platform"); ("implName", js "platform-node"); ("specVersion", jn 1);
    ("implVersion", jn 1);
    ("apis", JArray ((fun a => JArray [js a; jn 1]) <$>
       ["system"; "chain"; "state"; "validator"; "challenge"; "job"; "epoch"]))])%string.

(** ** Validators and the metagraph *)

(** [offset] and [limit] of a listing, the limit at most 1000. *)
Definition list_offset (params : Json) : Z := default 0 (get_param_u64 params 0 "offset").
Definition list_limit (params : Json) : Z := Z.min (default 100 (get_param_u64 params 1 "limit")) 1000.

Definition validator_list (id params : Json) h : JsonRpcResponse :=
  let validators := hm_values (st_validators (rh_chain h)) in
  resp_result id (JObject [("total", jlen (size (st_validators (rh_chain h)))); ("offset", jn (list_offset params));
    ("limit", jn (list_limit params));
    ("validators", JArray (validator_json <$>
       take (Z.to_nat (list_limit params)) (drop (Z.to_nat (list_offset params)) validators)))])%string.

Definition validator_get (id params : Json) h : JsonRpcResponse :=
  match get_param_str params 0 "hotkey" with
  | None => resp_error id INVALID_PARAMS "Missing 'hotkey' parameter"
  | Some hotkey =>
      match Hotkey_from_hex hotkey with
      | None => resp_error id INVALID_PARAMS "Invalid hotkey format"
      | Some hk =>
          match st_validators (rh_chain h) !! hk with
          | Some v => resp_result id (validator_json v)
          | None => resp_error id VALIDATOR_NOT_FOUND "Validator not found"
          end
      end
  end.

Definition validator_count (id : Json) h : JsonRpcResponse := resp_result id (jlen (size (st_validators (rh_chain h)))).

Definition metagraph_hotkeys (id : Json) h : JsonRpcResponse :=
  let hotkeys := Hotkey_to_hex <$> key_order (st_registered_hotkeys (rh_chain h)) in
  resp_result id (JObject [("count", jlen (length hotkeys)); ("hotkeys", JArray (js <$> hotkeys))])%string.

Definition metagraph_is_registered (id params : Json) h : JsonRpcResponse :=
  match get_param_str params 0 "hotkey" with
  | None => resp_error id INVALID_PARAMS "Missing 'hotkey' parameter"
  | Some hotkey =>
      match (match Hotkey_from_hex hotkey with Some hk => Some hk | None => Hotkey_from_ss58 hotkey end) with
      | None => resp_error id INVALID_PARAMS "Invalid hotkey format"
      | Some hk =>
          resp_result id (JObject [("hotkey", js hotkey);
            ("isRegistered", JBool (bool_decide (hk ∈ st_registered_hotkeys (rh_chain h))))])%string
      end
  end.

(** ** Challenges *)

Definition routes_count (key : string) h : nat := match rh_routes h !! key with Some r => length r | None => 0 end.

Definition challenge_list (id params : Json) h : JsonRpcResponse :=
  let chain := rh_chain h in
  let only_active := default false (get_param_bool params "onlyActive") in
  let wasm := (fun c => JObject [("id", js (uuid_string (ch_id c))); ("name", js (ch_name c));
      ("description", js (ch_description c)); ("codeHash", js (ch_code_hash c)); ("isActive", JBool (ch_is_active c));
      ("owner", js (Hotkey_to_hex (ch_owner c))); ("mechanismId", jn (chc_mechanism_id (ch_config c)));
      ("emissionWeight", jf (chc_emission_weight (ch_config c))); ("timeoutSecs", jn (chc_timeout_secs (ch_config c)));
      ("routesCount", jlen (routes_count (uuid_string (ch_id c)) h)); ("type", js "wasm")]%string) <$>
    filter (fun c => negb only_active || ch_is_active c = true) (hm_values (st_challenges chain)) in
  let docker := (fun x => let '(cid, c) := x in JObject [("id", js (uuid_string cid)); ("name", js (ccc_name c));
      ("description", js ("Docker challenge: " +:+ ccc_docker_image c)); ("dockerImage", js (ccc_docker_image c));
      ("isActive", JBool true); ("mechanismId", jn (ccc_mechanism_id c)); ("emissionWeight", jf (ccc_emission_weight c));
      ("timeoutSecs", jn (ccc_timeout_secs c)); ("routesCount", jlen (routes_count (uuid_string cid) h));
      ("type", js "docker")]%string) <$> hm_iter (st_challenge_configs chain) in
  let challenges := wasm ++ docker in
  resp_result id (JObject [("total", jlen (length challenges)); ("challenges", JArray challenges)])%string.

Definition route_json (challenge_id : string) (r : ChallengeRoute) : Json :=
  JObject [("method", js (method_as_str (cr_method r))); ("path", js (cr_path r));
    ("fullPath", js ("/challenge/" +:+ challenge_id +:+ cr_path r)); ("description", js (cr_description r));
    ("requiresAuth", JBool (cr_requires_auth r)); ("rateLimit", jn (cr_rate_limit r))]%string.

Definition challenge_get (id params : Json) h : JsonRpcResponse :=
  match get_param_str params 0 "id" with
  | None => resp_error id INVALID_PARAMS "Missing 'id' parameter"
  | Some challenge_id =>
      match named_challenge challenge_id (rh_chain h) with
      | Some c =>
          let cid := uuid_string (ch_id c) in
          resp_result id (JObject [("id", js cid); ("name", js (ch_name c)); ("description", js (ch_description c));
            ("codeHash", js (ch_code_hash c)); ("codeSize", jlen (length (ch_wasm_code c)));
            ("isActive", JBool (ch_is_active c)); ("owner", js (Hotkey_to_hex (ch_owner c)));
            ("mechanismId", jn (chc_mechanism_id (ch_config c)));
            ("emissionWeight", jf (chc_emission_weight (ch_config c)));
            ("timeoutSecs", jn (chc_timeout_secs (ch_config c))); ("createdAt", js (to_rfc3339 (ch_created_at c)));
            ("routes", JArray (route_json cid <$> default [] (rh_routes h !! cid)))])%string
      | None => resp_error id CHALLENGE_NOT_FOUND ("Challenge '" +:+ challenge_id +:+ "' not found")
      end
  end.

Definition challenge_get_routes (id params : Json) h : JsonRpcResponse :=
  match get_param_str params 0 "id" with
  | None => resp_error id INVALID_PARAMS "Missing 'id' parameter"
  | Some challenge_id =>
      let actual_id := match named_challenge challenge_id (rh_chain h) with
                       | Some c => uuid_string (ch_id c)
                       | None => challenge_id
                       end in
      let routes := default [] (rh_routes h !! actual_id) in
      resp_result id (JObject [("challengeId", js actual_id); ("routesCount", jlen (length routes));
        ("routes", JArray (route_json actual_id <$> routes))])%string
  end.

Definition challenge_list_all_routes (id : Json) h : JsonRpcResponse :=
  let routes := (fun r => JObject [("challengeId", js (rcr_challenge_id r)); ("challengeName", js (rcr_challenge_name r));
      ("method", js (cri_method (rcr_route r))); ("path", js (cri_path (rcr_route r)));
      ("fullPath", js (cri_full_path (rcr_route r))); ("description", js (cri_description (rcr_route r)));
      ("requiresAuth", JBool (cri_requires_auth (rcr_route r)))]%string) <$> get_all_challenge_routes h in
  resp_result id (JObject [("total", jlen (length routes)); ("routes", JArray routes)])%string.

(** ** Jobs *)

Definition job_json (j : Job) : list (string * Json) :=
  [("id", js (uuid_string (job_id j))); ("challengeId", js (uuid_string (job_challenge_id j)));
   ("agentHash", js (job_agent_hash j)); ("status", js (status_debug (job_status j)));
   ("createdAt", js (to_rfc3339 (job_created_at j)));
   ("assignedValidator", jopt (fun v => js (Hotkey_to_hex v)) (job_assigned_validator j))]%string.

(** The jobs of a status, compared without regard to case. *)
Definition job_selected (status_filter : option string) (j : Job) : bool :=
  match status_filter with
  | Some s => bool_decide (to_lowercase (status_debug (job_status j)) = to_lowercase s)
  | None => true
  end.

Definition job_list (id params : Json) h : JsonRpcResponse :=
  let jobs := filter (fun j => job_selected (get_param_str params 2 "status") j = true) (st_pending_jobs (rh_chain h)) in
  resp_result id (JObject [("total", jlen (length (st_pending_jobs (rh_chain h)))); ("offset", jn (list_offset params));
    ("limit", jn (list_limit params));
    ("jobs", JArray ((fun j => JObject (job_json j)) <$>
       take (Z.to_nat (list_limit params)) (drop (Z.to_nat (list_offset params)) jobs)))])%string.

Definition job_get (id params : Json) h : JsonRpcResponse :=
  match get_param_str params 0 "id" with
  | None => resp_error id INVALID_PARAMS "Missing 'id' parameter"
  | Some text =>
      match uuid_parse_str text with
      | None => resp_error id INVALID_PARAMS "Invalid job ID format"
      | Some uuid =>
          match List.find (fun j => bool_decide (job_id j = uuid)) (st_pending_jobs (rh_chain h)) with
          | Some j => resp_result id (JObject (job_json j ++
              [("result"%string, jopt (fun r => JObject [("value", jf (score_value r)); ("weight", jf (score_weight r))]%string)
                 (job_result j))]))
          | None => resp_error id JOB_NOT_FOUND ("Job '" +:+ text +:+ "' not found")
          end
      end
  end.

(** ** Epochs *)

Definition epoch_current (id : Json) h : JsonRpcResponse :=
  let chain := rh_chain h in
  let block_in_epoch := st_block_height chain mod 100 in
  let '(phase, phase_start, phase_end, remaining) := epoch_phase block_in_epoch in
  resp_result id (JObject [("epochNumber", jn (st_epoch chain)); ("currentBlock", jn (st_block_height chain));
    ("blocksPerEpoch", jn 100); ("blockInEpoch", jn block_in_epoch); ("phase", js phase);
    ("phaseStart", jn phase_start); ("phaseEnd", jn phase_end); ("blocksUntilNextPhase", jn remaining);
    ("progress", jf (f64_div (f64_round (f64_mul (f64_div (f64_of_Z block_in_epoch) (f64_of_Z 100)) (f64_of_Z 100)))
                       (f64_of_Z 100)));
    ("estimatedTimeToNextPhase", jn (remaining * 12))])%string.

Definition epoch_get_phase (id : Json) h : JsonRpcResponse :=
  let '(phase, _, _, _) := epoch_phase (st_block_height (rh_chain h) mod 100) in resp_result id (js phase).

(** ** Monitoring *)

(** [Display] of a hotkey. *)
Definition Hotkey_display (k : Hotkey) : string :=
  let t := Hotkey_to_hex k in String.substring 0 8 t +:+ "..." +:+ String.substring 56 (String.length t - 56) t.

Definition monitor_get_challenge_health (id : Json) h : JsonRpcResponse :=
  let hotkey := match hm_values (st_validators (rh_chain h)) with
                | v :: _ => Hotkey_display (vi_hotkey v)
                | [] => "unknown"%string
                end in
  let configs := hm_iter (st_challenge_configs (rh_chain h)) in
  let has_routes (c : ChallengeContainerConfig) := bool_decide (is_Some (rh_routes h !! ccc_name c)) in
  let challenges := (fun x => let '(cid, c) := x in JObject [("challenge_id", js (uuid_string cid));
      ("challenge_name", js (ccc_name c)); ("container_id", JNull);
      ("container_name", js ("challenge-" +:+ ccc_name c));
      ("status", js (if has_routes c then "Running" else "Unknown"));
      ("health", js (if has_routes c then "Healthy" else "Unknown")); ("uptime_secs", JNull);
      ("endpoint", js ("http://challenge-" +:+ ccc_name c +:+ ":8080"))]%string) <$> configs in
  let healthy := length (filter (fun x => has_routes x.2 = true) configs) in
  let unhealthy := length (filter (fun x => has_routes x.2 = false) configs) in
  resp_result id (JObject [("validator_hotkey", js hotkey); ("validator_ss58", js hotkey);
    ("challenges", JArray challenges); ("total_challenges", jlen (length challenges));
    ("healthy_challenges", jlen healthy); ("unhealthy_challenges", jlen unhealthy)])%string.

Definition monitor_get_challenge_logs (id params : Json) : JsonRpcResponse :=
  match get_param_str params 0 "challengeName" with
  | None => resp_error id INVALID_PARAMS "Missing 'challengeName' parameter"
  | Some name =>
      let lines := default 100 (get_param_u64 params 1 "lines") mod 2 ^ 32 in
      let nl := String (Ascii.ascii_of_nat 10) EmptyString in
      resp_result id (JObject [("challengeName", js name);
        ("logs", js ("[Note: Docker logs access requires orchestrator integration]" +:+ nl +:+ nl +:+
           "To view logs for '" +:+ name +:+ "', use:" +:+ nl +:+ "  docker logs challenge-" +:+ name));
        ("linesRequested", jn lines)])%string
  end.

(** ** Sudo actions *)

Definition set_configs (f : gmap ChallengeId ChallengeContainerConfig -> gmap ChallengeId ChallengeContainerConfig)
    (s : ChainState) : ChainState :=
  mk_ChainState (st_block_height s) (st_epoch s) (st_config s) (st_sudo_key s) (st_validators s) (st_challenges s)
    (f (st_challenge_configs s)) (st_mechanism_configs s) (st_challenge_weights s) (st_required_version s)
    (st_pending_jobs s) (st_state_hash s) (st_last_updated s) (st_registered_hotkeys s).

Definition normalized_config (c : ChallengeContainerConfig) : ChallengeContainerConfig :=
  mk_ChallengeContainerConfig (ccc_challenge_id c) (normalize_challenge_name (ccc_name c)) (ccc_docker_image c)
    (ccc_mechanism_id c) (ccc_emission_weight c) (ccc_timeout_secs c) (ccc_cpu_cores c) (ccc_memory_mb c)
    (ccc_gpu_required c).

Definition default_routes : list ChallengeRoute :=
  [route_post "/submit" "Submit an agent"; route_get "/status/:hash" "Get agent status";
   route_get "/leaderboard" "Get leaderboard"; route_get "/config" "Get challenge config";
   route_get "/stats" "Get statistics"; route_get "/health" "Health check"].

(** Sends a command when the channel is set; a failure is only logged. *)
Definition send_orchestrator (cmd : OrchestratorCommand) h : RpcHandler :=
  match rh_orchestrator h with
  | Some tx => set_channels (rh_broadcast h) (rh_keypair h) (Some (chan_send cmd tx).2) h
  | None => h
  end.

Definition apply_locally (action : SudoAction) h : RpcHandler :=
  match action with
  | AddChallenge config =>
      let c := normalized_config config in
      let h := on_chain (set_configs (<[ccc_challenge_id c := c]>)) h in
      let h := register_challenge_routes (ccc_name c) default_routes h in
      send_orchestrator (AddContainer c) h
  | UpdateChallenge config =>
      let c := normalized_config config in
      let h := on_chain (set_configs (<[ccc_challenge_id c := c]>)) h in
      send_orchestrator (UpdateContainer c) h
  | RemoveChallenge id =>
      let h := on_chain (set_configs (delete id)) h in
      send_orchestrator (RemoveContainer id) h
  | RefreshChallenges (Some id) =>
      match st_challenge_configs (rh_chain h) !! id with
      | Some c => send_orchestrator (UpdateContainer c) h
      | None => h
      end
  | RefreshChallenges None =>
      fold_left (fun h c => send_orchestrator (UpdateContainer c) h) (hm_values (st_challenge_configs (rh_chain h))) h
  | _ => h
  end.

(** The local effect of a message, if it has one. *)
Definition apply_message (m : NetworkMessage) h : RpcHandler :=
  match m with
  | NmProposal p => match pr_action p with Sudo action => apply_locally action h | _ => h end
  | _ => h
  end.

Definition sudo_submit (id params : Json) h : JsonRpcResponse * RpcHandler :=
  match get_param_str params 0 "signedMessage" with
  | None => (resp_error id INVALID_PARAMS "Missing 'signedMessage' parameter (hex-encoded)", h)
  | Some message_hex =>
      match hex_decode message_hex with
      | Err e => (resp_error id INVALID_PARAMS ("Invalid hex: " +:+ e), h)
      | Ok message_bytes =>
          match decode_signed message_bytes with
          | Err e => (resp_error id INVALID_PARAMS ("Invalid message format: " +:+ e), h)
          | Ok signed =>
              if negb (match SignedNetworkMessage_verify signed with Ok b => b | Err _ => false end) then
                (resp_error id INVALID_PARAMS "Invalid signature", h)
              else if negb (is_sudo (rh_chain h) (signer signed)) then
                (resp_error id INVALID_PARAMS ("Signer " +:+ Hotkey_to_hex (signer signed) +:+
                   " is not the sudo key " +:+ Hotkey_to_hex (st_sudo_key (rh_chain h))), h)
              else
                let h := apply_message (snm_message signed) h in
                match rh_broadcast h with
                | None => (resp_error id INTERNAL_ERROR "Broadcast channel not configured", h)
                | Some tx =>
                    let '(sent, tx) := chan_send message_bytes tx in
                    if sent then
                      (resp_result id (JObject [("success", JBool true);
                         ("message", js "Sudo action applied locally and queued for P2P broadcast");
                         ("signer", js (Hotkey_to_hex (signer signed)))])%string,
                       set_channels (Some tx) (rh_keypair h) (rh_orchestrator h) h)
                    else (resp_error id INTERNAL_ERROR "Failed to queue broadcast: channel closed", h)
                end
          end
      end
  end.

(** ** Dispatch *)

(** [method.splitn(2, '_')], when it has two parts. *)
Fixpoint split_method (l : list Ascii.ascii) : option (list Ascii.ascii * list Ascii.ascii) :=
  match l with
  | [] => None
  | a :: l' =>
      if decide (a = Ascii.ascii_of_nat 95) then Some ([], l')
      else match split_method l' with Some (x, y) => Some (a :: x, y) | None => None end
  end.
Definition method_parts (method : string) : option (string * string) :=
  '(x, y) ← split_method (chars method); Some (of_chars x, of_chars y).

(** A method that only reads. *)
Definition reads (f : RpcHandler -> JsonRpcResponse) (h : RpcHandler) : JsonRpcResponse * RpcHandler := (f h, h).

Definition dispatch_table (id params : Json) :
    list ((string * string) * (RpcHandler -> JsonRpcResponse * RpcHandler)) :=
  [(("system", "health"), reads (system_health id)); (("system", "version"), reads (system_version id));
   (("system", "name"), reads (system_name id)); (("system", "properties"), reads (system_properties id));
   (("system", "peers"), reads (system_peers id)); (("system", "networkState"), reads (system_network_state id));
   (("chain", "getHead"), reads (chain_get_head id)); (("chain", "getBlock"), reads (chain_get_block id params));
   (("chain", "getBlockHash"), reads (chain_get_block_hash id params));
   (("chain", "getFinalizedHead"), reads (chain_get_finalized_head id)); (("chain", "getState"), reads (chain_get_state id));
   (("state", "getStorage"), reads (state_get_storage id params)); (("state", "getKeys"), reads (state_get_keys id params));
   (("state", "getMetadata"), reads (state_get_metadata id));
   (("state", "getRuntimeVersion"), reads (fun _ => state_get_runtime_version id));
   (("validator", "list"), reads (validator_list id params)); (("validator", "get"), reads (validator_get id params));
   (("validator", "count"), reads (validator_count id));
   (("metagraph", "hotkeys"), reads (metagraph_hotkeys id));
   (("metagraph", "isRegistered"), reads (metagraph_is_registered id params));
   (("challenge", "list"), reads (challenge_list id params)); (("challenge", "get"), reads (challenge_get id params));
   (("challenge", "getRoutes"), reads (challenge_get_routes id params));
   (("challenge", "listAllRoutes"), reads (challenge_list_all_routes id));
   (("job", "list"), reads (job_list id params)); (("job", "get"), reads (job_get id params));
   (("epoch", "current"), reads (epoch_current id)); (("epoch", "getPhase"), reads (epoch_get_phase id));
   (("rpc", "methods"), reads (fun _ => rpc_methods id));
   (("sudo", "submit"), sudo_submit id params);
   (("monitor", "getChallengeHealth"), reads (monitor_get_challenge_health id));
   (("monitor", "getChallengeLogs"), reads (fun _ => monitor_get_challenge_logs id params))]%string.

Definition lookup_method (parts : string * string) (id params : Json) :
    option (RpcHandler -> JsonRpcResponse * RpcHandler) :=
  snd <$> List.find (fun x => bool_decide (x.1 = parts)) (dispatch_table id params).

Definition handle (req : JsonRpcRequest) h : JsonRpcResponse * RpcHandler :=
  match method_parts (jq_method req) ≫= (fun parts => lookup_method parts (jq_id req) (jq_params req)) with
  | Some f => f h
  | None => (resp_error (jq_id req) METHOD_NOT_FOUND ("Method not found: " +:+ jq_method req +:+
               ". Use rpc_methods to list available methods."), h)
  end.
End handler.
