(* ===== verification/RpcServer.v ===== *)
(** * The RPC server

    Models [crates/rpc-server/src/server.rs]: the server over one shared chain
    state, the challenge routes, the JSON-RPC endpoint and the progress webhook.
    [HttpCall] is a request as [router] hands it to a handler; the handler's
    closure is total, a header's value is what [to_str] makes of it, and the text
    of a request that does not deserialise is the class [ServerText]. *)

From S2P Require Import Prelude Float64 Crypto RustStrings RustBytes CoreTypes CoreState CoreMessages SubnetConfig Submission ChallengeRoutes RpcHandlers JsonRpc.

Class ServerText : Type := { request_error : Json -> string }.

(** ** Configuration *)

Record RpcConfig : Type := mk_RpcConfig {
  rcf_addr : string;
  rcf_netuid : Z;
  rcf_name : string;
  rcf_min_stake : Z;
  rcf_cors_enabled : bool
}.
Definition RpcConfig_default : RpcConfig := mk_RpcConfig "0.0.0.0:8080" 1 "Mini-Chain" 1000000000000 true.

Definition OK : Z := 200.
Definition BAD_REQUEST : Z := 400.
Definition NOT_FOUND : Z := 404.
Definition INTERNAL_SERVER_ERROR : Z := 500.

(** [StatusCode::from_u16(status).unwrap_or(INTERNAL_SERVER_ERROR)]. *)
Definition status_or_500 (status : Z) : Z :=
  if (100 <=? status) && (status <=? 999) then status else INTERNAL_SERVER_ERROR.

(** [serde_json::from_value::<JsonRpcRequest>]: an object with the fields, the
    parameters optional, or an array of the four. *)
Definition parse_request (body : Json) : option JsonRpcRequest :=
  match body with
  | JObject _ =>
      jsonrpc ← json_get "jsonrpc" body ≫= json_str;
      method ← json_get "method" body ≫= json_str;
      id ← json_get "id" body;
      Some (mk_JsonRpcRequest jsonrpc method (default JNull (json_get "params" body)) id)
  | JArray [JString jsonrpc; JString method; params; id] => Some (mk_JsonRpcRequest jsonrpc method params id)
  | _ => None
  end.

Section server.
Context `{Ext : External} `{Text : RpcText} `{Ids : IdSource} `{Codec : MessageCodec} `{STxt : ServerText}.
Context {HH : HashOrder Hotkey} {HZ : HashOrder Z} {HS : HashOrder string}.
Implicit Type h : RpcHandler.

(** ** Challenge routes *)

(** The routes registered for an identifier, or for the identifier of the
    challenge of that name. *)
Definition routes_of (challenge_id : string) h : option (list ChallengeRoute) :=
  match rh_routes h !! challenge_id with
  | Some r => Some r
  | None =>
      c ← List.find (fun c => bool_decide (ch_name c = challenge_id)) (hm_values (st_challenges (rh_chain h)));
      rh_routes h !! uuid_string (ch_id c)
  end.

(** The readable headers; of two with one name the last stays. *)
Definition headers_map (headers : list (string * option string)) : gmap string string :=
  fold_left (fun m x => match x.2 with Some v => <[x.1 := v]> m | None => m end) headers ∅.

Definition challenge_route_handler (challenge_id path0 method : string) (query : gmap string string)
    (headers : list (string * option string)) (body : Json) h : Z * Json :=
  let path := if bool_decide (path0 = EmptyString) then "/"%string else "/" +:+ path0 in
  match routes_of challenge_id h with
  | None =>
      (NOT_FOUND, JObject [("error", js "challenge_not_found");
         ("message", js ("Challenge '" +:+ challenge_id +:+ "' not found or has no routes"))])%string
  | Some routes =>
      match find_in routes method path with
      | None =>
          (NOT_FOUND, JObject [("error", js "route_not_found");
             ("message", js ("No route matches " +:+ method +:+ " " +:+ path));
             ("availableRoutes", JArray ((fun r => js (method_as_str (cr_method r) +:+ " " +:+ cr_path r)) <$> routes))])%string
      | Some (route, params) =>
          let request := mk_RouteRequest method path params query (headers_map headers) body None in
          match rh_route_handler h with
          | Some handle => let response := handle challenge_id request in (status_or_500 (rr_status response), rr_body response)
          | None =>
              (OK, JObject [("route", JObject [("method", js (method_as_str (cr_method route))); ("path", js (cr_path route));
                     ("description", js (cr_description route))]);
                 ("message", js "Route handler not registered. Use RPC to interact with challenges.");
                 ("hint", js "Use JSON-RPC method 'challenge_callRoute' to invoke this route")])%string
          end
      end
  end.

(** ** JSON-RPC *)

Definition handle_single_request (body : Json) h : Z * JsonRpcResponse * RpcHandler :=
  match parse_request body with
  | None => (BAD_REQUEST, resp_error JNull PARSE_ERROR ("Parse error: " +:+ request_error body), h)
  | Some req =>
      if negb (bool_decide (jq_jsonrpc req = "2.0"%string)) then
        (BAD_REQUEST, resp_error (jq_id req) PARSE_ERROR "Invalid JSON-RPC version", h)
      else let '(response, h) := handle req h in (OK, response, h)
  end.

Definition jsonrpc_handler (body : Json) h : Z * JsonRpcResponse * RpcHandler :=
  match body with
  | JArray (first :: _) => handle_single_request first h
  | JArray [] => (BAD_REQUEST, resp_error JNull PARSE_ERROR "Empty batch", h)
  | _ => handle_single_request body h
  end.

(** ** Webhook *)

(** [as u32]. *)
Definition as_u32 (n : Z) : Z := n mod 2 ^ 32.

Definition str_field (name : string) (body : Json) : string := default EmptyString (json_get name body ≫= json_str).
Definition u64_field (name : string) (body : Json) : Z := default 0 (json_get name body ≫= json_as_u64).
Definition f64_field (name : string) (body : Json) : f64 := default f64_zero (json_get name body ≫= json_as_f64).

(** [now] in milliseconds. *)
Definition progress_message (now : Z) (body : Json) : TaskProgressMessage :=
  mk_TaskProgressMessage (str_field "challenge_id" body) (str_field "agent_hash" body) (str_field "evaluation_id" body)
    (str_field "task_id" body) (as_u32 (u64_field "task_index" body)) (as_u32 (u64_field "total_tasks" body))
    (default false (json_get "passed" body ≫= json_as_bool)) (f64_field "score" body)
    (u64_field "execution_time_ms" body) (f64_field "cost_usd" body) (json_get "error" body ≫= json_str)
    (str_field "validator_hotkey" body) (now / 1000).

(** Signs the message with the node's key and queues it; failures are logged. *)
Definition broadcast_progress (progress : TaskProgressMessage) h : RpcHandler :=
  match rh_broadcast h, rh_keypair h with
  | Some tx, Some kp =>
      match SignedNetworkMessage_new (NmTaskProgress progress) kp with
      | Ok signed =>
          match encode_signed signed with
          | Ok bytes => set_channels (Some (chan_send bytes tx).2) (rh_keypair h) (rh_orchestrator h) h
          | Err _ => h
          end
      | Err _ => h
      end
  | _, _ => h
  end.

(** The handler also logs the first 16 bytes of the agent's hash, which are
    hexadecimal digits; a hash that is not ASCII can end the request's task
    instead. *)
Definition webhook_progress_handler (now : Z) (body : Json) h : Z * Json * RpcHandler :=
  let msg_type := str_field "type" body in
  if bool_decide (msg_type = "task_progress"%string) then
    (OK, JObject [("success", JBool true); ("message", js "Task progress received")]%string,
     broadcast_progress (progress_message now body) h)
  else if bool_decide (msg_type = "evaluation_complete"%string) then
    (OK, JObject [("success", JBool true); ("message", js "Evaluation complete received")]%string, h)
  else
    (BAD_REQUEST, JObject [("success", JBool false); ("error", js ("Unknown webhook type: " +:+ msg_type))]%string, h).

(** ** The server *)

Record RpcServer : Type := mk_RpcServer {
  srv_config : RpcConfig;
  srv_state : RpcState;
  srv_handler : RpcHandler
}.

Definition RpcServer_new (now : Z) (version : string) (config : RpcConfig) (chain : ChainState) (bans : BanList) : RpcServer :=
  mk_RpcServer config
    (RpcState_new now version chain bans (rcf_netuid config) (rcf_name config) (rcf_min_stake config))
    (RpcHandler_new version chain (rcf_netuid config)).

(** The handler after a call; both halves hold the same chain state. *)
Definition set_handler h (s : RpcServer) : RpcServer :=
  mk_RpcServer (srv_config s) (set_chain (rh_chain h) (srv_state s)) h.

Inductive HttpCall : Type :=
| PostRpc (body : Json)
| GetHealth
| AnyChallenge (challenge_id path method : string) (query : gmap string string)
    (headers : list (string * option string)) (body : option Json)
| PostProgress (body : Json).

Inductive HttpReply : Type :=
| RpcReply (r : JsonRpcResponse)
| HealthReply (r : RpcResponse HealthResponse)
| JsonReply (body : Json).

Definition router (now : Z) (call : HttpCall) (s : RpcServer) : Z * HttpReply * RpcServer :=
  match call with
  | PostRpc body =>
      let '(status, r, h) := jsonrpc_handler body (srv_handler s) in (status, RpcReply r, set_handler h s)
  | GetHealth => (OK, HealthReply (health_handler now (srv_state s)), s)
  | AnyChallenge challenge_id path method query headers body =>
      let '(status, r) := challenge_route_handler challenge_id path method query headers (default JNull body) (srv_handler s) in
      (status, JsonReply r, s)
  | PostProgress body =>
      let '(status, r, h) := webhook_progress_handler now body (srv_handler s) in (status, JsonReply r, set_handler h s)
  end.

(** The replies to a sequence of requests, each with its reading of the clock. *)
Fixpoint serve (calls : list (Z * HttpCall)) (s : RpcServer) : list (Z * HttpReply) * RpcServer :=
  match calls with
  | [] => ([], s)
  | (now, call) :: rest =>
      let '(status, reply, s) := router now call s in
      let '(replies, s) := serve rest s in ((status, reply) :: replies, s)
  end.
End server.
