(* ===== verification/RpcProps.v ===== *)
(** * Properties of the RPC server

    What the endpoints answer, which requests can change the shared chain state
    and what a sudo request does; the listing of pages, and the phases of an
    epoch the server reports compared with those of the epoch manager. *)

From S2P Require Import Prelude Float64 Crypto RustStrings RustBytes CoreTypes CoreState CoreMessages SubnetConfig Submission ChallengeRoutes Epoch RpcHandlers JsonRpc RpcServer.

Section rpc.
Context `{Ext : External} `{Text : RpcText} `{Ids : IdSource} `{Codec : MessageCodec} `{STxt : ServerText}.
Context {HH : HashOrder Hotkey} {HZ : HashOrder Z} {HS : HashOrder string}.
Implicit Type h : RpcHandler.
Implicit Type s : RpcServer.

(** ** Responses *)

(** A response in the form JSON-RPC 2.0 prescribes: the version, the identifier
    asked for, and either a result or an error. *)
Record answers (id : Json) (r : JsonRpcResponse) : Prop := {
  an_version : jp_jsonrpc r = "2.0"%string;
  an_id : jp_id r = id;
  an_one : is_Some (jp_result r) <-> jp_error r = None
}.

Lemma result_answers id v : answers id (resp_result id v).
Proof. by repeat split. Qed.
Lemma error_answers id code msg : answers id (resp_error id code msg).
Proof. repeat split; [by intros [? ?]|done]. Qed.
Create HintDb rpc.
#[local] Hint Resolve result_answers error_answers : rpc.

#[local] Ltac solve_answers := repeat case_match; simplify_eq/=; auto with rpc.

Lemma sudo_submit_answers id params h : answers id (sudo_submit id params h).1.
Proof. unfold sudo_submit. solve_answers. Qed.

(** Whatever a method that is not [sudo_submit] does, it only reads. *)
Definition reads_and_answers (id : Json) (f : RpcHandler -> JsonRpcResponse * RpcHandler) : Prop :=
  forall h, answers id (f h).1 /\ (f h).2 = h.

Lemma reads_ok id (f : RpcHandler -> JsonRpcResponse) :
  (forall h, answers id (f h)) -> reads_and_answers id (reads f).
Proof. intros Hf h. split; [apply Hf|done]. Qed.

Lemma dispatch_table_ok id params entry :
  In entry (dispatch_table id params) ->
  entry = (("sudo", "submit")%string, sudo_submit id params) \/
  (entry.1 <> ("sudo", "submit")%string /\ reads_and_answers id entry.2).
Proof.
  unfold dispatch_table. intros Hin. cbn [In] in Hin.
  repeat (destruct Hin as [Hin|Hin]; [subst entry|]); try done;
    first [by left | right; split; [done|]; apply reads_ok; intros h; cbn [snd];
      unfold system_health, system_version, system_name, system_properties, system_peers, system_network_state,
        chain_get_head, chain_get_block, chain_get_block_hash, chain_get_finalized_head, chain_get_state,
        state_get_storage, state_get_keys, state_get_metadata, state_get_runtime_version, validator_list,
        validator_get, validator_count, metagraph_hotkeys, metagraph_is_registered, challenge_list, challenge_get,
        challenge_get_routes, challenge_list_all_routes, job_list, job_get, epoch_current, epoch_get_phase,
        rpc_methods, monitor_get_challenge_health, monitor_get_challenge_logs; solve_answers].
Qed.

(** A request is for [sudo_submit], or it reads and answers. *)
Lemma handle_cases req h :
  (method_parts (jq_method req) = Some ("sudo", "submit")%string /\
   handle req h = sudo_submit (jq_id req) (jq_params req) h) \/
  (method_parts (jq_method req) <> Some ("sudo", "submit")%string /\
   answers (jq_id req) (handle req h).1 /\ (handle req h).2 = h).
Proof.
  unfold handle, lookup_method. destruct (method_parts (jq_method req)) as [parts|] eqn:Hp; cbn [mbind option_bind].
  2: { right. split; [done|]. split; [apply error_answers|done]. }
  match goal with |- context [List.find ?p ?l] => destruct (List.find p l) as [entry|] eqn:Hf end; cbn [fmap option_fmap option_map].
  - apply List.find_some in Hf as [Hin Heq]. apply bool_decide_eq_true in Heq.
    destruct (dispatch_table_ok _ _ _ Hin) as [->|[Hne Hr]]; [left|right].
    + cbn in Heq. by subst parts.
    + subst parts. split; [congruence|]. apply Hr.
  - right. split; [|split; [apply error_answers|done]]. intros [= ->].
    by pose proof (List.find_none _ _ Hf (("sudo", "submit")%string, sudo_submit (jq_id req) (jq_params req))
      ltac:(unfold dispatch_table; cbn [In]; tauto)) as Hn; rewrite bool_decide_eq_false in Hn.
Qed.

Lemma handle_answers req h : answers (jq_id req) (handle req h).1.
Proof.
  destruct (handle_cases req h) as [[_ ->]|(_ & H & _)]; [apply sudo_submit_answers|done].
Qed.

(** The request a body asks for: of a batch the first. *)
Definition addressed (body : Json) : option JsonRpcRequest :=
  match body with
  | JArray (first :: _) => parse_request first
  | JArray [] => None
  | _ => parse_request body
  end.

Lemma jsonrpc_handler_eq body h :
  match addressed body with
  | Some req => jsonrpc_handler body h =
      if bool_decide (jq_jsonrpc req = "2.0"%string) then (OK, (handle req h).1, (handle req h).2)
      else (BAD_REQUEST, resp_error (jq_id req) PARSE_ERROR "Invalid JSON-RPC version", h)
  | None => exists msg, jsonrpc_handler body h = (BAD_REQUEST, resp_error JNull PARSE_ERROR msg, h)
  end.
Proof.
  assert (Hsingle : forall b, match parse_request b with
    | Some req => handle_single_request b h =
        if bool_decide (jq_jsonrpc req = "2.0"%string) then (OK, (handle req h).1, (handle req h).2)
        else (BAD_REQUEST, resp_error (jq_id req) PARSE_ERROR "Invalid JSON-RPC version", h)
    | None => exists msg, handle_single_request b h = (BAD_REQUEST, resp_error JNull PARSE_ERROR msg, h)
    end).
  { intros b. unfold handle_single_request. destruct (parse_request b) as [req|]; [|by eexists].
    case_bool_decide; cbn; [by destruct (handle req h)|done]. }
  unfold addressed, jsonrpc_handler. destruct body as [| | | |[|first rest]|]; try apply Hsingle. by eexists.
Qed.

(** C35. Every body posted to the JSON-RPC endpoint gets one well-formed response:
    version 2.0, a result or an error and never both, and the identifier of the
    request it answers (of a batch, the first), or null when none can be read;
    the status is 200 exactly for a request of version 2.0. *)
Theorem jsonrpc_wellformed body h :
  let '(status, r, _) := jsonrpc_handler body h in
  answers (match addressed body with Some req => jq_id req | None => JNull end) r /\
  (status = OK <-> exists req, addressed body = Some req /\ jq_jsonrpc req = "2.0"%string).
Proof.
  pose proof (jsonrpc_handler_eq body h) as He. destruct (addressed body) as [req|].
  - rewrite He. case_bool_decide as Hv.
    + split; [apply handle_answers|]. split; [by eexists|done].
    + split; [apply error_answers|]. split; [done|]. intros (? & [= <-] & ?). done.
  - destruct He as [msg ->]. split; [apply error_answers|]. split; [done|]. by intros (? & ? & _).
Qed.

(** ** What can change the state *)

(** The message a sudo request carries, with its bytes. *)
Definition submitted (params : Json) : option (bytes * SignedNetworkMessage) :=
  text ← get_param_str params 0 "signedMessage";
  match hex_decode text with
  | Ok b => match decode_signed b with Ok m => Some (b, m) | Err _ => None end
  | Err _ => None
  end.

Definition signed_by (k : Hotkey) (m : SignedNetworkMessage) : bool :=
  match SignedNetworkMessage_verify m with Ok b => b | Err _ => false end && bool_decide (k = signer m).

(** Whether a request carries a message signed with a key. *)
Definition carries_signature (k : Hotkey) (call : HttpCall) : bool :=
  match call with
  | PostRpc body =>
      match addressed body with
      | Some req => match submitted (jq_params req) with Some (_, m) => signed_by k m | None => false end
      | None => false
      end
  | _ => false
  end.

Lemma sudo_submit_eq id params h :
  match submitted params with
  | Some (b, m) =>
      if signed_by (st_sudo_key (rh_chain h)) m then
        let h' := apply_message (snm_message m) h in
        (sudo_submit id params h).2 =
          match rh_broadcast h' with
          | Some tx => if chan_open tx then set_channels (Some (chan_send b tx).2) (rh_keypair h') (rh_orchestrator h') h' else h'
          | None => h'
          end /\
        (is_Some (jp_result (sudo_submit id params h).1) <-> exists tx, rh_broadcast h' = Some tx /\ chan_open tx = true)
      else (sudo_submit id params h).2 = h /\ is_Some (jp_error (sudo_submit id params h).1)
  | None => (sudo_submit id params h).2 = h /\ is_Some (jp_error (sudo_submit id params h).1)
  end.
Proof.
  unfold submitted, sudo_submit, signed_by, is_sudo.
  destruct (get_param_str params 0 _) as [text|]; [|by split; [|eexists]].
  cbn. destruct (hex_decode text) as [b|]; [|by split; [|eexists]].
  destruct (decode_signed b) as [m|]; [|by split; [|eexists]].
  destruct (match SignedNetworkMessage_verify m with Ok b => b | Err _ => false end); cbn; [|by split; [|eexists]].
  case_bool_decide; cbn; [|by split; [|eexists]].
  destruct (rh_broadcast _) as [tx|]; cbn.
  2: { split; [done|]. split; [by intros [? ?]|]. by intros (? & ? & _). }
  unfold chan_send. destruct (chan_open tx) eqn:Ho; cbn.
  - split; [done|]. split; [by eexists|by eexists].
  - split; [done|]. split; [by intros [? ?]|]. intros (? & [= <-] & ?). congruence.
Qed.

(** What no request without the sudo key's signature changes. *)
Definition protected (h : RpcHandler) :=
  (rh_chain h, rh_routes h, rh_peers h, rh_route_handler h, rh_keypair h, rh_orchestrator h).

Lemma protected_set_channels b h :
  protected (set_channels b (rh_keypair h) (rh_orchestrator h) h) = protected h.
Proof. done. Qed.

Lemma jsonrpc_protected body h :
  carries_signature (st_sudo_key (rh_chain h)) (PostRpc body) = false -> (jsonrpc_handler body h).2 = h.
Proof.
  cbn. intros Hc. pose proof (jsonrpc_handler_eq body h) as He. destruct (addressed body) as [req|].
  - rewrite He. case_bool_decide; [|done]. cbn.
    destruct (handle_cases req h) as [[_ ->]|(_ & _ & H')]; [|done].
    pose proof (sudo_submit_eq (jq_id req) (jq_params req) h) as Hs.
    destruct (submitted (jq_params req)) as [[b m]|]; [rewrite Hc in Hs|]; apply Hs.
  - by destruct He as [msg ->].
Qed.

Lemma webhook_protected now body h : protected (webhook_progress_handler now body h).2 = protected h.
Proof.
  unfold webhook_progress_handler. repeat case_bool_decide; try done. cbn. unfold broadcast_progress.
  repeat case_match; unfold protected; cbn; congruence.
Qed.

Lemma router_protected now call s :
  rs_chain (srv_state s) = rh_chain (srv_handler s) ->
  carries_signature (st_sudo_key (rh_chain (srv_handler s))) call = false ->
  protected (srv_handler (router now call s).2) = protected (srv_handler s) /\
  srv_state (router now call s).2 = srv_state s.
Proof.
  intros Hs Hc.
  assert (Hset : forall h, protected h = protected (srv_handler s) ->
    protected (srv_handler (set_handler h s)) = protected (srv_handler s) /\ srv_state (set_handler h s) = srv_state s).
  { intros h Hp. split; [done|]. unfold protected in Hp. simplify_eq. cbn.
    match goal with H : rh_chain h = _ |- _ => rewrite H end. rewrite <- Hs. by destruct (srv_state s). }
  destruct call as [body| |? ? ? ? ? ?|body]; unfold router.
  - pose proof (jsonrpc_protected body (srv_handler s) Hc) as Hj.
    destruct (jsonrpc_handler body (srv_handler s)) as [[status r] h]. cbn in *. subst h. by apply Hset.
  - done.
  - by destruct (challenge_route_handler _ _ _ _ _ _ _).
  - pose proof (webhook_protected now body (srv_handler s)) as Hw.
    destruct (webhook_progress_handler now body (srv_handler s)) as [[status r] h]. by apply Hset.
Qed.

(** C36. However many requests of any kind the server answers, and in whatever
    order: as long as none carries a message with the sudo key's valid signature,
    the chain state both halves of the server share, the registered routes, the
    peers and the orchestrator's queue stay as they were; only the broadcast
    queue can grow, by the node's own progress messages. *)
Theorem only_sudo_changes_state calls s :
  rs_chain (srv_state s) = rh_chain (srv_handler s) ->
  Forall (fun x => carries_signature (st_sudo_key (rh_chain (srv_handler s))) x.2 = false) calls ->
  protected (srv_handler (serve calls s).2) = protected (srv_handler s) /\
  srv_state (serve calls s).2 = srv_state s.
Proof.
  revert s. induction calls as [|[now call] calls IH]; intros s Hs Hf; [done|].
  apply Forall_cons in Hf as [Hc Hf]. cbn [snd] in Hc.
  destruct (router_protected now call s Hs Hc) as [Hp Hst]. cbn [serve].
  destruct (router now call s) as [[status reply] s']. cbn [snd] in Hp, Hst.
  assert (Hchain : rh_chain (srv_handler s') = rh_chain (srv_handler s)) by (unfold protected in Hp; congruence).
  specialize (IH s'). rewrite Hchain, Hst in IH. specialize (IH Hs Hf).
  destruct (serve calls s') as [replies s'']. cbn [snd] in *. destruct IH as [-> ->]. done.
Qed.

(** ** Sudo requests *)

Definition sudo_request (id : Json) (text : string) : JsonRpcRequest :=
  mk_JsonRpcRequest "2.0" "sudo_submit" (JObject [("signedMessage"%string, JString text)]) id.

Lemma handle_sudo_request id text h :
  handle (sudo_request id text) h = sudo_submit id (jq_params (sudo_request id text)) h.
Proof. destruct (handle_cases (sudo_request id text) h) as [[_ H]|[H _]]; [done|]. by exfalso; apply H. Qed.

Lemma send_orchestrator_frame cmd h :
  let h' := send_orchestrator cmd h in
  rh_chain h' = rh_chain h /\ rh_routes h' = rh_routes h /\ rh_broadcast h' = rh_broadcast h.
Proof. unfold send_orchestrator. by destruct (rh_orchestrator h). Qed.

Lemma broadcast_step_frame b h :
  let h' := match rh_broadcast h with
            | Some tx => if chan_open tx then set_channels (Some (chan_send b tx).2) (rh_keypair h) (rh_orchestrator h) h else h
            | None => h
            end in
  rh_chain h' = rh_chain h /\ rh_routes h' = rh_routes h /\ rh_orchestrator h' = rh_orchestrator h.
Proof. cbn. repeat case_match; done. Qed.

(** Any message the sudo key ever signed, whatever it says, authorises any
    challenge: submitted with its message replaced by an [AddChallenge] proposal
    it installs the normalised configuration, registers the default routes under
    the normalised name and queues the container for the orchestrator, leaving
    the state hash as it was; and all of this also happens when the answer is an
    error because nothing can be broadcast. *)
Theorem sudo_signature_reusable `{!ExternalLaws} k m env config p id text b h :
  SignedNetworkMessage_new m k = Ok env ->
  st_sudo_key (rh_chain h) = Keypair_hotkey k ->
  hex_decode text = Ok b ->
  pr_action p = Sudo (AddChallenge config) ->
  decode_signed b = Ok (mk_SignedNetworkMessage (NmProposal p) (snm_signature env)) ->
  let '(r, h') := handle (sudo_request id text) h in
  st_challenge_configs (rh_chain h') =
    <[ccc_challenge_id config := normalized_config config]> (st_challenge_configs (rh_chain h)) /\
  st_state_hash (rh_chain h') = st_state_hash (rh_chain h) /\
  rh_routes h' = <[normalize_name (ccc_name config) := default_routes]> (rh_routes h) /\
  rh_orchestrator h' = (fun tx => (chan_send (AddContainer (normalized_config config)) tx).2) <$> rh_orchestrator h /\
  (is_Some (jp_result r) <-> exists tx, rh_broadcast h = Some tx /\ chan_open tx = true).
Proof.
  unfold SignedNetworkMessage_new, sign_message, mbind, result_bind.
  destruct (encode_message m) as [mb|]; [|done]. cbn [result_map_err mret result_ret]. intros [= <-] Hk Hb Hp Hd.
  rewrite handle_sudo_request.
  pose proof (sudo_submit_eq id (jq_params (sudo_request id text)) h) as Hs.
  unfold submitted in Hs. cbn [jq_params sudo_request get_param_str] in Hs.
  replace (get_param_str _ _ _) with (Some text) in Hs by done. cbn [mbind option_bind] in Hs.
  rewrite Hb, Hd in Hs. unfold signed_by, signer, SignedNetworkMessage_verify in Hs. cbn in Hs.
  pose proof (sign_bytes_valid k mb) as Hv. unfold sig_valid in Hv. unfold Keypair_sign in *.
  cbn in Hs. rewrite Hv, Hk, bool_decide_true in Hs by done. cbn in Hs.
  rewrite Hp in Hs. destruct Hs as [Hs Hr].
  destruct (sudo_submit _ _ _) as [r h']. cbn [fst snd] in *.
  set (h1 := apply_locally (AddChallenge config) h) in *.
  destruct (broadcast_step_frame b h1) as (Hc & Hrt & Ho). rewrite <- Hs in Hc, Hrt, Ho.
  set (h0 := register_challenge_routes (ccc_name (normalized_config config)) default_routes
    (on_chain (set_configs (<[ccc_challenge_id config := normalized_config config]>)) h)).
  destruct (send_orchestrator_frame (AddContainer (normalized_config config)) h0) as (Hc0 & Hr0 & Hb0).
  change (send_orchestrator (AddContainer (normalized_config config)) h0) with h1 in Hc0, Hr0, Hb0.
  rewrite Hc, Hc0, Hrt, Hr0, Ho, Hr, Hb0. split; [done|]. split; [done|]. split; [done|]. split; [|done].
  change h1 with (send_orchestrator (AddContainer (normalized_config config)) h0).
  unfold send_orchestrator. change (rh_orchestrator h) with (rh_orchestrator h0).
  by destruct (rh_orchestrator h0) eqn:Eo; [|rewrite Eo].
Qed.

(** A challenge added and removed by sudo requests leaves the chain state as
    if it had never been configured, but its routes stay registered under its
    normalised name and are still served; while it is configured, the listing
    that counts its routes by identifier finds none. *)
Theorem removed_challenge_still_routed config h :
  let id := ccc_challenge_id config in
  let name := normalize_name (ccc_name config) in
  let added := apply_locally (AddChallenge config) h in
  let removed := apply_locally (RemoveChallenge id) added in
  st_challenge_configs (rh_chain h) !! id = None ->
  rh_routes h !! uuid_string id = None ->
  uuid_string id <> name ->
  st_challenge_configs (rh_chain removed) = st_challenge_configs (rh_chain h) /\
  routes_of name removed = Some default_routes /\
  routes_count (uuid_string id) added = 0%nat.
Proof.
  intros id name added removed Hnone Hroutes Hne.
  assert (Ha : rh_routes added = <[name := default_routes]> (rh_routes h) /\
    st_challenge_configs (rh_chain added) = <[id := normalized_config config]> (st_challenge_configs (rh_chain h))).
  { subst added. cbn [apply_locally]. unfold send_orchestrator. by case_match. }
  destruct Ha as [Har Hac].
  assert (Hr : rh_routes removed = rh_routes added /\
    st_challenge_configs (rh_chain removed) = delete id (st_challenge_configs (rh_chain added))).
  { subst removed. cbn [apply_locally]. unfold send_orchestrator. by case_match. }
  destruct Hr as [Hrr Hrc]. rewrite Hrc, Hac, delete_insert_id by done. split; [done|].
  unfold routes_of, routes_count. rewrite Hrr, Har, lookup_insert_eq, lookup_insert_ne, Hroutes by done. done.
Qed.

(** ** Registration and job results *)

(** Whether the chain state has room for one more validator of the server's
    minimum stake. *)
Definition admissible (s : RpcState) : bool :=
  (size (st_validators (rs_chain s)) <? nc_max_validators (st_config (rs_chain s)))%nat &&
  (stake_rao (nc_min_stake (st_config (rs_chain s))) <=? rs_min_stake s).

Lemma add_validator_eq now k (s : RpcState) :
  let info := ValidatorInfo_new now k (mk_Stake (rs_min_stake s)) in
  if admissible s then
    add_validator now info (rs_chain s) =
      (Ok tt, update_hash now (set_validators (<[k := info]> (st_validators (rs_chain s))) (rs_chain s)))
  else exists e, add_validator now info (rs_chain s) = (Err e, rs_chain s).
Proof.
  unfold add_validator, admissible, mbind, SE_bind, get_state, require, modify, ValidatorInfo_new. cbn beta iota.
  destruct (size (st_validators (rs_chain s)) <? nc_max_validators (st_config (rs_chain s)))%nat; cbn [andb];
    [|by eexists].
  by destruct (stake_rao (nc_min_stake (st_config (rs_chain s))) <=? rs_min_stake s) eqn:E; cbn; rewrite ?E; [|eexists].
Qed.

(** The hotkey a request registers: its signature verifies under it, it is not
    banned, and it is registered already or there is room for it. *)
Definition may_register (req : RegisterRequest) (s : RpcState) : option Hotkey :=
  k ← Hotkey_from_hex (rg_hotkey req);
  match verify_validator_signature (rg_hotkey req) (rg_message req) (rg_signature req) with
  | Ok true =>
      if negb (is_validator_banned (rs_bans s) k) &&
         (bool_decide (is_Some (st_validators (rs_chain s) !! k)) || admissible s)
      then Some k else None
  | _ => None
  end.

(** Registration over HTTP: a request is accepted exactly when its signature
    verifies under the hotkey it names, the validator is not banned, and it is
    registered already or the state has room for it at the required stake; then
    it is a validator and every entry there was is as before.  A refused request
    changes nothing. *)
Theorem registration_admits now req (s : RpcState) :
  let '(r, s') := register_handler now req s in
  match may_register req s with
  | Some k =>
      rgr_accepted <$> rp_data r = Some true /\ is_Some (st_validators (rs_chain s') !! k) /\
      st_validators (rs_chain s) ⊆ st_validators (rs_chain s')
  | None => rgr_accepted <$> rp_data r = Some false /\ s' = s
  end.
Proof.
  unfold register_handler, may_register.
  destruct (verify_validator_signature _ _ _) as [[|]|e];
    destruct (Hotkey_from_hex (rg_hotkey req)) as [k|]; cbn [mbind option_bind]; try done.
  destruct (is_validator_banned (rs_bans s) k); cbn; [done|].
  case_bool_decide as Hreg; cbn; [done|].
  pose proof (add_validator_eq now k s) as Hadd. destruct (admissible s).
  - rewrite Hadd. split; [done|]. cbn. split; [rewrite lookup_insert_eq; by eexists|].
    apply insert_subseteq. by apply eq_None_not_Some.
  - destruct Hadd as [e ->]. split; [done|]. by destruct s.
Qed.

(** Any key pair completes any pending job: a result signed by the key it
    names is accepted for a job whoever that job was assigned to, and sets its
    status and score, a score beyond 0 and 1 cut to them. *)
Theorem job_result_from_any_key `{!ExternalLaws} now id uuid req (s : RpcState) p job pos :
  Hotkey_from_hex (jq_hotkey req) = Some (Keypair_hotkey p) ->
  hex_decode (jq_signature req) =
    Ok (sr25519_sign (kp_pair p) (str_bytes ("result:" +:+ id +:+ ":" +:+ f64_display (jq_score req)))) ->
  uuid_parse_str id = Some uuid ->
  list_find (fun j => job_id j = uuid) (st_pending_jobs (rs_chain s)) = Some (pos, job) ->
  let '(r, s') := job_result_handler now id req s in
  rp_data r = Some (mk_JobResultResponse true id) /\
  st_pending_jobs (rs_chain s') !! pos = Some (complete_job (jq_score req) job) /\
  job_assigned_validator (complete_job (jq_score req) job) = job_assigned_validator job /\
  st_validators (rs_chain s') = st_validators (rs_chain s).
Proof.
  intros Hk Hsig Hid Hjob. unfold job_result_handler, verify_validator_signature.
  rewrite Hk. cbn. rewrite Hsig. cbn. rewrite sr25519_sign_length. cbn.
  rewrite sr25519_sign_verify, Hid, Hjob. split; [done|]. cbn. split; [|done].
  apply list_find_Some in Hjob as (Hpos & _). rewrite list_lookup_insert_eq; [done|]. by apply lookup_lt_Some in Hpos.
Qed.

(** ** Pages *)

Lemma page_number {A} (l : list A) (n k : nat) :
  (0 < n <= 1000)%nat ->
  page (mk_PaginationParams (Some (Z.of_nat (k * n))) (Some (Z.of_nat n))) l = take n (drop (k * n) l).
Proof. intros Hn. unfold page. cbn [pg_limit pg_offset default]. f_equal; [|f_equal]; cbn; lia. Qed.

(** Reading a listing page by page, with a page size of at most 1000, gives
    every entry once and in order, whatever their number. *)
Theorem pages_cover {A} (l : list A) (n : nat) :
  (0 < n <= 1000)%nat ->
  mjoin ((fun k => page (mk_PaginationParams (Some (Z.of_nat (k * n))) (Some (Z.of_nat n))) l) <$>
    seq 0 (S (length l / n))) = l.
Proof.
  intros Hn.
  assert (H : forall c k, mjoin ((fun k => page (mk_PaginationParams (Some (Z.of_nat (k * n))) (Some (Z.of_nat n))) l) <$>
    seq k c) = take (c * n) (drop (k * n) l)).
  { induction c as [|c IH]; intros k; [done|].
    cbn [seq fmap list_fmap mjoin list_join]. rewrite page_number, IH by done.
    replace (S c * n)%nat with (n + c * n)%nat by lia.
    replace (S k * n)%nat with (k * n + n)%nat by lia. rewrite <- drop_drop.
    rewrite <- (take_drop n (take (n + c * n) (drop (k * n) l))) at 1.
    rewrite take_take, skipn_firstn_comm. f_equal; f_equal; lia. }
  rewrite H. cbn [Nat.mul]. rewrite drop_0. apply take_ge.
  pose proof (Nat.mul_succ_div_gt (length l) n). lia.
Qed.

(** ** The phases of an epoch *)

Definition phase_text (p : EpochPhase) : string :=
  match p with
  | Evaluation => "evaluation" | Commit => "commit" | Reveal => "reveal" | Finalization => "finalization"
  end.

(** The epochs the server reports: 75 blocks of evaluation, 13 of commits and
    12 of reveals. *)
Definition reported_config : EpochConfig :=
  mk_EpochConfig 100 75 13 12 (min_validators_for_consensus EpochConfig_default) (weight_smoothing EpochConfig_default).

(** The phase and the blocks left in it that the server reports for a block
    are those of the epoch manager for epochs of 100 blocks (75, 13 and 12); the
    manager's own default has epochs of 360, so that at block 80 it is evaluating
    while the server reports the commit phase. *)
Theorem reported_phase_spec block :
  0 <= block ->
  (let '(phase, first, last, remaining) := epoch_phase (block mod 100) in
   phase = phase_text (phase_at reported_config (block mod 100)).1 /\
   remaining = (phase_at reported_config (block mod 100)).2 /\
   first <= block mod 100 < last /\ remaining = last - block mod 100) /\
  (epoch_phase (80 mod 100)).1.1.1 = "commit"%string /\ (phase_at EpochConfig_default 80).1 = Evaluation.
Proof.
  intros Hb. split; [|by split]. pose proof (Z.mod_pos_bound block 100 ltac:(lia)) as Hm.
  generalize (block mod 100) Hm. intros b Hbound. unfold epoch_phase, phase_at. cbn -[Z.ltb Z.sub].
  change (u64_add 75 13) with 88. change (u64_add 88 12) with 100. unfold u64_saturating_sub.
  destruct (Z.ltb_spec b 75); [|destruct (Z.ltb_spec b 88); [|destruct (Z.ltb_spec b 100); [|lia]]];
    cbn [fst snd phase_text]; repeat split; try lia.
Qed.

(** ** The methods *)

Definition method_name (parts : string * string) : string := parts.1 +:+ "_" +:+ parts.2.

Definition dispatched_methods : list string := (fun x => method_name x.1) <$> dispatch_table JNull JNull.
Definition listed_methods : list string :=
  match json_get "methods" (default JNull (jp_result (rpc_methods JNull))) with
  | Some (JArray l) => omap json_str l
  | _ => []
  end.

(** Every method [rpc_methods] lists is dispatched, and exactly three that are
    dispatched are not listed: the two of the metagraph and [sudo_submit]; none
    of the extrinsics and calls the documentation names exists. *)
Theorem listed_methods_dispatched :
  Forall (fun m => m ∈ dispatched_methods) listed_methods /\
  filter (fun m => m ∉ listed_methods) dispatched_methods =
    ["metagraph_hotkeys"; "metagraph_isRegistered"; "sudo_submit"]%string /\
  Forall (fun m => m ∉ dispatched_methods)
    ["author_submitExtrinsic"; "author_pendingExtrinsics"; "challenge_call"; "job_submit"; "state_getValidators";
     "state_getValidator"; "state_getChallenges"; "state_getChallenge"; "state_getJobs"; "state_getEpoch"]%string.
Proof.
  unfold dispatched_methods.
  assert (Hd : (fun x => method_name x.1) <$> dispatch_table JNull JNull =
    ["system_health"; "system_version"; "system_name"; "system_properties"; "system_peers"; "system_networkState";
     "chain_getHead"; "chain_getBlock"; "chain_getBlockHash"; "chain_getFinalizedHead"; "chain_getState";
     "state_getStorage"; "state_getKeys"; "state_getMetadata"; "state_getRuntimeVersion"; "validator_list";
     "validator_get"; "validator_count"; "metagraph_hotkeys"; "metagraph_isRegistered"; "challenge_list";
     "challenge_get"; "challenge_getRoutes"; "challenge_listAllRoutes"; "job_list"; "job_get"; "epoch_current";
     "epoch_getPhase"; "rpc_methods"; "sudo_submit"; "monitor_getChallengeHealth"; "monitor_getChallengeLogs"]%string)
    by reflexivity.
  rewrite Hd. repeat split; [apply (bool_decide_unpack _)|..|apply (bool_decide_unpack _)]; by vm_compute.
Qed.
End rpc.

(** ** A concrete server *)

Module RpcToy.
Import Toy.

Definition owner : Keypair := mk_Keypair 1 None.
Definition stranger : Keypair := mk_Keypair 2 None.

#[local] Instance codec : MessageCodec :=
  {| encode_message := fun m => match m with NmSudoAction Resume => Ok [1] | _ => Err "unsupported"%string end |}.
#[local] Instance ids : IdSource :=
  {| uuid_parse_str := fun s => if bool_decide (s = "5"%string) then Some 5 else None; default_hash := fun _ => 5 |}.
#[local] Instance server_text : ServerText := {| request_error := fun _ => "invalid request"%string |}.

Definition config : ChallengeContainerConfig :=
  mk_ChallengeContainerConfig 9 "My Challenge" "ghcr.io/platform/challenge:1" 0 f64_one 60 f64_one 512 false.
Definition proposal : Proposal := mk_Proposal 3 1 (Sudo (AddChallenge config)) (Keypair_hotkey owner) 0.
Definition resumed : SignedNetworkMessage := mk_SignedNetworkMessage (NmSudoAction Resume) (Keypair_sign owner [1]).
Definition forged : SignedNetworkMessage := mk_SignedNetworkMessage (NmProposal proposal) (snm_signature resumed).
Definition result_text : string := "result:5:0.5".

#[local] Instance text : RpcText := {|
  hex_decode := fun s =>
    if bool_decide (s = "7b"%string) then Ok [123]
    else if bool_decide (s = "key"%string) then Ok (toy_key 2)
    else if bool_decide (s = "signature"%string) then Ok (toy_sign 2 (str_bytes result_text))
    else Err "Odd number of digits"%string;
  from_ss58check := fun _ => None;
  uuid_string := fun u => "uuid-" +:+ Z_to_string u;
  to_rfc3339 := Z_to_string;
  f64_display := fun _ => "0.5"%string;
  decode_signed := fun b => if bool_decide (b = [123]) then Ok forged else Err "unexpected end of file"%string;
  encode_signed := fun _ => Ok [123]
|}.

Definition chain : ChainState := ChainState_new 0 (Keypair_hotkey owner) NetworkConfig_default.
Definition handler : RpcHandler :=
  set_orchestrator_tx (mk_Channel true []) (RpcHandler_new "0.1.0" chain 100).
Definition server : RpcServer := RpcServer_new 0 "0.1.0" RpcConfig_default chain BanList_new.

Lemma sudo_signature_reusable_witness :
  let '(r, h') := handle (sudo_request (jn 1) "7b") handler in
  st_challenge_configs (rh_chain h') =
    <[9 := normalized_config config]> (st_challenge_configs (rh_chain handler)) /\
  st_state_hash (rh_chain h') = st_state_hash (rh_chain handler) /\
  rh_routes h' = <[normalize_name "My Challenge" := default_routes]> (rh_routes handler) /\
  rh_orchestrator h' = (fun tx => (chan_send (AddContainer (normalized_config config)) tx).2) <$> rh_orchestrator handler /\
  (is_Some (jp_result r) <-> exists tx, rh_broadcast handler = Some tx /\ chan_open tx = true).
Proof.
  assert (Hnew : SignedNetworkMessage_new (NmSudoAction Resume) owner = Ok resumed) by reflexivity.
  assert (Hkey : st_sudo_key (rh_chain handler) = Keypair_hotkey owner) by reflexivity.
  assert (Hhex : hex_decode "7b" = Ok [123]) by reflexivity.
  assert (Hp : pr_action proposal = Sudo (AddChallenge config)) by reflexivity.
  assert (Hd : decode_signed [123] = Ok (mk_SignedNetworkMessage (NmProposal proposal) (snm_signature resumed))) by reflexivity.
  exact (sudo_signature_reusable owner (NmSudoAction Resume) resumed config proposal (jn 1) "7b" [123] handler
    Hnew Hkey Hhex Hp Hd).
Defined.

Definition requests : list (Z * HttpCall) :=
  [(0, GetHealth); (1, PostRpc (JArray [])); (2, PostProgress (JObject [("type"%string, JString "task_progress")]))].

Lemma only_sudo_changes_state_witness :
  protected (srv_handler (serve requests server).2) = protected (srv_handler server) /\
  srv_state (serve requests server).2 = srv_state server.
Proof.
  assert (Hs : rs_chain (srv_state server) = rh_chain (srv_handler server)) by reflexivity.
  assert (Hf : Forall (fun x => carries_signature (st_sudo_key (rh_chain (srv_handler server))) x.2 = false) requests)
    by (repeat constructor).
  exact (only_sudo_changes_state requests server Hs Hf).
Defined.

Lemma removed_challenge_still_routed_witness :
  routes_of "my-challenge" (apply_locally (RemoveChallenge 9) (apply_locally (AddChallenge config) handler)) =
    Some default_routes.
Proof.
  assert (Hc : st_challenge_configs (rh_chain handler) !! ccc_challenge_id config = None) by (vm_compute; reflexivity).
  assert (Hr : rh_routes handler !! uuid_string (ccc_challenge_id config) = None) by (vm_compute; reflexivity).
  assert (Hn : uuid_string (ccc_challenge_id config) <> normalize_name (ccc_name config)) by (vm_compute; discriminate).
  exact (proj1 (proj2 (removed_challenge_still_routed config handler Hc Hr Hn))).
Defined.

Definition job : Job := mk_Job 5 9 "agent" JobPending 0 (Some (Keypair_hotkey owner)) None.
Definition with_job : RpcState :=
  RpcState_new 0 "0.1.0" (set_pending_jobs [job] chain) BanList_new 100 "Mini-Chain" 0.
Definition result_request : JobResultRequest := mk_JobResultRequest "5" "key" "signature" (f64_lit 1 2) None.

Lemma job_result_from_any_key_witness :
  let '(r, s') := job_result_handler 1 "5" result_request with_job in
  rp_data r = Some (mk_JobResultResponse true "5") /\
  st_pending_jobs (rs_chain s') !! 0%nat = Some (complete_job (f64_lit 1 2) job) /\
  job_assigned_validator (complete_job (f64_lit 1 2) job) = Some (Keypair_hotkey owner) /\
  st_validators (rs_chain s') = st_validators (rs_chain with_job).
Proof.
  assert (Hk : Hotkey_from_hex (jq_hotkey result_request) = Some (Keypair_hotkey stranger)) by (vm_compute; reflexivity).
  assert (Hsig : hex_decode (jq_signature result_request) = Ok (sr25519_sign (kp_pair stranger)
    (str_bytes ("result:" +:+ "5" +:+ ":" +:+ f64_display (jq_score result_request))))) by (vm_compute; reflexivity).
  assert (Hid : uuid_parse_str "5" = Some 5) by reflexivity.
  assert (Hjob : list_find (fun j => job_id j = 5) (st_pending_jobs (rs_chain with_job)) = Some (0%nat, job)) by reflexivity.
  exact (job_result_from_any_key 1 "5" 5 result_request with_job stranger job 0 Hk Hsig Hid Hjob).
Defined.

Lemma pages_cover_witness :
  mjoin ((fun k => page (mk_PaginationParams (Some (Z.of_nat (k * 2))) (Some 2)) [1; 2; 3; 4; 5]) <$> seq 0 3) =
    [1; 2; 3; 4; 5].
Proof. exact (pages_cover [1; 2; 3; 4; 5] 2 ltac:(lia)). Defined.

Lemma reported_phase_spec_witness : (epoch_phase (80 mod 100)).1.1.1 = "commit"%string.
Proof. exact (proj1 (proj2 (reported_phase_spec 380 ltac:(lia)))). Defined.
End RpcToy.
