(* ===== verification/Orchestrator.v ===== *)
(** * The challenge orchestrator

    Models [crates/challenge-orchestrator/src]: [config.rs], the orchestrator of
    [lib.rs], the lifecycle manager, the health monitor, the evaluator and the
    choice of a backend.  The trait [ChallengeDocker] is a class over the state
    [D] of whatever runs the containers; an error is its text.  What a container
    answers over HTTP is an argument of the call. *)

From Stdlib Require Import Ascii.
From S2P Require Import Prelude Float64 Crypto RustStrings CoreTypes CoreState Submission.

(** ** Instances, configuration and the container runtime *)

Inductive ContainerStatus : Type := Starting | CsRunning | Unhealthy | CsStopped.
#[global] Instance ContainerStatus_eq_dec : EqDecision ContainerStatus.
Proof. solve_decision. Defined.

Record ChallengeInstance : Type := mk_ChallengeInstance {
  ci_challenge_id : ChallengeId;
  ci_container_id : string;
  ci_image : string;
  ci_endpoint : string;
  ci_started_at : DateTime;
  ci_status : ContainerStatus
}.
#[global] Instance ChallengeInstance_eq_dec : EqDecision ChallengeInstance.
Proof. solve_decision. Defined.

Definition with_status (st : ContainerStatus) (i : ChallengeInstance) : ChallengeInstance :=
  mk_ChallengeInstance (ci_challenge_id i) (ci_container_id i) (ci_image i) (ci_endpoint i) (ci_started_at i) st.

Record RegistryConfig : Type := mk_RegistryConfig {
  rc_url : string;
  rc_username : option string;
  rc_password : option string
}.
(** Durations in seconds. *)
Record OrchestratorConfig : Type := mk_OrchestratorConfig {
  oc_network_name : string;
  oc_health_check_interval : Z;
  oc_stop_timeout : Z;
  oc_registry : option RegistryConfig
}.
Definition OrchestratorConfig_default : OrchestratorConfig := mk_OrchestratorConfig "platform-network" 30 30 None.

Record CleanupResult : Type := mk_CleanupResult {
  clr_total_found : nat;
  clr_removed : nat;
  clr_errors : list string
}.

Class ChallengeDocker (D : Type) : Type := {
  pull_image : string -> SE D string unit;
  start_challenge : ChallengeContainerConfig -> SE D string ChallengeInstance;
  stop_container : string -> SE D string unit;
  remove_container : string -> SE D string unit;
  is_container_running : string -> SE D string bool;
  get_logs : string -> nat -> SE D string string;
  list_challenge_containers : SE D string (list string);
  cleanup_stale_containers : string -> Z -> list string -> SE D string CleanupResult
}.

Class IdText : Type := { id_to_string : ChallengeId -> string }.

(** The outcome of a step as a value: the caller goes on after an error. *)
Definition attempt {S E F A} (m : SE S E A) : SE S F (result E A) := fun s => let '(r, s') := m s in (Ok r, s').

Section orchestrator.
Context {D : Type} `{Docker : ChallengeDocker D} `{Txt : IdText} {HZ : HashOrder Z}.

(** ** The orchestrator *)

(** The runtime and the map of challenges the orchestrator, the monitor and the
    evaluator share. *)
Record ChallengeOrchestrator : Type := mk_ChallengeOrchestrator {
  o_docker : D;
  o_challenges : gmap ChallengeId ChallengeInstance;
  o_config : OrchestratorConfig
}.
Definition OrchM := SE ChallengeOrchestrator string.

Definition with_docker (docker : D) (config : OrchestratorConfig) : ChallengeOrchestrator :=
  mk_ChallengeOrchestrator docker ∅ config.

(** A call of the runtime. *)
Definition run_docker {A} (m : SE D string A) : OrchM A := fun o =>
  let '(r, d) := m (o_docker o) in (r, mk_ChallengeOrchestrator d (o_challenges o) (o_config o)).
Definition on_challenges (f : gmap ChallengeId ChallengeInstance -> gmap ChallengeId ChallengeInstance)
    (o : ChallengeOrchestrator) : ChallengeOrchestrator :=
  mk_ChallengeOrchestrator (o_docker o) (f (o_challenges o)) (o_config o).

Definition add_challenge (config : ChallengeContainerConfig) : OrchM unit :=
  _ ← run_docker (pull_image (ccc_docker_image config));
  instance ← run_docker (start_challenge config);
  modify (on_challenges (<[ccc_challenge_id config := instance]>)).

(** What a refresh restarts a challenge with. *)
Definition minimal_config (challenge_id : ChallengeId) (image : string) : ChallengeContainerConfig :=
  mk_ChallengeContainerConfig challenge_id ("challenge-" +:+ id_to_string challenge_id) image 0 f64_one 3600
    (f64_of_Z 2) 4096 false.

Definition refresh_challenge (challenge_id : ChallengeId) : OrchM unit :=
  o ← get_state;
  instance ← lift (ok_or (o_challenges o !! challenge_id) ("Challenge not found: " +:+ id_to_string challenge_id));
  _ ← run_docker (stop_container (ci_container_id instance));
  _ ← run_docker (pull_image (ci_image instance));
  new_instance ← run_docker (start_challenge (minimal_config challenge_id (ci_image instance)));
  modify (on_challenges (<[challenge_id := new_instance]>)).

Fixpoint refresh_each (ids : list ChallengeId) : OrchM unit :=
  match ids with
  | [] => mret tt
  | id :: rest => _ ← attempt (refresh_challenge id); refresh_each rest
  end.
Definition refresh_all_challenges : OrchM unit := o ← get_state; refresh_each (hm_keys (o_challenges o)).

Definition update_challenge (config : ChallengeContainerConfig) : OrchM unit :=
  o ← get_state;
  _ ← match o_challenges o !! ccc_challenge_id config with
      | Some i => run_docker (stop_container (ci_container_id i))
      | None => mret tt
      end;
  _ ← run_docker (pull_image (ccc_docker_image config));
  instance ← run_docker (start_challenge config);
  modify (on_challenges (<[ccc_challenge_id config := instance]>)).

Definition remove_challenge (challenge_id : ChallengeId) : OrchM unit :=
  o ← get_state;
  _ ← modify (on_challenges (delete challenge_id));
  match o_challenges o !! challenge_id with
  | Some i => _ ← run_docker (stop_container (ci_container_id i)); run_docker (remove_container (ci_container_id i))
  | None => mret tt
  end.

Definition list_challenges (o : ChallengeOrchestrator) : list ChallengeId := hm_keys (o_challenges o).
Definition get_challenge (id : ChallengeId) (o : ChallengeOrchestrator) : option ChallengeInstance := o_challenges o !! id.

Fixpoint remove_each (ids : list ChallengeId) : OrchM unit :=
  match ids with
  | [] => mret tt
  | id :: rest => _ ← remove_challenge id; remove_each rest
  end.

(** No instance, or one of another image. *)
Definition instance_outdated (config : ChallengeContainerConfig) (o : ChallengeOrchestrator) : bool :=
  match o_challenges o !! ccc_challenge_id config with
  | Some i => negb (bool_decide (ci_image i = ccc_docker_image config))
  | None => true
  end.

Fixpoint update_each (configs : list ChallengeContainerConfig) : OrchM unit :=
  match configs with
  | [] => mret tt
  | config :: rest =>
      o ← get_state;
      _ ← (if instance_outdated config o then update_challenge config else mret tt);
      update_each rest
  end.

(** [current_ids.difference(&target_ids)]. *)
Definition obsolete (current : gset ChallengeId) (configs : list ChallengeContainerConfig) : list ChallengeId :=
  key_order (current ∖ list_to_set (ccc_challenge_id <$> configs)).

Definition sync_challenges (configs : list ChallengeContainerConfig) : OrchM unit :=
  o ← get_state;
  _ ← remove_each (obsolete (dom (o_challenges o)) configs);
  update_each configs.

Definition cleanup_stale_task_containers : OrchM CleanupResult :=
  run_docker (cleanup_stale_containers "term-challenge-" 120 ["challenge-term-challenge"; "platform-"]%string).

(** ** The lifecycle manager *)

Record LifecycleManager : Type := mk_LifecycleManager {
  lm_docker : D;
  lm_challenges : gmap ChallengeId ChallengeInstance;
  lm_configs : gmap ChallengeId ChallengeContainerConfig
}.
Definition LifeM := SE LifecycleManager string.

Definition LifecycleManager_new (docker : D) (challenges : gmap ChallengeId ChallengeInstance) : LifecycleManager :=
  mk_LifecycleManager docker challenges ∅.

Definition lm_run {A} (m : SE D string A) : LifeM A := fun l =>
  let '(r, d) := m (lm_docker l) in (r, mk_LifecycleManager d (lm_challenges l) (lm_configs l)).

(** The configuration and the instance of a challenge. *)
Definition lm_store (config : ChallengeContainerConfig) (instance : ChallengeInstance) (l : LifecycleManager) :
    LifecycleManager :=
  mk_LifecycleManager (lm_docker l) (<[ccc_challenge_id config := instance]> (lm_challenges l))
    (<[ccc_challenge_id config := config]> (lm_configs l)).

Definition lm_add (config : ChallengeContainerConfig) : LifeM unit :=
  _ ← lm_run (pull_image (ccc_docker_image config));
  instance ← lm_run (start_challenge config);
  modify (lm_store config instance).

Definition lm_update (config : ChallengeContainerConfig) : LifeM unit :=
  l ← get_state;
  _ ← match lm_challenges l !! ccc_challenge_id config with
      | Some i => _ ← lm_run (stop_container (ci_container_id i)); lm_run (remove_container (ci_container_id i))
      | None => mret tt
      end;
  _ ← lm_run (pull_image (ccc_docker_image config));
  instance ← lm_run (start_challenge config);
  modify (lm_store config instance).

Definition lm_remove (challenge_id : ChallengeId) : LifeM unit :=
  l ← get_state;
  _ ← modify (fun l => mk_LifecycleManager (lm_docker l) (delete challenge_id (lm_challenges l)) (lm_configs l));
  _ ← match lm_challenges l !! challenge_id with
      | Some i => _ ← lm_run (stop_container (ci_container_id i)); lm_run (remove_container (ci_container_id i))
      | None => mret tt
      end;
  modify (fun l => mk_LifecycleManager (lm_docker l) (lm_challenges l) (delete challenge_id (lm_configs l))).

Definition lm_restart (challenge_id : ChallengeId) : LifeM unit :=
  l ← get_state;
  config ← lift (ok_or (lm_configs l !! challenge_id) "Challenge config not found"%string);
  lm_update config.

(** The unhealthy ones among the challenges. *)
Definition unhealthy_ids (challenges : gmap ChallengeId ChallengeInstance) : list ChallengeId :=
  fst <$> filter (fun x => ci_status x.2 = Unhealthy) (hm_iter challenges).

(** Runs an operation for every identifier and collects the outcomes. *)
Fixpoint for_each_id (op : ChallengeId -> LifeM unit) (ids : list ChallengeId) :
    LifeM (list (ChallengeId * result string unit)) :=
  match ids with
  | [] => mret []
  | id :: rest => r ← attempt (op id); rs ← for_each_id op rest; mret ((id, r) :: rs)
  end.

Definition restart_unhealthy : LifeM (list (ChallengeId * result string unit)) :=
  l ← get_state; for_each_id lm_restart (unhealthy_ids (lm_challenges l)).

Definition stop_all : LifeM (list (ChallengeId * result string unit)) :=
  l ← get_state; for_each_id lm_remove (hm_keys (lm_challenges l)).

Record SyncResult : Type := mk_SyncResult {
  sy_added : list ChallengeId;
  sy_updated : list ChallengeId;
  sy_removed : list ChallengeId;
  sy_unchanged : list ChallengeId;
  sy_errors : list (ChallengeId * string)
}.
Definition SyncResult_default : SyncResult := mk_SyncResult [] [] [] [] [].
Definition sync_is_success (r : SyncResult) : bool := bool_decide (sy_errors r = []).
Definition total_changes (r : SyncResult) : nat := length (sy_added r) + length (sy_updated r) + length (sy_removed r).

Definition push_added id r := mk_SyncResult (sy_added r ++ [id]) (sy_updated r) (sy_removed r) (sy_unchanged r) (sy_errors r).
Definition push_updated id r := mk_SyncResult (sy_added r) (sy_updated r ++ [id]) (sy_removed r) (sy_unchanged r) (sy_errors r).
Definition push_removed id r := mk_SyncResult (sy_added r) (sy_updated r) (sy_removed r ++ [id]) (sy_unchanged r) (sy_errors r).
Definition push_unchanged id r := mk_SyncResult (sy_added r) (sy_updated r) (sy_removed r) (sy_unchanged r ++ [id]) (sy_errors r).
Definition push_error id e r := mk_SyncResult (sy_added r) (sy_updated r) (sy_removed r) (sy_unchanged r) (sy_errors r ++ [(id, e)]).

Fixpoint sync_remove (ids : list ChallengeId) (r : SyncResult) : LifeM SyncResult :=
  match ids with
  | [] => mret r
  | id :: rest =>
      x ← attempt (lm_remove id);
      sync_remove rest (match x with Ok _ => push_removed id r | Err e => push_error id e r end)
  end.

(** No configuration stored, or one of another image. *)
Definition config_outdated (config : ChallengeContainerConfig) (l : LifecycleManager) : bool :=
  match lm_configs l !! ccc_challenge_id config with
  | Some c => negb (bool_decide (ccc_docker_image c = ccc_docker_image config))
  | None => true
  end.

Fixpoint sync_update (current : gset ChallengeId) (configs : list ChallengeContainerConfig) (r : SyncResult) :
    LifeM SyncResult :=
  match configs with
  | [] => mret r
  | config :: rest =>
      let id := ccc_challenge_id config in
      l ← get_state;
      if config_outdated config l then
        x ← attempt (lm_update config);
        sync_update current rest
          (match x with
           | Ok _ => if bool_decide (id ∈ current) then push_updated id r else push_added id r
           | Err e => push_error id e r
           end)
      else sync_update current rest (push_unchanged id r)
  end.

Definition lm_sync (target : list ChallengeContainerConfig) : LifeM SyncResult :=
  l ← get_state;
  let current := dom (lm_configs l) in
  r ← sync_remove (obsolete current target) SyncResult_default;
  sync_update current target r.

(** ** Health *)

(** What came back: the status code, the body, and the body as JSON. *)
Record HttpResponse : Type := mk_HttpResponse {
  hres_status : Z;
  hres_text : string;
  hres_json : result string Json
}.
Definition HttpAnswer : Type := result string HttpResponse.
Definition http_success (r : HttpResponse) : bool := (200 <=? hres_status r) && (hres_status r <=? 299).

(** [HealthCheckResponse]: the field of an object, or the one entry of an array. *)
Definition health_status (v : Json) : option string :=
  match v with
  | JObject _ => json_get "status" v ≫= json_str
  | JArray [JString s] => Some s
  | _ => None
  end.

Definition health_url (i : ChallengeInstance) : string := ci_endpoint i +:+ "/health".

Definition check_container_health (http : string -> HttpAnswer) (i : ChallengeInstance) : result string bool :=
  response ← http (health_url i);
  if negb (http_success response) then Ok false
  else match hres_json response with
       | Ok v => match health_status v with
                 | Some s => Ok (bool_decide (s = "ok"%string) || bool_decide (s = "healthy"%string))
                 | None => Ok true
                 end
       | Err _ => Ok true
       end.

Definition verdict (http : string -> HttpAnswer) (i : ChallengeInstance) : ContainerStatus :=
  match check_container_health http i with Ok true => CsRunning | _ => Unhealthy end.

(** One entry of a round: the status found for an instance is written to
    whatever instance the map has by then. *)
Definition record_status (id : ChallengeId) (st : ContainerStatus) (m : gmap ChallengeId ChallengeInstance) :
    gmap ChallengeId ChallengeInstance :=
  match m !! id with
  | Some i => if bool_decide (ci_status i = st) then m else <[id := with_status st i]> m
  | None => m
  end.

(** A round of the monitor over a snapshot of the map. *)
Definition health_round (http : string -> HttpAnswer) (snapshot : list (ChallengeId * ChallengeInstance))
    (m : gmap ChallengeId ChallengeInstance) : gmap ChallengeId ChallengeInstance :=
  fold_left (fun m x => record_status x.1 (verdict http x.2) m) snapshot m.
Definition health_tick (http : string -> HttpAnswer) (m : gmap ChallengeId ChallengeInstance) :
    gmap ChallengeId ChallengeInstance := health_round http (hm_iter m) m.

Definition monitor_check (http : string -> HttpAnswer) (id : ChallengeId) (m : gmap ChallengeId ChallengeInstance) :
    option ContainerStatus * gmap ChallengeId ChallengeInstance :=
  match m !! id with
  | None => (None, m)
  | Some i => let st := verdict http i in (Some st, <[id := with_status st i]> m)
  end.

Record HealthSummary : Type := mk_HealthSummary {
  hs_total : nat;
  hs_running : nat;
  hs_unhealthy : nat;
  hs_starting : nat;
  hs_stopped : nat
}.
Definition count_status (st : ContainerStatus) (m : gmap ChallengeId ChallengeInstance) : nat :=
  length (filter (fun x => ci_status x.2 = st) (hm_iter m)).
Definition summary (m : gmap ChallengeId ChallengeInstance) : HealthSummary :=
  let running := count_status CsRunning m in
  let unhealthy := count_status Unhealthy m in
  let starting := count_status Starting m in
  mk_HealthSummary (size m) running unhealthy starting (size m - running - unhealthy - starting).
Definition all_healthy (s : HealthSummary) : bool := (hs_unhealthy s =? 0)%nat && (hs_stopped s =? 0)%nat.
Definition percentage_healthy (s : HealthSummary) : f64 :=
  if (hs_total s =? 0)%nat then f64_of_Z 100
  else f64_mul (f64_div (f64_of_Z (Z.of_nat (hs_running s))) (f64_of_Z (Z.of_nat (hs_total s)))) (f64_of_Z 100).

(** ** The evaluator *)

Inductive EvaluatorError : Type :=
| ChallengeNotFound (id : ChallengeId)
| ChallengeNotReady (id : ChallengeId)
| NetworkError (e : string)
| ChallengeError (status : Z) (message : string)
| ParseError (e : string)
| EvTimeout.

Record ChallengeInfo : Type := mk_ChallengeInfo {
  inf_name : string;
  inf_version : string;
  inf_mechanism_id : Z;
  inf_emission_weight : f64;
  inf_tasks_count : Z;
  inf_description : option string
}.
Record ChallengeStatus : Type := mk_ChallengeStatus {
  cst_challenge_id : ChallengeId;
  cst_image : string;
  cst_status : ContainerStatus;
  cst_endpoint : string;
  cst_started_at : DateTime
}.

(** A request the evaluator sends. *)
Record Outgoing : Type := mk_Outgoing {
  out_method : string;
  out_url : string;
  out_body : option Json;
  out_timeout : Z
}.

Definition instance_of (m : gmap ChallengeId ChallengeInstance) (id : ChallengeId) : result EvaluatorError ChallengeInstance :=
  ok_or (m !! id) (ChallengeNotFound id).
Definition ready_instance (m : gmap ChallengeId ChallengeInstance) (id : ChallengeId) : result EvaluatorError ChallengeInstance :=
  i ← instance_of m id;
  if bool_decide (ci_status i = CsRunning) then Ok i else Err (ChallengeNotReady id).

(** The answer to a request, its body as JSON when the status is a success. *)
Definition forward (http : Outgoing -> HttpAnswer) (req : Outgoing) : result EvaluatorError Json :=
  response ← result_map_err NetworkError (http req);
  if negb (http_success response) then Err (ChallengeError (hres_status response) (hres_text response))
  else result_map_err ParseError (hres_json response).

Definition evaluate_generic (http : Outgoing -> HttpAnswer) (m : gmap ChallengeId ChallengeInstance) (id : ChallengeId)
    (request : Json) (timeout_secs : option Z) : result EvaluatorError Json :=
  i ← ready_instance m id;
  forward http (mk_Outgoing "POST" (ci_endpoint i +:+ "/evaluate") (Some request) (default 3600 timeout_secs)).

(** [trim_start_matches('/')]. *)
Fixpoint drop_slashes (l : list ascii) : list ascii :=
  match l with
  | a :: l' => if bool_decide (a = "/"%char) then drop_slashes l' else l
  | [] => []
  end.

Definition proxy_request (http : Outgoing -> HttpAnswer) (m : gmap ChallengeId ChallengeInstance) (id : ChallengeId)
    (endpoint method : string) (body : option Json) (timeout_secs : option Z) : result EvaluatorError Json :=
  i ← ready_instance m id;
  forward http (mk_Outgoing method (ci_endpoint i +:+ "/" +:+ of_chars (drop_slashes (chars endpoint))) body
    (default 30 timeout_secs)).

Definition get_info (http : Outgoing -> HttpAnswer) (decode : Json -> result string ChallengeInfo)
    (m : gmap ChallengeId ChallengeInstance) (id : ChallengeId) : result EvaluatorError ChallengeInfo :=
  i ← instance_of m id;
  response ← result_map_err NetworkError (http (mk_Outgoing "GET" (ci_endpoint i +:+ "/info") None 10));
  if negb (http_success response) then Err (ChallengeError (hres_status response) "Failed to get challenge info")
  else result_map_err ParseError (hres_json response ≫= decode).

Definition check_health (http : Outgoing -> HttpAnswer) (m : gmap ChallengeId ChallengeInstance) (id : ChallengeId) :
    result EvaluatorError bool :=
  i ← instance_of m id;
  match http (mk_Outgoing "GET" (health_url i) None 5) with
  | Ok resp => Ok (http_success resp)
  | Err _ => Ok false
  end.

Definition evaluator_list (m : gmap ChallengeId ChallengeInstance) : list ChallengeStatus :=
  (fun x => mk_ChallengeStatus x.1 (ci_image x.2) (ci_status x.2) (ci_endpoint x.2) (ci_started_at x.2)) <$> hm_iter m.

(** ** Backends *)

(** [DirectDockerBackend::cleanup_challenge]. *)
Fixpoint direct_cleanup_loop (challenge_id : string) (containers : list string) (removed : nat) : SE D string nat :=
  match containers with
  | [] => mret removed
  | container_id :: rest =>
      if contains challenge_id container_id then
        _ ← attempt (stop_container container_id);
        r ← attempt (remove_container container_id);
        direct_cleanup_loop challenge_id rest (if is_ok r then S removed else removed)
      else direct_cleanup_loop challenge_id rest removed
  end.
Definition direct_cleanup_challenge (challenge_id : string) : SE D string nat :=
  containers ← list_challenge_containers; direct_cleanup_loop challenge_id containers 0.
End orchestrator.

Definition DEFAULT_BROKER_SOCKET : string := "/var/run/platform/broker.sock".

Inductive BackendMode : Type := Development | Secure | Fallback.

(** The process environment: its variables and which paths exist. *)
Record ProcessEnv : Type := mk_ProcessEnv {
  pe_var : string -> option string;
  pe_exists : string -> bool
}.

Definition default_broker_socket_path (e : ProcessEnv) : string :=
  default DEFAULT_BROKER_SOCKET (pe_var e "BROKER_SOCKET_OVERRIDE").

Definition backend_development_mode (e : ProcessEnv) : bool := is_development_mode (pe_var e "DEVELOPMENT_MODE").

(** [SecureBackend::from_env]: the socket and the validator. *)
Definition from_env (e : ProcessEnv) : option (string * string) :=
  let validator_id := default "unknown"%string (pe_var e "VALIDATOR_HOTKEY") in
  let fallback :=
    let socket := default_broker_socket_path e in
    if pe_exists e socket then Some (socket, validator_id) else None in
  match pe_var e "CONTAINER_BROKER_SOCKET" with
  | Some socket => if pe_exists e socket then Some (socket, validator_id) else fallback
  | None => fallback
  end.

Definition is_available (e : ProcessEnv) : bool :=
  match pe_var e "CONTAINER_BROKER_SOCKET" with
  | Some socket => pe_exists e socket || pe_exists e (default_broker_socket_path e)
  | None => pe_exists e (default_broker_socket_path e)
  end.

Definition select_backend_mode (e : ProcessEnv) : BackendMode :=
  if backend_development_mode e then Development else if is_available e then Secure else Fallback.

Inductive Backend : Type :=
| SecureBroker (socket validator_id : string)
| DirectDocker.

(** [connect] is the outcome of [DockerClient::connect]. *)
Definition create_docker_fallback_backend (connect : result string unit) (e : ProcessEnv) : result string Backend :=
  match connect with
  | Ok _ => Ok DirectDocker
  | Err _ => Err ("No container backend available. Start broker at " +:+ default_broker_socket_path e +:+
                  " or set DEVELOPMENT_MODE=true for local Docker")%string
  end.

Definition create_backend (connect : result string unit) (e : ProcessEnv) : result string Backend :=
  match select_backend_mode e with
  | Development => _ ← connect; Ok DirectDocker
  | Secure =>
      match from_env e with
      | Some (socket, validator_id) => Ok (SecureBroker socket validator_id)
      | None => create_docker_fallback_backend connect e
      end
  | Fallback => create_docker_fallback_backend connect e
  end.
