(* ===== verification/DockerClient.v ===== *)
(** * The Docker client of the orchestrator

    Models [crates/challenge-orchestrator/src/docker.rs]: the client over the
    trait [DockerBridge], a class over the daemon's state [D]; a stream of the
    daemon is the list of what it yields.  [HostEnv] is what the process reads of
    its surroundings: variables, files, the hostname and the session's secret.
    The client implements the orchestrator's [ChallengeDocker]. *)

From Stdlib Require Import Ascii.
From S2P Require Import Prelude Float64 Crypto RustStrings CoreTypes CoreState Submission Orchestrator.

(** ** The daemon *)

Inductive DockerError : Type :=
| DockerResponse (status_code : Z) (message : string)
| OtherDockerError (message : string).

Record Inspect : Type := mk_Inspect { in_networks : option (list string); in_running : option bool }.
Record ContainerSummary : Type := mk_ContainerSummary {
  csm_id : option string;
  csm_names : option (list string);
  csm_created : option Z
}.
Record HostConfig : Type := mk_HostConfig {
  hc_network_mode : string;
  hc_port_bindings : list (string * (string * string));
  hc_nano_cpus : Z;
  hc_memory : Z;
  hc_binds : list string;
  hc_gpu : bool
}.
Record DockerConfig : Type := mk_DockerConfig {
  dc_image : string;
  dc_hostname : string;
  dc_env : list string;
  dc_host_config : HostConfig;
  dc_exposed_ports : list string
}.
Record ListOptions : Type := mk_ListOptions { lo_all : bool; lo_filters : list (string * list string) }.

Class DockerBridge (D : Type) : Type := {
  db_list_networks : SE D DockerError (list (option string));
  db_create_network : string -> string -> SE D DockerError unit;
  db_inspect_container : string -> SE D DockerError Inspect;
  db_connect_network : string -> string -> SE D DockerError unit;
  db_create_image : string -> D -> list (result DockerError (option string)) * D;
  db_create_volume : string -> string -> SE D DockerError unit;
  db_create_container : string -> DockerConfig -> SE D DockerError string;
  db_start_container : string -> SE D DockerError unit;
  db_stop_container : string -> Z -> SE D DockerError unit;
  db_remove_container : string -> bool -> SE D DockerError unit;
  db_list_containers : ListOptions -> SE D DockerError (list ContainerSummary);
  db_logs : string -> nat -> D -> list (result DockerError string) * D
}.

(** ** The surroundings of the process *)

Record HostEnv : Type := mk_HostEnv {
  he_env : ProcessEnv;
  he_vars : list (string * string);
  he_lines : string -> option (list string);
  he_hostname : option string;
  he_process_id : Z;
  he_session_secret : string
}.
Definition he_var (e : HostEnv) : string -> option string := pe_var (he_env e).

(** Texts of the libraries: errors, identifiers, tokens and configuration errors. *)
Class DockerText : Type := {
  docker_error_text : DockerError -> string;
  config_error_text : ContainerConfigError -> string;
  generate_token : string -> string -> string -> Z -> result string string;
  names_debug : list string -> string
}.

Definition is_ascii_hexdigit (a : ascii) : bool :=
  let n := nat_of_ascii a in
  ((48 <=? n) && (n <=? 57) || (65 <=? n) && (n <=? 70) || (97 <=? n) && (n <=? 102))%nat.

(** What follows the last, and the first, occurrence of a pattern. *)
Fixpoint after_last (p s : string) : option string :=
  match s with
  | EmptyString => None
  | String _ s' =>
      match after_last p s' with
      | Some r => Some r
      | None => if starts_with p s then Some (of_chars (drop (String.length p) (chars s))) else None
      end
  end.
Fixpoint after_first (p s : string) : option string :=
  if starts_with p s then Some (of_chars (drop (String.length p) (chars s)))
  else match s with EmptyString => None | String _ s' => after_first p s' end.

(** What precedes the first, and the last, slash. *)
Fixpoint before_first_slash (l : list ascii) : option (list ascii) :=
  match l with
  | [] => None
  | a :: l' => if bool_decide (a = "/"%char) then Some [] else (fun r => a :: r) <$> before_first_slash l'
  end.
Fixpoint before_last_slash (l : list ascii) : option (list ascii) :=
  match l with
  | [] => None
  | a :: l' =>
      match before_last_slash l' with
      | Some r => Some (a :: r)
      | None => if bool_decide (a = "/"%char) then Some [] else None
      end
  end.

(** The first twelve characters of an identifier that is long enough. *)
Definition short_container_id (id : string) : option string :=
  if (12 <=? String.length id)%nat then Some (of_chars (take 12 (chars id))) else None.

Definition cgroup_line_id (line : string) : option string :=
  match after_last "/docker/" line ≫= short_container_id with
  | Some id => Some id
  | None => after_last "cri-containerd-" line ≫= short_container_id
  end.
Definition mountinfo_line_id (line : string) : option string :=
  rest ← after_first "/docker/containers/" line;
  id ← before_first_slash (chars rest);
  short_container_id (of_chars id).

(** The first line that gives an identifier. *)
Fixpoint first_id (f : string -> option string) (lines : list string) : option string :=
  match lines with
  | [] => None
  | line :: rest => match f line with Some id => Some id | None => first_id f rest end
  end.

Definition get_container_id_static (e : HostEnv) : result string string :=
  let by_files :=
    match he_lines e "/proc/self/cgroup" ≫= first_id cgroup_line_id with
    | Some id => Ok id
    | None =>
        match (if pe_exists (he_env e) "/.dockerenv" then he_lines e "/proc/self/mountinfo" ≫= first_id mountinfo_line_id
               else None) with
        | Some id => Ok id
        | None => Err "Not running in a Docker container or unable to determine container ID"%string
        end
    end in
  match he_var e "HOSTNAME" with
  | Some hostname =>
      if (12 <=? String.length hostname)%nat && all_chars is_ascii_hexdigit hostname then Ok hostname else by_files
  | None => by_files
  end.

(** [format!("{:x}", n)], and padded with zeros to a width. *)
Definition hex_nibble (i : Z) : ascii := ascii_of_nat (Z.to_nat (if i <? 10 then 48 + i else 87 + i)).
Fixpoint hex_digits (fuel : nat) (n : Z) (acc : list ascii) : list ascii :=
  match fuel with
  | O => acc
  | S fuel => let acc := hex_nibble (n mod 16) :: acc in if n / 16 =? 0 then acc else hex_digits fuel (n / 16) acc
  end.
Definition format_hex (n : Z) : string := of_chars (hex_digits 16 n []).
Definition format_hex_padded (width : nat) (n : Z) : string :=
  let d := hex_digits 16 n [] in of_chars (replicate (width - length d) "0"%char ++ d).

(** [replace(chars, "")]. *)
Definition remove_chars (p : ascii -> bool) (s : string) : string := of_chars (filter (fun a => p a = false) (chars s)).

Section docker_client.
Context {D : Type} `{Bridge : DockerBridge D} `{Txt : DockerText} `{Ids : IdSource} `{IdT : IdText}.
Context (env : HostEnv).

Definition get_validator_suffix : string :=
  let detected :=
    match get_container_id_static env with
    | Ok id => to_lowercase (of_chars (take 12 (chars id)))
    | Err _ =>
        let hostname := default (format_hex (he_process_id env)) (he_var env "HOSTNAME") in
        format_hex_padded 12 (default_hash hostname)
    end in
  match he_var env "VALIDATOR_NAME" with
  | Some name =>
      if is_empty name then detected
      else remove_chars (fun a => bool_decide (a = "-"%char) || bool_decide (a = " "%char) || bool_decide (a = "_"%char))
             (to_lowercase name)
  | None => detected
  end.

Record DockerClient : Type := mk_DockerClient { cl_daemon : D; cl_network_name : string }.
Definition ClientM := SE DockerClient string.

(** A call of the bridge whose error is returned, or kept for the caller. *)
Definition bridge {A} (m : SE D DockerError A) : SE DockerClient DockerError A := fun c =>
  let '(r, d) := m (cl_daemon c) in (r, mk_DockerClient d (cl_network_name c)).
Definition call {A} (m : SE D DockerError A) : ClientM A := fun c =>
  let '(r, c') := bridge m c in (result_map_err docker_error_text r, c').

(** The network of the validator: the first that is user-defined, else the
    default bridge. *)
Fixpoint best_network (names : list string) (best : option string) : option string :=
  match names with
  | [] => best
  | name :: rest =>
      if bool_decide (name = "host"%string) || bool_decide (name = "none"%string) then best_network rest best
      else if bool_decide (name = "bridge"%string) then
        best_network rest (match best with None => Some name | Some b => Some b end)
      else Some name
  end.
Definition detect_validator_network : ClientM string :=
  container_id ← lift (get_container_id_static env);
  inspect ← call (db_inspect_container container_id);
  networks ← lift (ok_or (in_networks inspect) "No network settings found"%string);
  lift (ok_or (best_network networks None) "No suitable network found for validator container"%string).

Definition ensure_network : ClientM unit :=
  c ← get_state;
  networks ← call db_list_networks;
  if existsb (fun n => bool_decide (n = Some (cl_network_name c))) networks then mret tt
  else call (db_create_network (cl_network_name c) "bridge").

Definition get_self_container_id : result string string := get_container_id_static env.

Definition connect_self_to_network : ClientM unit :=
  c ← get_state;
  container_id ← lift get_self_container_id;
  inspect ← call (db_inspect_container container_id);
  if (match in_networks inspect with Some nets => bool_decide (cl_network_name c ∈ nets) | None => false end) then mret tt
  else call (db_connect_network (cl_network_name c) container_id).

Definition is_image_allowed (image : string) : bool :=
  if is_development_mode (he_var env "DEVELOPMENT_MODE") then true
  else existsb (fun p => starts_with (to_lowercase p) (to_lowercase image)) ALLOWED_DOCKER_PREFIXES.

(** Reads the stream of a pull to its end; its errors are only logged. *)
Definition drain_pull (image : string) : ClientM unit := fun c =>
  let '(_, d) := db_create_image image (cl_daemon c) in (Ok tt, mk_DockerClient d (cl_network_name c)).

Definition client_pull_image (image : string) : ClientM unit :=
  _ ← require (is_image_allowed image)
        ("Docker image '" +:+ image +:+ "' is not from an allowed registry. Only images from ghcr.io/platformnetwork/ are permitted.");
  drain_pull image.

Definition client_stop_container (container_id : string) : ClientM unit := fun c =>
  match bridge (db_stop_container container_id 30) c with
  | (Ok _, c') => (Ok tt, c')
  | (Err (DockerResponse 304 _), c') | (Err (DockerResponse 404 _), c') => (Ok tt, c')
  | (Err e, c') => (Err (docker_error_text e), c')
  end.

Definition client_remove_container (container_id : string) : ClientM unit := fun c =>
  match bridge (db_remove_container container_id true) c with
  | (Ok _, c') => (Ok tt, c')
  | (Err (DockerResponse 404 _), c') => (Ok tt, c')
  | (Err e, c') => (Err (docker_error_text e), c')
  end.

Definition client_is_container_running (container_id : string) : ClientM bool := fun c =>
  match bridge (db_inspect_container container_id) c with
  | (Ok info, c') => (Ok (default false (in_running info)), c')
  | (Err (DockerResponse 404 _), c') => (Ok false, c')
  | (Err e, c') => (Err (docker_error_text e), c')
  end.

(** ** Starting a challenge *)

Definition dashed_name (name : string) : string := replace_char " " "-" (to_lowercase name).
Definition challenge_container_name (config : ChallengeContainerConfig) : string :=
  "challenge-" +:+ dashed_name (ccc_name config) +:+ "-" +:+ get_validator_suffix.

Definition create_volume (name : string) : ClientM unit := _ ← attempt (call (db_create_volume name "local")); mret tt.
Fixpoint create_volumes (names : list string) : ClientM unit :=
  match names with [] => mret tt | n :: rest => _ ← create_volume n; create_volumes rest end.

Definition shared_volumes : list string := ["term-challenge-tasks"; "term-challenge-cache"; "term-challenge-evals"]%string.

Definition host_volume (v : string) : string := v +:+ ":/var/lib/docker/volumes/" +:+ v +:+ "/_data:rw".
Definition challenge_binds (volume_name : string) : list string :=
  ["/var/run/docker.sock:/var/run/docker.sock:rw"; "term-challenge-tasks:/app/data/tasks:rw";
   host_volume "term-challenge-tasks"; "term-challenge-cache:/root/.cache/term-challenge:rw";
   host_volume "term-challenge-cache"; "term-challenge-evals:/tmp/term-challenge-evals:rw";
   host_volume "term-challenge-evals"; volume_name +:+ ":/data:rw"]%string.

(** A variable that is passed on when it is set. *)
Definition pass_var (from to : string) : list string :=
  match he_var env from with Some v => [to +:+ "=" +:+ v] | None => [] end.

Definition database_url (config : ChallengeContainerConfig) : list string :=
  match he_var env "DATABASE_URL" with
  | Some url =>
      let db := replace_char " " "_" (replace_char "-" "_" (to_lowercase (ccc_name config))) in
      match before_last_slash (chars url) with
      | Some base => ["DATABASE_URL=" +:+ of_chars base +:+ "/" +:+ db]
      | None => ["DATABASE_URL=" +:+ url +:+ "/" +:+ db]
      end
  | None => []
  end.

Definition platform_host : string :=
  match he_var env "VALIDATOR_NAME" with
  | Some name => "platform-" +:+ name
  | None => match he_var env "VALIDATOR_CONTAINER_NAME" with
            | Some name => name
            | None => default "localhost"%string (he_hostname env)
            end
  end.

Definition broker_token (config : ChallengeContainerConfig) : list string :=
  let secret := default (he_session_secret env) (he_var env "BROKER_JWT_SECRET") in
  match generate_token (ccc_name config) (default "unknown"%string (he_var env "VALIDATOR_HOTKEY")) secret 315360000 with
  | Ok token => ["CONTAINER_BROKER_JWT=" +:+ token]
  | Err _ => []
  end.

Definition challenge_env (config : ChallengeContainerConfig) : list string :=
  ["CHALLENGE_ID=" +:+ ccc_name config; "CHALLENGE_UUID=" +:+ id_to_string (ccc_challenge_id config);
   "MECHANISM_ID=" +:+ Z_to_string (ccc_mechanism_id config); "TASKS_DIR=/app/data/tasks"; "DATA_DIR=/data";
   "RUST_LOG=" +:+ (match he_var env "VERBOSE" with
                    | Some _ => "debug,hyper=info,h2=info,tower=info,tokio_postgres=debug"
                    | None => "info,term_challenge=debug"
                    end);
   "PORT=8080"; "HOST_TASKS_DIR=/var/lib/docker/volumes/term-challenge-tasks/_data";
   "HOST_CACHE_DIR=/var/lib/docker/volumes/term-challenge-cache/_data"; "CACHE_DIR=/root/.cache/term-challenge";
   "HOST_BENCHMARK_RESULTS_DIR=/var/lib/docker/volumes/term-challenge-evals/_data";
   "BENCHMARK_RESULTS_DIR=/tmp/term-challenge-evals"]%string ++
  pass_var "DEVELOPMENT_MODE" "DEVELOPMENT_MODE" ++ pass_var "VALIDATOR_HOTKEY" "VALIDATOR_HOTKEY" ++
  pass_var "VALIDATOR_SECRET_KEY" "VALIDATOR_SECRET" ++ pass_var "OWNER_HOTKEY" "OWNER_HOTKEY" ++
  pass_var "BROADCAST_SECRET" "BROADCAST_SECRET" ++ database_url config ++
  (match he_var env "PLATFORM_PUBLIC_URL" with
   | Some u => if is_empty u then [] else ["PLATFORM_URL=" +:+ u]
   | None => []
   end) ++
  ["CONTAINER_BROKER_WS_URL=ws://" +:+ platform_host +:+ ":" +:+ default "8090"%string (he_var env "BROKER_WS_PORT")] ++
  broker_token config ++
  ((fun x => x.1 +:+ "=" +:+ x.2) <$> filter (fun x => starts_with "EXTRA_" x.1 = true) (he_vars env)).

Definition challenge_host_config (network volume_name : string) (config : ChallengeContainerConfig) : HostConfig :=
  mk_HostConfig network [("8080/tcp", ("127.0.0.1", "0"))]%string
    (f64_as_i64 (f64_mul (ccc_cpu_cores config) (f64_of_Z 1000000000)))
    (u64_mul (u64_mul (ccc_memory_mb config) 1024) 1024) (challenge_binds volume_name) (ccc_gpu_required config).

Definition challenge_docker_config (network : string) (config : ChallengeContainerConfig) : DockerConfig :=
  let name := challenge_container_name config in
  mk_DockerConfig (ccc_docker_image config) name (challenge_env config)
    (challenge_host_config network (name +:+ "-data") config) ["8080/tcp"%string].

(** [now] is read when the container has started. *)
Definition client_start_challenge (now : DateTime) (config : ChallengeContainerConfig) : ClientM ChallengeInstance :=
  c ← get_state;
  let name := challenge_container_name config in
  _ ← require (is_image_allowed (ccc_docker_image config))
        ("Docker image '" +:+ ccc_docker_image config +:+ "' is not from an allowed registry. Only images from ghcr.io/platformnetwork/ are permitted. Challenge '" +:+ ccc_name config +:+ "' rejected.");
  _ ← lift (result_map_err (fun r => "Challenge config validation failed: " +:+ config_error_text r)
              (ContainerConfig_validate (he_var env "DEVELOPMENT_MODE") config));
  _ ← ensure_network;
  _ ← attempt (client_remove_container name);
  _ ← create_volumes ([name +:+ "-data"; "challenge-" +:+ dashed_name (ccc_name config) +:+ "-cache"] ++ shared_volumes);
  container_id ← call (db_create_container name (challenge_docker_config (cl_network_name c) config));
  _ ← call (db_start_container container_id);
  _ ← call (db_inspect_container container_id);
  mret (mk_ChallengeInstance (ccc_challenge_id config) container_id (ccc_docker_image config)
          ("http://" +:+ name +:+ ":8080") now Starting).

(** ** Listing, logs and cleanup *)

Definition client_list_challenge_containers : ClientM (list string) :=
  c ← get_state;
  containers ← call (db_list_containers (mk_ListOptions true
    [("name", ["challenge-"]); ("network", [cl_network_name c])]%string));
  mret (omap csm_id containers).

(** [try_collect]: the entries up to the first error. *)
Fixpoint try_collect (l : list (result DockerError string)) : result string (list string) :=
  match l with
  | [] => Ok []
  | Ok x :: rest => r ← try_collect rest; Ok (x :: r)
  | Err e :: _ => Err (docker_error_text e)
  end.
Definition client_get_logs (container_id : string) (tail : nat) : ClientM string := fun c =>
  let '(stream, d) := db_logs container_id tail (cl_daemon c) in
  (logs ← try_collect stream; Ok (join "" logs), mk_DockerClient d (cl_network_name c)).

Definition clean_name (name : string) : string := of_chars (drop_slashes (chars name)).

(** Whether a container is one to remove. *)
Definition is_stale (now : Z) (prefix : string) (max_age_minutes : Z) (exclude : list string) (c : ContainerSummary) : bool :=
  let names := default [] (csm_names c) in
  bool_decide (is_Some (csm_id c)) &&
  existsb (fun n => starts_with prefix (clean_name n)) names &&
  negb (existsb (fun n => existsb (fun p => contains p (clean_name n)) exclude) names) &&
  ((max_age_minutes =? 0) || negb (now - default 0 (csm_created c) <? max_age_minutes * 60)).

Fixpoint cleanup_loop (now : Z) (prefix : string) (max_age_minutes : Z) (exclude : list string)
    (containers : list ContainerSummary) (r : CleanupResult) : ClientM CleanupResult :=
  match containers with
  | [] => mret r
  | c :: rest =>
      match csm_id c with
      | Some id =>
          if is_stale now prefix max_age_minutes exclude c then
            x ← attempt (client_remove_container id);
            cleanup_loop now prefix max_age_minutes exclude rest
              (match x with
               | Ok _ => mk_CleanupResult (S (clr_total_found r)) (S (clr_removed r)) (clr_errors r)
               | Err e => mk_CleanupResult (S (clr_total_found r)) (clr_removed r)
                            (clr_errors r ++ [names_debug (default [] (csm_names c)) +:+ ": " +:+ e])
               end)
          else cleanup_loop now prefix max_age_minutes exclude rest r
      | None => cleanup_loop now prefix max_age_minutes exclude rest r
      end
  end.

(** [now] in seconds. *)
Definition client_cleanup_stale (now : Z) (prefix : string) (max_age_minutes : Z) (exclude : list string) :
    ClientM CleanupResult :=
  containers ← call (db_list_containers (mk_ListOptions true []));
  cleanup_loop now prefix max_age_minutes exclude containers (mk_CleanupResult 0 0 []).

(** The client as the orchestrator's runtime.  [clock] is the time, in
    milliseconds, that a call reads; the state of the daemon it reads it in moves
    with every call. *)
Definition docker_client_runtime (clock : DockerClient -> Z) : ChallengeDocker DockerClient := {|
  pull_image := client_pull_image;
  start_challenge := fun config c => client_start_challenge (clock c) config c;
  stop_container := client_stop_container;
  remove_container := client_remove_container;
  is_container_running := client_is_container_running;
  get_logs := client_get_logs;
  list_challenge_containers := client_list_challenge_containers;
  cleanup_stale_containers := fun prefix max_age_minutes exclude c =>
    client_cleanup_stale (clock c / 1000) prefix max_age_minutes exclude c
|}.

(** [ChallengeOrchestrator::bootstrap_with_docker]. *)
Definition bootstrap_with_docker (client : DockerClient) (config : OrchestratorConfig) :
    result string (ChallengeOrchestrator (D := DockerClient)) :=
  match ensure_network client with
  | (Err e, _) => Err e
  | (Ok _, client) => let '(_, client) := attempt (F := string) connect_self_to_network client in Ok (with_docker client config)
  end.
End docker_client.
