(* ===== verification/OrchestratorProps.v ===== *)
(** * Properties of the orchestrator and its Docker client

    What a synchronisation reaches when the runtime works and what it reports
    when it does not, the errors that lose track of containers, the health
    monitor against its specification, the choice of a backend, and the images
    that can ever run, proved for any runtime that starts only allowed images and
    discharged by the Docker client. *)

From Stdlib Require Import Ascii.
From stdpp Require Import relations.
From S2P Require Import Prelude Float64 Crypto RustStrings CoreTypes CoreState Submission Orchestrator DockerClient.

(** ** Runtimes *)

(** A runtime whose calls succeed, and whose instances have the image asked for. *)
Record reliable {D} (R : ChallengeDocker D) : Prop := {
  rel_pull : forall image d, exists d', pull_image image d = (Ok tt, d');
  rel_stop : forall id d, exists d', stop_container id d = (Ok tt, d');
  rel_remove : forall id d, exists d', remove_container id d = (Ok tt, d');
  rel_start : forall config d, exists i d', start_challenge config d = (Ok i, d') /\ ci_image i = ccc_docker_image config
}.

(** A runtime whose calls succeed and do what they say to the running
    containers, which [containers] lists with their images: stopping and removing
    end one, starting adds one under a new identifier. *)
Record tracks {D} (R : ChallengeDocker D) (containers : D -> gmap string string) : Prop := {
  tr_pull : forall image d, exists d', pull_image image d = (Ok tt, d') /\ containers d' = containers d;
  tr_stop : forall id d, exists d', stop_container id d = (Ok tt, d') /\ containers d' = delete id (containers d);
  tr_remove : forall id d, exists d', remove_container id d = (Ok tt, d') /\ containers d' = delete id (containers d);
  tr_start : forall config d, exists i d', start_challenge config d = (Ok i, d') /\
    ci_image i = ccc_docker_image config /\ containers d !! ci_container_id i = None /\
    containers d' = <[ci_container_id i := ccc_docker_image config]> (containers d)
}.

Lemma tracks_reliable {D} (R : ChallengeDocker D) containers : tracks R containers -> reliable R.
Proof.
  intros [Hp Hst Hr Hs]. split.
  - intros image d. destruct (Hp image d) as (d' & ? & _). eauto.
  - intros id d. destruct (Hst id d) as (d' & ? & _). eauto.
  - intros id d. destruct (Hr id d) as (d' & ? & _). eauto.
  - intros config d. destruct (Hs config d) as (i & d' & ? & ? & _). eauto.
Qed.

(** A runtime that only starts images of which [P] holds. *)
Class StartsOnly {D} (R : ChallengeDocker D) (P : string -> Prop) : Prop := {
  starts_only : forall config d i d', start_challenge config d = (Ok i, d') ->
    ci_image i = ccc_docker_image config /\ P (ccc_docker_image config)
}.

Section orchestrator.
Context {D : Type} `{Docker : ChallengeDocker D} `{Txt : IdText} {HZ : HashOrder Z}.
Implicit Type o : ChallengeOrchestrator (D := D).
Implicit Type l : LifecycleManager (D := D).

#[local] Ltac unfold_ops :=
  unfold add_challenge, update_challenge, refresh_challenge, remove_challenge, lm_update, lm_remove, lm_add, lm_restart,
    mbind, SE_bind, mret, SE_ret, get_state, modify, lift, run_docker, lm_run, attempt, on_challenges, lm_store.

(** Runs the calls of a reliable runtime one after the other. *)
#[local] Ltac reliable_steps HR :=
  repeat match goal with
  | |- context [stop_container ?x ?d] => destruct (rel_stop _ HR x d) as [? ->]; cbn
  | |- context [remove_container ?x ?d] => destruct (rel_remove _ HR x d) as [? ->]; cbn
  | |- context [pull_image ?x ?d] => destruct (rel_pull _ HR x d) as [? ->]; cbn
  | |- context [start_challenge ?x ?d] => destruct (rel_start _ HR x d) as (? & ? & -> & ?); cbn
  end.

(** ** Synchronisation of the orchestrator *)

Lemma remove_challenge_reliable id o :
  reliable Docker -> exists o', remove_challenge id o = (Ok tt, o') /\ o_challenges o' = delete id (o_challenges o).
Proof.
  intros HR. unfold_ops. destruct (o_challenges o !! id) as [i|]; cbn; [|by eexists].
  reliable_steps HR. by eexists.
Qed.

Lemma remove_each_reliable ids o :
  reliable Docker ->
  exists o', remove_each ids o = (Ok tt, o') /\
    forall k, o_challenges o' !! k = if decide (k ∈ ids) then None else o_challenges o !! k.
Proof.
  intros HR. revert o. induction ids as [|id ids IH]; intros o.
  { exists o. split; [done|]. intros k. rewrite decide_False; [done|]. apply not_elem_of_nil. }
  cbn [remove_each]. unfold mbind, SE_bind.
  destruct (remove_challenge_reliable id o HR) as (o1 & -> & Ho1). destruct (IH o1) as (o' & -> & Ho').
  exists o'. split; [done|]. intros k. rewrite Ho', Ho1.
  destruct (decide (k = id)) as [->|Hne].
  - rewrite lookup_delete_eq. rewrite (decide_True (P := id ∈ id :: ids)) by apply list_elem_of_here. by case_decide.
  - rewrite lookup_delete_ne by done.
    destruct (decide (k ∈ ids)) as [Hin|Hin]; [rewrite decide_True by (by apply elem_of_cons; right); done|].
    rewrite decide_False; [done|]. rewrite elem_of_cons. by intros [?|?].
Qed.

Lemma update_challenge_reliable config o :
  reliable Docker ->
  exists o' i, update_challenge config o = (Ok tt, o') /\ ci_image i = ccc_docker_image config /\
    o_challenges o' = <[ccc_challenge_id config := i]> (o_challenges o).
Proof.
  intros HR. unfold_ops.
  destruct (o_challenges o !! ccc_challenge_id config) as [i0|]; cbn; reliable_steps HR; by do 2 eexists.
Qed.

Lemma update_each_reliable configs o :
  reliable Docker -> NoDup (ccc_challenge_id <$> configs) ->
  exists o', update_each configs o = (Ok tt, o') /\
    (forall k, k ∉ ccc_challenge_id <$> configs -> o_challenges o' !! k = o_challenges o !! k) /\
    (forall config, config ∈ configs -> exists i, o_challenges o' !! ccc_challenge_id config = Some i /\
       ci_image i = ccc_docker_image config /\
       (forall i0, o_challenges o !! ccc_challenge_id config = Some i0 -> ci_image i0 = ccc_docker_image config -> i = i0)).
Proof.
  intros HR. revert o. induction configs as [|config configs IH]; intros o Hnd.
  { exists o. split; [done|]. split; [done|]. intros config Hin. by apply not_elem_of_nil in Hin. }
  cbn [fmap list_fmap] in Hnd. apply NoDup_cons in Hnd as [Hnew Hnd].
  cbn [update_each]. unfold mbind, SE_bind, get_state.
  assert (H1 : exists o1 i, (if instance_outdated config o then update_challenge config else mret tt) o = (Ok tt, o1) /\
    o_challenges o1 !! ccc_challenge_id config = Some i /\ ci_image i = ccc_docker_image config /\
    (forall i0, o_challenges o !! ccc_challenge_id config = Some i0 -> ci_image i0 = ccc_docker_image config -> i = i0) /\
    forall k, k <> ccc_challenge_id config -> o_challenges o1 !! k = o_challenges o !! k).
  { unfold instance_outdated. destruct (o_challenges o !! ccc_challenge_id config) as [i0|] eqn:Hi0.
    - destruct (decide (ci_image i0 = ccc_docker_image config)) as [Heq|Hne].
      + rewrite bool_decide_true by done. exists o, i0. cbn. repeat split; try done. congruence.
      + rewrite bool_decide_false by done. cbn.
        destruct (update_challenge_reliable config o HR) as (o1 & i & -> & Hi & Ho1). exists o1, i.
        rewrite Ho1, lookup_insert_eq. repeat split; try done; [by intros ? [= <-]|].
        intros k Hk. by rewrite lookup_insert_ne.
    - cbn. destruct (update_challenge_reliable config o HR) as (o1 & i & -> & Hi & Ho1). exists o1, i.
      rewrite Ho1, lookup_insert_eq. repeat split; try done. intros k Hk. by rewrite lookup_insert_ne. }
  destruct H1 as (o1 & i & -> & Hl & Hi & Hsame & Hframe).
  destruct (IH o1 Hnd) as (o' & -> & Hout & Hin). exists o'. split; [done|]. split.
  - intros k Hk. cbn [fmap list_fmap] in Hk. apply not_elem_of_cons in Hk as [Hk1 Hk2]. by rewrite Hout, Hframe.
  - intros c Hc. apply elem_of_cons in Hc as [->|Hc].
    + exists i. by rewrite Hout.
    + destruct (Hin c Hc) as (j & Hj & Hji & Hjs). exists j. repeat split; try done.
      intros i0 Hi0. apply Hjs. rewrite Hframe; [done|]. intros Heq. apply Hnew. rewrite <- Heq.
      by apply list_elem_of_fmap_2.
Qed.

(** What a synchronisation makes of the map of challenges. *)
Lemma sync_targets configs o :
  reliable Docker -> NoDup (ccc_challenge_id <$> configs) ->
  let '(r, o') := sync_challenges configs o in
  r = Ok tt /\
  (forall id, is_Some (o_challenges o' !! id) <-> id ∈ ccc_challenge_id <$> configs) /\
  (forall config, config ∈ configs -> exists i, o_challenges o' !! ccc_challenge_id config = Some i /\
     ci_image i = ccc_docker_image config /\
     (forall i0, o_challenges o !! ccc_challenge_id config = Some i0 -> ci_image i0 = ccc_docker_image config -> i = i0)).
Proof.
  intros HR Hnd. unfold sync_challenges, mbind, SE_bind, get_state.
  destruct (remove_each_reliable (obsolete (dom (o_challenges o)) configs) o HR) as (o1 & -> & Ho1).
  destruct (update_each_reliable configs o1 HR Hnd) as (o' & -> & Hout & Hin).
  assert (Hobs : forall k, k ∈ obsolete (dom (o_challenges o)) configs <->
    is_Some (o_challenges o !! k) /\ k ∉ ccc_challenge_id <$> configs).
  { intros k. unfold obsolete. rewrite key_order_perm, elem_of_elements, elem_of_difference, elem_of_dom.
    by rewrite elem_of_list_to_set. }
  split; [done|]. split.
  - intros id. destruct (decide (id ∈ ccc_challenge_id <$> configs)) as [Hid|Hid].
    + split; [done|]. intros _. apply list_elem_of_fmap in Hid as (c & -> & Hc).
      destruct (Hin c Hc) as (i & -> & _). by eexists.
    + split; [|done]. rewrite (Hout _ Hid), Ho1. case_decide as Hd; [by intros [? ?]|].
      intros Hs. exfalso. apply Hd. by apply Hobs.
  - intros c Hc. destruct (Hin c Hc) as (i & Hi & Him & His). exists i. repeat split; try done.
    intros i0 Hi0. apply His. rewrite Ho1, decide_False; [done|]. rewrite Hobs. intros [_ Hn]. apply Hn.
    by apply list_elem_of_fmap_2.
Qed.

(** ** The containers behind a synchronisation *)

Section containers.
Context (containers : D -> gmap string string) (HT : tracks Docker containers).

(** The containers of the listed challenges. *)
Definition owned o (c : string) : Prop :=
  exists id i, o_challenges o !! id = Some i /\ ci_container_id i = c.

(** Every listed challenge has a container of its own, which runs its image. *)
Definition all_running o : Prop :=
  (forall id i, o_challenges o !! id = Some i -> containers (o_docker o) !! ci_container_id i = Some (ci_image i)) /\
  (forall id id' i i', o_challenges o !! id = Some i -> o_challenges o !! id' = Some i' ->
     ci_container_id i = ci_container_id i' -> id = id').

(** What operations do to the containers: those that are given up are stopped,
    new ones did not run before, others are left alone. *)
Record moves o o' : Prop := {
  mv_running : all_running o';
  mv_stopped : forall c, owned o c -> ~ owned o' c -> containers (o_docker o') !! c = None;
  mv_new : forall c, owned o' c -> ~ owned o c -> containers (o_docker o) !! c = None;
  mv_others : forall c, ~ owned o c -> ~ owned o' c -> containers (o_docker o') !! c = containers (o_docker o) !! c
}.

Lemma owned_dec o c : owned o c \/ ~ owned o c.
Proof.
  destruct (decide (map_Exists (fun _ i => ci_container_id i = c) (o_challenges o))) as [H|H]; [left|right].
  - by destruct H as (id & i & ? & ?); exists id, i.
  - intros (id & i & ? & ?). apply H. by exists id, i.
Qed.

Lemma moves_refl o : all_running o -> moves o o.
Proof. by split. Qed.

Lemma moves_trans o1 o2 o3 : moves o1 o2 -> moves o2 o3 -> moves o1 o3.
Proof.
  intros [Hr1 Hs1 Hn1 Ho1] [Hr2 Hs2 Hn2 Ho2]. split; [done|..]; intros c H1 H3;
    destruct (owned_dec o2 c) as [H2|H2]; auto.
  - rewrite Ho2 by done. auto.
  - rewrite <- Ho1 by done. auto.
  - rewrite Hs2 by done. symmetry. auto.
  - rewrite Ho2 by done. auto.
Qed.

(** Removing a listed challenge ends its container. *)
Lemma stop_listed_moves id i o d :
  all_running o -> o_challenges o !! id = Some i ->
  containers d = delete (ci_container_id i) (containers (o_docker o)) ->
  moves o (mk_ChallengeOrchestrator d (delete id (o_challenges o)) (o_config o)).
Proof.
  intros [Hrun Hinj] Hi Hd.
  assert (Hother : forall k j, k <> id -> o_challenges o !! k = Some j -> ci_container_id j <> ci_container_id i).
  { intros k j Hk Hj Heq. apply Hk. by eapply Hinj. }
  split; [split|..]; cbn [o_challenges o_docker].
  - intros k j [Hk Hj]%lookup_delete_Some. rewrite Hd, lookup_delete_ne by (by apply not_eq_sym; eapply Hother). eauto.
  - intros k k' j j' [_ Hj]%lookup_delete_Some [_ Hj']%lookup_delete_Some. eauto.
  - intros c (k & j & Hj & Hc) Hno. rewrite Hd. destruct (decide (k = id)) as [->|Hk].
    + simplify_eq. apply lookup_delete_eq.
    + exfalso. apply Hno. exists k, j. cbn. by rewrite lookup_delete_ne.
  - intros c (k & j & Hj & Hc) Hno. cbn in Hj. apply lookup_delete_Some in Hj as [_ Hj].
    exfalso. apply Hno. by exists k, j.
  - intros c Hno _. rewrite Hd, lookup_delete_ne; [done|]. intros Heq. apply Hno. by exists id, i.
Qed.

(** Starting a challenge that is not listed adds a container. *)
Lemma start_moves id i o d :
  all_running o -> o_challenges o !! id = None ->
  containers (o_docker o) !! ci_container_id i = None ->
  containers d = <[ci_container_id i := ci_image i]> (containers (o_docker o)) ->
  moves o (mk_ChallengeOrchestrator d (<[id := i]> (o_challenges o)) (o_config o)).
Proof.
  intros [Hrun Hinj] Hnone Hfresh Hd.
  assert (Hother : forall k j, o_challenges o !! k = Some j -> ci_container_id j <> ci_container_id i).
  { intros k j Hj Heq. apply Hrun in Hj. congruence. }
  split; [split|..]; cbn [o_challenges o_docker].
  - intros k j. rewrite Hd, lookup_insert_Some. intros [[<- <-]|[_ Hj]]; [by rewrite lookup_insert_eq|].
    rewrite lookup_insert_ne by (by apply not_eq_sym; eapply Hother). eauto.
  - intros k k' j j'. rewrite !lookup_insert_Some. intros [[<- <-]|[_ Hj]] [[<- <-]|[_ Hj']] Heq; eauto;
      exfalso; by eapply Hother.
  - intros c (k & j & Hj & Hc) Hno. exfalso. apply Hno. exists k, j. cbn.
    by rewrite lookup_insert_ne by congruence.
  - intros c (k & j & Hj & Hc) Hno. cbn in Hj. apply lookup_insert_Some in Hj as [[<- <-]|[_ Hj]]; [by subst|].
    exfalso. apply Hno. by exists k, j.
  - intros c _ Hno. rewrite Hd, lookup_insert_ne; [done|]. intros Heq. apply Hno. exists id, i. cbn.
    by rewrite lookup_insert_eq.
Qed.

Lemma remove_challenge_moves id o : all_running o -> moves o (remove_challenge id o).2.
Proof.
  intros Hrun. unfold_ops. destruct (o_challenges o !! id) as [i|] eqn:Hi; cbn.
  - destruct (tr_stop _ _ HT (ci_container_id i) (o_docker o)) as (d1 & -> & Hd1). cbn.
    destruct (tr_remove _ _ HT (ci_container_id i) d1) as (d2 & -> & Hd2). cbn.
    eapply stop_listed_moves; [done..|]. by rewrite Hd2, Hd1, delete_delete_eq.
  - rewrite delete_id by done. destruct o. by apply moves_refl.
Qed.

Lemma remove_each_moves ids o : all_running o -> moves o (remove_each ids o).2.
Proof.
  revert o. induction ids as [|id ids IH]; intros o Hrun; [by apply moves_refl|].
  cbn [remove_each]. unfold mbind, SE_bind. pose proof (remove_challenge_moves id o Hrun) as Hm.
  destruct (remove_challenge id o) as [[?|e] o1]; [|done]. eapply moves_trans; [done|]. apply IH, Hm.
Qed.

Lemma update_challenge_moves config o : all_running o -> moves o (update_challenge config o).2.
Proof.
  intros Hrun. unfold_ops. destruct (o_challenges o !! ccc_challenge_id config) as [i|] eqn:Hi; cbn.
  - destruct (tr_stop _ _ HT (ci_container_id i) (o_docker o)) as (d1 & -> & Hd1). cbn.
    destruct (tr_pull _ _ HT (ccc_docker_image config) d1) as (d2 & -> & Hd2). cbn.
    destruct (tr_start _ _ HT config d2) as (j & d3 & -> & Hj & Hfresh & Hd3). cbn.
    pose proof (stop_listed_moves _ _ _ d2 Hrun Hi ltac:(by rewrite Hd2)) as Hm.
    eapply moves_trans; [exact Hm|]. rewrite <- insert_delete_eq.
    refine (start_moves _ j _ d3 (mv_running _ _ Hm) _ Hfresh _); [apply lookup_delete_eq|by rewrite Hj].
  - destruct (tr_pull _ _ HT (ccc_docker_image config) (o_docker o)) as (d2 & -> & Hd2). cbn.
    destruct (tr_start _ _ HT config d2) as (j & d3 & -> & Hj & Hfresh & Hd3). cbn.
    rewrite Hd2 in *. apply start_moves; [done..|by rewrite Hj].
Qed.

Lemma update_each_moves configs o : all_running o -> moves o (update_each configs o).2.
Proof.
  revert o. induction configs as [|config configs IH]; intros o Hrun; [by apply moves_refl|].
  cbn [update_each]. unfold mbind, SE_bind, get_state.
  assert (Hm : moves o ((if instance_outdated config o then update_challenge config else mret tt) o).2).
  { destruct (instance_outdated config o); [by apply update_challenge_moves|by apply moves_refl]. }
  destruct ((if instance_outdated config o then update_challenge config else mret tt) o) as [[?|e] o1]; [|done].
  eapply moves_trans; [done|]. apply IH, Hm.
Qed.

Lemma sync_challenges_moves configs o : all_running o -> moves o (sync_challenges configs o).2.
Proof.
  intros Hrun. unfold sync_challenges, mbind, SE_bind, get_state.
  pose proof (remove_each_moves (obsolete (dom (o_challenges o)) configs) o Hrun) as Hm.
  destruct (remove_each _ o) as [[?|e] o1]; [|done].
  eapply moves_trans; [done|]. apply update_each_moves, Hm.
Qed.

End containers.

(** ** Errors that lose track of a container *)

(** A removal whose stop fails has already forgotten the instance: the
    container keeps running, is never removed, and the next removal of the
    challenge reports success without touching it. *)
Theorem failed_remove_forgets_container id i e d o :
  o_challenges o !! id = Some i ->
  stop_container (ci_container_id i) (o_docker o) = (Err e, d) ->
  let o' := mk_ChallengeOrchestrator d (delete id (o_challenges o)) (o_config o) in
  remove_challenge id o = (Err e, o') /\ remove_challenge id o' = (Ok tt, o').
Proof.
  intros Hi Hstop o'. split.
  - unfold_ops. rewrite Hi. cbn. by rewrite Hstop.
  - subst o'. unfold_ops. cbn. by rewrite delete_delete_eq, lookup_delete_eq.
Qed.

(** An update whose pull fails has already stopped the old container, but the
    map still lists it as it was: evaluations are still sent to its endpoint. *)
Theorem failed_update_serves_stopped config i e d1 d2 o http request timeout :
  o_challenges o !! ccc_challenge_id config = Some i ->
  ci_status i = CsRunning ->
  stop_container (ci_container_id i) (o_docker o) = (Ok tt, d1) ->
  pull_image (ccc_docker_image config) d1 = (Err e, d2) ->
  let '(r, o') := update_challenge config o in
  r = Err e /\ o_docker o' = d2 /\
  evaluate_generic http (o_challenges o') (ccc_challenge_id config) request timeout =
    forward http (mk_Outgoing "POST" (ci_endpoint i +:+ "/evaluate") (Some request) (default 3600 timeout)).
Proof.
  intros Hi Hs Hstop Hpull. unfold_ops. rewrite Hi. cbn. rewrite Hstop. cbn. rewrite Hpull. cbn.
  unfold evaluate_generic, ready_instance, instance_of. rewrite Hi. cbn. by rewrite Hs.
Qed.

(** A refresh forgets how a challenge was configured: whatever it was added
    with, its container is started again under a name made of its identifier, for
    mechanism 0, with two cores, four gigabytes and no GPU. *)
Theorem refresh_forgets_config config i1 i2 d1 d2 d3 d4 d5 o :
  pull_image (ccc_docker_image config) (o_docker o) = (Ok tt, d1) ->
  start_challenge config d1 = (Ok i1, d2) ->
  ci_image i1 = ccc_docker_image config ->
  stop_container (ci_container_id i1) d2 = (Ok tt, d3) ->
  pull_image (ccc_docker_image config) d3 = (Ok tt, d4) ->
  start_challenge (minimal_config (ccc_challenge_id config) (ccc_docker_image config)) d4 = (Ok i2, d5) ->
  (add_challenge config ≫= fun _ => refresh_challenge (ccc_challenge_id config)) o =
    (Ok tt, mk_ChallengeOrchestrator d5 (<[ccc_challenge_id config := i2]> (o_challenges o)) (o_config o)).
Proof.
  intros Hp1 Hs1 Him Hst Hp2 Hs2. unfold_ops. cbn. rewrite Hp1. cbn. rewrite Hs1. cbn.
  rewrite lookup_insert_eq. cbn. rewrite Hst. cbn. rewrite Him, Hp2. cbn. rewrite Hs2. cbn.
  by rewrite insert_insert_eq.
Qed.

(** ** Synchronisation of the lifecycle manager *)

(** Every identifier a result speaks of. *)
Definition accounted (r : SyncResult) : list ChallengeId :=
  sy_added r ++ sy_updated r ++ sy_removed r ++ sy_unchanged r ++ (sy_errors r).*1.

Lemma accounted_push id e r :
  accounted (push_added id r) ≡ₚ accounted r ++ [id] /\ accounted (push_updated id r) ≡ₚ accounted r ++ [id] /\
  accounted (push_removed id r) ≡ₚ accounted r ++ [id] /\ accounted (push_unchanged id r) ≡ₚ accounted r ++ [id] /\
  accounted (push_error id e r) ≡ₚ accounted r ++ [id].
Proof.
  unfold accounted. cbn. rewrite fmap_app. cbn. repeat split; solve_Permutation.
Qed.

Lemma sync_remove_accounts ids r l :
  exists r', (sync_remove ids r l).1 = Ok r' /\ accounted r' ≡ₚ accounted r ++ ids.
Proof.
  revert r l. induction ids as [|id ids IH]; intros r l; [exists r; by rewrite app_nil_r|].
  cbn [sync_remove]. unfold mbind, SE_bind, attempt. destruct (lm_remove id l) as [x l1].
  set (r1 := match x with Ok _ => push_removed id r | Err e => push_error id e r end).
  destruct (IH r1 l1) as (r' & -> & Hr'). exists r'. split; [done|]. rewrite Hr'.
  assert (H1 : accounted r1 ≡ₚ accounted r ++ [id])
    by (subst r1; destruct x as [?|e]; [apply (accounted_push id "" r)|apply (accounted_push id e r)]).
  by rewrite H1, <- app_assoc.
Qed.

Lemma sync_update_accounts current configs r l :
  exists r', (sync_update current configs r l).1 = Ok r' /\ accounted r' ≡ₚ accounted r ++ (ccc_challenge_id <$> configs).
Proof.
  revert r l. induction configs as [|config configs IH]; intros r l; [exists r; by rewrite app_nil_r|].
  cbn [sync_update]. unfold mbind, SE_bind, get_state, attempt. cbn [fmap list_fmap].
  assert (Hstep : forall r1 l1, accounted r1 ≡ₚ accounted r ++ [ccc_challenge_id config] ->
    exists r', (sync_update current configs r1 l1).1 = Ok r' /\
      accounted r' ≡ₚ accounted r ++ ccc_challenge_id config :: (ccc_challenge_id <$> configs)).
  { intros r1 l1 H1. destruct (IH r1 l1) as (r' & -> & Hr'). exists r'. split; [done|].
    by rewrite Hr', H1, <- app_assoc. }
  destruct (config_outdated config l); [|apply Hstep, (accounted_push _ "" _)].
  destruct (lm_update config l) as [[?|e] l1]; [case_bool_decide|];
    apply Hstep; [apply (accounted_push _ "" _)..|apply (accounted_push _ e _)].
Qed.

(** A synchronisation of the lifecycle manager never fails as a whole,
    whatever the runtime does: its result accounts for every configured
    challenge and for every one that is not configured any more exactly once, as
    added, updated, removed, unchanged or failed. *)
Theorem sync_accounts_for_all target l :
  exists r, (lm_sync target l).1 = Ok r /\
    accounted r ≡ₚ obsolete (dom (lm_configs l)) target ++ (ccc_challenge_id <$> target).
Proof.
  unfold lm_sync, mbind, SE_bind, get_state.
  destruct (sync_remove_accounts (obsolete (dom (lm_configs l)) target) SyncResult_default l) as (r1 & H1 & Hr1).
  destruct (sync_remove _ SyncResult_default l) as [x l1]. cbn in H1. subst x.
  destruct (sync_update_accounts (dom (lm_configs l)) target r1 l1) as (r2 & H2 & Hr2).
  exists r2. split; [done|]. by rewrite Hr2, Hr1.
Qed.

Lemma lm_remove_reliable id l :
  reliable Docker -> exists l', lm_remove id l = (Ok tt, l') /\ lm_configs l' = delete id (lm_configs l).
Proof.
  intros HR. unfold_ops. destruct (lm_challenges l !! id) as [i|]; cbn; reliable_steps HR; by eexists.
Qed.
Lemma lm_update_reliable config l :
  reliable Docker ->
  exists l', lm_update config l = (Ok tt, l') /\ lm_configs l' = <[ccc_challenge_id config := config]> (lm_configs l).
Proof.
  intros HR. unfold_ops. destruct (lm_challenges l !! ccc_challenge_id config) as [i|]; cbn; reliable_steps HR; by eexists.
Qed.

Lemma sync_remove_reliable ids r l :
  reliable Docker ->
  exists r' l', sync_remove ids r l = (Ok r', l') /\ sy_errors r' = sy_errors r /\
    forall k, lm_configs l' !! k = if decide (k ∈ ids) then None else lm_configs l !! k.
Proof.
  intros HR. revert r l. induction ids as [|id ids IH]; intros r l.
  { exists r, l. split; [done|]. split; [done|]. intros k. rewrite decide_False; [done|]. apply not_elem_of_nil. }
  cbn [sync_remove]. unfold mbind, SE_bind, attempt.
  destruct (lm_remove_reliable id l HR) as (l1 & -> & Hl1).
  destruct (IH (push_removed id r) l1) as (r' & l' & -> & He & Hk). exists r', l'. split; [done|]. split; [done|].
  intros k. rewrite Hk, Hl1. destruct (decide (k = id)) as [->|Hne].
  - rewrite lookup_delete_eq, (decide_True (P := id ∈ id :: ids)) by apply list_elem_of_here. by case_decide.
  - rewrite lookup_delete_ne by done.
    destruct (decide (k ∈ ids)) as [Hin|Hin]; [rewrite decide_True by (by apply elem_of_cons; right); done|].
    rewrite decide_False; [done|]. rewrite elem_of_cons. by intros [?|?].
Qed.

(** The stored configurations ask for the images of the target. *)
Definition up_to_date (configs : list ChallengeContainerConfig) (l : LifecycleManager (D := D)) : Prop :=
  forall config, config ∈ configs -> config_outdated config l = false.

Lemma sync_update_up_to_date current configs r l :
  up_to_date configs l ->
  exists r', sync_update current configs r l = (Ok r', l) /\
    r' = mk_SyncResult (sy_added r) (sy_updated r) (sy_removed r)
           (sy_unchanged r ++ (ccc_challenge_id <$> configs)) (sy_errors r).
Proof.
  revert r. induction configs as [|config configs IH]; intros r Hu.
  { exists r. split; [done|]. rewrite app_nil_r. by destruct r. }
  cbn [sync_update]. unfold mbind, SE_bind, get_state. rewrite (Hu config) by apply list_elem_of_here.
  destruct (IH (push_unchanged (ccc_challenge_id config) r)) as (r' & -> & ->).
  { intros c Hc. apply Hu. by apply elem_of_cons; right. }
  eexists. split; [done|]. cbn. by rewrite <- app_assoc.
Qed.

Lemma sync_update_reliable current configs r l :
  reliable Docker -> NoDup (ccc_challenge_id <$> configs) ->
  exists r' l', sync_update current configs r l = (Ok r', l') /\ sy_errors r' = sy_errors r /\ up_to_date configs l' /\
    forall k, k ∉ ccc_challenge_id <$> configs -> lm_configs l' !! k = lm_configs l !! k.
Proof.
  intros HR. revert r l. induction configs as [|config configs IH]; intros r l Hnd.
  { exists r, l. repeat split; try done. intros c Hc. by apply not_elem_of_nil in Hc. }
  cbn [fmap list_fmap] in Hnd. apply NoDup_cons in Hnd as [Hnew Hnd].
  cbn [sync_update]. unfold mbind, SE_bind, get_state, attempt.
  assert (Hgo : forall r1 l1, sy_errors r1 = sy_errors r -> config_outdated config l1 = false ->
    (forall k, k <> ccc_challenge_id config -> lm_configs l1 !! k = lm_configs l !! k) ->
    exists r' l', sync_update current configs r1 l1 = (Ok r', l') /\ sy_errors r' = sy_errors r /\
      up_to_date (config :: configs) l' /\
      forall k, k ∉ ccc_challenge_id <$> config :: configs -> lm_configs l' !! k = lm_configs l !! k).
  { intros r1 l1 He1 Hc1 Hf1. destruct (IH r1 l1 Hnd) as (r' & l' & -> & He & Hu & Hf).
    exists r', l'. split; [done|]. split; [congruence|]. split.
    - intros c Hc. apply elem_of_cons in Hc as [->|Hc]; [|by apply Hu].
      unfold config_outdated in *. by rewrite Hf.
    - intros k Hk. cbn [fmap list_fmap] in Hk. apply not_elem_of_cons in Hk as [Hk1 Hk2]. by rewrite Hf, Hf1. }
  destruct (config_outdated config l) eqn:Ho; [|by apply Hgo].
  destruct (lm_update_reliable config l HR) as (l1 & -> & Hl1). apply Hgo.
  - by case_bool_decide.
  - unfold config_outdated. by rewrite Hl1, lookup_insert_eq, bool_decide_true.
  - intros k Hk. by rewrite Hl1, lookup_insert_ne.
Qed.

(** On a runtime whose calls succeed a synchronisation of the lifecycle
    manager has no errors and is idempotent: a second one with the same target
    finds every challenge unchanged, and calls the runtime for none. *)
Theorem sync_idempotent target l :
  reliable Docker -> NoDup (ccc_challenge_id <$> target) ->
  exists r l', lm_sync target l = (Ok r, l') /\ sync_is_success r = true /\
    (forall id, is_Some (lm_configs l' !! id) <-> id ∈ ccc_challenge_id <$> target) /\
    lm_sync target l' = (Ok (mk_SyncResult [] [] [] (ccc_challenge_id <$> target) []), l').
Proof.
  intros HR Hnd. unfold lm_sync, mbind, SE_bind, get_state.
  destruct (sync_remove_reliable (obsolete (dom (lm_configs l)) target) SyncResult_default l HR) as (r1 & l1 & -> & He1 & Hl1).
  destruct (sync_update_reliable (dom (lm_configs l)) target r1 l1 HR Hnd) as (r & l' & Hu & He & Hup & Hl').
  exists r, l'. split; [done|].
  assert (Hdom : forall id, is_Some (lm_configs l' !! id) <-> id ∈ ccc_challenge_id <$> target).
  { intros id. destruct (decide (id ∈ ccc_challenge_id <$> target)) as [Hin|Hout].
    - split; [done|]. intros _. apply list_elem_of_fmap in Hin as (c & -> & Hc).
      specialize (Hup c Hc). unfold config_outdated in Hup. by destruct (lm_configs l' !! _).
    - split; [|done]. rewrite (Hl' _ Hout), Hl1. case_decide as Hd; [by intros [? ?]|]. intros Hs. exfalso. apply Hd.
      unfold obsolete. rewrite key_order_perm, elem_of_elements, elem_of_difference, elem_of_dom, elem_of_list_to_set. done. }
  split; [unfold sync_is_success; rewrite He, He1; done|]. split; [done|].
  assert (Hobs : obsolete (dom (lm_configs l')) target = []).
  { apply elem_of_nil_inv. intros k. unfold obsolete.
    rewrite key_order_perm, elem_of_elements, elem_of_difference, elem_of_dom, elem_of_list_to_set, Hdom. tauto. }
  rewrite Hobs. cbn [sync_remove mret SE_ret]. unfold mret, SE_ret.
  destruct (sync_update_up_to_date (dom (lm_configs l')) target SyncResult_default l' Hup) as (r2 & -> & ->). done.
Qed.

(** ** Health *)

Lemma record_status_lookup id st (m : gmap ChallengeId ChallengeInstance) k :
  record_status id st m !! k = if decide (k = id) then with_status st <$> m !! k else m !! k.
Proof.
  unfold record_status. destruct (m !! id) as [i|] eqn:Hi; case_decide as Hk; subst.
  - rewrite Hi. cbn. case_bool_decide as Hs; [|by rewrite lookup_insert_eq].
    rewrite Hi. f_equal. rewrite <- Hs. by destruct i.
  - case_bool_decide; [done|]. by rewrite lookup_insert_ne.
  - by rewrite Hi.
  - done.
Qed.

Lemma with_status_twice st st' i : with_status st (with_status st' i) = with_status st i.
Proof. done. Qed.

(** The verdicts of a round, by the snapshot it goes through. *)
Lemma health_round_lookup http snapshot (m : gmap ChallengeId ChallengeInstance) k :
  NoDup snapshot.*1 ->
  health_round http snapshot m !! k =
    match list_to_map (M := gmap ChallengeId ChallengeInstance) snapshot !! k with
    | Some old => with_status (verdict http old) <$> m !! k
    | None => m !! k
    end.
Proof.
  unfold health_round. revert m. induction snapshot as [|[id i] snapshot IH]; intros m Hnd; [done|].
  cbn [fmap list_fmap fst] in Hnd. apply NoDup_cons in Hnd as [Hnew Hnd].
  cbn [fold_left fst snd]. rewrite list_to_map_cons, IH by done. rewrite record_status_lookup.
  destruct (decide (k = id)) as [->|Hne].
  - rewrite lookup_insert_eq, not_elem_of_list_to_map_1 by done. done.
  - by rewrite lookup_insert_ne.
Qed.

(** A round of the monitor that nothing interrupts gives every challenge the
    status its own endpoint reports, and changes nothing else of it. *)
Theorem health_tick_spec http (m : gmap ChallengeId ChallengeInstance) :
  health_tick http m = (fun i => with_status (verdict http i) i) <$> m.
Proof.
  apply map_eq. intros k. unfold health_tick. rewrite health_round_lookup by (rewrite fst_hm_iter; apply hm_keys_NoDup).
  assert (Hl : list_to_map (M := gmap ChallengeId ChallengeInstance) (hm_iter m) !! k = m !! k).
  { destruct (m !! k) as [i|] eqn:Hi.
    - apply elem_of_list_to_map_1; [rewrite fst_hm_iter; apply hm_keys_NoDup|]. by apply elem_of_hm_iter.
    - apply not_elem_of_list_to_map_1. rewrite fst_hm_iter, elem_of_hm_keys, Hi. by intros [? ?]. }
  rewrite Hl, lookup_fmap. by destruct (m !! k).
Qed.

(** A challenge replaced while a round is under way gets the verdict on the
    container it replaced: when the old endpoint no longer answers, the new
    instance is marked unhealthy without having been asked. *)
Theorem stale_verdict http e old new (m : gmap ChallengeId ChallengeInstance) id :
  m !! id = Some old ->
  http (health_url old) = Err e ->
  let m' := health_round http (hm_iter m) (<[id := new]> m) in
  m' !! id = Some (with_status Unhealthy new).
Proof.
  intros Hold Herr m'. subst m'.
  rewrite health_round_lookup by (rewrite fst_hm_iter; apply hm_keys_NoDup).
  rewrite (elem_of_list_to_map_1 (hm_iter m) id old); [|rewrite fst_hm_iter; apply hm_keys_NoDup|by apply elem_of_hm_iter].
  rewrite lookup_insert_eq. cbn. unfold verdict, check_container_health. by rewrite Herr.
Qed.

Lemma count_statuses (l : list (ChallengeId * ChallengeInstance)) :
  let c st := length (filter (fun x => ci_status x.2 = st) l) in
  (c CsRunning + c Unhealthy + c Starting + c CsStopped = length l)%nat.
Proof.
  cbv zeta beta. induction l as [|[id i] l IH]; [done|]. rewrite !filter_cons. cbn [snd].
  destruct (ci_status i) eqn:Hs; repeat case_decide; try congruence; cbn; lia.
Qed.

(** The summary counts every challenge in one state: the four counts add up
    to the total, what is left for the stopped ones is their number, and all are
    healthy exactly when each is running or starting. *)
Theorem summary_partitions (m : gmap ChallengeId ChallengeInstance) :
  let s := summary m in
  (hs_running s + hs_unhealthy s + hs_starting s + hs_stopped s = hs_total s)%nat /\
  hs_stopped s = count_status CsStopped m /\
  (all_healthy s = true <-> map_Forall (fun _ i => ci_status i = CsRunning \/ ci_status i = Starting) m).
Proof.
  intros s. pose proof (count_statuses (hm_iter m)) as Hc. cbn in Hc. rewrite length_hm_iter in Hc.
  fold (count_status CsRunning m) (count_status Unhealthy m) (count_status Starting m) (count_status CsStopped m) in Hc.
  assert (Hst : hs_stopped s = count_status CsStopped m) by (subst s; cbn; lia).
  split; [subst s; cbn; lia|]. split; [done|].
  assert (Hzero : forall st, count_status st m = 0%nat <-> map_Forall (fun _ i => ci_status i <> st) m).
  { intros st. unfold count_status. split.
    - intros H0 k i Hi Heq. apply length_zero_iff_nil in H0.
      assert (Hin : (k, i) ∈ filter (fun x => ci_status x.2 = st) (hm_iter m))
        by (apply list_elem_of_filter; split; [done|by apply elem_of_hm_iter]).
      rewrite H0 in Hin. by apply not_elem_of_nil in Hin.
    - intros Hall. apply length_zero_iff_nil, elem_of_nil_inv. intros [k i] Hin.
      apply list_elem_of_filter in Hin as [Heq Hin]. apply elem_of_hm_iter in Hin. by apply (Hall k i). }
  unfold all_healthy. rewrite Hst, andb_true_iff, !Nat.eqb_eq. change (hs_unhealthy s) with (count_status Unhealthy m).
  rewrite !Hzero. split.
  - intros [Hu Hs'] k i Hi. specialize (Hu k i Hi). specialize (Hs' k i Hi). cbn in Hu, Hs'. destruct (ci_status i); auto; done.
  - intros Hall. split; intros k i Hi Heq; destruct (Hall k i Hi); congruence.
Qed.

(** ** Cleaning up with direct access to Docker *)

Lemma contains_all_chars p f s : contains p s = true -> all_chars f s = true -> all_chars f p = true.
Proof.
  assert (Hpre : forall p s, starts_with p s = true -> all_chars f s = true -> all_chars f p = true).
  { unfold starts_with, all_chars, chars. intros p'. induction p' as [|a p' IH]; intros [|b s'] Hs Hf; try done.
    cbn in Hs. destruct (Ascii.ascii_dec a b) as [->|]; [|done]. cbn in Hf |- *. apply andb_true_iff in Hf as [-> Hf].
    by apply (IH s'). }
  revert p. induction s as [|a s IH]; intros p Hc Hf; cbn in Hc.
  - rewrite orb_false_r in Hc. by apply (Hpre p EmptyString).
  - apply orb_true_iff in Hc as [Hc|Hc]; [by apply (Hpre p (String a s))|].
    apply IH; [done|]. unfold all_chars, chars in *. cbn in Hf. by apply andb_true_iff in Hf as [_ Hf].
Qed.

(** With direct access to Docker the containers of a challenge are looked up
    by the challenge's identifier in the container's: as Docker's identifiers are
    hexadecimal and the challenge's has dashes, none is ever stopped or removed,
    and the cleanup reports success. *)
Theorem direct_cleanup_removes_nothing challenge_id ids d d' :
  list_challenge_containers d = (Ok ids, d') ->
  Forall (fun c => all_chars is_ascii_hexdigit c = true) ids ->
  all_chars is_ascii_hexdigit challenge_id = false ->
  direct_cleanup_challenge challenge_id d = (Ok 0%nat, d').
Proof.
  intros Hl Hids Hid. unfold direct_cleanup_challenge, mbind, SE_bind. rewrite Hl.
  assert (H : forall n, direct_cleanup_loop challenge_id ids n d' = (Ok n, d')).
  { clear Hl. induction Hids as [|c ids Hc _ IH]; intros n; [done|]. cbn [direct_cleanup_loop].
    destruct (contains challenge_id c) eqn:Hcon; [|apply IH].
    apply (contains_all_chars _ is_ascii_hexdigit) in Hcon; congruence. }
  apply H.
Qed.

(** ** The images that run *)

(** What the orchestrator is asked to do. *)
Inductive orch_step : ChallengeOrchestrator (D := D) -> ChallengeOrchestrator (D := D) -> Prop :=
| step_add config o : orch_step o (add_challenge config o).2
| step_update config o : orch_step o (update_challenge config o).2
| step_refresh id o : orch_step o (refresh_challenge id o).2
| step_refresh_all o : orch_step o (refresh_all_challenges o).2
| step_remove id o : orch_step o (remove_challenge id o).2
| step_sync configs o : orch_step o (sync_challenges configs o).2
| step_health http o : orch_step o (on_challenges (health_tick http) o).

Section images.
Context (P : string -> Prop) `{Hstarts : !StartsOnly Docker P}.

Definition images_ok (o : ChallengeOrchestrator (D := D)) : Prop := map_Forall (fun _ i => P (ci_image i)) (o_challenges o).

#[local] Ltac solve_images := repeat case_match; simplify_eq/=; try done;
  first [by apply map_Forall_insert_2; [match goal with H : start_challenge _ _ = _ |- _ =>
           apply starts_only in H as [-> ?] end|] | by apply map_Forall_delete | done].

Lemma add_images config o : images_ok o -> images_ok (add_challenge config o).2.
Proof. intros Hok. unfold images_ok in *. unfold_ops. solve_images. Qed.
Lemma update_images config o : images_ok o -> images_ok (update_challenge config o).2.
Proof. intros Hok. unfold images_ok in *. unfold_ops. solve_images. Qed.
Lemma refresh_images id o : images_ok o -> images_ok (refresh_challenge id o).2.
Proof. intros Hok. unfold images_ok in *. unfold_ops. solve_images. Qed.
Lemma remove_images id o : images_ok o -> images_ok (remove_challenge id o).2.
Proof. intros Hok. unfold images_ok in *. unfold_ops. solve_images. Qed.

Lemma refresh_each_images ids o : images_ok o -> images_ok (refresh_each ids o).2.
Proof.
  revert o. induction ids as [|id ids IH]; intros o Hok; [done|]. cbn [refresh_each]. unfold mbind, SE_bind, attempt.
  pose proof (refresh_images id o Hok) as H1. destruct (refresh_challenge id o) as [r o1]. by apply IH.
Qed.
Lemma remove_each_images ids o : images_ok o -> images_ok (remove_each ids o).2.
Proof.
  revert o. induction ids as [|id ids IH]; intros o Hok; [done|]. cbn [remove_each]. unfold mbind, SE_bind.
  pose proof (remove_images id o Hok) as H1. destruct (remove_challenge id o) as [[?|?] o1]; [by apply IH|done].
Qed.
Lemma update_each_images configs o : images_ok o -> images_ok (update_each configs o).2.
Proof.
  revert o. induction configs as [|config configs IH]; intros o Hok; [done|].
  cbn [update_each]. unfold mbind, SE_bind, get_state.
  destruct (instance_outdated config o); [|by apply IH].
  pose proof (update_images config o Hok) as H1. destruct (update_challenge config o) as [[?|?] o1]; [by apply IH|done].
Qed.

Lemma orch_step_images o o' : orch_step o o' -> images_ok o -> images_ok o'.
Proof.
  destruct 1 as [? ?|? ?|? ?| |? ?|configs o|http o]; intros Hok.
  - by apply add_images.
  - by apply update_images.
  - by apply refresh_images.
  - by apply refresh_each_images.
  - by apply remove_images.
  - unfold sync_challenges, mbind, SE_bind, get_state.
    pose proof (remove_each_images (obsolete (dom (o_challenges o)) configs) o Hok) as H1.
    destruct (remove_each _ o) as [[?|?] o1]; [by apply update_each_images|done].
  - unfold images_ok in *. cbn. rewrite health_tick_spec. intros k i Hi. apply lookup_fmap_Some in Hi as (j & <- & Hj).
    by apply (Hok k j).
Qed.

Lemma reachable_images o o' : rtc orch_step o o' -> images_ok o -> images_ok o'.
Proof. induction 1; eauto using orch_step_images. Qed.
End images.
End orchestrator.

(** ** The choice of a backend *)

Lemma is_available_from_env e : is_available e = bool_decide (is_Some (from_env e)).
Proof.
  unfold is_available, from_env. destruct (pe_var e "CONTAINER_BROKER_SOCKET") as [s|].
  - destruct (pe_exists e s); [done|]. by destruct (pe_exists e (default_broker_socket_path e)).
  - by destruct (pe_exists e (default_broker_socket_path e)).
Qed.

(** The backend by the environment: direct Docker in development mode;
    otherwise the broker whenever one of its sockets exists; otherwise direct
    Docker again, and an error only when that cannot be reached either.  The
    fallback after a broker that was reported available is never taken. *)
Theorem backend_choice connect e :
  create_backend connect e =
    if is_development_mode (pe_var e "DEVELOPMENT_MODE") then (_ ← connect; Ok DirectDocker)
    else match from_env e with
         | Some (socket, validator_id) => Ok (SecureBroker socket validator_id)
         | None => match connect with
                   | Ok _ => Ok DirectDocker
                   | Err _ => create_docker_fallback_backend connect e
                   end
         end.
Proof.
  unfold create_backend, select_backend_mode, backend_development_mode.
  destruct (is_development_mode _); [done|]. rewrite is_available_from_env.
  destruct (from_env e) as [[socket v]|]; [done|]. rewrite bool_decide_false by (by intros [? ?]). by destruct connect.
Qed.

(** ** The Docker client *)

Section client.
Context {D : Type} `{Bridge : DockerBridge D} `{Txt : DockerText} `{Ids : IdSource} `{IdT : IdText} {HZ : HashOrder Z}.
Context (env : HostEnv).
Implicit Type c : DockerClient (D := D).

Lemma client_start_image now config c i c' :
  client_start_challenge env now config c = (Ok i, c') ->
  ci_image i = ccc_docker_image config /\ is_image_allowed env (ccc_docker_image config) = true.
Proof.
  intros Hrun.
  enough (Hwp : wp (client_start_challenge env now config)
    (fun r _ => forall i, r = Ok i -> ci_image i = ccc_docker_image config /\
       is_image_allowed env (ccc_docker_image config) = true) c)
    by (by eapply (wp_elim _ _ _ _ _ Hwp Hrun)).
  unfold client_start_challenge. wp_step. wp_step. wp_step. wp_step; [|done].
  repeat (apply wp_bind; unfold wp at 1; match goal with |- match ?x with _ => _ end => destruct x eqn:? end; [|done]).
  apply wp_ret. by intros ? [= <-].
Qed.

(** An image the client may run: any image in development mode, otherwise one
    of the platform's own registry, in any case. *)
Definition allowed_image (image : string) : Prop :=
  he_var env "DEVELOPMENT_MODE" = Some "true"%string \/ he_var env "DEVELOPMENT_MODE" = Some "1"%string \/
  exists rest, to_lowercase image = ("ghcr.io/platformnetwork/" +:+ rest)%string.

Lemma is_image_allowed_spec image : is_image_allowed env image = true <-> allowed_image image.
Proof.
  assert (Hdev : is_development_mode (he_var env "DEVELOPMENT_MODE") = true <->
    he_var env "DEVELOPMENT_MODE" = Some "true"%string \/ he_var env "DEVELOPMENT_MODE" = Some "1"%string).
  { unfold is_development_mode. destruct (he_var env "DEVELOPMENT_MODE") as [v|]; [|naive_solver].
    rewrite orb_true_iff, !bool_decide_eq_true. naive_solver. }
  unfold is_image_allowed, allowed_image. rewrite <- (starts_with_spec "ghcr.io/platformnetwork/").
  destruct (is_development_mode _) eqn:He; [split; [intros _; apply proj1 in Hdev; destruct (Hdev eq_refl); auto|done]|].
  change (existsb _ _) with
    (starts_with "ghcr.io/platformnetwork/" (to_lowercase image) ||
     (starts_with "ghcr.io/platformnetwork/" (to_lowercase image) || false)).
  rewrite orb_false_r, orb_diag. intuition congruence.
Qed.

#[local] Instance client_starts_only clock :
  StartsOnly (docker_client_runtime env clock) allowed_image.
Proof.
  split. intros config d i d' Hrun%client_start_image. by rewrite is_image_allowed_spec in Hrun.
Qed.

(** An image of another registry never reaches the daemon: pulling it or
    starting a challenge with it fails and leaves the daemon as it was. *)
Lemma rejected_image_untouched now config c :
  is_image_allowed env (ccc_docker_image config) = false ->
  (exists e, client_pull_image env (ccc_docker_image config) c = (Err e, c)) /\
  (exists e, client_start_challenge env now config c = (Err e, c)).
Proof.
  intros Hno. split; unfold client_pull_image, client_start_challenge, mbind, SE_bind, get_state, require;
    rewrite Hno; by eexists.
Qed.

(** C38. Whatever the orchestrator does on the Docker client, every challenge it
    lists has an image whose name starts, case aside, with the prefix of the
    platform's registry, unless the process is in development mode; and a pull or
    a start of any other image fails without a call of the daemon. *)
Theorem only_allowed_images_run clock client config o :
  rtc (orch_step (Docker := docker_client_runtime env clock)) (with_docker client config) o ->
  map_Forall (fun _ i => allowed_image (ci_image i)) (o_challenges o) /\
  forall now c' challenge, ~ allowed_image (ccc_docker_image challenge) ->
    (exists e, client_pull_image env (ccc_docker_image challenge) c' = (Err e, c')) /\
    (exists e, client_start_challenge env now challenge c' = (Err e, c')).
Proof.
  intros Hrun. split.
  - apply (reachable_images (Docker := docker_client_runtime env clock) allowed_image _ _ Hrun).
    apply map_Forall_empty.
  - intros now c' challenge Hno. apply rejected_image_untouched.
    by rewrite <- not_true_iff_false, is_image_allowed_spec.
Qed.

(** A pull always succeeds for an allowed image: what the daemon reports while
    pulling, an error included, is only logged. *)
Theorem failed_pull_succeeds image c stream d :
  is_image_allowed env image = true ->
  db_create_image image (cl_daemon c) = (stream, d) ->
  client_pull_image env image c = (Ok tt, mk_DockerClient d (cl_network_name c)).
Proof.
  intros Hok Hs. unfold client_pull_image, mbind, SE_bind, require, drain_pull. by rewrite Hok, Hs.
Qed.

(** Every challenge container is given the Docker socket, and the validator's
    secret key when the validator has one in its environment. *)
Theorem challenge_gets_secret network config key :
  he_var env "VALIDATOR_SECRET_KEY" = Some key ->
  let docker := challenge_docker_config env network config in
  ("VALIDATOR_SECRET=" +:+ key)%string ∈ dc_env docker /\
  "/var/run/docker.sock:/var/run/docker.sock:rw"%string ∈ hc_binds (dc_host_config docker).
Proof.
  intros Hk docker. split; [|apply list_elem_of_here].
  cbn [docker challenge_docker_config dc_env]. unfold challenge_env, pass_var. rewrite Hk.
  rewrite !elem_of_app. do 3 right. left. apply list_elem_of_here.
Qed.

Lemma cleanup_loop_counts now prefix age exclude containers r c :
  exists r' c', cleanup_loop now prefix age exclude containers r c = (Ok r', c') /\
    clr_total_found r' = (clr_total_found r + length (filter (fun x => is_stale now prefix age exclude x = true) containers))%nat /\
    (clr_total_found r = clr_removed r + length (clr_errors r) -> clr_total_found r' = clr_removed r' + length (clr_errors r'))%nat.
Proof.
  revert r c. induction containers as [|x rest IH]; intros r c; [exists r, c; cbn; split; [done|]; split; [lia|done]|].
  cbn [cleanup_loop]. rewrite filter_cons.
  destruct (csm_id x) as [id|] eqn:Hid.
  2: { destruct (IH r c) as (r' & c' & He & Ht & Hc). exists r', c'. rewrite decide_False; [done|].
       unfold is_stale. by rewrite Hid. }
  destruct (is_stale now prefix age exclude x) eqn:Hs; [rewrite decide_True by done|rewrite decide_False by done; apply IH].
  unfold mbind, SE_bind, attempt. destruct (client_remove_container id c) as [[?|e] c1].
  - match goal with |- context [cleanup_loop _ _ _ _ rest ?r1 c1] => destruct (IH r1 c1) as (r' & c' & He & Ht & Hc) end.
    exists r', c'. split; [done|]. cbn in Ht, Hc |- *. split; [lia|]. intros H. apply Hc. lia.
  - match goal with |- context [cleanup_loop _ _ _ _ rest ?r1 c1] => destruct (IH r1 c1) as (r' & c' & He & Ht & Hc) end.
    exists r', c'. split; [done|]. cbn in Ht, Hc |- *. split; [lia|]. intros H. apply Hc. rewrite length_app. cbn. lia.
Qed.

(** The cleanup of old containers tries exactly those that are stale (a name
    with the prefix, none of an excluded pattern, old enough), and counts each as
    removed or failed. *)
Theorem cleanup_counts now prefix age exclude containers c d :
  db_list_containers (mk_ListOptions true []) (cl_daemon c) = (Ok containers, d) ->
  exists r c', client_cleanup_stale now prefix age exclude c = (Ok r, c') /\
    clr_total_found r = length (filter (fun x => is_stale now prefix age exclude x = true) containers) /\
    (clr_removed r + length (clr_errors r) = clr_total_found r)%nat.
Proof.
  intros Hl. unfold client_cleanup_stale, mbind, SE_bind, call, bridge. rewrite Hl. cbn.
  destruct (cleanup_loop_counts now prefix age exclude containers (mk_CleanupResult 0 0 [])
    (mk_DockerClient d (cl_network_name c))) as (r & c' & -> & Ht & Hc).
  exists r, c'. split; [done|]. split; [done|]. symmetry. by apply Hc.
Qed.
End client.

(** ** Concrete runtimes *)

Module OrchestratorToy.
#[local] Instance id_text : IdText := {| id_to_string := fun id => ("0-" +:+ Z_to_string id)%string |}.

Definition started (config : ChallengeContainerConfig) : ChallengeInstance :=
  mk_ChallengeInstance (ccc_challenge_id config) ("c" +:+ Z_to_string (ccc_challenge_id config)) (ccc_docker_image config)
    "http://challenge:8080" 0 CsRunning.

(** A runtime that counts its calls; stopping and pulling can fail. *)
Definition counting (stops pulls : bool) : ChallengeDocker nat :=
  let step {A} (x : result string A) : SE nat string A := fun n => (x, S n) in
  {| pull_image := fun _ => step (if pulls then Ok tt else Err "no route to registry"%string);
     start_challenge := fun config => step (Ok (started config));
     stop_container := fun _ => step (if stops then Ok tt else Err "daemon unavailable"%string);
     remove_container := fun _ => step (Ok tt);
     is_container_running := fun _ => step (Ok true);
     get_logs := fun _ _ => step (Ok ""%string);
     list_challenge_containers := step (Ok ["0123456789ab"; "ba9876543210"]%string);
     cleanup_stale_containers := fun _ _ _ => step (Ok (mk_CleanupResult 0 0 [])) |}.

Lemma counting_reliable : reliable (counting true true).
Proof.
  split; intros; cbn; [by eexists..|]. eexists _, _. split; [reflexivity|done].
Qed.

Definition config (id : Z) (image : string) : ChallengeContainerConfig :=
  mk_ChallengeContainerConfig id "term" image 1 f64_one 600 (f64_of_Z 4) 8192 true.
Definition target : list ChallengeContainerConfig := [config 1 "a:2"; config 2 "b:1"].
Definition running : ChallengeOrchestrator (D := nat) :=
  mk_ChallengeOrchestrator 0%nat (<[1 := started (config 1 "a:1")]> (<[3 := started (config 3 "c:1")]> ∅))
    OrchestratorConfig_default.

Lemma target_distinct : NoDup (ccc_challenge_id <$> target).
Proof. apply (bool_decide_unpack _). by vm_compute. Qed.

(** A runtime whose state is the running containers. *)
Definition docker_host : ChallengeDocker (gmap string string) :=
  let step {A} (x : A) (f : gmap string string -> gmap string string) : SE (gmap string string) string A :=
    fun d => (Ok x, f d) in
  {| pull_image := fun _ => step tt id;
     start_challenge := fun config d =>
       let i := mk_ChallengeInstance (ccc_challenge_id config) (fresh (dom d)) (ccc_docker_image config)
                  "http://challenge:8080" 0 CsRunning in
       (Ok i, <[ci_container_id i := ccc_docker_image config]> d);
     stop_container := fun id => step tt (delete id);
     remove_container := fun id => step tt (delete id);
     is_container_running := fun id d => (Ok (bool_decide (is_Some (d !! id))), d);
     get_logs := fun _ _ => step ""%string id;
     list_challenge_containers := fun d => (Ok (fst <$> map_to_list d), d);
     cleanup_stale_containers := fun _ _ _ => step (mk_CleanupResult 0 0 []) id |}.

Lemma docker_host_tracks : tracks docker_host id.
Proof.
  split; intros; cbn; [by eexists..|]. eexists _, _. split; [reflexivity|]. cbn.
  split; [done|]. split; [|done]. apply not_elem_of_dom, is_fresh.
Qed.

(** A container of a listed challenge with an old image, one of a challenge that
    is no longer configured, and one that is not a challenge's. *)
Definition occupied : ChallengeOrchestrator (D := gmap string string) :=
  mk_ChallengeOrchestrator {[ "c1" := "a:1"; "c3" := "c:1"; "db" := "postgres" ]}%string
    (<[1 := started (config 1 "a:1")]> (<[3 := started (config 3 "c:1")]> ∅)) OrchestratorConfig_default.

Lemma occupied_running : all_running id occupied.
Proof.
  assert (Hl : forall k i, o_challenges occupied !! k = Some i ->
    k = 1 /\ i = started (config 1 "a:1") \/ k = 3 /\ i = started (config 3 "c:1")).
  { intros k i. cbn. rewrite !lookup_insert_Some, lookup_empty. naive_solver. }
  split.
  - intros k i [[-> ->]|[-> ->]]%Hl; by vm_compute.
  - intros k k' i i' [[-> ->]|[-> ->]]%Hl [[-> ->]|[-> ->]]%Hl Heq; done.
Qed.


(** Evaluated: the removed challenge's container is gone, the new image runs,
    the other container is untouched. *)
Lemma occupied_synchronised :
  let o' := (sync_challenges (Docker := docker_host) target occupied).2 in
  o_docker o' !! "c3"%string = None /\ o_docker o' !! "db"%string = Some "postgres"%string /\
  (fun i => o_docker o' !! ci_container_id i) <$> o_challenges o' !! 1 = Some (Some "a:2"%string).
Proof. by vm_compute. Qed.

Lemma failed_remove_forgets_container_witness :
  let o' := mk_ChallengeOrchestrator 1%nat (delete 1 (o_challenges running)) OrchestratorConfig_default in
  remove_challenge (Docker := counting false true) 1 running = (Err "daemon unavailable"%string, o') /\
  remove_challenge (Docker := counting false true) 1 o' = (Ok tt, o').
Proof.
  assert (Hi : o_challenges running !! 1 = Some (started (config 1 "a:1"))) by (vm_compute; reflexivity).
  exact (failed_remove_forgets_container (Docker := counting false true) 1 (started (config 1 "a:1"))
    "daemon unavailable" 1%nat running Hi eq_refl).
Defined.

Definition offline (req : Outgoing) : HttpAnswer := Err "connection refused"%string.

Lemma failed_update_serves_stopped_witness :
  let '(r, o') := update_challenge (Docker := counting true false) (config 1 "a:2") running in
  r = Err "no route to registry"%string /\ o_docker o' = 2%nat /\
  evaluate_generic offline (o_challenges o') 1 JNull None =
    forward offline (mk_Outgoing "POST" "http://challenge:8080/evaluate" (Some JNull) 3600).
Proof.
  assert (Hi : o_challenges running !! 1 = Some (started (config 1 "a:1"))) by (vm_compute; reflexivity).
  exact (failed_update_serves_stopped (Docker := counting true false) (config 1 "a:2") (started (config 1 "a:1"))
    "no route to registry" 1%nat 2%nat running offline JNull None Hi eq_refl eq_refl eq_refl).
Defined.

Lemma refresh_forgets_config_witness :
  (add_challenge (Docker := counting true true) (config 7 "a:1") ≫= fun _ => refresh_challenge (Docker := counting true true) 7)
    (with_docker 0%nat OrchestratorConfig_default) =
  (Ok tt, mk_ChallengeOrchestrator 5%nat (<[7 := started (minimal_config 7 "a:1")]> ∅) OrchestratorConfig_default).
Proof.
  exact (refresh_forgets_config (Docker := counting true true) (config 7 "a:1") (started (config 7 "a:1"))
    (started (minimal_config 7 "a:1")) 1%nat 2%nat 3%nat 4%nat 5%nat (with_docker 0%nat OrchestratorConfig_default)
    eq_refl eq_refl eq_refl eq_refl eq_refl eq_refl).
Defined.

Lemma sync_idempotent_witness :
  exists r l', lm_sync (Docker := counting true true) target (LifecycleManager_new 0%nat ∅) = (Ok r, l') /\
    lm_sync (Docker := counting true true) target l' = (Ok (mk_SyncResult [] [] [] [1; 2] []), l').
Proof.
  destruct (sync_idempotent (Docker := counting true true) target (LifecycleManager_new 0%nat ∅) counting_reliable
    target_distinct) as (r & l' & H1 & _ & _ & H2).
  exists r, l'. split; [exact H1|exact H2].
Defined.

Lemma stale_verdict_witness :
  health_round (fun _ => Err "connection refused"%string) (hm_iter (o_challenges running))
    (<[1 := started (config 1 "a:2")]> (o_challenges running)) !! 1 = Some (with_status Unhealthy (started (config 1 "a:2"))).
Proof.
  assert (Hi : o_challenges running !! 1 = Some (started (config 1 "a:1"))) by (vm_compute; reflexivity).
  exact (stale_verdict (fun _ => Err "connection refused"%string) "connection refused" (started (config 1 "a:1"))
    (started (config 1 "a:2")) (o_challenges running) 1 Hi eq_refl).
Defined.

Lemma direct_cleanup_removes_nothing_witness :
  direct_cleanup_challenge (Docker := counting true true) "0-1" 0%nat = (Ok 0%nat, 1%nat).
Proof.
  assert (Hids : Forall (fun c => all_chars is_ascii_hexdigit c = true) ["0123456789ab"; "ba9876543210"]%string)
    by (repeat constructor).
  exact (direct_cleanup_removes_nothing (Docker := counting true true) "0-1" ["0123456789ab"; "ba9876543210"]%string
    0%nat 1%nat eq_refl Hids eq_refl).
Defined.

(** A daemon that answers everything; pulls end with an error. *)
#[local] Instance daemon : DockerBridge nat :=
  let step {A} (x : A) : SE nat DockerError A := fun n => (Ok x, S n) in
  {| db_list_networks := step [];
     db_create_network := fun _ _ => step tt;
     db_inspect_container := fun _ => step (mk_Inspect None (Some true));
     db_connect_network := fun _ _ => step tt;
     db_create_image := fun _ n => ([Err (DockerResponse 500 "manifest unknown")], S n);
     db_create_volume := fun _ _ => step tt;
     db_create_container := fun name _ => step name;
     db_start_container := fun _ => step tt;
     db_stop_container := fun _ _ => step tt;
     db_remove_container := fun _ _ => step tt;
     db_list_containers := fun _ => step [mk_ContainerSummary (Some "aa"%string) (Some ["/term-challenge-x"%string]) (Some 0)];
     db_logs := fun _ _ n => ([], n) |}.
#[local] Instance docker_text : DockerText :=
  {| docker_error_text := fun _ => "error"%string; config_error_text := fun _ => "invalid"%string;
     generate_token := fun _ _ _ _ => Ok "token"%string; names_debug := fun _ => ""%string |}.
#[local] Instance ids : IdSource := {| uuid_parse_str := fun _ => None; default_hash := fun _ => 5 |}.

Definition host : HostEnv :=
  mk_HostEnv (mk_ProcessEnv (fun v => if bool_decide (v = "VALIDATOR_SECRET_KEY"%string) then Some "seed"%string else None)
    (fun _ => false)) [] (fun _ => None) None 1 "secret".
Definition client : DockerClient (D := nat) := mk_DockerClient 0%nat "platform-network".
Definition allowed : ChallengeContainerConfig := config 1 "ghcr.io/platformnetwork/term:1".

Lemma only_allowed_images_run_witness :
  let o := (add_challenge (Docker := docker_client_runtime host (fun c => Z.of_nat (cl_daemon c))) allowed
              (with_docker client OrchestratorConfig_default)).2 in
  is_Some (o_challenges o !! 1) /\
  map_Forall (fun _ i => allowed_image host (ci_image i)) (o_challenges o) /\
  exists e, client_start_challenge host 0 (config 1 "docker.io/evil:1") client = (Err e, client).
Proof.
  pose proof (only_allowed_images_run host (fun c => Z.of_nat (cl_daemon c)) client OrchestratorConfig_default _
    (rtc_once _ _ (step_add (Docker := docker_client_runtime host (fun c => Z.of_nat (cl_daemon c))) allowed
       (with_docker client OrchestratorConfig_default)))) as [Hall Hno].
  split; [vm_compute; by eexists|]. split; [exact Hall|]. apply Hno.
  intros Hev%is_image_allowed_spec. by vm_compute in Hev.
Defined.

Lemma failed_pull_succeeds_witness :
  client_pull_image host (ccc_docker_image allowed) client = (Ok tt, mk_DockerClient 1%nat "platform-network").
Proof.
  assert (Hok : is_image_allowed host (ccc_docker_image allowed) = true) by (vm_compute; reflexivity).
  exact (failed_pull_succeeds host (ccc_docker_image allowed) client [Err (DockerResponse 500 "manifest unknown")] 1%nat
    Hok eq_refl).
Defined.

Lemma challenge_gets_secret_witness :
  "VALIDATOR_SECRET=seed"%string ∈ dc_env (challenge_docker_config host "platform-network" allowed).
Proof. exact (proj1 (challenge_gets_secret host "platform-network" allowed "seed" eq_refl)). Defined.

Lemma cleanup_counts_witness :
  exists r c', client_cleanup_stale 10000 "term-challenge-" 120 ["platform-"%string] client = (Ok r, c') /\
    clr_total_found r = 1%nat /\ (clr_removed r + length (clr_errors r) = clr_total_found r)%nat.
Proof.
  exact (cleanup_counts 10000 "term-challenge-" 120 ["platform-"%string]
    [mk_ContainerSummary (Some "aa"%string) (Some ["/term-challenge-x"%string]) (Some 0)] client 1%nat eq_refl).
Defined.
End OrchestratorToy.
