(* ===== verification/SecureClient.v ===== *)
(** * Clients of the container broker

    Models [crates/secure-container-runtime/src/client.rs] and [ws_client.rs],
    and the secure backend of [crates/challenge-orchestrator/src/backend.rs].
    The connection to the broker is the class [Transport] over a state [W]: a
    request and its answer, a fresh identifier, the clock in milliseconds and a
    pause.  The loops that wait for a container take fuel; the theorems show how
    much is enough. *)

From Stdlib Require Import Ascii.
From stdpp Require Import relations.
From S2P Require Import Prelude Float64 Crypto RustStrings CoreTypes CoreState Submission Orchestrator DockerClient ContainerPolicy ContainerBroker ContainerBrokerProps.

Class Transport (W : Type) : Type := {
  send_request : Request -> SE W ContainerError Response;
  fresh_id : W -> string * W;
  clock : W -> Z;
  pause : Z -> W -> W
}.

Class ErrorTexts : Type := { container_error_text : ContainerError -> string }.

(** ** Configurations *)

Definition cb_new (image challenge_id owner_id : string) : ContainerConfig :=
  mk_ContainerConfig image challenge_id owner_id None None ∅ None ResourceLimits_default
    ContainerPolicy.NetworkConfig_default [] ∅ None.

Definition cb_resources (r : ResourceLimits) (c : ContainerConfig) : ContainerConfig :=
  mk_ContainerConfig (cfg_image c) (cfg_challenge_id c) (cfg_owner_id c) (cfg_name c) (cfg_cmd c) (cfg_env c)
    (cfg_working_dir c) r (cfg_network c) (cfg_mounts c) (cfg_labels c) (cfg_user c).
Definition cb_network (n : ContainerPolicy.NetworkConfig) (c : ContainerConfig) : ContainerConfig :=
  mk_ContainerConfig (cfg_image c) (cfg_challenge_id c) (cfg_owner_id c) (cfg_name c) (cfg_cmd c) (cfg_env c)
    (cfg_working_dir c) (cfg_resources c) n (cfg_mounts c) (cfg_labels c) (cfg_user c).
Definition cb_set_env (e : gmap string string) (c : ContainerConfig) : ContainerConfig :=
  mk_ContainerConfig (cfg_image c) (cfg_challenge_id c) (cfg_owner_id c) (cfg_name c) (cfg_cmd c) e
    (cfg_working_dir c) (cfg_resources c) (cfg_network c) (cfg_mounts c) (cfg_labels c) (cfg_user c).

Definition cb_name (name : string) (c : ContainerConfig) : ContainerConfig :=
  mk_ContainerConfig (cfg_image c) (cfg_challenge_id c) (cfg_owner_id c) (Some name) (cfg_cmd c) (cfg_env c)
    (cfg_working_dir c) (cfg_resources c) (cfg_network c) (cfg_mounts c) (cfg_labels c) (cfg_user c).
Definition cb_cmd (cmd : list string) (c : ContainerConfig) : ContainerConfig :=
  mk_ContainerConfig (cfg_image c) (cfg_challenge_id c) (cfg_owner_id c) (cfg_name c) (Some cmd) (cfg_env c)
    (cfg_working_dir c) (cfg_resources c) (cfg_network c) (cfg_mounts c) (cfg_labels c) (cfg_user c).
Definition cb_env (key value : string) (c : ContainerConfig) : ContainerConfig := cb_set_env (<[key := value]> (cfg_env c)) c.
Definition cb_envs (vars : gmap string string) (c : ContainerConfig) : ContainerConfig := cb_set_env (vars ∪ cfg_env c) c.
Definition cb_working_dir (dir : string) (c : ContainerConfig) : ContainerConfig :=
  mk_ContainerConfig (cfg_image c) (cfg_challenge_id c) (cfg_owner_id c) (cfg_name c) (cfg_cmd c) (cfg_env c)
    (Some dir) (cfg_resources c) (cfg_network c) (cfg_mounts c) (cfg_labels c) (cfg_user c).
Definition cb_memory (bytes : Z) (c : ContainerConfig) : ContainerConfig :=
  let r := cfg_resources c in cb_resources (mk_ResourceLimits bytes (rl_cpu_cores r) (rl_pids_limit r) (rl_disk_quota_bytes r)) c.
Definition cb_memory_gb (gb : f64) : ContainerConfig -> ContainerConfig :=
  let k := f64_of_Z 1024 in cb_memory (f64_as_i64 (f64_mul (f64_mul (f64_mul gb k) k) k)).
Definition cb_cpu (cores : f64) (c : ContainerConfig) : ContainerConfig :=
  let r := cfg_resources c in cb_resources (mk_ResourceLimits (rl_memory_bytes r) cores (rl_pids_limit r) (rl_disk_quota_bytes r)) c.
Definition cb_pids (limit : Z) (c : ContainerConfig) : ContainerConfig :=
  let r := cfg_resources c in cb_resources (mk_ResourceLimits (rl_memory_bytes r) (rl_cpu_cores r) limit (rl_disk_quota_bytes r)) c.
Definition cb_network_mode (mode : NetworkMode) (c : ContainerConfig) : ContainerConfig :=
  let n := cfg_network c in cb_network (ContainerPolicy.mk_NetworkConfig mode (net_ports n) (net_allow_internet n)) c.
Definition cb_port (container_port host_port : Z) (c : ContainerConfig) : ContainerConfig :=
  let n := cfg_network c in
  cb_network (ContainerPolicy.mk_NetworkConfig (net_mode n) (<[container_port := host_port]> (net_ports n)) (net_allow_internet n)) c.
Definition cb_expose (port : Z) : ContainerConfig -> ContainerConfig := cb_port port 0.
Definition cb_allow_internet (allow : bool) (c : ContainerConfig) : ContainerConfig :=
  let n := cfg_network c in cb_network (ContainerPolicy.mk_NetworkConfig (net_mode n) (net_ports n) allow) c.
Definition cb_mount (source target : string) (read_only : bool) (c : ContainerConfig) : ContainerConfig :=
  mk_ContainerConfig (cfg_image c) (cfg_challenge_id c) (cfg_owner_id c) (cfg_name c) (cfg_cmd c) (cfg_env c)
    (cfg_working_dir c) (cfg_resources c) (cfg_network c) (cfg_mounts c ++ [mk_MountConfig source target read_only])
    (cfg_labels c) (cfg_user c).
Definition cb_label (key value : string) (c : ContainerConfig) : ContainerConfig :=
  mk_ContainerConfig (cfg_image c) (cfg_challenge_id c) (cfg_owner_id c) (cfg_name c) (cfg_cmd c) (cfg_env c)
    (cfg_working_dir c) (cfg_resources c) (cfg_network c) (cfg_mounts c) (<[key := value]> (cfg_labels c)) (cfg_user c).

(** ** The client *)

Record ContainerStartResult : Type := mk_ContainerStartResult {
  csr_container_id : string;
  csr_ports : gmap Z Z;
  csr_endpoint : option string
}.
Record BrokerCleanup : Type := mk_BrokerCleanup { bc_total : nat; bc_stopped : nat; bc_removed : nat; bc_errors : list string }.
Definition bc_success (r : BrokerCleanup) : bool := bool_decide (bc_errors r = []).
(** The duration in milliseconds. *)
Record OneshotResult : Type := mk_OneshotResult {
  os_success : bool;
  os_logs : string;
  os_duration : Z;
  os_timed_out : bool
}.
Record ChallengeStats : Type := mk_ChallengeStats {
  cs_challenge_id : string;
  cs_total_containers : nat;
  cs_running_containers : nat;
  cs_stopped_containers : nat;
  cs_container_ids : list string
}.

Section client.
Context {W : Type} `{Tr : Transport W} `{Txt : ErrorTexts}.
Definition BrokerM := SE W ContainerError.

Definition request_id : BrokerM string := fun w => let '(id, w') := fresh_id w in (Ok id, w').

(** A request with a fresh identifier, and what is taken from its answer. *)
Definition expect {A} (make : string -> Request) (take : Response -> option A) : BrokerM A :=
  id ← request_id;
  response ← send_request (make id);
  match response with
  | ErrorResponse e _ => throw e
  | r => match take r with Some a => mret a | None => throw (InternalError (Text "Unexpected response")) end
  end.

Definition sc_ping : BrokerM string := expect Ping (fun r => match r with Pong v _ => Some v | _ => None end).
Definition sc_create_container (config : ContainerConfig) : BrokerM (string * string) :=
  expect (Create config) (fun r => match r with Created id name _ => Some (id, name) | _ => None end).
Definition sc_start_container (id : string) : BrokerM ContainerStartResult :=
  expect (Start id) (fun r => match r with Started c p e _ => Some (mk_ContainerStartResult c p e) | _ => None end).
Definition sc_stop_container (id : string) (timeout_secs : Z) : BrokerM unit :=
  expect (Stop id timeout_secs) (fun r => match r with StoppedResponse _ _ => Some tt | _ => None end).
Definition sc_remove_container (id : string) (force : bool) : BrokerM unit :=
  expect (Remove id force) (fun r => match r with Removed _ _ => Some tt | _ => None end).
Definition sc_exec (id : string) (command : list string) (dir : option string) (timeout_secs : Z) : BrokerM ExecResult :=
  expect (Exec id command dir timeout_secs) (fun r => match r with ExecResponse x _ => Some x | _ => None end).
Definition sc_inspect (id : string) : BrokerM ContainerInfo :=
  expect (Inspect id) (fun r => match r with Info i _ => Some i | _ => None end).
Definition sc_list (challenge_id owner_id : option string) : BrokerM (list ContainerInfo) :=
  expect (ListContainers challenge_id owner_id) (fun r => match r with ContainerList l _ => Some l | _ => None end).
Definition sc_logs (id : string) (tail : nat) : BrokerM string :=
  expect (Logs id tail) (fun r => match r with LogsResult l _ => Some l | _ => None end).
Definition sc_pull_image (image : string) : BrokerM unit :=
  expect (Pull image) (fun r => match r with Pulled _ _ => Some tt | _ => None end).

Definition list_by_challenge (challenge_id : string) : BrokerM (list ContainerInfo) := sc_list (Some challenge_id) None.
Definition list_by_owner (owner_id : string) : BrokerM (list ContainerInfo) := sc_list None (Some owner_id).
Definition list_all : BrokerM (list ContainerInfo) := sc_list None None.

Definition is_running (i : ContainerInfo) : bool := match inf_state i with Running => true | _ => false end.
Definition is_stopped (i : ContainerInfo) : bool := match inf_state i with Stopped => true | _ => false end.
Definition is_finished (i : ContainerInfo) : bool := match inf_state i with Stopped | Dead => true | _ => false end.

Fixpoint stop_each (timeout_secs : Z) (l : list ContainerInfo) (stopped : nat) : BrokerM nat :=
  match l with
  | [] => mret stopped
  | c :: rest =>
      if is_running c then
        r ← attempt (sc_stop_container (inf_id c) timeout_secs);
        stop_each timeout_secs rest (if is_ok r then S stopped else stopped)
      else stop_each timeout_secs rest stopped
  end.
Definition stop_all_by_challenge (challenge_id : string) (timeout_secs : Z) : BrokerM nat :=
  l ← list_by_challenge challenge_id; stop_each timeout_secs l 0.

Fixpoint remove_each_container (force : bool) (l : list ContainerInfo) (removed : nat) : BrokerM nat :=
  match l with
  | [] => mret removed
  | c :: rest =>
      r ← attempt (sc_remove_container (inf_id c) force);
      remove_each_container force rest (if is_ok r then S removed else removed)
  end.
Definition remove_all_by_challenge (challenge_id : string) (force : bool) : BrokerM nat :=
  l ← list_by_challenge challenge_id; remove_each_container force l 0.

Definition note_stop (c : ContainerInfo) (x : result ContainerError unit) (r : BrokerCleanup) : BrokerCleanup :=
  match x with
  | Ok _ => mk_BrokerCleanup (bc_total r) (S (bc_stopped r)) (bc_removed r) (bc_errors r)
  | Err e => mk_BrokerCleanup (bc_total r) (bc_stopped r) (bc_removed r)
               (bc_errors r ++ [("Stop " +:+ inf_id c +:+ ": " +:+ container_error_text e)%string])
  end.
Definition note_remove (c : ContainerInfo) (x : result ContainerError unit) (r : BrokerCleanup) : BrokerCleanup :=
  match x with
  | Ok _ => mk_BrokerCleanup (bc_total r) (bc_stopped r) (S (bc_removed r)) (bc_errors r)
  | Err e => mk_BrokerCleanup (bc_total r) (bc_stopped r) (bc_removed r)
               (bc_errors r ++ [("Remove " +:+ inf_id c +:+ ": " +:+ container_error_text e)%string])
  end.

Fixpoint cleanup_each (l : list ContainerInfo) (r : BrokerCleanup) : BrokerM BrokerCleanup :=
  match l with
  | [] => mret r
  | c :: rest =>
      r ← (if is_running c then x ← attempt (sc_stop_container (inf_id c) 10); mret (note_stop c x r) else mret r);
      x ← attempt (sc_remove_container (inf_id c) true);
      cleanup_each rest (note_remove c x r)
  end.
Definition sc_cleanup_challenge (challenge_id : string) : BrokerM BrokerCleanup :=
  l ← list_by_challenge challenge_id; cleanup_each l (mk_BrokerCleanup (length l) 0 0 []).

Definition get_endpoint (id : string) (port : Z) : BrokerM string :=
  info ← sc_inspect id; mret ("http://" +:+ inf_name info +:+ ":" +:+ Z_to_string port)%string.
Definition get_host_endpoint (id : string) (container_port : Z) : BrokerM (option string) :=
  info ← sc_inspect id;
  mret ((fun p => ("http://127.0.0.1:" +:+ Z_to_string p)%string) <$> inf_ports info !! container_port).

Definition get_challenge_stats (challenge_id : string) : BrokerM ChallengeStats :=
  l ← list_by_challenge challenge_id;
  mret (mk_ChallengeStats challenge_id (length l) (length (filter (fun c => is_running c = true) l))
          (length (filter (fun c => is_stopped c = true) l)) (inf_id <$> l)).

(** ** Waiting *)

(** [None] when the fuel runs out. *)
Fixpoint wait_healthy_loop (fuel : nat) (start timeout : Z) (id : string) (cmd : list string) (w : W) : option (bool * W) :=
  match fuel with
  | O => None
  | S fuel =>
      if clock w - start <? timeout then
        match sc_exec id cmd None 5 w with
        | (Ok r, w') => if ex_exit_code r =? 0 then Some (true, w') else wait_healthy_loop fuel start timeout id cmd (pause 500 w')
        | (Err _, w') => wait_healthy_loop fuel start timeout id cmd (pause 500 w')
        end
      else Some (false, w)
  end.
Definition wait_healthy (fuel : nat) (id : string) (port : Z) (path : string) (timeout_secs : Z) (w : W) : option (bool * W) :=
  wait_healthy_loop fuel (clock w) (timeout_secs * 1000) id
    ["sh"; "-c"; "curl -sf http://localhost:" +:+ Z_to_string port +:+ path +:+ " > /dev/null"]%string w.

(** The logs, or nothing, and then the removal, whatever it gives. *)
Definition collect_and_remove (id : string) (tail : nat) (w : W) : string * W :=
  let '(logs, w) := sc_logs id tail w in
  let '(_, w) := sc_remove_container id true w in
  (match logs with Ok l => l | Err _ => EmptyString end, w).

Fixpoint oneshot_loop (fuel : nat) (start timeout : Z) (id : string) (w : W) : option (result ContainerError OneshotResult * W) :=
  match fuel with
  | O => None
  | S fuel =>
      match sc_inspect id w with
      | (Err e, w) => Some (Err e, w)
      | (Ok info, w) =>
          if is_finished info then
            let '(logs, w) := collect_and_remove id 10000 w in
            Some (Ok (mk_OneshotResult true logs (clock w - start) false), w)
          else if timeout <=? clock w - start then
            let '(_, w) := sc_stop_container id 5 w in
            let '(logs, w) := collect_and_remove id 1000 w in
            Some (Ok (mk_OneshotResult false logs (clock w - start) true), w)
          else oneshot_loop fuel start timeout id (pause 100 w)
      end
  end.
Definition run_oneshot (fuel : nat) (config : ContainerConfig) (timeout_secs : Z) (w : W) :
    option (result ContainerError OneshotResult * W) :=
  match (created ← sc_create_container config; _ ← sc_start_container created.1; mret created.1) w with
  | (Err e, w) => Some (Err e, w)
  | (Ok id, w) => oneshot_loop fuel (clock w) (timeout_secs * 1000) id w
  end.

(** ** The secure backend *)

Context `{IdT : IdText}.

Definition secure_config (validator_id : string) (config : ChallengeContainerConfig) : ContainerConfig :=
  let id := id_to_string (ccc_challenge_id config) in
  cb_env "MECHANISM_ID" (Z_to_string (ccc_mechanism_id config))
    (cb_env "CHALLENGE_ID" id
      (cb_expose 8080 (cb_network_mode NetIsolated (cb_cpu (ccc_cpu_cores config)
        (cb_memory (u64_mul (u64_mul (ccc_memory_mb config) 1024) 1024) (cb_new (ccc_docker_image config) id validator_id)))))).

(** A call whose error is reported with what failed. *)
Definition backend_call {A} (what : string) (m : BrokerM A) : SE W string A := fun w =>
  let '(r, w') := m w in (result_map_err (fun e => (what +:+ ": " +:+ container_error_text e)%string) r, w').

(** [now] is read at the end. *)
Definition secure_start_challenge (now : DateTime) (validator_id : string) (config : ChallengeContainerConfig) :
    SE W string ChallengeInstance :=
  created ← backend_call "Failed to create container" (sc_create_container (secure_config validator_id config));
  _ ← backend_call "Failed to start container" (sc_start_container created.1);
  endpoint ← backend_call "Failed to get endpoint" (get_endpoint created.1 8080);
  mret (mk_ChallengeInstance (ccc_challenge_id config) created.1 (ccc_docker_image config) endpoint now CsRunning).
Definition secure_stop_container (id : string) : SE W string unit := backend_call "Failed to stop container" (sc_stop_container id 30).
Definition secure_remove_container (id : string) : SE W string unit := backend_call "Failed to remove container" (sc_remove_container id true).
Definition secure_is_container_running (id : string) : SE W string bool := fun w =>
  match sc_inspect id w with (Ok i, w') => (Ok (is_running i), w') | (Err _, w') => (Ok false, w') end.
Definition secure_pull_image (image : string) : SE W string unit := backend_call "Failed to pull image" (sc_pull_image image).
Definition secure_get_logs (id : string) (tail : nat) : SE W string string := backend_call "Failed to get logs" (sc_logs id tail).
Definition secure_cleanup_challenge (challenge_id : string) : SE W string nat :=
  r ← backend_call "Failed to cleanup" (sc_cleanup_challenge challenge_id); mret (bc_removed r).
Definition secure_list_challenge_containers (challenge_id : string) : SE W string (list string) :=
  l ← backend_call "Failed to list containers" (list_by_challenge challenge_id); mret (inf_id <$> l).
End client.

(** ** The WebSocket client *)

Record WsContainerClient : Type := mk_WsContainerClient {
  wc_ws_url : string;
  wc_jwt_token : string;
  wc_challenge_id : string;
  wc_owner_id : string
}.

Definition ws_from_env (var : string -> option string) : option WsContainerClient :=
  ws_url ← var "CONTAINER_BROKER_WS_URL"%string;
  jwt_token ← var "CONTAINER_BROKER_JWT"%string;
  let challenge_id :=
    match var "CHALLENGE_UUID"%string with
    | Some id => id
    | None => default "unknown-challenge"%string (var "CHALLENGE_ID"%string)
    end in
  Some (mk_WsContainerClient ws_url jwt_token challenge_id (default "unknown-owner"%string (var "VALIDATOR_HOTKEY"%string))).

(** * Properties of the clients *)

(** ** Waiting ends *)

(** A clock that requests do not turn back, and that a pause moves on. *)
Class ClockLaws {W} (T : Transport W) : Prop := {
  clock_send : forall r w, clock w <= clock (send_request r w).2;
  clock_fresh : forall w, clock w <= clock (fresh_id w).2;
  clock_pause : forall ms w, 0 <= ms -> clock w + ms <= clock (pause ms w)
}.

Section waiting.
Context {W : Type} `{Tr : Transport W} `{Txt : ErrorTexts} `{Laws : !ClockLaws Tr}.

Lemma expect_clock {A} make (take : Response -> option A) w : clock w <= clock (expect make take w).2.
Proof.
  unfold expect, request_id, mbind, SE_bind, throw, mret, SE_ret. pose proof (clock_fresh w) as Hf.
  destruct (fresh_id w) as [id w1]. cbn in Hf |- *. pose proof (clock_send (make id) w1) as Hs.
  destruct (send_request (make id) w1) as [[r|e] w2]; cbn in Hs |- *; [|lia].
  destruct r; cbn; repeat case_match; cbn; lia.
Qed.

Lemma oneshot_loop_ends fuel start timeout id w :
  (0 < fuel)%nat -> timeout - (clock w - start) <= 100 * (Z.of_nat fuel - 1) ->
  is_Some (oneshot_loop fuel start timeout id w).
Proof.
  revert w. induction fuel as [|fuel IH]; intros w Hf Hm; [lia|]. cbn [oneshot_loop].
  pose proof (expect_clock (Inspect id) (fun r => match r with Info i _ => Some i | _ => None end) w) as Hc.
  unfold sc_inspect. destruct (expect _ _ w) as [[info|e] w1]; cbn in Hc; [|by eexists].
  destruct (is_finished info); [destruct (collect_and_remove id 10000 w1); by eexists|].
  destruct (Z.leb_spec timeout (clock w1 - start)) as [Hle|Hgt].
  - destruct (sc_stop_container id 5 w1) as [? w2]. destruct (collect_and_remove id 1000 w2). by eexists.
  - pose proof (clock_pause 100 w1 ltac:(lia)). apply IH; lia.
Qed.

(** C39. A one-shot run always comes to an end: whatever the broker answers, the
    loop that waits for the container makes at most one round per tenth of a
    second of the timeout, and one more. *)
Theorem oneshot_terminates fuel config timeout_secs w :
  0 <= timeout_secs -> 10 * timeout_secs < Z.of_nat fuel ->
  is_Some (run_oneshot fuel config timeout_secs w).
Proof.
  intros Ht Hf. unfold run_oneshot.
  match goal with |- context [match ?x with _ => _ end] => destruct x as [[id|e] w1] end; [|by eexists].
  apply oneshot_loop_ends; lia.
Qed.

Lemma wait_healthy_loop_ends fuel start timeout id cmd w :
  (0 < fuel)%nat -> timeout - (clock w - start) <= 500 * (Z.of_nat fuel - 1) ->
  is_Some (wait_healthy_loop fuel start timeout id cmd w).
Proof.
  revert w. induction fuel as [|fuel IH]; intros w Hf Hm; [lia|]. cbn [wait_healthy_loop].
  destruct (Z.ltb_spec (clock w - start) timeout) as [Hlt|]; [|by eexists].
  pose proof (expect_clock (Exec id cmd None 5) (fun r => match r with ExecResponse x _ => Some x | _ => None end) w) as Hc.
  unfold sc_exec. destruct (expect _ _ w) as [x w1]. cbn in Hc.
  assert (Hgo : is_Some (wait_healthy_loop fuel start timeout id cmd (pause 500 w1))).
  { pose proof (clock_pause 500 w1 ltac:(lia)). apply IH; lia. }
  destruct x as [r|e]; [|done]. destruct (ex_exit_code r =? 0); [by eexists|done].
Qed.

(** Waiting for a healthy container ends within two rounds per second of the
    timeout, and one more. *)
Theorem wait_healthy_terminates fuel id port path timeout_secs w :
  0 <= timeout_secs -> 2 * timeout_secs < Z.of_nat fuel ->
  is_Some (wait_healthy fuel id port path timeout_secs w).
Proof. intros Ht Hf. apply wait_healthy_loop_ends; lia. Qed.

(** A one-shot run whose inspection fails returns that error at once: the
    container it started is neither stopped nor removed. *)
Theorem oneshot_error_leaves_container fuel config timeout_secs w w1 w2 w3 id name started e :
  sc_create_container config w = (Ok (id, name), w1) ->
  sc_start_container id w1 = (Ok started, w2) ->
  sc_inspect id w2 = (Err e, w3) ->
  run_oneshot (S fuel) config timeout_secs w = Some (Err e, w3).
Proof.
  intros H1 H2 H3. unfold run_oneshot, mbind, SE_bind. rewrite H1. cbn. rewrite H2. cbn. by rewrite H3.
Qed.
End waiting.

(** ** The identity of a challenge at the broker *)

Section identity.
Context {HS : HashOrder string} `{Arch : Archive} `{DTxt : DockerText} `{IdT : IdText}.

(** The token a challenge container is given names the challenge by its name,
    but the client made from the container's environment identifies itself by the
    identifier: unless the two agree the broker refuses every container it asks
    for. *)
Theorem challenge_client_refused env config token var client conn d now uuid8 image rid b :
  let uuid := id_to_string (ccc_challenge_id config) in
  generate_token (ccc_name config) (default "unknown"%string (he_var env "VALIDATOR_HOTKEY"))
    (default (he_session_secret env) (he_var env "BROKER_JWT_SECRET")) 315360000 = Ok token ->
  var "CHALLENGE_UUID"%string = Some uuid ->
  ws_from_env var = Some client ->
  ws_challenge_id conn = ccc_name config ->
  ccc_name config <> EmptyString -> uuid <> ccc_name config ->
  ("CHALLENGE_UUID=" +:+ uuid)%string ∈ challenge_env env config /\
  ("CONTAINER_BROKER_JWT=" +:+ token)%string ∈ challenge_env env config /\
  exists msg, process_request d now uuid8 conn (Create (cb_new image (wc_challenge_id client) (wc_owner_id client)) rid) b =
    (ErrorResponse (UnauthorizedError (Text msg)) rid, b).
Proof.
  intros uuid Htok Hvar Hfrom Hconn Hne Hdiff. split; [|split].
  - unfold challenge_env. rewrite elem_of_app. left. apply list_elem_of_further, list_elem_of_here.
  - unfold challenge_env, broker_token. rewrite Htok, !elem_of_app. do 9 right. left. apply list_elem_of_here.
  - unfold ws_from_env in Hfrom. rewrite Hvar in Hfrom.
    destruct (var "CONTAINER_BROKER_WS_URL"%string); [|done]. destruct (var "CONTAINER_BROKER_JWT"%string); [|done].
    injection Hfrom as <-. unfold process_request. cbn [request_challenge_id cb_new cfg_challenge_id wc_challenge_id].
    rewrite Hconn. unfold is_empty. rewrite !bool_decide_false by done. cbn. by eexists.
Qed.

(** ** The secure backend on the broker *)

(** The broker behind its socket, with the daemon it uses. *)
Record BrokerWorld : Type := mk_BrokerWorld {
  bw_broker : ContainerBroker;
  bw_docker : Docker;
  bw_time : Z;
  bw_requests : nat
}.
#[local] Instance broker_transport : Transport BrokerWorld := {|
  send_request := fun r w =>
    let '(resp, b) := handle_request (bw_docker w) (bw_time w) (Z_to_string (Z.of_nat (bw_requests w))) r (bw_broker w) in
    (Ok resp, mk_BrokerWorld b (bw_docker w) (bw_time w) (bw_requests w));
  fresh_id := fun w => (Z_to_string (Z.of_nat (bw_requests w)),
    mk_BrokerWorld (bw_broker w) (bw_docker w) (bw_time w) (S (bw_requests w)));
  clock := bw_time;
  pause := fun ms w => mk_BrokerWorld (bw_broker w) (bw_docker w) (bw_time w + ms) (bw_requests w)
|}.

Context `{Txt : ErrorTexts}.

(** A challenge the secure backend starts is one the broker's policy admits:
    an image of an allowed registry, resources within the limits and no forbidden
    mount; the backend cannot start anything else, whatever it is configured to. *)
Theorem secure_start_confined now validator_id config (w w' : BrokerWorld) i :
  secure_start_challenge now validator_id config w = (Ok i, w') ->
  policy_validate (br_policy (bw_broker w)) (secure_config validator_id config) = Ok tt /\
  ci_status i = CsRunning /\ ci_image i = ccc_docker_image config.
Proof.
  unfold secure_start_challenge, mbind, SE_bind, backend_call. intros Hrun.
  destruct (sc_create_container _ w) as [[created|e] w1] eqn:Hc; [|done]. split.
  - unfold sc_create_container, expect, request_id, mbind, SE_bind in Hc. cbn [fresh_id broker_transport send_request] in Hc.
    cbn [handle_request bw_broker bw_docker bw_time bw_requests] in Hc.
    unfold create_container, admit_container in Hc.
    destruct (policy_validate (br_policy (bw_broker w)) (secure_config validator_id config)) as [[]|e]; [done|].
    cbn in Hc. discriminate Hc.
  - cbn [result_map_err] in Hrun.
    destruct (sc_start_container created.1 w1) as [[started|e] w2]; [|done]. cbn [result_map_err] in Hrun.
    destruct (get_endpoint created.1 8080 w2) as [[endpoint|e] w3]; [|done]. by injection Hrun as <- _.
Qed.
End identity.

(** ** Concrete transports *)

Module ClientToy.
Import BrokerExamples PolicyExamples.

#[local] Instance error_texts : ErrorTexts := {| container_error_text := fun _ => "error"%string |}.
#[local] Instance id_text : IdText := {| id_to_string := fun id => ("0-" +:+ Z_to_string id)%string |}.

Definition info (st : ContainerState) : ContainerInfo :=
  mk_ContainerInfo "c1" "challenge" "term" "v1" "img" st 0 ∅ None ∅.

(** A broker whose containers start, and are then in some state or lost; its
    world is the clock. *)
Definition scripted (state : option ContainerState) : Transport Z := {|
  send_request := fun r w =>
    (Ok (match r with
         | Create _ i => Created "c1" "challenge" i
         | Start c i => Started c ∅ None i
         | Stop c _ i => StoppedResponse c i
         | Remove c _ i => Removed c i
         | Inspect _ i => match state with Some st => Info (info st) i | None => ErrorResponse (ContainerNotFound "c1") i end
         | Logs _ _ i => LogsResult "done" i
         | r => ErrorResponse (InternalError (Text "unsupported")) (request_id_of r)
         end), w + 1);
  fresh_id := fun w => ("r"%string, w);
  clock := fun w => w;
  pause := fun ms w => w + ms
|}.
#[local] Instance scripted_clock state : ClockLaws (scripted state).
Proof. split; intros; cbn; lia. Qed.

Lemma oneshot_terminates_witness :
  is_Some (run_oneshot (Tr := scripted (Some Running)) 11 (cb_new "img" "term" "v1") 1 0).
Proof.
  exact (oneshot_terminates (Tr := scripted (Some Running)) 11 (cb_new "img" "term" "v1") 1 0 ltac:(lia) ltac:(lia)).
Defined.

Lemma wait_healthy_terminates_witness :
  is_Some (wait_healthy (Tr := scripted (Some Running)) 7 "c1" 8080 "/health" 3 0).
Proof.
  exact (wait_healthy_terminates (Tr := scripted (Some Running)) 7 "c1" 8080 "/health" 3 0 ltac:(lia) ltac:(lia)).
Defined.

Lemma oneshot_error_leaves_container_witness :
  run_oneshot (Tr := scripted None) 1 (cb_new "img" "term" "v1") 60 0 = Some (Err (ContainerNotFound "c1"), 3).
Proof.
  exact (oneshot_error_leaves_container (Tr := scripted None) 0 (cb_new "img" "term" "v1") 60 0 1 2 3 "c1" "challenge"
    (mk_ContainerStartResult "c1" ∅ None) (ContainerNotFound "c1") eq_refl eq_refl eq_refl).
Defined.

#[local] Instance docker_text : DockerText :=
  {| docker_error_text := fun _ => "error"%string; config_error_text := fun _ => "invalid"%string;
     generate_token := fun _ _ _ _ => Ok "token"%string; names_debug := fun _ => ""%string |}.
Definition host : HostEnv := mk_HostEnv (mk_ProcessEnv (fun _ => None) (fun _ => false)) [] (fun _ => None) None 1 "secret".
Definition term : ChallengeContainerConfig :=
  mk_ChallengeContainerConfig 1 "term" "ghcr.io/platformnetwork/term:1" 1 f64_one 600 f64_one 1024 false.
(** The environment of the container. *)
Definition container_var (name : string) : option string :=
  if bool_decide (name = "CHALLENGE_UUID"%string) then Some "0-1"%string
  else if bool_decide (name = "CONTAINER_BROKER_WS_URL"%string) then Some "ws://localhost:8090"%string
  else if bool_decide (name = "CONTAINER_BROKER_JWT"%string) then Some "token"%string
  else None.
Definition term_client : WsContainerClient := mk_WsContainerClient "ws://localhost:8090" "token" "0-1" "unknown-owner".
Definition term_connection : WsConnection := mk_WsConnection "term" "v1" true.

Lemma challenge_client_refused_witness :
  exists msg, process_request daemon 1 "00000000" term_connection (Create (cb_new "img" "0-1" "unknown-owner") "r1") strict_broker =
    (ErrorResponse (UnauthorizedError (Text msg)) "r1", strict_broker).
Proof.
  assert (Hfrom : ws_from_env container_var = Some term_client) by (vm_compute; reflexivity).
  assert (Hne : ccc_name term <> ""%string) by discriminate.
  assert (Hdiff : id_to_string (ccc_challenge_id term) <> ccc_name term) by (vm_compute; discriminate).
  exact (proj2 (proj2 (challenge_client_refused host term "token" container_var term_client term_connection daemon 1
    "00000000" "img" "r1" strict_broker eq_refl eq_refl Hfrom eq_refl Hne Hdiff))).
Defined.

(** A daemon that also finds the containers it created. *)
Definition finding : Docker :=
  mk_Docker (dk_inspect_image daemon) (dk_create_image daemon) (dk_create_container daemon) (dk_start_container daemon)
    (dk_stop_container daemon) (dk_remove_container daemon) (dk_create_exec daemon) (dk_exec daemon) (dk_exec_ms daemon)
    (fun _ => Ok (mk_InspectInfo None (Some "/challenge"%string) (Some {["platform.managed"%string := "true"%string]}) None None []))
    (dk_list_containers daemon) (dk_logs daemon) (dk_build_image daemon) (dk_download daemon) (dk_upload daemon).
Definition world : BrokerWorld := mk_BrokerWorld strict_broker finding 0 0.

Lemma secure_start_confined_witness :
  policy_validate (br_policy strict_broker) (secure_config "v1" term) = Ok tt.
Proof.
  destruct (secure_start_challenge (Tr := broker_transport) 0 "v1" term world) as [[i|e] w'] eqn:Hrun.
  - exact (proj1 (secure_start_confined 0 "v1" term world w' i Hrun)).
  - exfalso. assert (Hok : is_ok (secure_start_challenge (Tr := broker_transport) 0 "v1" term world).1 = true)
      by (vm_compute; reflexivity). rewrite Hrun in Hok. discriminate Hok.
Defined.
End ClientToy.
