(* ===== verification/ChallengeSdk.v ===== *)
(** * The challenge SDK

    Models what a challenge author builds on ([crates/challenge-sdk/src]):
    - [SubmissionTypes]: sealed submissions, acknowledgements and key reveals of
      [submission_types.rs], over AES-256-GCM as the class [Aead];
    - [ChallengeDb]: the database of a challenge of [database.rs], with its sled
      trees as ordered maps and bincode as the class [DbCodec];
    - [ChallengeServer]: the HTTP server of [server.rs] for any challenge, the
      record [ServerChallenge]; an evaluation is a beginning and an end, since
      requests interleave in between;
    - [P2PClient]: the client of [p2p_client.rs] and the runner of
      [decentralized.rs] over their two channels.
    Timestamps and elapsed times are arguments.  [data.rs] and [weight_types.rs]
    declare records that nothing in the repository computes with. *)

From Stdlib Require Import SpecFloat.
From S2P Require Import Prelude Float64 Crypto RustStrings RustBytes CoreTypes Submission JsonRpc.

(** ** Errors ([error.rs]) *)

Inductive SdkError : Type :=
| SdkConnection (msg : string)
| SdkAuth (msg : string)
| SdkConfig (msg : string)
| SdkIo (msg : string)
| SdkEvaluation (msg : string)
| SdkValidation (msg : string)
| SdkNetwork (msg : string)
| SdkTimeout (msg : string)
| SdkDatabase (msg : string)
| SdkSerialization (msg : string)
| SdkConfiguration (msg : string)
| SdkUnsupportedJobType (msg : string)
| SdkAgentNotFound (msg : string)
| SdkChallengeNotFound (msg : string)
| SdkInsufficientValidators (required got : Z)
| SdkEpoch (msg : string)
| SdkWeight (msg : string)
| SdkCommitmentMismatch
| SdkInternal (msg : string).
#[global] Instance SdkError_eq_dec : EqDecision SdkError.
Proof. solve_decision. Defined.

Definition SdkError_to_string (e : SdkError) : string :=
  match e with
  | SdkConnection m => "Connection error: " +:+ m
  | SdkAuth m => "Authentication error: " +:+ m
  | SdkConfig m => "Configuration error: " +:+ m
  | SdkIo m => "IO error: " +:+ m
  | SdkEvaluation m => "Evaluation error: " +:+ m
  | SdkValidation m => "Validation error: " +:+ m
  | SdkNetwork m => "Network error: " +:+ m
  | SdkTimeout m => "Timeout: " +:+ m
  | SdkDatabase m => "Database error: " +:+ m
  | SdkSerialization m => "Serialization error: " +:+ m
  | SdkConfiguration m => "Configuration error: " +:+ m
  | SdkUnsupportedJobType m => "Unsupported job type: " +:+ m
  | SdkAgentNotFound m => "Agent not found: " +:+ m
  | SdkChallengeNotFound m => "Challenge not found: " +:+ m
  | SdkInsufficientValidators required got =>
      "Insufficient validators: required " +:+ Z_to_string required +:+ ", got " +:+ Z_to_string got
  | SdkEpoch m => "Epoch error: " +:+ m
  | SdkWeight m => "Weight error: " +:+ m
  | SdkCommitmentMismatch => "Commitment mismatch"
  | SdkInternal m => "Internal error: " +:+ m
  end.

(** * Sealed submissions *)

Module SubmissionTypes.
Inductive SubmissionError : Type :=
| MinerBanned
| InvalidHash
| AlreadyExists
| SubmissionNotFound
| InvalidSubmissionState
| QuorumNotReached
| InvalidKey
| DecryptionFailed
| EncryptionFailed
| SignatureInvalid
| OwnershipVerificationFailed
| DuplicateContent.
#[global] Instance SubmissionError_eq_dec : EqDecision SubmissionError.
Proof. solve_decision. Defined.

Record EncryptedSubmission : Type := mk_EncryptedSubmission {
  es_challenge_id : string;
  es_miner_hotkey : string;
  es_miner_coldkey : string;
  es_encrypted_data : bytes;
  es_key_hash : bytes;
  es_nonce : bytes;
  es_submission_hash : bytes;
  es_content_hash : bytes;
  es_miner_signature : bytes;
  es_submitted_at : DateTime;
  es_epoch : Z
}.

Record SubmissionAck : Type := mk_SubmissionAck {
  sa_submission_hash : bytes;
  sa_validator_hotkey : Hotkey;
  sa_validator_stake : Z;
  sa_signature : bytes;
  sa_timestamp : DateTime
}.

Record DecryptionKeyReveal : Type := mk_DecryptionKeyReveal {
  kr_submission_hash : bytes;
  kr_decryption_key : bytes;
  kr_miner_signature : bytes;
  kr_timestamp : DateTime
}.

Record VerifiedSubmission : Type := mk_VerifiedSubmission {
  vsb_submission_hash : bytes;
  vsb_content_hash : bytes;
  vsb_challenge_id : string;
  vsb_miner_hotkey : string;
  vsb_miner_coldkey : string;
  vsb_data : bytes;
  vsb_epoch : Z;
  vsb_submitted_at : DateTime;
  vsb_verified_at : DateTime;
  vsb_ownership_verified : bool
}.

(** AES-256-GCM: a cipher from a key, encryption and decryption under a nonce of
    twelve bytes. *)
Class Aead : Type := {
  Cipher : Type;
  aes_new : bytes -> option Cipher;
  aes_encrypt : Cipher -> bytes -> bytes -> option bytes;
  aes_decrypt : Cipher -> bytes -> bytes -> option bytes
}.

(** A cipher exists for keys of 32 bytes, and decrypts what it encrypted. *)
Class AeadLaws `{Aead} : Prop := {
  aes_new_length : forall key, length key = 32%nat -> is_Some (aes_new key);
  aes_decrypt_encrypt : forall c nonce data sealed,
    aes_encrypt c nonce data = Some sealed -> aes_decrypt c nonce sealed = Some data
}.

Section sealed.
Context `{Ext : External}.

Definition compute_submission_hash (encrypted_data key_hash nonce : bytes) : bytes :=
  sha256 (encrypted_data ++ key_hash ++ nonce).
Definition compute_content_hash (data : bytes) : bytes := sha256 data.

Definition EncryptedSubmission_new (now : DateTime) (challenge_id miner_hotkey miner_coldkey : string)
    (encrypted_data key_hash nonce content_hash miner_signature : bytes) (epoch : Z) : EncryptedSubmission :=
  mk_EncryptedSubmission challenge_id miner_hotkey miner_coldkey encrypted_data key_hash nonce
    (compute_submission_hash encrypted_data key_hash nonce) content_hash miner_signature now epoch.

Definition compute_signature_message (content_hash : bytes) (miner_hotkey : string) (epoch : Z) : bytes :=
  content_hash ++ str_bytes miner_hotkey ++ to_le_bytes 8 epoch.

Definition verify_hash (s : EncryptedSubmission) : bool :=
  bool_decide (compute_submission_hash (es_encrypted_data s) (es_key_hash s) (es_nonce s) = es_submission_hash s).

Definition submission_hex (s : EncryptedSubmission) : string := hex_encode (es_submission_hash s).
Definition content_hash_hex (s : EncryptedSubmission) : string := hex_encode (es_content_hash s).
Definition submission_hash_hex (a : SubmissionAck) : string := hex_encode (sa_submission_hash a).

Definition SubmissionAck_new (now : DateTime) (submission_hash : bytes) (validator_hotkey : Hotkey)
    (validator_stake : Z) (signature : bytes) : SubmissionAck :=
  mk_SubmissionAck submission_hash validator_hotkey validator_stake signature now.

Definition DecryptionKeyReveal_new (now : DateTime) (submission_hash decryption_key miner_signature : bytes) :
    DecryptionKeyReveal :=
  mk_DecryptionKeyReveal submission_hash decryption_key miner_signature now.

Definition verify_key_hash (r : DecryptionKeyReveal) (expected_hash : bytes) : bool :=
  bool_decide (sha256 (kr_decryption_key r) = expected_hash).

Definition hash_key (key : bytes) : bytes := sha256 key.
End sealed.

Section cipher.
Context `{Aead}.

(** The nonce has 24 bytes, of which the first twelve are used. *)
Definition encrypt_data (data key nonce : bytes) : result SubmissionError bytes :=
  c ← ok_or (aes_new key) EncryptionFailed;
  ok_or (aes_encrypt c (take 12 nonce) data) EncryptionFailed.

Definition decrypt_data (encrypted key nonce : bytes) : result SubmissionError bytes :=
  if negb (length key =? 32)%nat then Err InvalidKey
  else
    c ← ok_or (aes_new key) DecryptionFailed;
    ok_or (aes_decrypt c (take 12 nonce) encrypted) DecryptionFailed.
End cipher.
End SubmissionTypes.

(** * The database of a challenge *)

Module ChallengeDb.
Record AgentInfo : Type := mk_AgentInfo {
  ai_hash : string;
  ai_name : option string;
  ai_owner : option Hotkey;
  ai_version : option string;
  ai_metadata_json : string;
  ai_submitted_at : DateTime
}.
#[global] Instance AgentInfo_eq_dec : EqDecision AgentInfo.
Proof. solve_decision. Defined.

Definition AgentInfo_new (now : DateTime) (hash : string) : AgentInfo :=
  mk_AgentInfo hash None None None "{}" now.

(** [metadata] and [set_metadata], over a JSON reader and writer. *)
Definition agent_metadata (from_str : string -> option Json) (a : AgentInfo) : Json :=
  default JNull (from_str (ai_metadata_json a)).
Definition set_metadata `{JsonText} (v : Json) (a : AgentInfo) : AgentInfo :=
  mk_AgentInfo (ai_hash a) (ai_name a) (ai_owner a) (ai_version a)
    (match json_to_string v with Ok s => s | Err _ => "" end) (ai_submitted_at a).

Record EvalResult : Type := mk_EvalResult {
  er_job_id : Uuid;
  er_agent_hash : string;
  er_score : f64;
  er_metrics : gmap string f64;
  er_logs : option string;
  er_execution_time_ms : Z;
  er_timestamp : DateTime
}.

Definition EvalResult_new (now : DateTime) (job_id : Uuid) (agent_hash : string) (score : f64) : EvalResult :=
  mk_EvalResult job_id agent_hash (f64_clamp f64_zero f64_one score) ∅ None 0 now.
Definition with_metrics (m : gmap string f64) (r : EvalResult) : EvalResult :=
  mk_EvalResult (er_job_id r) (er_agent_hash r) (er_score r) m (er_logs r) (er_execution_time_ms r) (er_timestamp r).
Definition with_logs (logs : string) (r : EvalResult) : EvalResult :=
  mk_EvalResult (er_job_id r) (er_agent_hash r) (er_score r) (er_metrics r) (Some logs) (er_execution_time_ms r)
    (er_timestamp r).
Definition with_execution_time (ms : Z) (r : EvalResult) : EvalResult :=
  mk_EvalResult (er_job_id r) (er_agent_hash r) (er_score r) (er_metrics r) (er_logs r) ms (er_timestamp r).

(** bincode of the stored records, and the text of an identifier. *)
Class DbCodec : Type := {
  encode_agent : AgentInfo -> result string bytes;
  decode_agent : bytes -> result string AgentInfo;
  encode_result : EvalResult -> result string bytes;
  decode_result : bytes -> result string EvalResult;
  job_text : Uuid -> string
}.

Record ChallengeDatabase : Type := mk_ChallengeDatabase {
  cdb_challenge_id : Uuid;
  cdb_agents : Tree bytes;
  cdb_results : Tree bytes;
  cdb_kv : Tree bytes;
  cdb_meta : Tree bytes
}.

(** Opening: the trees that the directory of the challenge holds, empty for a new
    one. *)
Definition Database_open (challenge_id : Uuid) (agents results kv meta : Tree bytes) : ChallengeDatabase :=
  mk_ChallengeDatabase challenge_id agents results kv meta.

Definition set_agents (t : Tree bytes) (d : ChallengeDatabase) : ChallengeDatabase :=
  mk_ChallengeDatabase (cdb_challenge_id d) t (cdb_results d) (cdb_kv d) (cdb_meta d).
Definition set_results (t : Tree bytes) (d : ChallengeDatabase) : ChallengeDatabase :=
  mk_ChallengeDatabase (cdb_challenge_id d) (cdb_agents d) t (cdb_kv d) (cdb_meta d).
Definition set_kv (t : Tree bytes) (d : ChallengeDatabase) : ChallengeDatabase :=
  mk_ChallengeDatabase (cdb_challenge_id d) (cdb_agents d) (cdb_results d) t (cdb_meta d).
Definition set_meta_tree (t : Tree bytes) (d : ChallengeDatabase) : ChallengeDatabase :=
  mk_ChallengeDatabase (cdb_challenge_id d) (cdb_agents d) (cdb_results d) (cdb_kv d) t.

Definition DbM := SE ChallengeDatabase SdkError.

(** Reading one record, and all records of a list of entries in order. *)
Definition decode_one {A} (decode : bytes -> result string A) (o : option bytes) : result SdkError (option A) :=
  match o with
  | Some b => a ← result_map_err SdkSerialization (decode b); Ok (Some a)
  | None => Ok None
  end.

Fixpoint decode_all {A} (decode : bytes -> result string A) (l : list (bytes * bytes)) : result SdkError (list A) :=
  match l with
  | [] => Ok []
  | x :: l' =>
      a ← result_map_err SdkSerialization (decode x.2);
      rest ← decode_all decode l';
      Ok (a :: rest)
  end.

Section database.
Context `{DbCodec}.

Definition save_agent (agent : AgentInfo) : DbM unit :=
  data ← lift (result_map_err SdkSerialization (encode_agent agent));
  modify (fun d => set_agents (<[str_bytes (ai_hash agent) := data]> (cdb_agents d)) d).

Definition get_agent (hash : string) (d : ChallengeDatabase) : result SdkError (option AgentInfo) :=
  decode_one decode_agent (cdb_agents d !! str_bytes hash).

Definition list_agents (d : ChallengeDatabase) : result SdkError (list AgentInfo) :=
  decode_all decode_agent (tree_iter (cdb_agents d)).

(** The key of a result: [agent_hash:job_id]. *)
Definition result_key (r : EvalResult) : bytes := str_bytes (er_agent_hash r +:+ ":" +:+ job_text (er_job_id r)).

Definition save_result (r : EvalResult) : DbM unit :=
  data ← lift (result_map_err SdkSerialization (encode_result r));
  modify (fun d => set_results (<[result_key r := data]> (cdb_results d)) d).

Definition get_results_for_agent (agent_hash : string) (d : ChallengeDatabase) : result SdkError (list EvalResult) :=
  decode_all decode_result (tree_scan_prefix (str_bytes (agent_hash +:+ ":")) (cdb_results d)).

Definition get_all_results (d : ChallengeDatabase) : result SdkError (list EvalResult) :=
  decode_all decode_result (tree_iter (cdb_results d)).

(** The loop over all results: a result replaces an older one of its agent. *)
Definition keep_latest (latest : gmap string EvalResult) (r : EvalResult) : gmap string EvalResult :=
  match latest !! er_agent_hash r with
  | None => <[er_agent_hash r := r]> latest
  | Some existing =>
      if er_timestamp existing <? er_timestamp r then <[er_agent_hash r := r]> latest else latest
  end.

Definition get_latest_results `{HashOrder string} (d : ChallengeDatabase) : result SdkError (list EvalResult) :=
  all ← get_all_results d;
  Ok (hm_values (fold_left keep_latest all ∅)).

(** Key-value entries of any type with its bincode form. *)
Definition kv_set {T} (encode : T -> result string bytes) (key : string) (value : T) : DbM unit :=
  data ← lift (result_map_err SdkSerialization (encode value));
  modify (fun d => set_kv (<[str_bytes key := data]> (cdb_kv d)) d).

Definition kv_get {T} (decode : bytes -> result string T) (key : string) (d : ChallengeDatabase) :
    result SdkError (option T) :=
  decode_one decode (cdb_kv d !! str_bytes key).

Definition kv_delete (key : string) (d : ChallengeDatabase) : bool * ChallengeDatabase :=
  (bool_decide (is_Some (cdb_kv d !! str_bytes key)), set_kv (delete (str_bytes key) (cdb_kv d)) d).

Definition kv_keys (d : ChallengeDatabase) : list string :=
  omap (fun x => if utf8_valid x.1 then Some (bytes_str x.1) else None) (tree_iter (cdb_kv d)).

Definition set_meta (key value : string) (d : ChallengeDatabase) : ChallengeDatabase :=
  set_meta_tree (<[str_bytes key := str_bytes value]> (cdb_meta d)) d.

Definition get_meta (key : string) (d : ChallengeDatabase) : option string :=
  (fun b => bytes_str (utf8_lossy b)) <$> cdb_meta d !! str_bytes key.

(** The version; none, or one that is not a number, reads as zero. *)
Definition get_version (d : ChallengeDatabase) : Z :=
  default 0 (get_meta "db_version" d ≫= parse_uint (2 ^ 32 - 1)).

Definition set_version (version : Z) (d : ChallengeDatabase) : ChallengeDatabase :=
  set_meta "db_version" (Z_to_string version) d.
End database.
End ChallengeDb.

(** * The server of a challenge *)

Module ChallengeServer.
Record ServerConfig : Type := mk_ServerConfig {
  svc_host : string;
  svc_port : Z;
  svc_max_concurrent : Z;
  svc_timeout_secs : Z;
  svc_cors_enabled : bool
}.

Definition ServerConfig_default : ServerConfig := mk_ServerConfig "0.0.0.0" 8080 4 600 true.

(** [std::env::var(name).ok().and_then(|v| v.parse().ok()).unwrap_or(default)]. *)
Definition env_uint (env : string -> option string) (max : Z) (name : string) (dflt : Z) : Z :=
  default dflt (env name ≫= parse_uint max).

Definition ServerConfig_from_env (env : string -> option string) : ServerConfig :=
  mk_ServerConfig (default "0.0.0.0" (env "CHALLENGE_HOST")) (env_uint env u16_max "CHALLENGE_PORT" 8080)
    (env_uint env u64_max "MAX_CONCURRENT" 4) (env_uint env u64_max "TIMEOUT_SECS" 600) true.

Record EvaluationRequest : Type := mk_EvaluationRequest {
  rq_request_id : string;
  rq_submission_id : string;
  rq_participant_id : string;
  rq_data : Json;
  rq_metadata : option Json;
  rq_epoch : Z;
  rq_deadline : option Z
}.

Record EvaluationResponse : Type := mk_EvaluationResponse {
  rs_request_id : string;
  rs_success : bool;
  rs_error : option string;
  rs_score : f64;
  rs_results : Json;
  rs_execution_time_ms : Z;
  rs_cost : option f64
}.

Definition response_success (request_id : string) (score : f64) (results : Json) : EvaluationResponse :=
  mk_EvaluationResponse request_id true None score results 0 None.
Definition response_error (request_id error : string) : EvaluationResponse :=
  mk_EvaluationResponse request_id false (Some error) f64_zero JNull 0 None.
Definition with_time (ms : Z) (r : EvaluationResponse) : EvaluationResponse :=
  mk_EvaluationResponse (rs_request_id r) (rs_success r) (rs_error r) (rs_score r) (rs_results r) ms (rs_cost r).
Definition with_cost (cost : f64) (r : EvaluationResponse) : EvaluationResponse :=
  mk_EvaluationResponse (rs_request_id r) (rs_success r) (rs_error r) (rs_score r) (rs_results r)
    (rs_execution_time_ms r) (Some cost).

Record ValidationResponse : Type := mk_ValidationResponse {
  vr_valid : bool;
  vr_errors : list string;
  vr_warnings : list string
}.

Record ConfigLimits : Type := mk_ConfigLimits {
  lm_max_submission_size : option Z;
  lm_max_evaluation_time : option Z;
  lm_max_cost : option f64
}.
Definition ConfigLimits_default : ConfigLimits := mk_ConfigLimits None None None.

Record ConfigResponse : Type := mk_ConfigResponse {
  cr_challenge_id : string;
  cr_name : string;
  cr_version : string;
  cr_config_schema : option Json;
  cr_features : list string;
  cr_limits : ConfigLimits
}.

(** The trait [ServerChallenge]. *)
Record ServerChallenge : Type := mk_ServerChallenge {
  sc_challenge_id : string;
  sc_name : string;
  sc_version : string;
  sc_evaluate : EvaluationRequest -> result SdkError EvaluationResponse;
  sc_validate : Json -> result SdkError ValidationResponse;
  sc_config : ConfigResponse
}.

(** The provided methods of the trait. *)
Definition default_validate (data : Json) : result SdkError ValidationResponse :=
  Ok (mk_ValidationResponse true [] []).
Definition default_config (challenge_id name version : string) : ConfigResponse :=
  mk_ConfigResponse challenge_id name version None [] ConfigLimits_default.

Record ServerState : Type := mk_ServerState {
  sv_challenge : ServerChallenge;
  sv_config : ServerConfig;
  sv_started_at : Z;
  sv_pending : Z
}.
Definition set_pending (n : Z) (s : ServerState) : ServerState :=
  mk_ServerState (sv_challenge s) (sv_config s) (sv_started_at s) n.

(** The builder. *)
Record Builder : Type := mk_Builder { bd_challenge : ServerChallenge; bd_config : ServerConfig }.
Definition Builder_new (c : ServerChallenge) : Builder := mk_Builder c ServerConfig_default.
Definition bd_set_config (config : ServerConfig) (b : Builder) : Builder := mk_Builder (bd_challenge b) config.
Definition bd_host (host : string) (b : Builder) : Builder :=
  let c := bd_config b in
  mk_Builder (bd_challenge b)
    (mk_ServerConfig host (svc_port c) (svc_max_concurrent c) (svc_timeout_secs c) (svc_cors_enabled c)).
Definition bd_port (port : Z) (b : Builder) : Builder :=
  let c := bd_config b in
  mk_Builder (bd_challenge b)
    (mk_ServerConfig (svc_host c) port (svc_max_concurrent c) (svc_timeout_secs c) (svc_cors_enabled c)).
Definition bd_from_env (env : string -> option string) (b : Builder) : Builder :=
  mk_Builder (bd_challenge b) (ServerConfig_from_env env).
Definition bd_build (now : Z) (b : Builder) : ServerState := mk_ServerState (bd_challenge b) (bd_config b) now 0.

Definition address (s : ServerState) : string :=
  svc_host (sv_config s) +:+ ":" +:+ Z_to_string (svc_port (sv_config s)).

(** [f64::min]: the other operand when one is NaN. *)
Definition f64_min (a b : f64) : f64 :=
  match a, b with
  | S754_nan, _ => b
  | _, S754_nan => a
  | _, _ => if f64_ltb b a then b else a
  end.

Record SdkHealth : Type := mk_SdkHealth {
  sh_healthy : bool;
  sh_load : f64;
  sh_pending : Z;
  sh_uptime_secs : Z;
  sh_version : string;
  sh_challenge_id : string
}.

Definition health_handler (now : Z) (s : ServerState) : SdkHealth :=
  let load := f64_div (f64_of_Z (sv_pending s)) (f64_of_Z (svc_max_concurrent (sv_config s))) in
  mk_SdkHealth true (f64_min load f64_one) (sv_pending s) ((now - sv_started_at s) / 1000)
    (sc_version (sv_challenge s)) (sc_challenge_id (sv_challenge s)).

Definition config_handler (s : ServerState) : ConfigResponse := sc_config (sv_challenge s).

(** [evaluate_handler] up to the call of the challenge, and from its answer on;
    the counter is a [u32]. *)
Definition evaluate_begin (s : ServerState) : ServerState := set_pending ((sv_pending s + 1) mod 2 ^ 32) s.
Definition evaluate_end (s : ServerState) : ServerState := set_pending (Z.max 0 (sv_pending s - 1)) s.

Definition evaluate_reply (elapsed : Z) (request_id : string) (r : result SdkError EvaluationResponse) :
    Z * EvaluationResponse :=
  match r with
  | Ok response => (200, with_time elapsed response)
  | Err e => (500, with_time elapsed (response_error request_id (SdkError_to_string e)))
  end.

Definition evaluate_handler (elapsed : Z) (request : EvaluationRequest) (s : ServerState) :
    (Z * EvaluationResponse) * ServerState :=
  let s1 := evaluate_begin s in
  let r := sc_evaluate (sv_challenge s1) request in
  (evaluate_reply elapsed (rq_request_id request) r, evaluate_end s1).

Definition validate_handler (data : Json) (s : ServerState) : ValidationResponse :=
  match sc_validate (sv_challenge s) data with
  | Ok response => response
  | Err e => mk_ValidationResponse false [SdkError_to_string e] []
  end.

(** The bodies the server writes: serde's derived JSON. *)
Definition health_json (h : SdkHealth) : Json :=
  JObject [("healthy", JBool (sh_healthy h)); ("load", jf (sh_load h)); ("pending", jn (sh_pending h));
           ("uptime_secs", jn (sh_uptime_secs h)); ("version", js (sh_version h));
           ("challenge_id", js (sh_challenge_id h))].
Definition response_json (r : EvaluationResponse) : Json :=
  JObject [("request_id", js (rs_request_id r)); ("success", JBool (rs_success r)); ("error", jopt js (rs_error r));
           ("score", jf (rs_score r)); ("results", rs_results r); ("execution_time_ms", jn (rs_execution_time_ms r));
           ("cost", jopt jf (rs_cost r))].

(** The requests under way: each has begun and neither ended nor been dropped,
    as it is when its client disconnects. *)
Record ServerRun : Type := mk_ServerRun {
  sr_server : ServerState;
  sr_in_flight : list EvaluationRequest;
  sr_replies : list (Z * EvaluationResponse)
}.

Inductive server_step : ServerRun -> ServerRun -> Prop :=
| step_arrive r req :
    server_step r (mk_ServerRun (evaluate_begin (sr_server r)) (sr_in_flight r ++ [req]) (sr_replies r))
| step_finish r before req after elapsed :
    sr_in_flight r = before ++ req :: after ->
    server_step r (mk_ServerRun (evaluate_end (sr_server r)) (before ++ after)
      (sr_replies r ++ [evaluate_reply elapsed (rq_request_id req)
         (sc_evaluate (sv_challenge (sr_server r)) req)])).

(** A client that disconnects: its handler is dropped where it waits. *)
Inductive server_drop : ServerRun -> ServerRun -> Prop :=
| step_drop r before req after :
    sr_in_flight r = before ++ req :: after ->
    server_drop r (mk_ServerRun (sr_server r) (before ++ after) (sr_replies r)).
End ChallengeServer.

(** * Client and runner in peer-to-peer mode *)

Module P2PClient.
Import ChallengeServer.

Record ValidatorEvaluationResult : Type := mk_ValidatorEvaluationResult {
  ver_validator_hotkey : string;
  ver_score : f64;
  ver_evaluated_at : Z
}.

Record PendingSubmission : Type := mk_PendingSubmission {
  ps_submission_hash : string;
  ps_miner_hotkey : string;
  ps_source_code : string;
  ps_metadata : Json;
  ps_submitted_at : Z
}.

Inductive P2PChallengeMessage : Type :=
| EvaluationResultMsg (challenge_id submission_hash : string) (score : f64) (execution_time_ms : Z) (result_data : Json)
| RequestSubmissions (challenge_id : string) (limit : Z)
| SubmissionsResponse (challenge_id : string) (submissions : list PendingSubmission)
| WeightVoteMsg (challenge_id : string) (epoch : Z) (weights : list (string * f64))
| RequestWeights (challenge_id : string) (epoch : Z)
| WeightsResponse (challenge_id : string) (epoch : Z) (weights : list (string * f64))
| StoreSubmission (challenge_id : string) (submission : PendingSubmission)
| RequestEvaluationStatus (challenge_id submission_hash : string)
| EvaluationStatusResponse (challenge_id submission_hash : string) (evaluations : list ValidatorEvaluationResult)
    (consensus_reached : bool) (final_score : option f64).

(** The two channels: what was sent, whether the other side still receives, what
    has arrived and whether more can come. *)
Record Channels : Type := mk_Channels {
  chn_open : bool;
  chn_sent : list P2PChallengeMessage;
  chn_incoming : list P2PChallengeMessage;
  chn_closed : bool
}.

Record P2PChallengeClient : Type := mk_P2PChallengeClient {
  pc_challenge_id : string;
  pc_validator_hotkey : string
}.

Definition P2PM := SE Channels SdkError.

(** [message_tx.send(msg).await]: an error when the receiver is gone. *)
Definition send (msg : P2PChallengeMessage) (context : string) : P2PM unit := fun c =>
  if chn_open c then (Ok tt, mk_Channels true (chn_sent c ++ [msg]) (chn_incoming c) (chn_closed c))
  else (Err (SdkNetwork (context +:+ ": channel closed")), c).

(** [timeout(30 s, rx.recv()).await]: a message, [None] when the channel is
    closed and empty, a timeout when nothing arrives. *)
Definition recv_timeout (message : string) : P2PM (option P2PChallengeMessage) := fun c =>
  match chn_incoming c with
  | m :: rest => (Ok (Some m), mk_Channels (chn_open c) (chn_sent c) rest (chn_closed c))
  | [] => if chn_closed c then (Ok None, c) else (Err (SdkTimeout message), c)
  end.

Section client.
Context (client : P2PChallengeClient).

Definition submit_evaluation (submission_hash : string) (score : f64) (execution_time_ms : Z) (result_data : Json) :
    P2PM unit :=
  send (EvaluationResultMsg (pc_challenge_id client) submission_hash (f64_clamp f64_zero f64_one score)
    execution_time_ms result_data) "Failed to send evaluation".

Definition get_pending_submissions (limit : Z) : P2PM (list PendingSubmission) :=
  _ ← send (RequestSubmissions (pc_challenge_id client) limit) "Failed to request submissions";
  answer ← recv_timeout "Request submissions timeout";
  match answer with
  | Some (SubmissionsResponse _ submissions) => mret submissions
  | _ => mret []
  end.

Definition vote_weights (epoch : Z) (weights : list (string * f64)) : P2PM unit :=
  send (WeightVoteMsg (pc_challenge_id client) epoch
    ((fun x => (x.1, f64_clamp f64_zero f64_one x.2)) <$> weights)) "Failed to vote weights".

Definition get_weights (epoch : Z) : P2PM (list (string * f64)) :=
  _ ← send (RequestWeights (pc_challenge_id client) epoch) "Failed to request weights";
  answer ← recv_timeout "Request weights timeout";
  match answer with
  | Some (WeightsResponse _ _ weights) => mret weights
  | _ => mret []
  end.

Definition client_store_submission (submission : PendingSubmission) : P2PM unit :=
  send (StoreSubmission (pc_challenge_id client) submission) "Failed to store submission".

Definition get_evaluation_status (submission_hash : string) :
    P2PM (list ValidatorEvaluationResult * option f64) :=
  _ ← send (RequestEvaluationStatus (pc_challenge_id client) submission_hash) "Failed to request status";
  answer ← recv_timeout "Evaluation status timeout";
  match answer with
  | Some (EvaluationStatusResponse _ _ evaluations _ final_score) => mret (evaluations, final_score)
  | _ => mret ([], None)
  end.
End client.

(** ** The runner *)

Section runner.
(** The challenge, the fresh identifier and the measured time of an evaluation. *)
Context (challenge : ServerChallenge) (fresh : PendingSubmission -> string) (elapsed : PendingSubmission -> Z).

(** [json!] of an [i64]. *)
Definition ji (n : Z) : Json := JNumber (if n <? 0 then NegInt n else PosInt n).

Definition submission_request (s : PendingSubmission) : EvaluationRequest :=
  mk_EvaluationRequest (fresh s) (ps_submission_hash s) (ps_miner_hotkey s)
    (JObject [("source_code", js (ps_source_code s)); ("metadata", ps_metadata s)])
    (Some (JObject [("submitted_at", ji (ps_submitted_at s)); ("p2p_mode", JBool true)]))
    0 None.

Definition evaluate_submission (challenge_id : string) (s : PendingSubmission) : P2PM unit :=
  match sc_evaluate challenge (submission_request s) with
  | Ok resp =>
      send (EvaluationResultMsg challenge_id (ps_submission_hash s) (rs_score resp) (elapsed s) (rs_results resp))
        "Failed to send evaluation result"
  | Err e =>
      send (EvaluationResultMsg challenge_id (ps_submission_hash s) f64_zero (elapsed s)
        (JObject [("error", js (SdkError_to_string e)); ("success", JBool false)]))
        "Failed to send error result"
  end.

(** The loop over a batch: an error is logged and the loop goes on. *)
Definition evaluate_batch (challenge_id : string) (l : list PendingSubmission) (c : Channels) : Channels :=
  fold_left (fun c s => (evaluate_submission challenge_id s c).2) l c.

Definition runner_message (challenge_id : string) (msg : P2PChallengeMessage) (c : Channels) : Channels :=
  match msg with
  | SubmissionsResponse msg_challenge_id submissions =>
      if negb (bool_decide (msg_challenge_id = challenge_id)) then c else evaluate_batch challenge_id submissions c
  | EvaluationResultMsg _ _ _ _ _ | RequestSubmissions _ _ | WeightVoteMsg _ _ _ | RequestWeights _ _
  | WeightsResponse _ _ _ | StoreSubmission _ _ | RequestEvaluationStatus _ _
  | EvaluationStatusResponse _ _ _ _ _ => c
  end.

(** [while let Some(msg) = message_rx.recv().await], until the channel is closed
    after the given messages. *)
Definition run_decentralized (messages : list P2PChallengeMessage) (c : Channels) : result SdkError unit * Channels :=
  let challenge_id := sc_challenge_id challenge in
  (Ok tt, fold_left (fun c m => runner_message challenge_id m c) messages c).
End runner.
End P2PClient.
