(* ===== verification/ChallengeSdkProps.v ===== *)
(** * What the challenge SDK guarantees

    Sealed submissions open with the revealed key and bind what they hash; the
    database of a challenge holds the last record saved under each key and finds
    the newest result of every agent; the server counts the requests under way,
    which its limit does not bound; the runner answers every submission of its
    challenge once.  With the orchestrator: its monitor accepts any server of the
    SDK, and its evaluator reaches the challenge behind one. *)

From Stdlib Require Import SpecFloat.
From S2P Require Import Prelude Float64 FloatOrder Crypto RustStrings RustBytes CoreTypes Submission JsonRpc Orchestrator ChallengeSdk.
Import SubmissionTypes ChallengeDb ChallengeServer P2PClient.

(** ** Sealed submissions *)

Section sealed.
Context `{Ext : External} `{AE : Aead}.

(** Sealing and opening: what a miner encrypts under a key and submits with
    the hash of the key verifies, the key it reveals later matches, decrypting
    with it gives the data back, and the content hash is the one signed. *)
Theorem sealed_submission_opens `{!AeadLaws} now now' challenge hotkey coldkey data key nonce sig sig' epoch enc :
  encrypt_data data key nonce = Ok enc -> length key = 32%nat ->
  let s := EncryptedSubmission_new now challenge hotkey coldkey enc (hash_key key) nonce
             (compute_content_hash data) sig epoch in
  let r := DecryptionKeyReveal_new now' (es_submission_hash s) key sig' in
  verify_hash s = true /\ verify_key_hash r (es_key_hash s) = true /\
  exists opened,
    decrypt_data (es_encrypted_data s) (kr_decryption_key r) (es_nonce s) = Ok opened /\
    opened = data /\ compute_content_hash opened = es_content_hash s.
Proof.
  intros Henc Hlen s r. split_and!; [by apply bool_decide_eq_true_2..|]. exists data. split_and!; [|done..].
  unfold decrypt_data. subst s r. cbn. rewrite Hlen. cbn. revert Henc. unfold encrypt_data.
  destruct (aes_new key) as [c|]; [|done]. cbn.
  destruct (aes_encrypt c (take 12 nonce) data) as [x|] eqn:Hx; [|done]. intros [= ->].
  by rewrite (aes_decrypt_encrypt _ _ _ _ Hx).
Qed.

Lemma to_le_bytes_inj k a b :
  0 <= a < 256 ^ Z.of_nat k -> 0 <= b < 256 ^ Z.of_nat k -> to_le_bytes k a = to_le_bytes k b -> a = b.
Proof.
  revert a b. induction k as [|k IH]; intros a b; [cbn; lia|].
  rewrite Nat2Z.inj_succ, Z.pow_succ_r by lia. cbn [to_le_bytes]. intros Ha Hb [= Hm Hq].
  apply IH in Hq; [|split; [apply Z.div_pos; lia | apply Z.div_lt_upper_bound; lia]..].
  rewrite (Z.div_mod a 256), (Z.div_mod b 256) by lia. by rewrite Hm, Hq.
Qed.

(** The message a miner signs determines the content hash, the hotkey and the
    epoch: signatures cannot be moved between submissions. *)
Theorem signature_message_binds h1 h2 miner1 miner2 e1 e2 :
  length h1 = 32%nat -> length h2 = 32%nat -> is_u64 e1 -> is_u64 e2 ->
  compute_signature_message h1 miner1 e1 = compute_signature_message h2 miner2 e2 ->
  h1 = h2 /\ miner1 = miner2 /\ e1 = e2.
Proof.
  unfold compute_signature_message, is_u64. intros H1 H2 He1 He2 Heq.
  apply app_inj_1 in Heq as [-> Heq]; [|by rewrite H1, H2].
  apply app_inj_2 in Heq as [->%str_bytes_inj Heq]; [|by rewrite !length_to_le_bytes].
  split_and!; [done..|]. by apply (to_le_bytes_inj 8).
Qed.

(** Two submissions with the same hash have the same encrypted data, key hash
    and nonce, or show a collision of SHA-256; the hash covers nothing else, so
    it stays valid under any other challenge, miner, content hash and epoch. *)
Theorem submission_hash_binds s1 s2 challenge hotkey coldkey content sig now epoch :
  length (es_key_hash s1) = 32%nat -> length (es_key_hash s2) = 32%nat ->
  length (es_nonce s1) = 24%nat -> length (es_nonce s2) = 24%nat ->
  verify_hash s1 = true -> verify_hash s2 = true -> es_submission_hash s1 = es_submission_hash s2 ->
  ((es_encrypted_data s1 = es_encrypted_data s2 /\ es_key_hash s1 = es_key_hash s2 /\ es_nonce s1 = es_nonce s2) \/
   exists x y, x <> y /\ sha256 x = sha256 y) /\
  verify_hash (mk_EncryptedSubmission challenge hotkey coldkey (es_encrypted_data s1) (es_key_hash s1) (es_nonce s1)
    (es_submission_hash s1) content sig now epoch) = true.
Proof.
  intros Hk1 Hk2 Hn1 Hn2 Hv1 Hv2 Heq. split; [|exact Hv1].
  unfold verify_hash in Hv1, Hv2. apply bool_decide_eq_true in Hv1, Hv2. rewrite <- Hv1, <- Hv2 in Heq.
  unfold compute_submission_hash in Heq.
  destruct (decide (es_encrypted_data s1 ++ es_key_hash s1 ++ es_nonce s1 =
                    es_encrypted_data s2 ++ es_key_hash s2 ++ es_nonce s2)) as [Hsame|Hne]; [left|right; eauto].
  apply app_inj_2 in Hsame as [? Hsame]; [|rewrite !length_app; lia].
  apply app_inj_1 in Hsame as [??]; [done|lia].
Qed.

(** Only the first twelve of the 24 bytes of a nonce take part: nonces that
    share them encrypt and decrypt alike. *)
Theorem nonce_tail_ignored nonce nonce' :
  take 12 nonce = take 12 nonce' ->
  (forall data key, encrypt_data data key nonce = encrypt_data data key nonce') /\
  (forall data key, decrypt_data data key nonce = decrypt_data data key nonce').
Proof. intros Heq. unfold encrypt_data, decrypt_data. by rewrite Heq. Qed.
End sealed.

(** ** The database *)

(** The documented behaviour of bincode: what is serialized is read back. *)
Class DbCodecLaws `{DbCodec} : Prop := {
  decode_encode_agent : forall a b, encode_agent a = Ok b -> decode_agent b = Ok a;
  decode_encode_result : forall r b, encode_result r = Ok b -> decode_result b = Ok r
}.

(** A tree of bytes holds the records of a map when its entries decode to them. *)
Definition holds {A} (decode : bytes -> result string A) (t : Tree bytes) (m : gmap bytes A) : Prop :=
  forall k, match t !! k with
            | Some b => exists a, decode b = Ok a /\ m !! k = Some a
            | None => m !! k = None
            end.

Section trees.
Context {A : Type} (decode : bytes -> result string A).
Implicit Types (t : Tree bytes) (m : gmap bytes A).

Lemma holds_empty : holds decode ∅ ∅.
Proof. intros k. by rewrite !lookup_empty. Qed.

Lemma holds_save t m k b a : decode b = Ok a -> holds decode t m -> holds decode (<[k := b]> t) (<[k := a]> m).
Proof.
  intros Hd Hm k'. destruct (decide (k' = k)) as [->|Hne].
  - rewrite !lookup_insert_eq. eauto.
  - rewrite !lookup_insert_ne by done. apply Hm.
Qed.

Lemma holds_one t m k : holds decode t m -> decode_one decode (t !! k) = Ok (m !! k).
Proof.
  intros Hm. specialize (Hm k). destruct (t !! k) as [b|]; cbn; [|by rewrite Hm].
  destruct Hm as (a & Hd & ->). by rewrite Hd.
Qed.

(** Entries in order that decode one by one. *)
Lemma decode_all_Forall2 l (l' : list (bytes * A)) :
  Forall2 (fun x y => x.1 = y.1 /\ decode x.2 = Ok y.2) l l' -> decode_all decode l = Ok l'.*2.
Proof. induction 1 as [|x y l l' [_ Hd] _ IH]; [done|]. cbn. rewrite Hd. cbn. rewrite IH. done. Qed.

Lemma sorted_Forall2 (l : list (bytes * bytes)) (l' : list (bytes * A)) :
  StronglySorted key_lt l -> StronglySorted key_lt l' ->
  (forall k b, (k, b) ∈ l -> exists a, decode b = Ok a /\ (k, a) ∈ l') ->
  (forall k a, (k, a) ∈ l' -> exists b, decode b = Ok a /\ (k, b) ∈ l) ->
  Forall2 (fun x y => x.1 = y.1 /\ decode x.2 = Ok y.2) l l'.
Proof.
  intros Hs. revert l'. induction Hs as [|[k b] l Hs IH Hall]; intros l' Hs' H1 H2.
  { destruct l' as [|[k a] l']; [constructor|]. destruct (H2 k a) as (b & _ & []%elem_of_nil). left. }
  destruct Hs' as [|[k' a'] l' Hs' Hall'].
  { destruct (H1 k b) as (a & _ & []%elem_of_nil). left. }
  rewrite list.Forall_forall in Hall. rewrite list.Forall_forall in Hall'.
  destruct (H1 k b ltac:(left)) as (a & Hd & Hin). destruct (H2 k' a' ltac:(left)) as (b' & Hd' & Hin').
  assert (Hk : k = k').
  { apply elem_of_cons in Hin as [[= -> _]|Hin]; [done|]. apply elem_of_cons in Hin' as [[= -> _]|Hin']; [done|].
    specialize (Hall _ Hin'). specialize (Hall' _ Hin). unfold key_lt in Hall, Hall'. cbn in Hall, Hall'.
    destruct (bytes_lt_irrefl k). by etrans. }
  subst k'.
  assert (Hnot : forall x, (k, x) ∉ l).
  { intros x Hx. apply (bytes_lt_irrefl k), (Hall _ Hx). }
  assert (Hnot' : forall x, (k, x) ∉ l').
  { intros x Hx. apply (bytes_lt_irrefl k), (Hall' _ Hx). }
  assert (a = a') as ->.
  { apply elem_of_cons in Hin as [[= ->]|Hin]; [done|]. by destruct (Hnot' a). }
  constructor; [done|]. apply IH; [done|..].
  - intros k1 b1 Hb1. destruct (H1 k1 b1) as (a1 & Hd1 & Ha1); [by right|]. exists a1. split; [done|].
    apply elem_of_cons in Ha1 as [[= -> ->]|Ha1]; [|done]. by destruct (Hnot b1).
  - intros k1 a1 Ha1. destruct (H2 k1 a1) as (b1 & Hd1 & Hb1); [by right|]. exists b1. split; [done|].
    apply elem_of_cons in Hb1 as [[= -> ->]|Hb1]; [|done]. by destruct (Hnot' a1).
Qed.

Lemma holds_iter t m : holds decode t m -> decode_all decode (tree_iter t) = Ok (tree_iter m).*2.
Proof.
  intros Hm. apply decode_all_Forall2, sorted_Forall2; [apply tree_iter_sorted..| |]; intros k x Hx%elem_of_tree_iter;
    specialize (Hm k).
  - rewrite Hx in Hm. destruct Hm as (a & Hd & Ha). exists a. by rewrite elem_of_tree_iter.
  - destruct (t !! k) as [b|] eqn:Hb; [|congruence]. destruct Hm as (a & Hd & Ha). simplify_eq. exists b.
    by rewrite elem_of_tree_iter.
Qed.

Lemma holds_scan t m p : holds decode t m -> decode_all decode (tree_scan_prefix p t) = Ok (tree_scan_prefix p m).*2.
Proof.
  intros Hm. apply decode_all_Forall2, sorted_Forall2; [apply tree_scan_prefix_sorted..| |];
    intros k x [Hx Hp]%elem_of_tree_scan_prefix; specialize (Hm k).
  - rewrite Hx in Hm. destruct Hm as (a & Hd & Ha). exists a. by rewrite elem_of_tree_scan_prefix.
  - destruct (t !! k) as [b|] eqn:Hb; [|congruence]. destruct Hm as (a & Hd & Ha). simplify_eq. exists b.
    by rewrite elem_of_tree_scan_prefix.
Qed.
End trees.

(** Inserting records one by one keeps the last of each key. *)
Definition insert_all {K A} `{Countable K} (key : A -> K) (l : list A) : gmap K A :=
  fold_left (fun m x => <[key x := x]> m) l ∅.

Lemma lookup_insert_all {K A} `{Countable K} (key : A -> K) (l : list A) k :
  insert_all key l !! k = List.find (fun x => bool_decide (key x = k)) (reverse l).
Proof.
  unfold insert_all. induction l as [|x l IH] using rev_ind; [apply lookup_empty|].
  rewrite fold_left_app, reverse_snoc. cbn [fold_left List.find]. case_bool_decide as Hk.
  - by rewrite Hk, lookup_insert_eq.
  - by rewrite lookup_insert_ne, IH.
Qed.

Lemma find_ext {A} (f g : A -> bool) l : (forall x, x ∈ l -> f x = g x) -> List.find f l = List.find g l.
Proof.
  intros Heq. induction l as [|x l IH]; [done|]. cbn [List.find]. rewrite (Heq x) by left.
  rewrite IH; [done|]. intros y Hy. apply Heq. by right.
Qed.

Section database.
Context `{DC : DbCodec}.

(** Saving agents and results, in any order. *)
Inductive DbOp : Type := SaveAgent (a : AgentInfo) | SaveResult (r : EvalResult).

Definition run_op (d : ChallengeDatabase) (op : DbOp) : ChallengeDatabase :=
  match op with SaveAgent a => (save_agent a d).2 | SaveResult r => (save_result r d).2 end.

Definition agents_of : list DbOp -> list AgentInfo :=
  omap (fun op => match op with SaveAgent a => Some a | SaveResult _ => None end).
Definition results_of : list DbOp -> list EvalResult :=
  omap (fun op => match op with SaveResult r => Some r | SaveAgent _ => None end).

(** A hash without a colon, which separates it from the job in a key. *)
Definition plain_hash (h : string) : Prop := 58 ∉ str_bytes h.
#[global] Instance plain_hash_dec h : Decision (plain_hash h).
Proof. unfold plain_hash. apply _. Defined.

Definition storable (op : DbOp) : Prop :=
  match op with
  | SaveAgent a => is_ok (encode_agent a) = true
  | SaveResult r => is_ok (encode_result r) = true /\ plain_hash (er_agent_hash r)
  end.

#[global] Instance storable_dec op : Decision (storable op).
Proof. destruct op; cbn; apply _. Defined.

(** The result saved last for an agent and a job. *)
Definition last_result (ops : list DbOp) (agent : string) (job : Uuid) : option EvalResult :=
  List.find (fun r => bool_decide (er_agent_hash r = agent) && bool_decide (er_job_id r = job)) (reverse (results_of ops)).

Lemma run_ops_hold `{!DbCodecLaws} ops d0 :
  Forall storable ops -> cdb_agents d0 = ∅ -> cdb_results d0 = ∅ ->
  let d := fold_left run_op ops d0 in
  holds decode_agent (cdb_agents d) (insert_all (fun a => str_bytes (ai_hash a)) (agents_of ops)) /\
  holds decode_result (cdb_results d) (insert_all result_key (results_of ops)).
Proof.
  intros Hok Ha Hr. induction ops as [|op ops IH] using rev_ind.
  { cbn. rewrite Ha, Hr. split; apply holds_empty. }
  apply Forall_app in Hok as [Hops Hop]. rewrite list.Forall_singleton in Hop. specialize (IH Hops).
  cbn zeta. rewrite fold_left_app. unfold agents_of, results_of in *. rewrite !omap_app. cbn [fold_left].
  set (d := fold_left run_op ops d0) in *. destruct IH as [IHa IHr].
  destruct op as [a|r]; cbn [omap list_omap run_op]; rewrite app_nil_r; unfold insert_all in *;
    rewrite ?fold_left_app; cbn [fold_left].
  - unfold save_agent. cbn [storable] in Hop. cbn. revert Hop; destruct (encode_agent a) as [b|] eqn:Hb; intros Hop; [|done]. cbn. split; [|done].
    apply holds_save; [by apply decode_encode_agent | done].
  - destruct Hop as [Hop _]. unfold save_result. cbn. revert Hop; destruct (encode_result r) as [b|] eqn:Hb; intros Hop; [|done]. cbn.
    split; [done|]. apply holds_save; [by apply decode_encode_result | done].
Qed.

Lemma result_key_split r : result_key r = str_bytes (er_agent_hash r) ++ 58 :: str_bytes (job_text (er_job_id r)).
Proof. unfold result_key. by rewrite !str_bytes_app. Qed.

Lemma storable_results ops : Forall storable ops -> Forall (fun r => plain_hash (er_agent_hash r)) (results_of ops).
Proof.
  intros Hok. rewrite list.Forall_forall in Hok. rewrite list.Forall_forall. intros r (op & Hop & Hr)%list_elem_of_omap.
  specialize (Hok op Hop). destruct op; simplify_eq/=. tauto.
Qed.

(** With plain hashes the key of a result determines agent and job. *)
Lemma result_key_eq `{!Inj (=) (=) job_text} r agent job :
  plain_hash (er_agent_hash r) -> plain_hash agent ->
  result_key r = str_bytes agent ++ 58 :: str_bytes (job_text job) <-> er_agent_hash r = agent /\ er_job_id r = job.
Proof.
  intros Hr Ha. rewrite result_key_split. split.
  - intros [->%str_bytes_inj Hj%str_bytes_inj]%app_sep_inj; [|done..]. split; [done|]. by apply (inj job_text).
  - by intros [-> ->].
Qed.

(** The entries of an agent: each under the key of its agent and job. *)
Lemma agent_entry ops agent k r :
  Forall storable ops -> plain_hash agent ->
  (k, r) ∈ tree_scan_prefix (str_bytes (agent +:+ ":")) (insert_all result_key (results_of ops)) ->
  er_agent_hash r = agent /\ k = str_bytes agent ++ 58 :: str_bytes (job_text (er_job_id r)) /\
  insert_all result_key (results_of ops) !! k = Some r.
Proof.
  intros Hok Hagent [Hr [rest Hk]]%elem_of_tree_scan_prefix. pose proof (storable_results ops Hok) as Hplain.
  rewrite list.Forall_forall in Hplain. pose proof Hr as Hf. rewrite lookup_insert_all in Hf.
  apply find_some in Hf as [Hin Hkey%bool_decide_eq_true]. rewrite <- list_elem_of_In, elem_of_reverse in Hin.
  rewrite str_bytes_app, <- app_assoc, <- Hkey, result_key_split in Hk. cbn in Hk.
  apply app_sep_inj in Hk as [Hag%str_bytes_inj _]; [|by apply Hplain|done].
  split_and!; [done| |done]. by rewrite <- Hkey, result_key_split, Hag.
Qed.

Lemma sorted_keys_NoDup {V} (l : list (bytes * V)) : StronglySorted key_lt l -> NoDup l.*1.
Proof.
  induction 1 as [|x l Hs IH Hall]; [constructor|]. rewrite fmap_cons. constructor; [|done].
  rewrite list.Forall_forall in Hall. intros (y & Heq & Hy)%list_elem_of_fmap. specialize (Hall y Hy).
  unfold key_lt in Hall. rewrite Heq in Hall. by apply bytes_lt_irrefl in Hall.
Qed.

(** C40. A new database of a challenge holds what was saved last: after any saves
    of agents and results that serialise, the results under agent hashes without a
    colon, an agent is found as it was saved last, and the results of an agent
    whose hash has no colon are, one per job, those saved last.  A colon in a hash
    mixes the results of two agents ([results_mix_agents]). *)
Theorem saved_records_found `{!DbCodecLaws} `{!Inj (=) (=) job_text} id ops agent :
  Forall storable ops -> plain_hash agent ->
  let d := fold_left run_op ops (Database_open id ∅ ∅ ∅ ∅) in
  (forall h, get_agent h d = Ok (List.find (fun a => bool_decide (ai_hash a = h)) (reverse (agents_of ops)))) /\
  exists l, get_results_for_agent agent d = Ok l /\ NoDup (er_job_id <$> l) /\
    (forall r, r ∈ l <-> er_agent_hash r = agent /\ last_result ops agent (er_job_id r) = Some r).
Proof.
  intros Hok Hagent d. destruct (run_ops_hold ops (Database_open id ∅ ∅ ∅ ∅) Hok eq_refl eq_refl) as [Ha Hr]. fold d in Ha, Hr.
  split.
  { intros h. unfold get_agent. rewrite (holds_one _ _ _ _ Ha), lookup_insert_all. f_equal. apply find_ext.
    intros a _. apply bool_decide_ext. split; [apply str_bytes_inj | by intros ->]. }
  eexists. split; [apply (holds_scan _ _ _ _ Hr)|]. pose proof (storable_results ops Hok) as Hplain.
  rewrite list.Forall_forall in Hplain.
  assert (Hfind : forall job, insert_all result_key (results_of ops) !! (str_bytes agent ++ 58 :: str_bytes (job_text job)) =
            last_result ops agent job).
  { intros job. rewrite lookup_insert_all. unfold last_result. apply find_ext. intros x Hx. rewrite elem_of_reverse in Hx.
    rewrite <- bool_decide_and. apply bool_decide_ext. apply result_key_eq; [by apply Hplain | done]. }
  split.
  - apply (NoDup_fmap_1 (fun job => str_bytes agent ++ 58 :: str_bytes (job_text job))).
    match goal with |- NoDup ?keys => replace keys with
      (tree_scan_prefix (str_bytes (agent +:+ ":")) (insert_all result_key (results_of ops))).*1 end;
      [apply sorted_keys_NoDup, tree_scan_prefix_sorted|].
    rewrite <- !list_fmap_compose. apply list_fmap_ext. intros i [k r] Hi%list_elem_of_lookup_2. cbn.
    by destruct (agent_entry ops agent k r Hok Hagent Hi) as (_ & -> & _).
  - intros r. rewrite list_elem_of_fmap. split.
    + intros ([k x] & -> & Hx). cbn [snd]. destruct (agent_entry ops agent k x Hok Hagent Hx) as (Hag & -> & Hl).
      by rewrite <- Hfind.
    + intros [Hag Hlast]. exists (result_key r, r). split; [done|]. apply elem_of_tree_scan_prefix. rewrite <- Hfind in Hlast.
      rewrite result_key_split, Hag. split; [done|]. eexists. rewrite str_bytes_app, <- app_assoc. reflexivity.
Qed.

(** What the loop over the results keeps. *)
Definition newest_of (all : list EvalResult) (m : gmap string EvalResult) : Prop :=
  (forall h r, m !! h = Some r -> er_agent_hash r = h /\ r ∈ all /\
     (forall r', r' ∈ all -> er_agent_hash r' = h -> er_timestamp r' <= er_timestamp r)) /\
  (forall r, r ∈ all -> is_Some (m !! er_agent_hash r)).

Lemma keep_latest_newest all m r : newest_of all m -> newest_of (all ++ [r]) (keep_latest m r).
Proof.
  intros [Hm Hall]. unfold keep_latest.
  assert (Hnew : (forall r', r' ∈ all -> er_agent_hash r' = er_agent_hash r -> er_timestamp r' <= er_timestamp r) ->
            newest_of (all ++ [r]) (<[er_agent_hash r := r]> m)).
  { intros Hle. split.
    - intros h x. rewrite lookup_insert_Some. intros [[<- <-]|[Hne Hx]].
      + split_and!; [done|apply elem_of_app; right; by left|]. intros r' [?| ->%list_elem_of_singleton]%elem_of_app ?; [auto|lia].
      + destruct (Hm h x Hx) as (? & ? & Hmax). split_and!; [done|by apply elem_of_app; left|].
        intros r' [?| ->%list_elem_of_singleton]%elem_of_app ?; [auto|done].
    - intros x [Hx| ->%list_elem_of_singleton]%elem_of_app; [|rewrite lookup_insert_eq; eauto].
      destruct (decide (er_agent_hash x = er_agent_hash r)) as [->|Hne]; [rewrite lookup_insert_eq; eauto|].
      rewrite lookup_insert_ne; auto. }
  destruct (m !! er_agent_hash r) as [x|] eqn:Hx.
  - destruct (Hm _ x Hx) as (Hag & Hin & Hmax). destruct (Z.ltb_spec (er_timestamp x) (er_timestamp r)) as [Hlt|Hge].
    + apply Hnew. intros r' Hr' Hag'. specialize (Hmax r' Hr' Hag'). lia.
    + split.
      * intros h y Hy. destruct (Hm h y Hy) as (? & ? & Hmax'). split_and!; [done|by apply elem_of_app; left|].
        intros r' [?| ->%list_elem_of_singleton]%elem_of_app Hag'; [auto|].
        rewrite <- Hag', Hx in Hy. simplify_eq. lia.
      * intros y [Hy| ->%list_elem_of_singleton]%elem_of_app; [auto|eauto].
  - apply Hnew. intros r' Hr' Hag'. destruct (Hall r' Hr') as [y Hy]. congruence.
Qed.

Lemma latest_newest all : newest_of all (fold_left keep_latest all ∅).
Proof.
  induction all as [|r all IH] using rev_ind.
  - split; [intros h r Hr; cbn in Hr; by rewrite lookup_empty in Hr | intros r []%elem_of_nil].
  - rewrite fold_left_app. by apply keep_latest_newest.
Qed.

(** The latest results are one per agent that has any: a stored result of
    that agent that none of its stored results is newer than. *)
Theorem latest_results_spec `{HashOrder string} d all :
  get_all_results d = Ok all ->
  exists l, get_latest_results d = Ok l /\ NoDup (er_agent_hash <$> l) /\
    (forall h, h ∈ er_agent_hash <$> l <-> h ∈ er_agent_hash <$> all) /\
    (forall r, r ∈ l -> r ∈ all /\
       forall r', r' ∈ all -> er_agent_hash r' = er_agent_hash r -> er_timestamp r' <= er_timestamp r).
Proof.
  intros Hall. unfold get_latest_results. rewrite Hall. eexists. split; [reflexivity|].
  destruct (latest_newest all) as [Hm Hin]. set (m := fold_left keep_latest all ∅) in *.
  assert (Hkeys : er_agent_hash <$> hm_values m = hm_keys m).
  { rewrite <- fst_hm_iter. unfold hm_values. rewrite <- list_fmap_compose. apply list_fmap_ext.
    intros i [k r] Hi. apply list_elem_of_lookup_2, elem_of_hm_iter in Hi. cbn. by destruct (Hm k r Hi). }
  rewrite Hkeys. split_and!; [apply hm_keys_NoDup| |].
  - intros h. rewrite elem_of_hm_keys, list_elem_of_fmap. split.
    + intros [r Hr]. destruct (Hm h r Hr) as (<- & ? & _). eauto.
    + intros (r & -> & Hr). by apply Hin.
  - intros r ([k x] & -> & Hx%elem_of_hm_iter)%list_elem_of_fmap. cbn [snd]. destruct (Hm k x Hx) as (<- & ? & ?). auto.
Qed.
End database.

(** ** The server *)

Section server.

(** The requests under way are counted, as long as the counter does not wrap. *)
Definition counted (r : ServerRun) : Prop := sv_pending (sr_server r) = Z.of_nat (length (sr_in_flight r)).

Lemma server_step_counts r r' extra :
  server_step r r' -> 0 <= extra -> Z.of_nat (length (sr_in_flight r)) + extra < 2 ^ 32 - 1 ->
  sv_pending (sr_server r) = Z.of_nat (length (sr_in_flight r)) + extra ->
  sv_pending (sr_server r') = Z.of_nat (length (sr_in_flight r')) + extra /\
  (length (sr_in_flight r') <= S (length (sr_in_flight r)))%nat.
Proof.
  intros Hstep Hex Hb Hp. destruct Hstep as [r req|r before req after t Hf]; cbn.
  - rewrite Hp, length_app. cbn. rewrite Z.mod_small by lia. lia.
  - rewrite Hp, Hf, !length_app. cbn. lia.
Qed.

Lemma server_steps_count n r r' extra :
  nsteps server_step n r r' -> 0 <= extra ->
  Z.of_nat (length (sr_in_flight r)) + Z.of_nat n + extra < 2 ^ 32 - 1 ->
  sv_pending (sr_server r) = Z.of_nat (length (sr_in_flight r)) + extra ->
  sv_pending (sr_server r') = Z.of_nat (length (sr_in_flight r')) + extra.
Proof.
  intros Hs Hex. induction Hs as [r|n r r1 r2 Hstep Hs IH]; [done|]. intros Hb Hp.
  destruct (server_step_counts r r1 extra Hstep) as [Hp1 Hl]; [lia..|]. apply IH; lia.
Qed.

(** Whatever requests arrive and in whatever order they finish, the pending
    count of a server is the number of evaluations under way, so it is zero
    again when all have finished. *)
Theorem pending_counts_requests c now n r :
  nsteps server_step n (mk_ServerRun (bd_build now c) [] []) r -> Z.of_nat n < 2 ^ 32 - 1 ->
  sv_pending (sr_server r) = Z.of_nat (length (sr_in_flight r)).
Proof.
  intros Hs Hn. rewrite <- (Z.add_0_r (Z.of_nat _)). eapply server_steps_count; [exact Hs|lia|cbn; lia|done].
Qed.

(** A client that disconnects during its evaluation is counted for good: from
    then on the pending count is one more than the evaluations under way. *)
Theorem dropped_request_stays_pending r r1 n r2 :
  counted r -> server_drop r r1 -> nsteps server_step n r1 r2 ->
  Z.of_nat (length (sr_in_flight r)) + Z.of_nat n < 2 ^ 32 - 1 ->
  sv_pending (sr_server r2) = Z.of_nat (length (sr_in_flight r2)) + 1.
Proof.
  unfold counted. intros Hc Hd Hs Hb. destruct Hd as [r before req after Hf]. rewrite Hf, length_app in Hc, Hb.
  cbn in Hc, Hb. eapply server_steps_count; [exact Hs|lia|..]; cbn; rewrite length_app; lia.
Qed.

(** The configured maximum of concurrent evaluations does not hold back any
    request: every number of evaluations can be under way at once. *)
Theorem concurrency_not_limited b now reqs :
  exists r, rtc server_step (mk_ServerRun (bd_build now b) [] []) r /\ sr_in_flight r = reqs.
Proof.
  induction reqs as [|req reqs (r & Hr & Heq)] using rev_ind; [by eexists|].
  eexists. split; [eapply rtc_r; [exact Hr|apply (step_arrive r req)]|]. cbn. by rewrite Heq.
Qed.

Lemma f64_min_le a b : is_nan b = false -> f64_le (f64_min a b) b.
Proof.
  intros Hb. assert (Hrefl : f64_le b b) by (apply f64_le_lex; [done..|unfold lex_lt; lia]).
  destruct a eqn:Ha; cbn [f64_min]; try exact Hrefl; destruct b eqn:Hbb; try done;
    rewrite <- Ha, <- Hbb in *; match goal with |- context [if ?c then _ else _] => destruct c eqn:Hc end;
    first [exact Hrefl | exact Hc].
Qed.

(** The orchestrator's monitor takes any server of the SDK that answers for a
    running one, whatever its load: the health report has no [status], and its
    [healthy] and [load] are not looked at. *)
Theorem monitor_accepts_server http i text now s :
  http (health_url i) = Ok (mk_HttpResponse 200 text (Ok (health_json (health_handler now s)))) ->
  verdict http i = CsRunning /\ f64_le (sh_load (health_handler now s)) f64_one.
Proof.
  intros Hhttp. split.
  - unfold verdict, check_container_health. rewrite Hhttp. reflexivity.
  - by apply f64_min_le.
Qed.

(** From the validator to the challenge and back: when the challenge's own
    server answers the evaluator's request, a running challenge's answer comes
    back as it is, up to the measured time, and an error of the challenge is an
    error with status 500; either way the server's pending count is as before. *)
Theorem evaluation_end_to_end http m id i body timeout req elapsed s text :
  m !! id = Some i -> ci_status i = CsRunning -> 0 <= sv_pending s < 2 ^ 32 - 1 ->
  let '((status, response), s') := evaluate_handler elapsed req s in
  http (mk_Outgoing "POST" (ci_endpoint i +:+ "/evaluate") (Some body) (default 3600 timeout)) =
    Ok (mk_HttpResponse status text (Ok (response_json response))) ->
  evaluate_generic http m id body timeout =
    match sc_evaluate (sv_challenge s) req with
    | Ok r => Ok (response_json (with_time elapsed r))
    | Err _ => Err (ChallengeError 500 text)
    end /\ sv_pending s' = sv_pending s.
Proof.
  intros Hi Hst Hp. unfold evaluate_handler, evaluate_reply. cbn [evaluate_begin set_pending sv_challenge].
  destruct (sc_evaluate (sv_challenge s) req) as [r|e]; intros Hhttp;
    (split; [|cbn; rewrite Z.mod_small by lia; lia]);
    unfold evaluate_generic, ready_instance, instance_of; rewrite Hi; cbn [ok_or mbind result_bind];
    rewrite bool_decide_eq_true_2 by done; cbn [mbind result_bind]; unfold forward; rewrite Hhttp; reflexivity.
Qed.
End server.

(** ** Client and runner *)

Section runner.
Context (challenge : ServerChallenge) (fresh : PendingSubmission -> string) (elapsed : PendingSubmission -> Z).

(** The answer to one submission. *)
Definition answer (s : PendingSubmission) : P2PChallengeMessage :=
  match sc_evaluate challenge (submission_request fresh s) with
  | Ok r => EvaluationResultMsg (sc_challenge_id challenge) (ps_submission_hash s) (rs_score r) (elapsed s) (rs_results r)
  | Err e => EvaluationResultMsg (sc_challenge_id challenge) (ps_submission_hash s) f64_zero (elapsed s)
               (JObject [("error", js (SdkError_to_string e)); ("success", JBool false)])
  end.

(** The submissions a message brings for the challenge. *)
Definition brought (m : P2PChallengeMessage) : list PendingSubmission :=
  match m with
  | SubmissionsResponse id l => if decide (id = sc_challenge_id challenge) then l else []
  | _ => []
  end.

Lemma evaluate_submission_sent s c :
  (evaluate_submission challenge fresh elapsed (sc_challenge_id challenge) s c).2 =
  if chn_open c then mk_Channels true (chn_sent c ++ [answer s]) (chn_incoming c) (chn_closed c) else c.
Proof.
  unfold evaluate_submission, answer, send. destruct (sc_evaluate challenge (submission_request fresh s));
    by destruct (chn_open c).
Qed.

Lemma evaluate_batch_sent l c :
  evaluate_batch challenge fresh elapsed (sc_challenge_id challenge) l c =
  if chn_open c then mk_Channels true (chn_sent c ++ (answer <$> l)) (chn_incoming c) (chn_closed c) else c.
Proof.
  unfold evaluate_batch. revert c. induction l as [|s l IH]; intros c.
  - destruct c as [[] ? ? ?]; cbn; by rewrite ?app_nil_r.
  - cbn [fold_left]. rewrite IH, evaluate_submission_sent. destruct c as [[] sent inc cl]; [|done]. cbn.
    by rewrite <- app_assoc.
Qed.

(** The runner answers every submission that a response for its challenge
    brings exactly once and in order, whether the challenge evaluates it or
    fails, and nothing else; it stops without an error when the channel closes. *)
Theorem runner_answers_each messages c :
  chn_open c = true ->
  run_decentralized challenge fresh elapsed messages c =
    (Ok tt, mk_Channels true (chn_sent c ++ (answer <$> (messages ≫= brought))) (chn_incoming c) (chn_closed c)).
Proof.
  unfold run_decentralized. intros Hopen. f_equal. revert c Hopen.
  induction messages as [|m messages IH]; intros [? sent inc cl] Hopen; cbn in Hopen; subst.
  - cbn. by rewrite app_nil_r.
  - cbn [fold_left]. rewrite bind_cons, fmap_app.
    assert (Hm : runner_message challenge fresh elapsed (sc_challenge_id challenge) m (mk_Channels true sent inc cl) =
              mk_Channels true (sent ++ (answer <$> brought m)) inc cl).
    { destruct m; cbn; rewrite ?app_nil_r; try done. rewrite evaluate_batch_sent. cbn.
      destruct (decide _) as [->|Hne].
      - by rewrite bool_decide_eq_true_2.
      - rewrite bool_decide_eq_false_2 by done. cbn. by rewrite app_nil_r. }
    rewrite Hm, IH by done. cbn. by rewrite app_assoc.
Qed.
End runner.

(** Scores and weights in range, or not numbers. *)
Definition unit_range (x : f64) : Prop := is_nan x = true \/ (f64_leb f64_zero x = true /\ f64_leb x f64_one = true).

Definition scores_in_range (m : P2PChallengeMessage) : Prop :=
  match m with
  | EvaluationResultMsg _ _ score _ _ => unit_range score
  | WeightVoteMsg _ _ weights => Forall (fun x => unit_range x.2) weights
  | _ => True
  end.

Lemma clamp_unit_range x : unit_range (f64_clamp f64_zero f64_one x).
Proof.
  unfold unit_range. destruct (is_nan x) eqn:Hx; [left; by destruct x|right].
  unfold f64_clamp. destruct (f64_ltb x f64_zero) eqn:H0; [done|].
  destruct (f64_ltb f64_one x) eqn:H1; [done|]. by split; apply f64_le_leb.
Qed.

(** Any call of the client. *)
Inductive client_call (client : P2PChallengeClient) : Channels -> Channels -> Prop :=
| call_submit hash score ms data c :
    client_call client c (submit_evaluation client hash score ms data c).2
| call_pending limit c : client_call client c (get_pending_submissions client limit c).2
| call_vote epoch weights c : client_call client c (vote_weights client epoch weights c).2
| call_weights epoch c : client_call client c (get_weights client epoch c).2
| call_store s c : client_call client c (client_store_submission client s c).2
| call_status hash c : client_call client c (get_evaluation_status client hash c).2
| call_arrival m c :
    client_call client c (mk_Channels (chn_open c) (chn_sent c) (chn_incoming c ++ [m]) (chn_closed c)).

(** A request sends one message, whatever the answer. *)
Lemma request_sent {A} msg context timeout (k : option P2PChallengeMessage -> P2PM A) c :
  (forall o c, chn_sent (k o c).2 = chn_sent c) ->
  chn_sent ((_ ← send msg context; answer ← recv_timeout timeout; k answer) c).2 =
    if chn_open c then chn_sent c ++ [msg] else chn_sent c.
Proof.
  intros Hk. unfold mbind, SE_bind, send, recv_timeout. destruct c as [[] sent [|m inc] []]; cbn; by rewrite ?Hk.
Qed.

Lemma client_call_sent client c c' :
  client_call client c c' ->
  chn_sent c' = chn_sent c \/ exists m, chn_sent c' = chn_sent c ++ [m] /\ scores_in_range m.
Proof.
  destruct 1; [| | | | | |by left].
  1, 3, 5: unfold submit_evaluation, vote_weights, client_store_submission, send; destruct (chn_open c); [|by left];
    right; eexists; (split; [reflexivity|]).
  - apply clamp_unit_range.
  - apply Forall_fmap, list.Forall_forall. intros x _. apply clamp_unit_range.
  - done.
  - unfold get_pending_submissions. rewrite request_sent by (intros [[]|] ?; done). destruct (chn_open c); [right|by left].
    by eexists.
  - unfold get_weights. rewrite request_sent by (intros [[]|] ?; done). destruct (chn_open c); [right|by left].
    by eexists.
  - unfold get_evaluation_status. rewrite request_sent by (intros [[]|] ?; done). destruct (chn_open c); [right|by left].
    by eexists.
Qed.

(** Whatever calls a challenge makes on the client, and whatever arrives in
    between, every score and weight it has sent is between 0 and 1 unless it is
    not a number. *)
Theorem client_sends_in_range client c c' :
  rtc (client_call client) c c' -> Forall scores_in_range (chn_sent c) -> Forall scores_in_range (chn_sent c').
Proof.
  induction 1 as [|c c1 c2 Hcall Hrtc IH]; [done|]. intros Hc. apply IH.
  destruct (client_call_sent client c c1 Hcall) as [->|(m & -> & Hm)]; [done|].
  apply Forall_app. split; [done|]. by constructor.
Qed.

(** Answers are not matched to requests: after a request for weights that
    timed out, the late answer to it is returned as the answer for the next
    epoch asked for, and an answer of any other kind is consumed and lost. *)
Theorem late_answer_misattributed client e1 e2 id late weights other c :
  chn_open c = true -> chn_incoming c = [] -> chn_closed c = false ->
  (forall id e w, other <> WeightsResponse id e w) ->
  let '(r1, c1) := get_weights client e1 c in
  r1 = Err (SdkTimeout "Request weights timeout") /\
  (get_weights client e2 (mk_Channels true (chn_sent c1) [WeightsResponse id late weights] false)).1 = Ok weights /\
  let '(r3, c3) := get_weights client e2 (mk_Channels true (chn_sent c1) [other] false) in
  r3 = Ok [] /\ chn_incoming c3 = [].
Proof.
  intros Ho Hi Hc Hother. destruct c as [open sent inc cl]. cbn in Ho, Hi, Hc. subst. cbn.
  split_and!; [done..|]. destruct other; try (by split). by destruct (Hother challenge_id epoch weights0).
Qed.

(** * Concrete runs *)

Module SdkToy.
Import Toy.

(** A cipher that shifts every byte and starts with a tag of key and nonce. *)
#[local] Instance toy_aead : Aead := {|
  Cipher := bytes;
  aes_new := fun key => if (length key =? 32)%nat then Some key else None;
  aes_encrypt := fun c nonce data => Some (toy_sum (c ++ nonce) :: (Z.succ <$> data));
  aes_decrypt := fun c nonce sealed =>
    match sealed with
    | tag :: data => if bool_decide (tag = toy_sum (c ++ nonce)) then Some (Z.pred <$> data) else None
    | [] => None
    end
|}.
#[local] Instance toy_aead_laws : AeadLaws.
Proof.
  split.
  - intros key Hlen. cbn. rewrite Hlen. by eexists.
  - intros c nonce data sealed [= <-]. cbn. rewrite bool_decide_eq_true_2 by done. f_equal.
    rewrite <- list_fmap_compose. rewrite <- (list_fmap_id data) at 2. apply list_fmap_ext. intros i x _. cbn. lia.
Qed.

Definition key : bytes := replicate 32 7.
Definition nonce : bytes := replicate 12 1 ++ replicate 12 2.
Definition code : bytes := str_bytes "fn main() {}".
Definition sealed : bytes := match encrypt_data code key nonce with Ok b => b | Err _ => [] end.
Definition submission : EncryptedSubmission :=
  EncryptedSubmission_new 5 "term" "miner" "cold" sealed (hash_key key) nonce (compute_content_hash code) [] 3.

Lemma sealed_submission_opens_witness :
  exists opened, decrypt_data (es_encrypted_data submission) key (es_nonce submission) = Ok opened /\ opened = code.
Proof.
  destruct (sealed_submission_opens 5 9 "term" "miner" "cold" code key nonce [] [] 3 sealed) as (_ & _ & o & H1 & H2 & _);
    [by_compute | by_compute |]. exists o. by split.
Defined.

Lemma signature_message_binds_witness :
  toy_hash code = toy_hash code /\ "miner"%string = "miner"%string /\ 3 = 3.
Proof.
  apply (signature_message_binds (toy_hash code) (toy_hash code) "miner" "miner" 3 3);
    [by_compute | by_compute | unfold is_u64; lia | unfold is_u64; lia | done].
Defined.

Lemma submission_hash_binds_witness :
  verify_hash (mk_EncryptedSubmission "other" "thief" "cold" (es_encrypted_data submission) (es_key_hash submission)
    (es_nonce submission) (es_submission_hash submission) [] [] 6 4) = true.
Proof.
  apply (submission_hash_binds submission submission "other" "thief" "cold" [] [] 6 4); by_compute.
Defined.

Lemma nonce_tail_ignored_witness :
  encrypt_data code key nonce = encrypt_data code key (replicate 12 1 ++ replicate 12 9).
Proof.
  apply (nonce_tail_ignored nonce (replicate 12 1 ++ replicate 12 9)). by_compute.
Defined.

(** A codec of plain agents and results. *)
#[local] Instance EvalResult_eq_dec : EqDecision EvalResult.
Proof. solve_decision. Defined.

Definition toy_agent (h : string) (t : DateTime) : AgentInfo := AgentInfo_new t h.
Definition toy_result (job : Uuid) (h : string) (t : DateTime) : EvalResult := EvalResult_new t job h f64_one.

#[local] Instance toy_db_codec : DbCodec := {|
  encode_agent := fun a =>
    if bool_decide (a = toy_agent (ai_hash a) (ai_submitted_at a)) then Ok (ai_submitted_at a :: str_bytes (ai_hash a))
    else Err "unsupported"%string;
  decode_agent := fun b =>
    match b with t :: h => Ok (toy_agent (bytes_str h) t) | [] => Err "empty"%string end;
  encode_result := fun r =>
    if bool_decide (r = toy_result (er_job_id r) (er_agent_hash r) (er_timestamp r))
    then Ok (er_job_id r :: er_timestamp r :: str_bytes (er_agent_hash r)) else Err "unsupported"%string;
  decode_result := fun b =>
    match b with job :: t :: h => Ok (toy_result job (bytes_str h) t) | _ => Err "short"%string end;
  job_text := Z_to_string
|}.
#[local] Instance toy_db_codec_laws : DbCodecLaws.
Proof.
  split.
  - intros a b. cbn. case_bool_decide as Ha; [|done]. intros [= <-]. by rewrite bytes_str_bytes, <- Ha.
  - intros r b. cbn. case_bool_decide as Hr; [|done]. intros [= <-]. by rewrite bytes_str_bytes, <- Hr.
Qed.
#[local] Instance job_text_inj : Inj (=) (=) job_text.
Proof. intros a b. cbn. unfold Z_to_string. apply (inj pretty.pretty). Qed.

Definition saves : list DbOp :=
  [SaveAgent (toy_agent "abc" 1); SaveResult (toy_result 1 "abc" 10); SaveResult (toy_result 2 "abd" 11);
   SaveResult (toy_result 2 "abc" 12); SaveAgent (toy_agent "abc" 4); SaveResult (toy_result 1 "abc" 15)].
Definition saved : ChallengeDatabase := fold_left run_op saves (Database_open 77 ∅ ∅ ∅ ∅).

Lemma saves_storable : Forall storable saves.
Proof. by_compute. Qed.

Lemma saved_records_found_witness :
  get_agent "abc" saved = Ok (Some (toy_agent "abc" 4)) /\
  exists l, get_results_for_agent "abc" saved = Ok l /\ toy_result 1 "abc" 15 ∈ l.
Proof.
  destruct (saved_records_found 77 saves "abc" saves_storable ltac:(apply (bool_decide_eq_true_1 _); vm_compute; reflexivity))
    as [Ha (l & Hl & _ & Hr)].
  split; [apply (Ha "abc"%string)|]. exists l. split; [exact Hl|]. apply Hr. split; vm_compute; reflexivity.
Defined.

Lemma latest_results_spec_witness :
  exists l, get_latest_results saved = Ok l /\ NoDup (er_agent_hash <$> l) /\
    forall r, r ∈ l -> er_agent_hash r = "abc"%string -> 15 <= er_timestamp r.
Proof.
  destruct (latest_results_spec saved [toy_result 1 "abc" 15; toy_result 2 "abc" 12; toy_result 2 "abd" 11])
    as (l & Hl & Hnd & _ & Hmax); [vm_compute; reflexivity|].
  exists l. split_and!; [done..|]. intros r Hr Hag. destruct (Hmax r Hr) as [_ Hle].
  apply (Hle (toy_result 1 "abc" 15)); [left | by rewrite Hag].
Defined.

(** A hash with a colon: its results are listed for the agent named by the part
    before the colon. *)
Lemma results_mix_agents :
  get_results_for_agent "abc" (run_op (Database_open 77 ∅ ∅ ∅ ∅) (SaveResult (toy_result 1 "abc:d" 10))) =
    Ok [toy_result 1 "abc:d" 10].
Proof. vm_compute. reflexivity. Qed.

(** A challenge that gives every submission the score 2 and fails on an empty
    hash. *)
Definition generous : ServerChallenge :=
  mk_ServerChallenge "term" "Term" "1.0"
    (fun r => if is_empty (rq_submission_id r) then Err (SdkEvaluation "no submission")
              else Ok (response_success (rq_request_id r) (f64_of_Z 2) JNull))
    default_validate (default_config "term" "Term" "1.0").
Definition server : ServerState := bd_build 0 (Builder_new generous).
Definition request : EvaluationRequest := mk_EvaluationRequest "r1" "s1" "m1" JNull None 0 None.

Lemma pending_counts_requests_witness :
  sv_pending (evaluate_end (evaluate_begin (evaluate_begin server))) = 1.
Proof.
  apply (pending_counts_requests (Builder_new generous) 0 3
    (mk_ServerRun (evaluate_end (evaluate_begin (evaluate_begin server))) [request]
       [evaluate_reply 4 "r1" (sc_evaluate generous request)])); [|lia].
  eapply nsteps_l; [apply (step_arrive _ request)|]. eapply nsteps_l; [apply (step_arrive _ request)|].
  eapply nsteps_l; [|apply nsteps_O]. exact (step_finish (mk_ServerRun (evaluate_begin (evaluate_begin server)) [request; request] []) [] request
    [request] 4 eq_refl).
Defined.

Lemma dropped_request_stays_pending_witness :
  sv_pending (evaluate_end (evaluate_begin (evaluate_begin server))) = 1.
Proof.
  apply (dropped_request_stays_pending (mk_ServerRun (evaluate_begin server) [request] [])
    (mk_ServerRun (evaluate_begin server) [] []) 2
    (mk_ServerRun (evaluate_end (evaluate_begin (evaluate_begin server))) []
       [evaluate_reply 4 "r1" (sc_evaluate generous request)])); [done| | |cbn; lia].
  - exact (step_drop (mk_ServerRun (evaluate_begin server) [request] []) [] request [] eq_refl).
  - eapply nsteps_l; [apply (step_arrive _ request)|]. eapply nsteps_l; [|apply nsteps_O].
    exact (step_finish (mk_ServerRun (evaluate_begin (evaluate_begin server)) [request] []) [] request [] 4 eq_refl).
Defined.

Definition instance : ChallengeInstance := mk_ChallengeInstance 1 "c1" "term:1" "http://term:8080" 0 CsRunning.

Lemma monitor_accepts_server_witness :
  verdict (fun _ => Ok (mk_HttpResponse 200 "" (Ok (health_json (health_handler 9000 (set_pending 50 server))))))
    instance = CsRunning.
Proof.
  apply (monitor_accepts_server (fun _ => Ok (mk_HttpResponse 200 "" (Ok (health_json
    (health_handler 9000 (set_pending 50 server)))))) instance "" 9000 (set_pending 50 server)). reflexivity.
Defined.

Lemma evaluation_end_to_end_witness :
  evaluate_generic (fun _ => Ok (mk_HttpResponse 200 "" (Ok (response_json
    (with_time 4 (response_success "r1" (f64_of_Z 2) JNull)))))) {[1 := instance]} 1 JNull None =
  Ok (response_json (with_time 4 (response_success "r1" (f64_of_Z 2) JNull))).
Proof.
  apply (evaluation_end_to_end (fun _ => Ok (mk_HttpResponse 200 "" (Ok (response_json
    (with_time 4 (response_success "r1" (f64_of_Z 2) JNull)))))) {[1 := instance]} 1 instance JNull None request 4 server "");
    [reflexivity | reflexivity | cbn; lia | reflexivity].
Defined.

Definition pending (hash : string) : PendingSubmission := mk_PendingSubmission hash "miner" "code" JNull 3.
Definition quiet : Channels := mk_Channels true [] [] false.

Lemma runner_answers_each_witness :
  chn_sent (run_decentralized generous (fun _ => "id"%string) (fun _ => 7)
    [SubmissionsResponse "term" [pending "s1"; pending ""]; SubmissionsResponse "other" [pending "s2"];
     RequestWeights "term" 3] quiet).2 =
  [EvaluationResultMsg "term" "s1" (f64_of_Z 2) 7 JNull;
   EvaluationResultMsg "term" "" f64_zero 7
     (JObject [("error", js "Evaluation error: no submission"); ("success", JBool false)])].
Proof.
  rewrite (runner_answers_each generous (fun _ => "id"%string) (fun _ => 7)
    [SubmissionsResponse "term" [pending "s1"; pending ""]; SubmissionsResponse "other" [pending "s2"];
     RequestWeights "term" 3] quiet eq_refl). reflexivity.
Defined.

Definition client : P2PChallengeClient := mk_P2PChallengeClient "term" "validator".

(** The runner sends a score of two, which the client would have clamped. *)
Lemma runner_score_out_of_range :
  ~ Forall scores_in_range (chn_sent (run_decentralized generous (fun _ => "id"%string) (fun _ => 7)
      [SubmissionsResponse "term" [pending "s1"]] quiet).2) /\
  Forall scores_in_range (chn_sent (submit_evaluation client "s1" (f64_of_Z 2) 7 JNull quiet).2).
Proof.
  split.
  - cbn. intros H. apply Forall_inv in H. destruct H as [H|[_ H]]; vm_compute in H; done.
  - cbn. constructor; [|constructor]. right. split; reflexivity.
Qed.

Lemma client_sends_in_range_witness :
  Forall scores_in_range (chn_sent (vote_weights client 3 [("m1"%string, f64_of_Z 5)]
    (submit_evaluation client "s1" (f64_of_Z 2) 7 JNull quiet).2).2).
Proof.
  apply (client_sends_in_range client quiet); [|constructor].
  eapply rtc_l; [apply call_submit|]. eapply rtc_l; [apply call_vote|]. apply rtc_refl.
Defined.

Lemma late_answer_misattributed_witness :
  (get_weights client 8 (mk_Channels true [RequestWeights "term" 7] [WeightsResponse "term" 7 [("m1"%string, f64_one)]] false)).1 =
  Ok [("m1"%string, f64_one)].
Proof.
  apply (late_answer_misattributed client 7 8 "term" 7 [("m1"%string, f64_one)] (RequestWeights "x" 1) quiet); done.
Defined.
End SdkToy.
